(* ===== verification/_CoqProject ===== *)
-Q . S2P
Prelude.v
PageConsts.v
Buddy.v
Physical.v
SoundRules.v
Extents.v
Holes.v
VirtualSpace.v
CursorPolicy.v
PageCursor.v
PageOps.v
Reclaimer.v
ManagedSpace.v
ManagedInv.v
ManagedOps.v
SwapView.v
PageCache.v
CowMemory.v
CowProofs.v
CowSystem.v
PacketFilter.v
Checksum.v
Ip4.v
Routing.v
Tcp.v
TcpProofs.v
TcpSystem.v
TcpStream.v
IpcQueue.v
IpcQueueInv.v
IpcQueueSteps.v
IpcQueueUser.v
IpcQueueSystem.v
IpcQueueNotify.v
IpcQueueThms.v
SubmissionQueue.v
SubmissionQueueInv.v
SubmissionQueueThms.v
Scheduler.v
SchedulerInv.v
SchedulerSteps.v
SchedulerThms.v
Thread.v
ThreadThms.v
