(* ===== verification/Prelude.v ===== *)
(** * A verification of the memory management, scheduler, queues and network stack of managarm

    Managarm is an operating system of a microkernel (thor), a boot loader (eir), and
    servers for drivers, file systems, the network and POSIX.  This development models
    the memory management of the kernel from physical pages to the page cache, the
    negotiation of sound parameters in libsound, packet filters, IPv4 and TCP of the
    network server, the queues between the kernel and its clients, and the scheduler with
    the threads that block on it.  File names are relative to src/.

    ** The parts and how they interact

    The physical allocator hands out page frames from regions, each with a buddy
    allocator.  An address space keeps holes and mappings in two search trees; mapping,
    protecting and unmapping a range updates the trees and calls the page range
    operations, which walk the page tables with a cursor, one entry format per
    architecture, and keep the use counts of cached pages.  Pages of files and of swap
    live in page caches: clients fault pages in, a server provides and saves their
    contents, two coroutines write dirty pages back and reclaim unused ones; the
    reclaimer ages the unused pages in generations.  Copy-on-write memory overlays any
    other memory with private copies of pages and can be forked.

    In the network server a frame goes to the raw sockets, through their filters, and to
    the IP layer, which puts fragments together and hands TCP packets to the socket of
    their connection.  Sockets send through the router, which chooses a link, and the IP
    layer, which cuts packets that are too large for the link into fragments.

    Servers and the kernel talk through queues in shared memory: the kernel writes the
    results of operations into chunks, the dispatcher of helix takes them out and gives
    the chunks back when the last handle to one of their elements is gone.  Requests go the
    other way through chunks that the kernel gives back.

    The scheduler of a processor picks among the runnable entities, threads and fibers, by
    priority and by how much less than their share they had.  A thread that waits for an
    operation blocks, and whoever completes the operation, posts work to the thread or
    raises a condition on it makes the scheduler run it again.

    - [Prelude]: machine integers, the [outcome] monad, tactics, lemmas on lists.
    - [PageConsts]: page size, access bits, caching modes
      (kernel/thor/generic/thor-internal/arch-generic/paging-consts.hpp).
    - [Buddy]: [BuddyAccessor] of kernel/common/physical-buddy.hpp.  The table of
      [int8_t] is a list; an access outside of it is a fault.
    - [Physical]: [PhysicalChunkAllocator] and the caching modes of the firmware map
      (kernel/thor/generic/physical.cpp).
    - [SoundRules]: interval arithmetic, the rules, [applyRules] and HW_REFINE of
      drivers/libsound/src.
    - [Extents]: ordered address ranges and the interface [RbTree] of frg::rbtree.
    - [Holes]: the hole tree of kernel/thor/generic/address-space.cpp.
    - [VirtualSpace]: the mapping tree with map, protect and unmap (address-space.cpp).
    - [CursorPolicy]: the concept [CursorPolicy] as a class with laws, with its instances
      for x86, ARM, RISC-V, EPT, NPT and VT-d (kernel/thor/arch).
    - [PageCursor]: [PageCursor] of thor-internal/arch-generic/cursor.hpp, for any policy.
    - [PageOps]: the page range operations of thor-internal/address-space.hpp.
    - [Reclaimer]: [MemoryReclaimer] of kernel/thor/generic/memory-view.cpp.
    - [ManagedSpace]: the page cache of memory-view.cpp, one function per critical section.
    - [ManagedInv], [ManagedOps], [SwapView]: its invariant, its operations, swappable memory.
    - [PageCache]: the page cache as a transition system and its theorems.
    - [CowMemory]: [CopyOnWriteMemory] of memory-view.cpp, one function per critical section.
    - [CowProofs], [CowSystem]: its invariant; the transition system and its theorems.
    - [PacketFilter]: classic BPF (core/lib/bpf) and the raw sockets of
      servers/netserver/src/raw.cpp.
    - [Checksum]: servers/netserver/src/ip/checksum.cpp, buffers and big-endian integers.
    - [Ip4]: packets, fragmentation and reassembly of servers/netserver/src/ip/ip4.cpp.
    - [Routing]: [Ip4Router] and the addresses of the links (ip4.cpp, ip4.hpp).
    - [Tcp]: ring buffers, packets, sockets and the table of bound sockets of
      servers/netserver/src/ip/tcp4.cpp.
    - [TcpProofs], [TcpSystem], [TcpStream]: ring buffers are queues, packets are parsed as
      they were built; two ends with a network between them, their invariant, its theorem.
    - [IpcQueue]: the completion direction of [IpcQueue] of kernel/thor/generic/ipc-queue.cpp
      and of [Dispatcher] of hel/include/helix/ipc.hpp, as two threads on shared memory.
    - [IpcQueueInv], [IpcQueueSteps], [IpcQueueUser], [IpcQueueSystem]: its invariant, the
      steps of the kernel and of the dispatcher, all events; [IpcQueueNotify]: what the
      notification words announce; [IpcQueueThms]: its theorems.
    - [SubmissionQueue]: the submission direction, [IpcQueue::processSq] and
      [Dispatcher::pushSq]; [SubmissionQueueInv], [SubmissionQueueThms]: its invariant and
      the steps of user space, the steps of the kernel and its theorems.
    - [Scheduler]: [Scheduler] of kernel/thor/generic/schedule.cpp and the sequences of its
      calls in thread.cpp and fiber.cpp, with the interface [PairingHeap] of
      frg::pairing_heap; [SchedulerInv], [SchedulerSteps], [SchedulerThms]: its invariant, its
      operations, all events and the theorems.
    - [Thread]: [Thread::asyncBlockCurrent] of thor-internal/thread.hpp with [blockCurrent],
      [unblockOther] and [raiseCondition_] of thread.cpp and the work queues of
      work-queue.cpp, on top of [Scheduler]; [ThreadThms]: its invariant and theorems.

    ** How code is modelled

    Integers are [Z], wrapped to their width where the code can wrap them.  Code that can
    stop returns an [outcome]: [Ret] of a value or [Stop] with the reason (a failed
    assertion, an index out of range, a null pointer, [OutOfFuel]).  A theorem that an
    operation equals [Ret] of something thus says that no assertion fails.  Objects that
    code mutates are records that are passed through; critical sections are atomic.
    frg::rbtree, frg::pairing_heap and the page table formats are classes with the laws
    that their clients use; there is an instance for each.

    ** What the theorems show

    - [Buddy], [Physical]: the buddy allocator finds the lowest free block, release undoes
      it, the run-time check of the table is exactly the invariant; the physical allocator
      and its counters.
    - [SoundRules]: negotiation never loses a configuration, for bounds up to the full
      32-bit range as long as no quotient of UINT32_MAX is rounded up, and terminates.
    - [Holes]: ranges of addresses are allocated and released exactly.
    - [VirtualSpace]: unmap, protect and map refine an abstract address space, a partial
      function from addresses to memory with flags.
    - [CursorPolicy], [PageCursor]: page table entries grant what was asked for; the cursor
      refines a walk of the tables.
    - [PageOps]: the page range operations change exactly the entries of the range, with
      resident set size, use counts and dirty pages in step; what the hardware grants is
      read from the bits of an entry ([HardwareRights]).
    - [Reclaimer]: a page that nobody touches is reclaimed after eight rotations.
    - [PageCache]: the page cache under every interleaving of clients, servers and its own
      coroutines: no assertion fails, no write is lost, no swap slot is shared, requests
      are fused correctly, and a round of the drain loop requests all dirty pages.  The
      server may invalidate pages, but for dirty ones and those under eviction, where
      the code is wrong ([invalidable]).
    - [CowSystem]: copy-on-write memory under every interleaving: no assertion fails, a view
      reads what was last written to it, a fork is a snapshot, and a frame is handed out
      for writing only to the one view that reads it.  The memory below does not change,
      and two kinds of forks that the code handles wrongly are excluded ([cow_enabled]).
    - [PacketFilter]: a packet filter that passes validation has a verdict on every packet
      that is long enough, and a raw socket receives what the verdict says.
    - [Ip4], [Routing]: the fragments of a message are put together again, in any order,
      between other packets and with at most one round of the timer in between; a lookup
      finds the best route by prefix, address, metric, scope and MTU.
    - [TcpStream]: over a network that loses, duplicates and reorders packets a TCP
      connection delivers a prefix of what was written, without a failed assertion.
    - [IpcQueueThms]: a completion queue under every interleaving of the kernel and the
      dispatcher: elements arrive in order and intact, their data stays in place while a
      handle exists, no wake-up is lost, and a call of wait returns with the next element
      unless the run queue of its thread interrupts it.
    - [SubmissionQueueThms]: what user space pushes is dispatched in order and intact,
      without errors, and a call of [helDriveQueue] leaves nothing behind.
    - [SchedulerThms]: the scheduler under every sequence of events, migrations and changes
      of priority included: no assertion fails, the running entity has the greatest
      priority, a resumed entity is not forgotten, and entities of equal priority get
      equal shares of the processor up to a constant.
    - [ThreadThms]: a thread and those who wake it under every interleaving: no assertion
      fails, no wake-up is lost, and the thread returns once its operation is done and
      everybody else has finished.

    ** Bounds and fuel

    Loops without a structural argument take fuel, and running out of it is [Stop
    OutOfFuel], which the theorems exclude: the loops of the buddy and the physical
    allocator run at most 64 times; loops over the pages of a range as often as the range
    has pages, loops over mappings as often as the tree has nodes, and the fuel that the
    operations pass is that number; [applyRules] has no bound in the code, and
    [SoundRules] shows that the sum of the lengths of the intervals, which shrinks in every
    round, is one.
    The theorems about ranges assume that addresses and sizes are 64-bit numbers and that
    counts do not overflow.

    ** Not modelled

    Locks (every modelled operation runs under one lock, but for the queues and blocking
    threads, whose steps are single accesses to shared words) and memory ordering, waiting of
    coroutines (a coroutine is the sequence of its critical sections), the eviction queue
    and TLB shootdown, log messages.  Of the kernel: load balancing, timers
    other than the preemption deadline, threads beyond scheduling and blocking, IPC other than
    queues, system calls, interrupts, the boot loader.  Outside of the kernel: drivers other than the
    rules of libsound, UDP, ICMP, ARP and netlink of the network server, the POSIX server
    and the protocol libraries.
    They do not take part in the properties above; most of them consist of I/O on devices
    or on channels. *)
From Stdlib Require Export ZArith Lia.
From stdpp Require Export base tactics list gmap numbers.

Declare Scope managarm_scope.
Delimit Scope managarm_scope with mgr.
Open Scope Z_scope.
Open Scope managarm_scope.

(** ** Outcomes of C++ code

    Kernel and server code stops in ways that the models keep apart from
    ordinary return values: a failed [assert] (a kernel panic or a server
    abort), an access outside of an array, and a null-pointer access.
    [OutOfFuel] is not an outcome of the code: it marks a run that is longer than
    the number of rounds a model allows for a loop, so that a theorem that says
    [Ret] also says that the bound was large enough. *)
Inductive fault : Set :=
| AssertionFailed
| OutOfBounds
| NullDereference
| OutOfFuel.

#[export] Instance fault_eq_dec : EqDecision fault.
Proof. solve_decision. Defined.

Inductive outcome (A : Type) : Type :=
| Ret (a : A)
| Stop (f : fault).
Arguments Ret {A} a.
Arguments Stop {A} f.

#[export] Instance outcome_ret : MRet outcome := @Ret.
#[export] Instance outcome_bind : MBind outcome :=
  λ A B k m, match m with Ret a => k a | Stop f => Stop f end.
#[export] Instance outcome_fmap : FMap outcome :=
  λ A B g m, match m with Ret a => Ret (g a) | Stop f => Stop f end.

#[export] Instance outcome_eq_dec {A} `{EqDecision A} : EqDecision (outcome A).
Proof. solve_decision. Defined.

(** The C++ [assert] macro. *)
Definition assert (b : bool) : outcome unit :=
  if b then Ret tt else Stop AssertionFailed.

(** Dereferencing a pointer that may be null. *)
Definition deref {A} (p : option A) : outcome A :=
  match p with Some a => Ret a | None => Stop NullDereference end.

Notation "'assert!' b ; k" := (assert b ≫= λ _, k)
  (at level 20, b at level 100, k at level 200, right associativity) : managarm_scope.

Lemma bind_Ret {A B} (m : outcome A) (k : A → outcome B) b :
  m ≫= k = Ret b ↔ ∃ a, m = Ret a ∧ k a = Ret b.
Proof. destruct m; cbn; naive_solver. Qed.

Lemma assert_Ret b u : assert b = Ret u ↔ b = true.
Proof. destruct b, u; naive_solver. Qed.

Lemma assert_bind {B} b (k : outcome B) : b = true → (assert! b; k) = k.
Proof. by intros ->. Qed.

Lemma deref_Ret {A} (p : option A) a : deref p = Ret a ↔ p = Some a.
Proof. destruct p; naive_solver. Qed.

(** ** Machine integers

    An unsigned integer of [w] bits is a [Z] in [[0, 2^w)]; operations that can
    leave that range are wrapped where the C++ code would wrap. *)
Definition wrap (w z : Z) : Z := z mod 2 ^ w.
Definition u8 : Z → Z := wrap 8.
Definition u16 : Z → Z := wrap 16.
Definition u32 : Z → Z := wrap 32.
Definition u64 : Z → Z := wrap 64.

(** Two's complement reading of a [w]-bit pattern. *)
Definition sx (w z : Z) : Z :=
  let v := wrap w z in if v <? 2 ^ (w - 1) then v else v - 2 ^ w.
Definition i8 : Z → Z := sx 8.
Definition i32 : Z → Z := sx 32.
Definition i64 : Z → Z := sx 64.

Lemma wrap_small w z : 0 ≤ z < 2 ^ w → wrap w z = z.
Proof. apply Z.mod_small. Qed.
Lemma wrap_bound w z : 0 ≤ w → 0 ≤ wrap w z < 2 ^ w.
Proof. intros. apply Z.mod_pos_bound. lia. Qed.
Lemma u8_small z : 0 ≤ z < 2 ^ 8 → u8 z = z.
Proof. apply wrap_small. Qed.
Lemma u32_small z : 0 ≤ z < 2 ^ 32 → u32 z = z.
Proof. apply wrap_small. Qed.
Lemma u64_small z : 0 ≤ z < 2 ^ 64 → u64 z = z.
Proof. apply wrap_small. Qed.
Lemma u32_bound z : 0 ≤ u32 z < 2 ^ 32.
Proof. apply wrap_bound. lia. Qed.
Lemma u64_bound z : 0 ≤ u64 z < 2 ^ 64.
Proof. apply wrap_bound. lia. Qed.

Lemma sx_small w z : 0 < w → - 2 ^ (w - 1) ≤ z < 2 ^ (w - 1) → sx w z = z.
Proof.
  intros Hw Hz. unfold sx, wrap.
  assert (2 ^ w = 2 * 2 ^ (w - 1)) as E.
  { rewrite <-Z.pow_succ_r by lia. f_equal. lia. }
  destruct (Z.lt_ge_cases z 0) as [Hneg|Hpos].
  - assert (z mod 2 ^ w = z + 2 ^ w) as ->.
    { symmetry. apply Z.mod_unique with (-1); lia. }
    case_match eqn:B; [apply Z.ltb_lt in B|]; lia.
  - rewrite Z.mod_small by lia.
    case_match eqn:B; [|apply Z.ltb_ge in B]; lia.
Qed.
Lemma i8_small z : -128 ≤ z < 128 → i8 z = z.
Proof. intros. unfold i8. apply sx_small; simpl; lia. Qed.

(** ** Arrays indexed by machine integers *)
Definition arr_get {A} (a : list A) (i : Z) : outcome A :=
  if decide (0 ≤ i) then
    match a !! Z.to_nat i with Some v => Ret v | None => Stop OutOfBounds end
  else Stop OutOfBounds.

Definition arr_set {A} (a : list A) (i : Z) (v : A) : outcome (list A) :=
  if decide (0 ≤ i < Z.of_nat (length a))
  then Ret (<[Z.to_nat i := v]> a) else Stop OutOfBounds.

Section arrays.
Context {A : Type}.
Implicit Types (a : list A) (i j : Z).

Lemma arr_get_lookup a i v :
  0 ≤ i → arr_get a i = Ret v ↔ a !! Z.to_nat i = Some v.
Proof. intros. unfold arr_get. rewrite decide_True by done. case_match; naive_solver. Qed.

Lemma arr_get_total `{Inhabited A} a i :
  0 ≤ i < Z.of_nat (length a) → arr_get a i = Ret (a !!! Z.to_nat i).
Proof.
  intros [? ?]. unfold arr_get. rewrite decide_True by done.
  rewrite (list_lookup_lookup_total_lt a); [done|lia].
Qed.

Lemma arr_set_Ret a i v :
  0 ≤ i < Z.of_nat (length a) → arr_set a i v = Ret (<[Z.to_nat i := v]> a).
Proof. intros. unfold arr_set. by rewrite decide_True. Qed.
End arrays.

(** ** Lists *)
Lemma ForallOrdPairs_snoc {A} (R : A → A → Prop) l x :
  ForallOrdPairs R l → Forall (λ y, R y x) l → ForallOrdPairs R (l ++ [x]).
Proof.
  induction 1 as [|y l Hy Hl IH]; simpl; [by repeat constructor|].
  intros [Hx Hn]%Forall_cons_1. constructor; [|by apply IH].
  apply Forall_app_2; [done|by constructor].
Qed.

(** ** Powers of two *)
Lemma pow2_pos k : 0 ≤ k → 0 < 2 ^ k.
Proof. intros. by apply Z.pow_pos_nonneg. Qed.
Lemma pow2_succ k : 0 ≤ k → 2 ^ (k + 1) = 2 * 2 ^ k.
Proof. intros. rewrite <-Z.pow_succ_r by lia. f_equal; lia. Qed.

Lemma shiftl_pow2 a n : 0 ≤ n → Z.shiftl a n = a * 2 ^ n.
Proof. apply Z.shiftl_mul_pow2. Qed.
Lemma shiftr_pow2 a n : 0 ≤ n → Z.shiftr a n = a / 2 ^ n.
Proof. apply Z.shiftr_div_pow2. Qed.

Lemma div_pow2_succ p k : 0 ≤ k → p / 2 ^ (k + 1) = p / 2 ^ k / 2.
Proof.
  intros. rewrite pow2_succ by lia. rewrite Z.mul_comm, Z.div_div; [done|..]; lia.
Qed.

(** ** Tactics *)
Create HintDb mgr.
#[export] Hint Resolve pow2_pos u32_bound u64_bound : mgr.

(** Destruct every [bind] that returned, keeping one equation per step. *)
Ltac inv_outcome :=
  repeat match goal with
  | H : Ret _ = Ret _ |- _ => injection H as H
  | H : Ret _ = Stop _ |- _ => discriminate H
  | H : Stop _ = Ret _ |- _ => discriminate H
  | H : mbind _ _ = Ret _ |- _ => apply bind_Ret in H as (? & ? & ?)
  | H : assert _ = Ret ?u |- _ => apply assert_Ret in H; try clear u
  | H : deref _ = Ret _ |- _ => apply deref_Ret in H
  end.

(** Case analysis on a comparison of machine integers, as a proposition;
    innermost comparisons first. *)
Ltac plain t := lazymatch t with context [if _ then _ else _] => fail | _ => idtac end.
Ltac case_Z :=
  match goal with
  | |- context [Z.ltb ?a ?b] => plain a; plain b; destruct (Z.ltb_spec a b)
  | |- context [Z.leb ?a ?b] => plain a; plain b; destruct (Z.leb_spec a b)
  | |- context [Z.eqb ?a ?b] => plain a; plain b; destruct (Z.eqb_spec a b)
  | |- context [Z.geb ?a ?b] => rewrite (Z.geb_leb a b)
  | |- context [Z.gtb ?a ?b] => rewrite (Z.gtb_ltb a b)
  end.

Ltac case_Z_in H :=
  match type of H with
  | context [Z.ltb ?a ?b] => plain a; plain b; destruct (Z.ltb_spec a b)
  | context [Z.leb ?a ?b] => plain a; plain b; destruct (Z.leb_spec a b)
  | context [Z.eqb ?a ?b] => plain a; plain b; destruct (Z.eqb_spec a b)
  | context [Z.geb ?a ?b] => rewrite (Z.geb_leb a b) in H
  | context [Z.gtb ?a ?b] => rewrite (Z.gtb_ltb a b) in H
  end.

(** Remove wrap-arounds whose argument is in range by linear arithmetic. *)
Ltac usmall :=
  repeat match goal with
  | |- context [u64 ?x] => rewrite (u64_small x) by lia
  | |- context [u32 ?x] => rewrite (u32_small x) by lia
  | |- context [u8 ?x] => rewrite (u8_small x) by lia
  end.
