(* ===== verification/PageConsts.v ===== *)
(** * Page sizes, access bits and caching modes

    thor-internal/arch-generic/paging-consts.hpp, shared by the physical memory,
    the address spaces and the page tables. *)
From S2P Require Import Prelude.

Definition kPageSize : Z := 4096.
Definition kPageShift : Z := 12.

(** namespace page_access *)
Definition access_write : Z := 1.
Definition access_execute : Z := 2.
Definition access_read : Z := 4.

(** namespace page_status *)
Definition status_present : Z := 1.
Definition status_dirty : Z := 2.

Inductive CachingMode :=
| CM_null | CM_uncached | CM_writeCombine | CM_writeThrough | CM_writeBack
| CM_mmio | CM_mmioNonPosted.

#[export] Instance CachingMode_eq_dec : EqDecision CachingMode.
Proof. solve_decision. Defined.

(** [flags & bit] as a condition. *)
Definition flag (flags bit : Z) : bool := negb (Z.land flags bit =? 0).

(** [struct PagesAffected]: what an operation on a range of pages did, in bytes. *)
Record PagesAffected := MkAffected {
  rssIncrease : Z;
  rssDecrease : Z;
  scanned : Z;
  anyRevoked : bool;
}.

(** [determineCachingMode] of address-space.hpp. *)
Definition determineCachingMode (physicalRangeCaching requested : CachingMode) : CachingMode :=
  if negb (bool_decide (requested = CM_null)) then
    if bool_decide (requested = CM_writeCombine) && bool_decide (physicalRangeCaching = CM_uncached)
    then requested else physicalRangeCaching
  else physicalRangeCaching.

(** [struct PhysicalRange] of memory-view.hpp: what [peekRange] returns. *)
Record PhysicalRange := MkRange {
  pr_physical : Z;
  pr_size : Z;
  pr_cachingMode : CachingMode;
  pr_isMutable : bool;
}.
