(* ===== verification/Buddy.v ===== *)
(** * The physical buddy allocator: kernel/common/physical-buddy.hpp *)
From S2P Require Import Prelude.

(** [struct BuddyAccessor].  The [int8_t] array that [buddyPointer_] points to
    is part of the state; a pointer [slice] into it is an offset. *)
Record BuddyAccessor := MkBuddy {
  baseAddress : Z;
  sizeShift : Z;
  buddy : list Z;
  numRoots : Z;
  tableOrder : Z;
}.

#[export] Instance BuddyAccessor_eq_dec : EqDecision BuddyAccessor.
Proof. solve_decision. Defined.

Definition set_buddy (b : BuddyAccessor) (a : list Z) : BuddyAccessor :=
  MkBuddy (baseAddress b) (sizeShift b) a (numRoots b) (tableOrder b).

Definition illegalAddress : Z := u64 (-1).

(** ** Operations *)

(** The [while (index < limit)] loop of [findAllocatableChunk]: [fuel] is the
    number of entries that are still to be looked at, [limit - index]. *)
Fixpoint find_index (a : list Z) (slice base index : Z) (fuel : nat) (target : Z)
    : outcome Z :=
  match fuel with
  | O => Ret index
  | S fuel' =>
      v ← arr_get a (slice + base + index);
      if target <=? v then Ret index
      else find_index a slice base (u64 (index + 1)) fuel' target
  end.

Definition findAllocatableChunk (b : BuddyAccessor) (slice base limit current target
    addressBits : Z) : outcome Z :=
  index ← find_index (buddy b) slice base 0 (Z.to_nat limit) target;
  if index =? limit then Ret illegalAddress
  else if negb (addressBits =? 64) then
    let chunkSize := u64 (Z.shiftl 1 (current + sizeShift b)) in
    let address := u64 (baseAddress b + u64 (u64 (base + index) * chunkSize)) in
    let addressLimit := u64 (Z.shiftl 1 addressBits) in
    if current =? target then
      if addressLimit <? u64 (address + chunkSize) then Ret illegalAddress
      else Ret (u64 (base + index))
    else if addressLimit <=? address then Ret illegalAddress
    else Ret (u64 (base + index))
  else Ret (u64 (base + index)).

(** The loop of [scanFreeChunks]: it carries [freeOrder] and [allEqualOrder]. *)
Fixpoint scan_loop (a : list Z) (slice base i : Z) (fuel : nat) (order freeOrder : Z)
    (allEqualOrder : bool) : outcome (Z * bool) :=
  match fuel with
  | O => Ret (freeOrder, allEqualOrder)
  | S fuel' =>
      v ← arr_get a (slice + base + i);
      scan_loop a slice base (i + 1) fuel' order
        (if freeOrder <=? v then v else freeOrder)
        (if negb (v =? order) then false else allEqualOrder)
  end.

Definition scanFreeChunks (a : list Z) (slice base limit order : Z) : outcome Z :=
  '(freeOrder, allEqualOrder) ← scan_loop a slice base 0 (Z.to_nat limit) order (-1) true;
  Ret (if (allEqualOrder : bool) then order + 1 else freeOrder).

(** Size of the slice of one order: [size_t(numRoots_) << (tableOrder_ - order)]. *)
Definition chunksIn (roots table order : Z) : Z := u64 (Z.shiftl roots (table - order)).

(** First phase of [allocate]: descend from [currentOrder] to [order]; [fuel] is
    [currentOrder - order].  [None] is the early return of [illegalAddress]. *)
Fixpoint descend (b : BuddyAccessor) (slice allocIndex currentOrder order addressBits : Z)
    (fuel : nat) : outcome (option (Z * Z)) :=
  match fuel with
  | O => Ret (Some (slice, allocIndex))
  | S fuel' =>
      let slice := slice + chunksIn (numRoots b) (tableOrder b) currentOrder in
      let currentOrder := currentOrder - 1 in
      allocIndex ← findAllocatableChunk b slice (u64 (2 * allocIndex)) 2 currentOrder
                     order addressBits;
      if allocIndex =? illegalAddress then Ret None
      else descend b slice allocIndex currentOrder order addressBits fuel'
  end.

(** Second phase of [allocate], and the last loop of [free]: fix all superior
    elements; [fuel] is [tableOrder_ - currentOrder]. *)
Fixpoint ascend (b : BuddyAccessor) (a : list Z) (slice updateIndex currentOrder : Z)
    (fuel : nat) : outcome (list Z) :=
  match fuel with
  | O => Ret a
  | S fuel' =>
      let updateIndex := updateIndex / 2 in
      freeOrder ← scanFreeChunks a slice (u64 (2 * updateIndex)) 2 currentOrder;
      let currentOrder := currentOrder + 1 in
      let slice := slice - chunksIn (numRoots b) (tableOrder b) currentOrder in
      a ← arr_set a (slice + updateIndex) (i8 freeOrder);
      ascend b a slice updateIndex currentOrder fuel'
  end.

Definition allocate (b : BuddyAccessor) (order addressBits : Z)
    : outcome (Z * BuddyAccessor) :=
  assert! 0 <=? order;
  if tableOrder b <? order then Ret (illegalAddress, b) else
  allocIndex ← findAllocatableChunk b 0 0 (numRoots b) (tableOrder b) order addressBits;
  if allocIndex =? illegalAddress then Ret (illegalAddress, b) else
  r ← descend b 0 allocIndex (tableOrder b) order addressBits
        (Z.to_nat (tableOrder b - order));
  match r with
  | None => Ret (illegalAddress, b)
  | Some (slice, allocIndex) =>
      v ← arr_get (buddy b) (slice + allocIndex);
      assert! v =? order;
      a ← arr_set (buddy b) (slice + allocIndex) (i8 (-1));
      a ← ascend b a slice allocIndex order (Z.to_nat (tableOrder b - order));
      let physical := u64 (baseAddress b + u64 (Z.shiftl allocIndex (order + sizeShift b))) in
      assert! (if addressBits <? 64 then Z.shiftr physical addressBits =? 0 else true);
      Ret (physical, set_buddy b a)
  end.

(** The descent loop of [free] only moves the slice. *)
Fixpoint descend_slice (b : BuddyAccessor) (slice currentOrder : Z) (fuel : nat) : Z :=
  match fuel with
  | O => slice
  | S fuel' => descend_slice b (slice + chunksIn (numRoots b) (tableOrder b) currentOrder)
                 (currentOrder - 1) fuel'
  end.

Definition free (b : BuddyAccessor) (address order : Z) : outcome BuddyAccessor :=
  assert! baseAddress b <=? address;
  assert! (0 <=? order) && (order <=? tableOrder b);
  let index := Z.shiftr (address - baseAddress b) (sizeShift b) in
  assert! index mod u64 (Z.shiftl 1 order) =? 0;
  let slice := descend_slice b 0 (tableOrder b) (Z.to_nat (tableOrder b - order)) in
  let updateIndex := Z.shiftr index order in
  v ← arr_get (buddy b) (slice + updateIndex);
  assert! v =? -1;
  a ← arr_set (buddy b) (slice + updateIndex) (i8 order);
  a ← ascend b a slice updateIndex order (Z.to_nat (tableOrder b - order));
  Ret (set_buddy b a).

(** [traverseForSanityCheck]: recursion over the order. *)
Fixpoint traverseForSanityCheck (b : BuddyAccessor) (slice : Z) (order : nat) (base : Z)
    : outcome Z :=
  v ← arr_get (buddy b) (slice + base);
  assert! -1 <=? v;
  assert! v <=? Z.of_nat order;
  match order with
  | O => Ret v
  | S order' =>
      let slice' := slice + chunksIn (numRoots b) (tableOrder b) (Z.of_nat order) in
      k0 ← traverseForSanityCheck b slice' order' (2 * base);
      if v =? -1 then
        k1 ← traverseForSanityCheck b slice' order' (2 * base + 1);
        let allFree := (k0 =? Z.of_nat order') && (k1 =? Z.of_nat order') in
        let allUsed := (k0 =? -1) && (k1 =? -1) in
        assert! allFree || allUsed;
        Ret (-1)
      else
        assert! k0 <=? v;
        k1 ← traverseForSanityCheck b slice' order' (2 * base + 1);
        assert! k1 <=? v;
        let allFree := (k0 =? Z.of_nat order') && (k1 =? Z.of_nat order') in
        let freeOrder := (if -1 <? k0 then k0 else -1) in
        let freeOrder := (if freeOrder <? k1 then k1 else freeOrder) in
        if allFree then assert! v =? Z.of_nat order; Ret (Z.of_nat order)
        else assert! v =? freeOrder; Ret freeOrder
  end.

Fixpoint sanity_loop (b : BuddyAccessor) (i : Z) (fuel : nat) : outcome unit :=
  match fuel with
  | O => Ret tt
  | S fuel' =>
      _ ← traverseForSanityCheck b 0 (Z.to_nat (tableOrder b)) i;
      sanity_loop b (i + 1) fuel'
  end.

Definition sanityCheck (b : BuddyAccessor) : outcome unit :=
  sanity_loop b 0 (Z.to_nat (numRoots b)).

(** [suitableOrder]; [num_items] has 64 bits, so 64 rounds are enough. *)
Fixpoint suitable_loop (num_items order : Z) (fuel : nat) : Z :=
  match fuel with
  | O => order
  | S fuel' =>
      if 64 <? num_items / u64 (Z.shiftl 1 order) then suitable_loop num_items (order + 1) fuel'
      else order
  end.
Definition suitableOrder (num_items : Z) : Z := suitable_loop num_items 0 64.

Fixpoint size_loop (roots table order size : Z) (fuel : nat) : Z :=
  match fuel with
  | O => size
  | S fuel' => size_loop roots table (order + 1) (u64 (size + chunksIn roots table order)) fuel'
  end.
Definition determineSize (roots table : Z) : Z :=
  size_loop roots table 0 0 (Z.to_nat (table + 1)).

(** [initialize] fills the slice of each order, from [tableOrder] down to 0. *)
Fixpoint fill (a : list Z) (pos : Z) (v : Z) (fuel : nat) : outcome (list Z) :=
  match fuel with
  | O => Ret a
  | S fuel' => a ← arr_set a pos (i8 v); fill a (pos + 1) v fuel'
  end.

Fixpoint initialize_loop (a : list Z) (slice roots table order : Z) (fuel : nat)
    : outcome (list Z) :=
  match fuel with
  | O => Ret a
  | S fuel' =>
      let chunksInOrder := chunksIn roots table order in
      a ← fill a slice order (Z.to_nat chunksInOrder);
      initialize_loop a (slice + chunksInOrder) roots table (order - 1) fuel'
  end.

Definition initialize (a : list Z) (roots table : Z) : outcome (list Z) :=
  initialize_loop a 0 roots table table (Z.to_nat (table + 1)).

(** ** Entries of the table

    The entry of the chunk [i] of order [k] sits at [off k + i]: the slices of
    the orders follow each other from [T] (the roots) down to 0. *)
Definition off (n T k : Z) : Z := n * (2 ^ (T - k) - 1).
Definition ent (n T : Z) (a : list Z) (k i : Z) : Z := a !!! Z.to_nat (off n T k + i).
Definition valid (n T k i : Z) : Prop := 0 ≤ k ≤ T ∧ 0 ≤ i < n * 2 ^ (T - k).
Definition table_size (n T : Z) : Z := n * (2 ^ (T + 1) - 1).

(** What an inner entry stores when neither it nor an ancestor is allocated. *)
Definition combine (k x y : Z) : Z :=
  if (x =? k) && (y =? k) then k + 1 else Z.max (-1) (Z.max x y).

(** The invariant of the table: every entry is in range, and an inner entry
    either summarises its children or is an allocated chunk (whose children
    were left marked as free). *)
Record WF_table (n T : Z) (a : list Z) : Prop := {
  wf_range k i : valid n T k i → -1 ≤ ent n T a k i ≤ k;
  wf_node k j : valid n T (k + 1) j → 0 ≤ k →
    ent n T a (k + 1) j = combine k (ent n T a k (2 * j)) (ent n T a k (2 * j + 1)) ∨
    (ent n T a (k + 1) j = -1 ∧ ent n T a k (2 * j) = k ∧ ent n T a k (2 * j + 1) = k);
}.

(** The geometry that the constructor of [BuddyAccessor] is called with. *)
Record Geometry (b : BuddyAccessor) : Prop := {
  geo_table : 0 ≤ tableOrder b;
  geo_roots : 1 ≤ numRoots b;
  geo_shift : 0 ≤ sizeShift b;
  geo_slots : numRoots b * 2 ^ (tableOrder b + 1) < 2 ^ 64;
  geo_base : 0 ≤ baseAddress b;
  geo_end : baseAddress b + numRoots b * 2 ^ (tableOrder b + sizeShift b) < 2 ^ 64;
  geo_length : Z.of_nat (length (buddy b)) = table_size (numRoots b) (tableOrder b);
}.

Definition WF (b : BuddyAccessor) : Prop :=
  WF_table (numRoots b) (tableOrder b) (buddy b).

(** A page is free if no chunk that contains it is used up or allocated. *)
Definition page_free (b : BuddyAccessor) (p : Z) : Prop :=
  ∀ k, 0 ≤ k ≤ tableOrder b →
    ent (numRoots b) (tableOrder b) (buddy b) k (p / 2 ^ k) ≠ -1.
Definition is_page (b : BuddyAccessor) (p : Z) : Prop :=
  0 ≤ p < numRoots b * 2 ^ tableOrder b.
Definition block_free (b : BuddyAccessor) (o c : Z) : Prop :=
  ∀ p, is_page b p → p / 2 ^ o = c → page_free b p.

(** A chunk that [allocate] handed out and that was not freed yet. *)
Definition allocated (b : BuddyAccessor) (o c : Z) : Prop :=
  let e := ent (numRoots b) (tableOrder b) (buddy b) in
  valid (numRoots b) (tableOrder b) o c ∧ e o c = -1 ∧
  (0 < o → e (o - 1) (2 * c) = o - 1 ∧ e (o - 1) (2 * c + 1) = o - 1).

(** ** Positions *)
Section table.
Context (n T : Z) (Hn : 1 ≤ n) (HT : 0 ≤ T).
Local Abbreviation off := (off n T).
Local Abbreviation ent := (ent n T).
Local Abbreviation valid := (valid n T).

Lemma off_succ k : k ≤ T → off (k - 1) = off k + n * 2 ^ (T - k).
Proof.
  intros. unfold Buddy.off. replace (T - (k - 1)) with (T - k + 1) by lia.
  rewrite pow2_succ by lia. lia.
Qed.

Lemma off_mono k k' : k < k' ≤ T → off k' + n * 2 ^ (T - k') ≤ off k.
Proof.
  intros. unfold Buddy.off.
  assert (2 ^ (T - k' + 1) ≤ 2 ^ (T - k)) by (apply Z.pow_le_mono_r; lia).
  rewrite pow2_succ in H0 by lia. nia.
Qed.

Lemma off_nonneg k : k ≤ T → 0 ≤ off k.
Proof. intros. unfold Buddy.off. pose proof (pow2_pos (T - k)). nia. Qed.

Lemma pos_bound k i : valid k i → 0 ≤ off k + i < table_size n T.
Proof.
  intros [? ?]. split; [pose proof (off_nonneg k); lia|].
  unfold table_size. pose proof (off_succ k ltac:(lia)).
  unfold Buddy.off in *.
  assert (2 ^ (T - (k - 1)) ≤ 2 ^ (T + 1)) by (apply Z.pow_le_mono_r; lia). nia.
Qed.

Lemma pos_inj k i k' i' :
  valid k i → valid k' i' → off k + i = off k' + i' → k = k' ∧ i = i'.
Proof.
  intros [??] [??] E. destruct (Z.lt_trichotomy k k') as [?|[->|?]]; [|lia|].
  - pose proof (off_mono k k'). lia.
  - pose proof (off_mono k' k). lia.
Qed.

(** Every position of the table belongs to some chunk. *)
Lemma pos_surj q : 0 ≤ q < table_size n T → ∃ k i, valid k i ∧ q = off k + i.
Proof.
  intros Hq.
  assert (∀ d : nat, Z.of_nat d ≤ T + 1 → q < off (T - Z.of_nat d) →
    ∃ k i, valid k i ∧ q = off k + i) as IH.
  { induction d as [|d IH]; intros Hd Hlt.
    - unfold Buddy.off in Hlt. replace (T - (T - Z.of_nat 0)) with 0 in Hlt by lia. lia.
    - destruct (Z.lt_ge_cases q (off (T - Z.of_nat d))) as [?|Hge].
      { apply IH; [lia|done]. }
      exists (T - Z.of_nat d), (q - off (T - Z.of_nat d)). split; [|lia].
      split; [lia|].
      replace (T - Z.of_nat (S d)) with (T - Z.of_nat d - 1) in Hlt by lia.
      rewrite off_succ in Hlt by lia. lia. }
  apply (IH (Z.to_nat (T + 1))); [lia|].
  unfold Buddy.off, table_size in *. rewrite Z2Nat.id by lia.
  replace (T - (T - (T + 1))) with (T + 1) by lia. lia.
Qed.

Context (a : list Z) (Hlen : Z.of_nat (length a) = table_size n T).

Lemma arr_get_ent k i : valid k i → arr_get a (off k + i) = Ret (ent a k i).
Proof.
  intros V. apply pos_bound in V. rewrite arr_get_total; [done|]. by rewrite Hlen.
Qed.

Lemma ent_set k i v k' i' :
  valid k i → valid k' i' →
  ent (<[Z.to_nat (off k + i) := v]> a) k' i' =
    if decide (k' = k ∧ i' = i) then v else ent a k' i'.
Proof.
  intros V V'. pose proof (pos_bound _ _ V). pose proof (pos_bound _ _ V').
  unfold Buddy.ent at 1. case_decide as D.
  - destruct D as [-> ->]. rewrite list_lookup_total_insert_eq; [done|]. lia.
  - rewrite list_lookup_total_insert_ne; [done|].
    intros E. apply D. apply Z2Nat.inj in E; [|lia..].
    apply pos_inj in E; naive_solver.
Qed.

Lemma table_ext a' :
  length a' = length a → (∀ k i, valid k i → ent a' k i = ent a k i) → a' = a.
Proof.
  intros Hl He. apply list_eq_same_length with (length a); [done..|].
  intros q x y Hq Hx Hy.
  destruct (pos_surj (Z.of_nat q)) as (k & i & V & E); [lia|].
  specialize (He _ _ V). unfold Buddy.ent in He. rewrite <-E, Nat2Z.id in He.
  apply list_lookup_total_correct in Hx, Hy. congruence.
Qed.
End table.

(** ** Facts about the invariant *)
Section invariant.
Context (n T : Z) (Hn : 1 ≤ n) (HT : 0 ≤ T) (a : list Z) (W : WF_table n T a).
Local Abbreviation E := (ent n T a).
Local Abbreviation valid := (valid n T).

Lemma combine_bound k x y : -1 ≤ x ≤ k → -1 ≤ y ≤ k → -1 ≤ combine k x y ≤ k + 1.
Proof. unfold combine. repeat case_Z; simpl; lia. Qed.

Lemma combine_ge k x y o :
  -1 ≤ x ≤ k → -1 ≤ y ≤ k → 0 ≤ o ≤ k → (o ≤ combine k x y ↔ o ≤ x ∨ o ≤ y).
Proof. unfold combine. repeat case_Z; simpl; lia. Qed.

Lemma combine_top k x y :
  -1 ≤ x ≤ k → -1 ≤ y ≤ k → 0 ≤ k → combine k x y = k + 1 ↔ x = k ∧ y = k.
Proof. unfold combine. repeat case_Z; simpl; lia. Qed.

Lemma combine_none k x y :
  -1 ≤ x ≤ k → -1 ≤ y ≤ k → 0 ≤ k → combine k x y = -1 ↔ x = -1 ∧ y = -1.
Proof. unfold combine. repeat case_Z; simpl; lia. Qed.

(** Parents and children of valid chunks. *)
Lemma valid_child k j :
  0 ≤ k → valid (k + 1) j → valid k (2 * j) ∧ valid k (2 * j + 1).
Proof.
  intros ? [??]. replace (T - k) with (T - (k + 1) + 1) in * by lia.
  unfold Buddy.valid. replace (T - k) with (T - (k + 1) + 1) by lia.
  rewrite pow2_succ by lia. lia.
Qed.

Lemma valid_parent k i : k < T → valid k i → valid (k + 1) (i / 2).
Proof.
  intros ? [? Hi]. split; [lia|].
  replace (T - k) with (T - (k + 1) + 1) in Hi by lia. rewrite pow2_succ in Hi by lia.
  split; [apply Z.div_pos; lia|]. apply Z.div_lt_upper_bound; lia.
Qed.

Lemma valid_anc k i k' : k ≤ k' ≤ T → valid k i → valid k' (i / 2 ^ (k' - k)).
Proof.
  intros Hk [? Hi]. split; [lia|].
  replace (T - k) with (T - k' + (k' - k)) in Hi by lia.
  rewrite Z.pow_add_r in Hi by lia. pose proof (pow2_pos (k' - k) ltac:(lia)).
  split; [apply Z.div_pos; lia|]. apply Z.div_lt_upper_bound; lia.
Qed.

Lemma valid_page p k : 0 ≤ p < n * 2 ^ T → 0 ≤ k ≤ T → valid k (p / 2 ^ k).
Proof.
  intros Hp Hk. rewrite <-(Z.sub_0_r k) at 2. apply valid_anc; [lia|].
  split; [lia|]. by rewrite Z.sub_0_r.
Qed.

Lemma div_pow_div i c d : 0 ≤ c → 0 ≤ d → i / 2 ^ c / 2 ^ d = i / 2 ^ (c + d).
Proof.
  intros. pose proof (pow2_pos c ltac:(done)). pose proof (pow2_pos d ltac:(done)).
  rewrite Z.pow_add_r, Z.div_div by lia. done.
Qed.

Lemma half_div_pow i d : 0 ≤ d → i / 2 / 2 ^ d = i / 2 ^ (1 + d).
Proof. intros. exact (div_pow_div i 1 d ltac:(lia) ltac:(lia)). Qed.
Lemma pow_div_half i d : 0 ≤ d → i / 2 ^ d / 2 = i / 2 ^ (d + 1).
Proof. intros. exact (div_pow_div i d 1 ltac:(lia) ltac:(lia)). Qed.

Lemma half_cases i : i = 2 * (i / 2) ∨ i = 2 * (i / 2) + 1.
Proof. pose proof (Z.div_mod i 2). pose proof (Z.mod_pos_bound i 2). lia. Qed.

(** A node above an entry that is not the mark of a free chunk is a summary. *)
Lemma node_combined k j :
  0 ≤ k → valid (k + 1) j → E (k + 1) j ≠ -1 →
  E (k + 1) j = combine k (E k (2 * j)) (E k (2 * j + 1)).
Proof. intros ? V ?. destruct (wf_node _ _ _ W k j) as [?|[??]]; done. Qed.

(** A completely free chunk only has completely free descendants. *)
Lemma full_child k j :
  0 ≤ k → valid (k + 1) j → E (k + 1) j = k + 1 →
  E k (2 * j) = k ∧ E k (2 * j + 1) = k.
Proof.
  intros Hk V He. destruct (valid_child k j) as [V0 V1]; [done..|].
  pose proof (wf_range _ _ _ W _ _ V0). pose proof (wf_range _ _ _ W _ _ V1).
  pose proof (node_combined k j Hk V ltac:(lia)) as Hc.
  apply (combine_top k); lia.
Qed.

Lemma full_below (d : nat) : ∀ k i,
  valid k i → E (k + Z.of_nat d) (i / 2 ^ Z.of_nat d) = k + Z.of_nat d →
  k + Z.of_nat d ≤ T → E k i = k.
Proof.
  induction d as [|d IH]; intros k i V He Hd.
  { by rewrite Z.add_0_r, Z.div_1_r in He. }
  pose proof (valid_parent k i ltac:(lia) V) as Vp. destruct V as [[Hk ?] Hi].
  assert (E (k + 1) (i / 2) = k + 1) as Hp.
  { apply IH; [done| |lia]. rewrite Nat2Z.inj_succ in He.
    replace (k + Z.succ (Z.of_nat d)) with (k + 1 + Z.of_nat d) in He by lia.
    etrans; [|exact He]. f_equal. rewrite half_div_pow by lia. do 2 f_equal. lia. }
  destruct (full_child k (i / 2)) as [H0 H1]; [done..|].
  destruct (half_cases i) as [-> | ->]; done.
Qed.

(** An inner entry is at least [o] exactly if some free chunk of order [o]
    can be reached below it. *)
Lemma free_below (d : nat) : ∀ o i,
  0 ≤ o → valid (o + Z.of_nat d) i → o ≤ E (o + Z.of_nat d) i →
  ∃ c, valid o c ∧ c / 2 ^ Z.of_nat d = i ∧ E o c = o.
Proof.
  induction d as [|d IH]; intros o i Ho V He.
  { rewrite Z.add_0_r in *. exists i. rewrite Z.div_1_r.
    pose proof (wf_range _ _ _ W _ _ V). split_and!; [done..|lia]. }
  rewrite Nat2Z.inj_succ in *. replace (o + Z.succ (Z.of_nat d)) with (o + Z.of_nat d + 1) in * by lia.
  set (k := o + Z.of_nat d) in *.
  destruct (valid_child k i) as [V0 V1]; [lia|done|].
  pose proof (wf_range _ _ _ W _ _ V0). pose proof (wf_range _ _ _ W _ _ V1).
  rewrite (node_combined k i) in He; [|lia|done|lia].
  apply combine_ge in He; [|lia..].
  assert (∃ i', valid k i' ∧ i' / 2 = i ∧ o ≤ E k i') as (i' & Vi & Hi & He').
  { destruct He; [exists (2 * i)|exists (2 * i + 1)]; split_and!; try done.
    - rewrite Z.mul_comm. apply Z.div_mul. lia.
    - symmetry. apply Z.div_unique with 1; lia. }
  destruct (IH o i') as (c & ? & Hc & ?); [done..|].
  exists c. split_and!; [done| |done].
  rewrite <-Hi, <-Hc, pow_div_half by lia. done.
Qed.

(** Going up: if no ancestor is marked, an entry [>= o] shows in all of them. *)
Lemma free_above (d : nat) : ∀ o k i,
  0 ≤ o ≤ k → valid k i → o ≤ E k i → k + Z.of_nat d ≤ T →
  (∀ m, k < m ≤ k + Z.of_nat d → E m (i / 2 ^ (m - k)) ≠ -1) →
  o ≤ E (k + Z.of_nat d) (i / 2 ^ Z.of_nat d).
Proof.
  induction d as [|d IH]; intros o k i Ho V He Hd Hm.
  { by rewrite Z.add_0_r, Z.div_1_r. }
  pose proof (valid_parent k i ltac:(lia) V) as Vp.
  destruct (valid_child k (i / 2)) as [V0 V1]; [lia|done|].
  pose proof (wf_range _ _ _ W _ _ V0). pose proof (wf_range _ _ _ W _ _ V1).
  assert (o ≤ E (k + 1) (i / 2)) as Hup.
  { rewrite node_combined; [|lia|done|].
    - apply combine_ge; [lia..|]. destruct (half_cases i) as [Hi|Hi]; rewrite Hi in He; auto.
    - specialize (Hm (k + 1)). replace (k + 1 - k) with 1 in Hm by lia. apply Hm. lia. }
  rewrite Nat2Z.inj_succ. replace (k + Z.succ (Z.of_nat d)) with (k + 1 + Z.of_nat d) by lia.
  replace (i / 2 ^ Z.succ (Z.of_nat d)) with (i / 2 / 2 ^ Z.of_nat d).
  - apply IH; [lia|done..|lia|]. intros m Hmm.
    rewrite half_div_pow by lia.
    replace (1 + (m - (k + 1))) with (m - k) by lia. apply Hm. lia.
  - rewrite half_div_pow by lia. do 2 f_equal. lia.
Qed.
End invariant.

(** ** The loops of the allocator *)
Section loops.
Context (b : BuddyAccessor) (G : Geometry b).
Local Abbreviation n := (numRoots b).
Local Abbreviation T := (tableOrder b).
Local Abbreviation off := (off n T).
Local Abbreviation ent := (ent n T).
Local Abbreviation valid := (valid n T).

Lemma geo_bits : T + sizeShift b < 64 ∧ n * 2 ^ (T + 1) < 2 ^ 64.
Proof.
  destruct G. split.
  - apply (Z.pow_lt_mono_r_iff 2); [lia..|].
    pose proof (pow2_pos (T + sizeShift b) ltac:(lia)). nia.
  - done.
Qed.

Lemma slots_bound k : 0 ≤ k ≤ T → 0 < n * 2 ^ (T - k) ∧ 2 * (n * 2 ^ (T - k)) < 2 ^ 64.
Proof.
  intros Hk. destruct G, geo_bits. pose proof (pow2_pos (T - k) ltac:(lia)).
  assert (2 ^ (T - k) ≤ 2 ^ T) by (apply Z.pow_le_mono_r; lia).
  rewrite pow2_succ in * by lia. nia.
Qed.

Lemma chunksIn_eq k : 0 ≤ k ≤ T → chunksIn n T k = n * 2 ^ (T - k).
Proof.
  intros Hk. unfold chunksIn. rewrite shiftl_pow2 by lia.
  pose proof (slots_bound k Hk). apply u64_small. lia.
Qed.

Lemma valid_u64 k i : valid k i → 0 ≤ i ∧ 2 * i + 1 < 2 ^ 64.
Proof. intros [Hk Hi]. pose proof (slots_bound k Hk). lia. Qed.

Lemma scan_pair a k j :
  Z.of_nat (length a) = table_size n T → 0 ≤ k → valid (k + 1) j →
  scanFreeChunks a (off k) (2 * j) 2 k =
    Ret (combine k (ent a k (2 * j)) (ent a k (2 * j + 1))).
Proof.
  intros Hl Hk V. destruct G.
  destruct (valid_child n T k j) as [V0 V1]; [done..|].
  unfold scanFreeChunks. change (Z.to_nat 2) with 2%nat. simpl.
  rewrite <-!Z.add_assoc, Z.add_0_r.
  rewrite (arr_get_ent n T) by done. simpl.
  rewrite (arr_get_ent n T) by done. simpl. f_equal.
  rewrite Z.add_0_l. unfold combine. repeat case_Z; simpl; lia.
Qed.

(** The entries on the way from chunk [i] of order [k] to its root are
    recomputed from their children; all others are left alone. *)
Definition recomputed (a a' : list Z) (k i : Z) : Prop :=
  length a' = length a ∧
  (∀ k' i', valid k' i' → (k' ≤ k ∨ i' ≠ i / 2 ^ (k' - k)) → ent a' k' i' = ent a k' i') ∧
  (∀ k', k ≤ k' < T → let j := i / 2 ^ (k' + 1 - k) in
     ent a' (k' + 1) j = combine k' (ent a' k' (2 * j)) (ent a' k' (2 * j + 1))).

Lemma ascend_spec fuel : ∀ a k i,
  Z.of_nat (length a) = table_size n T → valid k i → T - k = Z.of_nat fuel →
  (∀ k' i', valid k' i' → -1 ≤ ent a k' i' ≤ k') →
  ∃ a', ascend b a (off k) i k fuel = Ret a' ∧ recomputed a a' k i.
Proof.
  destruct G. destruct geo_bits as [Hbits _].
  induction fuel as [|fuel IH]; intros a k i Hl V Hf Hr.
  { exists a. split; [done|]. split_and!; [done|done|]. intros. lia. }
  cbn [ascend]. pose proof (valid_parent n T k i ltac:(lia) V) as Vp.
  destruct (valid_u64 _ _ Vp). rewrite u64_small by lia.
  destruct V as [Hk Hi].
  destruct (valid_child n T k (i / 2)) as [V0 V1]; [lia|done|].
  rewrite scan_pair by (done || lia). cbn.
  set (v := combine k _ _).
  assert (-1 ≤ v ≤ k + 1) as Hv by (apply combine_bound; by apply Hr).
  rewrite i8_small by lia.
  rewrite chunksIn_eq by lia.
  pose proof (off_succ n T (k + 1) ltac:(lia)) as Ho.
  replace (k + 1 - 1) with k in Ho by lia.
  replace (off k - n * 2 ^ (T - (k + 1)) + i / 2) with (off (k + 1) + i / 2) by lia.
  pose proof (pos_bound n T ltac:(done) ltac:(done) _ _ Vp).
  rewrite arr_set_Ret by lia. cbn.
  replace (off k - n * 2 ^ (T - (k + 1))) with (off (k + 1)) by lia.
  set (a1 := <[_ := v]> a).
  assert (∀ k' i', valid k' i' →
    ent a1 k' i' = if decide (k' = k + 1 ∧ i' = i / 2) then v else ent a k' i') as Ha1.
  { intros. apply ent_set; done. }
  destruct (IH a1 (k + 1) (i / 2)) as (a' & Hasc & Hlen & Hkeep & Hcomb).
  - subst a1. by rewrite length_insert.
  - done.
  - lia.
  - intros k' i' V'. rewrite Ha1 by done. case_decide; [lia|by apply Hr].
  - exists a'. split; [exact Hasc|]. split_and!.
    + rewrite Hlen. subst a1. by rewrite length_insert.
    + intros k' i' V' Hoff.
      assert (k' ≤ k + 1 ∨ i' ≠ i / 2 / 2 ^ (k' - (k + 1))) as Hoff'.
      { destruct (Z.le_gt_cases k' (k + 1)); [by left|right].
        rewrite half_div_pow by lia. replace (1 + (k' - (k + 1))) with (k' - k) by lia.
        destruct Hoff; [lia|done]. }
      rewrite Hkeep, Ha1 by done. rewrite decide_False; [done|].
      intros [-> ->]. destruct Hoff as [?|Hoff]; [lia|].
      replace (k + 1 - k) with 1 in Hoff by lia. done.
    + intros k' Hk'. cbv zeta. destruct (Z.eq_dec k' k) as [->|].
      * replace (k + 1 - k) with 1 by lia. change (2 ^ 1) with 2.
        rewrite !Hkeep, !Ha1 by (done || (left; lia)).
        rewrite decide_True by done. by rewrite !decide_False by lia.
      * specialize (Hcomb k' ltac:(lia)). cbv zeta in Hcomb. rewrite half_div_pow in Hcomb by lia.
        by replace (1 + (k' + 1 - (k + 1))) with (k' + 1 - k) in Hcomb by lia.
Qed.

Lemma descend_slice_off k fuel :
  T - k = Z.of_nat fuel → 0 ≤ k → descend_slice b 0 T fuel = off k.
Proof.
  intros Hf Hk. destruct G.
  assert (∀ f m, m - k = Z.of_nat f → m ≤ T → descend_slice b (off m) m f = off k) as H.
  { induction f as [|f IH]; intros m Hm HmT; simpl.
    - f_equal. lia.
    - rewrite chunksIn_eq by lia. rewrite <-off_succ by lia. apply IH; lia. }
  rewrite <-(H fuel T) by lia. f_equal. unfold Buddy.off. rewrite Z.sub_diag. lia.
Qed.
End loops.

(** ** Effect of an update on the invariant and on the free pages

    [path_update a a' o c v] is what both [allocate] and [free] do to the table:
    chunk [c] of order [o] is set to [v] and its ancestors are recomputed. *)
Section update.
Context (b : BuddyAccessor) (G : Geometry b).
Local Abbreviation n := (numRoots b).
Local Abbreviation T := (tableOrder b).
Local Abbreviation ent := (ent n T).
Local Abbreviation valid := (valid n T).

Record path_update (a a' : list Z) (o c v : Z) : Prop := {
  pu_length : length a' = length a;
  pu_set : ent a' o c = v;
  pu_keep k i : valid k i → k < o ∨ i ≠ c / 2 ^ (k - o) → ent a' k i = ent a k i;
  pu_anc k j : o ≤ k < T → j = c / 2 ^ (k + 1 - o) →
    ent a' (k + 1) j = combine k (ent a' k (2 * j)) (ent a' k (2 * j + 1));
}.

Lemma path_update_run a o c v :
  Z.of_nat (length a) = table_size n T → valid o c → WF_table n T a → -1 ≤ v ≤ o →
  ∃ a', (x ← arr_set a (off n T o + c) (i8 v);
         ascend b x (off n T o) c o (Z.to_nat (T - o))) = Ret a' ∧
    path_update a a' o c v.
Proof.
  intros Hl V W Hv. destruct G. destruct (geo_bits b G) as [Hbits _].
  pose proof (pos_bound n T ltac:(done) ltac:(done) _ _ V).
  pose proof V as [Ho _]. rewrite i8_small by lia. rewrite arr_set_Ret by lia. cbn.
  set (x := <[_ := v]> a).
  assert (∀ k i, valid k i →
    ent x k i = if decide (k = o ∧ i = c) then v else ent a k i) as Hx.
  { intros. by apply ent_set. }
  destruct (ascend_spec b G (Z.to_nat (T - o)) x o c) as (a' & Hasc & Hlen & Hk & Hc).
  - subst x. by rewrite length_insert.
  - done.
  - lia.
  - intros k i Vi. rewrite Hx by done. case_decide; [lia|by apply W].
  - exists a'. split; [exact Hasc|]. split.
    + rewrite Hlen. subst x. apply length_insert.
    + rewrite Hk by (done || (left; lia)). rewrite Hx by done. by rewrite decide_True.
    + intros k i Vi Hoff. destruct (Z.eq_dec k o) as [->|].
      * rewrite Hk by (done || (left; lia)). rewrite Hx by done.
        rewrite decide_False; [done|]. intros [_ ->].
        rewrite Z.sub_diag, Z.div_1_r in Hoff. lia.
      * rewrite Hk by (done || (destruct Hoff; [left; lia|by right])).
        rewrite Hx by done. rewrite decide_False by lia. done.
    + intros k j Hkk ->. apply Hc. lia.
Qed.

Section effect.
Context (a a' : list Z) (o c v : Z).
Context (W : WF_table n T a) (U : path_update a a' o c v) (V : valid o c).
Context (Hv : v = -1 ∨ v = o).
Context (Hbelow : 0 < o → ent a (o - 1) (2 * c) = o - 1 ∧
                           ent a (o - 1) (2 * c + 1) = o - 1).

Lemma pu_range : ∀ k i, valid k i → -1 ≤ ent a' k i ≤ k.
Proof.
  destruct G, V as [Ho _].
  assert (∀ (m : nat) k i, k = Z.of_nat m → valid k i → -1 ≤ ent a' k i ≤ k) as H.
  { induction m as [|m IH]; intros k i Hm Vi.
    - destruct (Z.lt_trichotomy 0 o) as [?|[?|?]]; [| |lia].
      + rewrite (pu_keep _ _ _ _ _ U) by (done || lia). by apply W.
      + subst. destruct (Z.eq_dec i c) as [->|].
        * change (Z.of_nat 0) with 0. rewrite (pu_set _ _ _ _ _ U). lia.
        * rewrite (pu_keep _ _ _ _ _ U); [by apply W|done|].
          right. by rewrite Z.sub_diag, Z.div_1_r.
    - set (k' := Z.of_nat m). assert (k = k' + 1) as -> by lia.
      destruct (Z.lt_ge_cases k' o) as [?|?].
      + destruct (decide (k' + 1 = o ∧ i = c)) as [[<- ->]|].
        * rewrite (pu_set _ _ _ _ _ U). lia.
        * rewrite (pu_keep _ _ _ _ _ U); [by apply W|done|].
          destruct (Z.eq_dec (k' + 1) o) as [Heq|]; [right|left; lia].
          rewrite Heq, Z.sub_diag, Z.div_1_r. naive_solver.
      + destruct (Z.eq_dec i (c / 2 ^ (k' + 1 - o))) as [->|].
        * destruct Vi as [? ?].
          rewrite (pu_anc _ _ _ _ _ U k' (c / 2 ^ (k' + 1 - o))) by (done || lia).
          destruct (valid_child n T k' (c / 2 ^ (k' + 1 - o))); [lia|done|].
          apply combine_bound; by apply IH.
        * rewrite (pu_keep _ _ _ _ _ U); [by apply W|done|]. by right. }
  intros k i Vi. apply (H (Z.to_nat k)); [|done]. destruct Vi; lia.
Qed.

(** Chunks off the path keep their entries and their children's entries. *)
Lemma pu_off_child k j i :
  valid (k + 1) j → 0 ≤ k → valid k i → i / 2 = j →
  k + 1 ≤ o ∨ j ≠ c / 2 ^ (k + 1 - o) → ent a' k i = ent a k i.
Proof.
  intros Vj Hk Vi Hi Hoff. apply (pu_keep _ _ _ _ _ U); [done|].
  destruct Hoff as [?|Hoff]; [left; lia|].
  destruct (Z.lt_ge_cases k o); [by left|right]. intros ->. apply Hoff.
  rewrite <-Hi, pow_div_half by lia. f_equal. f_equal. lia.
Qed.

Lemma WF_update : WF_table n T a'.
Proof.
  split; [exact pu_range|]. intros k j Vj Hk. destruct G.
  destruct (valid_child n T k j) as [V0 V1]; [done..|].
  assert (2 * j / 2 = j) as H0 by (rewrite Z.mul_comm; apply Z.div_mul; lia).
  assert ((2 * j + 1) / 2 = j) as H1 by (symmetry; apply Z.div_unique with 1; lia).
  destruct (decide (o ≤ k ∧ j = c / 2 ^ (k + 1 - o))) as [[? ?]|Hoff].
  { left. apply (pu_anc _ _ _ _ _ U); [|done]. destruct Vj; lia. }
  assert (k + 1 ≤ o ∨ j ≠ c / 2 ^ (k + 1 - o)) as Hoff'.
  { destruct (Z.le_gt_cases o k); [right|left]; naive_solver lia. }
  rewrite !(pu_off_child k j) by done.
  destruct (decide (k + 1 = o ∧ j = c)) as [[<- ->]|Hne].
  - rewrite (pu_set _ _ _ _ _ U). destruct Hbelow as [Hb0 Hb1]; [lia|].
    replace (k + 1 - 1) with k in Hb0, Hb1 by lia. rewrite Hb0, Hb1. destruct Hv as [-> | ->]; [by right|left].
    unfold combine. by rewrite Z.eqb_refl.
  - rewrite (pu_keep _ _ _ _ _ U); [by apply W|done|].
    destruct Hoff' as [?|?]; [|by right].
    destruct (Z.eq_dec (k + 1) o) as [Heq|]; [right|left; lia].
    rewrite Heq, Z.sub_diag, Z.div_1_r. naive_solver.
Qed.
End effect.

(** If a page is not blocked at order [m], and each chunk above it either
    summarises its children or is not marked, the page is not blocked above. *)
Lemma page_up a p m :
  (∀ k i, valid k i → -1 ≤ ent a k i ≤ k) → is_page b p → 0 ≤ m ≤ T →
  ent a m (p / 2 ^ m) ≠ -1 →
  (∀ k, m ≤ k < T → let j := p / 2 ^ (k + 1) in
     ent a (k + 1) j = combine k (ent a k (2 * j)) (ent a k (2 * j + 1)) ∨
     ent a (k + 1) j ≠ -1) →
  ∀ k, m ≤ k ≤ T → ent a k (p / 2 ^ k) ≠ -1.
Proof.
  intros Hr Hp Hm H0 Hup k Hk. destruct G.
  assert (∀ d : nat, m + Z.of_nat d ≤ T → ent a (m + Z.of_nat d) (p / 2 ^ (m + Z.of_nat d)) ≠ -1)
    as H.
  { induction d as [|d IH]; intros Hd; [by rewrite Z.add_0_r|].
    rewrite Nat2Z.inj_succ. replace (m + Z.succ (Z.of_nat d)) with (m + Z.of_nat d + 1) by lia.
    set (k' := m + Z.of_nat d) in *. specialize (IH ltac:(lia)).
    destruct (Hup k' ltac:(lia)) as [Hc|]; [|done]. cbv zeta in Hc. rewrite Hc.
    pose proof (valid_page n T ltac:(done) p (k' + 1) Hp ltac:(lia)) as Vj.
    destruct (valid_child n T k' (p / 2 ^ (k' + 1))) as [V0 V1]; [lia|done|].
    rewrite combine_none by (auto; lia). intros [E0 E1].
    pose proof (half_cases (p / 2 ^ k')) as Hh. rewrite pow_div_half in Hh by lia.
    destruct Hh as [Hh|Hh]; rewrite Hh in IH; done. }
  specialize (H (Z.to_nat (k - m)) ltac:(lia)). rewrite Z2Nat.id in H by lia.
  by replace (m + (k - m)) with k in H by lia.
Qed.
End update.

(** ** Free blocks and the search for them *)
Section search.
Context (b : BuddyAccessor) (G : Geometry b) (W : WF b).
Local Abbreviation n := (numRoots b).
Local Abbreviation T := (tableOrder b).
Local Abbreviation s := (sizeShift b).
Local Abbreviation E := (ent n T (buddy b)).
Local Abbreviation valid := (valid n T).

(** First page of a chunk. *)
Lemma first_page o c : valid o c → is_page b (c * 2 ^ o) ∧
  ∀ m, o ≤ m ≤ T → c * 2 ^ o / 2 ^ m = c / 2 ^ (m - o).
Proof.
  intros [Ho Hc]. pose proof (pow2_pos o ltac:(lia)). split.
  - unfold is_page. replace T with (T - o + o) at 1 by lia.
    rewrite Z.pow_add_r by lia. nia.
  - intros m Hm. replace m with (o + (m - o)) at 1 by lia.
    rewrite <-div_pow_div by lia. by rewrite Z.div_mul by lia.
Qed.

Lemma block_free_full o c : valid o c → block_free b o c → E o c = o.
Proof.
  destruct G. intros V. pose proof V as [[Ho _] _].
  revert c V. pattern o. apply natlike_ind; [| |done].
  - intros c V F. destruct (first_page 0 c V) as [Hp Hm]. pose proof (wf_range _ _ _ W _ _ V).
    pose proof (F (c * 2 ^ 0) Hp ltac:(rewrite Hm; [by rewrite Z.div_1_r|lia]) 0 ltac:(lia)) as H0.
    rewrite Hm, Z.div_1_r in H0 by lia. lia.
  - intros x Hx IH c V F. rewrite <-Z.add_1_r in *.
    destruct (valid_child n T x c) as [V0 V1]; [done..|].
    assert (∀ i, valid x i → i / 2 = c → E x i = x) as Hi.
    { intros i Vi Hic. apply IH; [done|]. intros p Hp Hpi. apply F; [done|].
      rewrite <-Hic, <-Hpi. by rewrite pow_div_half by lia. }
    destruct (first_page _ _ V) as [Hp Hm].
    pose proof (F (c * 2 ^ (x + 1)) Hp) as Hf.
    destruct V as [? ?]. specialize (Hm (x + 1) ltac:(lia)).
    rewrite Z.sub_diag, Z.div_1_r in Hm. specialize (Hf Hm (x + 1) ltac:(lia)).
    rewrite Hm in Hf. rewrite (node_combined n T _ W) by done.
    rewrite !Hi; [|done| |done|].
    + unfold combine. by rewrite Z.eqb_refl.
    + symmetry. apply Z.div_unique with 1; lia.
    + rewrite Z.mul_comm. apply Z.div_mul. lia.
Qed.

(** A free block of order [o] shows in all entries above it, and conversely. *)
Definition on_path (o c : Z) : Prop := ∀ m, o ≤ m ≤ T → o ≤ E m (c / 2 ^ (m - o)).

Lemma block_free_path o c : valid o c → block_free b o c → on_path o c.
Proof.
  intros V F m Hm. pose proof (block_free_full o c V F) as He. pose proof V as [Ho _].
  destruct (first_page o c V) as [Hp Hq].
  replace m with (o + Z.of_nat (Z.to_nat (m - o))) at 1 by lia.
  replace (m - o) with (Z.of_nat (Z.to_nat (m - o))) at 2 by lia.
  apply (free_above n T _ W); [lia|done|lia|lia|].
  intros m' Hm'. rewrite <-Hq by lia. apply F; [done| |lia].
  rewrite Hq by lia. by rewrite Z.sub_diag, Z.div_1_r.
Qed.

Lemma path_block_free o c : valid o c → on_path o c → block_free b o c.
Proof.
  intros V P p Hp Hpc k Hk. pose proof V as [Ho _].
  pose proof (P o ltac:(lia)) as He. rewrite Z.sub_diag, Z.div_1_r in He.
  pose proof (wf_range _ _ _ W _ _ V). destruct G.
  destruct (Z.le_gt_cases o k) as [?|?].
  - specialize (P k ltac:(lia)). rewrite <-Hpc, div_pow_div in P by lia.
    replace (o + (k - o)) with k in P by lia. lia.
  - assert (E k (p / 2 ^ k) = k) as ->; [|lia].
    apply (full_below n T _ W (Z.to_nat (o - k))); [by apply valid_page| |lia].
    rewrite Z2Nat.id, div_pow_div by lia. replace (k + (o - k)) with o by lia.
    rewrite Hpc. lia.
Qed.

(** Machine arithmetic of the address check. *)
Lemma chunk_address k i : valid k i →
  u64 (Z.shiftl 1 (k + s)) = 2 ^ (k + s) ∧
  u64 (baseAddress b + u64 (i * 2 ^ (k + s))) = baseAddress b + i * 2 ^ (k + s) ∧
  baseAddress b + (i + 1) * 2 ^ (k + s) < 2 ^ 64.
Proof.
  intros [Hk Hi]. destruct G. rewrite shiftl_pow2, Z.mul_1_l by lia.
  pose proof (pow2_pos (k + s) ltac:(lia)).
  assert ((i + 1) * 2 ^ (k + s) ≤ n * 2 ^ (T + s)).
  { replace (T + s) with (T - k + (k + s)) by lia.
    rewrite (Z.pow_add_r 2 (T - k)), Z.mul_assoc by lia. apply Z.mul_le_mono_nonneg_r; lia. }
  rewrite Z.mul_add_distr_r, Z.mul_1_l in *.
  assert (0 ≤ i * 2 ^ (k + s)) by nia.
  usmall. lia.
Qed.

Context (o : Z) (Ho : 0 ≤ o ≤ T).

(** No free block of order [o] lies before chunk [i] of order [k]. *)
Definition nothing_before (k i : Z) : Prop :=
  ∀ c, valid o c → block_free b o c → i * 2 ^ (k - o) ≤ c.

Lemma find_index_spec k j : ∀ fuel index,
  0 ≤ index → 0 ≤ j → (∀ i, index ≤ i < index + Z.of_nat fuel → valid k (j + i)) →
  ∃ r, find_index (buddy b) (off n T k) j index fuel o = Ret r ∧
    index ≤ r ≤ index + Z.of_nat fuel ∧ (∀ i, index ≤ i < r → E k (j + i) < o) ∧
    (r < index + Z.of_nat fuel → o ≤ E k (j + r)).
Proof.
  destruct G. induction fuel as [|fuel IH]; intros index Hi Hj Hv; simpl.
  { exists index. split_and!; [done|lia..]. }
  pose proof (Hv index ltac:(lia)) as V0. rewrite <-Z.add_assoc.
  rewrite (arr_get_ent n T) by done. cbn. case_Z.
  - exists index. split_and!; [done|lia..|done].
  - pose proof (valid_u64 b G _ _ V0). rewrite u64_small by lia.
    destruct (IH (index + 1)) as (r & -> & ? & Hlt & Hr); [lia|done| |].
    { intros. apply Hv. lia. }
    exists r. split_and!; [done|lia..| |].
    + intros i ?. destruct (Z.eq_dec i index) as [->|]; [done|apply Hlt; lia].
    + intros. apply Hr. lia.
Qed.

(** Chunks whose entry is too small are skipped without missing a block. *)
Lemma skip_chunks k i j :
  o ≤ k ≤ T → nothing_before k i → (∀ i', i ≤ i' < j → E k i' < o) → nothing_before k j.
Proof.
  intros Hk Hb Hlt c V F. pose proof (Hb c V F) as Hc.
  pose proof (block_free_path o c V F k ltac:(lia)) as Hp.
  pose proof (pow2_pos (k - o) ltac:(lia)).
  destruct (Z.le_gt_cases j (c / 2 ^ (k - o))) as [Hle|Hgt].
  - pose proof (Z.mul_div_le c (2 ^ (k - o))). nia.
  - exfalso. assert (i ≤ c / 2 ^ (k - o)) by (apply Z.div_le_lower_bound; lia).
    specialize (Hlt (c / 2 ^ (k - o)) ltac:(lia)). lia.
Qed.

Definition first_fit (k j L i : Z) : Prop :=
  j ≤ i < j + L ∧ (∀ i', j ≤ i' < i → E k i' < o) ∧ o ≤ E k i.

Context (bits : Z) (Hbits : 0 ≤ bits ≤ 64).

(** Blocks that a request for order [o] below [2^bits] may be answered with. *)
Definition fits (c : Z) : Prop :=
  valid o c ∧ block_free b o c ∧ baseAddress b + (c + 1) * 2 ^ (o + s) ≤ 2 ^ bits.

Definition addr_ok (k i : Z) : Prop :=
  if decide (k = o) then baseAddress b + (i + 1) * 2 ^ (k + s) ≤ 2 ^ bits
  else baseAddress b + i * 2 ^ (k + s) < 2 ^ bits.

Lemma find_spec k j L :
  o ≤ k ≤ T → 0 ≤ j → 0 ≤ L → (∀ i, 0 ≤ i < L → valid k (j + i)) →
  ∃ r, findAllocatableChunk b (off n T k) j L k o bits = Ret r ∧
    (r = illegalAddress ∧
       ((∀ i, j ≤ i < j + L → E k i < o) ∨ ∃ i, first_fit k j L i ∧ ¬ addr_ok k i) ∨
     r ≠ illegalAddress ∧ first_fit k j L r ∧ addr_ok k r).
Proof.
  intros Hk Hj HL Hv. destruct G. unfold findAllocatableChunk.
  destruct (find_index_spec k j (Z.to_nat L) 0) as (r & -> & Hr & Hlt & Hge); [done..| |].
  { intros i. rewrite Z2Nat.id by done. apply Hv. }
  rewrite Z2Nat.id in * by done. cbn. destruct (Z.eqb_spec r L) as [->|Hne].
  { exists illegalAddress. split; [done|]. left. split; [done|]. left.
    intros i Hi. replace i with (j + (i - j)) by lia. apply Hlt. lia. }
  assert (first_fit k j L (j + r)) as Hff.
  { split_and!; [lia..| |apply Hge; lia].
    intros i Hi. replace i with (j + (i - j)) by lia. apply Hlt. lia. }
  pose proof (Hv r ltac:(lia)) as Vr. pose proof (valid_u64 b G _ _ Vr).
  rewrite (u64_small (j + r)) by lia.
  destruct (chunk_address _ _ Vr) as (E1 & E2 & E3). rewrite E1, E2.
  assert (j + r ≠ illegalAddress) as Hill.
  { change illegalAddress with (2 ^ 64 - 1). lia. }
  replace ((j + r + 1) * 2 ^ (k + s)) with ((j + r) * 2 ^ (k + s) + 2 ^ (k + s)) in E3 by ring.
  pose proof (pow2_pos (k + s) ltac:(lia)).
  destruct (Z.eqb_spec bits 64) as [Hb64|Hb64]; cbn.
  { exists (j + r). split; [done|]. right. split_and!; try done. unfold addr_ok.
    rewrite Hb64. case_decide; nia. }
  assert (2 ^ bits < 2 ^ 64) by (apply Z.pow_lt_mono_r; lia).
  rewrite shiftl_pow2, Z.mul_1_l, (u64_small (2 ^ bits)) by lia.
  rewrite (u64_small (baseAddress b + _ + _)) by nia.
  destruct (Z.eqb_spec k o) as [->|Hko].
  - case_Z.
    + exists illegalAddress. split; [done|]. left. split; [done|]. right.
      exists (j + r). split; [done|]. unfold addr_ok. rewrite decide_True by done. nia.
    + exists (j + r). split; [done|]. right. split_and!; try done.
      unfold addr_ok. rewrite decide_True by done. nia.
  - case_Z.
    + exists illegalAddress. split; [done|]. left. split; [done|]. right.
      exists (j + r). split; [done|]. unfold addr_ok. rewrite decide_False by done. lia.
    + exists (j + r). split; [done|]. right. split_and!; try done.
      unfold addr_ok. rewrite decide_False by done. lia.
Qed.

Lemma addr_not_ok k i :
  o ≤ k → nothing_before k i → ¬ addr_ok k i → ∀ c, ¬ fits c.
Proof.
  intros Hk Hb Ha c (V & F & Hc). apply Ha. specialize (Hb c V F).
  destruct G. pose proof (pow2_pos (o + s) ltac:(lia)). unfold addr_ok. case_decide as D.
  - subst k. rewrite Z.sub_diag in Hb. nia.
  - replace (k + s) with (k - o + (o + s)) by lia. rewrite Z.pow_add_r by lia. nia.
Qed.

Lemma descend_spec : ∀ d k i,
  k = o + Z.of_nat d → valid k i → nothing_before k i → addr_ok k i →
  (∀ m, k ≤ m ≤ T → o ≤ E m (i / 2 ^ (m - k))) →
  ∃ r, descend b (off n T k) i k o bits d = Ret r ∧
    match r with
    | None => ∀ c, ¬ fits c
    | Some (sl, c) => sl = off n T o ∧ valid o c ∧ on_path o c ∧ nothing_before o c ∧ addr_ok o c
    end.
Proof.
  destruct G. induction d as [|d IH]; intros k i Hk V Hb Ha Hp.
  { assert (k = o) as -> by lia. exists (Some (off n T o, i)). done. }
  set (k' := o + Z.of_nat d). assert (k = k' + 1) as -> by lia.
  pose proof V as [Hk1 _]. destruct (valid_child n T k' i) as [V0 V1]; [lia|done|].
  cbn [descend]. rewrite chunksIn_eq, <-off_succ by (done || lia).
  replace (k' + 1 - 1) with k' by lia.
  pose proof (valid_u64 b G _ _ V). rewrite (u64_small (2 * i)) by lia.
  assert (nothing_before k' (2 * i)) as Hb0.
  { intros c Vc Fc. specialize (Hb c Vc Fc).
    replace (k' + 1 - o) with (k' - o + 1) in Hb by lia. rewrite pow2_succ in Hb by lia. lia. }
  destruct (find_spec k' (2 * i) 2) as (r & Hr & Hc); [lia|lia|lia| |].
  { intros x ?. assert (x = 0 ∨ x = 1) as [-> | ->] by lia; [by rewrite Z.add_0_r|done]. }
  rewrite Hr. cbn. destruct Hc as [[-> Hc]|(Hill & (Hr1 & Hr2 & Hr3) & Hr4)].
  - rewrite Z.eqb_refl. exists None. split; [done|].
    destruct Hc as [Hall|(x & (Hx1 & Hx2 & Hx3) & Hx4)].
    + exfalso. pose proof (Hp (k' + 1) ltac:(lia)) as Hge.
      rewrite Z.sub_diag, Z.div_1_r in Hge.
      pose proof (wf_range _ _ _ W _ _ V0). pose proof (wf_range _ _ _ W _ _ V1).
      rewrite (node_combined n T _ W) in Hge; [|lia|done|lia].
      apply combine_ge in Hge; [|lia..].
      pose proof (Hall (2 * i) ltac:(lia)). pose proof (Hall (2 * i + 1) ltac:(lia)). lia.
    + apply (addr_not_ok k' x); [lia| |done]. apply (skip_chunks k' (2 * i)); [lia|done..].
  - destruct (Z.eqb_spec r illegalAddress); [done|].
    assert (r / 2 = i) as Hri.
    { symmetry. apply Z.div_unique with (r - 2 * i); lia. }
    apply IH; [done| | |done|].
    + assert (r = 2 * i ∨ r = 2 * i + 1) as [-> | ->] by lia; done.
    + apply (skip_chunks k' (2 * i)); [lia|done..].
    + intros m Hm. destruct (Z.eq_dec m k') as [->|].
      * by rewrite Z.sub_diag, Z.div_1_r.
      * specialize (Hp m ltac:(lia)). rewrite <-Hri, half_div_pow in Hp by lia.
        by replace (1 + (m - (k' + 1))) with (m - k') in Hp by lia.
Qed.
End search.

(** ** Correctness of [allocate] and [free] *)
Section operations.
Context (b : BuddyAccessor) (G : Geometry b) (W : WF b).
Local Abbreviation n := (numRoots b).
Local Abbreviation T := (tableOrder b).
Local Abbreviation E := (ent n T (buddy b)).
Local Abbreviation valid := (valid n T).

Lemma set_buddy_geometry a' : length a' = length (buddy b) → Geometry (set_buddy b a').
Proof. intros Hl. destruct G. split; simpl; congruence. Qed.

(** The entries on the way from a block to its root summarise their children
    if the block is allocated. *)
Lemma allocated_anc o c k :
  allocated b o c → o ≤ k < T → let j := c / 2 ^ (k + 1 - o) in
  E (k + 1) j = combine k (E k (2 * j)) (E k (2 * j + 1)).
Proof.
  intros (V & He & _) Hk j. pose proof V as [Ho _].
  pose proof (valid_anc n T o c (k + 1) ltac:(lia) V) as Vj. fold j in Vj.
  destruct (wf_node _ _ _ W k j) as [?|(_ & H0 & H1)]; [done|lia|done|exfalso].
  assert (E o c = o); [|lia].
  apply (full_below n T _ W (Z.to_nat (k - o))); [done| |lia].
  rewrite Z2Nat.id by lia. replace (o + (k - o)) with k by lia.
  pose proof (half_cases (c / 2 ^ (k - o))) as Hh. rewrite pow_div_half in Hh by lia.
  replace (k - o + 1) with (k + 1 - o) in Hh by lia. fold j in Hh.
  destruct Hh as [-> | ->]; done.
Qed.

Lemma page_off_path o c p k :
  is_page b p → 0 ≤ o ≤ k → k ≤ T → p / 2 ^ k ≠ c / 2 ^ (k - o) → p / 2 ^ o ≠ c.
Proof.
  intros ? ? ? Hne <-. apply Hne. rewrite div_pow_div by lia. f_equal. f_equal. lia.
Qed.

Section effects.
Context (a' : list Z) (o c v : Z) (V : valid o c).
Context (U : path_update b (buddy b) a' o c v).
Local Abbreviation E' := (ent n T a').

(** At each order a page is off the path of the block, or its entry is the
    recomputed one. *)
Lemma page_level p k :
  is_page b p → 0 ≤ k ≤ T → p / 2 ^ o ≠ c →
  E' k (p / 2 ^ k) = E k (p / 2 ^ k) ∨ o < k ∧ p / 2 ^ k = c / 2 ^ (k - o).
Proof.
  intros Hp Hk Hne. destruct G. pose proof (valid_page n T ltac:(done) p k Hp Hk) as Vk.
  destruct (Z.le_gt_cases k o) as [?|?].
  - left. apply (pu_keep _ _ _ _ _ _ U); [done|].
    destruct (Z.eq_dec k o) as [->|]; [right|left; lia].
    by rewrite Z.sub_diag, Z.div_1_r.
  - destruct (Z.eq_dec (p / 2 ^ k) (c / 2 ^ (k - o))) as [?|?]; [by right|left].
    apply (pu_keep _ _ _ _ _ _ U); [done|by right].
Qed.

Lemma page_anc p k :
  is_page b p → o ≤ k < T → p / 2 ^ (k + 1) = c / 2 ^ (k + 1 - o) →
  let j := p / 2 ^ (k + 1) in E' (k + 1) j = combine k (E' k (2 * j)) (E' k (2 * j + 1)).
Proof. intros. apply (pu_anc _ _ _ _ _ _ U); done. Qed.

(** A page outside of the block that was free stays free. *)
Lemma page_kept p :
  (∀ k i, valid k i → -1 ≤ E' k i ≤ k) →
  is_page b p → p / 2 ^ o ≠ c → page_free b p → page_free (set_buddy b a') p.
Proof.
  intros Hr Hp Hne F k Hk. pose proof V as [Ho _]. simpl in *.
  apply (page_up b G a' p 0); [done|done|lia| | |lia].
  - destruct (page_level p 0 Hp ltac:(lia) Hne) as [-> |[? _]]; [|lia]. apply F. lia.
  - intros m Hm j.
    destruct (page_level p (m + 1) Hp ltac:(lia) Hne) as [Hk'|[? Hj]].
    + right. subst j. rewrite Hk'. apply F. lia.
    + left. apply page_anc; [done|lia|done].
Qed.

(** A page outside of the block that is free now was free before, if the
    entries above the block were not marks. *)
Lemma page_old p :
  (∀ k, o ≤ k < T → let j := c / 2 ^ (k + 1 - o) in
     E (k + 1) j = combine k (E k (2 * j)) (E k (2 * j + 1)) ∨ E (k + 1) j ≠ -1) →
  is_page b p → p / 2 ^ o ≠ c → page_free (set_buddy b a') p → page_free b p.
Proof.
  intros Hanc Hp Hne F k Hk. pose proof V as [Ho _]. simpl in *.
  apply (page_up b G (buddy b) p 0); [apply W|done|lia| | |lia].
  - destruct (page_level p 0 Hp ltac:(lia) Hne) as [<- |[? _]]; [|lia].
    apply (F 0). simpl. lia.
  - intros m Hm j.
    destruct (page_level p (m + 1) Hp ltac:(lia) Hne) as [Hk'|[? Hj]].
    + right. subst j. rewrite <-Hk'. apply (F (m + 1)). simpl. lia.
    + subst j. rewrite Hj. apply Hanc. lia.
Qed.
End effects.

(** What a successful allocation of block [c] of order [o] changes. *)
Definition took (o c : Z) (b' : BuddyAccessor) : Prop :=
  Geometry b' ∧ WF b' ∧ b' = set_buddy b (buddy b') ∧ allocated b' o c ∧
  ∀ p, is_page b p → page_free b' p ↔ page_free b p ∧ p / 2 ^ o ≠ c.

Lemma take_block o c :
  valid o c → on_path b o c →
  ∃ a', (x ← arr_set (buddy b) (off n T o + c) (i8 (-1));
         ascend b x (off n T o) c o (Z.to_nat (T - o))) = Ret a' ∧
    path_update b (buddy b) a' o c (-1) ∧ took o c (set_buddy b a').
Proof.
  intros V P. pose proof V as [Ho _]. destruct G.
  destruct (path_update_run b G (buddy b) o c (-1)) as (a' & Hrun & U); [done..|lia|].
  exists a'. split; [done|]. split; [done|].
  pose proof (P o ltac:(lia)) as He. rewrite Z.sub_diag, Z.div_1_r in He.
  pose proof (wf_range _ _ _ W _ _ V).
  assert (0 < o → E (o - 1) (2 * c) = o - 1 ∧ E (o - 1) (2 * c + 1) = o - 1) as Hbelow.
  { intros. apply (full_child n T _ W); [lia|by replace (o - 1 + 1) with o by lia|].
    replace (o - 1 + 1) with o by lia. lia. }
  assert (WF (set_buddy b a')) as W'.
  { apply (WF_update b G (buddy b) a' o c (-1)); [done..|by left|done]. }
  split_and!; [apply set_buddy_geometry, U|done|done| |].
  - split_and!; [done|apply U|]. intros ?. simpl.
    destruct (valid_child n T (o - 1) c) as [V0 V1]; [lia|by replace (o - 1 + 1) with o by lia|].
    rewrite !(pu_keep _ _ _ _ _ _ U) by (done || (left; lia)). by apply Hbelow.
  - intros p Hp. split.
    + intros F. assert (p / 2 ^ o ≠ c) as Hne.
      { intros Hpc. apply (F o); simpl; [lia|]. rewrite Hpc. apply U. }
      split; [|done]. apply (page_old a' o c (-1)); try done.
      intros k Hk. right. pose proof (P (k + 1) ltac:(lia)). lia.
    + intros [F Hne]. apply (page_kept a' o c (-1)); try done. apply W'.
Qed.
End operations.

Lemma off_root n T : off n T T = 0.
Proof. unfold off. rewrite Z.sub_diag. lia. Qed.

(** The last check of [allocate]: the block lies below [2^addressBits]. *)
Lemma block_end_bits (b : BuddyAccessor) o bits c :
  Geometry b → 0 ≤ bits ≤ 64 → valid (numRoots b) (tableOrder b) o c →
  addr_ok b o bits o c →
  let r := baseAddress b + c * 2 ^ (o + sizeShift b) in
  u64 (baseAddress b + u64 (Z.shiftl c (o + sizeShift b))) = r ∧ r ≠ illegalAddress ∧
  (if bits <? 64 then Z.shiftr r bits =? 0 else true) = true.
Proof.
  intros G Hb V Ha r. destruct (chunk_address b G o c V) as (_ & Hr & Hend).
  destruct G, V as [Ho Hc]. rewrite shiftl_pow2 by lia. fold r in Hr. rewrite Hr.
  pose proof (pow2_pos (o + sizeShift b) ltac:(lia)).
  assert (r + 2 ^ (o + sizeShift b) < 2 ^ 64) by (subst r; lia).
  split_and!; [done|change illegalAddress with (2 ^ 64 - 1); lia|].
  case_Z; [|done]. unfold addr_ok in Ha. rewrite decide_True in Ha by done.
  apply Z.eqb_eq. rewrite shiftr_pow2 by lia. apply Z.div_small. subst r. nia.
Qed.

Lemma allocate_run (b : BuddyAccessor) (order addressBits : Z) :
  Geometry b → WF b → 0 ≤ order → 0 ≤ addressBits ≤ 64 →
  ∃ r b', allocate b order addressBits = Ret (r, b') ∧
    ((r = illegalAddress ∧ b' = b ∧
        (order ≤ tableOrder b → ∀ c, ¬ fits b order addressBits c)) ∨
     (∃ c, r = baseAddress b + c * 2 ^ (order + sizeShift b) ∧ r ≠ illegalAddress ∧
        fits b order addressBits c ∧ (∀ c', fits b order addressBits c' → c ≤ c') ∧
        took b order c b' ∧ path_update b (buddy b) (buddy b') order c (-1) ∧ on_path b order c)).
Proof.
  intros G W Ho Hbits. pose proof G as []. unfold allocate.
  rewrite assert_bind by (by apply Z.leb_le).
  destruct (Z.ltb_spec (tableOrder b) order) as [?|HoT].
  { exists illegalAddress, b. split; [done|]. left. split_and!; [done..|lia]. }
  assert (∀ i, 0 ≤ i < numRoots b → valid (numRoots b) (tableOrder b) (tableOrder b) (0 + i)) as Vr.
  { intros. split; [lia|]. rewrite Z.sub_diag. lia. }
  destruct (find_spec b G order ltac:(lia) addressBits ltac:(lia) (tableOrder b) 0 (numRoots b))
    as (r & Hr & Hc); [lia..|done|]. rewrite off_root in Hr. rewrite Hr. cbn.
  assert (nothing_before b order (tableOrder b) 0) as Hb0.
  { intros c [_ ?] _. lia. }
  destruct Hc as [[-> Hc]|(Hill & (Hr1 & Hr2 & Hr3) & Hr4)].
  { rewrite Z.eqb_refl. exists illegalAddress, b. split; [done|]. left. split_and!; [done..|].
    intros _. destruct Hc as [Hall|(x & (Hx1 & Hx2 & Hx3) & Hx4)].
    - intros c (V & F & _). pose proof (block_free_path b G W order c V F (tableOrder b) ltac:(lia)).
      pose proof (valid_anc (numRoots b) (tableOrder b) order c (tableOrder b) ltac:(lia) V) as [_ ?].
      rewrite Z.sub_diag in *. specialize (Hall (c / 2 ^ (tableOrder b - order)) ltac:(lia)). lia.
    - apply (addr_not_ok b G order ltac:(lia) addressBits ltac:(lia) (tableOrder b) x); [lia| |done].
      apply skip_chunks with (i := 0); done || lia. }
  destruct (Z.eqb_spec r illegalAddress); [done|].
  destruct (descend_spec b G W order ltac:(lia) addressBits ltac:(lia)
    (Z.to_nat (tableOrder b - order)) (tableOrder b) r) as (d & Hd & Hspec).
  { lia. } { replace r with (0 + r) by lia. apply Vr. lia. }
  { apply skip_chunks with (i := 0); done || lia. } { done. }
  { intros m Hm. replace m with (tableOrder b) by lia. by rewrite Z.sub_diag, Z.div_1_r. }
  rewrite off_root in Hd. rewrite Hd. cbn. destruct d as [[sl c]|].
  2:{ exists illegalAddress, b. split; [done|]. left. done. }
  destruct Hspec as (-> & V & P & Hnb & Haddr).
  pose proof (P order ltac:(lia)) as He. rewrite Z.sub_diag, Z.div_1_r in He.
  pose proof (wf_range _ _ _ W _ _ V). rewrite (arr_get_ent (numRoots b) (tableOrder b)) by done.
  cbn. rewrite assert_bind by (apply Z.eqb_eq; lia).
  destruct (take_block b G W order c V P) as (a' & Hrun & HU & Htook).
  apply bind_Ret in Hrun as (x & -> & Hasc). cbn. rewrite Hasc. cbn.
  destruct (block_end_bits b order addressBits c) as (-> & Hne & Hchk); [done..|].
  rewrite assert_bind by done.
  eexists _, _. split; [done|]. right. exists c. split_and!; try done.
  - split_and!; [done|by apply path_block_free|].
    unfold addr_ok in Haddr. by rewrite decide_True in Haddr.
  - intros c' (V' & F' & _). specialize (Hnb c' V' F'). rewrite Z.sub_diag in Hnb. lia.
Qed.

(** What freeing block [c] of order [o] changes. *)
Definition gave (b : BuddyAccessor) (o c : Z) (b' : BuddyAccessor) : Prop :=
  Geometry b' ∧ WF b' ∧ b' = set_buddy b (buddy b') ∧
  ∀ p, is_page b p → page_free b' p ↔ page_free b p ∨ p / 2 ^ o = c.

Lemma give_block (b : BuddyAccessor) (o c : Z) (a' : list Z) :
  Geometry b → WF b → allocated b o c → path_update b (buddy b) a' o c o →
  gave b o c (set_buddy b a').
Proof.
  intros G W A U. pose proof A as (V & He & Hbelow). pose proof V as [Ho _]. pose proof G as [].
  assert (WF (set_buddy b a')) as W'.
  { apply (WF_update b G (buddy b) a' o c o); [done..|by right|done]. }
  split_and!; [by apply set_buddy_geometry, U|done|done|]. intros p Hp. split.
  - intros F. destruct (Z.eq_dec (p / 2 ^ o) c) as [?|Hne]; [by right|left].
    apply (page_old b G W a' o c o); try done.
    intros k Hk. left. by apply (allocated_anc b W o c k).
  - intros [F|Hpc].
    + apply (page_kept b G a' o c o); try done; [apply W'|].
      intros Hpc. apply (F o); [lia|]. by rewrite Hpc.
    + intros k Hk. simpl in *. destruct (Z.le_gt_cases k o) as [Hko|Hko].
      * assert (ent (numRoots b) (tableOrder b) a' k (p / 2 ^ k) = k); [|lia].
        apply (full_below _ _ _ W' (Z.to_nat (o - k))); simpl; [by apply valid_page| |lia].
        rewrite Z2Nat.id, div_pow_div by lia. replace (k + (o - k)) with o by lia.
        rewrite Hpc. apply U.
      * apply (page_up b G a' p o); [apply W'|done|lia| | |lia].
        { rewrite Hpc, (pu_set _ _ _ _ _ _ U). lia. }
        intros m Hm. left. apply (page_anc b a' o c o U); [done..|].
        rewrite <-Hpc, div_pow_div by lia. f_equal. f_equal. lia.
Qed.

(** [free] on an address that [allocate] returned for order [o] and block [c]. *)
Lemma free_run (b : BuddyAccessor) (o c : Z) :
  Geometry b → WF b → allocated b o c →
  ∃ a', free b (baseAddress b + c * 2 ^ (o + sizeShift b)) o = Ret (set_buddy b a') ∧
    path_update b (buddy b) a' o c o.
Proof.
  intros G W (V & He & _). pose proof V as [Ho Hc]. pose proof G as [].
  pose proof (pow2_pos (o + sizeShift b) ltac:(lia)). pose proof (pow2_pos o ltac:(lia)).
  unfold free. rewrite assert_bind by (apply Z.leb_le; nia).
  rewrite assert_bind by (apply andb_true_iff; split; apply Z.leb_le; lia).
  assert (Z.shiftr (baseAddress b + c * 2 ^ (o + sizeShift b) - baseAddress b) (sizeShift b)
          = c * 2 ^ o) as ->.
  { rewrite shiftr_pow2, Z.pow_add_r by lia. pose proof (pow2_pos (sizeShift b) ltac:(lia)).
    replace (_ - _) with (c * 2 ^ o * 2 ^ sizeShift b) by ring. apply Z.div_mul. lia. }
  destruct (geo_bits b G). assert (2 ^ o < 2 ^ 64) by (apply Z.pow_lt_mono_r; lia).
  rewrite assert_bind.
  2:{ rewrite shiftl_pow2, Z.mul_1_l by lia. usmall. by rewrite Z.mod_mul by lia. }
  rewrite shiftr_pow2, Z.div_mul by lia.
  rewrite (descend_slice_off b G o) by lia.
  rewrite (arr_get_ent (numRoots b) (tableOrder b)) by done. cbn.
  rewrite assert_bind by (by apply Z.eqb_eq).
  destruct (path_update_run b G (buddy b) o c o) as (a' & Hrun & U); [done..|lia|].
  apply bind_Ret in Hrun as (x & -> & Hasc). cbn. rewrite Hasc. cbn. eauto.
Qed.

(** Undoing an update of a free block restores the table. *)
Lemma path_update_undo (b : BuddyAccessor) (a' a'' : list Z) (o c : Z) :
  Geometry b → WF b → valid (numRoots b) (tableOrder b) o c → on_path b o c →
  path_update b (buddy b) a' o c (-1) → path_update b a' a'' o c o → a'' = buddy b.
Proof.
  intros G W V P U U'. pose proof G as []. pose proof V as [Ho _].
  apply (table_ext (numRoots b) (tableOrder b)); [done..| |].
  { by rewrite (pu_length _ _ _ _ _ _ U'), (pu_length _ _ _ _ _ _ U). }
  assert (∀ (m : nat) k i, k = Z.of_nat m → valid (numRoots b) (tableOrder b) k i →
    ent (numRoots b) (tableOrder b) a'' k i = ent (numRoots b) (tableOrder b) (buddy b) k i) as H.
  { induction m as [|m IH]; intros k i Hk Vi.
    all: destruct (decide (o ≤ k ∧ i = c / 2 ^ (k - o))) as [[Hok Hi]|Hoff].
    all: try (assert (k < o ∨ i ≠ c / 2 ^ (k - o)) by (destruct (Z.lt_ge_cases k o); naive_solver lia);
      rewrite (pu_keep _ _ _ _ _ _ U'), (pu_keep _ _ _ _ _ _ U); done).
    all: pose proof (P o ltac:(lia)) as He; rewrite Z.sub_diag, Z.div_1_r in He;
      pose proof (wf_range _ _ _ W _ _ V).
    all: destruct (Z.eq_dec k o) as [Hko|]; [subst k; rewrite Hi, Hko, Z.sub_diag, Z.div_1_r;
      rewrite (pu_set _ _ _ _ _ _ U'); lia|].
    { lia. }
    set (k' := Z.of_nat m) in *. assert (k = k' + 1) as -> by lia.
    destruct (valid_child _ _ k' i ltac:(lia) Vi) as [V0 V1]. pose proof Vi as [? _].
    rewrite (pu_anc _ _ _ _ _ _ U' k' i) by (done || lia).
    rewrite !IH by done. symmetry. apply (node_combined _ _ _ W); [lia|done|].
    specialize (P (k' + 1) ltac:(lia)). rewrite <-Hi in P. lia. }
  intros k i Vi. apply (H (Z.to_nat k)); [|done]. destruct Vi; lia.
Qed.

(** C31: [BuddyAccessor::allocate] is a first-fit allocator.  On every consistent
    table it terminates without failing an assertion and without leaving the
    table, and either no free block of that order lies completely below
    [2^addressBits], in which case it returns [illegalAddress] and changes
    nothing, or it returns the lowest such block, keeps the table consistent and
    takes exactly the pages of that block out of the free pages. *)
Theorem allocate_first_fit (b : BuddyAccessor) (order addressBits : Z) :
  Geometry b → WF b → 0 ≤ order → 0 ≤ addressBits ≤ 64 →
  ∃ r b', allocate b order addressBits = Ret (r, b') ∧
    ((r = illegalAddress ∧ b' = b ∧
        (order ≤ tableOrder b → ∀ c, ¬ fits b order addressBits c)) ∨
     (∃ c, r = baseAddress b + c * 2 ^ (order + sizeShift b) ∧ r ≠ illegalAddress ∧
        fits b order addressBits c ∧ (∀ c', fits b order addressBits c' → c ≤ c') ∧
        took b order c b')).
Proof.
  intros G W Ho Hb. destruct (allocate_run b order addressBits G W Ho Hb) as (r & b' & Hr & H).
  exists r, b'. split; [done|]. destruct H as [H|(c & ? & ? & ? & ? & ? & _)]; [by left|right].
  by exists c.
Qed.

(** C32: [BuddyAccessor::free] of a block that is allocated succeeds on every
    consistent table, keeps the table consistent, and adds exactly the pages of
    that block to the free pages. *)
Theorem free_block (b : BuddyAccessor) (order c : Z) :
  Geometry b → WF b → allocated b order c →
  ∃ b', free b (baseAddress b + c * 2 ^ (order + sizeShift b)) order = Ret b' ∧ gave b order c b'.
Proof.
  intros G W A. destruct (free_run b order c G W A) as (a' & Hf & U).
  exists (set_buddy b a'). split; [done|]. by apply give_block.
Qed.

Lemma allocate_free_inverse (b b' : BuddyAccessor) (order addressBits r : Z) :
  Geometry b → WF b → 0 ≤ addressBits ≤ 64 →
  allocate b order addressBits = Ret (r, b') → r ≠ illegalAddress →
  free b' r order = Ret b.
Proof.
  intros G W Hb Ha Hr.
  assert (0 ≤ order) as Ho.
  { unfold allocate in Ha. apply bind_Ret in Ha as ([] & Ha & _).
    by apply assert_Ret, Z.leb_le in Ha. }
  destruct (allocate_run b order addressBits G W Ho Hb) as (r0 & b0 & Hr0 & H).
  rewrite Ha in Hr0. injection Hr0 as <- <-.
  destruct H as [[-> _]|(c & -> & _ & (V & _) & _ & (G' & W' & Hb' & A & _) & U & P)]; [done|].
  destruct (free_run b' order c G' W' A) as (a'' & Hf & U').
  rewrite Hb' in Hf, U' |- *. simpl in *. rewrite Hf. f_equal.
  assert (path_update b (buddy b') a'' order c order) as U'' by (destruct U'; by split).
  rewrite (path_update_undo b (buddy b') a'' order c) by done. by destruct b.
Qed.

(** Freeing a block right after it was allocated restores the allocator bit
    by bit: [allocate] and [free] are inverse to each other. *)
Theorem allocate_free_roundtrip (b b' : BuddyAccessor) (order addressBits r : Z) :
  Geometry b → WF b → 0 ≤ addressBits ≤ 64 →
  allocate b order addressBits = Ret (r, b') → r ≠ illegalAddress →
  free b' r order = Ret b.
Proof. apply allocate_free_inverse. Qed.

(** ** The sanity check *)
Section sanity.
Context (b : BuddyAccessor) (G : Geometry b).
Local Abbreviation n := (numRoots b).
Local Abbreviation T := (tableOrder b).
Local Abbreviation E := (ent n T (buddy b)).
Local Abbreviation valid := (valid n T).

Definition node_ok (k i : Z) : Prop :=
  -1 ≤ E k i ≤ k ∧
  (0 < k → E k i = combine (k - 1) (E (k - 1) (2 * i)) (E (k - 1) (2 * i + 1)) ∨
           (E k i = -1 ∧ E (k - 1) (2 * i) = k - 1 ∧ E (k - 1) (2 * i + 1) = k - 1)).

Lemma WF_nodes : WF b ↔ ∀ k i, valid k i → node_ok k i.
Proof.
  split.
  - intros W k i V. split; [by apply W|]. intros Hk.
    replace k with (k - 1 + 1) in V by lia.
    pose proof (wf_node _ _ _ W (k - 1) i V ltac:(lia)) as H.
    by replace (k - 1 + 1) with k in H by lia.
  - intros H. split; [intros; by apply H|]. intros k j V Hk.
    destruct (H _ _ V) as [_ Hn]. specialize (Hn ltac:(lia)).
    by replace (k + 1 - 1) with k in Hn by lia.
Qed.

(** All entries of the subtree below chunk [i] of order [k] are consistent. *)
Definition sub_ok (k i : Z) : Prop :=
  ∀ k' i', valid k' i' → k' ≤ k → i' / 2 ^ (k - k') = i → node_ok k' i'.

Lemma sub_ok_leaf i : valid 0 i → sub_ok 0 i ↔ node_ok 0 i.
Proof.
  intros V. split.
  - intros H. apply H; [done|lia|by rewrite Z.div_1_r].
  - intros H k' i' [? _] ? Hi. assert (k' = 0) as -> by lia.
    rewrite Z.div_1_r in Hi. by subst i'.
Qed.

Lemma sub_ok_node k i : 0 ≤ k → valid (k + 1) i →
  sub_ok (k + 1) i ↔ node_ok (k + 1) i ∧ sub_ok k (2 * i) ∧ sub_ok k (2 * i + 1).
Proof.
  intros Hk V. split.
  - intros H. split.
    { apply H; [done|lia|]. by rewrite Z.sub_diag, Z.div_1_r. }
    split; intros k' i' V' ? Hi; (apply H; [done|lia|]);
      replace (k + 1 - k') with (k - k' + 1) by lia; rewrite <-pow_div_half, Hi by lia.
    + rewrite Z.mul_comm. apply Z.div_mul. lia.
    + symmetry. apply Z.div_unique with 1; lia.
  - intros (Hr & H0 & H1) k' i' V' Hle Hi. destruct (Z.eq_dec k' (k + 1)) as [->|].
    { rewrite Z.sub_diag, Z.div_1_r in Hi. by subst. }
    pose proof (half_cases (i' / 2 ^ (k - k'))) as Hh. rewrite pow_div_half in Hh by lia.
    replace (k - k' + 1) with (k + 1 - k') in Hh by lia. rewrite Hi in Hh.
    destruct Hh; [apply H0|apply H1]; (done || lia).
Qed.

(** One inner step of the traversal, with the results of the children. *)
Definition inner_check (k v k0 k1 : Z) : Prop :=
  -1 ≤ v ≤ k + 1 ∧ (v = -1 ∧ (k0 = k ∧ k1 = k ∨ k0 = -1 ∧ k1 = -1) ∨
    v ≠ -1 ∧ k0 ≤ v ∧ k1 ≤ v ∧
    v = if (k0 =? k) && (k1 =? k) then k + 1 else Z.max (-1) (Z.max k0 k1)).

Lemma inner_check_node k i :
  0 ≤ k → -1 ≤ E k (2 * i) ≤ k → -1 ≤ E k (2 * i + 1) ≤ k →
  node_ok (k + 1) i ↔ inner_check k (E (k + 1) i) (E k (2 * i)) (E k (2 * i + 1)).
Proof.
  intros Hk H0 H1. unfold node_ok, inner_check. replace (k + 1 - 1) with k by lia.
  unfold combine. repeat case_Z; simpl; lia.
Qed.

Lemma traverse_node (k : nat) i v k0 k1 :
  valid (Z.of_nat k + 1) i →
  let sl := off n T (Z.of_nat k) in
  traverseForSanityCheck b sl k (2 * i) = Ret k0 →
  traverseForSanityCheck b sl k (2 * i + 1) = Ret k1 →
  traverseForSanityCheck b (off n T (Z.of_nat k + 1)) (S k) i = Ret v ↔
  v = E (Z.of_nat k + 1) i ∧ inner_check (Z.of_nat k) v k0 k1.
Proof.
  intros V sl H0 H1. destruct G. cbn [traverseForSanityCheck].
  rewrite (arr_get_ent n T) by done.
  assert (off n T (Z.of_nat k + 1) + chunksIn n T (Z.of_nat (S k)) = sl) as ->.
  { destruct V. replace (Z.of_nat (S k)) with (Z.of_nat k + 1) by lia.
    rewrite chunksIn_eq by (done || lia). unfold sl.
    replace (Z.of_nat k) with (Z.of_nat k + 1 - 1) at 3 by lia. by rewrite off_succ by lia. }
  rewrite H0, H1. set (e := E _ i). unfold inner_check, assert.
  replace (Z.of_nat (S k)) with (Z.of_nat k + 1) by lia. cbn.
  repeat case_Z; cbn; repeat case_Z; cbn; repeat case_Z; cbn; split; intros; inv_outcome;
    try done; try (f_equal; lia); lia.
Qed.

Lemma traverse_fails_child (k : nat) i v :
  valid (Z.of_nat k + 1) i →
  traverseForSanityCheck b (off n T (Z.of_nat k + 1)) (S k) i = Ret v →
  ∃ k0 k1, traverseForSanityCheck b (off n T (Z.of_nat k)) k (2 * i) = Ret k0 ∧
    traverseForSanityCheck b (off n T (Z.of_nat k)) k (2 * i + 1) = Ret k1.
Proof.
  intros V. destruct G. cbn [traverseForSanityCheck].
  rewrite (arr_get_ent n T) by done.
  assert (off n T (Z.of_nat k + 1) + chunksIn n T (Z.of_nat (S k)) = off n T (Z.of_nat k)) as ->.
  { destruct V. replace (Z.of_nat (S k)) with (Z.of_nat k + 1) by lia.
    rewrite chunksIn_eq by (done || lia).
    replace (Z.of_nat k) with (Z.of_nat k + 1 - 1) at 3 by lia. by rewrite off_succ by lia. }
  intros H. cbn in H. apply bind_Ret in H as (_ & _ & H). apply bind_Ret in H as (_ & _ & H).
  apply bind_Ret in H as (k0 & H0 & H). exists k0. case_match.
  - apply bind_Ret in H as (k1 & Hk1 & _). eauto.
  - apply bind_Ret in H as (_ & _ & H). apply bind_Ret in H as (k1 & Hk1 & _). eauto.
Qed.

(** The traversal of one subtree succeeds exactly if all of its entries are
    consistent, and then returns the entry of its root. *)
Lemma traverse_spec (k : nat) : ∀ i v, valid (Z.of_nat k) i →
  traverseForSanityCheck b (off n T (Z.of_nat k)) k i = Ret v ↔
  v = E (Z.of_nat k) i ∧ sub_ok (Z.of_nat k) i.
Proof.
  destruct G. induction k as [|k IH]; intros i v V.
  { change (Z.of_nat 0) with 0 in *. rewrite sub_ok_leaf by done. cbn [traverseForSanityCheck].
    rewrite (arr_get_ent n T) by done. cbn. unfold node_ok, assert.
    repeat case_Z; cbn; split; intros; inv_outcome; try done; try (f_equal; lia); lia. }
  rewrite Nat2Z.inj_succ, <-Z.add_1_r in *.
  destruct (valid_child n T (Z.of_nat k) i) as [V0 V1]; [lia|done|].
  rewrite sub_ok_node by (done || lia). split.
  - intros H. destruct (traverse_fails_child k i v V H) as (k0 & k1 & H0 & H1).
    destruct (proj1 (traverse_node k i v k0 k1 V H0 H1) H) as [Hv Hc].
    apply IH in H0 as [E0 S0]; [|done]. apply IH in H1 as [E1 S1]; [|done]. subst v k0 k1.
    split_and!; [done| |done..]. apply inner_check_node; [lia|..|done].
    + apply (S0 (Z.of_nat k) (2 * i)); [done|lia|]. by rewrite Z.sub_diag, Z.div_1_r.
    + apply (S1 (Z.of_nat k) (2 * i + 1)); [done|lia|]. by rewrite Z.sub_diag, Z.div_1_r.
  - intros (-> & Hn & S0 & S1).
    assert (node_ok (Z.of_nat k) (2 * i) ∧ node_ok (Z.of_nat k) (2 * i + 1)) as [[R0 _] [R1 _]].
    { split; [apply S0|apply S1]; try done; try lia; by rewrite Z.sub_diag, Z.div_1_r. }
    apply inner_check_node in Hn; [|lia|done..].
    apply (traverse_node k i _ (E (Z.of_nat k) (2 * i)) (E (Z.of_nat k) (2 * i + 1)) V);
      [by apply IH..|done].
Qed.

Lemma sanity_loop_spec fuel : ∀ i, 0 ≤ i → i + Z.of_nat fuel ≤ n →
  sanity_loop b i fuel = Ret tt ↔ ∀ r, i ≤ r < i + Z.of_nat fuel → sub_ok T r.
Proof.
  destruct G. induction fuel as [|fuel IH]; intros i Hi Hf; cbn [sanity_loop].
  { split; [|done]. intros _ r ?. lia. }
  assert (valid T i) as V. { split; [lia|]. rewrite Z.sub_diag. lia. }
  pose proof (traverse_spec (Z.to_nat T) i) as HT. rewrite Z2Nat.id, off_root in HT by lia.
  split.
  - intros (v & Hv & H)%bind_Ret r Hr. apply HT in Hv as [_ Hs]; [|done].
    destruct (Z.eq_dec r i) as [->|]; [done|]. apply (proj1 (IH (i + 1) ltac:(lia) ltac:(lia)) H). lia.
  - intros H. rewrite (proj2 (HT (E T i) V)); [cbn|].
    + apply IH; [lia..|]. intros r Hr. apply H. lia.
    + split; [done|]. apply H. lia.
Qed.
End sanity.

(** C33: [sanityCheck] decides consistency: on a table of the right size it passes
    (no assertion fails, no access leaves the table) exactly if the table
    satisfies the invariant that [allocate] and [free] maintain. *)
Theorem sanityCheck_iff_WF (b : BuddyAccessor) :
  Geometry b → sanityCheck b = Ret tt ↔ WF b.
Proof.
  intros G. pose proof G as []. unfold sanityCheck.
  rewrite (sanity_loop_spec b G) by lia. rewrite WF_nodes. split.
  - intros H k i V. pose proof V as [? _].
    apply (H (i / 2 ^ (tableOrder b - k))); [|done|lia|done].
    pose proof (valid_anc (numRoots b) (tableOrder b) k i (tableOrder b) ltac:(lia) V) as [_ Hv].
    rewrite Z.sub_diag in Hv. lia.
  - intros H r Hr k i V _ _. by apply H.
Qed.

(** ** Initialisation *)
Lemma fill_spec v fuel : ∀ a pos,
  -128 ≤ v < 128 → 0 ≤ pos → pos + Z.of_nat fuel ≤ Z.of_nat (length a) →
  ∃ a', fill a pos v fuel = Ret a' ∧ length a' = length a ∧
    ∀ q, a' !!! q = if decide (pos ≤ Z.of_nat q < pos + Z.of_nat fuel) then v else a !!! q.
Proof.
  induction fuel as [|fuel IH]; intros a pos Hv Hp Hl; cbn [fill].
  { exists a. split_and!; [done..|]. intros q. by rewrite decide_False by lia. }
  rewrite arr_set_Ret by lia. cbn. rewrite i8_small by lia.
  destruct (IH (<[Z.to_nat pos := v]> a) (pos + 1)) as (a' & -> & Hlen & Ha');
    [done|lia|rewrite length_insert; lia|].
  exists a'. split_and!; [done|by rewrite Hlen, length_insert|].
  intros q. rewrite Ha'. destruct (decide (Z.of_nat q = pos)) as [<-|].
  - rewrite decide_False, decide_True by lia. rewrite Nat2Z.id.
    apply list_lookup_total_insert_eq. lia.
  - rewrite list_lookup_total_insert_ne by lia. by repeat case_decide; try lia.
Qed.

Section init.
Context (b : BuddyAccessor) (G : Geometry b).
Local Abbreviation n := (numRoots b).
Local Abbreviation T := (tableOrder b).

Lemma initialize_loop_spec fuel : ∀ a k,
  k + 1 = Z.of_nat fuel → k ≤ T → Z.of_nat (length a) = table_size n T →
  (∀ k' i, valid n T k' i → k < k' → ent n T a k' i = k') →
  ∃ a', initialize_loop a (off n T k) n T k fuel = Ret a' ∧ length a' = length a ∧
    ∀ k' i, valid n T k' i → ent n T a' k' i = k'.
Proof.
  pose proof G as []. destruct (geo_bits b G) as [Hbits _].
  induction fuel as [|fuel IH]; intros a k Hf Hk Hl Hdone; cbn [initialize_loop].
  { exists a. split_and!; [done..|]. intros k' i V. apply Hdone; [done|]. destruct V. lia. }
  rewrite chunksIn_eq by (done || lia).
  pose proof (slots_bound b G k ltac:(lia)).
  assert (valid n T k (n * 2 ^ (T - k) - 1)) as Vlast by (split; lia).
  pose proof (pos_bound n T ltac:(done) ltac:(done) _ _ Vlast).
  pose proof (off_nonneg n T ltac:(done) k ltac:(lia)).
  destruct (fill_spec k (Z.to_nat (n * 2 ^ (T - k))) a (off n T k)) as (a1 & -> & Hlen & Ha1);
    [lia..|]. cbn. rewrite <-off_succ by lia.
  destruct (IH a1 (k - 1)) as (a' & -> & Hlen' & Ha'); [lia..|congruence| |].
  - intros k' i V Hk'. pose proof (pos_bound n T ltac:(done) ltac:(done) _ _ V).
    unfold ent. rewrite Ha1. rewrite Z2Nat.id by lia.
    destruct (Z.eq_dec k' k) as [->|Hne].
    + rewrite decide_True; [done|]. destruct V. lia.
    + rewrite decide_False; [by apply Hdone; [|lia]|]. destruct V as [? ?].
      pose proof (off_mono n T ltac:(done) k k' ltac:(lia)). lia.
  - exists a'. split_and!; [done|congruence|done].
Qed.

Lemma size_loop_spec fuel : ∀ k size,
  T - k + 1 = Z.of_nat fuel → 0 ≤ k → size = n * (2 ^ (T + 1) - 2 ^ (T - k + 1)) →
  size_loop n T k size fuel = table_size n T.
Proof.
  pose proof G as []. destruct (geo_bits b G) as [_ Hb].
  induction fuel as [|fuel IH]; intros k size Hf Hk Hs; cbn [size_loop].
  { subst. replace (T - k + 1) with 0 by lia. done. }
  rewrite chunksIn_eq by (done || lia). pose proof (slots_bound b G k ltac:(lia)).
  replace (T - k + 1) with (T - k + 1) in Hs by lia. rewrite (pow2_succ (T - k)) in Hs by lia.
  assert (2 ^ (T - k + 1) ≤ 2 ^ (T + 1)) by (apply Z.pow_le_mono_r; lia).
  rewrite (pow2_succ (T - k)) in * by lia.
  rewrite u64_small by nia. apply IH; [lia..|].
  replace (T - (k + 1) + 1) with (T - k) by lia. nia.
Qed.
End init.

Lemma table_full_WF n T a :
  1 ≤ n → (∀ k i, valid n T k i → ent n T a k i = k) → WF_table n T a.
Proof.
  intros Hn H. split.
  - intros k i V. rewrite H by done. destruct V. lia.
  - intros k j V Hk. left. destruct (valid_child n T k j) as [V0 V1]; [done..|].
    rewrite !H by done. unfold combine. by rewrite Z.eqb_refl.
Qed.

Lemma initialize_run (base shift roots table : Z) (a : list Z) :
  Geometry (MkBuddy base shift a roots table) →
  ∃ a', initialize a roots table = Ret a' ∧
    Geometry (MkBuddy base shift a' roots table) ∧
    ∀ k i, valid roots table k i → ent roots table a' k i = k.
Proof.
  intros G. pose proof G as []. simpl in *. unfold initialize.
  destruct (initialize_loop_spec _ G (Z.to_nat (table + 1)) a table) as (a' & Ha & Hlen & He);
    simpl; [lia..|done| |].
  { intros k' i [? _] ?. lia. }
  simpl in Ha. rewrite off_root in Ha.
  exists a'. split_and!; [done| |done]. split; simpl; congruence.
Qed.

(** [initialize] on an array of [determineSize] bytes writes every byte inside
    the array and yields a consistent table in which every page is free. *)
Theorem initialize_all_free (base shift roots table : Z) (a : list Z) :
  Geometry (MkBuddy base shift a roots table) →
  determineSize roots table = Z.of_nat (length a) ∧
  ∃ a', initialize a roots table = Ret a' ∧
    let b := MkBuddy base shift a' roots table in
    Geometry b ∧ WF b ∧ ∀ p, is_page b p → page_free b p.
Proof.
  intros G. pose proof G as []. simpl in *. split.
  - rewrite geo_length0. unfold determineSize.
    apply (size_loop_spec _ G); simpl; [lia..|].
    replace (table - 0 + 1) with (table + 1) by lia. lia.
  - destruct (initialize_run _ _ _ _ _ G) as (a' & Ha & G' & He).
    exists a'. split_and!; [done..| |].
    + by apply table_full_WF.
    + intros p Hp k Hk. simpl in *. rewrite He; [lia|]. by apply valid_page.
Qed.

(** [suitableOrder] returns the least order that leaves at most 64 roots. *)
Lemma suitable_loop_spec num fuel : ∀ order,
  0 ≤ num < 2 ^ 64 → 0 ≤ order → order + Z.of_nat fuel = 64 →
  let r := suitable_loop num order fuel in
  order ≤ r ≤ 64 ∧ (num / 2 ^ r ≤ 64) ∧ ∀ o, order ≤ o < r → 64 < num / 2 ^ o.
Proof.
  induction fuel as [|fuel IH]; intros order Hn Ho Hf; cbn [suitable_loop].
  { split_and!; [lia..| |intros; lia]. replace order with 64 by lia.
    rewrite Z.div_small by lia. lia. }
  assert (2 ^ order < 2 ^ 64) by (apply Z.pow_lt_mono_r; lia).
  rewrite shiftl_pow2, Z.mul_1_l by lia. pose proof (pow2_pos order Ho). usmall.
  case_Z; cbv zeta.
  - destruct (IH (order + 1)) as (? & ? & Hlt); [lia..|]. split_and!; [lia..|].
    intros o Ho'. destruct (Z.eq_dec o order) as [->|]; [done|apply Hlt; lia].
  - split_and!; [lia..|intros; lia].
Qed.

(** ** A concrete allocator: two roots of order 2 with 4 KiB pages at 1 MiB. *)
Definition example_table : list Z := [2; 2; 1; 1; 1; 1; 0; 0; 0; 0; 0; 0; 0; 0].
Definition example_buddy : BuddyAccessor := MkBuddy 1048576 12 example_table 2 2.

Lemma example_geometry a : length a = 14%nat → Geometry (MkBuddy 1048576 12 a 2 2).
Proof. intros Hl. split; simpl; try lia. rewrite Hl. reflexivity. Qed.

Lemma example_wf : WF example_buddy.
Proof.
  destruct (initialize_run 1048576 12 2 2 (replicate 14 0)) as (a' & Ha & _ & He).
  { by apply example_geometry. }
  vm_compute in Ha. injection Ha as <-. apply table_full_WF; [done|exact He].
Qed.

Lemma allocate_first_fit_witness :
  ∃ r b', allocate example_buddy 1 32 = Ret (r, b') ∧ r = 1048576.
Proof.
  destruct (allocate_first_fit example_buddy 1 32) as (r & b' & Ha & _);
    [by apply example_geometry|apply example_wf|lia|lia|].
  exists r, b'. split; [exact Ha|]. vm_compute in Ha. by injection Ha.
Defined.

Definition example_taken : BuddyAccessor :=
  set_buddy example_buddy [1; 2; -1; 1; 1; 1; 0; 0; 0; 0; 0; 0; 0; 0].

Lemma example_taken_run : allocate example_buddy 1 32 = Ret (1048576, example_taken).
Proof. vm_compute. reflexivity. Qed.

Lemma example_taken_ok : WF example_taken ∧ allocated example_taken 1 0.
Proof.
  destruct (allocate_run example_buddy 1 32) as (r & b' & Ha & H);
    [by apply example_geometry|apply example_wf|lia|lia|].
  rewrite example_taken_run in Ha. injection Ha as <- <-.
  destruct H as [[H _]|(c & Hc & _ & _ & _ & (_ & W & _ & A & _) & _)]; [by vm_compute in H|].
  split; [done|]. simpl in Hc. by replace 0 with c by lia.
Qed.

Lemma free_block_witness :
  ∃ b', free example_taken (1048576 + 0 * 2 ^ (1 + 12)) 1 = Ret b' ∧ gave example_taken 1 0 b'.
Proof.
  apply (free_block example_taken 1 0);
    [by apply example_geometry|apply example_taken_ok|apply example_taken_ok].
Defined.

Lemma allocate_free_roundtrip_witness : free example_taken 1048576 1 = Ret example_buddy.
Proof.
  apply (allocate_free_roundtrip example_buddy example_taken 1 32 1048576);
    [by apply example_geometry|apply example_wf|lia|apply example_taken_run|by vm_compute].
Defined.

Lemma sanityCheck_iff_WF_witness : sanityCheck example_taken = Ret tt ↔ WF example_taken.
Proof. apply (sanityCheck_iff_WF example_taken). by apply example_geometry. Defined.

Lemma initialize_all_free_witness :
  determineSize 2 2 = 14 ∧ ∃ a', initialize (replicate 14 0) 2 2 = Ret a'.
Proof.
  destruct (initialize_all_free 1048576 12 2 2 (replicate 14 0)) as (Hs & a' & Ha & _);
    [by apply example_geometry|]. split; [exact Hs|by exists a'].
Defined.
