(* ===== verification/Physical.v ===== *)
(** * The physical page allocator: kernel/thor/generic/physical.cpp *)
From S2P Require Import Prelude PageConsts Buddy.

Definition eirMaxMemoryRegions : Z := 64.

Record Region := MkRegion {
  physicalBase : Z;
  regionSize : Z;
  buddyAccessor : BuddyAccessor;
}.

(** [class PhysicalChunkAllocator]; [allRegions] holds the first [_numRegions]
    entries of the array, the counters are the [std::atomic<size_t>] members. *)
Record PhysicalChunkAllocator := MkPhys {
  allRegions : list Region;
  totalPages : Z;
  usedPages : Z;
  freePages : Z;
}.

Definition set_accessor (r : Region) (b : BuddyAccessor) : Region :=
  MkRegion (physicalBase r) (regionSize r) b.
Definition set_regions (st : PhysicalChunkAllocator) (rs : list Region)
    : PhysicalChunkAllocator :=
  MkPhys rs (totalPages st) (usedPages st) (freePages st).
Definition set_counters (st : PhysicalChunkAllocator) (used freed : Z)
    : PhysicalChunkAllocator :=
  MkPhys (allRegions st) (totalPages st) used freed.

Definition bootstrapRegion (st : PhysicalChunkAllocator) (address order roots : Z)
    (buddyTree : list Z) : PhysicalChunkAllocator :=
  if eirMaxMemoryRegions <=? Z.of_nat (length (allRegions st)) then st else
  let region := MkRegion address (u64 (Z.shiftl roots (order + kPageShift)))
                  (MkBuddy address kPageShift buddyTree roots order) in
  MkPhys (allRegions st ++ [region]) (u64 (totalPages st + u64 (Z.shiftl roots order)))
    (usedPages st) (u64 (freePages st + u64 (Z.shiftl roots order))).

(** [while(size > (size_t(kPageSize) << target)) target++;].  A [size_t] shifted
    by 52 or more positions vanishes; 52 rounds reach every size up to 2^63. *)
Fixpoint target_loop (size target : Z) (fuel : nat) : outcome Z :=
  match fuel with
  | O => Stop OutOfFuel
  | S fuel' =>
      if u64 (Z.shiftl kPageSize target) <? size then target_loop size (target + 1) fuel'
      else Ret target
  end.
Definition target_order (size : Z) : outcome Z := target_loop size 0 52.

(** One pass over the regions: the first region that yields a block. *)
Fixpoint allocate_pass (allowLow : bool) (rs : list Region) (target addressBits : Z)
    : outcome (option (Z * list Region)) :=
  match rs with
  | [] => Ret None
  | r :: rs' =>
      let continue :=
        res ← allocate_pass allowLow rs' target addressBits;
        Ret ('(physical, rs'') ← res; Some (physical, r :: rs'')) in
      if negb allowLow && (physicalBase r <? Z.shiftl 1 32) then continue
      else if tableOrder (buddyAccessor r) <? target then continue
      else
        '(physical, b) ← Buddy.allocate (buddyAccessor r) target addressBits;
        if physical =? illegalAddress then continue
        else
          assert! physical mod u64 (Z.shiftl kPageSize target) =? 0;
          Ret (Some (physical, set_accessor r b :: rs'))
  end.

Definition allocate (st : PhysicalChunkAllocator) (size addressBits : Z)
    : outcome (Z * PhysicalChunkAllocator) :=
  assert! size / kPageSize <? freePages st;
  let st := set_counters st (u64 (usedPages st + size / kPageSize))
              (freePages st - size / kPageSize) in
  target ← target_order size;
  assert! size =? u64 (Z.shiftl kPageSize target);
  high ← allocate_pass false (allRegions st) target addressBits;
  match high with
  | Some (physical, rs) => Ret (physical, set_regions st rs)
  | None =>
      low ← allocate_pass true (allRegions st) target addressBits;
      match low with
      | Some (physical, rs) => Ret (physical, set_regions st rs)
      | None => Ret (u64 (-1), st)
      end
  end.

Fixpoint free_pass (rs : list Region) (address size target : Z)
    : outcome (option (list Region)) :=
  match rs with
  | [] => Ret None
  | r :: rs' =>
      let continue :=
        res ← free_pass rs' address size target; Ret (option_map (cons r) res) in
      if address <? physicalBase r then continue
      else if regionSize r <? u64 (u64 (address + size) - physicalBase r) then continue
      else
        b ← Buddy.free (buddyAccessor r) address target;
        Ret (Some (set_accessor r b :: rs'))
  end.

Definition free (st : PhysicalChunkAllocator) (address size : Z)
    : outcome PhysicalChunkAllocator :=
  target ← target_order size;
  found ← free_pass (allRegions st) address size target;
  match found with
  | Some rs =>
      assert! size / kPageSize <? usedPages st;
      Ret (set_counters (set_regions st rs) (usedPages st - size / kPageSize)
             (u64 (freePages st + size / kPageSize)))
  | None => Stop AssertionFailed
  end.

(** ** Caching modes from the firmware memory map *)
Record EirFirmwareMemory := MkFirmware {
  fw_address : Z;
  fw_size : Z;
  fw_attributes : Z;
}.

Definition attr_wc : Z := 2.
Definition attr_wt : Z := 4.
Definition attr_wb : Z := 8.

Definition determineFirmwareCachingMode (entries : list EirFirmwareMemory)
    (physical size : Z) : option CachingMode :=
  let contains e := (fw_address e <=? physical) && (physical <? u64 (fw_address e + fw_size e)) in
  match List.find contains entries with
  | None => Some CM_mmioNonPosted
  | Some entry =>
      if u64 (fw_address entry + fw_size entry) <? u64 (physical + size) then None
      else if negb (Z.land (fw_attributes entry) attr_wb =? 0) then Some CM_writeBack
      else if negb (Z.land (fw_attributes entry) (Z.lor attr_wc attr_wt) =? 0)
      then Some CM_writeCombine
      else Some CM_mmioNonPosted
  end.

(** ** Invariant

    A region is managed by a consistent buddy table with 4 KiB pages that covers
    exactly the region.  Regions do not overlap. *)
Record region_ok (r : Region) : Prop := {
  region_geometry : Geometry (buddyAccessor r);
  region_wf : WF (buddyAccessor r);
  region_shift : sizeShift (buddyAccessor r) = kPageShift;
  region_base : baseAddress (buddyAccessor r) = physicalBase r;
  region_size : regionSize r =
    numRoots (buddyAccessor r) * 2 ^ (tableOrder (buddyAccessor r) + kPageShift);
}.

Definition disjoint_regions (r r' : Region) : Prop :=
  physicalBase r + regionSize r ≤ physicalBase r' ∨
  physicalBase r' + regionSize r' ≤ physicalBase r.

Definition regions_ok (rs : list Region) : Prop :=
  Forall region_ok rs ∧ ForallOrdPairs disjoint_regions rs.

(** The alignment that the assertion on the returned address needs. *)
Definition aligned_for (target : Z) (r : Region) : Prop :=
  physicalBase r mod 2 ^ (target + kPageShift) = 0.

Lemma page_shift target : 0 ≤ target → kPageSize * 2 ^ target = 2 ^ (target + kPageShift).
Proof. intros. unfold kPageSize, kPageShift. rewrite Z.pow_add_r by lia. lia. Qed.

Lemma u64_order target : 0 ≤ target < 52 →
  u64 (Z.shiftl kPageSize target) = 2 ^ (target + kPageShift).
Proof.
  intros. rewrite shiftl_pow2, page_shift by lia. apply u64_small.
  pose proof (pow2_pos (target + kPageShift) ltac:(unfold kPageShift; lia)).
  split; [lia|]. apply Z.pow_lt_mono_r; unfold kPageShift; lia.
Qed.

Lemma target_order_exact target : 0 ≤ target < 52 →
  target_order (2 ^ (target + kPageShift)) = Ret target.
Proof.
  intros Ht. unfold target_order.
  assert (∀ fuel t, 0 ≤ t ≤ target → t + Z.of_nat fuel = 52 →
    target_loop (2 ^ (target + kPageShift)) t fuel = Ret target) as H.
  { induction fuel as [|fuel IH]; intros t Hl Hf; [lia|]. cbn [target_loop].
    rewrite u64_order by lia. destruct (Z.eq_dec t target) as [->|].
    - by rewrite Z.ltb_irrefl.
    - assert (2 ^ (t + kPageShift) < 2 ^ (target + kPageShift)).
      { apply Z.pow_lt_mono_r; unfold kPageShift; lia. }
      rewrite (proj2 (Z.ltb_lt _ _)) by done. apply IH; lia. }
  apply H; lia.
Qed.

(** What a block of order [target] at [physical] of region [r] means. *)
Definition region_fits (r : Region) (target addressBits : Z) : Prop :=
  target ≤ tableOrder (buddyAccessor r) ∧ ∃ c, fits (buddyAccessor r) target addressBits c.

(** [rs'] is [rs] with the block at [physical] of the region at [i] taken. *)
Definition took_from (rs : list Region) (target addressBits : Z) (i : nat)
    (physical : Z) (rs' : list Region) : Prop :=
  ∃ r b' c, rs !! i = Some r ∧ rs' = <[i := set_accessor r b']> rs ∧
    physical = physicalBase r + c * 2 ^ (target + kPageShift) ∧
    fits (buddyAccessor r) target addressBits c ∧
    (∀ c', fits (buddyAccessor r) target addressBits c' → c ≤ c') ∧
    took (buddyAccessor r) target c b' ∧
    Buddy.allocate (buddyAccessor r) target addressBits = Ret (physical, b') ∧
    physical ≠ illegalAddress.

(** Whether a pass looks at a region. *)
Definition considered (allowLow : bool) (r : Region) : Prop :=
  allowLow = true ∨ 2 ^ 32 ≤ physicalBase r.

Lemma allocate_pass_spec allowLow target bits rs :
  Forall region_ok rs → Forall (aligned_for target) rs →
  0 ≤ target < 52 → 0 ≤ bits ≤ 64 →
  (allocate_pass allowLow rs target bits = Ret None ∧
     ∀ r, r ∈ rs → considered allowLow r → ¬ region_fits r target bits) ∨
  (∃ physical rs' i, allocate_pass allowLow rs target bits = Ret (Some (physical, rs')) ∧
     took_from rs target bits i physical rs' ∧
     (∃ r, rs !! i = Some r ∧ considered allowLow r) ∧
     ∀ j r, (j < i)%nat → rs !! j = Some r → considered allowLow r → ¬ region_fits r target bits).
Proof.
  intros Hok Hal Ht Hb. induction Hok as [|r rs Hr Hok IH]; cbn [allocate_pass].
  { left. split; [done|]. intros ? Hin. by apply elem_of_nil in Hin. }
  apply Forall_cons_1 in Hal as [Har Hal]. specialize (IH Hal).
  assert (¬ (considered allowLow r ∧ region_fits r target bits) →
    allocate_pass allowLow (r :: rs) target bits =
      (res ← allocate_pass allowLow rs target bits;
       Ret ('(physical, rs'') ← res; Some (physical, r :: rs''))) →
    allocate_pass allowLow (r :: rs) target bits = Ret None ∧
      (∀ r', r' ∈ r :: rs → considered allowLow r' → ¬ region_fits r' target bits) ∨
    (∃ physical rs' i, allocate_pass allowLow (r :: rs) target bits = Ret (Some (physical, rs')) ∧
     took_from (r :: rs) target bits i physical rs' ∧
     (∃ r', (r :: rs) !! i = Some r' ∧ considered allowLow r') ∧
     ∀ j r', (j < i)%nat → (r :: rs) !! j = Some r' → considered allowLow r' →
       ¬ region_fits r' target bits)) as Hskip.
  { intros Hno ->. destruct IH as [[-> Hall]|(ph & rs' & i & -> & Htook & Hc & Hbefore)]; cbn.
    - left. split; [done|]. intros r' Hin Hcons Hfit. apply elem_of_cons in Hin as [->|Hin]; [by destruct Hno|].
      by destruct (Hall r' Hin Hcons).
    - right. exists ph, (r :: rs'), (S i). split; [done|]. split_and!; [|done|].
      + destruct Htook as (r0 & b' & c & ? & -> & ?). exists r0, b', c. split; [done|]. by split.
      + intros [|j] r' Hj Hl; [naive_solver|]. apply (Hbefore j); [lia|done]. }
  cbn [allocate_pass] in Hskip.
  destruct (negb allowLow && (physicalBase r <? Z.shiftl 1 32)) eqn:Hlow.
  { apply Hskip; [|done]. intros [[->|Hc] _]; [done|].
    apply andb_true_iff in Hlow as [_ Hlow%Z.ltb_lt]. change (Z.shiftl 1 32) with (2 ^ 32) in Hlow. lia. }
  destruct (Z.ltb_spec (tableOrder (buddyAccessor r)) target) as [?|HT].
  { apply Hskip; [|done]. intros [_ [? _]]. lia. }
  pose proof Hr as [G W Hs Hbase _].
  destruct (allocate_run (buddyAccessor r) target bits G W ltac:(lia) Hb) as (ph & b' & Hrun & Hres).
  rewrite Hrun in Hskip |- *. cbn in Hskip |- *.
  destruct Hres as [(-> & -> & Hnone)|(c & Hph & Hne & Hfit & Hleast & Htook & _)].
  { rewrite Z.eqb_refl in Hskip |- *. apply Hskip; [|done].
    intros [_ [_ [c Hc]]]. by apply (Hnone HT c). }
  destruct (Z.eqb_spec ph illegalAddress); [done|].
  rewrite Hs, Hbase in Hph. right.
  exists ph, (set_accessor r b' :: rs), O. rewrite assert_bind.
  2:{ rewrite u64_order by lia. subst ph. rewrite Z.mod_add by (apply Z.pow_nonzero; unfold kPageShift; lia).
      by apply Z.eqb_eq. }
  split_and!; [done| | |intros; lia].
  - by exists r, b', c.
  - exists r. split; [done|]. destruct allowLow; [by left|right].
    apply andb_false_iff in Hlow as [?|Hlow%Z.ltb_ge]; done.
Qed.

Lemma took_from_ok rs target bits i physical rs' :
  regions_ok rs → took_from rs target bits i physical rs' → regions_ok rs'.
Proof.
  intros [Hok Hdis] (r & b' & c & Hi & -> & _ & _ & _ & (G & W & Hb & _) & _).
  split.
  - apply Forall_insert; [done|]. pose proof (Forall_lookup_1 _ _ _ _ Hok Hi) as [].
    rewrite Hb in *. by split.
  - clear Hok. revert i Hi. induction Hdis as [|r0 rs Hall Hdis IH]; intros [|i] Hi; simplify_eq/=.
    + by constructor.
    + constructor; [|by apply IH]. apply Forall_insert; [done|].
      by pose proof (Forall_lookup_1 _ _ _ _ Hall Hi).
Qed.

(** [free_pass] on the block that [took_from] took. *)
Lemma free_pass_inverse rs target bits i physical rs' :
  regions_ok rs → 0 ≤ bits ≤ 64 → took_from rs target bits i physical rs' →
  free_pass rs' physical (2 ^ (target + kPageShift)) target = Ret (Some rs).
Proof.
  intros [Hok Hdis] Hbits (r & b' & c & Hi & -> & Hph & (V & _) & _ & _ & Hrun & Hne).
  pose proof (Forall_lookup_1 _ _ _ _ Hok Hi) as [G W Hs Hbase Hsize].
  destruct (chunk_address _ G target c V) as (_ & _ & Hend). pose proof V as [Ht Hc].
  pose proof (allocate_free_inverse _ _ _ _ _ G W Hbits Hrun Hne) as Hinv.
  pose proof G as []. rewrite Hs, Hbase in *.
  pose proof (pow2_pos (target + kPageShift) ltac:(unfold kPageShift; lia)) as Hpos.
  set (S := 2 ^ (target + kPageShift)) in *.
  assert (physicalBase r ≤ physical ∧ physical + S ≤ physicalBase r + regionSize r) as Hin.
  { rewrite Hsize. subst physical. split; [nia|].
    replace (tableOrder (buddyAccessor r) + kPageShift)
      with (tableOrder (buddyAccessor r) - target + (target + kPageShift)) by lia.
    rewrite Z.pow_add_r by (unfold kPageShift; lia). fold S.
    assert ((c + 1) * S ≤ numRoots (buddyAccessor r) * 2 ^ (tableOrder (buddyAccessor r) - target) * S)
      by (apply Z.mul_le_mono_nonneg_r; lia). lia. }
  assert (physicalBase r + regionSize r < 2 ^ 64) as Hlim by (rewrite Hsize; lia).
  clear Hrun Hph Hend. revert i Hi. induction rs as [|r0 rs IH]; intros i Hi; [done|].
  apply Forall_cons_1 in Hok as [Hr0 Hok]. inversion_clear Hdis as [|? ? Hall Hdis'].
  destruct i as [|i]; simplify_eq/=.
  - rewrite (proj2 (Z.ltb_ge _ _)) by lia. rewrite (u64_small (physical + S)) by lia.
    rewrite u64_small by lia. rewrite (proj2 (Z.ltb_ge _ _)) by lia.
    rewrite Hinv. cbn. unfold set_accessor. simpl. by destruct r.
  - pose proof (Forall_lookup_1 _ _ _ _ Hall Hi) as Hd. destruct Hr0 as [G0 _ Hs0 Hb0 Hsz0].
    destruct G0. rewrite Hs0 in *.
    pose proof (pow2_pos (tableOrder (buddyAccessor r0) + kPageShift) ltac:(unfold kPageShift; lia)).
    case_Z; [by rewrite IH|]. rewrite (u64_small (physical + S)) by lia.
    rewrite u64_small by lia. rewrite (proj2 (Z.ltb_lt _ _)) by (destruct Hd; lia).
    by rewrite IH.
Qed.

(** ** Allocation and release *)

(** The counters after an allocation attempt of [n] pages. *)
Definition charged (st : PhysicalChunkAllocator) (n : Z) : PhysicalChunkAllocator :=
  set_counters st (usedPages st + n) (freePages st - n).

Lemma allocate_unfold st target bits :
  0 ≤ target < 52 → 2 ^ target < freePages st →
  0 ≤ usedPages st → usedPages st + freePages st < 2 ^ 64 →
  allocate st (2 ^ (target + kPageShift)) bits =
    (high ← allocate_pass false (allRegions st) target bits;
     match high with
     | Some (physical, rs) => Ret (physical, set_regions (charged st (2 ^ target)) rs)
     | None =>
         low ← allocate_pass true (allRegions st) target bits;
         match low with
         | Some (physical, rs) => Ret (physical, set_regions (charged st (2 ^ target)) rs)
         | None => Ret (u64 (-1), charged st (2 ^ target))
         end
     end).
Proof.
  intros Ht Hf Hu Hw. unfold allocate.
  assert (2 ^ (target + kPageShift) / kPageSize = 2 ^ target) as ->.
  { rewrite <-page_shift, Z.mul_comm by lia. by apply Z.div_mul. }
  rewrite assert_bind by (by apply Z.ltb_lt). rewrite target_order_exact by done. cbn.
  rewrite u64_order by done. rewrite assert_bind by (by apply Z.eqb_eq).
  pose proof (pow2_pos target ltac:(lia)). by rewrite u64_small by lia.
Qed.

(** C38: [PhysicalChunkAllocator::allocate] for a power-of-two number of pages
    never stops on an assertion when enough pages are accounted as free and the
    regions are aligned to the block size.  If any region has a suitable block
    below [2^addressBits], it returns the lowest block of the first region that
    has one, where the regions above 4 GiB are tried first, and it takes that
    block and nothing else.  If there is none it returns -1 and leaves the
    regions alone, but the page counters are charged all the same. *)
Theorem phys_allocate (st : PhysicalChunkAllocator) (target addressBits : Z) :
  regions_ok (allRegions st) → Forall (aligned_for target) (allRegions st) →
  0 ≤ target < 52 → 0 ≤ addressBits ≤ 64 → 2 ^ target < freePages st →
  0 ≤ usedPages st → usedPages st + freePages st < 2 ^ 64 →
  (allocate st (kPageSize * 2 ^ target) addressBits = Ret (u64 (-1), charged st (2 ^ target)) ∧
   ∀ r, r ∈ allRegions st → ¬ region_fits r target addressBits) ∨
  (∃ physical rs' i r,
     allocate st (kPageSize * 2 ^ target) addressBits
       = Ret (physical, set_regions (charged st (2 ^ target)) rs') ∧
     allRegions st !! i = Some r ∧ took_from (allRegions st) target addressBits i physical rs' ∧
     regions_ok rs' ∧
     (physicalBase r < 2 ^ 32 →
       ∀ r', r' ∈ allRegions st → 2 ^ 32 ≤ physicalBase r' → ¬ region_fits r' target addressBits) ∧
     (∀ j r', (j < i)%nat → allRegions st !! j = Some r' →
       (2 ^ 32 ≤ physicalBase r → 2 ^ 32 ≤ physicalBase r') → ¬ region_fits r' target addressBits)).
Proof.
  intros Hok Hal Ht Hb Hf Hu Hw. rewrite page_shift, allocate_unfold by lia.
  pose proof (proj1 Hok) as Hok1.
  destruct (allocate_pass_spec false target addressBits (allRegions st)) as
    [[-> Hnone]|(ph & rs' & i & -> & Htook & (r & Hi & [?|Hr]) & Hbefore)]; [done..| |done|].
  - cbn. destruct (allocate_pass_spec true target addressBits (allRegions st)) as
      [[-> Hnone']|(ph & rs' & i & -> & Htook & (r & Hi & _) & Hbefore)]; [done..| |]; cbn.
    + left. split; [done|]. intros r Hin. apply Hnone'; [done|by left].
    + right. exists ph, rs', i, r. split_and!; [done..|by eapply took_from_ok| |].
      * intros _ r' Hin Hr'. apply Hnone; [done|by right].
      * intros j r' Hj Hl _. apply (Hbefore j); [done..|by left].
  - cbn. right. exists ph, rs', i, r. split_and!; [done..|by eapply took_from_ok|lia|].
    intros j r' Hj Hl Himp. apply (Hbefore j); [done..|right; by apply Himp].
Qed.

(** Releasing a block directly after its allocation restores the regions
    and the counters, except when it was the only used memory of the machine:
    the assertion [currentUsed > size / kPageSize] is strict, so that the release
    of the last used block stops the kernel. *)
Theorem phys_free_last (st st' : PhysicalChunkAllocator) (target addressBits physical : Z) :
  regions_ok (allRegions st) → Forall (aligned_for target) (allRegions st) →
  0 ≤ target < 52 → 0 ≤ addressBits ≤ 64 → 2 ^ target < freePages st →
  0 ≤ usedPages st → usedPages st + freePages st < 2 ^ 64 →
  allocate st (kPageSize * 2 ^ target) addressBits = Ret (physical, st') →
  physical ≠ u64 (-1) →
  free st' physical (kPageSize * 2 ^ target) =
    if usedPages st =? 0 then Stop AssertionFailed else Ret st.
Proof.
  intros Hok Hal Ht Hb Hf Hu Hw Ha Hne. rewrite page_shift, allocate_unfold in Ha by lia.
  pose proof (pow2_pos target ltac:(lia)) as Hpos.
  assert (∃ i rs', took_from (allRegions st) target addressBits i physical rs' ∧
    st' = set_regions (charged st (2 ^ target)) rs') as (i & rs' & Htook & ->).
  { pose proof (proj1 Hok) as Hok1.
    destruct (allocate_pass_spec false target addressBits (allRegions st)) as
      [[Hp _]|(ph & rs' & i & Hp & ? & _)]; [done..| |]; rewrite Hp in Ha; cbn in Ha.
    - destruct (allocate_pass_spec true target addressBits (allRegions st)) as
        [[Hp' _]|(ph & rs' & i & Hp' & ? & _)]; [done..| |]; rewrite Hp' in Ha; cbn in Ha;
        inv_outcome; simplify_eq; eauto.
    - inv_outcome; simplify_eq; eauto. }
  unfold free. rewrite page_shift, target_order_exact by lia. cbn.
  rewrite (free_pass_inverse _ _ _ _ _ _ Hok Hb Htook). cbn.
  assert (2 ^ (target + kPageShift) / kPageSize = 2 ^ target) as ->.
  { rewrite <-page_shift, Z.mul_comm by lia. by apply Z.div_mul. }
  rewrite u64_small by lia.
  replace (usedPages st + 2 ^ target - 2 ^ target) with (usedPages st) by lia.
  replace (freePages st - 2 ^ target + 2 ^ target) with (freePages st) by lia.
  destruct (Z.eqb_spec (usedPages st) 0).
  - by rewrite (proj2 (Z.ltb_ge _ _)) by lia.
  - rewrite (proj2 (Z.ltb_lt _ _)) by lia. by destruct st.
Qed.

(** [bootstrapRegion] keeps the allocator consistent: it appends one region
    that is completely free and accounts its pages as free, or ignores the
    region when the table of 64 regions is full.  The sum of the free and the
    used pages stays the total number of pages. *)
Theorem bootstrapRegion_ok (st : PhysicalChunkAllocator) (address order roots : Z)
    (buddyTree : list Z) :
  let region := MkRegion address (roots * 2 ^ (order + kPageShift))
                  (MkBuddy address kPageShift buddyTree roots order) in
  regions_ok (allRegions st) → region_ok region →
  Forall (λ r, disjoint_regions r region) (allRegions st) →
  0 ≤ usedPages st → 0 ≤ freePages st → usedPages st + freePages st = totalPages st →
  totalPages st + roots * 2 ^ order < 2 ^ 64 →
  let st' := bootstrapRegion st address order roots buddyTree in
  regions_ok (allRegions st') ∧ usedPages st' + freePages st' = totalPages st' ∧
  (if decide (64 ≤ length (allRegions st))%nat then st' = st
   else allRegions st' = allRegions st ++ [region] ∧
        freePages st' = freePages st + roots * 2 ^ order).
Proof.
  intros region [Hok Hdis] Hr Hnew Hu Hf Hsum Hlim st'. pose proof Hr as [G _ _ _ _].
  subst st'. unfold bootstrapRegion, eirMaxMemoryRegions. case_decide as Hfull.
  { rewrite (proj2 (Z.leb_le _ _)) by lia. done. }
  rewrite (proj2 (Z.leb_gt _ _)) by lia. simpl. destruct G; simpl in *.
  unfold kPageShift in *. pose proof (pow2_pos order ltac:(lia)).
  pose proof (pow2_pos (order + 12) ltac:(lia)).
  rewrite !shiftl_pow2 by lia. rewrite (u64_small (roots * 2 ^ (order + 12))) by lia.
  rewrite (u64_small (roots * _)) by nia. rewrite !u64_small by nia.
  split_and!; [|lia|done..]. split; [by apply Forall_app_2; [|constructor]|].
  by apply ForallOrdPairs_snoc.
Qed.

(** [determineFirmwareCachingMode] is safe: it only allows a cached or a
    write-combining mapping of a physical range when one entry of the firmware
    memory map covers the whole range and carries the matching attribute, and it
    refuses exactly the ranges that start inside of an entry and end behind it. *)
Theorem firmware_caching_safe (entries : list EirFirmwareMemory) (physical size : Z) :
  0 ≤ physical → 0 ≤ size → physical + size < 2 ^ 64 →
  Forall (λ e, 0 ≤ fw_address e ∧ 0 ≤ fw_size e ∧ fw_address e + fw_size e < 2 ^ 64) entries →
  match determineFirmwareCachingMode entries physical size with
  | Some m =>
      m ∈ [CM_writeBack; CM_writeCombine; CM_mmioNonPosted] ∧
      (m ≠ CM_mmioNonPosted → ∃ e, e ∈ entries ∧ fw_address e ≤ physical ∧
         physical + size ≤ fw_address e + fw_size e ∧
         Z.land (fw_attributes e)
           (if decide (m = CM_writeBack) then attr_wb else Z.lor attr_wc attr_wt) ≠ 0)
  | None => ∃ e, e ∈ entries ∧ fw_address e ≤ physical < fw_address e + fw_size e ∧
              fw_address e + fw_size e < physical + size
  end.
Proof.
  intros Hp Hs Hl He. unfold determineFirmwareCachingMode.
  destruct (List.find _ entries) as [e|] eqn:Hfind.
  2:{ split; [by repeat constructor|done]. }
  apply List.find_some in Hfind as [Hin%list_elem_of_In Hc].
  pose proof (proj1 (list.Forall_forall _ _) He e Hin) as (? & ? & ?).
  apply andb_true_iff in Hc as [Hc1%Z.leb_le Hc2%Z.ltb_lt].
  revert Hc2. usmall. intros Hc2. case_Z; [by exists e|].
  destruct (Z.eqb_spec (Z.land (fw_attributes e) attr_wb) 0); simpl.
  2:{ split; [by repeat constructor|]. intros _. exists e. done. }
  destruct (Z.eqb_spec (Z.land (fw_attributes e) (Z.lor attr_wc attr_wt)) 0); simpl.
  { split; [by repeat constructor|done]. }
  split; [by repeat constructor|]. intros _. exists e. done.
Qed.

(** ** A machine with the example region of [Buddy] below 4 GiB and one above. *)
Definition example_low : Region := MkRegion 1048576 32768 example_buddy.
Definition example_high : Region :=
  MkRegion 8589934592 32768 (MkBuddy 8589934592 12 example_table 2 2).
Definition example_phys : PhysicalChunkAllocator :=
  MkPhys [example_low; example_high] 16 0 16.

Lemma example_low_ok : region_ok example_low.
Proof. split; [by apply example_geometry|apply example_wf|done..]. Qed.

Lemma example_high_ok : region_ok example_high.
Proof. split; [by split|apply example_wf|done..]. Qed.

Lemma example_regions : regions_ok [example_low; example_high].
Proof.
  split.
  - constructor; [apply example_low_ok|]. constructor; [apply example_high_ok|done].
  - by repeat constructor.
Qed.

Lemma example_aligned : Forall (aligned_for 1) [example_low; example_high].
Proof. by repeat constructor. Qed.

Lemma phys_allocate_witness :
  ∃ st', allocate example_phys (kPageSize * 2 ^ 1) 64 = Ret (8589934592, st').
Proof.
  destruct (phys_allocate example_phys 1 64) as [[H _]|(ph & rs & i & r & H & _)];
    [apply example_regions|apply example_aligned|done..| |]; vm_compute in H; [done|].
  eexists. by vm_compute.
Defined.

Lemma phys_free_last_witness :
  ∃ ph st', allocate example_phys (kPageSize * 2 ^ 1) 32 = Ret (ph, st') ∧
    free st' ph (kPageSize * 2 ^ 1) = Stop AssertionFailed.
Proof.
  eexists _, _. split; [by vm_compute|].
  apply (phys_free_last example_phys _ 1 32);
    [apply example_regions|apply example_aligned|done..].
Defined.

Lemma bootstrapRegion_ok_witness :
  regions_ok (allRegions (bootstrapRegion (MkPhys [example_low] 8 0 8) 8589934592 2 2 example_table)).
Proof.
  apply (bootstrapRegion_ok (MkPhys [example_low] 8 0 8) 8589934592 2 2 example_table);
    try done.
  - split; [constructor; [apply example_low_ok|done]|by repeat constructor].
  - apply example_high_ok.
  - by repeat constructor.
Defined.

Lemma firmware_caching_safe_witness :
  determineFirmwareCachingMode [MkFirmware 4096 8192 8] 8192 4096 = Some CM_writeBack ∧
  ∃ e, e ∈ [MkFirmware 4096 8192 8] ∧ fw_address e ≤ 8192.
Proof.
  split; [done|].
  destruct (firmware_caching_safe [MkFirmware 4096 8192 8] 8192 4096) as [_ H];
    [done..|by repeat constructor|]. destruct H as (e & ? & ? & _); [done|by exists e].
Defined.
