(* ===== verification/SoundRules.v ===== *)
(** * Negotiation of sound parameters: drivers/libsound/src

    [rules.hpp] (interval arithmetic), [rules.cpp] (the rules that tie the
    parameters of a PCM stream together) and [device.cpp] ([applyRules], the
    rules of a device, and the ioctl [SNDRV_PCM_IOCTL_HW_REFINE]).

    The main theorem says that the negotiation never loses a configuration: a
    choice of all parameters that the client's request, the device and the
    equations between the parameters allow is still allowed in the answer, and
    the loop of [applyRules] terminates. *)
From S2P Require Import Prelude.

Definition UINT32_MAX : Z := 4294967295.

(** The numbers of the parameters and formats in the Linux ABI
    (<sound/asound.h>). *)
Definition SNDRV_PCM_HW_PARAM_ACCESS : Z := 0.
Definition SNDRV_PCM_HW_PARAM_FORMAT : Z := 1.
Definition SNDRV_PCM_HW_PARAM_SUBFORMAT : Z := 2.
Definition SNDRV_PCM_HW_PARAM_FIRST_MASK : Z := 0.
Definition SNDRV_PCM_HW_PARAM_SAMPLE_BITS : Z := 8.
Definition SNDRV_PCM_HW_PARAM_FRAME_BITS : Z := 9.
Definition SNDRV_PCM_HW_PARAM_CHANNELS : Z := 10.
Definition SNDRV_PCM_HW_PARAM_RATE : Z := 11.
Definition SNDRV_PCM_HW_PARAM_PERIOD_TIME : Z := 12.
Definition SNDRV_PCM_HW_PARAM_PERIOD_SIZE : Z := 13.
Definition SNDRV_PCM_HW_PARAM_PERIOD_BYTES : Z := 14.
Definition SNDRV_PCM_HW_PARAM_PERIODS : Z := 15.
Definition SNDRV_PCM_HW_PARAM_BUFFER_TIME : Z := 16.
Definition SNDRV_PCM_HW_PARAM_BUFFER_SIZE : Z := 17.
Definition SNDRV_PCM_HW_PARAM_BUFFER_BYTES : Z := 18.
Definition SNDRV_PCM_HW_PARAM_FIRST_INTERVAL : Z := 8.
Definition SNDRV_PCM_FORMAT_S8 : Z := 0.
Definition SNDRV_PCM_FORMAT_S16_LE : Z := 2.
Definition SNDRV_PCM_FORMAT_S24_LE : Z := 6.
Definition SNDRV_PCM_FORMAT_S32_LE : Z := 10.
Definition SNDRV_PCM_FORMAT_S20_LE : Z := 25.
Definition SNDRV_PCM_ACCESS_MMAP_INTERLEAVED : Z := 0.
Definition SNDRV_PCM_ACCESS_RW_INTERLEAVED : Z := 3.
Definition SNDRV_PCM_SUBFORMAT_STD : Z := 0.

(** [struct snd_interval]; the flags are bit fields of one bit. *)
Record snd_interval := MkInterval {
  i_min : Z;
  i_max : Z;
  i_openmin : bool;
  i_openmax : bool;
  i_integer : bool;
  i_empty : bool;
}.

(** [snd_interval result{}], also with [empty = 1]. *)
Definition zero_interval : snd_interval := MkInterval 0 0 false false false false.
Definition empty_interval : snd_interval := MkInterval 0 0 false false false true.

#[export] Instance snd_interval_inhabited : Inhabited snd_interval := populate zero_interval.
#[export] Instance snd_interval_eq_dec : EqDecision snd_interval.
Proof. solve_decision. Defined.

(** The part of [snd_pcm_hw_params] that the negotiation works on: three masks
    of eight words and twelve intervals. *)
Record Params := MkParams {
  p_masks : list (list Z);
  p_intervals : list snd_interval;
  p_cmask : Z;
  p_rmask : Z;
}.

Definition mask (params : Params) (what : Z) : list Z :=
  p_masks params !!! Z.to_nat (what - SNDRV_PCM_HW_PARAM_FIRST_MASK).
Definition interval (params : Params) (what : Z) : snd_interval :=
  p_intervals params !!! Z.to_nat (what - SNDRV_PCM_HW_PARAM_FIRST_INTERVAL).
Definition set_mask (params : Params) (what : Z) (m : list Z) : Params :=
  MkParams (<[Z.to_nat (what - SNDRV_PCM_HW_PARAM_FIRST_MASK) := m]> (p_masks params))
    (p_intervals params) (p_cmask params) (p_rmask params).
Definition set_interval (params : Params) (what : Z) (i : snd_interval) : Params :=
  MkParams (p_masks params)
    (<[Z.to_nat (what - SNDRV_PCM_HW_PARAM_FIRST_INTERVAL) := i]> (p_intervals params))
    (p_cmask params) (p_rmask params).
Definition set_cmask (params : Params) (m : Z) : Params :=
  MkParams (p_masks params) (p_intervals params) m (p_rmask params).
Definition set_rmask (params : Params) (m : Z) : Params :=
  MkParams (p_masks params) (p_intervals params) (p_cmask params) m.

(** The update of [range] in [Params::intersect_interval], and [changed]. *)
Definition intersect (range other : snd_interval) : snd_interval * bool :=
  let '(min1, openmin1, changed1) :=
    if i_min range <? i_min other then (i_min other, i_openmin other, true)
    else if i_min other =? i_min range then
      (i_min range, i_openmin range || i_openmin other,
       i_openmin other && negb (i_openmin range))
    else (i_min range, i_openmin range, false) in
  let '(max1, openmax1, changed2) :=
    if i_max other <? i_max range then (i_max other, i_openmax other, true)
    else if i_max other =? i_max range then
      (i_max range, i_openmax range || i_openmax other,
       i_openmax other && negb (i_openmax range))
    else (i_max range, i_openmax range, false) in
  let changed3 := i_integer other && negb (i_integer range) in
  let integer1 := i_integer range || i_integer other in
  let '(min2, openmin2, max2, openmax2, integer2) :=
    if integer1 then
      (if openmin1 then u32 (min1 + 1) else min1, false,
       if openmax1 then u32 (max1 - 1) else max1, false, true)
    else
      (min1, openmin1, max1, openmax1,
       negb openmin1 && negb openmax1 && (min1 =? max1)) in
  let isEmpty := (max2 <? min2) || ((min2 =? max2) && (openmin2 || openmax2)) in
  let changed4 := if isEmpty then negb (i_empty range) else i_empty range in
  (MkInterval min2 max2 openmin2 openmax2 integer2 isEmpty,
   changed1 || changed2 || changed3 || changed4).

Definition intersect_interval (params : Params) (what : Z) (other : snd_interval) : Params :=
  let '(range, changed) := intersect (interval params what) other in
  let params := set_interval params what range in
  if changed then set_cmask params (Z.lor (p_cmask params) (u32 (Z.shiftl 1 what))) else params.

(** [struct Rule]: the dependencies are kept as a bit mask. *)
Record Rule := MkRule {
  r_what : Z;
  r_dependencies : Z;
  r_func : Params → Params;
}.

Definition dependencies (deps : list Z) : Z :=
  fold_left (λ m dep, Z.lor m (u32 (Z.shiftl 1 dep))) deps 0.

(** ** namespace utils *)
Definition safeDiv32 (value divisor : Z) : Z * Z :=
  if divisor =? 0 then (UINT32_MAX, 0) else (value / divisor, value mod divisor).

Definition safeMul32 (value multiplier : Z) : Z :=
  if value =? 0 then value
  else if UINT32_MAX / value <? multiplier then UINT32_MAX
  else u32 (value * multiplier).

Definition safeMuldiv32 (value multiplier divisor : Z) : Z * Z :=
  if divisor =? 0 then (UINT32_MAX, 0) else
  let result := u64 (value * multiplier) in
  let remainder := u32 (result mod divisor) in
  let result := result / divisor in
  if UINT32_MAX <? result then (UINT32_MAX, 0) else (u32 result, remainder).

Definition intervalMul (value multiplier : snd_interval) : snd_interval :=
  if i_empty value || i_empty multiplier then empty_interval else
  MkInterval (safeMul32 (i_min value) (i_min multiplier))
    (safeMul32 (i_max value) (i_max multiplier))
    (i_openmin value || i_openmin multiplier) (i_openmax value || i_openmax multiplier)
    (i_integer value && i_integer multiplier) false.

Definition intervalDiv (value divisor : snd_interval) : snd_interval :=
  if i_empty value || i_empty divisor then empty_interval else
  let '(min, remainder) := safeDiv32 (i_min value) (i_max divisor) in
  let openmin := negb (remainder =? 0) || i_openmin value || i_openmax divisor in
  let '(max, openmax) :=
    if 0 <? i_min divisor then
      let '(max, remainder) := safeDiv32 (i_max value) (i_min divisor) in
      if negb (remainder =? 0) then (u32 (max + 1), true)
      else (max, i_openmax value || i_openmin divisor)
    else (UINT32_MAX, false) in
  MkInterval min max openmin openmax false false.

(** The overload with a fixed multiplier. *)
Definition intervalMulDiv (value : snd_interval) (multiplier : Z) (divisor : snd_interval)
    : snd_interval :=
  if i_empty value || i_empty divisor then empty_interval else
  let '(min, remainder) := safeMuldiv32 (i_min value) multiplier (i_max divisor) in
  let openmin := negb (remainder =? 0) || i_openmin value || i_openmax divisor in
  let '(max, openmax) :=
    if 0 <? i_min divisor then
      let '(max, remainder) := safeMuldiv32 (i_max value) multiplier (i_min divisor) in
      if negb (remainder =? 0) then (u32 (max + 1), true)
      else (max, i_openmax value || i_openmin divisor)
    else (UINT32_MAX, false) in
  MkInterval min max openmin openmax false false.

(** The overload with a fixed divisor. *)
Definition intervalMulDivBy (value multiplier : snd_interval) (divisor : Z) : snd_interval :=
  if i_empty value || i_empty multiplier then empty_interval else
  let '(min, remainder) := safeMuldiv32 (i_min value) (i_min multiplier) divisor in
  let openmin := negb (remainder =? 0) || i_openmin value || i_openmin multiplier in
  let '(max, remainder) := safeMuldiv32 (i_max value) (i_max multiplier) divisor in
  let '(max, openmax) :=
    if negb (remainder =? 0) then (u32 (max + 1), true)
    else (max, i_openmax value || i_openmax multiplier) in
  MkInterval min max openmin openmax false false.

Definition intervalStep (interval : snd_interval) (step : Z) : snd_interval :=
  let misalign := i_min interval mod step in
  let '(min, openmin) :=
    if negb (misalign =? 0) || i_openmin interval
    then (u32 (i_min interval + u32 (step - misalign)), false)
    else (i_min interval, i_openmin interval) in
  let misalign := i_max interval mod step in
  let '(max, openmax) :=
    if negb (misalign =? 0) || i_openmax interval
    then (u32 (i_max interval - misalign), false)
    else (i_max interval, i_openmax interval) in
  MkInterval min max openmin openmax (i_integer interval)
    (if max <? min then true else i_empty interval).

(** [std::has_single_bit], [std::bit_ceil] and [std::bit_floor]. *)
Definition has_single_bit (x : Z) : bool := (0 <? x) && (x =? 2 ^ Z.log2 x).
Definition bit_ceil (x : Z) : Z := if x <=? 1 then 1 else 2 ^ Z.log2_up x.
Definition bit_floor (x : Z) : Z := if x =? 0 then 0 else 2 ^ Z.log2 x.

Definition intervalPow2 (interval : snd_interval) : snd_interval :=
  let '(min, openmin) :=
    if negb (has_single_bit (i_min interval)) || i_openmin interval
    then (u32 (bit_ceil (u32 (i_min interval + Z.b2z (i_openmin interval)))), false)
    else (i_min interval, i_openmin interval) in
  let '(max, openmax) :=
    if negb (has_single_bit (i_max interval)) || i_openmax interval
    then (bit_floor (u32 (i_max interval - Z.b2z (i_openmax interval))), false)
    else (i_max interval, i_openmax interval) in
  MkInterval min max openmin openmax (i_integer interval)
    (if max <? min then true else i_empty interval).

(** ** The common rules (rules.cpp) *)
Definition usInSecond : Z := 1000000.

Definition has_format (params : Params) (format : Z) : bool :=
  negb (Z.land (mask params SNDRV_PCM_HW_PARAM_FORMAT !!! 0%nat) (u32 (Z.shiftl 1 format)) =? 0).

(** [constraint.min = std::min(constraint.min, bits)] and likewise for [max]. *)
Definition widen (c : Z * Z) (bits : Z) : Z * Z := (Z.min (c.1) bits, Z.max (c.2) bits).

Definition sampleBits_constraint (params : Params) : Z * Z :=
  let c := (UINT32_MAX, 0) in
  let c := if has_format params SNDRV_PCM_FORMAT_S8 then (8, 8) else c in
  let c := if has_format params SNDRV_PCM_FORMAT_S16_LE then widen c 16 else c in
  let c := if has_format params SNDRV_PCM_FORMAT_S20_LE then widen c 20 else c in
  let c := if has_format params SNDRV_PCM_FORMAT_S24_LE then widen c 24 else c in
  if has_format params SNDRV_PCM_FORMAT_S32_LE then widen c 32 else c.

Definition sampleBitsRule : Rule :=
  MkRule SNDRV_PCM_HW_PARAM_SAMPLE_BITS (dependencies [SNDRV_PCM_HW_PARAM_FORMAT])
    (λ params,
       let '(min, max) := sampleBits_constraint params in
       if min =? UINT32_MAX then params
       else intersect_interval params SNDRV_PCM_HW_PARAM_SAMPLE_BITS
              (MkInterval min max false false true false)).

Definition sampleBitsFromFrameBitsRule : Rule :=
  MkRule SNDRV_PCM_HW_PARAM_SAMPLE_BITS
    (dependencies [SNDRV_PCM_HW_PARAM_FRAME_BITS; SNDRV_PCM_HW_PARAM_CHANNELS])
    (λ params, intersect_interval params SNDRV_PCM_HW_PARAM_SAMPLE_BITS
       (intervalDiv (interval params SNDRV_PCM_HW_PARAM_FRAME_BITS)
          (interval params SNDRV_PCM_HW_PARAM_CHANNELS))).

Definition frameBitsRule : Rule :=
  MkRule SNDRV_PCM_HW_PARAM_FRAME_BITS
    (dependencies [SNDRV_PCM_HW_PARAM_SAMPLE_BITS; SNDRV_PCM_HW_PARAM_CHANNELS])
    (λ params, intersect_interval params SNDRV_PCM_HW_PARAM_FRAME_BITS
       (intervalMul (interval params SNDRV_PCM_HW_PARAM_SAMPLE_BITS)
          (interval params SNDRV_PCM_HW_PARAM_CHANNELS))).

Definition frameBitsFromPeriodBytesRule : Rule :=
  MkRule SNDRV_PCM_HW_PARAM_FRAME_BITS
    (dependencies [SNDRV_PCM_HW_PARAM_PERIOD_BYTES; SNDRV_PCM_HW_PARAM_PERIOD_SIZE])
    (λ params, intersect_interval params SNDRV_PCM_HW_PARAM_FRAME_BITS
       (intervalMulDiv (interval params SNDRV_PCM_HW_PARAM_PERIOD_BYTES) 8
          (interval params SNDRV_PCM_HW_PARAM_PERIOD_SIZE))).

Definition frameBitsFromBufferBytesRule : Rule :=
  MkRule SNDRV_PCM_HW_PARAM_FRAME_BITS
    (dependencies [SNDRV_PCM_HW_PARAM_BUFFER_BYTES; SNDRV_PCM_HW_PARAM_BUFFER_SIZE])
    (λ params, intersect_interval params SNDRV_PCM_HW_PARAM_FRAME_BITS
       (intervalMulDiv (interval params SNDRV_PCM_HW_PARAM_BUFFER_BYTES) 8
          (interval params SNDRV_PCM_HW_PARAM_BUFFER_SIZE))).

Definition channelsRule : Rule :=
  MkRule SNDRV_PCM_HW_PARAM_CHANNELS
    (dependencies [SNDRV_PCM_HW_PARAM_FRAME_BITS; SNDRV_PCM_HW_PARAM_SAMPLE_BITS])
    (λ params, intersect_interval params SNDRV_PCM_HW_PARAM_CHANNELS
       (intervalDiv (interval params SNDRV_PCM_HW_PARAM_FRAME_BITS)
          (interval params SNDRV_PCM_HW_PARAM_SAMPLE_BITS))).

Definition rateRule : Rule :=
  MkRule SNDRV_PCM_HW_PARAM_RATE
    (dependencies [SNDRV_PCM_HW_PARAM_PERIOD_SIZE; SNDRV_PCM_HW_PARAM_PERIOD_TIME])
    (λ params, intersect_interval params SNDRV_PCM_HW_PARAM_RATE
       (intervalMulDiv (interval params SNDRV_PCM_HW_PARAM_PERIOD_SIZE) usInSecond
          (interval params SNDRV_PCM_HW_PARAM_PERIOD_TIME))).

Definition rateFromBufferSizeRule : Rule :=
  MkRule SNDRV_PCM_HW_PARAM_RATE
    (dependencies [SNDRV_PCM_HW_PARAM_BUFFER_SIZE; SNDRV_PCM_HW_PARAM_BUFFER_TIME])
    (λ params, intersect_interval params SNDRV_PCM_HW_PARAM_RATE
       (intervalMulDiv (interval params SNDRV_PCM_HW_PARAM_BUFFER_SIZE) usInSecond
          (interval params SNDRV_PCM_HW_PARAM_BUFFER_TIME))).

Definition periodsRule : Rule :=
  MkRule SNDRV_PCM_HW_PARAM_PERIODS
    (dependencies [SNDRV_PCM_HW_PARAM_BUFFER_SIZE; SNDRV_PCM_HW_PARAM_PERIOD_SIZE])
    (λ params, intersect_interval params SNDRV_PCM_HW_PARAM_PERIODS
       (intervalDiv (interval params SNDRV_PCM_HW_PARAM_BUFFER_SIZE)
          (interval params SNDRV_PCM_HW_PARAM_PERIOD_SIZE))).

Definition periodSizeRule : Rule :=
  MkRule SNDRV_PCM_HW_PARAM_PERIOD_SIZE
    (dependencies [SNDRV_PCM_HW_PARAM_BUFFER_SIZE; SNDRV_PCM_HW_PARAM_PERIODS])
    (λ params, intersect_interval params SNDRV_PCM_HW_PARAM_PERIOD_SIZE
       (intervalDiv (interval params SNDRV_PCM_HW_PARAM_BUFFER_SIZE)
          (interval params SNDRV_PCM_HW_PARAM_PERIODS))).

Definition periodSizeFromPeriodBytesRule : Rule :=
  MkRule SNDRV_PCM_HW_PARAM_PERIOD_SIZE
    (dependencies [SNDRV_PCM_HW_PARAM_PERIOD_BYTES; SNDRV_PCM_HW_PARAM_FRAME_BITS])
    (λ params, intersect_interval params SNDRV_PCM_HW_PARAM_PERIOD_SIZE
       (intervalMulDiv (interval params SNDRV_PCM_HW_PARAM_PERIOD_BYTES) 8
          (interval params SNDRV_PCM_HW_PARAM_FRAME_BITS))).

Definition periodSizeFromPeriodTimeRule : Rule :=
  MkRule SNDRV_PCM_HW_PARAM_PERIOD_SIZE
    (dependencies [SNDRV_PCM_HW_PARAM_PERIOD_TIME; SNDRV_PCM_HW_PARAM_RATE])
    (λ params, intersect_interval params SNDRV_PCM_HW_PARAM_PERIOD_SIZE
       (intervalMulDivBy (interval params SNDRV_PCM_HW_PARAM_PERIOD_TIME)
          (interval params SNDRV_PCM_HW_PARAM_RATE) usInSecond)).

Definition bufferSizeRule : Rule :=
  MkRule SNDRV_PCM_HW_PARAM_BUFFER_SIZE
    (dependencies [SNDRV_PCM_HW_PARAM_PERIODS; SNDRV_PCM_HW_PARAM_PERIOD_SIZE])
    (λ params, intersect_interval params SNDRV_PCM_HW_PARAM_BUFFER_SIZE
       (intervalMul (interval params SNDRV_PCM_HW_PARAM_PERIODS)
          (interval params SNDRV_PCM_HW_PARAM_PERIOD_SIZE))).

Definition bufferSizeFromBufferBytesRule : Rule :=
  MkRule SNDRV_PCM_HW_PARAM_BUFFER_SIZE
    (dependencies [SNDRV_PCM_HW_PARAM_BUFFER_BYTES; SNDRV_PCM_HW_PARAM_FRAME_BITS])
    (λ params, intersect_interval params SNDRV_PCM_HW_PARAM_BUFFER_SIZE
       (intervalMulDiv (interval params SNDRV_PCM_HW_PARAM_BUFFER_BYTES) 8
          (interval params SNDRV_PCM_HW_PARAM_FRAME_BITS))).

Definition bufferSizeFromBufferTimeRule : Rule :=
  MkRule SNDRV_PCM_HW_PARAM_BUFFER_SIZE
    (dependencies [SNDRV_PCM_HW_PARAM_BUFFER_TIME; SNDRV_PCM_HW_PARAM_RATE])
    (λ params, intersect_interval params SNDRV_PCM_HW_PARAM_BUFFER_SIZE
       (intervalMulDivBy (interval params SNDRV_PCM_HW_PARAM_BUFFER_TIME)
          (interval params SNDRV_PCM_HW_PARAM_RATE) usInSecond)).

Definition periodBytesRule : Rule :=
  MkRule SNDRV_PCM_HW_PARAM_PERIOD_BYTES
    (dependencies [SNDRV_PCM_HW_PARAM_PERIOD_SIZE; SNDRV_PCM_HW_PARAM_FRAME_BITS])
    (λ params, intersect_interval params SNDRV_PCM_HW_PARAM_PERIOD_BYTES
       (intervalMulDivBy (interval params SNDRV_PCM_HW_PARAM_PERIOD_SIZE)
          (interval params SNDRV_PCM_HW_PARAM_FRAME_BITS) 8)).

Definition bufferBytesRule : Rule :=
  MkRule SNDRV_PCM_HW_PARAM_BUFFER_BYTES
    (dependencies [SNDRV_PCM_HW_PARAM_BUFFER_SIZE; SNDRV_PCM_HW_PARAM_FRAME_BITS])
    (λ params, intersect_interval params SNDRV_PCM_HW_PARAM_BUFFER_BYTES
       (intervalMulDivBy (interval params SNDRV_PCM_HW_PARAM_BUFFER_SIZE)
          (interval params SNDRV_PCM_HW_PARAM_FRAME_BITS) 8)).

Definition periodTimeRule : Rule :=
  MkRule SNDRV_PCM_HW_PARAM_PERIOD_TIME
    (dependencies [SNDRV_PCM_HW_PARAM_PERIOD_SIZE; SNDRV_PCM_HW_PARAM_RATE])
    (λ params, intersect_interval params SNDRV_PCM_HW_PARAM_PERIOD_TIME
       (intervalMulDiv (interval params SNDRV_PCM_HW_PARAM_PERIOD_SIZE) usInSecond
          (interval params SNDRV_PCM_HW_PARAM_RATE))).

Definition bufferTimeRule : Rule :=
  MkRule SNDRV_PCM_HW_PARAM_BUFFER_TIME
    (dependencies [SNDRV_PCM_HW_PARAM_BUFFER_SIZE; SNDRV_PCM_HW_PARAM_RATE])
    (λ params, intersect_interval params SNDRV_PCM_HW_PARAM_BUFFER_TIME
       (intervalMulDiv (interval params SNDRV_PCM_HW_PARAM_BUFFER_SIZE) usInSecond
          (interval params SNDRV_PCM_HW_PARAM_RATE))).

Definition commonRules : list Rule :=
  [ sampleBitsRule; sampleBitsFromFrameBitsRule; frameBitsRule; frameBitsFromPeriodBytesRule; frameBitsFromBufferBytesRule; channelsRule; rateRule; rateFromBufferSizeRule; periodsRule; periodSizeRule; periodSizeFromPeriodBytesRule; periodSizeFromPeriodTimeRule; bufferSizeRule; bufferSizeFromBufferBytesRule; bufferSizeFromBufferTimeRule; periodBytesRule; bufferBytesRule; periodTimeRule; bufferTimeRule ].

(** ** The rules of a device ([DeviceFile::DeviceFile]) *)
Inductive Format := pcmS8 | pcmS16 | pcmS20 | pcmS24 | pcmS32.

Record Range := MkRange { range_min : Z; range_max : Z }.

Record DeviceLimits := MkLimits {
  sampleRates : list Z;
  formats : list Format;
  channels : Range;
  periodCount : Range;
  periodSize : Range;
  periodSizeAlign : Z;
  forcePow2PeriodSizes : bool;
}.

Definition fixed_range (r : Range) : snd_interval :=
  MkInterval (range_min r) (range_max r) false false true false.

Definition hwChannelsRule (limits : DeviceLimits) : Rule :=
  MkRule SNDRV_PCM_HW_PARAM_CHANNELS (dependencies [SNDRV_PCM_HW_PARAM_CHANNELS])
    (λ params, intersect_interval params SNDRV_PCM_HW_PARAM_CHANNELS
                 (fixed_range (channels limits))).

Definition hwRateRule (limits : DeviceLimits) : Rule :=
  MkRule SNDRV_PCM_HW_PARAM_RATE (dependencies [SNDRV_PCM_HW_PARAM_RATE])
    (λ params,
       let '(min, max) := fold_left widen (sampleRates limits) (UINT32_MAX, 0) in
       intersect_interval params SNDRV_PCM_HW_PARAM_RATE
         (MkInterval min max false false true false)).

Definition hwPeriodBytesRule (limits : DeviceLimits) : Rule :=
  MkRule SNDRV_PCM_HW_PARAM_PERIOD_BYTES (dependencies [SNDRV_PCM_HW_PARAM_PERIOD_BYTES])
    (λ params, intersect_interval params SNDRV_PCM_HW_PARAM_PERIOD_BYTES
                 (fixed_range (periodSize limits))).

Definition hwPeriodsRule (limits : DeviceLimits) : Rule :=
  MkRule SNDRV_PCM_HW_PARAM_PERIODS (dependencies [SNDRV_PCM_HW_PARAM_PERIODS])
    (λ params, intersect_interval params SNDRV_PCM_HW_PARAM_PERIODS
                 (fixed_range (periodCount limits))).

Definition hwPeriodBytesAlignRule (limits : DeviceLimits) : Rule :=
  MkRule SNDRV_PCM_HW_PARAM_PERIOD_BYTES (dependencies [SNDRV_PCM_HW_PARAM_PERIOD_BYTES])
    (λ params, intersect_interval params SNDRV_PCM_HW_PARAM_PERIOD_BYTES
       (intervalStep (interval params SNDRV_PCM_HW_PARAM_PERIOD_BYTES) (periodSizeAlign limits))).

Definition hwPeriodBytesPow2Rule : Rule :=
  MkRule SNDRV_PCM_HW_PARAM_PERIOD_BYTES (dependencies [SNDRV_PCM_HW_PARAM_PERIOD_BYTES])
    (λ params, intersect_interval params SNDRV_PCM_HW_PARAM_PERIOD_BYTES
       (intervalPow2 (interval params SNDRV_PCM_HW_PARAM_PERIOD_BYTES))).

Definition dynamicRules (limits : DeviceLimits) : list Rule :=
  [hwChannelsRule limits; hwRateRule limits; hwPeriodBytesRule limits; hwPeriodsRule limits]
  ++ (if forcePow2PeriodSizes limits then [hwPeriodBytesPow2Rule] else [])
  ++ [hwPeriodBytesAlignRule limits].

(** ** Applying the rules ([DeviceFile::applyRules]) *)

(** One of the two [for] loops; the flag says that the function returns early
    because an interval became empty. *)
Fixpoint run_rules (rules : list Rule) (rmask : Z) (params : Params) : Params * bool :=
  match rules with
  | [] => (params, false)
  | rule :: rules' =>
      if Z.land rmask (r_dependencies rule) =? 0 then run_rules rules' rmask params else
      let params := r_func rule params in
      if negb (Z.land (p_cmask params) (u32 (Z.shiftl 1 (r_what rule))) =? 0)
           && i_empty (interval params (r_what rule))
      then (params, true)
      else run_rules rules' rmask params
  end.

(** The [while(true)] loop.  It has no bound in the code; [fuel] bounds the
    rounds of the model, and the theorems below show when it is enough.  The
    result is [params] with the [ApplyRulesResult]. *)
Fixpoint applyRules (fuel : nat) (limits : DeviceLimits) (params : Params) (rmask cmask : Z)
    : outcome (Params * (Z * bool)) :=
  match fuel with
  | O => Stop OutOfFuel
  | S fuel' =>
      let '(params, invalid) := run_rules commonRules rmask (set_cmask params 0) in
      if invalid then Ret (params, (Z.lor cmask (p_cmask params), true)) else
      let '(params, invalid) := run_rules (dynamicRules limits) rmask params in
      if invalid then Ret (params, (Z.lor cmask (p_cmask params), true)) else
      let rmask := p_cmask params in
      if rmask =? 0 then Ret (params, (cmask, false))
      else applyRules fuel' limits params rmask (Z.lor cmask rmask)
  end.

(** ** SNDRV_PCM_IOCTL_HW_REFINE *)
Definition alsa_format (format : Format) : Z :=
  match format with
  | pcmS8 => SNDRV_PCM_FORMAT_S8
  | pcmS16 => SNDRV_PCM_FORMAT_S16_LE
  | pcmS20 => SNDRV_PCM_FORMAT_S20_LE
  | pcmS24 => SNDRV_PCM_FORMAT_S24_LE
  | pcmS32 => SNDRV_PCM_FORMAT_S32_LE
  end.

Definition soundFormatsToAlsa (limits : DeviceLimits) : Z :=
  fold_left (λ m format, Z.lor m (u32 (Z.shiftl 1 (alsa_format format)))) (formats limits) 0.

(** The variables of the handler: the parameters, [cmask] and [invalid]. *)
Definition refine_state : Type := Params * Z * bool.

Definition applyHwMaskConstraint (fuel : nat) (limits : DeviceLimits) (what supported : Z)
    (st : refine_state) : outcome refine_state :=
  let '(params, cmask, invalid) := st in
  let value := mask params what in
  let bits0 := value !!! 0%nat in
  let changed := negb (Z.land bits0 supported =? bits0)
                 || existsb (λ w, negb (w =? 0)) (tail value) in
  let params := set_mask params what
                  (Z.land bits0 supported :: replicate (length (tail value)) 0) in
  if changed then
    let params := set_cmask params (Z.lor (p_cmask params) (u32 (Z.shiftl 1 what))) in
    '(params, (applied, inv)) ← applyRules fuel limits params what 0;
    Ret (params, Z.lor cmask applied, invalid || inv)
  else Ret (params, cmask, invalid).

(** One of the three [if] statements of the handler. *)
Definition constrain_mask (fuel : nat) (limits : DeviceLimits) (condition : bool)
    (what supported : Z) (st : refine_state) : outcome refine_state :=
  if condition then applyHwMaskConstraint fuel limits what supported st else Ret st.

(** The handler from the received to the sent parameters; the flag says that
    the reply is [ILLEGAL_ARGUMENT]. *)
Definition hw_refine (fuel : nat) (limits : DeviceLimits) (params : Params)
    : outcome (Params * bool) :=
  let rmask := p_rmask params in
  let requested what := negb (Z.land rmask (u32 (Z.shiftl 1 what)) =? 0) in
  let constrain := constrain_mask fuel limits in
  st ← constrain (requested SNDRV_PCM_HW_PARAM_ACCESS) SNDRV_PCM_HW_PARAM_ACCESS
         (Z.lor (u32 (Z.shiftl 1 SNDRV_PCM_ACCESS_RW_INTERLEAVED))
            (u32 (Z.shiftl 1 SNDRV_PCM_ACCESS_MMAP_INTERLEAVED))) (params, 0, false);
  st ← constrain (requested SNDRV_PCM_HW_PARAM_FORMAT && negb (st.2))
         SNDRV_PCM_HW_PARAM_FORMAT (soundFormatsToAlsa limits) st;
  st ← constrain (requested SNDRV_PCM_HW_PARAM_SUBFORMAT && negb (st.2))
         SNDRV_PCM_HW_PARAM_SUBFORMAT (u32 (Z.shiftl 1 SNDRV_PCM_SUBFORMAT_STD)) st;
  let '(params, cmask, invalid) := st in
  '(params, cmask, invalid) ← (
    if negb invalid then
      '(params, (applied, inv)) ← applyRules fuel limits params rmask 0;
      Ret (params, Z.lor cmask applied, inv)
    else Ret (params, cmask, invalid));
  Ret (set_rmask (set_cmask params cmask) cmask, invalid).

(** ** Wrap-around of a rounded quotient

    [intervalMulDiv] rounds an inexact upper bound up.  If the quotient is exactly
    [UINT32_MAX], the increment wraps around to 0, and the constraint is wrong.
    [wraps] tells whether this happens to a quotient of the current intervals. *)
Definition rounds_over (N d : Z) : bool := (N / d =? UINT32_MAX) && negb (N mod d =? 0).

(** The quotients with a fixed divisor and with a fixed multiplier. *)
Definition fixed_divisor : list (Z * Z * Z) :=
  [ (SNDRV_PCM_HW_PARAM_PERIOD_SIZE, SNDRV_PCM_HW_PARAM_FRAME_BITS, 8);
    (SNDRV_PCM_HW_PARAM_BUFFER_SIZE, SNDRV_PCM_HW_PARAM_FRAME_BITS, 8);
    (SNDRV_PCM_HW_PARAM_PERIOD_TIME, SNDRV_PCM_HW_PARAM_RATE, usInSecond);
    (SNDRV_PCM_HW_PARAM_BUFFER_TIME, SNDRV_PCM_HW_PARAM_RATE, usInSecond) ].
Definition fixed_multiplier : list (Z * Z * Z) :=
  [ (SNDRV_PCM_HW_PARAM_PERIOD_BYTES, 8, SNDRV_PCM_HW_PARAM_PERIOD_SIZE);
    (SNDRV_PCM_HW_PARAM_BUFFER_BYTES, 8, SNDRV_PCM_HW_PARAM_BUFFER_SIZE);
    (SNDRV_PCM_HW_PARAM_PERIOD_BYTES, 8, SNDRV_PCM_HW_PARAM_FRAME_BITS);
    (SNDRV_PCM_HW_PARAM_BUFFER_BYTES, 8, SNDRV_PCM_HW_PARAM_FRAME_BITS);
    (SNDRV_PCM_HW_PARAM_PERIOD_SIZE, usInSecond, SNDRV_PCM_HW_PARAM_PERIOD_TIME);
    (SNDRV_PCM_HW_PARAM_BUFFER_SIZE, usInSecond, SNDRV_PCM_HW_PARAM_BUFFER_TIME);
    (SNDRV_PCM_HW_PARAM_PERIOD_SIZE, usInSecond, SNDRV_PCM_HW_PARAM_RATE);
    (SNDRV_PCM_HW_PARAM_BUFFER_SIZE, usInSecond, SNDRV_PCM_HW_PARAM_RATE) ].

Definition wraps (p : Params) : bool :=
  existsb (λ '(a, b, d), rounds_over (i_max (interval p a) * i_max (interval p b)) d) fixed_divisor
  || existsb (λ '(a, m, b), (0 <? i_min (interval p b))
                            && rounds_over (i_max (interval p a) * m) (i_min (interval p b)))
       fixed_multiplier.

(** The parameters that the rules of a run start from: for [run_rules], for
    [applyRules] and for [hw_refine]. *)
Fixpoint rules_trace (rules : list Rule) (rmask : Z) (params : Params) : list Params :=
  match rules with
  | [] => []
  | rule :: rules' =>
      if Z.land rmask (r_dependencies rule) =? 0 then rules_trace rules' rmask params else
      let params' := r_func rule params in
      params ::
      if negb (Z.land (p_cmask params') (u32 (Z.shiftl 1 (r_what rule))) =? 0)
           && i_empty (interval params' (r_what rule))
      then []
      else rules_trace rules' rmask params'
  end.

Fixpoint applyRules_trace (fuel : nat) (limits : DeviceLimits) (params : Params) (rmask : Z)
    : list Params :=
  match fuel with
  | O => []
  | S fuel' =>
      let params := set_cmask params 0 in
      rules_trace commonRules rmask params ++
      let '(params, invalid) := run_rules commonRules rmask params in
      if invalid then [] else
      rules_trace (dynamicRules limits) rmask params ++
      let '(params, invalid) := run_rules (dynamicRules limits) rmask params in
      if invalid then [] else
      if p_cmask params =? 0 then [] else applyRules_trace fuel' limits params (p_cmask params)
  end.

Definition constrain_trace (fuel : nat) (limits : DeviceLimits) (condition : bool)
    (what supported : Z) (st : refine_state) : list Params :=
  let '(params, _, _) := st in
  let value := mask params what in
  let bits0 := value !!! 0%nat in
  if condition && (negb (Z.land bits0 supported =? bits0)
                   || existsb (λ w, negb (w =? 0)) (tail value))
  then applyRules_trace fuel limits
         (set_mask params what (Z.land bits0 supported :: replicate (length (tail value)) 0)) what
  else [].

Definition after {A} (o : outcome A) (k : A → list Params) : list Params :=
  match o with Ret a => k a | Stop _ => [] end.

Definition hw_refine_trace (fuel : nat) (limits : DeviceLimits) (params : Params) : list Params :=
  let rmask := p_rmask params in
  let requested what := negb (Z.land rmask (u32 (Z.shiftl 1 what)) =? 0) in
  let stage condition what supported st k :=
    constrain_trace fuel limits condition what supported st
    ++ after (constrain_mask fuel limits condition what supported st) k in
  stage (requested SNDRV_PCM_HW_PARAM_ACCESS) SNDRV_PCM_HW_PARAM_ACCESS
    (Z.lor (u32 (Z.shiftl 1 SNDRV_PCM_ACCESS_RW_INTERLEAVED))
       (u32 (Z.shiftl 1 SNDRV_PCM_ACCESS_MMAP_INTERLEAVED))) (params, 0, false) (λ st,
  stage (requested SNDRV_PCM_HW_PARAM_FORMAT && negb (st.2))
    SNDRV_PCM_HW_PARAM_FORMAT (soundFormatsToAlsa limits) st (λ st,
  stage (requested SNDRV_PCM_HW_PARAM_SUBFORMAT && negb (st.2))
    SNDRV_PCM_HW_PARAM_SUBFORMAT (u32 (Z.shiftl 1 SNDRV_PCM_SUBFORMAT_STD)) st (λ st,
  let '(params, _, invalid) := st in
  if negb invalid then applyRules_trace fuel limits params rmask else []))).

(** No quotient of the run wraps around. *)
Definition exact (trace : list Params) : Prop := Forall (λ p, wraps p = false) trace.

(** ** Meaning of an interval

    A configuration gives every parameter a rational value.  All the values share
    the denominator [D], so that the value of a parameter is [X / D]. *)
Definition rel (strict : bool) (x y : Z) : Prop := if strict then x < y else x ≤ y.
Definition above (D X : Z) (i : snd_interval) : Prop := rel (i_openmin i) (i_min i * D) X.
Definition below (D X : Z) (i : snd_interval) : Prop := rel (i_openmax i) X (i_max i * D).
Definition member (D X : Z) (i : snd_interval) : Prop :=
  i_empty i = false ∧ above D X i ∧ below D X i ∧ (i_integer i = true → X mod D = 0).

(** The bounds are [uint32_t]. *)
Definition bounds_ok (i : snd_interval) : Prop :=
  0 ≤ i_min i ≤ UINT32_MAX ∧ 0 ≤ i_max i ≤ UINT32_MAX.

(** A measure that drops whenever [intersect_interval] reports a change. *)
Definition slack (i : snd_interval) : Z :=
  2 * (i_max i - i_min i) + Z.b2z (negb (i_openmin i)) + Z.b2z (negb (i_openmax i))
  + Z.b2z (negb (i_integer i)).

Section intervals.
Context (D : Z) (HD : 0 < D).

(** An integer strictly above (below) an integer bound leaves room for one. *)
Lemma integer_above X m : X mod D = 0 → m * D < X → (m + 1) * D ≤ X.
Proof.
  intros Hm Hl. pose proof (Z.div_mod X D ltac:(lia)) as E. rewrite Hm, Z.add_0_r in E.
  assert (m < X / D) by (apply Z.mul_lt_mono_pos_r with D; lia). nia.
Qed.

Lemma integer_below X m : X mod D = 0 → X < m * D → X ≤ (m - 1) * D.
Proof.
  intros Hm Hl. pose proof (Z.div_mod X D ltac:(lia)) as E. rewrite Hm, Z.add_0_r in E.
  assert (X / D < m) by (apply Z.mul_lt_mono_pos_r with D; lia). nia.
Qed.

Lemma member_slack X i : bounds_ok i → member D X i → 0 ≤ slack i.
Proof.
  unfold member, above, below, rel, slack. intros _ (_ & Ha & Hb & _).
  assert (i_min i ≤ i_max i); [|destruct (i_openmin i), (i_openmax i), (i_integer i); simpl; lia].
  destruct (i_openmin i), (i_openmax i); nia.
Qed.

(** The first half of [intersect]: the tighter of the two lower bounds. *)
Lemma tighter_min X range other min openmin changed :
  (if i_min range <? i_min other then (i_min other, i_openmin other, true)
   else if i_min other =? i_min range then
     (i_min range, i_openmin range || i_openmin other, i_openmin other && negb (i_openmin range))
   else (i_min range, i_openmin range, false)) = (min, openmin, changed) →
  above D X range → above D X other →
  (if openmin then min * D < X else min * D ≤ X) ∧
  (min = i_min range ∨ min = i_min other) ∧
  let gain := 2 * (min - i_min range) + Z.b2z openmin - Z.b2z (i_openmin range) in
  i_min range ≤ min ∧ 0 ≤ gain ∧ (changed = true → 0 < gain).
Proof.
  unfold above, rel. intros E Hr Ho. repeat case_Z_in E; simplify_eq; cbv zeta.
  - destruct (i_openmin range), (i_openmin other); simpl in *; split_and!; auto; lia.
  - destruct (i_openmin range), (i_openmin other); simpl in *; split_and!; auto; lia.
  - destruct (i_openmin range), (i_openmin other); simpl in *; split_and!; auto; lia.
Qed.

Lemma tighter_max X range other max openmax changed :
  (if i_max other <? i_max range then (i_max other, i_openmax other, true)
   else if i_max other =? i_max range then
     (i_max range, i_openmax range || i_openmax other, i_openmax other && negb (i_openmax range))
   else (i_max range, i_openmax range, false)) = (max, openmax, changed) →
  below D X range → below D X other →
  (if openmax then X < max * D else X ≤ max * D) ∧
  (max = i_max range ∨ max = i_max other) ∧
  let gain := 2 * (i_max range - max) + Z.b2z openmax - Z.b2z (i_openmax range) in
  max ≤ i_max range ∧ 0 ≤ gain ∧ (changed = true → 0 < gain).
Proof.
  unfold below, rel. intros E Hr Ho. repeat case_Z_in E; simplify_eq; cbv zeta.
  all: destruct (i_openmax range), (i_openmax other); simpl in *; split_and!; auto; lia.
Qed.

(** [intersect_interval] keeps every value of both intervals, never widens the
    range, and reports a change only if the range became smaller. *)
Lemma intersect_keeps X range other range' changed :
  intersect range other = (range', changed) →
  bounds_ok range → bounds_ok other → member D X range →
  above D X other → below D X other → (i_integer other = true → X mod D = 0) →
  member D X range' ∧ bounds_ok range' ∧
  i_min range ≤ i_min range' ∧ i_max range' ≤ i_max range ∧
  slack range' ≤ slack range ∧ (changed = true → slack range' < slack range).
Proof.
  unfold intersect. intros E Br Bo (He & Ha & Hb & Hi) Hao Hbo Hio.
  destruct (if i_min range <? _ then _ else _) as [[min1 om1] ch1] eqn:E1.
  destruct (if i_max other <? _ then _ else _) as [[max1 oM1] ch2] eqn:E2.
  apply (tighter_min X) in E1 as (Hmin & Hc1 & Hge & Hg1 & Hs1); [|done..].
  apply (tighter_max X) in E2 as (Hmax & Hc2 & Hle & Hg2 & Hs2); [|done..].
  destruct Br as [Br1 Br2], Bo as [Bo1 Bo2]. unfold UINT32_MAX in *.
  assert (0 ≤ min1 ≤ 4294967295 ∧ 0 ≤ max1 ≤ 4294967295) as [B1 B2] by lia.
  assert (Z.b2z (negb (i_openmin range)) = 1 - Z.b2z (i_openmin range)) by (by destruct (i_openmin range)).
  assert (Z.b2z (negb (i_openmax range)) = 1 - Z.b2z (i_openmax range)) by (by destruct (i_openmax range)).
  destruct (i_integer range || i_integer other) eqn:Eint.
  - assert (X mod D = 0) as HX by (apply orb_true_iff in Eint as []; auto).
    assert (min1 < max1 ∨ (om1 = false ∧ oM1 = false ∧ min1 = max1)
      ∨ (min1 ≤ max1 ∧ om1 = true → min1 < max1)) by (destruct om1, oM1; nia).
    set (min2 := if om1 then u32 (min1 + 1) else min1) in *.
    set (max2 := if oM1 then u32 (max1 - 1) else max1) in *.
    assert (min2 * D ≤ X ∧ min2 = min1 + Z.b2z om1) as [Ha2 E2].
    { subst min2. destruct om1; [|simpl; lia]. pose proof (integer_above X min1 HX Hmin).
      assert (X ≤ max1 * D) by (destruct oM1; lia).
      rewrite u32_small by (simpl; nia). simpl. lia. }
    assert (X ≤ max2 * D ∧ max2 = max1 - Z.b2z oM1) as [Hb2 E3].
    { subst max2. destruct oM1; [|simpl; lia]. pose proof (integer_below X max1 HX Hmax).
      assert (min1 * D ≤ X) by (destruct om1; lia).
      rewrite u32_small by (simpl; nia). simpl. lia. }
    clearbody min2 max2. assert (min2 ≤ max2) by nia.
    rewrite (proj2 (Z.ltb_ge max2 min2)), andb_false_r in E by lia.
    cbn [orb] in E. rewrite He, !orb_false_r in E. injection E as <- <-.
    unfold member, above, below, rel, bounds_ok, slack, UINT32_MAX; simpl.
    assert (Z.b2z om1 = 0 ∨ Z.b2z om1 = 1) by (destruct om1; simpl; lia).
    assert (Z.b2z oM1 = 0 ∨ Z.b2z oM1 = 1) by (destruct oM1; simpl; lia).
    assert (0 ≤ Z.b2z (negb (i_integer range))) by (destruct (i_integer range); simpl; lia).
    split_and!; try done; try lia.
    intros [[Hc|Hc]%orb_true_iff|Hc]%orb_true_iff; [specialize (Hs1 Hc); lia|specialize (Hs2 Hc); lia|].
    apply andb_true_iff in Hc as [_ Hc]. rewrite Hc in *. simpl. lia.
  - apply orb_false_iff in Eint as [Er Eo]. rewrite Er, Eo in E. simpl in E.
    assert ((max1 <? min1) || (min1 =? max1) && (om1 || oM1) = false) as Hne.
    { apply orb_false_iff. destruct (Z.ltb_spec max1 min1); [destruct om1, oM1; nia|].
      split; [done|]. destruct (Z.eqb_spec min1 max1); [|done]. subst. destruct om1, oM1; simpl; [lia..|done]. }
    rewrite Hne, He, !orb_false_r in E. injection E as <- <-.
    unfold member, above, below, rel, bounds_ok, slack, UINT32_MAX; simpl. rewrite Er. simpl.
    assert (negb om1 && negb oM1 && (min1 =? max1) = true → X mod D = 0).
    { intros [[Ho1 Ho2]%andb_true_iff Heq%Z.eqb_eq]%andb_true_iff. destruct om1, oM1; try done.
      subst. replace X with (max1 * D) by lia. by apply Z.mod_mul; lia. }
    assert (Z.b2z (negb om1) = 1 - Z.b2z om1) by (by destruct om1).
    assert (Z.b2z (negb oM1) = 1 - Z.b2z oM1) by (by destruct oM1).
    assert (Z.b2z (negb (negb om1 && negb oM1 && (min1 =? max1))) ≤ 1) by (destruct (negb (_ && _)); simpl; lia).
    split_and!; try done; try lia.
    intros [Hc|Hc]%orb_true_iff; [specialize (Hs1 Hc); lia|specialize (Hs2 Hc); lia].
Qed.
End intervals.

(** ** Interval arithmetic *)
(** Split [allows] of a computed interval and read its fields. *)
Ltac iv_split :=
  split; [unfold bounds_ok|split; [unfold above|split; [unfold below|]]];
  cbn [i_min i_max i_openmin i_openmax i_integer i_empty].

Section arithmetic.
Context (D : Z) (HD : 0 < D).

Lemma rel_le s x y : rel s x y → x ≤ y.
Proof. destruct s; simpl; lia. Qed.
Lemma rel_lt s x y : x < y → rel s x y.
Proof. destruct s; simpl; lia. Qed.
Lemma rel_trans s t x y z : rel s x y → rel t y z → rel (s || t) x z.
Proof. destruct s, t; simpl; lia. Qed.
Lemma rel_mul s x y k : 0 < k → rel s x y → rel s (x * k) (y * k).
Proof. destruct s; simpl; nia. Qed.
Lemma rel_cancel s x y k : 0 < k → rel s (x * k) (y * k) → rel s x y.
Proof. destruct s; simpl; nia. Qed.
Lemma rel_or s t x y : rel t x y → rel s x y → rel (s || t) x y.
Proof. destruct s, t; simpl; lia. Qed.

Lemma rel_mul2 s t x y x' y' :
  0 ≤ x → 0 ≤ x' → 0 < y → 0 < y' → rel s x y → rel t x' y' → rel (s || t) (x * x') (y * y').
Proof. destruct s, t; simpl; nia. Qed.
Lemma rel_mul2' s t x y x' y' :
  0 < x → 0 < x' → 0 ≤ y → 0 ≤ y' → rel s x y → rel t x' y' → rel (s || t) (x * x') (y * y').
Proof. destruct s, t; simpl; nia. Qed.

(** Rounding a lower bound down, an upper bound exactly or up. *)
Lemma quot_above s N W d :
  0 < d → rel s (N * D) (W * d) → rel (negb (N mod d =? 0) || s) (N / d * D) W.
Proof.
  intros Hd H. apply (rel_cancel _ _ _ d); [done|]. apply rel_trans with (N * D); [|done].
  pose proof (Z.div_mod N d ltac:(lia)) as E. pose proof (Z.mod_pos_bound N d Hd).
  destruct (Z.eqb_spec (N mod d) 0); simpl; nia.
Qed.
Lemma quot_below s N W d :
  0 < d → N mod d = 0 → rel s (W * d) (N * D) → rel s W (N / d * D).
Proof.
  intros Hd Hr H. apply (rel_cancel _ _ _ d); [done|].
  pose proof (Z.div_mod N d ltac:(lia)) as E. rewrite Hr in E.
  replace (N / d * D * d) with (N * D) by (rewrite E at 1; ring). done.
Qed.
Lemma quot_below_up s N W d :
  0 < d → rel s (W * d) (N * D) → W < (N / d + 1) * D.
Proof.
  intros Hd H%rel_le. apply (rel_cancel true _ _ d); [done|]. simpl.
  pose proof (Z.div_mod N d ltac:(lia)). pose proof (Z.mod_pos_bound N d Hd). nia.
Qed.

(** [safeMul32] is the product, or saturates. *)
Lemma safeMul32_spec v m : 0 ≤ v → 0 ≤ m → safeMul32 v m = Z.min UINT32_MAX (v * m).
Proof.
  unfold safeMul32, UINT32_MAX. intros. destruct (Z.eqb_spec v 0); [subst; simpl; lia|].
  destruct (Z.ltb_spec (4294967295 / v) m) as [Hlt|Hle].
  - rewrite Z.min_l; [done|]. pose proof (Z.mul_succ_div_gt 4294967295 v ltac:(lia)). nia.
  - pose proof (Z.mul_div_le 4294967295 v ltac:(lia)). assert (v * m ≤ 4294967295) by nia.
    rewrite Z.min_r by done. apply u32_small. simpl. lia.
Qed.

(** [safeMuldiv32] is the quotient and the remainder, or saturates. *)
Lemma safeMuldiv32_spec v m d :
  0 ≤ v ≤ UINT32_MAX → 0 ≤ m ≤ UINT32_MAX → 0 < d ≤ UINT32_MAX →
  safeMuldiv32 v m d =
    if UINT32_MAX <? v * m / d then (UINT32_MAX, 0) else (v * m / d, (v * m) mod d).
Proof.
  unfold safeMuldiv32, UINT32_MAX. intros. destruct (Z.eqb_spec d 0); [lia|].
  assert (0 ≤ v * m < 2 ^ 64) by (change (2 ^ 64) with 18446744073709551616; nia).
  rewrite (u64_small (v * m)) by lia. case_Z; [done|].
  pose proof (Z.mod_pos_bound (v * m) d ltac:(lia)). pose proof (Z.div_pos (v * m) d).
  rewrite !u32_small by (change (2 ^ 32) with 4294967296; lia). done.
Qed.

Lemma safeDiv32_spec v d : 0 < d → safeDiv32 v d = (v / d, v mod d).
Proof. intros. unfold safeDiv32. by destruct (Z.eqb_spec d 0); [lia|]. Qed.

(** What a constraint has to satisfy to be intersected with. *)
Definition allows (X : Z) (i : snd_interval) : Prop :=
  bounds_ok i ∧ above D X i ∧ below D X i ∧ (i_integer i = true → X mod D = 0).

Lemma member_bounds X i : member D X i → i_min i ≤ i_max i ∧ (0 < X → 0 < i_max i).
Proof. intros (_ & Ha%rel_le & Hb%rel_le & _). split; nia. Qed.

Lemma intervalMul_allows X Y W a b :
  bounds_ok a → bounds_ok b → member D X a → member D Y b →
  0 < X → 0 < Y → W * D = X * Y → W < UINT32_MAX * D →
  allows W (intervalMul a b).
Proof.
  intros [Ba1 Ba2] [Bb1 Bb2] Ma Mb HX HY HW HU.
  destruct Ma as (Ea & La & Ua & Ia), Mb as (Eb & Lb & Ub & Ib).
  assert (rel (i_openmin a || i_openmin b) (i_min a * i_min b * D) W) as Hlo.
  { apply (rel_cancel _ _ _ D); [done|]. rewrite HW.
    replace (i_min a * i_min b * D * D) with (i_min a * D * (i_min b * D)) by ring.
    apply rel_mul2; [apply Z.mul_nonneg_nonneg; lia..|done|done|exact La|exact Lb]. }
  assert (rel (i_openmax a || i_openmax b) W (i_max a * i_max b * D)) as Hhi.
  { apply (rel_cancel _ _ _ D); [done|]. rewrite HW.
    replace (i_max a * i_max b * D * D) with (i_max a * D * (i_max b * D)) by ring.
    apply rel_mul2'; [done|done|apply Z.mul_nonneg_nonneg; lia..|exact Ua|exact Ub]. }
  assert (i_min a * i_min b ≤ UINT32_MAX) by (pose proof (rel_le _ _ _ Hlo); nia).
  unfold intervalMul. rewrite Ea, Eb. cbn [orb].
  rewrite !safeMul32_spec, (Z.min_r _ (i_min a * i_min b)) by lia. iv_split.
  - unfold UINT32_MAX in *. split; nia.
  - exact Hlo.
  - destruct (Z.min_spec UINT32_MAX (i_max a * i_max b)) as [[_ ->]|[_ ->]]; [by apply rel_lt|done].
  - intros [Hia Hib]%andb_true_iff. apply Z.mod_divide; [lia|].
    apply Z.mod_divide in Ia as [x ->]; [|lia|done]. apply Z.mod_divide in Ib as [y ->]; [|lia|done].
    exists (x * y). apply (Z.mul_reg_r _ _ D); [lia|]. rewrite HW. ring.
Qed.

(** The common part of the divisions: [W / D] is [X * m / Y]. *)
Lemma quotient_allows X Y W m a b :
  bounds_ok a → bounds_ok b → member D X a → member D Y b →
  0 < X → 0 < Y → 0 < W ≤ UINT32_MAX * D → 0 < m → W * Y = X * m * D →
  rel (i_openmin a || i_openmax b) (i_min a * m * D) (W * i_max b) ∧
  (0 < i_min b → rel (i_openmin b || i_openmax a) (W * i_min b) (i_max a * m * D)).
Proof.
  intros [Ba1 Ba2] [Bb1 Bb2] (_ & La & Ua & _) (_ & Lb & Ub & _) HX HY HW Hm HE. split.
  - apply (rel_cancel _ _ _ D); [done|]. apply rel_trans with (W * Y).
    + rewrite HE. replace (i_min a * m * D * D) with (i_min a * D * (m * D)) by ring.
      replace (X * m * D) with (X * (m * D)) by ring. apply rel_mul; [nia|done].
    + replace (W * i_max b * D) with (i_max b * D * W) by ring. rewrite (Z.mul_comm W).
      apply rel_mul; [lia|done].
  - intros Hb. apply (rel_cancel _ _ _ D); [done|]. apply rel_trans with (W * Y).
    + replace (W * i_min b * D) with (i_min b * D * W) by ring. rewrite (Z.mul_comm W).
      apply rel_mul; [lia|done].
    + rewrite HE. replace (i_max a * m * D * D) with (i_max a * D * (m * D)) by ring.
      replace (X * m * D) with (X * (m * D)) by ring. apply rel_mul; [nia|done].
Qed.

(** The rounded bounds that all the divisions compute. *)
Lemma round_bounds s N W d min rem :
  0 < d → 0 ≤ N → 0 < W ≤ UINT32_MAX * D → rel s (N * D) (W * d) →
  (if UINT32_MAX <? N / d then (UINT32_MAX, 0) else (N / d, N mod d)) = (min, rem) →
  0 ≤ min ≤ UINT32_MAX ∧ rel (negb (rem =? 0) || s) (min * D) W.
Proof.
  intros Hd HN HW H E. pose proof (quot_above s N W d Hd H) as HR. case_Z_in E; simplify_eq.
  - apply rel_le in HR. pose proof (Z.mul_lt_mono_pos_r D UINT32_MAX (N / d) HD). lia.
  - pose proof (Z.div_pos N d). split; [lia|done].
Qed.

Lemma round_bounds_max s N W d :
  0 < d → 0 ≤ N → W < UINT32_MAX * D → rounds_over N d = false → rel s (W * d) (N * D) →
  let '(max, rem) := if UINT32_MAX <? N / d then (UINT32_MAX, 0) else (N / d, N mod d) in
  let '(max, openmax) := if negb (rem =? 0) then (u32 (max + 1), true) else (max, s) in
  0 ≤ max ≤ UINT32_MAX ∧ rel openmax W (max * D).
Proof.
  intros Hd HN HW Hov H. pose proof (Z.div_pos N d HN Hd). case_Z.
  { simpl. split; [unfold UINT32_MAX; lia|by apply rel_lt]. }
  unfold rounds_over in Hov. destruct (Z.eqb_spec (N mod d) 0) as [Hr|Hr]; simpl.
  - split; [lia|by apply quot_below].
  - simpl in Hov. rewrite andb_true_r in Hov. apply Z.eqb_neq in Hov.
    rewrite u32_small by (unfold UINT32_MAX in *; simpl; lia).
    split; [lia|by apply (quot_below_up s)].
Qed.

Lemma intervalMulDiv_allows X Y W m a b :
  bounds_ok a → bounds_ok b → member D X a → member D Y b →
  0 < X → 0 < Y → 0 < W < UINT32_MAX * D → 0 < m ≤ UINT32_MAX → W * Y = X * m * D →
  (0 < i_min b → rounds_over (i_max a * m) (i_min b) = false) →
  allows W (intervalMulDiv a m b).
Proof.
  intros Ba Bb Ma Mb HX HY HW Hm HE Hov.
  destruct (quotient_allows X Y W m a b) as [Hlo Hhi]; try done || lia.
  destruct (member_bounds X a Ma), (member_bounds Y b Mb) as [? Hbm]. specialize (Hbm HY).
  destruct Ma as (Ea & _), Mb as (Eb & _), Ba as [? ?], Bb as [? ?].
  unfold intervalMulDiv. rewrite Ea, Eb, (safeMuldiv32_spec (i_min a)) by lia. cbn [orb].
  destruct (if _ <? i_min a * m / _ then _ else _) as [min rem] eqn:E.
  apply (round_bounds (i_openmin a || i_openmax b) _ W) in E as [Hmin Habove]; [|lia|nia|lia|done].
  destruct (Z.ltb_spec 0 (i_min b)) as [Hb|Hb].
  - specialize (Hov Hb). rewrite safeMuldiv32_spec by lia. specialize (Hhi Hb). rewrite orb_comm in Hhi.
    pose proof (round_bounds_max _ (i_max a * m) W (i_min b) Hb ltac:(nia) ltac:(lia) Hov Hhi) as HM.
    destruct (if _ <? i_max a * m / _ then _ else _) as [max' rem'].
    destruct (if negb _ then _ else _) as [max openmax]. destruct HM as [Hmax Hbelow].
    iv_split; [done|by rewrite <-orb_assoc|done|done].
  - iv_split; [unfold UINT32_MAX in *; lia|by rewrite <-orb_assoc|simpl; lia|done].
Qed.

Lemma intervalDiv_allows X Y W a b :
  bounds_ok a → bounds_ok b → member D X a → member D Y b →
  0 < X → 0 < Y → 0 < W < UINT32_MAX * D → W * Y = X * D →
  allows W (intervalDiv a b).
Proof.
  intros Ba Bb Ma Mb HX HY HW HE.
  assert (intervalDiv a b = intervalMulDiv a 1 b) as ->.
  { destruct (member_bounds Y b Mb) as [_ Hb]. specialize (Hb HY).
    destruct Ba as [? ?], Bb as [? ?]. unfold intervalDiv, intervalMulDiv.
    rewrite (safeMuldiv32_spec (i_min a)), (safeDiv32_spec (i_min a)) by (unfold UINT32_MAX in *; lia).
    rewrite !Z.mul_1_r.
    assert (∀ v d, 0 ≤ v ≤ UINT32_MAX → 0 < d → v / d ≤ UINT32_MAX) as Hle.
    { intros v d ? ?. apply Z.div_le_upper_bound; [done|unfold UINT32_MAX in *; nia]. }
    rewrite (proj2 (Z.ltb_ge UINT32_MAX _)) by (by apply Hle).
    destruct (Z.ltb_spec 0 (i_min b)); [|done].
    rewrite safeMuldiv32_spec, safeDiv32_spec by (unfold UINT32_MAX in *; lia).
    rewrite Z.mul_1_r, (proj2 (Z.ltb_ge UINT32_MAX _)) by (by apply Hle). done. }
  apply (intervalMulDiv_allows X Y); try done; try lia.
  intros Hb. destruct Ba as [_ Ba], Bb as [_ Bb]. unfold rounds_over. rewrite Z.mul_1_r.
  destruct (Z.eqb_spec (i_max a / i_min b) UINT32_MAX) as [Eq|]; [|done].
  pose proof (Z.mul_div_le (i_max a) (i_min b) Hb) as Hle. rewrite Eq in Hle.
  assert (i_min b = 1) as -> by (unfold UINT32_MAX in *; nia). by rewrite Z.mod_1_r.
Qed.

Lemma intervalMulDivBy_allows X Y W d a b :
  bounds_ok a → bounds_ok b → member D X a → member D Y b →
  0 < X → 0 < Y → 0 < W < UINT32_MAX * D → 0 < d ≤ UINT32_MAX → W * d * D = X * Y →
  rounds_over (i_max a * i_max b) d = false →
  allows W (intervalMulDivBy a b d).
Proof.
  intros [Ba1 Ba2] [Bb1 Bb2] Ma Mb HX HY HW Hd HE Hov.
  destruct Ma as (Ea & La & Ua & _), Mb as (Eb & Lb & Ub & _).
  assert (rel (i_openmin a || i_openmin b) (i_min a * i_min b * D) (W * d)) as Hlo.
  { apply (rel_cancel _ _ _ D); [done|]. rewrite HE.
    replace (i_min a * i_min b * D * D) with (i_min a * D * (i_min b * D)) by ring.
    apply rel_mul2; [apply Z.mul_nonneg_nonneg; lia..|done|done|exact La|exact Lb]. }
  assert (rel (i_openmax a || i_openmax b) (W * d) (i_max a * i_max b * D)) as Hhi.
  { apply (rel_cancel _ _ _ D); [done|]. rewrite HE.
    replace (i_max a * i_max b * D * D) with (i_max a * D * (i_max b * D)) by ring.
    apply rel_mul2'; [done|done|apply Z.mul_nonneg_nonneg; lia..|exact Ua|exact Ub]. }
  unfold intervalMulDivBy. rewrite Ea, Eb, !safeMuldiv32_spec by lia. cbn [orb].
  destruct (if _ <? i_min a * _ / _ then _ else _) as [min rem] eqn:E.
  apply (round_bounds (i_openmin a || i_openmin b) _ W) in E as [Hmin Habove]; [|lia|nia|lia|done].
  pose proof (round_bounds_max _ (i_max a * i_max b) W d ltac:(lia) ltac:(nia) ltac:(lia) Hov Hhi) as HM.
  destruct (if _ <? i_max a * _ / _ then _ else _) as [max' rem'].
  destruct (if negb _ then _ else _) as [max openmax]. destruct HM as [Hmax Hbelow].
  iv_split; [done|by rewrite <-orb_assoc|done|done].
Qed.

(** Multiples of [step]: rounding inwards loses none of them. *)
Lemma intervalStep_allows x a step :
  bounds_ok a → member D (x * D) a → 0 < step ≤ UINT32_MAX → x mod step = 0 →
  0 ≤ x ≤ UINT32_MAX → allows (x * D) (intervalStep a step).
Proof.
  intros [Ba1 Ba2] (_ & La & Ua & Ia) Hs Hx Hu.
  assert (rel (i_openmin a) (i_min a) x) as L by (by apply (rel_cancel _ _ _ D)).
  assert (rel (i_openmax a) x (i_max a)) as U by (by apply (rel_cancel _ _ _ D)).
  unfold intervalStep, UINT32_MAX in *.
  pose proof (Z.mod_pos_bound (i_min a) step ltac:(lia)).
  pose proof (Z.mod_pos_bound (i_max a) step ltac:(lia)).
  pose proof (Z.div_mod x step ltac:(lia)) as Ex. rewrite Hx, Z.add_0_r in Ex.
  pose proof (Z.div_mod (i_min a) step ltac:(lia)) as Emin.
  pose proof (Z.div_mod (i_max a) step ltac:(lia)) as Emax.
  destruct (if _ : bool then (u32 (i_min a + _), _) else _) as [min om] eqn:E1.
  assert (0 ≤ min ≤ 4294967295 ∧ rel om min x) as [Bmin Lmin].
  { destruct (Z.eqb_spec (i_min a mod step) 0) as [E0|E0]; cbn [negb orb] in E1.
    - destruct (i_openmin a); simplify_eq; [|done]. cbn [rel] in *. rewrite E0, Z.sub_0_r.
      rewrite (u32_small step) by (simpl; lia).
      assert (i_min a / step < x / step) by nia. rewrite u32_small by (simpl; nia). nia.
    - simplify_eq. apply rel_le in L. rewrite (u32_small (step - _)) by (simpl; lia).
      assert (i_min a / step < x / step) by nia. rewrite u32_small by (simpl; nia).
      cbn [rel]. nia. }
  destruct (if _ : bool then (u32 (i_max a - _), _) else _) as [max oM] eqn:E2.
  assert (0 ≤ max ≤ 4294967295 ∧ rel oM x max) as [Bmax Lmax].
  { assert (x / step ≤ i_max a / step) by (apply Z.div_le_mono; [lia|by apply rel_le in U]).
    assert (x ≤ i_max a - i_max a mod step) by nia.
    destruct (negb (i_max a mod step =? 0) || i_openmax a); simplify_eq; [|done]. rewrite u32_small by (simpl; lia).
    cbn [rel]. lia. }
  iv_split; [done|by apply rel_mul|by apply rel_mul|done].
Qed.

Lemma bit_ceil_le y k : 0 ≤ k → y ≤ 2 ^ k → 1 ≤ bit_ceil y ≤ 2 ^ k ∧ y ≤ bit_ceil y.
Proof.
  intros Hk Hy. unfold bit_ceil. pose proof (pow2_pos k Hk). case_Z; [lia|].
  pose proof (Z.log2_up_le_mono y (2 ^ k) Hy) as Hl. rewrite Z.log2_up_pow2 in Hl by done.
  pose proof (Z.log2_up_spec y ltac:(lia)) as [_ ?].
  assert (2 ^ Z.log2_up y ≤ 2 ^ k) by (apply Z.pow_le_mono_r; lia). lia.
Qed.
Lemma bit_floor_ge y k : 0 ≤ k → 2 ^ k ≤ y → 2 ^ k ≤ bit_floor y ≤ y.
Proof.
  intros Hk Hy. unfold bit_floor. pose proof (pow2_pos k Hk). case_Z; [lia|].
  pose proof (Z.log2_le_mono (2 ^ k) y Hy) as Hl. rewrite Z.log2_pow2 in Hl by done.
  pose proof (Z.log2_spec y ltac:(lia)) as [? _].
  assert (2 ^ k ≤ 2 ^ Z.log2 y) by (apply Z.pow_le_mono_r; lia). lia.
Qed.

(** Powers of two likewise. *)
Lemma intervalPow2_allows k a :
  bounds_ok a → member D (2 ^ k * D) a → 0 ≤ k ≤ 31 → allows (2 ^ k * D) (intervalPow2 a).
Proof.
  intros [Ba1 Ba2] (_ & La & Ua & Ia) Hk.
  assert (rel (i_openmin a) (i_min a) (2 ^ k)) as L by (by apply (rel_cancel _ _ _ D)).
  assert (rel (i_openmax a) (2 ^ k) (i_max a)) as U by (by apply (rel_cancel _ _ _ D)).
  assert (1 ≤ 2 ^ k ≤ 2 ^ 31).
  { pose proof (pow2_pos k ltac:(lia)). split; [lia|]. apply Z.pow_le_mono_r; lia. }
  change (2 ^ 31) with 2147483648 in *. unfold intervalPow2, UINT32_MAX in *.
  destruct (if _ : bool then (u32 (bit_ceil _), _) else _) as [min om] eqn:E1.
  assert (0 ≤ min ≤ 4294967295 ∧ rel om min (2 ^ k)) as [Bmin Lmin].
  { destruct (negb (has_single_bit (i_min a)) || i_openmin a); simplify_eq; [|done].
    assert (i_min a + Z.b2z (i_openmin a) ≤ 2 ^ k) by (destruct (i_openmin a); simpl in *; lia).
    assert (0 ≤ Z.b2z (i_openmin a) ≤ 1) by (destruct (i_openmin a); simpl; lia).
    rewrite (u32_small (i_min a + _)) by (simpl; lia).
    destruct (bit_ceil_le (i_min a + Z.b2z (i_openmin a)) k); [lia..|].
    rewrite u32_small by (change (2 ^ 32) with 4294967296; lia). cbn [rel]. lia. }
  destruct (if _ : bool then (bit_floor _, _) else _) as [max oM] eqn:E2.
  assert (0 ≤ max ≤ 4294967295 ∧ rel oM (2 ^ k) max) as [Bmax Lmax].
  { destruct (negb (has_single_bit (i_max a)) || i_openmax a); simplify_eq; [|done].
    assert (2 ^ k ≤ i_max a - Z.b2z (i_openmax a)) by (destruct (i_openmax a); simpl in *; lia).
    assert (0 ≤ Z.b2z (i_openmax a) ≤ 1) by (destruct (i_openmax a); simpl; lia).
    rewrite (u32_small (i_max a - _)) by (change (2 ^ 32) with 4294967296; lia).
    destruct (bit_floor_ge (i_max a - Z.b2z (i_openmax a)) k); [lia..|].
    cbn [rel]. lia. }
  iv_split; [done|by apply rel_mul|by apply rel_mul|done].
Qed.
End arithmetic.

(** ** Configurations *)

(** A value for every parameter, with a common denominator. *)
Record config := MkConfig { den : Z; val : Z → Z }.

(** The parameters that are intervals, except for the unused tick time. *)
Definition interval_params : list Z := [8; 9; 10; 11; 12; 13; 14; 15; 16; 17; 18].

(** A choice of parameters that satisfies all the equations between them. *)
Record consistent (c : config) : Prop := {
  c_den : 0 < den c;
  c_range w : w ∈ interval_params → 0 < val c w < UINT32_MAX * den c;
  c_frame : val c SNDRV_PCM_HW_PARAM_FRAME_BITS * den c
    = val c SNDRV_PCM_HW_PARAM_SAMPLE_BITS * val c SNDRV_PCM_HW_PARAM_CHANNELS;
  c_period_bytes : val c SNDRV_PCM_HW_PARAM_PERIOD_BYTES * 8 * den c
    = val c SNDRV_PCM_HW_PARAM_PERIOD_SIZE * val c SNDRV_PCM_HW_PARAM_FRAME_BITS;
  c_buffer_bytes : val c SNDRV_PCM_HW_PARAM_BUFFER_BYTES * 8 * den c
    = val c SNDRV_PCM_HW_PARAM_BUFFER_SIZE * val c SNDRV_PCM_HW_PARAM_FRAME_BITS;
  c_buffer_size : val c SNDRV_PCM_HW_PARAM_BUFFER_SIZE * den c
    = val c SNDRV_PCM_HW_PARAM_PERIODS * val c SNDRV_PCM_HW_PARAM_PERIOD_SIZE;
  c_period_time : val c SNDRV_PCM_HW_PARAM_PERIOD_TIME * val c SNDRV_PCM_HW_PARAM_RATE
    = val c SNDRV_PCM_HW_PARAM_PERIOD_SIZE * usInSecond * den c;
  c_buffer_time : val c SNDRV_PCM_HW_PARAM_BUFFER_TIME * val c SNDRV_PCM_HW_PARAM_RATE
    = val c SNDRV_PCM_HW_PARAM_BUFFER_SIZE * usInSecond * den c;
}.

(** An integer value in a range of the device. *)
Definition in_range (c : config) (w : Z) (r : Range) : Prop :=
  ∃ x, val c w = x * den c ∧ 0 ≤ range_min r ≤ x ∧ x ≤ range_max r ≤ UINT32_MAX.

(** The device can be operated with the configuration. *)
Record supported (limits : DeviceLimits) (c : config) : Prop := {
  s_channels : in_range c SNDRV_PCM_HW_PARAM_CHANNELS (channels limits);
  s_periods : in_range c SNDRV_PCM_HW_PARAM_PERIODS (periodCount limits);
  s_rate : ∃ r, val c SNDRV_PCM_HW_PARAM_RATE = r * den c ∧ r ∈ sampleRates limits ∧
    Forall (λ r, 0 ≤ r ≤ UINT32_MAX) (sampleRates limits);
  s_period_bytes : in_range c SNDRV_PCM_HW_PARAM_PERIOD_BYTES (periodSize limits);
  s_align : 0 < periodSizeAlign limits ≤ UINT32_MAX ∧
    (val c SNDRV_PCM_HW_PARAM_PERIOD_BYTES / den c) mod periodSizeAlign limits = 0;
  s_pow2 : forcePow2PeriodSizes limits = true → ∃ k, 0 ≤ k ≤ 31 ∧
    val c SNDRV_PCM_HW_PARAM_PERIOD_BYTES = 2 ^ k * den c;
}.

(** Formats and their sample sizes. *)
Definition format_bits : list (Z * Z) :=
  [(SNDRV_PCM_FORMAT_S8, 8); (SNDRV_PCM_FORMAT_S16_LE, 16); (SNDRV_PCM_FORMAT_S20_LE, 20);
   (SNDRV_PCM_FORMAT_S24_LE, 24); (SNDRV_PCM_FORMAT_S32_LE, 32)].

(** The sample size is the one of a format that is still possible. *)
Definition format_ok (c : config) (p : Params) : Prop :=
  ∃ f, f ∈ format_bits ∧ has_format p f.1 = true ∧
    val c SNDRV_PCM_HW_PARAM_SAMPLE_BITS = f.2 * den c.

(** The configuration lies in every interval of the parameters. *)
Record offers (c : config) (p : Params) : Prop := {
  o_length : length (p_intervals p) = 12%nat;
  o_bounds w : w ∈ interval_params → bounds_ok (interval p w);
  o_member w : w ∈ interval_params → member (den c) (val c w) (interval p w);
}.

Definition total (p : Params) : Z :=
  foldr (λ w s, slack (interval p w) + s) 0 interval_params.

Lemma params_range w : w ∈ interval_params ↔ 8 ≤ w ≤ 18.
Proof.
  unfold interval_params. rewrite !elem_of_cons, elem_of_nil. lia.
Qed.

Lemma interval_set p w w' i :
  length (p_intervals p) = 12%nat → w ∈ interval_params → w' ∈ interval_params →
  interval (set_interval p w i) w' = if decide (w = w') then i else interval p w'.
Proof.
  intros Hl Hw%params_range Hw'%params_range.
  unfold interval, set_interval, SNDRV_PCM_HW_PARAM_FIRST_INTERVAL. simpl. case_decide as Hd.
  - subst. rewrite list_lookup_total_insert_eq; [done|lia].
  - rewrite list_lookup_total_insert_ne; [done|lia].
Qed.

(** A pointwise smaller sum. *)
Lemma sum_le_mono (f g : Z → Z) (l : list Z) :
  (∀ w, w ∈ l → f w ≤ g w) →
  foldr (λ w s, f w + s) 0 l ≤ foldr (λ w s, g w + s) 0 l ∧
  ((∃ w, w ∈ l ∧ f w < g w) → foldr (λ w s, f w + s) 0 l < foldr (λ w s, g w + s) 0 l).
Proof.
  induction l as [|x l IH]; intros H; simpl.
  { split; [done|]. intros (w & Hw & _). by apply elem_of_nil in Hw. }
  destruct IH as [IH1 IH2]; [intros; apply H; by right|].
  pose proof (H x ltac:(by left)). split; [lia|].
  intros (w & [->|Hw]%elem_of_cons & Hlt); [lia|].
  assert (∃ w, w ∈ l ∧ f w < g w) as Hex by eauto. specialize (IH2 Hex). lia.
Qed.

(** ** Rules keep every configuration *)
Ltac in_params := apply (bool_decide_unpack _); vm_compute; exact I.

Section rules.
Context (limits : DeviceLimits) (c : config) (HC : consistent c) (HS : supported limits c).
Local Abbreviation D := (den c).

Definition good (p : Params) : Prop := offers c p ∧ format_ok c p.

(** What a rule may do to the parameters. *)
Record step_ok (p p' : Params) : Prop := {
  step_good : good p';
  step_masks : p_masks p' = p_masks p;
  step_rmask : p_rmask p' = p_rmask p;
  step_total : total p' ≤ total p;
  step_cmask : p_cmask p' = p_cmask p ∨ total p' < total p;
}.

Lemma step_refl p : good p → step_ok p p.
Proof. intros. split; try done. by left. Qed.

Lemma step_trans p p' p'' : step_ok p p' → step_ok p' p'' → step_ok p p''.
Proof.
  intros [_ Hm1 Hr1 Ht1 Hc1] [G Hm2 Hr2 Ht2 Hc2]. split; try done; try congruence; [lia|].
  destruct Hc1 as [Hc1|?], Hc2 as [Hc2|?]; [left; congruence|right; lia..].
Qed.

(** Intersecting with a constraint that allows the configuration. *)
Lemma intersect_step p w o :
  good p → w ∈ interval_params → allows D (val c w) o →
  step_ok p (intersect_interval p w o).
Proof.
  intros (Hoff & Hf) Hw (Bo & La & Ua & Ia). pose proof Hoff as [Hl Hb Hm].
  unfold intersect_interval. destruct (intersect (interval p w) o) as [range changed] eqn:E.
  apply (intersect_keeps D (c_den _ HC) (val c w)) in E
    as (Hmem & Hbd & Hmin & Hmax & Hs & Hch); [|by auto..].
  set (q := set_interval p w range).
  assert (∀ w', w' ∈ interval_params →
    interval q w' = if decide (w = w') then range else interval p w') as Hq.
  { intros. by apply interval_set. }
  assert (offers c q) as Hoff'.
  { split; [by simpl; rewrite length_insert|..].
    all: intros w' Hw'; rewrite Hq by done; case_decide; subst; auto. }
  assert (total q ≤ total p ∧ (changed = true → total q < total p)) as [Ht1 Ht2].
  { destruct (sum_le_mono (λ w, slack (interval q w)) (λ w, slack (interval p w)) interval_params)
      as [H1 H2].
    { intros w' Hw'. simpl. rewrite Hq by done. case_decide; subst; [done|lia]. }
    split; [exact H1|]. intros Hc. apply H2. exists w. split; [done|]. simpl.
    rewrite Hq, decide_True by done. auto. }
  destruct changed.
  - split; [split; [by destruct Hoff'; split|done]|done|done|exact Ht1|].
    right. by apply Ht2.
  - split; try done. by left.
Qed.

(** A rule of the negotiation keeps the configuration. *)
Definition rule_ok (r : Rule) : Prop :=
  r_what r ∈ interval_params ∧ ∀ p, good p → wraps p = false → step_ok p (r_func r p).

(** Runs of rules end without an empty interval. *)
Lemma run_rules_ok rules m : ∀ p,
  Forall rule_ok rules → good p → exact (rules_trace rules m p) →
  ∃ p', run_rules rules m p = (p', false) ∧ step_ok p p'.
Proof.
  induction rules as [|r rules IH]; intros p Hr Hp He; cbn [run_rules rules_trace] in *.
  { exists p. split; [done|by apply step_refl]. }
  apply Forall_cons_1 in Hr as [[Hw Hr] Hrs].
  case_Z; [by apply IH|]. apply Forall_cons_1 in He as [He0 He].
  pose proof (Hr p Hp He0) as Hst. pose proof (step_good _ _ Hst) as G.
  destruct (o_member _ _ (proj1 G) _ Hw) as [Em _]. rewrite Em, andb_false_r in He |- *.
  destruct (IH (r_func r p) Hrs G He) as (p' & Hrun & Hst'). exists p'.
  split; [done|by eapply step_trans].
Qed.

Lemma good_total p : good p → 0 ≤ total p.
Proof.
  intros ([_ Hb Hm] & _). unfold total.
  assert (∀ l, (∀ w, w ∈ l → w ∈ interval_params) →
    0 ≤ foldr (λ w s, slack (interval p w) + s) 0 l) as H.
  { induction l as [|w l IH]; intros Hin; simpl; [lia|].
    pose proof (member_slack D (c_den _ HC) (val c w) (interval p w)
      (Hb w (Hin w ltac:(by left))) (Hm w (Hin w ltac:(by left)))).
    pose proof (IH ltac:(intros; apply Hin; by right)). lia. }
  apply H. done.
Qed.

Lemma good_cmask p m : good p → good (set_cmask p m).
Proof.
  intros ([] & Hf). split; [by split|exact Hf].
Qed.

(** *** The rules one by one *)
Lemma widen_spec l : ∀ a b, Forall (λ r, 0 ≤ r ≤ UINT32_MAX) l →
  0 ≤ a ≤ UINT32_MAX → 0 ≤ b ≤ UINT32_MAX →
  let '(mn, mx) := fold_left widen l (a, b) in
  0 ≤ mn ≤ a ∧ b ≤ mx ≤ UINT32_MAX ∧ ∀ r, r ∈ l → mn ≤ r ≤ mx.
Proof.
  induction l as [|r l IH]; intros a b Hl Ha Hb; cbn [fold_left].
  { split_and!; [lia..|]. intros r Hr. by apply elem_of_nil in Hr. }
  apply Forall_cons_1 in Hl as [Hr Hl]. unfold widen at 2. simpl fst. simpl snd.
  specialize (IH (Z.min a r) (Z.max b r) Hl ltac:(lia) ltac:(lia)).
  destruct (fold_left _ _ _) as [mn mx]. destruct IH as (? & ? & H).
  split_and!; [lia..|]. intros r' [->|Hin]%elem_of_cons; [lia|by apply H].
Qed.

Lemma fixed_allows X x mn mx :
  X = x * D → 0 ≤ mn ≤ x → x ≤ mx ≤ UINT32_MAX →
  allows D X (MkInterval mn mx false false true false).
Proof.
  intros -> ? ?. pose proof (c_den _ HC). unfold UINT32_MAX in *.
  iv_split; [unfold UINT32_MAX; lia|simpl; nia|simpl; nia|]. intros _. by apply Z.mod_mul; lia.
Qed.

Lemma range_step p w r :
  good p → w ∈ interval_params → in_range c w r →
  step_ok p (intersect_interval p w (fixed_range r)).
Proof.
  intros G Hw (x & Hx & ? & ?). apply intersect_step; [done..|]. by apply (fixed_allows _ x).
Qed.

Lemma sampleBits_ok : rule_ok sampleBitsRule.
Proof.
  split; [in_params|]. intros p G _. pose proof G as (_ & f & Hf & Hhas & Hbits). simpl.
  destruct (sampleBits_constraint p) as [mn mx] eqn:E.
  assert (0 ≤ mn ≤ f.2 ∧ f.2 ≤ mx ≤ 32) as [Hmn Hmx].
  { unfold sampleBits_constraint, widen in E. unfold format_bits in Hf.
    rewrite !elem_of_cons, elem_of_nil in Hf.
    destruct Hf as [->|[->|[->|[->|[->|[]]]]]]; simpl in *; rewrite Hhas in E;
      repeat match type of E with context [if ?b then _ else _] => destruct b end;
      vm_compute in E; simplify_eq; lia. }
  rewrite (proj2 (Z.eqb_neq _ _)) by (unfold UINT32_MAX; lia).
  apply intersect_step; [done|in_params|]. apply (fixed_allows _ (f.2)); [done|lia|].
  unfold UINT32_MAX. lia.
Qed.

Lemma existsb_elem {A} (f : A → bool) l x : existsb f l = false → x ∈ l → f x = false.
Proof.
  intros H Hx. destruct (f x) eqn:E; [|done]. rewrite <-H. symmetry. apply existsb_exists.
  exists x. split; [by apply list_elem_of_In|done].
Qed.

Lemma div_step p w a b :
  good p → w ∈ interval_params → a ∈ interval_params → b ∈ interval_params →
  val c w * val c b = val c a * D →
  step_ok p (intersect_interval p w (intervalDiv (interval p a) (interval p b))).
Proof.
  intros G Hw Ha Hb HE. pose proof G as ([_ Hbd Hm] & _). apply intersect_step; [done..|].
  pose proof (c_range _ HC) as HR. destruct (HR a Ha), (HR b Hb).
  apply (intervalDiv_allows D (c_den _ HC) (val c a) (val c b)); auto.
Qed.

Lemma mul_step p w a b :
  good p → w ∈ interval_params → a ∈ interval_params → b ∈ interval_params →
  val c w * D = val c a * val c b →
  step_ok p (intersect_interval p w (intervalMul (interval p a) (interval p b))).
Proof.
  intros G Hw Ha Hb HE. pose proof G as ([_ Hbd Hm] & _). apply intersect_step; [done..|].
  pose proof (c_range _ HC) as HR. destruct (HR a Ha), (HR b Hb), (HR w Hw).
  apply (intervalMul_allows D (c_den _ HC) (val c a) (val c b)); auto with lia.
Qed.

Lemma muldiv_step p w a m b :
  good p → w ∈ interval_params → a ∈ interval_params → b ∈ interval_params →
  0 < m ≤ UINT32_MAX → val c w * val c b = val c a * m * D →
  wraps p = false → (a, m, b) ∈ fixed_multiplier →
  step_ok p (intersect_interval p w (intervalMulDiv (interval p a) m (interval p b))).
Proof.
  intros G Hw Ha Hb Hmm HE Hf Hin. pose proof G as ([_ Hbd Hm] & _). apply intersect_step; [done..|].
  pose proof (c_range _ HC) as HR. destruct (HR a Ha), (HR b Hb).
  apply (intervalMulDiv_allows D (c_den _ HC) (val c a) (val c b)); auto.
  intros Hb0. apply orb_false_iff in Hf as [_ Hf]. apply (existsb_elem _ _ _ Hf) in Hin.
  cbn in Hin. by rewrite (proj2 (Z.ltb_lt _ _) Hb0) in Hin.
Qed.

Lemma muldivBy_step p w a b d :
  good p → w ∈ interval_params → a ∈ interval_params → b ∈ interval_params →
  0 < d ≤ UINT32_MAX → val c w * d * D = val c a * val c b →
  wraps p = false → (a, b, d) ∈ fixed_divisor →
  step_ok p (intersect_interval p w (intervalMulDivBy (interval p a) (interval p b) d)).
Proof.
  intros G Hw Ha Hb Hd HE Hf Hin. pose proof G as ([_ Hbd Hm] & _). apply intersect_step; [done..|].
  pose proof (c_range _ HC) as HR. destruct (HR a Ha), (HR b Hb).
  apply (intervalMulDivBy_allows D (c_den _ HC) (val c a) (val c b)); auto.
  apply orb_false_iff in Hf as [Hf _]. by apply (existsb_elem _ _ _ Hf) in Hin.
Qed.

(** A rule that is one of the four steps above. *)
Ltac rule_solve :=
  split; [in_params|];
  cbv delta [sampleBitsFromFrameBitsRule frameBitsRule frameBitsFromPeriodBytesRule
    frameBitsFromBufferBytesRule channelsRule rateRule rateFromBufferSizeRule periodsRule
    periodSizeRule periodSizeFromPeriodBytesRule periodSizeFromPeriodTimeRule bufferSizeRule
    bufferSizeFromBufferBytesRule bufferSizeFromBufferTimeRule periodBytesRule bufferBytesRule
    periodTimeRule bufferTimeRule];
  let p := fresh "p" in let G := fresh "G" in
  let Hwr := fresh "Hwr" in
  intros p G Hwr; pose proof HC as [];
  cbn [r_func];
  lazymatch goal with
  | |- context [intervalDiv _ _] => apply div_step; [done|in_params..|lia]
  | |- context [intervalMul _ _] => apply mul_step; [done|in_params..|lia]
  | |- context [intervalMulDiv _ _ _] =>
      apply muldiv_step; [done|in_params..|unfold usInSecond, UINT32_MAX; lia|lia|done|in_params]
  | |- context [intervalMulDivBy _ _ _] =>
      apply muldivBy_step; [done|in_params..|unfold usInSecond, UINT32_MAX; lia|lia|done|in_params]
  end.

Lemma commonRules_ok : Forall rule_ok commonRules.
Proof.
  unfold commonRules. constructor; [apply sampleBits_ok|].
  repeat (apply List.Forall_cons; [rule_solve|]). constructor.
Qed.

Lemma dynamicRules_ok : Forall rule_ok (dynamicRules limits).
Proof.
  pose proof HS as [Hch Hpe (rt & Hrt & Hin & Hall) Hpb [Hal Hmod] Hpow].
  assert (rule_ok (hwPeriodBytesAlignRule limits)) as Halign.
  { split; [in_params|]. intros p G _. pose proof G as ([_ Hbd Hm] & _). simpl.
    apply intersect_step; [done|in_params|]. destruct Hpb as (x & Hx & ? & ?).
    rewrite Hx in Hmod. rewrite Z.div_mul in Hmod by (pose proof (c_den _ HC); lia).
    assert (SNDRV_PCM_HW_PARAM_PERIOD_BYTES ∈ interval_params) as Hw by in_params.
    pose proof (Hm _ Hw) as Hmem. rewrite Hx in Hmem |- *.
    apply (intervalStep_allows D (c_den _ HC)); auto. lia. }
  unfold dynamicRules. rewrite !Forall_app. split_and!.
  - assert (rule_ok (hwRateRule limits)) as Hrate.
    { split; [in_params|]. intros p G _. cbn [r_func hwRateRule].
      pose proof (widen_spec (sampleRates limits) UINT32_MAX 0 Hall
        ltac:(unfold UINT32_MAX; lia) ltac:(unfold UINT32_MAX; lia)) as Hwd.
      destruct (fold_left _ _ _) as [mn mx]. destruct Hwd as (? & ? & Hr).
      apply intersect_step; [done|in_params|]. destruct (Hr rt Hin).
      apply (fixed_allows _ rt); [done|lia..]. }
    assert (∀ w r, w ∈ interval_params → in_range c w r → rule_ok
      (MkRule w (dependencies [w]) (λ p, intersect_interval p w (fixed_range r)))) as Hfix.
    { intros w r Hw Hr. split; [done|]. intros p G _. by apply range_step. }
    constructor; [apply Hfix; [in_params|done]|]. constructor; [done|].
    constructor; [apply Hfix; [in_params|done]|]. constructor; [apply Hfix; [in_params|done]|done].
  - destruct (forcePow2PeriodSizes limits); [|done]. constructor; [|done].
    destruct (Hpow eq_refl) as (k & Hk & Hx). split; [in_params|]. intros p G _.
    pose proof G as ([_ Hbd Hm] & _). simpl. apply intersect_step; [done|in_params|].
    assert (SNDRV_PCM_HW_PARAM_PERIOD_BYTES ∈ interval_params) as Hw by in_params.
    pose proof (Hm _ Hw) as Hmem. rewrite Hx in Hmem |- *.
    apply (intervalPow2_allows D (c_den _ HC)); auto.
  - by constructor.
Qed.

(** The loop of [applyRules] ends after at most [total] rounds. *)
Lemma applyRules_run fuel : ∀ p rmask cmask,
  good p → total p < Z.of_nat fuel → exact (applyRules_trace fuel limits p rmask) →
  ∃ p' cmask', applyRules fuel limits p rmask cmask = Ret (p', (cmask', false)) ∧
    good p' ∧ p_masks p' = p_masks p ∧ p_rmask p' = p_rmask p ∧ total p' ≤ total p.
Proof.
  induction fuel as [|fuel IH]; intros p rmask cmask G Hf He.
  { pose proof (good_total p G). lia. }
  cbn [applyRules applyRules_trace] in *. cbv zeta in He. apply Forall_app in He as [He1 He].
  destruct (run_rules_ok commonRules rmask (set_cmask p 0)) as (p1 & E1 & S1);
    [apply commonRules_ok|by apply good_cmask|done|].
  rewrite E1 in He |- *. apply Forall_app in He as [He2 He].
  destruct (run_rules_ok (dynamicRules limits) rmask p1) as (p2 & E2 & S2);
    [apply dynamicRules_ok|apply S1|done|].
  rewrite E2 in He |- *.
  pose proof (step_trans _ _ _ S1 S2) as [G2 Hm Hr Ht Hc].
  change (total (set_cmask p 0)) with (total p) in *.
  case_Z; [by exists p2, cmask|].
  destruct (IH p2 (p_cmask p2) (Z.lor cmask (p_cmask p2)) G2) as (p' & cm & -> & G' & Hm' & Hr' & Ht').
  { destruct Hc as [Hc|?]; [simpl in Hc; lia|lia]. }
  { done. }
  clear He He1 He2 E1 E2. exists p', cm. split_and!; try done; simpl in *; congruence || lia.
Qed.

(** *** The masks *)

(** [applyRules] resets [cmask] before it looks at it. *)
Lemma trace_cmask fuel p m rmask :
  applyRules_trace fuel limits (set_cmask p m) rmask = applyRules_trace fuel limits p rmask.
Proof. destruct fuel; reflexivity. Qed.

Lemma has_bit x f : 0 ≤ f < 32 →
  negb (Z.land x (u32 (Z.shiftl 1 f)) =? 0) = Z.testbit x f.
Proof.
  intros Hf. rewrite shiftl_pow2, Z.mul_1_l by lia.
  rewrite u32_small by (pose proof (pow2_pos f); split; [lia|apply Z.pow_lt_mono_r; lia]).
  assert (∀ i, Z.testbit (Z.land x (2 ^ f)) i = Z.testbit x f && bool_decide (i = f)) as Ht.
  { intros i. rewrite Z.land_spec. destruct (Z.lt_ge_cases i 0).
    - rewrite !(Z.testbit_neg_r _ i) by lia. rewrite bool_decide_false by lia. by rewrite !andb_false_r.
    - rewrite Z.pow2_bits_eqb by lia. destruct (Z.eqb_spec f i) as [->|].
      + by rewrite bool_decide_true.
      + rewrite bool_decide_false by lia. by rewrite !andb_false_r. }
  destruct (Z.testbit x f) eqn:E; destruct (Z.eqb_spec (Z.land x (2 ^ f)) 0) as [H0|H0]; try done.
  - specialize (Ht f). rewrite H0, Z.testbit_0_l, bool_decide_true in Ht by done. done.
  - exfalso. apply H0, Z.bits_inj'. intros i _. rewrite Ht, Z.testbit_0_l. done.
Qed.

Lemma alsa_formats_spec l : ∀ m fm, fm ∈ l ∨ Z.testbit m (alsa_format fm) = true →
  Z.testbit (fold_left (λ m f, Z.lor m (u32 (Z.shiftl 1 (alsa_format f)))) l m)
    (alsa_format fm) = true.
Proof.
  induction l as [|f l IH]; intros m fm H; simpl.
  { destruct H as [H|H]; [by apply elem_of_nil in H|done]. }
  apply IH. rewrite Z.lor_spec. destruct H as [[->|H]%elem_of_cons| ->]; [right|by left|by right].
  apply orb_true_intro. right. by destruct f.
Qed.

Lemma set_mask_good p what m :
  good p → format_ok c (set_mask p what m) → good (set_mask p what m).
Proof. intros ([] & _) Hf. split; [by split|done]. Qed.

Lemma format_ok_other p what m :
  0 ≤ what → what ≠ SNDRV_PCM_HW_PARAM_FORMAT → format_ok c p → format_ok c (set_mask p what m).
Proof.
  intros H0 Hw (f & Hf & Hhas & Hb). exists f. split_and!; [done| |done].
  rewrite <-Hhas. unfold has_format, mask, set_mask. simpl.
  rewrite list_lookup_total_insert_ne; [done|].
  unfold SNDRV_PCM_HW_PARAM_FORMAT, SNDRV_PCM_HW_PARAM_FIRST_MASK in *. lia.
Qed.

(** A format of the device that the client asks for survives. *)
Definition device_format (p : Params) : Prop :=
  ∃ fm f, fm ∈ formats limits ∧ f ∈ format_bits ∧ alsa_format fm = f.1 ∧
    has_format p f.1 = true ∧ val c SNDRV_PCM_HW_PARAM_SAMPLE_BITS = f.2 * D.

Lemma device_format_ok p : device_format p → format_ok c p.
Proof. intros (fm & f & _ & ? & _ & ? & ?). by exists f. Qed.

Lemma device_format_masks p p' :
  p_masks p' = p_masks p → device_format p → device_format p'.
Proof.
  intros Hm (fm & f & ? & ? & ? & Hhas & ?). exists fm, f. split_and!; try done.
  rewrite <-Hhas. unfold has_format, mask. by rewrite Hm.
Qed.

(** The masks after [applyHwMaskConstraint]. *)
Definition masked (p : Params) (what supp : Z) : Params :=
  set_mask p what (Z.land (mask p what !!! 0%nat) supp
                     :: replicate (length (tail (mask p what))) 0).

Lemma device_format_masked p what supp :
  length (p_masks p) = 3%nat → 0 ≤ what ≤ 2 →
  (what = SNDRV_PCM_HW_PARAM_FORMAT → supp = soundFormatsToAlsa limits) →
  device_format p → device_format (masked p what supp).
Proof.
  intros Hl Hw Hsupp (fm & f & Hfm & Hf & Hal & Hhas & Hb). exists fm, f. split_and!; try done.
  destruct (Z.eq_dec what SNDRV_PCM_HW_PARAM_FORMAT) as [->|Hne].
  - unfold has_format, masked, mask, set_mask in *. simpl p_masks.
    rewrite list_lookup_total_insert_eq by (rewrite Hl; vm_compute; lia). simpl.
    assert (0 ≤ f.1 < 32) by (rewrite <-Hal; destruct fm; by vm_compute).
    rewrite has_bit in Hhas |- * by done. rewrite Z.land_spec, Hhas, Hsupp by done.
    rewrite <-Hal. apply alsa_formats_spec. by left.
  - rewrite <-Hhas. unfold has_format, masked, mask, set_mask. simpl p_masks.
    rewrite list_lookup_total_insert_ne; [done|].
    unfold SNDRV_PCM_HW_PARAM_FORMAT, SNDRV_PCM_HW_PARAM_FIRST_MASK in *. lia.
Qed.

(** What the steps of the handler keep. *)
Record refining (fuel : nat) (p : Params) : Prop := {
  rf_good : good p;
  rf_device : device_format p;
  rf_masks : length (p_masks p) = 3%nat;
  rf_fuel : total p < Z.of_nat fuel;
}.

Lemma applyRules_refining fuel p rmask cmask :
  refining fuel p → exact (applyRules_trace fuel limits p rmask) →
  ∃ p' cmask', applyRules fuel limits p rmask cmask = Ret (p', (cmask', false)) ∧
    refining fuel p'.
Proof.
  intros [G Df Hl Hf] He. destruct (applyRules_run fuel p rmask cmask G Hf He) as
    (p' & cm & Hrun & G' & Hm & _ & Ht). exists p', cm. split; [done|].
  split; [done|by eapply device_format_masks|by rewrite Hm|lia].
Qed.

Lemma constrain_mask_ok fuel condition what supp p cmask :
  0 ≤ what ≤ 2 → (what = SNDRV_PCM_HW_PARAM_FORMAT → supp = soundFormatsToAlsa limits) →
  refining fuel p → exact (constrain_trace fuel limits condition what supp (p, cmask, false)) →
  ∃ p' cmask', constrain_mask fuel limits condition what supp (p, cmask, false)
    = Ret (p', cmask', false) ∧ refining fuel p'.
Proof.
  intros Hw Hsupp HR0 He. destruct condition; [|by eexists _, _]. destruct HR0 as [G Df Hl Hf].
  assert (refining fuel (masked p what supp)) as HR.
  { assert (device_format (masked p what supp)) as Df' by (by apply device_format_masked).
    split; [|done|by simpl; rewrite length_insert|exact Hf].
    apply set_mask_good; [done|by apply device_format_ok]. }
  unfold constrain_mask, applyHwMaskConstraint. unfold constrain_trace in He. cbn [andb] in He.
  fold (masked p what supp) in He |- *. destruct (negb _ || existsb _ _); [|by eexists _, _].
  destruct (applyRules_refining fuel (set_cmask (masked p what supp)
    (Z.lor (p_cmask (masked p what supp)) (u32 (Z.shiftl 1 what)))) what 0) as (p' & cm & -> & HR').
  { destruct HR as [? ? ? ?]. split; [by apply good_cmask|done|done|done]. }
  { by rewrite trace_cmask. }
  by eexists _, _.
Qed.
End rules.

(** [intersect_interval] computes the intersection: as long as the adjusted
    bounds of integer intervals do not wrap around, a value lies in the new
    range exactly if it lies in the old range and in the other interval. *)
Theorem intersect_exact (D X : Z) (range other range' : snd_interval) (changed : bool) :
  0 < D → bounds_ok range → bounds_ok other →
  i_empty range = false → i_empty other = false →
  (i_integer range || i_integer other = true →
     Z.max (i_min range) (i_min other) < UINT32_MAX ∧ 0 < Z.min (i_max range) (i_max other)) →
  intersect range other = (range', changed) →
  member D X range' ↔ member D X range ∧ member D X other.
Proof.
  intros HD Br Bo Er Eo Hw E. split.
  2:{ intros [Mr (_ & La & Ua & Ia)]. by apply (intersect_keeps D HD X) in E as [? _]. }
  unfold intersect in E. destruct Br as [Br1 Br2], Bo as [Bo1 Bo2].
  intros (He & Ha & Hb & Hi).
  destruct (if i_min range <? _ then _ else _) as [[min1 om1] ch1] eqn:E1.
  destruct (if i_max other <? _ then _ else _) as [[max1 oM1] ch2] eqn:E2.
  assert (rel om1 (min1 * D) X → above D X range ∧ above D X other) as Hmin.
  { unfold above, rel. repeat case_Z_in E1; simplify_eq;
      destruct (i_openmin range), (i_openmin other); simpl; nia. }
  assert (rel oM1 X (max1 * D) → below D X range ∧ below D X other) as Hmax.
  { unfold below, rel. repeat case_Z_in E2; simplify_eq;
      destruct (i_openmax range), (i_openmax other); simpl; nia. }
  assert (min1 = Z.max (i_min range) (i_min other)) as Emin by (repeat case_Z_in E1; simplify_eq; lia).
  assert (max1 = Z.min (i_max range) (i_max other)) as Emax by (repeat case_Z_in E2; simplify_eq; lia).
  unfold member. rewrite Er, Eo. clear E1 E2. unfold UINT32_MAX in *.
  destruct (i_integer range || i_integer other) eqn:Eint.
  - destruct (Hw eq_refl). injection E as <- _. unfold above, below in Ha, Hb. simpl in *.
    specialize (Hi eq_refl).
    assert (rel om1 (min1 * D) X) as [? ?]%Hmin.
    { destruct om1; simpl; [|done]. rewrite u32_small in Ha by (simpl; lia). lia. }
    assert (rel oM1 X (max1 * D)) as [? ?]%Hmax.
    { destruct oM1; simpl; [|done]. rewrite u32_small in Hb by (simpl; lia). lia. }
    by split_and!.
  - injection E as <- _. apply orb_false_iff in Eint as [-> ->].
    destruct (Hmin Ha), (Hmax Hb). by split_and!.
Qed.

(** C26: the loop of [applyRules] terminates and loses no configuration.  Take a
    request with 32-bit bounds, up to the full range [0, UINT32_MAX], that offers a
    configuration: values below [UINT32_MAX] that satisfy the equations between
    the parameters, that the device supports and whose sample size belongs to a
    format of the request.  Unless a rule of the run rounds a quotient of
    [UINT32_MAX] up, which wraps around to 0, [applyRules] returns after finitely
    many rounds, does not report an empty interval, and its result still offers
    the configuration. *)
Theorem applyRules_complete (limits : DeviceLimits) (c : config) (p : Params) (rmask : Z) :
  consistent c → supported limits c → offers c p → format_ok c p →
  (∀ fuel, exact (applyRules_trace fuel limits p rmask)) →
  ∃ n, ∀ fuel, (n ≤ fuel)%nat →
    ∃ p' cmask, applyRules fuel limits p rmask 0 = Ret (p', (cmask, false)) ∧ offers c p'.
Proof.
  intros HC HS Ho Hf He. exists (S (Z.to_nat (total p))). intros fuel Hfuel.
  assert (good c p) as G by done. pose proof (good_total c HC p G).
  destruct (applyRules_run limits c HC HS fuel p rmask 0 G ltac:(lia) (He fuel))
    as (p' & cm & Hrun & [? _] & _).
  by exists p', cm.
Qed.

(** C25: the handler of [SNDRV_PCM_IOCTL_HW_REFINE] terminates, accepts every
    request that offers a configuration of the device in one of its formats, and
    its answer still offers that configuration and that format.  The request may
    have any 32-bit bounds, up to the full range of every parameter; the values of
    the configuration are below [UINT32_MAX], and no rule of the run rounds a
    quotient of [UINT32_MAX] up, which wraps around to 0. *)
Theorem hw_refine_complete (limits : DeviceLimits) (c : config) (p : Params) :
  consistent c → supported limits c → offers c p →
  device_format limits c p → length (p_masks p) = 3%nat →
  (∀ fuel, exact (hw_refine_trace fuel limits p)) →
  ∃ n, ∀ fuel, (n ≤ fuel)%nat →
    ∃ p', hw_refine fuel limits p = Ret (p', false) ∧ offers c p' ∧ device_format limits c p'.
Proof.
  intros HC HS Ho Hd Hl He. exists (S (Z.to_nat (total p))). intros fuel Hfuel.
  assert (good c p) as G by (split; [done|by eapply device_format_ok]).
  pose proof (good_total c HC p G).
  assert (refining limits c fuel p) as HR by (split; [done..|lia]).
  specialize (He fuel). unfold hw_refine_trace in He. unfold hw_refine. cbv zeta in He |- *.
  pose proof (constrain_mask_ok limits c HC HS fuel) as Hmask.
  apply Forall_app in He as [He1 He].
  edestruct Hmask as (q1 & cm1 & E1 & R1); [| |exact HR|exact He1|rewrite E1 in He |- *]; [done..|].
  cbn [mbind outcome_bind after] in He |- *. apply Forall_app in He as [He2 He].
  edestruct Hmask as (q2 & cm2 & E2 & R2); [| |exact R1|exact He2|rewrite E2 in He |- *]; [done..|].
  cbn [mbind outcome_bind after] in He |- *. apply Forall_app in He as [He3 He].
  edestruct Hmask as (q3 & cm3 & E3 & R3); [| |exact R2|exact He3|rewrite E3 in He |- *]; [done..|].
  cbn [mbind outcome_bind after negb] in He |- *.
  destruct (applyRules_refining limits c HC HS fuel q3 (p_rmask p) 0 R3 He) as (q4 & cm4 & -> & R4).
  cbn. eexists. split; [done|]. destruct R4 as [([] & _) Df _ _]. split; [by split|exact Df].
Qed.

(** *** Checking a run for wrap-around

    Once a run has ended, more fuel does not change it. *)
Lemma applyRules_ended limits n : ∀ fuel p rmask cmask r,
  applyRules n limits p rmask cmask = Ret r →
  (applyRules fuel limits p rmask cmask = Ret r ∨
   applyRules fuel limits p rmask cmask = Stop OutOfFuel) ∧
  (exact (applyRules_trace n limits p rmask) → exact (applyRules_trace fuel limits p rmask)).
Proof.
  induction n as [|n IH]; intros fuel p rmask cmask r E; [done|].
  destruct fuel as [|fuel]; [split; [by right|by constructor]|].
  cbn [applyRules applyRules_trace] in *. cbv zeta. unfold exact. rewrite !Forall_app.
  destruct (run_rules commonRules rmask (set_cmask p 0)) as [p1 []]; [by split; [left|]|].
  rewrite !Forall_app.
  destruct (run_rules (dynamicRules limits) rmask p1) as [p2 []]; [by split; [left|]|].
  case_Z; [by split; [left|]|]. destruct (IH fuel _ _ _ _ E). unfold exact in *. tauto.
Qed.

Lemma constrain_ended limits n fuel condition what supp st st' :
  constrain_mask n limits condition what supp st = Ret st' →
  (constrain_mask fuel limits condition what supp st = Ret st' ∨
   constrain_mask fuel limits condition what supp st = Stop OutOfFuel) ∧
  (exact (constrain_trace n limits condition what supp st) →
   exact (constrain_trace fuel limits condition what supp st)).
Proof.
  destruct st as [[p cm] inv]. unfold constrain_mask, constrain_trace, applyHwMaskConstraint.
  destruct condition; cbn [andb]; [|by intros [= <-]; split; [left|]].
  destruct (negb _ || existsb _ _); [|by intros [= <-]; split; [left|]].
  intros ([q [cm' inv']] & E & E')%bind_Ret. injection E' as <-.
  destruct (applyRules_ended limits n fuel _ _ _ _ E) as [[->| ->] Ht].
  - split; [by left|]. by rewrite !trace_cmask in Ht.
  - split; [by right|]. by rewrite !trace_cmask in Ht.
Qed.

Lemma hw_refine_ended limits n p r :
  hw_refine n limits p = Ret r → exact (hw_refine_trace n limits p) →
  ∀ fuel, exact (hw_refine_trace fuel limits p).
Proof.
  unfold hw_refine, hw_refine_trace. cbv zeta. intros (st1 & E1 & E)%bind_Ret He fuel.
  apply bind_Ret in E as (st2 & E2 & E). apply bind_Ret in E as ([[q cm] inv] & E3 & E).
  apply bind_Ret in E as ([[q' cm'] inv'] & E4 & _).
  assert (∀ c w u st st' k k', constrain_mask n limits c w u st = Ret st' →
    (exact (k st') → exact (k' st')) →
    exact (constrain_trace n limits c w u st ++ after (constrain_mask n limits c w u st) k) →
    exact (constrain_trace fuel limits c w u st ++ after (constrain_mask fuel limits c w u st) k'))
    as Hstage.
  { intros c w u st st' k k' H Hk. destruct (constrain_ended limits n fuel _ _ _ _ _ H) as [Hf Ht].
    rewrite H. unfold exact in *. rewrite !Forall_app. cbn [after]. intros [? ?].
    split; [by apply Ht|]. destruct Hf as [->| ->]; [by apply Hk|by constructor]. }
  revert He. apply (Hstage _ _ _ _ _ _ _ E1), (Hstage _ _ _ _ _ _ _ E2), (Hstage _ _ _ _ _ _ _ E3).
  destruct inv; cbn [negb] in *; [done|]. apply bind_Ret in E4 as (r4 & E4 & _).
  by apply (applyRules_ended _ _ fuel _ _ _ _ E4).
Qed.

(** ** The reported changes *)

(** The bits of the masks [ACCESS], [FORMAT] and [SUBFORMAT]. *)
Definition mask_bits (m : Z) : Z := Z.land m 7.

Definition keeps_mask_bits (r : Rule) : Prop :=
  ∀ p, mask_bits (p_cmask (r_func r p)) = mask_bits (p_cmask p).

Lemma mask_bits_lor m n : mask_bits (Z.lor m n) = Z.lor (mask_bits m) (mask_bits n).
Proof. apply Z.land_lor_distr_l. Qed.

Lemma intersect_mask_bits p w o : w ∈ interval_params →
  mask_bits (p_cmask (intersect_interval p w o)) = mask_bits (p_cmask p).
Proof.
  intros Hw. unfold intersect_interval. destruct (intersect _ _) as [i []]; [|done].
  simpl. rewrite mask_bits_lor.
  assert (mask_bits (u32 (Z.shiftl 1 w)) = 0) as ->; [|by rewrite Z.lor_0_r].
  unfold interval_params in Hw. rewrite !elem_of_cons, elem_of_nil in Hw.
  repeat destruct Hw as [->|Hw]; done.
Qed.

Lemma rules_mask_bits limits :
  Forall keeps_mask_bits commonRules ∧ Forall keeps_mask_bits (dynamicRules limits).
Proof.
  assert (∀ w d f, w ∈ interval_params →
    keeps_mask_bits (MkRule w d (λ p, intersect_interval p w (f p)))) as H.
  { intros w d f Hw p. by apply intersect_mask_bits. }
  split.
  - unfold commonRules. constructor.
    { intros p. simpl. destruct (sampleBits_constraint p) as [mn mx]. case_Z; [done|].
      apply intersect_mask_bits. in_params. }
    repeat (constructor; [apply H; in_params|]). constructor.
  - unfold dynamicRules. rewrite !Forall_app. split_and!.
    + constructor; [apply H; in_params|]. constructor.
      { intros p. simpl. destruct (fold_left _ _ _) as [mn mx]. apply intersect_mask_bits. in_params. }
      repeat (constructor; [apply H; in_params|]). constructor.
    + destruct (forcePow2PeriodSizes limits); [|done]. constructor; [apply H; in_params|done].
    + constructor; [apply H; in_params|done].
Qed.

Lemma run_rules_mask_bits rules m : ∀ p, Forall keeps_mask_bits rules →
  mask_bits (p_cmask (run_rules rules m p).1) = mask_bits (p_cmask p).
Proof.
  induction rules as [|r rules IH]; intros p Hr; [done|]. cbn [run_rules].
  apply Forall_cons_1 in Hr as [Hr Hrs]. case_Z; [by apply IH|].
  destruct (_ && _); [apply Hr|]. by rewrite IH, Hr.
Qed.

Lemma applyRules_mask_bits limits fuel : ∀ p rmask cmask p' cmask' inv,
  applyRules fuel limits p rmask cmask = Ret (p', (cmask', inv)) →
  mask_bits cmask' = mask_bits cmask.
Proof.
  destruct (rules_mask_bits limits) as [H1 H2].
  induction fuel as [|fuel IH]; intros p rmask cmask p' cmask' inv E; cbn [applyRules] in E; [done|].
  pose proof (run_rules_mask_bits commonRules rmask (set_cmask p 0) H1) as B1.
  destruct (run_rules commonRules rmask (set_cmask p 0)) as [p1 i1].
  pose proof (run_rules_mask_bits (dynamicRules limits) rmask p1 H2) as B2.
  destruct (run_rules (dynamicRules limits) rmask p1) as [p2 i2]. simpl in *.
  assert (mask_bits (p_cmask p1) = 0) as B0 by (by rewrite B1).
  destruct i1; [injection E as <- <- <-; by rewrite mask_bits_lor, B0, Z.lor_0_r|].
  destruct i2; [injection E as <- <- <-; by rewrite mask_bits_lor, B2, B0, Z.lor_0_r|].
  case_Z_in E; [injection E as <- <- <-; done|].
  apply IH in E. by rewrite E, mask_bits_lor, B2, B0, Z.lor_0_r.
Qed.

(** The change mask in the answer of the ioctl never names the parameters
    [ACCESS], [FORMAT] and [SUBFORMAT], whatever the handler did to them: the bit
    that [applyHwMaskConstraint] sets is cleared by [applyRules] right away and
    is not part of its result. *)
Theorem hw_refine_hides_masks (fuel : nat) (limits : DeviceLimits) (p p' : Params) (inv : bool) :
  hw_refine fuel limits p = Ret (p', inv) → mask_bits (p_cmask p') = 0.
Proof.
  assert (∀ b what supp (st st' : refine_state), mask_bits (st.1.2) = 0 →
    constrain_mask fuel limits b what supp st = Ret st' → mask_bits (st'.1.2) = 0) as Hmask.
  { intros [] what supp [[q cm] iv] st' Hcm E; cbn in E; [|by injection E as <-].
    destruct (negb _ || existsb _ _); [|by injection E as <-].
    apply bind_Ret in E as ([q' [cm' iv']] & E%applyRules_mask_bits & E'). injection E' as <-.
    simpl in *. by rewrite mask_bits_lor, E, Hcm. }
  unfold hw_refine. cbv zeta. intros H.
  apply bind_Ret in H as (st1 & H1 & H). apply Hmask in H1; [|done].
  apply bind_Ret in H as (st2 & H2 & H). apply Hmask in H2; [|done].
  apply bind_Ret in H as ([[q cm] iv] & H3 & H). apply Hmask in H3; [|done]. simpl in H3.
  apply bind_Ret in H as ([[q' cm'] iv'] & H4 & H). injection H as <- <-. simpl.
  destruct iv; simpl in H4; [by injection H4 as <- <- <-|].
  apply bind_Ret in H4 as ([q2 [cm2 iv2]] & E%applyRules_mask_bits & E'). injection E' as <- <- <-.
  by rewrite mask_bits_lor, E, H3.
Qed.

(** ** An example: 16 bit stereo at 48 kHz

    The period of 1024 frames takes 64000/3 microseconds, so that the
    configuration has the denominator 3.  The request is the one of
    [snd_pcm_hw_params_any]: every mask and every interval is full. *)
Definition example_config : config :=
  MkConfig 3 (λ w, 3 * nth (Z.to_nat (w - 8)) [16; 32; 2; 48000; 0; 1024; 4096; 4; 0; 4096; 16384] 0
                   + (if w =? 12 then 64000 else if w =? 16 then 256000 else 0)).

Definition example_limits : DeviceLimits :=
  MkLimits [44100; 48000] [pcmS16; pcmS32] (MkRange 1 2) (MkRange 2 32) (MkRange 128 65536) 128 true.

Definition example_params : Params :=
  MkParams (replicate 3 [UINT32_MAX; UINT32_MAX])
    (replicate 12 (MkInterval 0 UINT32_MAX false false false false)) 0 UINT32_MAX.

Ltac params_cases Hw :=
  unfold interval_params in Hw; rewrite !elem_of_cons, elem_of_nil in Hw;
  repeat destruct Hw as [->|Hw]; [..|done].

Lemma example_consistent : consistent example_config.
Proof. split; try reflexivity. intros w Hw. params_cases Hw; by vm_compute. Qed.

Lemma example_supported : supported example_limits example_config.
Proof.
  split.
  - exists 2. by vm_compute.
  - exists 4. by vm_compute.
  - exists 48000. split_and!; [done|right; left|]. repeat constructor; by vm_compute.
  - exists 4096. by vm_compute.
  - by vm_compute.
  - exists 12. by vm_compute.
Qed.

Lemma example_offers : offers example_config example_params.
Proof.
  split; [done|..]; intros w Hw; params_cases Hw; by vm_compute.
Qed.

Lemma exact_by (l : list Params) : forallb (λ p, negb (wraps p)) l = true → exact l.
Proof.
  intros H. apply list.Forall_forall. intros p Hp.
  rewrite forallb_forall in H. apply negb_true_iff, H. by apply list_elem_of_In.
Qed.

Lemma example_exact fuel : exact (applyRules_trace fuel example_limits example_params UINT32_MAX).
Proof.
  eapply (applyRules_ended example_limits 20 fuel _ _ 0); [vm_compute; reflexivity|].
  apply exact_by. vm_compute. reflexivity.
Qed.

Lemma example_refine_exact fuel : exact (hw_refine_trace fuel example_limits example_params).
Proof.
  eapply (hw_refine_ended example_limits 20); [vm_compute; reflexivity|].
  apply exact_by. vm_compute. reflexivity.
Qed.

Lemma example_device_format : device_format example_limits example_config example_params.
Proof. exists pcmS16, (2, 16). split_and!; try reflexivity; [left|right; left]. Qed.

(** The wrap-around: [1227133513 * 28 / 8] is [UINT32_MAX] with remainder 4, and the
    upper bound of the quotient becomes 0. *)
Lemma rounding_wraps :
  intervalMulDivBy (MkInterval 1 1227133513 false false true false)
    (MkInterval 8 28 false false true false) 8 = MkInterval 1 0 false true false false.
Proof. reflexivity. Qed.

Lemma intersect_exact_witness :
  member 1 20 (MkInterval 16 24 false false false false) ↔
  member 1 20 (MkInterval 8 24 false false false false) ∧
  member 1 20 (MkInterval 16 32 false false false false).
Proof.
  apply (intersect_exact 1 20 (MkInterval 8 24 false false false false)
    (MkInterval 16 32 false false false false) _ true); try done; by vm_compute.
Defined.

Lemma applyRules_complete_witness :
  ∃ n, ∀ fuel, (n ≤ fuel)%nat → ∃ p' cmask,
    applyRules fuel example_limits example_params UINT32_MAX 0 = Ret (p', (cmask, false)) ∧
    offers example_config p'.
Proof.
  apply (applyRules_complete example_limits example_config example_params UINT32_MAX).
  - apply example_consistent.
  - apply example_supported.
  - apply example_offers.
  - eapply device_format_ok, example_device_format.
  - apply example_exact.
Defined.

Lemma hw_refine_complete_witness :
  ∃ n, ∀ fuel, (n ≤ fuel)%nat → ∃ p', hw_refine fuel example_limits example_params = Ret (p', false) ∧
    offers example_config p' ∧ device_format example_limits example_config p'.
Proof.
  apply (hw_refine_complete example_limits example_config example_params).
  - apply example_consistent.
  - apply example_supported.
  - apply example_offers.
  - apply example_device_format.
  - reflexivity.
  - apply example_refine_exact.
Defined.

(** The client asks for any format; only 16 and 32 bit remain, and the answer does not
    say that the mask of formats changed. *)
Lemma hw_refine_hides_masks_witness :
  ∃ p', hw_refine 20 example_limits (set_mask example_params 1 [UINT32_MAX; 0]) = Ret (p', false) ∧
    mask p' SNDRV_PCM_HW_PARAM_FORMAT ≠ [UINT32_MAX; 0] ∧ mask_bits (p_cmask p') = 0.
Proof.
  eexists. split; [vm_compute; reflexivity|]. split; [by vm_compute|].
  eapply (hw_refine_hides_masks 20 example_limits (set_mask example_params 1 [UINT32_MAX; 0])).
  vm_compute. reflexivity.
Defined.
