(* ===== verification/Extents.v ===== *)
(** * Address ranges in search trees

    The virtual memory manager keeps its holes and its mappings in search trees
    (frg::rbtree, a library outside of the repository).  This file has the theory
    of ordered lists of address ranges and the interface to the tree: the shape
    of a tree is visible to the code that walks it, insertion and removal are
    operations of the library with their documented contract. *)
From S2P Require Import Prelude.

(** ** Ranges *)
Class Extent (A : Type) := {
  ext_lo : A → Z;
  ext_len : A → Z;
}.

Section extents.
Context {A : Type} `{!Extent A}.
Implicit Types (x y : A) (l : list A).

Definition ext_hi (x : A) : Z := ext_lo x + ext_len x.
Definition covers (x : A) (a : Z) : Prop := ext_lo x ≤ a < ext_hi x.
Definition covered (l : list A) (a : Z) : Prop := ∃ x, x ∈ l ∧ covers x a.

(** Non-empty ranges, in ascending order, that do not overlap. *)
Definition ordered (l : list A) : Prop :=
  ForallOrdPairs (λ x y, ext_hi x ≤ ext_lo y) l ∧ Forall (λ x, 0 < ext_len x) l.

Lemma ordered_nil : ordered [].
Proof. split; constructor. Qed.

Lemma ordered_cons x l :
  ordered (x :: l) ↔ 0 < ext_len x ∧ (∀ y, y ∈ l → ext_hi x ≤ ext_lo y) ∧ ordered l.
Proof.
  unfold ordered. rewrite list.Forall_cons. split.
  - intros [HO [Hx Hl]]. inversion_clear HO as [|? ? Hxy HO'].
    split_and!; [done|by apply list.Forall_forall|done..].
  - intros (Hx & Hxy & HO & Hl). split; [|done]. constructor; [by apply list.Forall_forall|done].
Qed.

Lemma ordered_app l1 l2 :
  ordered (l1 ++ l2) ↔
  ordered l1 ∧ ordered l2 ∧ ∀ x y, x ∈ l1 → y ∈ l2 → ext_hi x ≤ ext_lo y.
Proof.
  induction l1 as [|x l1 IH]; simpl.
  { split; [|naive_solver]. intros H. split_and!; [apply ordered_nil|done|].
    intros x y Hx. by apply elem_of_nil in Hx. }
  rewrite !ordered_cons, IH. split.
  - intros (Hx & Hxy & H1 & H2 & H12). split_and!; [done| |done..|].
    + intros y Hy. apply Hxy, elem_of_app. by left.
    + intros x' y [->|Hx']%elem_of_cons Hy; [|by apply H12]. apply Hxy, elem_of_app. by right.
  - intros ((Hx & Hxy & H1) & H2 & H12). split_and!; [done| |done..|].
    + intros y [Hy|Hy]%elem_of_app; [by apply Hxy|]. apply H12; [by left|done].
    + intros x' y Hx' Hy. apply H12; [by right|done].
Qed.

Lemma ordered_len l x : ordered l → x ∈ l → 0 < ext_len x.
Proof. intros [_ H] Hx. by apply (proj1 (list.Forall_forall _ _) H). Qed.

(** Position of an element in an ordered list. *)
Lemma ordered_split l x : ordered l → x ∈ l → ∃ l1 l2, l = l1 ++ x :: l2 ∧
  (∀ y, y ∈ l1 → ext_hi y ≤ ext_lo x) ∧ (∀ y, y ∈ l2 → ext_hi x ≤ ext_lo y).
Proof.
  intros HO Hx. apply list_elem_of_split in Hx as (l1 & l2 & ->). exists l1, l2.
  apply ordered_app in HO as (_ & HO & H12). apply ordered_cons in HO as (_ & H2 & _).
  split_and!; [done|intros y Hy; apply H12; [done|by left]|done].
Qed.

(** At most one range of an ordered list covers an address. *)
Lemma ordered_unique l x y a :
  ordered l → x ∈ l → y ∈ l → covers x a → covers y a → x = y.
Proof.
  intros HO Hx Hy Hcx Hcy. destruct (ordered_split l x HO Hx) as (l1 & l2 & -> & H1 & H2).
  unfold covers in *. apply elem_of_app in Hy as [Hy|[Hy|Hy]%elem_of_cons]; [|done|].
  - specialize (H1 y Hy). lia.
  - specialize (H2 y Hy). lia.
Qed.

Lemma ordered_lo_inj l x y : ordered l → x ∈ l → y ∈ l → ext_lo x = ext_lo y → x = y.
Proof.
  intros HO Hx Hy E. apply (ordered_unique l x y (ext_lo x)); try done.
  all: pose proof (ordered_len l x HO Hx); pose proof (ordered_len l y HO Hy).
  all: unfold covers, ext_hi; lia.
Qed.

Lemma covered_app l1 l2 a : covered (l1 ++ l2) a ↔ covered l1 a ∨ covered l2 a.
Proof. unfold covered. setoid_rewrite elem_of_app. naive_solver. Qed.
Lemma covered_cons x l a : covered (x :: l) a ↔ covers x a ∨ covered l a.
Proof. unfold covered. setoid_rewrite elem_of_cons. naive_solver. Qed.
Lemma covered_nil a : ¬ covered [] a.
Proof. intros (x & Hx & _). by apply elem_of_nil in Hx. Qed.

(** Replacing a range by ranges inside of it. *)
Lemma ordered_replace l1 l2 l x :
  ordered (l1 ++ x :: l2) → ordered l →
  (∀ y, y ∈ l → ext_lo x ≤ ext_lo y ∧ ext_hi y ≤ ext_hi x) → ordered (l1 ++ l ++ l2).
Proof.
  intros (H1 & (Hx & Hx2 & H2)%ordered_cons & H12)%ordered_app Hl Hin.
  apply ordered_app. split_and!; [done| |].
  - apply ordered_app. split_and!; [done..|]. intros y z Hy Hz.
    destruct (Hin y Hy). specialize (Hx2 z Hz). lia.
  - intros y z Hy [Hz|Hz]%elem_of_app.
    + destruct (Hin z Hz). specialize (H12 y x Hy ltac:(by left)). lia.
    + apply H12; [done|by right].
Qed.

(** A range that overlaps with no other has a place in the list. *)
Lemma ordered_place l x :
  ordered l → 0 < ext_len x → (∀ a, covers x a → ¬ covered l a) →
  ∃ l1 l2, l = l1 ++ l2 ∧ ordered (l1 ++ x :: l2).
Proof.
  intros HO Hx. induction l as [|y l IH]; intros Hd.
  { exists [], []. split; [done|]. apply ordered_cons. split_and!; [done| |done].
    intros y Hy. by apply elem_of_nil in Hy. }
  pose proof HO as (Hy & Hyl & HOl)%ordered_cons.
  assert (ext_hi x ≤ ext_lo y ∨ ext_hi y ≤ ext_lo x) as [Hlt|Hge].
  { destruct (Z.le_gt_cases (ext_hi x) (ext_lo y)) as [?|H1]; [by left|right].
    apply Z.nlt_ge. intros H2. unfold ext_hi in *.
    apply (Hd (Z.max (ext_lo x) (ext_lo y))); [unfold covers, ext_hi; lia|].
    exists y. split; [by left|]. unfold covers, ext_hi. lia. }
  - exists [], (y :: l). split; [done|]. apply ordered_cons. split_and!; [done| |done].
    intros z [->|Hz]%elem_of_cons; [done|]. specialize (Hyl z Hz). unfold ext_hi in *. lia.
  - destruct (IH HOl) as (l1 & l2 & -> & HO').
    { intros a Ha (z & Hz & Hc). apply (Hd a Ha). exists z. split; [by right|done]. }
    exists (y :: l1), l2. split; [done|]. simpl. apply ordered_cons. split_and!; [done| |done].
    intros z [Hz|[->|Hz]%elem_of_cons]%elem_of_app; [|done|]; apply Hyl, elem_of_app; auto.
Qed.

(** *** Insertion and removal by start address *)
Fixpoint insert_sorted (x : A) (l : list A) : list A :=
  match l with
  | [] => [x]
  | y :: l' => if ext_lo x <? ext_lo y then x :: l else y :: insert_sorted x l'
  end.
Definition remove_at (a : Z) (l : list A) : list A := filter (λ y, ext_lo y ≠ a) l.

Lemma insert_sorted_split l1 l2 x :
  (∀ y, y ∈ l1 → ext_lo y ≤ ext_lo x) → (∀ y, y ∈ l2 → ext_lo x < ext_lo y) →
  insert_sorted x (l1 ++ l2) = l1 ++ x :: l2.
Proof.
  intros H1 H2. induction l1 as [|y l1 IH]; simpl.
  - destruct l2 as [|y l2]; simpl; [done|].
    by rewrite (proj2 (Z.ltb_lt _ _)) by (apply H2; left).
  - rewrite (proj2 (Z.ltb_ge _ _)) by (apply H1; left).
    rewrite IH; [done|]. intros z Hz. apply H1. by right.
Qed.

Lemma remove_at_split l1 l2 x :
  ordered (l1 ++ x :: l2) → remove_at (ext_lo x) (l1 ++ x :: l2) = l1 ++ l2.
Proof.
  intros HO. pose proof HO as (H1 & Hx & H12)%ordered_app.
  apply ordered_cons in Hx as (Hlen & H2 & HO2). unfold remove_at.
  rewrite list.filter_app, filter_cons. rewrite decide_False by naive_solver.
  assert (∀ l : list A, (∀ y, y ∈ l → ext_lo y ≠ ext_lo x) → filter (λ y, ext_lo y ≠ ext_lo x) l = l) as Hf.
  { induction l as [|y l IH]; intros Hy; [done|]. rewrite filter_cons, decide_True by (apply Hy; left).
    rewrite IH; [done|]. intros z Hz. apply Hy. by right. }
  rewrite !Hf; [done|..]; intros y Hy.
  - specialize (H2 y Hy). unfold ext_hi in H2. lia.
  - specialize (H12 y x Hy ltac:(by left)). pose proof (ordered_len _ _ H1 Hy). unfold ext_hi in H12. lia.
Qed.
End extents.

(** ** Trees *)
Inductive tree (A : Type) : Type :=
| Leaf
| Node (l : tree A) (x : A) (agg : Z) (r : tree A).
Arguments Leaf {A}.
Arguments Node {A} l x agg r.

Fixpoint elements {A} (t : tree A) : list A :=
  match t with
  | Leaf => []
  | Node l x _ r => elements l ++ x :: elements r
  end.

(** The value that the aggregator of the tree stored in the root node. *)
Definition cached {A} (t : tree A) : option Z :=
  match t with Leaf => None | Node _ _ agg _ => Some agg end.

(** The aggregator of a tree computes the value of a node from the node and the
    values of its children. *)
Class Aggregator (A : Type) := aggregate : A → option Z → option Z → Z.

Fixpoint aggregated {A} `{!Aggregator A} (t : tree A) : Prop :=
  match t with
  | Leaf => True
  | Node l x agg r => aggregated l ∧ aggregated r ∧ agg = aggregate x (cached l) (cached r)
  end.

(** frg::rbtree: the elements stay in the order of their start addresses, and the
    aggregator is run on every node whose subtree changed. *)
Class RbTree (A : Type) `{!Extent A, !Aggregator A} := {
  rb_insert : A → tree A → tree A;
  rb_remove : A → tree A → tree A;
  rb_insert_elements t x : ordered (elements t) → (∀ y, y ∈ elements t → ext_lo y ≠ ext_lo x) →
    elements (rb_insert x t) = insert_sorted x (elements t);
  rb_insert_aggregated t x : aggregated t → aggregated (rb_insert x t);
  rb_remove_elements t x : ordered (elements t) → x ∈ elements t →
    elements (rb_remove x t) = remove_at (ext_lo x) (elements t);
  rb_remove_aggregated t x : aggregated t → aggregated (rb_remove x t);
}.

(** [first] and [successor] of the tree: in-order traversal. *)
Definition rb_first {A} (t : tree A) : option A := head (elements t).
Definition rb_successor {A} `{!Extent A} (t : tree A) (x : A) : option A :=
  head (filter (λ y, ext_lo x < ext_lo y) (elements t)).
Definition rb_predecessor {A} `{!Extent A} (t : tree A) (x : A) : option A :=
  list.last (filter (λ y, ext_lo y < ext_lo x) (elements t)).

Section trees.
Context {A : Type} `{!Extent A, !Aggregator A, !RbTree A}.
Implicit Types (t : tree A) (x y : A).

Lemma insert_at l1 l2 t x :
  elements t = l1 ++ l2 → ordered (l1 ++ x :: l2) → elements (rb_insert x t) = l1 ++ x :: l2.
Proof.
  intros E HO. pose proof HO as (H1 & Hx & H12)%ordered_app.
  apply ordered_cons in Hx as (Hlen & H2 & HO2).
  assert (∀ y, y ∈ l1 → ext_lo y < ext_lo x) as Hlt.
  { intros y Hy. specialize (H12 y x Hy ltac:(by left)). pose proof (ordered_len _ _ H1 Hy).
    unfold ext_hi in H12. lia. }
  assert (∀ y, y ∈ l2 → ext_lo x < ext_lo y) as Hgt.
  { intros y Hy. specialize (H2 y Hy). unfold ext_hi in H2. lia. }
  rewrite rb_insert_elements, E.
  - apply insert_sorted_split; [|done]. intros y Hy. specialize (Hlt y Hy). lia.
  - rewrite E. apply ordered_app. split_and!; [done..|]. intros y z Hy Hz. apply H12; [done|by right].
  - rewrite E. intros y [Hy|Hy]%elem_of_app.
    + specialize (Hlt y Hy). lia.
    + specialize (Hgt y Hy). lia.
Qed.

Lemma remove_from l1 l2 t x :
  elements t = l1 ++ x :: l2 → ordered (elements t) → elements (rb_remove x t) = l1 ++ l2.
Proof.
  intros E HO. rewrite rb_remove_elements; [|done|]; rewrite E in *.
  - by apply remove_at_split.
  - apply elem_of_app. right. by left.
Qed.

Lemma successor_split t l1 l2 x :
  elements t = l1 ++ x :: l2 → ordered (elements t) → rb_successor t x = head l2.
Proof.
  intros E HO. unfold rb_successor. rewrite E in *.
  pose proof HO as (H1 & Hx & H12)%ordered_app. apply ordered_cons in Hx as (Hlen & H2 & HO2).
  rewrite list.filter_app, filter_cons, decide_False by lia.
  assert (filter (λ y, ext_lo x < ext_lo y) l1 = []) as ->.
  { destruct (filter _ l1) as [|y l] eqn:F; [done|]. exfalso.
    assert (y ∈ filter (λ y, ext_lo x < ext_lo y) l1) as [Hy Hin]%list_elem_of_filter by (rewrite F; left).
    specialize (H12 y x Hin ltac:(by left)). pose proof (ordered_len _ _ H1 Hin).
    unfold ext_hi in H12. lia. }
  destruct l2 as [|y l2]; simpl; [done|]. rewrite filter_cons, decide_True; [done|].
  specialize (H2 y ltac:(by left)). unfold ext_hi in H2. lia.
Qed.

Lemma predecessor_split t l1 l2 x :
  elements t = l1 ++ x :: l2 → ordered (elements t) → rb_predecessor t x = list.last l1.
Proof.
  intros E HO. unfold rb_predecessor. rewrite E in *.
  pose proof HO as (H1 & Hx & H12)%ordered_app. apply ordered_cons in Hx as (Hlen & H2 & HO2).
  rewrite list.filter_app, filter_cons, decide_False by lia.
  assert (filter (λ y, ext_lo y < ext_lo x) l2 = []) as ->.
  { destruct (filter _ l2) as [|y l] eqn:F; [done|]. exfalso.
    assert (y ∈ filter (λ y, ext_lo y < ext_lo x) l2) as [Hy Hin]%list_elem_of_filter by (rewrite F; left).
    specialize (H2 y Hin). unfold ext_hi in H2. lia. }
  rewrite app_nil_r. f_equal.
  assert (∀ l : list A, (∀ y, y ∈ l → ext_lo y < ext_lo x) → filter (λ y, ext_lo y < ext_lo x) l = l) as Hf.
  { induction l as [|y l IH]; intros Hy; [done|]. rewrite filter_cons, decide_True by (apply Hy; left).
    rewrite IH; [done|]. intros z Hz. apply Hy. by right. }
  apply Hf. intros y Hy. specialize (H12 y x Hy ltac:(by left)). pose proof (ordered_len _ _ H1 Hy).
  unfold ext_hi in H12. lia.
Qed.
End trees.

(** ** A tree that satisfies the contract: a list turned into a right spine *)
Section spine.
Context {A : Type} `{!Extent A, !Aggregator A}.

Fixpoint spine (l : list A) : tree A :=
  match l with
  | [] => Leaf
  | x :: l' => let r := spine l' in Node Leaf x (aggregate x None (cached r)) r
  end.

Lemma spine_elements l : elements (spine l) = l.
Proof. induction l as [|x l IH]; simpl; [done|by rewrite IH]. Qed.
Lemma spine_aggregated l : aggregated (spine l).
Proof. by induction l. Qed.
End spine.

Definition spine_tree {A} `{!Extent A, !Aggregator A} : RbTree A.
Proof.
  refine {| rb_insert x t := spine (insert_sorted x (elements t));
            rb_remove x t := spine (remove_at (ext_lo x) (elements t)) |}.
  - intros. apply spine_elements.
  - intros. apply spine_aggregated.
  - intros. apply spine_elements.
  - intros. apply spine_aggregated.
Defined.
