(* ===== verification/Holes.v ===== *)
(** * Allocation of virtual address ranges

    The hole tree of kernel/thor/generic/address-space.cpp: the aggregator that
    keeps the largest hole of every subtree, [_splitHole], [_allocate] and
    [_allocateAt], and the release of a range in [_unmapMappings]. *)
From S2P Require Import Prelude PageConsts Extents.

(** The errors of kernel/thor/generic that the virtual memory manager returns. *)
Inductive Error :=
| noMemory | illegalArgs | bufferTooSmall | alreadyExists | fault_error
| badPermissions | spuriousOperation.

#[export] Instance Error_eq_dec : EqDecision Error.
Proof. solve_decision. Defined.

(** Flags of [VirtualSpace::map]. *)
Definition kMapFixed : Z := 1.
Definition kMapPreferBottom : Z := 2.
Definition kMapPreferTop : Z := 4.
Definition kMapProtRead : Z := 8.
Definition kMapProtWrite : Z := 16.
Definition kMapProtExecute : Z := 32.
Definition kMapPopulate : Z := 512.
Definition kMapDontRequireBacking : Z := 1024.
Definition kMapFixedNoReplace : Z := 2048.

(** [struct Hole]; [largestHole] is the value that the tree node caches. *)
Record Hole := MkHole { h_address : Z; h_length : Z }.

#[export] Instance Hole_eq_dec : EqDecision Hole.
Proof. solve_decision. Defined.
#[export] Instance Hole_extent : Extent Hole := {| ext_lo := h_address; ext_len := h_length |}.

(** [HoleAggregator::aggregate]: the new [largestHole] and whether it changed. *)
Definition hole_aggregate (hole : Hole) (largestHole : Z) (left right : option Z) : Z * bool :=
  let size := h_length hole in
  let size := match left with Some v => if size <? v then v else size | None => size end in
  let size := match right with Some v => if size <? v then v else size | None => size end in
  if largestHole =? size then (largestHole, false) else (size, true).

#[export] Instance Hole_aggregator : Aggregator Hole := λ hole left right,
  (hole_aggregate hole 0 left right).1.

Definition HoleTree : Type := tree Hole.

(** [HoleAggregator::check_invariant] for the node with children [l] and [r]. *)
Definition check_invariant (t l : HoleTree) (hole : Hole) (largestHole : Z) (r : HoleTree) : bool :=
  let size := h_length hole in
  let size := match cached l with Some v => if size <? v then v else size | None => size end in
  let size := match cached r with Some v => if size <? v then v else size | None => size end in
  if negb (largestHole =? size) then false
  else if match rb_predecessor t hole with
          | Some pred => h_address hole <? u64 (h_address pred + h_length pred)
          | None => false end then false
  else if match rb_successor t hole with
          | Some succ => h_address succ <? u64 (h_address hole + h_length hole)
          | None => false end then false
  else true.

Section operations.
Context `{!RbTree Hole}.

Definition setupInitialHole (holes : HoleTree) (address size : Z) : HoleTree :=
  rb_insert (MkHole address size) holes.

Definition splitHole (holes : HoleTree) (hole : Hole) (offset length : Z) : outcome HoleTree :=
  assert! negb (length =? 0);
  assert! u64 (offset + length) <=? h_length hole;
  let holes := rb_remove hole holes in
  let holes :=
    if negb (offset =? 0) then rb_insert (MkHole (h_address hole) offset) holes else holes in
  let holes :=
    if u64 (offset + length) <? h_length hole then
      rb_insert (MkHole (u64 (h_address hole + offset + length))
                   (u64 (h_length hole - u64 (offset + length)))) holes
    else holes in
  Ret holes.

(** [HoleTree::get_left(current) && get_left(current)->largestHole >= length]. *)
Definition child_fits (child : HoleTree) (length : Z) : bool :=
  match cached child with Some v => length <=? v | None => false end.

(** The loop of [_allocate]: the hole to split and the offset in it. *)
Fixpoint allocate_walk (current : HoleTree) (length flags : Z) : outcome (Hole * Z) :=
  match current with
  | Leaf => Stop NullDereference
  | Node l hole _ r =>
      if flag flags kMapPreferBottom then
        if child_fits l length then allocate_walk l length flags
        else if length <=? h_length hole then Ret (hole, 0)
        else
          assert! match r with Leaf => false | _ => true end;
          assert! child_fits r length;
          allocate_walk r length flags
      else
        assert! flag flags kMapPreferTop;
        if child_fits r length then allocate_walk r length flags
        else if length <=? h_length hole then Ret (hole, h_length hole - length)
        else
          assert! match l with Leaf => false | _ => true end;
          assert! child_fits l length;
          allocate_walk l length flags
  end.

(** The result is an error or an address, with the new tree. *)
Definition allocate (holes : HoleTree) (length flags : Z) : outcome ((Error + Z) * HoleTree) :=
  assert! 0 <? length;
  assert! length mod kPageSize =? 0;
  largestHole ← deref (cached holes);
  if largestHole <? length then Ret (inl noMemory, holes)
  else
    '(hole, offset) ← allocate_walk holes length flags;
    holes ← splitHole holes hole offset length;
    Ret (inr (u64 (h_address hole + offset)), holes).

(** The loop of [_allocateAt]. *)
Fixpoint find_hole (current : HoleTree) (address : Z) : option Hole :=
  match current with
  | Leaf => None
  | Node l hole _ r =>
      if address <? h_address hole then find_hole l address
      else if u64 (h_address hole + h_length hole) <=? address then find_hole r address
      else Some hole
  end.

Definition allocateAt (holes : HoleTree) (address length : Z)
    : outcome ((Error + Z) * HoleTree) :=
  assert! address mod kPageSize =? 0;
  assert! length mod kPageSize =? 0;
  match find_hole holes address with
  | None => Ret (inl noMemory, holes)
  | Some hole =>
      if h_length hole <? u64 (address - h_address hole + length)
      then Ret (inl noMemory, holes)
      else
        holes ← splitHole holes hole (address - h_address hole) length;
        Ret (inr address, holes)
  end.

(** The loop of [_unmapMappings] that finds the holes around an address. *)
Fixpoint find_neighbours (t current : HoleTree) (address : Z) : outcome (option Hole * option Hole) :=
  match current with
  | Leaf => Stop AssertionFailed
  | Node l hole _ r =>
      if address <? h_address hole then
        match l with
        | Leaf => Ret (rb_predecessor t hole, Some hole)
        | _ => find_neighbours t l address
        end
      else
        assert! u64 (h_address hole + h_length hole) <=? address;
        match r with
        | Leaf => Ret (Some hole, rb_successor t hole)
        | _ => find_neighbours t r address
        end
  end.

(** The end of the loop body of [_unmapMappings]: the range of the mapping
    becomes a hole and is merged with the holes next to it. *)
Definition coalesce (holes : HoleTree) (address length : Z) : outcome HoleTree :=
  '(pre, succ) ← find_neighbours holes holes address;
  let touches_pre :=
    match pre with
    | Some p => u64 (h_address p + h_length p) =? address
    | None => false end in
  let touches_succ :=
    match succ with
    | Some s => u64 (address + length) =? h_address s
    | None => false end in
  match pre, succ with
  | Some p, Some s =>
      if touches_pre && touches_succ then
        Ret (rb_insert (MkHole (h_address p) (u64 (h_length p + length + h_length s)))
               (rb_remove s (rb_remove p holes)))
      else if touches_pre then
        Ret (rb_insert (MkHole (h_address p) (u64 (h_length p + length))) (rb_remove p holes))
      else if touches_succ then
        Ret (rb_insert (MkHole address (u64 (length + h_length s))) (rb_remove s holes))
      else Ret (rb_insert (MkHole address length) holes)
  | Some p, None =>
      if touches_pre then
        Ret (rb_insert (MkHole (h_address p) (u64 (h_length p + length))) (rb_remove p holes))
      else Ret (rb_insert (MkHole address length) holes)
  | None, Some s =>
      if touches_succ then
        Ret (rb_insert (MkHole address (u64 (length + h_length s))) (rb_remove s holes))
      else Ret (rb_insert (MkHole address length) holes)
  | None, None => Ret (rb_insert (MkHole address length) holes)
  end.
End operations.

(** ** The largest hole *)
Lemma largest_spec (t : HoleTree) : aggregated t →
  match cached t with
  | None => t = Leaf
  | Some g => (∃ h, h ∈ elements t ∧ h_length h = g) ∧ ∀ h, h ∈ elements t → h_length h ≤ g
  end.
Proof.
  induction t as [|l IHl h g r IHr]; simpl; [done|]. intros (Al & Ar & ->).
  specialize (IHl Al). specialize (IHr Ar).
  unfold aggregate, Hole_aggregator, hole_aggregate.
  set (a := match cached l with Some v => _ | None => _ end).
  set (b := match cached r with Some v => _ | None => _ end).
  assert ((if 0 =? b then (0, false) else (b, true)).1 = b) as -> by (case_Z; simpl; congruence).
  assert ((∃ x, x ∈ elements l ++ [h] ∧ h_length x = a) ∧
    ∀ x, x ∈ elements l ++ [h] → h_length x ≤ a) as [(x & Hx & Ex) Ha].
  { subst a. destruct (cached l) as [v|].
    - destruct IHl as [(x & Hx & Ex) Hv]. case_Z.
      + split; [exists x; set_solver|]. intros y [Hy| ->%list_elem_of_singleton]%elem_of_app; [|lia].
        by apply Hv.
      + split; [exists h; set_solver|]. intros y [Hy| ->%list_elem_of_singleton]%elem_of_app; [|lia].
        specialize (Hv y Hy). lia.
    - subst l. simpl. split; [exists h; set_solver|]. by intros y ->%list_elem_of_singleton. }
  clearbody a. subst b. destruct (cached r) as [v|].
  - destruct IHr as [(y & Hy & Ey) Hv]. case_Z.
    + split; [exists y; set_solver|]. intros z Hz. apply elem_of_app in Hz as [Hz|[->|Hz]%elem_of_cons].
      * specialize (Ha z ltac:(set_solver)). lia.
      * specialize (Ha h ltac:(set_solver)). lia.
      * by apply Hv.
    + split; [exists x; set_solver|]. intros z Hz. apply elem_of_app in Hz as [Hz|[->|Hz]%elem_of_cons].
      * apply Ha. set_solver.
      * apply Ha. set_solver.
      * specialize (Hv z Hz). lia.
  - subst r. simpl in *. split; [by exists x|done].
Qed.

(** ** Invariant and effects *)
Record holes_ok (t : HoleTree) : Prop := {
  ho_ordered : ordered (elements t);
  ho_aggregated : aggregated t;
  ho_bounds h : h ∈ elements t → 0 ≤ h_address h ∧ h_address h + h_length h < 2 ^ 64;
}.

(** The free addresses. *)
Definition free_at (t : HoleTree) (a : Z) : Prop := covered (elements t) a.

(** [t'] is [t] without the range of [length] bytes at [address]. *)
Definition carved (t t' : HoleTree) (address length : Z) : Prop :=
  holes_ok t' ∧ ∀ a, free_at t' a ↔ free_at t a ∧ ¬ (address ≤ a < address + length).

Section proofs.
Context `{!RbTree Hole}.

Lemma hole_in (t : HoleTree) l1 h l2 : elements t = l1 ++ h :: l2 → h ∈ elements t.
Proof. intros ->. apply elem_of_app. right. by left. Qed.

(** The list of holes that replaces [h]. *)
Definition remainders (h : Hole) (offset length : Z) : list Hole :=
  (if negb (offset =? 0) then [MkHole (h_address h) offset] else []) ++
  (if offset + length <? h_length h
   then [MkHole (h_address h + offset + length) (h_length h - (offset + length))] else []).

Lemma remainders_ok h offset length :
  0 ≤ offset → 0 < length → offset + length ≤ h_length h →
  ordered (remainders h offset length) ∧
  (∀ x, x ∈ remainders h offset length → h_address h ≤ ext_lo x ∧ ext_hi x ≤ ext_hi h) ∧
  ∀ a, covered (remainders h offset length) a ↔
    covers h a ∧ ¬ (h_address h + offset ≤ a < h_address h + offset + length).
Proof.
  intros Ho Hl Hb. unfold remainders.
  destruct (Z.eqb_spec offset 0) as [E0|Hne], (Z.ltb_spec (offset + length) (h_length h)); simpl.
  all: split_and!; [rewrite ?ordered_cons; simpl; split_and!; try lia; try apply ordered_nil| |].
  all: try (intros x; rewrite ?elem_of_cons, ?elem_of_nil; unfold ext_hi; simpl; naive_solver lia).
  all: try (intros a; rewrite ?covered_cons; unfold covers, ext_hi; simpl;
            pose proof (covered_nil (A := Hole) a); naive_solver lia).
  all: unfold ext_hi; simpl; intros x; rewrite ?elem_of_cons, ?elem_of_nil; naive_solver lia.
Qed.

Lemma splitHole_spec t l1 h l2 offset length :
  holes_ok t → elements t = l1 ++ h :: l2 →
  0 ≤ offset → 0 < length → offset + length ≤ h_length h →
  ∃ t', splitHole t h offset length = Ret t' ∧
    elements t' = l1 ++ remainders h offset length ++ l2 ∧
    carved t t' (h_address h + offset) length.
Proof.
  intros [HO HA HB] E Ho Hl Hb. destruct (HB h (hole_in _ _ _ _ E)) as [Hb0 Hb1].
  unfold splitHole. rewrite assert_bind by (apply negb_true_iff, Z.eqb_neq; lia).
  rewrite (u64_small (offset + length)) by lia.
  rewrite assert_bind by (apply Z.leb_le; lia).
  destruct (remainders_ok h offset length Ho Hl Hb) as (RO & RI & RC).
  pose proof (remove_from l1 l2 t h E HO) as E1. rewrite E in HO.
  set (pre := if negb (offset =? 0) then [MkHole (h_address h) offset] else []).
  set (post := if offset + length <? h_length h
    then [MkHole (h_address h + offset + length) (h_length h - (offset + length))] else []).
  assert (ordered (l1 ++ pre ++ l2)) as Hpre.
  { apply (ordered_replace _ _ _ h HO).
    - unfold remainders in RO. apply ordered_app in RO as [? _]. done.
    - intros x Hx. apply RI. unfold remainders. apply elem_of_app. by left. }
  pose proof (ordered_replace _ _ _ h HO RO RI) as Hall.
  set (t2 := if negb (offset =? 0) then rb_insert (MkHole (h_address h) offset) (rb_remove h t)
             else rb_remove h t).
  assert (elements t2 = l1 ++ pre ++ l2 ∧ aggregated t2) as [E2 A2].
  { subst t2 pre. destruct (negb (offset =? 0)); simpl.
    - split; [by apply insert_at|by apply rb_insert_aggregated, rb_remove_aggregated].
    - split; [done|by apply rb_remove_aggregated]. }
  set (t3 := if offset + length <? h_length h then rb_insert _ t2 else t2).
  assert (elements t3 = l1 ++ remainders h offset length ++ l2 ∧ aggregated t3) as [E3 A3].
  { subst t3. unfold remainders in *. fold pre post in Hall |- *. subst post.
    destruct (Z.ltb_spec (offset + length) (h_length h)); simpl.
    - split; [|by apply rb_insert_aggregated].
      rewrite !u64_small by lia. rewrite !app_assoc in Hall |- *. rewrite <-(app_assoc _ _ l2) in Hall |- *.
      simpl in *. apply insert_at; [by rewrite E2, app_assoc|done].
    - by rewrite app_nil_r. }
  exists t3. split_and!; [done|done|]. split; [split|].
  - by rewrite E3.
  - done.
  - intros x. rewrite E3, !elem_of_app. intros [Hx|[Hx|Hx]].
    + apply HB. rewrite E. apply elem_of_app. by left.
    + destruct (RI x Hx) as [R1 R2]. unfold ext_hi in *. simpl in *. lia.
    + apply HB. rewrite E. apply elem_of_app. right. by right.
  - intros a. unfold free_at. rewrite E3, E, !covered_app, covered_cons, RC.
    unfold covers. pose proof HO as (H1 & (Hh & Hh2 & H2)%ordered_cons & H12)%ordered_app.
    assert (covered l1 a → a < h_address h).
    { intros (x & Hx & [_ ?]). specialize (H12 x h Hx ltac:(by left)). simpl in *. lia. }
    assert (covered l2 a → ext_hi h ≤ a).
    { intros (x & Hx & [? _]). specialize (Hh2 x Hx). lia. }
    unfold ext_hi in *. simpl in *. naive_solver lia.
Qed.

(** *** Searching *)
Lemma child_fits_spec t length : aggregated t →
  child_fits t length = true ↔ ∃ h, h ∈ elements t ∧ length ≤ h_length h.
Proof.
  intros HA%largest_spec. unfold child_fits. destruct (cached t) as [g|].
  - destruct HA as [(h & Hh & Eh) Hmax]. rewrite Z.leb_le. split.
    + intros. exists h. split; [done|lia].
    + intros (h' & Hh' & ?). specialize (Hmax h' Hh'). lia.
  - subst t. simpl. split; [done|]. intros (h & Hh & _). by apply elem_of_nil in Hh.
Qed.

Lemma child_fits_false t length h : aggregated t →
  child_fits t length = false → h ∈ elements t → h_length h < length.
Proof.
  intros HA Hf Hh. apply Z.nle_gt. intros Hle.
  assert (child_fits t length = true); [|congruence]. apply child_fits_spec; eauto.
Qed.

(** From the bottom: the lowest hole that is large enough. *)
Lemma walk_bottom t length flags :
  flag flags kMapPreferBottom = true → aggregated t → child_fits t length = true →
  ∃ l1 h l2, elements t = l1 ++ h :: l2 ∧ allocate_walk t length flags = Ret (h, 0) ∧
    length ≤ h_length h ∧ ∀ x, x ∈ l1 → h_length x < length.
Proof.
  intros Hflag. induction t as [|l IHl h g r IHr]; [done|]. intros (Al & Ar & Hg) Hfit.
  cbn [allocate_walk]. rewrite Hflag. destruct (child_fits l length) eqn:Hl.
  { destruct (IHl Al eq_refl) as (l1 & h' & l2 & E & Hw & Hlen & Hlt).
    exists l1, h', (l2 ++ h :: elements r). simpl. rewrite E, <-app_assoc. by split_and!. }
  destruct (Z.leb_spec length (h_length h)).
  { exists (elements l), h, (elements r). split_and!; [done..|]. intros x Hx. by apply (child_fits_false l). }
  apply (child_fits_spec (Node l h g r)) in Hfit as (h' & Hin & Hlen); [|done]. simpl in Hin.
  assert (child_fits r length = true) as Hr.
  { apply child_fits_spec; [done|]. exists h'. split; [|done].
    apply elem_of_app in Hin as [Hin|[->|Hin]%elem_of_cons]; [|lia|done].
    pose proof (child_fits_false l length h' Al Hl Hin). lia. }
  destruct (IHr Ar Hr) as (l1 & h2 & l2 & E & Hw & Hlen2 & Hlt).
  rewrite assert_bind by (by destruct r). rewrite Hr, assert_bind by done.
  exists (elements l ++ h :: l1), h2, l2. simpl. rewrite E, <-app_assoc. split_and!; try done.
  intros x [Hx|[->|Hx]%elem_of_cons]%elem_of_app; [by apply (child_fits_false l)|lia|by apply Hlt].
Qed.

(** From the top: the highest one, and the end of it. *)
Lemma walk_top t length flags :
  flag flags kMapPreferBottom = false → flag flags kMapPreferTop = true →
  aggregated t → child_fits t length = true →
  ∃ l1 h l2, elements t = l1 ++ h :: l2 ∧
    allocate_walk t length flags = Ret (h, h_length h - length) ∧
    length ≤ h_length h ∧ ∀ x, x ∈ l2 → h_length x < length.
Proof.
  intros Hbot Htop. induction t as [|l IHl h g r IHr]; [done|]. intros (Al & Ar & Hg) Hfit.
  cbn [allocate_walk]. rewrite Hbot, Htop, assert_bind by done. destruct (child_fits r length) eqn:Hr.
  { destruct (IHr Ar eq_refl) as (l1 & h' & l2 & E & Hw & Hlen & Hlt).
    exists (elements l ++ h :: l1), h', l2. simpl. rewrite E, <-app_assoc. by split_and!. }
  destruct (Z.leb_spec length (h_length h)).
  { exists (elements l), h, (elements r). split_and!; [done..|]. intros x Hx. by apply (child_fits_false r). }
  apply (child_fits_spec (Node l h g r)) in Hfit as (h' & Hin & Hlen); [|done]. simpl in Hin.
  assert (child_fits l length = true) as Hl.
  { apply child_fits_spec; [done|]. exists h'. split; [|done].
    apply elem_of_app in Hin as [Hin|[->|Hin]%elem_of_cons]; [done|lia|].
    pose proof (child_fits_false r length h' Ar Hr Hin). lia. }
  destruct (IHl Al Hl) as (l1 & h2 & l2 & E & Hw & Hlen2 & Hlt).
  rewrite assert_bind by (by destruct l). rewrite Hl, assert_bind by done.
  exists l1, h2, (l2 ++ h :: elements r). simpl. rewrite E, <-app_assoc. split_and!; try done.
  intros x [Hx|[->|Hx]%elem_of_cons]%elem_of_app; [by apply Hlt|lia|by apply (child_fits_false r)].
Qed.

Lemma find_hole_spec t address : ordered (elements t) →
  (∀ h, h ∈ elements t → 0 ≤ h_address h ∧ h_address h + h_length h < 2 ^ 64) →
  match find_hole t address with
  | Some h => h ∈ elements t ∧ covers h address
  | None => ¬ free_at t address
  end.
Proof.
  unfold free_at. induction t as [|l IHl h g r IHr]; intros HO HB; [apply covered_nil|].
  cbn [find_hole elements] in *. apply ordered_app in HO as (H1 & HO & H12).
  apply ordered_cons in HO as (Hh & Hh2 & H2).
  destruct (HB h ltac:(set_solver)) as [? ?].
  specialize (IHl H1 ltac:(set_solver)). specialize (IHr H2 ltac:(set_solver)).
  rewrite u64_small by (simpl in *; lia). simpl in Hh. case_Z; [|case_Z].
  - destruct (find_hole l address); [set_solver|]. rewrite covered_app, covered_cons.
    intros [Hc|[[? _]|(x & Hx & [? _])]]; [done|simpl in *; lia|].
    specialize (Hh2 x Hx). unfold ext_hi in *. simpl in *. lia.
  - destruct (find_hole r address); [set_solver|]. rewrite covered_app, covered_cons.
    intros [(x & Hx & [_ ?])|[[_ ?]|Hc]]; [|unfold ext_hi in *; simpl in *; lia|done].
    specialize (H12 x h Hx ltac:(by left)). simpl in *. lia.
  - split; [set_solver|]. split; unfold ext_hi; simpl; lia.
Qed.

(** The neighbours of an address that is not free. *)
Lemma find_neighbours_spec t address cur : ∀ L R,
  holes_ok t → ¬ free_at t address → cur ≠ Leaf → elements t = L ++ elements cur ++ R →
  (∀ x, x ∈ L → ext_hi x ≤ address) → (∀ x, x ∈ R → address < ext_lo x) →
  ∃ l1 l2, elements t = l1 ++ l2 ∧ find_neighbours t cur address = Ret (list.last l1, head l2) ∧
    (∀ x, x ∈ l1 → ext_hi x ≤ address) ∧ (∀ x, x ∈ l2 → address < ext_lo x).
Proof.
  induction cur as [|l IHl h g r IHr]; intros L R HH Hf Hne E HL HR; [done|].
  cbn [find_neighbours elements] in *. pose proof HH as [HO _ HB].
  assert (h ∈ elements t) as Hin by (rewrite E; set_solver).
  destruct (HB h Hin) as [? ?]. pose proof (ordered_len _ _ HO Hin) as Hlen. simpl in Hlen.
  assert (¬ covers h address) as Hnc by (intros Hc; apply Hf; by exists h).
  unfold covers, ext_hi in Hnc. simpl in Hnc.
  assert (ordered (L ++ elements l ++ h :: elements r ++ R)) as HO2
    by (rewrite E in HO; by rewrite <-!app_assoc in HO).
  apply ordered_app in HO2 as (_ & HO2 & _). apply ordered_app in HO2 as (_ & HO2 & Hl).
  apply ordered_cons in HO2 as (_ & Hr & _).
  rewrite u64_small by lia. case_Z.
  - assert (∀ x, x ∈ h :: elements r ++ R → address < ext_lo x) as HR'.
    { intros x [->|Hx]%elem_of_cons; [done|]. specialize (Hr x Hx). unfold ext_hi in Hr. simpl in *. lia. }
    destruct l as [|l' h' g' r'].
    + exists L, (h :: elements r ++ R). simpl. rewrite (predecessor_split t L (elements r ++ R) h); [|done..].
      by split_and!.
    + apply (IHl L (h :: elements r ++ R)); [done..| |done|done]. by rewrite E, <-app_assoc.
  - rewrite assert_bind by (apply Z.leb_le; lia).
    assert (∀ x, x ∈ L ++ elements l ++ [h] → ext_hi x ≤ address) as HL'.
    { intros x [Hx|[Hx| ->%list_elem_of_singleton]%elem_of_app]%elem_of_app; [by apply HL| |unfold ext_hi; simpl; lia].
      specialize (Hl x h Hx ltac:(by left)). simpl in *. lia. }
    destruct r as [|l' h' g' r'].
    + exists (L ++ elements l ++ [h]), R. simpl in E. rewrite (successor_split t (L ++ elements l) R h); [|by rewrite E, <-!app_assoc|done].
      rewrite E. split_and!; [by rewrite <-!app_assoc| |done..].
      by rewrite app_assoc, last_snoc.
    + apply (IHr (L ++ elements l ++ [h]) R); [done..| |done|done]. rewrite E, <-!app_assoc. simpl. by rewrite <-app_assoc.
Qed.

(** *** Releasing a range *)

(** [t'] is [t] with the range of [length] bytes at [address] added. *)
Definition released (t t' : HoleTree) (address length : Z) : Prop :=
  holes_ok t' ∧ ∀ a, free_at t' a ↔ free_at t a ∨ address ≤ a < address + length.

Lemma merge_ok t t' k1 m k2 n address length :
  holes_ok t → elements t = k1 ++ m ++ k2 → aggregated t' →
  (ordered (k1 ++ n :: k2) → elements t' = k1 ++ n :: k2) →
  0 ≤ h_address n → 0 < h_length n → h_address n + h_length n < 2 ^ 64 →
  (∀ x, x ∈ k1 → ext_hi x ≤ h_address n) →
  (∀ y, y ∈ k2 → h_address n + h_length n ≤ ext_lo y) →
  (∀ a, covers n a ↔ covered m a ∨ address ≤ a < address + length) →
  released t t' address length.
Proof.
  intros [HO HA HB] E HA' E' Hn0 Hn1 Hn2 H1 H2 Hc. rewrite E in HO.
  apply ordered_app in HO as (HO1 & HO & H12). apply ordered_app in HO as (_ & HO2 & _).
  assert (ordered (k1 ++ n :: k2)) as HO'.
  { apply ordered_app. rewrite ordered_cons. split_and!; [done..|].
    intros x y Hx [->|Hy]%elem_of_cons; [by apply H1|]. apply H12; [done|]. apply elem_of_app. by right. }
  specialize (E' HO'). split; [split|].
  - by rewrite E'.
  - done.
  - intros x. rewrite E', elem_of_app, elem_of_cons. intros [Hx|[->|Hx]]; [|done|].
    all: apply HB; rewrite E; set_solver.
  - intros a. unfold free_at. rewrite E, E', !covered_app, covered_cons, Hc. naive_solver.
Qed.

(** The holes below and above the range. *)
Section merging.
Context (t : HoleTree) (address length : Z) (l1 l2 : list Hole).
Context (HH : holes_ok t) (Ha : 0 ≤ address) (Hl : 0 < length) (Hend : address + length < 2 ^ 64).
Context (E : elements t = l1 ++ l2).
Context (H1 : ∀ x, x ∈ l1 → ext_hi x ≤ address).
Context (H2 : ∀ y, y ∈ l2 → address + length ≤ ext_lo y).

Lemma hole_bounds h : h ∈ l1 ++ l2 →
  0 ≤ h_address h ∧ 0 < h_length h ∧ h_address h + h_length h < 2 ^ 64.
Proof.
  rewrite <-E. intros Hh. destruct (ho_bounds _ HH h Hh).
  pose proof (ordered_len _ h (ho_ordered _ HH) Hh). simpl in *. lia.
Qed.

Lemma release_alone : released t (rb_insert (MkHole address length) t) address length.
Proof.
  pose proof HH as [HO HA HB].
  apply (merge_ok t _ l1 [] l2 (MkHole address length)); simpl; try done.
  - by apply rb_insert_aggregated.
  - intros. by apply insert_at.
  - intros a. unfold covers, ext_hi. simpl. pose proof (covered_nil (A := Hole) a). naive_solver.
Qed.

Lemma release_succ s l2' : l2 = s :: l2' → address + length = h_address s →
  released t (rb_insert (MkHole address (u64 (length + h_length s))) (rb_remove s t)) address length.
Proof.
  intros E2 Ts. pose proof HH as [HO HA HB]. destruct (hole_bounds s) as (? & ? & ?); [set_solver|].
  rewrite E2 in E. rewrite u64_small by lia.
  apply (merge_ok t _ l1 [s] l2' (MkHole address (length + h_length s))); simpl; try done; try lia.
  - by apply rb_insert_aggregated, rb_remove_aggregated.
  - intros. apply insert_at; [by apply remove_from|done].
  - intros y Hy. rewrite E in HO. apply ordered_app in HO as (_ & HO & _).
    apply ordered_cons in HO as (_ & HO & _). specialize (HO y Hy). unfold ext_hi in HO. simpl in *. lia.
  - intros a. rewrite covered_cons. unfold covers, ext_hi. simpl.
    pose proof (covered_nil (A := Hole) a). naive_solver lia.
Qed.

Lemma release_pre p l1' : l1 = l1' ++ [p] → h_address p + h_length p = address →
  released t (rb_insert (MkHole (h_address p) (u64 (h_length p + length))) (rb_remove p t))
    address length.
Proof.
  intros E1 Tp. pose proof HH as [HO HA HB]. destruct (hole_bounds p) as (? & ? & ?); [set_solver|].
  rewrite E1, <-app_assoc in E. simpl in E. rewrite u64_small by lia.
  apply (merge_ok t _ l1' [p] l2 (MkHole (h_address p) (h_length p + length))); simpl; try done; try lia.
  - by apply rb_insert_aggregated, rb_remove_aggregated.
  - intros. apply insert_at; [by apply remove_from|done].
  - intros x Hx. rewrite E in HO. apply ordered_app in HO as (_ & _ & HO). apply HO; [done|by left].
  - intros y Hy. specialize (H2 y Hy). simpl in *. lia.
  - intros a. rewrite covered_cons. unfold covers, ext_hi. simpl.
    pose proof (covered_nil (A := Hole) a). naive_solver lia.
Qed.

Lemma release_both p l1' s l2' : l1 = l1' ++ [p] → l2 = s :: l2' →
  h_address p + h_length p = address → address + length = h_address s →
  released t (rb_insert (MkHole (h_address p) (u64 (h_length p + length + h_length s)))
    (rb_remove s (rb_remove p t))) address length.
Proof.
  intros E1 E2 Tp Ts. pose proof HH as [HO HA HB].
  destruct (hole_bounds p) as (? & ? & ?); [set_solver|].
  destruct (hole_bounds s) as (? & ? & ?); [set_solver|].
  rewrite E1, E2, <-app_assoc in E. simpl in E. rewrite u64_small by lia.
  pose proof (remove_from l1' (s :: l2') t p E HO) as Er.
  rewrite E in HO. pose proof HO as (HO1 & (_ & Hp' & HO2)%ordered_cons & HO12)%ordered_app.
  assert (ordered (l1' ++ s :: l2')) as HOr.
  { apply ordered_app. split_and!; [done..|]. intros x y Hx Hy. apply HO12; [done|by right]. }
  apply (merge_ok t _ l1' [p; s] l2' (MkHole (h_address p) (h_length p + length + h_length s)));
    simpl; try done; try lia.
  - by apply rb_insert_aggregated, rb_remove_aggregated, rb_remove_aggregated.
  - intros. apply insert_at; [|done]. apply remove_from; [done|]. by rewrite Er.
  - intros x Hx. apply HO12; [done|by left].
  - intros y Hy. apply ordered_cons in HO2 as (_ & HO2 & _). specialize (HO2 y Hy).
    unfold ext_hi in HO2. simpl in *. lia.
  - intros a. rewrite !covered_cons. unfold covers, ext_hi. simpl.
    pose proof (covered_nil (A := Hole) a). naive_solver lia.
Qed.
End merging.

Lemma coalesce_spec t address length :
  holes_ok t → t ≠ Leaf → 0 ≤ address → 0 < length → address + length < 2 ^ 64 →
  (∀ a, address ≤ a < address + length → ¬ free_at t a) →
  ∃ t', coalesce t address length = Ret t' ∧ released t t' address length.
Proof.
  intros HH Hne Ha Hl Hend Hnf. pose proof HH as [HO HA HB].
  destruct (find_neighbours_spec t address t [] []) as (l1 & l2 & E & Hfn & H1 & H2);
    [done|apply Hnf; lia|done|by rewrite app_nil_r|intros x Hx; by apply elem_of_nil in Hx..|].
  unfold coalesce. rewrite Hfn. cbn [mbind outcome_bind].
  assert (∀ y, y ∈ l2 → address + length ≤ ext_lo y) as H2'.
  { intros y Hy. specialize (H2 y Hy). apply Z.nlt_ge. intros Hlt. apply (Hnf (ext_lo y)); [lia|].
    exists y. split; [rewrite E; set_solver|].
    pose proof (ordered_len _ y HO ltac:(rewrite E; set_solver)). unfold covers, ext_hi. lia. }
  pose proof (release_alone t address length l1 l2 HH Ha Hl Hend E H1 H2') as R0.
  pose proof (release_succ t address length l1 l2 HH Ha Hl Hend E H1 H2') as R1.
  pose proof (release_pre t address length l1 l2 HH Ha Hl Hend E H1 H2') as R2.
  pose proof (release_both t address length l1 l2 HH Ha Hl Hend E H1 H2') as R3.
  assert (∀ p, list.last l1 = Some p → ∃ l1', l1 = l1' ++ [p]) as Hlast by (intros p; apply last_Some).
  assert (∀ s, head l2 = Some s → ∃ l2', l2 = s :: l2') as Hhead by (intros s; apply head_Some).
  rewrite (u64_small (address + length)) by lia.
  assert (∀ p, list.last l1 = Some p → u64 (h_address p + h_length p) = h_address p + h_length p) as Hp.
  { intros p [l1' E1]%Hlast. destruct (hole_bounds t l1 l2 HH E p) as (? & ? & ?);
      [rewrite E1; set_solver|]. apply u64_small. lia. }
  destruct (list.last l1) as [p|] eqn:Ep, (head l2) as [s|] eqn:Es.
  - destruct (Hlast p eq_refl) as [l1' E1], (Hhead s eq_refl) as [l2' E2]. rewrite (Hp p eq_refl).
    destruct (Z.eqb_spec (h_address p + h_length p) address),
      (Z.eqb_spec (address + length) (h_address s)); simpl; eauto 10.
  - destruct (Hlast p eq_refl) as [l1' E1]. rewrite (Hp p eq_refl). case_Z; eauto.
  - destruct (Hhead s eq_refl) as [l2' E2]. case_Z; eauto.
  - eauto.
Qed.
End proofs.

Section theorems.
Context `{!RbTree Hole}.

(** The check that the tree library runs in debug builds passes on every node. *)
Fixpoint all_nodes (f : HoleTree → Hole → Z → HoleTree → bool) (t : HoleTree) : bool :=
  match t with
  | Leaf => true
  | Node l h g r => all_nodes f l && all_nodes f r && f l h g r
  end.

Lemma check_invariant_ok t : holes_ok t → all_nodes (check_invariant t) t = true.
Proof.
  intros [HO HA HB].
  assert (∀ s L R, aggregated s → elements t = L ++ elements s ++ R →
    all_nodes (check_invariant t) s = true) as H; [|by apply (H t [] []); [|rewrite app_nil_r]].
  induction s as [|l IHl h g r IHr]; intros L R; [done|]. cbn [all_nodes aggregated elements].
  intros (Al & Ar & Hg) E. rewrite (IHl L (h :: elements r ++ R)) by (done || by rewrite E, <-!app_assoc).
  rewrite (IHr (L ++ elements l ++ [h]) R) by (done || by rewrite E, <-!app_assoc).
  assert (elements t = (L ++ elements l) ++ h :: elements r ++ R) as E' by (by rewrite E, <-!app_assoc).
  unfold check_invariant. rewrite (predecessor_split t _ _ h E' HO), (successor_split t _ _ h E' HO).
  assert (∀ x, x ∈ elements t → u64 (h_address x + h_length x) = ext_hi x) as Hu.
  { intros x Hx. destruct (HB x Hx). pose proof (ordered_len _ x HO Hx).
    unfold ext_hi. simpl in *. apply u64_small. lia. }
  pose proof HO as HO'. rewrite E' in HO'. apply ordered_app in HO' as (_ & HO' & H12).
  apply ordered_cons in HO' as (_ & H2 & _). simpl.
  unfold aggregate, Hole_aggregator, hole_aggregate in Hg.
  set (b := match cached r with Some _ => _ | None => _ end) in *.
  assert (g = b) as -> by (rewrite Hg; case_Z; simpl; congruence).
  rewrite Z.eqb_refl. simpl.
  destruct (list.last (L ++ elements l)) as [p|] eqn:Ep.
  - apply last_Some in Ep as [k Ep]. assert (p ∈ L ++ elements l) as Hp by (rewrite Ep; set_solver).
    rewrite (Hu p) by (rewrite E'; set_solver).
    specialize (H12 p h Hp ltac:(by left)). rewrite (proj2 (Z.ltb_ge _ _)) by done.
    destruct (head (elements r ++ R)) as [s|] eqn:Es; [|done].
    apply head_Some in Es as [k' Es]. rewrite (Hu h) by (rewrite E'; set_solver).
    specialize (H2 s ltac:(rewrite Es; by left)). by rewrite (proj2 (Z.ltb_ge _ _)) by done.
  - destruct (head (elements r ++ R)) as [s|] eqn:Es; [|done].
    apply head_Some in Es as [k' Es]. rewrite (Hu h) by (rewrite E'; set_solver).
    specialize (H2 s ltac:(rewrite Es; by left)). by rewrite (proj2 (Z.ltb_ge _ _)) by done.
Qed.

(** The core of [_allocate]. *)
Lemma allocate_hole_run (t : HoleTree) (length flags : Z) :
  holes_ok t → 0 < length → length mod kPageSize = 0 →
  flag flags kMapPreferBottom = true ∨ flag flags kMapPreferTop = true →
  if decide (elements t = []) then allocate t length flags = Stop NullDereference
  else
    (allocate t length flags = Ret (inl noMemory, t) ∧
       ∀ h, h ∈ elements t → h_length h < length) ∨
    (∃ l1 h l2 address t', elements t = l1 ++ h :: l2 ∧ length ≤ h_length h ∧
       (if flag flags kMapPreferBottom
        then address = h_address h ∧ ∀ x, x ∈ l1 → h_length x < length
        else address = h_address h + h_length h - length ∧ ∀ x, x ∈ l2 → h_length x < length) ∧
       allocate t length flags = Ret (inr address, t') ∧ carved t t' address length).
Proof.
  intros HH Hl Hm Hf. pose proof HH as [HO HA HB]. unfold allocate.
  rewrite assert_bind by (by apply Z.ltb_lt). rewrite assert_bind by (by apply Z.eqb_eq).
  pose proof (largest_spec t HA) as Hlg. destruct (cached t) as [g|] eqn:Eg.
  2:{ subst t. by rewrite decide_True. }
  rewrite decide_False by (destruct Hlg as [(h & Hh & _) _]; intros E0; rewrite E0 in Hh; by apply elem_of_nil in Hh).
  cbn. case_Z.
  { left. split; [done|]. intros h Hh. apply Hlg in Hh. lia. }
  assert (child_fits t length = true) as Hfit by (unfold child_fits; rewrite Eg; by apply Z.leb_le).
  right. destruct (flag flags kMapPreferBottom) eqn:Hbot.
  - destruct (walk_bottom t length flags Hbot HA Hfit) as (l1 & h & l2 & E & -> & Hlen & Hlt). cbn.
    destruct (splitHole_spec t l1 h l2 0 length HH E) as (t' & -> & _ & Hc); [lia..|]. cbn.
    destruct (HB h (hole_in _ _ _ _ E)). rewrite Z.add_0_r in *. rewrite u64_small by lia.
    by exists l1, h, l2, (h_address h), t'.
  - destruct Hf as [?|Htop]; [done|].
    destruct (walk_top t length flags Hbot Htop HA Hfit) as (l1 & h & l2 & E & -> & Hlen & Hlt). cbn.
    destruct (splitHole_spec t l1 h l2 (h_length h - length) length HH E) as (t' & -> & _ & Hc); [lia..|].
    cbn. destruct (HB h (hole_in _ _ _ _ E)). rewrite u64_small by lia.
    exists l1, h, l2, (h_address h + (h_length h - length)), t'. split_and!; done || lia.
Qed.

(** C39: [VirtualSpace::_allocate] finds a hole whenever there is one that is
    large enough: with [kMapPreferBottom] it takes the start of the lowest such
    hole, with [kMapPreferTop] the end of the highest one.  It takes exactly that
    range out of the free addresses and keeps the hole tree consistent.  If no
    hole is large enough it returns [noMemory] and changes nothing; on an empty
    tree it dereferences a null pointer. *)
Theorem allocate_hole (t : HoleTree) (length flags : Z) :
  holes_ok t → 0 < length → length mod kPageSize = 0 →
  flag flags kMapPreferBottom = true ∨ flag flags kMapPreferTop = true →
  if decide (elements t = []) then allocate t length flags = Stop NullDereference
  else
    (allocate t length flags = Ret (inl noMemory, t) ∧
       ∀ h, h ∈ elements t → h_length h < length) ∨
    (∃ l1 h l2 address t', elements t = l1 ++ h :: l2 ∧ length ≤ h_length h ∧
       (if flag flags kMapPreferBottom
        then address = h_address h ∧ ∀ x, x ∈ l1 → h_length x < length
        else address = h_address h + h_length h - length ∧ ∀ x, x ∈ l2 → h_length x < length) ∧
       allocate t length flags = Ret (inr address, t') ∧ carved t t' address length).
Proof. apply allocate_hole_run. Qed.

(** The core of [_allocateAt]. *)
Lemma allocateAt_run t address length :
  holes_ok t → address mod kPageSize = 0 → length mod kPageSize = 0 →
  0 < length → 0 ≤ address → address + length < 2 ^ 64 →
  (∃ h t', h ∈ elements t ∧ h_address h ≤ address ∧ address + length ≤ h_address h + h_length h ∧
     allocateAt t address length = Ret (inr address, t') ∧ carved t t' address length) ∨
  (allocateAt t address length = Ret (inl noMemory, t) ∧
     ∀ h, h ∈ elements t →
       ¬ (h_address h ≤ address ∧ address + length ≤ h_address h + h_length h)).
Proof.
  intros HH Hma Hml Hl Ha Hend. pose proof HH as [HO HA HB]. unfold allocateAt.
  rewrite !assert_bind by (by apply Z.eqb_eq).
  pose proof (find_hole_spec t address HO HB) as Hfind. destruct (find_hole t address) as [h|].
  - destruct Hfind as [Hin [Hlo Hhi]]. destruct (HB h Hin). unfold ext_hi in Hhi. simpl in Hlo, Hhi.
    rewrite u64_small by lia. case_Z.
    + right. split; [done|]. intros h' Hh' [? ?].
      assert (h' = h) as ->; [|lia]. apply (ordered_unique (elements t) h' h address); try done.
      all: unfold covers, ext_hi; simpl; lia.
    + left. destruct (ordered_split _ h HO Hin) as (l1 & l2 & E & _).
      destruct (splitHole_spec t l1 h l2 (address - h_address h) length HH E) as (t' & -> & _ & Hc); [lia..|].
      replace (h_address h + (address - h_address h)) with address in Hc by lia.
      exists h, t'. split_and!; done || lia.
  - right. split; [done|]. intros h Hh [? ?]. apply Hfind. exists h. split; [done|].
    unfold covers, ext_hi. simpl. lia.
Qed.

(** [VirtualSpace::_allocateAt] succeeds exactly if one hole contains the
    whole range, and then takes exactly this range out of the free addresses. *)
Theorem allocateAt_exact (t : HoleTree) (address length : Z) :
  holes_ok t → address mod kPageSize = 0 → length mod kPageSize = 0 →
  0 < length → 0 ≤ address → address + length < 2 ^ 64 →
  (∃ h t', h ∈ elements t ∧ h_address h ≤ address ∧ address + length ≤ h_address h + h_length h ∧
     allocateAt t address length = Ret (inr address, t') ∧ carved t t' address length) ∨
  (allocateAt t address length = Ret (inl noMemory, t) ∧
     ∀ h, h ∈ elements t →
       ¬ (h_address h ≤ address ∧ address + length ≤ h_address h + h_length h)).
Proof. apply allocateAt_run. Qed.

(** The end of [_unmapMappings] gives the range of a mapping back: on a
    non-empty hole tree it adds exactly the range to the free addresses, merges it
    with the holes next to it and keeps the tree consistent.  On an empty tree,
    that is when the whole address space is mapped, the assertion fails. *)
Theorem coalesce_releases (t : HoleTree) (address length : Z) :
  holes_ok t → 0 ≤ address → 0 < length → address + length < 2 ^ 64 →
  (∀ a, address ≤ a < address + length → ¬ free_at t a) →
  match t with
  | Leaf => coalesce t address length = Stop AssertionFailed
  | _ => ∃ t', coalesce t address length = Ret t' ∧ released t t' address length
  end.
Proof.
  intros HH Ha Hl Hend Hnf. destruct t as [|l h g r] eqn:Et; [done|]. rewrite <-Et in *.
  apply coalesce_spec; [done|by rewrite Et|done..].
Qed.
End theorems.

(** ** An example: a tree with two holes *)
#[local] Existing Instance spine_tree.
Definition example_holes : HoleTree := spine [MkHole 65536 4096; MkHole 131072 16384].

Lemma example_holes_ok : holes_ok example_holes.
Proof.
  split.
  - by repeat constructor.
  - apply spine_aggregated.
  - intros h. unfold example_holes. rewrite spine_elements, !elem_of_cons, elem_of_nil. intros [->|[->|[]]]; done.
Qed.

Lemma allocate_hole_witness :
  ∃ t', allocate example_holes 8192 kMapPreferTop = Ret (inr 139264, t').
Proof.
  pose proof (allocate_hole example_holes 8192 kMapPreferTop example_holes_ok
    ltac:(done) ltac:(done) ltac:(by right)) as H. rewrite decide_False in H by done.
  destruct H as [[H _]|(l1 & h & l2 & a & t' & _ & _ & _ & H & _)]; [by vm_compute in H|].
  eexists. vm_compute. reflexivity.
Defined.

Lemma allocateAt_exact_witness :
  ∃ t', allocateAt example_holes 135168 4096 = Ret (inr 135168, t').
Proof.
  destruct (allocateAt_exact example_holes 135168 4096 example_holes_ok) as
    [(h & t' & _ & _ & _ & H & _)|[H _]]; [done..|by exists t'|]. by vm_compute in H.
Defined.

Lemma coalesce_releases_witness :
  ∃ t', coalesce example_holes 69632 61440 = Ret t' ∧ released example_holes t' 69632 61440.
Proof.
  apply (coalesce_releases example_holes 69632 61440 example_holes_ok); [done..|].
  intros a Ha (h & Hh & Hc). revert Hh. unfold example_holes. rewrite spine_elements.
  rewrite !elem_of_cons, elem_of_nil. unfold covers, ext_hi in Hc.
  intros [->|[->|[]]]; simpl in Hc; lia.
Defined.
