(* ===== verification/VirtualSpace.v ===== *)
(** * Address spaces: kernel/thor/generic/address-space.cpp

    [VirtualSpace] with its tree of mappings: lookup, [_splitMappings],
    [_unmapMappings], [map], [protect] and [unmap].  The state is the hole tree,
    the mapping tree, the counters and the log of the page table operations that
    were issued.  The operations run under [_consistencyMutex], one at a time;
    the locks, the eviction loops and the reference counts are not modelled.

    The theorems relate the trees to the abstract view of an address space: a
    partial function from addresses to an offset in a memory slice with flags. *)
From S2P Require Import Prelude PageConsts Extents Holes.

(** [enum MappingFlags] *)
Definition permissionMask : Z := 112.
Definition protRead : Z := 16.
Definition protWrite : Z := 32.
Definition protExecute : Z := 64.
Definition dontRequireBacking : Z := 256.

Definition cacheWriteCombine : Z := 1.

(** [struct MemorySlice]: a range of a memory view; views are named by numbers. *)
Record MemorySlice := MkSlice {
  sl_view : Z;
  sl_offset : Z;
  sl_length : Z;
  sl_caching : Z;
}.
#[export] Instance MemorySlice_eq_dec : EqDecision MemorySlice.
Proof. solve_decision. Defined.

Inductive MappingState := ms_null | ms_active | ms_zombie | ms_retired.
#[export] Instance MappingState_eq_dec : EqDecision MappingState.
Proof. solve_decision. Defined.

Record Mapping := MkMapping {
  m_address : Z;
  m_length : Z;
  m_slice : MemorySlice;
  m_viewOffset : Z;
  m_flags : Z;
  m_state : MappingState;
}.
#[export] Instance Mapping_eq_dec : EqDecision Mapping.
Proof. solve_decision. Defined.

(** [MappingLess]; the tree of mappings has no aggregator. *)
#[export] Instance Mapping_extent : Extent Mapping := {| ext_lo := m_address; ext_len := m_length |}.
#[export] Instance Mapping_aggregator : Aggregator Mapping := λ _ _ _, 0.

Definition MappingTree : Type := tree Mapping.

(** The constructor of [Mapping] with its assertions. *)
Definition new_mapping (address length : Z) (slice : MemorySlice) (viewOffset flags : Z)
    : outcome Mapping :=
  assert! sl_offset slice <=? viewOffset;
  assert! u64 (viewOffset + length) <=? u64 (sl_offset slice + sl_length slice);
  Ret (MkMapping address length slice viewOffset flags ms_null).

Definition set_state (m : Mapping) (s : MappingState) : Mapping :=
  MkMapping (m_address m) (m_length m) (m_slice m) (m_viewOffset m) (m_flags m) s.
Definition set_flags (m : Mapping) (f : Z) : Mapping :=
  MkMapping (m_address m) (m_length m) (m_slice m) (m_viewOffset m) f (m_state m).

(** [Mapping::protect] *)
Definition protect_mapping (m : Mapping) (protectFlags : Z) : Mapping :=
  set_flags m (Z.lor (Z.ldiff (m_flags m) (Z.lor protRead (Z.lor protWrite protExecute)))
                 protectFlags).

Definition is_active (m : Mapping) : bool := bool_decide (m_state m = ms_active).

(** ** Lookup *)
Fixpoint findMapping (current : MappingTree) (address : Z) : option Mapping :=
  match current with
  | Leaf => None
  | Node l m _ r =>
      if address <? m_address m then findMapping l address
      else if u64 (m_address m + m_length m) <=? address then findMapping r address
      else Some m
  end.

Fixpoint areMappingsInRange_walk (current : MappingTree) (address endAddr : Z) : bool :=
  match current with
  | Leaf => false
  | Node l m _ r =>
      let currentEnd := u64 (m_address m + m_length m) in
      if (address <? currentEnd) && (m_address m <? endAddr) then true
      else if address <? m_address m then areMappingsInRange_walk l address endAddr
      else if m_address m <? address then areMappingsInRange_walk r address endAddr
      else true
  end.
Definition areMappingsInRange (t : MappingTree) (address length : Z) : bool :=
  areMappingsInRange_walk t address (u64 (address + length)).

(** ** Page table operations *)
Inductive PageOp :=
| MapPresentPages (va view offset size flags : Z) (mode : CachingMode)
| RestrictPages (va size flags : Z) (mode : CachingMode)
| UnmapPages (va size : Z)
| Shootdown (va size : Z).

(** [VirtualOperations]: what an operation affects may depend on everything that
    happened before. *)
Class VirtualOperations := op_affected : list PageOp → PageOp → PagesAffected.

Record VirtualSpace := MkSpace {
  vs_holes : HoleTree;
  vs_mappings : MappingTree;
  vs_rss : Z;
  vs_agingTurnover : Z;
  vs_log : list PageOp;
}.

Definition set_holes (st : VirtualSpace) (h : HoleTree) : VirtualSpace :=
  MkSpace h (vs_mappings st) (vs_rss st) (vs_agingTurnover st) (vs_log st).
Definition set_mappings (st : VirtualSpace) (t : MappingTree) : VirtualSpace :=
  MkSpace (vs_holes st) t (vs_rss st) (vs_agingTurnover st) (vs_log st).

(** [VirtualSpace::notifyRss_], without the wake-up of the aging loop. *)
Definition notifyRss (st : VirtualSpace) (affected : PagesAffected) : VirtualSpace :=
  MkSpace (vs_holes st) (vs_mappings st)
    (i64 (vs_rss st + i64 (rssIncrease affected - rssDecrease affected)))
    (i64 (vs_agingTurnover st + rssIncrease affected)) (vs_log st).

Section operations.
Context `{!RbTree Hole, !RbTree Mapping, !VirtualOperations}.

Definition issue (st : VirtualSpace) (op : PageOp) : PagesAffected * VirtualSpace :=
  (op_affected (vs_log st) op,
   MkSpace (vs_holes st) (vs_mappings st) (vs_rss st) (vs_agingTurnover st) (vs_log st ++ [op])).

(** An operation on the pages of a mapping and the shootdown it may need;
    [notify] says whether the code calls [notifyRss_]. *)
Definition issue_revoke (st : VirtualSpace) (notify : bool) (op : PageOp) (m : Mapping)
    : VirtualSpace :=
  let '(affected, st) := issue st op in
  let st := if notify then notifyRss st affected else st in
  if anyRevoked affected then (issue st (Shootdown (m_address m) (m_length m))).2 else st.

(** ** Splitting *)

(** The body of the splitting branch of [_splitMappings]. *)
Definition split_mapping (t : MappingTree) (m : Mapping) (at_ : Z)
    : outcome (MappingTree * Mapping * Mapping) :=
  assert! is_active m;
  let leftSize := u64 (at_ - m_address m) in
  leftMapping ← new_mapping (m_address m) leftSize (m_slice m) (m_viewOffset m) (m_flags m);
  let rightOffset := u64 (at_ - m_address m) in
  rightMapping ← new_mapping at_ (u64 (m_length m - rightOffset)) (m_slice m)
            (u64 (m_viewOffset m + rightOffset)) (m_flags m);
  let leftMapping := set_state leftMapping ms_active in
  let rightMapping := set_state rightMapping ms_active in
  Ret (rb_insert rightMapping (rb_insert leftMapping (rb_remove m t)), leftMapping, rightMapping).

(** The [for] loop; pointers to mappings are the mappings of the tree. *)
Fixpoint split_loop (fuel : nat) (t : MappingTree) (address size : Z)
    (it start : option Mapping) : outcome (MappingTree * option Mapping * option Mapping) :=
  match fuel with
  | O => Stop OutOfFuel
  | S fuel' =>
      match it with
      | None => Ret (t, start, None)
      | Some m =>
          if u64 (m_address m + m_length m) <=? address then
            let it := rb_successor t m in
            split_loop fuel' t address size it it
          else if u64 (address + size) <=? m_address m then
            Ret (t, start, match start with Some _ => Some m | None => None end)
          else
            let start := match start with Some s => s | None => m end in
            let at_ := if address <=? m_address m then u64 (address + size) else address in
            if (m_address m <? at_) && (at_ <? u64 (m_address m + m_length m)) then
              '(t, leftMapping, rightMapping) ← split_mapping t m at_;
              let start :=
                if bool_decide (start = m)
                then (if address <? at_ then leftMapping else rightMapping) else start in
              split_loop fuel' t address size (Some rightMapping) (Some start)
            else split_loop fuel' t address size (rb_successor t m) (Some start)
      end
  end.

(** Every round but the splits moves on by one mapping, and there are at most two
    splits. *)
Definition splitMappings (t : MappingTree) (address size : Z)
    : outcome (MappingTree * option Mapping * option Mapping) :=
  split_loop (4 + length (elements t)) t address size (rb_first t) None.

(** ** Unmapping *)
Definition unmap_one (st : VirtualSpace) (m : Mapping) : outcome VirtualSpace :=
  assert! is_active m;
  let st := issue_revoke st true (UnmapPages (m_address m) (m_length m)) m in
  let st := set_mappings st (rb_remove m (vs_mappings st)) in
  holes ← coalesce (vs_holes st) (m_address m) (m_length m);
  Ret (set_holes st holes).

Fixpoint unmap_loop (fuel : nat) (st : VirtualSpace) (address size : Z)
    (it end_ : option Mapping) : outcome VirtualSpace :=
  match fuel with
  | O => Stop OutOfFuel
  | S fuel' =>
      if bool_decide (it = end_) then Ret st else
      m ← deref it;
      let it := rb_successor (vs_mappings st) m in
      if (address <=? m_address m) && (u64 (m_address m + m_length m) <=? u64 (address + size)) then
        st ← unmap_one st m;
        unmap_loop fuel' st address size it end_
      else unmap_loop fuel' st address size it end_
  end.

Definition unmapMappings (st : VirtualSpace) (address size : Z) (start end_ : option Mapping)
    : outcome VirtualSpace :=
  unmap_loop (S (length (elements (vs_mappings st)))) st address size start end_.

(** [_splitMappings] and [assert(start || (!start && !end))]. *)
Definition split_range (st : VirtualSpace) (address size : Z)
    : outcome (VirtualSpace * option Mapping * option Mapping) :=
  '(t, start, end_) ← splitMappings (vs_mappings st) address size;
  assert! match start, end_ with Some _, _ => true | None, None => true | None, Some _ => false end;
  Ret (set_mappings st t, start, end_).

Definition unmap (st : VirtualSpace) (address size : Z) : outcome VirtualSpace :=
  '(st, start, end_) ← split_range st address size;
  unmapMappings st address size start end_.

(** ** Protection *)

(** The conversion of [kMapProt*] flags in [map] and [protect]. *)
Definition prot_flags (flags : Z) : outcome Z :=
  let mask := Z.lor kMapProtRead (Z.lor kMapProtWrite kMapProtExecute) in
  let p := Z.land flags mask in
  if (p =? Z.lor kMapProtRead (Z.lor kMapProtWrite kMapProtExecute))
     || (p =? Z.lor kMapProtWrite kMapProtExecute)
  then Ret (Z.lor protRead (Z.lor protWrite protExecute))
  else if (p =? Z.lor kMapProtRead kMapProtExecute) || (p =? kMapProtExecute)
  then Ret (Z.lor protRead protExecute)
  else if (p =? Z.lor kMapProtRead kMapProtWrite) || (p =? kMapProtWrite)
  then Ret (Z.lor protRead protWrite)
  else if p =? kMapProtRead then Ret protRead
  else assert! p =? 0; Ret 0.

(** The access bits of the pages of a mapping. *)
Definition page_flags (mappingFlags : Z) : Z :=
  let p := Z.land mappingFlags permissionMask in
  let f := if flag p protWrite then access_write else 0 in
  let f := if flag p protExecute then Z.lor f access_execute else f in
  if flag p protRead then Z.lor f access_read else f.

Definition caching_of (slice : MemorySlice) : CachingMode :=
  if sl_caching slice =? cacheWriteCombine then CM_writeCombine else CM_null.

(** One round of the loop of [protect]; [mapping->protect] updates the mapping in
    place, the tree keeps its shape. *)
Fixpoint update_mapping (t : MappingTree) (m m' : Mapping) : MappingTree :=
  match t with
  | Leaf => Leaf
  | Node l x g r =>
      Node (update_mapping l m m') (if bool_decide (x = m) then m' else x) g (update_mapping r m m')
  end.

Definition protect_one (st : VirtualSpace) (m : Mapping) (mappingFlags : Z) : outcome VirtualSpace :=
  let m' := protect_mapping m mappingFlags in
  let st := set_mappings st (update_mapping (vs_mappings st) m m') in
  assert! is_active m';
  let pageFlags := page_flags (m_flags m') in
  if negb (pageFlags =? 0)
  then Ret (issue_revoke st false
              (RestrictPages (m_address m) (m_length m) pageFlags (caching_of (m_slice m))) m')
  else Ret (issue_revoke st true (UnmapPages (m_address m) (m_length m)) m').

Fixpoint protect_loop (fuel : nat) (st : VirtualSpace) (mappingFlags : Z)
    (it end_ : option Mapping) : outcome VirtualSpace :=
  match fuel with
  | O => Stop OutOfFuel
  | S fuel' =>
      if bool_decide (it = end_) then Ret st else
      m ← deref it;
      let it := rb_successor (vs_mappings st) m in
      st ← protect_one st m mappingFlags;
      protect_loop fuel' st mappingFlags it end_
  end.

Definition protect (st : VirtualSpace) (address size flags : Z) : outcome VirtualSpace :=
  mappingFlags ← prot_flags flags;
  '(st, start, end_) ← split_range st address size;
  protect_loop (S (length (elements (vs_mappings st)))) st mappingFlags start end_.

(** ** Mapping *)

(** The choice of the address in [map]. *)
Definition map_address (st : VirtualSpace) (address length flags : Z)
    : outcome ((Error + Z) * VirtualSpace) :=
  let finish r := '(res, holes) ← r; Ret (res, set_holes st holes) in
  if flag flags kMapFixed then finish (allocateAt (vs_holes st) address length)
  else if flag flags kMapFixedNoReplace then
    if areMappingsInRange (vs_mappings st) address length then Ret (inl alreadyExists, st)
    else finish (allocateAt (vs_holes st) address length)
  else if negb (address =? 0) && negb (areMappingsInRange (vs_mappings st) address length) then
    '(res, holes) ← allocateAt (vs_holes st) address length;
    match res with
    | inr a => Ret (inr a, set_holes st holes)
    | inl _ => finish (allocate (vs_holes st) length flags)
    end
  else finish (allocate (vs_holes st) length flags).

Definition populate (st : VirtualSpace) (m : Mapping) (flags : Z) : VirtualSpace :=
  if flag flags kMapPopulate then
    if is_active m then
      let pageFlags := page_flags (m_flags m) in
      if negb (pageFlags =? 0)
      then issue_revoke st true
             (MapPresentPages (m_address m) (sl_view (m_slice m)) (m_viewOffset m) (m_length m)
                pageFlags (caching_of (m_slice m))) m
      else st
    else st
  else st.

Definition map (st : VirtualSpace) (slice : MemorySlice) (address offset length flags : Z)
    : outcome ((Error + Z) * VirtualSpace) :=
  assert! negb (length =? 0);
  assert! length mod kPageSize =? 0;
  if 2 ^ 64 <=? offset + length then Ret (inl illegalArgs, st)
  else if sl_length slice <? offset + length then Ret (inl bufferTooSmall, st)
  else
    st ← (if flag flags kMapFixed then unmap st address length else Ret st);
    assert! address mod kPageSize =? 0;
    '(res, st) ← map_address st address length flags;
    match res with
    | inl e => Ret (inl e, st)
    | inr actualAddress =>
        mappingFlags ← prot_flags flags;
        let mappingFlags :=
          if flag flags kMapDontRequireBacking then Z.lor mappingFlags dontRequireBacking
          else mappingFlags in
        m ← new_mapping actualAddress length slice (u64 (sl_offset slice + offset)) mappingFlags;
        let m := set_state m ms_active in
        let st := set_mappings st (rb_insert m (vs_mappings st)) in
        Ret (inr actualAddress, populate st m flags)
    end.
End operations.

(** ** Meaning of the mappings *)

(** What an address means: an offset in a slice, with flags. *)
Definition target : Type := MemorySlice * Z * Z.
Definition meaning (m : Mapping) (a : Z) : target :=
  (m_slice m, m_viewOffset m + (a - m_address m), m_flags m).
Definition maps (l : list Mapping) (a : Z) (v : target) : Prop :=
  ∃ m, m ∈ l ∧ covers m a ∧ v = meaning m a.

Record mapping_ok (m : Mapping) : Prop := {
  mo_address : 0 ≤ m_address m;
  mo_length : 0 < m_length m;
  mo_end : m_address m + m_length m < 2 ^ 64;
  mo_state : m_state m = ms_active;
  mo_slice : 0 ≤ sl_offset (m_slice m) ≤ m_viewOffset m;
  mo_view : m_viewOffset m + m_length m ≤ sl_offset (m_slice m) + sl_length (m_slice m);
  mo_slice_end : sl_offset (m_slice m) + sl_length (m_slice m) < 2 ^ 64;
}.

Definition mappings_ok (t : MappingTree) : Prop :=
  ordered (elements t) ∧ Forall mapping_ok (elements t).

Lemma maps_app l1 l2 a v : maps (l1 ++ l2) a v ↔ maps l1 a v ∨ maps l2 a v.
Proof. unfold maps. setoid_rewrite elem_of_app. naive_solver. Qed.
Lemma maps_cons m l a v : maps (m :: l) a v ↔ (covers m a ∧ v = meaning m a) ∨ maps l a v.
Proof. unfold maps. setoid_rewrite elem_of_cons. naive_solver. Qed.
Lemma maps_nil a v : ¬ maps [] a v.
Proof. intros (m & Hm & _). by apply elem_of_nil in Hm. Qed.

(** The mappings define a partial function. *)
Lemma maps_functional l a v w : ordered l → maps l a v → maps l a w → v = w.
Proof.
  intros HO (m & Hm & Hc & ->) (m' & Hm' & Hc' & ->).
  by rewrite (ordered_unique l m m' a HO).
Qed.

Lemma maps_covered l a : covered l a ↔ ∃ v, maps l a v.
Proof.
  split.
  - intros (m & Hm & Hc). exists (meaning m a). by exists m.
  - intros (v & m & Hm & Hc & _). by exists m.
Qed.

(** *** Parts of a mapping *)
Definition left_part (m : Mapping) (at_ : Z) : Mapping :=
  MkMapping (m_address m) (at_ - m_address m) (m_slice m) (m_viewOffset m) (m_flags m) ms_active.
Definition right_part (m : Mapping) (at_ : Z) : Mapping :=
  MkMapping at_ (m_length m - (at_ - m_address m)) (m_slice m)
    (m_viewOffset m + (at_ - m_address m)) (m_flags m) ms_active.

Lemma parts_ok m at_ :
  mapping_ok m → m_address m < at_ < m_address m + m_length m →
  mapping_ok (left_part m at_) ∧ mapping_ok (right_part m at_) ∧
  ∀ a v, maps [left_part m at_; right_part m at_] a v ↔ maps [m] a v.
Proof.
  intros [] Hat. split; [split; simpl; done || lia|]. split; [split; simpl; done || lia|].
  intros a v. rewrite !maps_cons. unfold covers, ext_hi, meaning. simpl.
  pose proof (maps_nil a v). split.
  - intros [[? ->]|[[? ->]|?]]; [..|done]; left; split; try lia; f_equal; f_equal; lia.
  - intros [[? ->]|?]; [|done]. destruct (Z.lt_ge_cases a at_).
    + left. split; [lia|done].
    + right. left. split; [lia|]. f_equal; f_equal; lia.
Qed.

Lemma maps_parts l1 m l2 at_ a v :
  mapping_ok m → m_address m < at_ < m_address m + m_length m →
  maps (l1 ++ left_part m at_ :: right_part m at_ :: l2) a v ↔ maps (l1 ++ m :: l2) a v.
Proof.
  intros Hm Hat. destruct (parts_ok m at_ Hm Hat) as (_ & _ & H).
  change (left_part m at_ :: right_part m at_ :: l2) with ([left_part m at_; right_part m at_] ++ l2).
  change (m :: l2) with ([m] ++ l2). rewrite !maps_app, H. done.
Qed.

Section splitting.
Context `{!RbTree Mapping}.
Implicit Types (t : MappingTree) (m : Mapping) (A B C rest : list Mapping).

Lemma new_mapping_Ret a n s o f :
  sl_offset s ≤ o → 0 ≤ sl_offset s → 0 ≤ o + n ≤ sl_offset s + sl_length s →
  sl_offset s + sl_length s < 2 ^ 64 →
  new_mapping a n s o f = Ret (MkMapping a n s o f ms_null).
Proof.
  intros. unfold new_mapping. rewrite assert_bind by (by apply Z.leb_le).
  rewrite !u64_small by lia. by rewrite assert_bind by (apply Z.leb_le; lia).
Qed.

Lemma split_mapping_spec t l1 m l2 at_ :
  elements t = l1 ++ m :: l2 → mappings_ok t →
  m_address m < at_ < m_address m + m_length m →
  ∃ t', split_mapping t m at_ = Ret (t', left_part m at_, right_part m at_) ∧
    elements t' = l1 ++ left_part m at_ :: right_part m at_ :: l2 ∧ mappings_ok t'.
Proof.
  intros E [HO HM] Hat.
  assert (mapping_ok m) as Hm.
  { apply (proj1 (list.Forall_forall _ _) HM). rewrite E. apply elem_of_app. right. by left. }
  destruct (parts_ok m at_ Hm Hat) as (HL & HR & _). pose proof Hm as [].
  unfold split_mapping, is_active. rewrite assert_bind by (by apply bool_decide_eq_true).
  usmall. rewrite !new_mapping_Ret by lia. cbn.
  exists (rb_insert (right_part m at_) (rb_insert (left_part m at_) (rb_remove m t))).
  split; [done|]. pose proof (remove_from l1 l2 t m E HO) as E1. rewrite E in HO, HM.
  assert (ordered (l1 ++ [left_part m at_] ++ l2)) as HO1.
  { apply (ordered_replace _ _ _ m HO).
    - apply ordered_cons. simpl. split_and!; [lia| |apply ordered_nil]. intros y Hy. by apply elem_of_nil in Hy.
    - intros y ->%list_elem_of_singleton. unfold ext_hi. simpl. lia. }
  assert (ordered (l1 ++ [left_part m at_; right_part m at_] ++ l2)) as HO2.
  { apply (ordered_replace _ _ _ m HO).
    - rewrite !ordered_cons. unfold ext_hi. simpl. split_and!; [lia| |lia| |apply ordered_nil].
      + intros y ->%list_elem_of_singleton. simpl. lia.
      + intros y Hy. by apply elem_of_nil in Hy.
    - intros y. rewrite !elem_of_cons, elem_of_nil. unfold ext_hi. intros [->|[->|[]]]; simpl; lia. }
  assert (elements (rb_insert (right_part m at_) (rb_insert (left_part m at_) (rb_remove m t)))
    = l1 ++ left_part m at_ :: right_part m at_ :: l2) as E2.
  { pose proof (insert_at l1 l2 _ (left_part m at_) E1 HO1) as E2.
    change (l1 ++ left_part m at_ :: right_part m at_ :: l2)
      with (l1 ++ [left_part m at_] ++ right_part m at_ :: l2).
    rewrite app_assoc. apply insert_at; [by rewrite E2, <-app_assoc|by rewrite <-app_assoc]. }
  split; [done|]. split; rewrite E2; [done|].
  apply Forall_app in HM as [? [_ ?]%list.Forall_cons]. apply Forall_app. rewrite !list.Forall_cons. done.
Qed.

(** *** The loop of [_splitMappings] *)
Section loop.
Context (address size : Z) (Ha : 0 ≤ address) (Hs : 0 < size) (Hend : address + size < 2 ^ 64).

(** [A] lies below the range, [B] inside and [C] above; [start] and [end_]
    delimit [B]. *)
Definition inside (m : Mapping) : Prop :=
  address ≤ m_address m ∧ m_address m + m_length m ≤ address + size.
Record delimited (t : MappingTree) A B C (start end_ : option Mapping) : Prop := {
  de_elements : elements t = A ++ B ++ C;
  de_below m : m ∈ A → m_address m + m_length m ≤ address;
  de_inside m : m ∈ B → inside m;
  de_above m : m ∈ C → address + size ≤ m_address m;
  de_range : (B = [] ∧ start = end_) ∨ (∃ b B', B = b :: B' ∧ start = Some b ∧ end_ = head C);
}.

Lemma mappings_at t l1 m l2 : mappings_ok t → elements t = l1 ++ m :: l2 →
  mapping_ok m ∧ (∀ x, x ∈ l1 → m_address x + m_length x ≤ m_address m) ∧
  (∀ x, x ∈ l2 → m_address m + m_length m ≤ m_address x).
Proof.
  intros [HO HM] E. rewrite E in HO, HM.
  apply Forall_app in HM as [_ [Hm _]%list.Forall_cons].
  apply ordered_app in HO as (_ & HO & H12). apply ordered_cons in HO as (_ & H2 & _).
  split_and!; [done| |]; intros x Hx.
  - apply (H12 x m); [done|by left].
  - by apply (H2 x).
Qed.

(** Inside of the range: [B] is not empty and [start] points to its head. *)
Lemma split_inside fuel : ∀ t A b B rest,
  mappings_ok t → elements t = A ++ (b :: B) ++ rest → (length rest + 2 ≤ fuel)%nat →
  (∀ x, x ∈ A → m_address x + m_length x ≤ address) → (∀ x, x ∈ b :: B → inside x) →
  ∃ t' B' C end_, split_loop fuel t address size (head rest) (Some b) = Ret (t', Some b, end_) ∧
    mappings_ok t' ∧ delimited t' A (b :: B') C (Some b) end_ ∧
    ∀ a v, maps (elements t') a v ↔ maps (elements t) a v.
Proof.
  induction fuel as [|fuel IH]; intros t A b B rest Hok E Hf HA HB; [lia|].
  cbn [split_loop]. destruct rest as [|m rest]; cbn [head].
  { exists t, B, [], None. split_and!; [done..| |done]. split; try done.
    - intros m Hm. by apply elem_of_nil in Hm.
    - right. by exists b, B. }
  assert (elements t = (A ++ b :: B) ++ m :: rest) as E' by (by rewrite E, <-app_assoc).
  destruct (mappings_at t _ m rest Hok E') as (Hm & Hlow & Hhigh). pose proof Hm as [].
  assert (address < m_address m) as Hma.
  { pose proof (Hlow b ltac:(set_solver)). destruct (HB b ltac:(by left)).
    destruct (mappings_at t A b (B ++ m :: rest) Hok E) as ([] & _). lia. }
  rewrite !u64_small by lia. rewrite (proj2 (Z.leb_gt _ _)) by lia.
  destruct (Z.leb_spec (address + size) (m_address m)) as [Habove|Hbelow].
  { exists t, B, (m :: rest), (Some m). split_and!; [done..| |done]. split; try done.
    - intros x [->|Hx]%elem_of_cons; [done|]. specialize (Hhigh x Hx). lia.
    - right. by exists b, B. }
  rewrite (proj2 (Z.leb_le _ _)) by lia. rewrite (proj2 (Z.ltb_lt _ _)) by lia. cbn [andb].
  destruct (Z.ltb_spec (address + size) (m_address m + m_length m)) as [Hcut|Hin].
  - destruct (split_mapping_spec t _ m rest (address + size) E' Hok) as (t' & -> & E2 & Hok2); [lia|]. cbn.
    rewrite bool_decide_false.
    2:{ intros ->. pose proof (Hlow m ltac:(set_solver)). lia. }
    destruct fuel as [|fuel']; [simpl in Hf; lia|]. cbn [split_loop].
    simpl. rewrite !u64_small by lia. rewrite (proj2 (Z.leb_gt _ _)) by lia.
    rewrite Z.leb_refl.
    exists t', (B ++ [left_part m (address + size)]), (right_part m (address + size) :: rest),
      (Some (right_part m (address + size))).
    split_and!; [done|done| |].
    + split; [by rewrite E2, <-!app_assoc; simpl; rewrite <-app_assoc|done| | |right; by eexists _, _].
      * intros x. rewrite elem_of_cons, elem_of_app, list_elem_of_singleton.
        intros [->|[Hx| ->]]; [by apply HB; left|by apply HB; right|]. split; simpl; lia.
      * intros x [->|Hx]%elem_of_cons; [simpl; lia|]. specialize (Hhigh x Hx). lia.
    + intros a v. rewrite E2, E'. apply maps_parts; [done|lia].
  - rewrite (successor_split t _ rest m E') by apply Hok.
    destruct (IH t A b (B ++ [m]) rest Hok) as (t' & B' & C & end_ & Hrun & Hok' & Hd & Hmaps).
    { rewrite E. simpl. by rewrite <-app_assoc. } { simpl in Hf. lia. } { done. }
    { intros x. rewrite elem_of_cons, elem_of_app, list_elem_of_singleton.
      intros [->|[Hx| ->]]; [by apply HB; left|by apply HB; right|]. split; lia. }
    exists t', B', C, end_. done.
Qed.

(** At the start of the range: all that remains starts at or above [address]. *)
Lemma split_enter fuel t A rest start :
  mappings_ok t → elements t = A ++ rest → (length rest + 3 ≤ fuel)%nat →
  (∀ x, x ∈ A → m_address x + m_length x ≤ address) →
  (∀ x, x ∈ rest → address ≤ m_address x) → start = None ∨ start = head rest →
  ∃ t' B C start' end_, split_loop fuel t address size (head rest) start = Ret (t', start', end_) ∧
    mappings_ok t' ∧ delimited t' A B C start' end_ ∧
    ∀ a v, maps (elements t') a v ↔ maps (elements t) a v.
Proof.
  intros Hok E Hf HA Hr Hst. destruct fuel as [|fuel]; [lia|]. cbn [split_loop].
  destruct rest as [|m rest]; cbn [head].
  { exists t, [], [], start, None. split_and!; [done..| |done]. split; try done.
    - intros x Hx. by apply elem_of_nil in Hx.
    - intros x Hx. by apply elem_of_nil in Hx.
    - left. split; [done|]. by destruct Hst as [->| ->]. }
  destruct (mappings_at t A m rest Hok E) as (Hm & Hlow & Hhigh). pose proof Hm as [].
  pose proof (Hr m ltac:(by left)) as Hma.
  rewrite !u64_small by lia. rewrite (proj2 (Z.leb_gt _ _)) by lia.
  destruct (Z.leb_spec (address + size) (m_address m)) as [Habove|Hbelow].
  { exists t, [], (m :: rest), start, (match start with Some _ => Some m | None => None end).
    split_and!; [done..| |done]. split; try done.
    - intros x Hx. by apply elem_of_nil in Hx.
    - intros x [->|Hx]%elem_of_cons; [done|]. specialize (Hhigh x Hx). lia.
    - left. split; [done|]. by destruct Hst as [->| ->]. }
  assert (match start with Some s => s | None => m end = m) as -> by (by destruct Hst as [->| ->]).
  rewrite (proj2 (Z.leb_le _ _)) by lia. rewrite (proj2 (Z.ltb_lt _ _)) by lia. cbn [andb].
  destruct (Z.ltb_spec (address + size) (m_address m + m_length m)) as [Hcut|Hin].
  - destruct (split_mapping_spec t A m rest (address + size) E Hok) as (t' & -> & E2 & Hok2); [lia|]. cbn.
    rewrite bool_decide_true, (proj2 (Z.ltb_lt _ _)) by (done || lia).
    destruct fuel as [|fuel']; [simpl in Hf; lia|]. cbn [split_loop].
    simpl. rewrite !u64_small by lia. rewrite (proj2 (Z.leb_gt _ _)) by lia. rewrite Z.leb_refl.
    exists t', [left_part m (address + size)], (right_part m (address + size) :: rest),
      (Some (left_part m (address + size))), (Some (right_part m (address + size))).
    split_and!; [done|done| |].
    + split; [done|done| | |right; by eexists _, _].
      * intros x ->%list_elem_of_singleton. split; simpl; lia.
      * intros x [->|Hx]%elem_of_cons; [simpl; lia|]. specialize (Hhigh x Hx). lia.
    + intros a v. rewrite E2, E. apply maps_parts; [done|lia].
  - rewrite (successor_split t A rest m E) by apply Hok.
    destruct (split_inside fuel t A m [] rest Hok E) as (t' & B' & C & end_ & Hrun & Hok' & Hd & Hmaps).
    { simpl in Hf. lia. } { done. } { intros x ->%list_elem_of_singleton. split; lia. }
    exists t', (m :: B'), C, (Some m), end_. done.
Qed.

(** Below the range. *)
Lemma split_below fuel : ∀ t A rest,
  mappings_ok t → elements t = A ++ rest → (length rest + 4 ≤ fuel)%nat →
  (∀ x, x ∈ A → m_address x + m_length x ≤ address) →
  ∀ start, start = None ∨ start = head rest →
  ∃ t' A' B C start' end_, split_loop fuel t address size (head rest) start = Ret (t', start', end_) ∧
    mappings_ok t' ∧ delimited t' A' B C start' end_ ∧
    ∀ a v, maps (elements t') a v ↔ maps (elements t) a v.
Proof.
  induction fuel as [|fuel IH]; intros t A rest Hok E Hf HA start Hst; [lia|].
  assert ((∀ x, x ∈ rest → address ≤ m_address x) →
    ∃ t' A' B C start' end_, split_loop (S fuel) t address size (head rest) start = Ret (t', start', end_) ∧
      mappings_ok t' ∧ delimited t' A' B C start' end_ ∧
      ∀ a v, maps (elements t') a v ↔ maps (elements t) a v) as Henter.
  { intros Hr. destruct (split_enter (S fuel) t A rest start Hok E) as (t' & B & C & s & e & ?); [lia|done..|].
    by exists t', A, B, C, s, e. }
  destruct rest as [|m rest].
  { apply Henter. intros x Hx. by apply elem_of_nil in Hx. }
  destruct (mappings_at t A m rest Hok E) as (Hm & Hlow & Hhigh). pose proof Hm as [].
  destruct (Z.le_gt_cases address (m_address m)) as [Hge|Hlt].
  { apply Henter. intros x [->|Hx]%elem_of_cons; [done|]. specialize (Hhigh x Hx). lia. }
  clear Henter. cbn [split_loop head]. rewrite (u64_small (m_address m + _)) by lia.
  destruct (Z.leb_spec (m_address m + m_length m) address) as [Hbelow|Hover].
  - rewrite (successor_split t A rest m E) by apply Hok.
    apply (IH t (A ++ [m]) rest Hok); [by rewrite E, <-app_assoc|simpl in Hf; lia| |by right].
    intros x [Hx| ->%list_elem_of_singleton]%elem_of_app; [by apply HA|done].
  - rewrite (u64_small (address + size)) by lia. rewrite (proj2 (Z.leb_gt _ _)) by lia.
    assert (match start with Some s => s | None => m end = m) as -> by (by destruct Hst as [->| ->]).
    rewrite (proj2 (Z.leb_gt _ _)) by lia. rewrite !(proj2 (Z.ltb_lt _ _)) by lia. cbn [andb].
    destruct (split_mapping_spec t A m rest address E Hok) as (t' & -> & E2 & Hok2); [lia|]. cbn.
    rewrite bool_decide_true, Z.ltb_irrefl by done.
    assert (elements t' = (A ++ [left_part m address]) ++ right_part m address :: rest) as E3
      by (by rewrite E2, <-app_assoc).
    destruct (split_enter fuel t' (A ++ [left_part m address]) (right_part m address :: rest)
      (Some (right_part m address)) Hok2 E3) as (t'' & B & C & s & e & Hrun & Hok3 & Hd & Hm3).
    + simpl in Hf |- *. lia.
    + intros x [Hx| ->%list_elem_of_singleton]%elem_of_app; [by apply HA|simpl; lia].
    + intros x [->|Hx]%elem_of_cons; [simpl; lia|]. specialize (Hhigh x Hx). lia.
    + by right.
    + exists t'', (A ++ [left_part m address]), B, C, s, e. split_and!; [done..|].
      intros a v. rewrite Hm3, E2, E. apply maps_parts; [done|lia].
Qed.

Lemma splitMappings_spec t : mappings_ok t →
  ∃ t' A B C start end_, splitMappings t address size = Ret (t', start, end_) ∧
    mappings_ok t' ∧ delimited t' A B C start end_ ∧
    ∀ a v, maps (elements t') a v ↔ maps (elements t) a v.
Proof.
  intros Hok. apply (split_below _ t [] (elements t)); [done|done|lia| |by left].
  intros x Hx. by apply elem_of_nil in Hx.
Qed.
End loop.
End splitting.

(** ** The invariant of an address space

    The holes and the mappings partition the range of the address space. *)
Record space_ok (base limit : Z) (st : VirtualSpace) : Prop := {
  so_holes : holes_ok (vs_holes st);
  so_mappings : mappings_ok (vs_mappings st);
  so_cover a : base ≤ a < limit ↔ free_at (vs_holes st) a ∨ covered (elements (vs_mappings st)) a;
  so_disjoint a : free_at (vs_holes st) a → ¬ covered (elements (vs_mappings st)) a;
}.

(** What an address space maps. *)
Definition view (st : VirtualSpace) (a : Z) (v : target) : Prop :=
  maps (elements (vs_mappings st)) a v.
Definition in_range (address size a : Z) : Prop := address ≤ a < address + size.

Section spaces.
Context `{!RbTree Hole, !RbTree Mapping, !VirtualOperations}.
Implicit Types (st : VirtualSpace) (A B C : list Mapping) (m : Mapping).

Lemma issue_revoke_spec st notify op m :
  let st' := issue_revoke st notify op m in
  vs_holes st' = vs_holes st ∧ vs_mappings st' = vs_mappings st ∧
  ∃ ops, vs_log st' = vs_log st ++ op :: ops ∧
    (anyRevoked (op_affected (vs_log st) op) = true → Shootdown (m_address m) (m_length m) ∈ ops).
Proof.
  unfold issue_revoke, issue. destruct notify, (anyRevoked _) eqn:E; simpl.
  all: split_and!; try done.
  all: eexists; rewrite <-?app_assoc; simpl; split; [reflexivity|]; try done; intros _; left.
Qed.

Lemma covered_maps l1 m l2 a :
  ordered (l1 ++ m :: l2) → covered (l1 ++ m :: l2) a ↔ covers m a ∨ covered (l1 ++ l2) a.
Proof. intros _. rewrite !covered_app, covered_cons. tauto. Qed.

(** One mapping is turned into a hole. *)
Lemma unmap_one_spec base limit st l1 m l2 :
  space_ok base limit st → vs_holes st ≠ Leaf → elements (vs_mappings st) = l1 ++ m :: l2 →
  ∃ st' ops, unmap_one st m = Ret st' ∧ space_ok base limit st' ∧ vs_holes st' ≠ Leaf ∧
    elements (vs_mappings st') = l1 ++ l2 ∧
    vs_log st' = vs_log st ++ UnmapPages (m_address m) (m_length m) :: ops.
Proof.
  intros [HH [HO HM] HC HD] Hne E.
  assert (mapping_ok m) as Hm.
  { apply (proj1 (list.Forall_forall _ _) HM). rewrite E. apply elem_of_app. right. by left. }
  pose proof Hm as []. unfold unmap_one. rewrite assert_bind by (by apply bool_decide_eq_true).
  destruct (issue_revoke_spec st true (UnmapPages (m_address m) (m_length m)) m)
    as (Eh & Em & ops & Elog & _).
  set (st1 := issue_revoke st true (UnmapPages (m_address m) (m_length m)) m) in *. clearbody st1.
  assert (∀ a, in_range (m_address m) (m_length m) a ↔ covers m a) as Hcov by done.
  destruct (coalesce_spec (vs_holes st1) (m_address m) (m_length m)) as (t' & Ht' & [HH' Hf]); rewrite ?Eh; try done.
  { intros a Ha Hfree. apply (HD a Hfree). exists m. split; [|done]. rewrite E. apply elem_of_app. right. by left. }
  change (vs_holes (set_mappings st1 _)) with (vs_holes st1). rewrite Ht'. cbn. eexists _, ops. split; [done|]. simpl. rewrite Em.
  pose proof (remove_from l1 l2 _ m E HO) as E1. rewrite E in HO, HM.
  assert (ordered (l1 ++ l2)) as HO'.
  { change (l1 ++ l2) with (l1 ++ [] ++ l2). apply (ordered_replace l1 l2 [] m HO); [apply ordered_nil|].
    intros y Hy. by apply elem_of_nil in Hy. }
  assert (∀ a, covered (elements (vs_mappings st)) a ↔ covers m a ∨ covered (l1 ++ l2) a) as Hsplit.
  { intros a. rewrite E. by apply covered_maps. }
  split_and!; [|intros ->|done|done].
  - rewrite Eh in Hf. split; simpl; rewrite ?Em; [done| |..].
    + split; rewrite E1; [done|]. apply Forall_app in HM as [? [_ ?]%list.Forall_cons]. by apply Forall_app.
    + intros a. rewrite E1, HC, Hf, Hsplit, <-(Hcov a). unfold in_range. tauto.
    + intros a. rewrite E1, Hf. intros [Hfree|Hin] Hc; [apply (HD a Hfree), Hsplit; by right|].
      destruct Hc as (x & Hx & Hcx). apply ordered_app in HO as (_ & HO & H12).
      apply ordered_cons in HO as (_ & H2 & _). unfold covers in *.
      apply elem_of_app in Hx as [Hx|Hx].
      * specialize (H12 x m Hx ltac:(by left)). simpl in *. lia.
      * specialize (H2 x Hx). unfold ext_hi in H2. simpl in *. lia.
  - destruct (proj2 (Hf (m_address m)) ltac:(right; lia)) as (x & Hx & _). by apply elem_of_nil in Hx.
Qed.

(** The loop of [_unmapMappings] visits exactly the mappings of the range. *)
Lemma unmap_loop_spec base limit address size fuel : ∀ st A B C,
  0 ≤ address → address + size < 2 ^ 64 → 0 < size →
  space_ok base limit st → vs_holes st ≠ Leaf → elements (vs_mappings st) = A ++ B ++ C →
  (∀ m, m ∈ B → inside address size m) → (length B < fuel)%nat →
  ∃ st' ops, unmap_loop fuel st address size (head (B ++ C)) (head C) = Ret st' ∧
    space_ok base limit st' ∧ elements (vs_mappings st') = A ++ C ∧
    vs_log st' = vs_log st ++ ops ∧
    ∀ m, m ∈ B → UnmapPages (m_address m) (m_length m) ∈ ops.
Proof.
  induction fuel as [|fuel IH]; intros st A B C Ha Hend Hs HS Hne E HB Hf; [lia|].
  cbn [unmap_loop]. destruct B as [|m B]; simpl.
  { rewrite bool_decide_true by done. exists st, []. rewrite app_nil_r.
    split_and!; [done..|]. intros m Hm. by apply elem_of_nil in Hm. }
  pose proof (so_mappings _ _ _ HS) as Hok. simpl in E.
  destruct (mappings_at _ A m (B ++ C) Hok E) as (Hm & Hlow & Hhigh). pose proof Hm as [].
  destruct (HB m ltac:(by left)) as [Hi1 Hi2].
  rewrite bool_decide_false.
  2:{ destruct C as [|c C]; [done|]. intros [= ->]. pose proof (Hhigh c ltac:(set_solver)). lia. }
  cbn. rewrite (successor_split _ A (B ++ C) m E) by apply Hok.
  rewrite !u64_small by lia. rewrite !(proj2 (Z.leb_le _ _)) by lia. cbn [andb].
  destruct (unmap_one_spec base limit st A m (B ++ C) HS Hne E) as (st1 & ops1 & -> & HS1 & Hne1 & E1 & L1).
  cbn. destruct (IH st1 A B C) as (st2 & ops2 & -> & HS2 & E2 & L2 & Hin); try done.
  { intros x Hx. apply HB. by right. } { simpl in Hf. lia. }
  exists st2, (UnmapPages (m_address m) (m_length m) :: ops1 ++ ops2). split_and!; [done..| |].
  - by rewrite L2, L1, <-app_assoc.
  - intros x [->|Hx]%elem_of_cons; [by left|]. right. apply elem_of_app. right. by apply Hin.
Qed.

Lemma unmap_loop_empty fuel st address size it :
  (0 < fuel)%nat → unmap_loop fuel st address size it it = Ret st.
Proof. destruct fuel; [lia|]. intros _. cbn. by rewrite bool_decide_true. Qed.

(** The state after [_splitMappings] of [unmap], [map] and [protect]. *)
Lemma split_range_spec base limit st address size :
  space_ok base limit st → 0 ≤ address → 0 < size → address + size < 2 ^ 64 →
  ∃ st' A B C start end_, split_range st address size = Ret (st', start, end_) ∧
    space_ok base limit st' ∧ delimited address size (vs_mappings st') A B C start end_ ∧
    vs_holes st' = vs_holes st ∧ vs_log st' = vs_log st ∧ ∀ a v, view st' a v ↔ view st a v.
Proof.
  intros [HH HM HC HD] Ha Hs Hend.
  destruct (splitMappings_spec address size Ha Hs Hend (vs_mappings st) HM)
    as (t' & A & B & C & start & end_ & Hrun & Hok & Hd & Hmaps).
  unfold split_range. rewrite Hrun. cbn. rewrite assert_bind.
  2:{ destruct (de_range _ _ _ _ _ _ _ _ Hd) as [[_ ->]|(b & B' & _ & -> & _)]; by destruct end_. }
  eexists _, A, B, C, start, end_. split; [done|]. simpl.
  assert (∀ a, covered (elements t') a ↔ covered (elements (vs_mappings st)) a) as Hcov.
  { intros a. rewrite !maps_covered. by setoid_rewrite Hmaps. }
  split_and!; [|done..]. split; simpl; [done..| |]; intros a; rewrite Hcov; [apply HC|apply HD].
Qed.

(** What is left when the mappings inside of the range are gone. *)
Lemma delimited_outside address size t A B C start end_ a v :
  mappings_ok t → delimited address size t A B C start end_ → 0 < size →
  maps (A ++ C) a v ↔ maps (elements t) a v ∧ ¬ in_range address size a.
Proof.
  intros [HO HM] [E HA HB HC _] Hs. rewrite E in *. rewrite !maps_app. unfold in_range. split.
  - intros [(m & Hm & Hc & ->)|(m & Hm & Hc & ->)].
    + split; [left; by exists m|]. specialize (HA m Hm). destruct Hc. unfold ext_hi in *. simpl in *. lia.
    + split; [right; right; by exists m|]. specialize (HC m Hm). destruct Hc. simpl in *. lia.
  - intros [[Hx|[(m & Hm & [Hc1 Hc2] & _)|Hx]] Hr]; [by left| |by right].
    destruct (HB m Hm). unfold ext_hi in Hc2. simpl in *. lia.
Qed.

Lemma unmapMappings_spec base limit st address size A B C start end_ :
  space_ok base limit st → 0 ≤ address → 0 < size → address + size < 2 ^ 64 →
  delimited address size (vs_mappings st) A B C start end_ →
  vs_holes st ≠ Leaf ∨ (∀ a v, view st a v → ¬ in_range address size a) →
  ∃ st' ops, unmapMappings st address size start end_ = Ret st' ∧ space_ok base limit st' ∧
    (∀ a v, view st' a v ↔ view st a v ∧ ¬ in_range address size a) ∧
    vs_log st' = vs_log st ++ ops ∧
    ∀ m, m ∈ B → UnmapPages (m_address m) (m_length m) ∈ ops.
Proof.
  intros HS Ha Hs Hend Hd Hor. pose proof (so_mappings _ _ _ HS) as Hok.
  pose proof (λ a v, delimited_outside _ _ _ _ _ _ _ _ a v Hok Hd Hs) as Hout.
  unfold unmapMappings. destruct (de_range _ _ _ _ _ _ _ _ Hd) as [[-> ->]|(b & B' & -> & -> & ->)].
  - rewrite unmap_loop_empty by lia. exists st, []. rewrite app_nil_r. split_and!; [done..| |done|].
    + intros a v. unfold view. rewrite <-Hout. rewrite (de_elements _ _ _ _ _ _ _ _ Hd). done.
    + intros m Hm. by apply elem_of_nil in Hm.
  - assert (vs_holes st ≠ Leaf) as Hne.
    { destruct Hor as [?|Hno]; [done|]. exfalso. pose proof Hd as [E _ HB _ _].
      destruct (mappings_at _ A b (B' ++ C) Hok E) as ([] & _).
      destruct (HB b ltac:(by left)). apply (Hno (m_address b) (meaning b (m_address b))).
      - exists b. split_and!; [rewrite E; set_solver| |done]. unfold covers, ext_hi. simpl. lia.
      - unfold in_range. lia. }
    change (Some b) with (head ((b :: B') ++ C)).
    destruct (unmap_loop_spec base limit address size (S (length (elements (vs_mappings st)))) st A (b :: B') C)
      as (st' & ops & Hrun & HS' & E' & L & Hin); try done.
    { apply Hd. } { apply Hd. } { rewrite (de_elements _ _ _ _ _ _ _ _ Hd), !length_app. lia. }
    exists st', ops. split_and!; [done..| |done|done]. intros a v. unfold view. by rewrite E', Hout.
Qed.

(** ** Lookup *)
Lemma findMapping_spec t a : mappings_ok t →
  match findMapping t a with
  | Some m => m ∈ elements t ∧ covers m a
  | None => ¬ covered (elements t) a
  end.
Proof.
  intros [HO HM]. induction t as [|l IHl m g r IHr]; [apply covered_nil|].
  cbn [findMapping elements] in *. apply Forall_app in HM as [Ml [[] Mr]%list.Forall_cons].
  apply ordered_app in HO as (H1 & (Hm & H2 & HO2)%ordered_cons & H12).
  specialize (IHl H1 Ml). specialize (IHr HO2 Mr). rewrite u64_small by lia. case_Z; [|case_Z].
  - destruct (findMapping l a); [set_solver|]. rewrite covered_app, covered_cons.
    intros [Hc|[[? _]|(x & Hx & [? _])]]; [done|simpl in *; lia|].
    specialize (H2 x Hx). unfold ext_hi in *. simpl in *. lia.
  - destruct (findMapping r a); [set_solver|]. rewrite covered_app, covered_cons.
    intros [(x & Hx & [_ ?])|[[_ ?]|Hc]]; [|unfold ext_hi in *; simpl in *; lia|done].
    specialize (H12 x m Hx ltac:(by left)). simpl in *. lia.
  - split; [set_solver|]. split; unfold ext_hi; simpl; lia.
Qed.

Lemma areMappingsInRange_spec t address size : mappings_ok t →
  0 ≤ address → 0 < size → address + size < 2 ^ 64 →
  areMappingsInRange t address size = true ↔ ∃ a, in_range address size a ∧ covered (elements t) a.
Proof.
  intros [HO HM] Ha Hs Hend. unfold areMappingsInRange. rewrite u64_small by lia.
  induction t as [|l IHl m g r IHr].
  { split; [done|]. intros (a & _ & Hc). by apply covered_nil in Hc. }
  cbn [areMappingsInRange_walk elements] in *. apply Forall_app in HM as [Ml [[] Mr]%list.Forall_cons].
  apply ordered_app in HO as (H1 & (Hm & H2 & HO2)%ordered_cons & H12).
  specialize (IHl H1 Ml). specialize (IHr HO2 Mr). rewrite u64_small by lia. unfold in_range in *.
  destruct (Z.ltb_spec address (m_address m + m_length m)), (Z.ltb_spec (m_address m) (address + size)); cbn [andb].
  { split; [|done]. intros _. exists (Z.max address (m_address m)). split; [lia|].
    exists m. split; [set_solver|]. unfold covers, ext_hi. simpl. lia. }
  all: case_Z; [|case_Z]; try lia.
  - rewrite IHl. setoid_rewrite covered_app. setoid_rewrite covered_cons. split; [naive_solver|].
    intros (a & Hr & [?|[[? ?]|(x & Hx & [? ?])]]); [by exists a|simpl in *; lia|].
    specialize (H2 x Hx). unfold ext_hi in *. simpl in *. lia.
  - rewrite IHr. setoid_rewrite covered_app. setoid_rewrite covered_cons. split; [naive_solver|].
    intros (a & Hr & [(x & Hx & [? ?])|[[? ?]|?]]); [|unfold ext_hi in *; simpl in *; lia|by exists a].
    specialize (H12 x m Hx ltac:(by left)). simpl in *. lia.
Qed.

(** ** Protection *)
Lemma update_mapping_spec t l1 m l2 m' : mappings_ok t → elements t = l1 ++ m :: l2 →
  elements (update_mapping t m m') = l1 ++ m' :: l2.
Proof.
  intros [HO _] E.
  assert (elements (update_mapping t m m') = (λ x, if bool_decide (x = m) then m' else x) <$> elements t) as ->.
  { clear. induction t as [|l IHl x g r IHr]; simpl; [done|]. by rewrite fmap_app, IHl, IHr. }
  rewrite E in HO |- *. apply ordered_app in HO as (HO1 & (Hm & H2 & HO2)%ordered_cons & H12).
  rewrite fmap_app, fmap_cons, bool_decide_true by done.
  assert (∀ l : list Mapping, m ∉ l → (λ x, if bool_decide (x = m) then m' else x) <$> l = l) as Hid.
  { induction l as [|x l IH]; [done|]. intros [Hx Hl]%not_elem_of_cons.
    rewrite fmap_cons, bool_decide_false by done. by rewrite IH. }
  rewrite !Hid; [done|..]; intros Hin.
  - specialize (H2 m Hin). unfold ext_hi in H2. lia.
  - specialize (H12 m m Hin ltac:(by left)). unfold ext_hi in H12. lia.
Qed.

Lemma ordered_same_extent l1 m m' l2 :
  m_address m' = m_address m → m_length m' = m_length m →
  ordered (l1 ++ m :: l2) → ordered (l1 ++ m' :: l2).
Proof.
  intros Ea El. rewrite !ordered_app, !ordered_cons. unfold ext_hi. simpl. rewrite Ea, El.
  intros (HO1 & (Hm & H2 & HO2) & H12). split_and!; try done.
  intros x y Hx [->|Hy]%elem_of_cons; [|apply H12; [done|by right]].
  simpl. rewrite Ea. by apply (H12 x m Hx); left.
Qed.

(** The page table operation for a mapping whose protection changed. *)
Definition protect_op (m : Mapping) : PageOp :=
  if negb (page_flags (m_flags m) =? 0)
  then RestrictPages (m_address m) (m_length m) (page_flags (m_flags m)) (caching_of (m_slice m))
  else UnmapPages (m_address m) (m_length m).

Lemma protect_one_spec base limit st l1 m l2 mf :
  space_ok base limit st → elements (vs_mappings st) = l1 ++ m :: l2 →
  ∃ st' ops, protect_one st m mf = Ret st' ∧ space_ok base limit st' ∧ vs_holes st' = vs_holes st ∧
    elements (vs_mappings st') = l1 ++ protect_mapping m mf :: l2 ∧
    vs_log st' = vs_log st ++ protect_op (protect_mapping m mf) :: ops.
Proof.
  intros HS E. pose proof HS as [HH Hok HC HD]. pose proof Hok as [HO HM].
  destruct (mappings_at _ l1 m l2 Hok E) as (Hm & _ & _). pose proof Hm as [].
  set (m' := protect_mapping m mf).
  set (st1 := set_mappings st (update_mapping (vs_mappings st) m m')).
  assert (elements (vs_mappings st1) = l1 ++ m' :: l2) as E1 by (by apply update_mapping_spec).
  assert (space_ok base limit st1) as HS1.
  { assert (∀ a, covered (l1 ++ m' :: l2) a ↔ covered (elements (vs_mappings st)) a) as Hcov.
    { intros a. rewrite E, !covered_app, !covered_cons. done. }
    split; [done| |intros a; rewrite E1, Hcov; apply HC|intros a; rewrite E1, Hcov; apply HD].
    split; rewrite E1; rewrite E in HO, HM; [by apply (ordered_same_extent l1 m)|].
    apply Forall_app in HM as [? [_ ?]%list.Forall_cons]. apply Forall_app. split; [done|].
    apply list.Forall_cons. split; [|done]. by split. }
  unfold protect_one. fold m'. fold st1. rewrite assert_bind by (by apply bool_decide_eq_true).
  assert (∀ n op, ∃ st' ops, Ret (issue_revoke st1 n op m') = Ret st' ∧ space_ok base limit st' ∧
    vs_holes st' = vs_holes st ∧ elements (vs_mappings st') = l1 ++ m' :: l2 ∧
    vs_log st' = vs_log st ++ op :: ops) as Hrev.
  { intros n op. destruct (issue_revoke_spec st1 n op m') as (Eh & Em & ops & El & _).
    eexists _, ops. split; [done|]. rewrite Em. split_and!; [|done..].
    destruct HS1 as [? ? Hc ?]. split; rewrite ?Eh, ?Em; done. }
  unfold protect_op. fold m'. destruct (negb _); apply Hrev.
Qed.

Lemma protect_loop_spec base limit mf fuel : ∀ st A B C,
  space_ok base limit st → elements (vs_mappings st) = A ++ B ++ C → (length B < fuel)%nat →
  ∃ st' ops, protect_loop fuel st mf (head (B ++ C)) (head C) = Ret st' ∧
    space_ok base limit st' ∧ elements (vs_mappings st') = A ++ ((λ m, protect_mapping m mf) <$> B) ++ C ∧
    vs_log st' = vs_log st ++ ops ∧ ∀ m, m ∈ B → protect_op (protect_mapping m mf) ∈ ops.
Proof.
  induction fuel as [|fuel IH]; intros st A B C HS E Hf; [lia|].
  cbn [protect_loop]. destruct B as [|m B].
  { rewrite bool_decide_true by done. exists st, []. rewrite app_nil_r.
    split_and!; [done..|]. intros m Hm. by apply elem_of_nil in Hm. }
  pose proof (so_mappings _ _ _ HS) as Hok. simpl in E.
  destruct (mappings_at _ A m (B ++ C) Hok E) as ([] & _ & Hhigh).
  change (head ((m :: B) ++ C)) with (Some m).
  rewrite bool_decide_false.
  2:{ destruct C as [|c C]; [done|]. intros [= ->]. pose proof (Hhigh c ltac:(set_solver)). lia. }
  cbn [deref mbind outcome_bind]. rewrite (successor_split _ A (B ++ C) m E) by apply Hok.
  destruct (protect_one_spec base limit st A m (B ++ C) mf HS E) as (st1 & ops1 & -> & HS1 & _ & E1 & L1).
  cbn [mbind outcome_bind]. destruct (IH st1 (A ++ [protect_mapping m mf]) B C HS1) as (st2 & ops2 & -> & HS2 & E2 & L2 & Hin).
  { by rewrite E1, <-app_assoc. } { simpl in Hf. lia. }
  exists st2, (protect_op (protect_mapping m mf) :: ops1 ++ ops2). split_and!; [done..| | |].
  - by rewrite E2, <-app_assoc.
  - by rewrite L2, L1, <-app_assoc.
  - intros x [->|Hx]%elem_of_cons; [by left|]. right. apply elem_of_app. right. by apply Hin.
Qed.

(** ** Mapping *)
Lemma map_address_spec base limit st address size flags :
  space_ok base limit st → vs_holes st ≠ Leaf ∨ flag flags kMapFixed = true →
  0 ≤ address → 0 < size → address + size < 2 ^ 64 →
  address mod kPageSize = 0 → size mod kPageSize = 0 →
  flag flags kMapPreferBottom = true ∨ flag flags kMapPreferTop = true →
  ∃ res st', map_address st address size flags = Ret (res, st') ∧
    match res with
    | inr a0 => ∃ holes', st' = set_holes st holes' ∧ carved (vs_holes st) holes' a0 size ∧
        (∀ a, in_range a0 size a → free_at (vs_holes st) a) ∧ 0 ≤ a0 ∧ a0 + size < 2 ^ 64 ∧
        (flag flags kMapFixed = true ∨ flag flags kMapFixedNoReplace = true → a0 = address)
    | inl e => st' = st ∧ (e = noMemory ∨ e = alreadyExists)
    end.
Proof.
  intros [HH HM HC HD] Hne Ha Hs Hend Hma Hms Hpref. pose proof HH as [HO HA HB].
  assert (∀ h a0 t', h ∈ elements (vs_holes st) → h_address h ≤ a0 →
    a0 + size ≤ h_address h + h_length h → carved (vs_holes st) t' a0 size →
    (flag flags kMapFixed = true ∨ flag flags kMapFixedNoReplace = true → a0 = address) →
    ∃ holes', set_holes st t' = set_holes st holes' ∧ carved (vs_holes st) holes' a0 size ∧
        (∀ a, in_range a0 size a → free_at (vs_holes st) a) ∧ 0 ≤ a0 ∧ a0 + size < 2 ^ 64 ∧
        (flag flags kMapFixed = true ∨ flag flags kMapFixedNoReplace = true → a0 = address)) as Hin.
  { intros h a0 t' Hh H1 H2 Hc Hfix. destruct (HB h Hh). exists t'. split_and!; try done; try lia.
    intros a Hr. exists h. split; [done|]. unfold covers, ext_hi, in_range in *. simpl. lia. }
  unfold map_address. destruct (flag flags kMapFixed) eqn:Ef; [|destruct (flag flags kMapFixedNoReplace) eqn:En].
  - destruct (allocateAt_run (vs_holes st) address size) as [(h & t' & Hh & H1 & H2 & -> & Hc)|[-> _]]; try done; cbn.
    + eexists _, _. split; [done|]. by apply (Hin h).
    + exists (inl noMemory), st. split; [by destruct st|]. split; [done|by left].
  - destruct (areMappingsInRange _ _ _); [exists (inl alreadyExists), st; split; [done|]; split; [done|by right]|].
    destruct (allocateAt_run (vs_holes st) address size) as [(h & t' & Hh & H1 & H2 & -> & Hc)|[-> _]]; try done; cbn.
    + eexists _, _. split; [done|]. by apply (Hin h).
    + exists (inl noMemory), st. split; [by destruct st|]. split; [done|by left].
  - destruct Hne as [Hne|?]; [|done].
    assert (∃ res st', ('(res, holes) ← allocate (vs_holes st) size flags; Ret (res, set_holes st holes)) = Ret (res, st') ∧
      match res with
      | inr a0 => ∃ holes', st' = set_holes st holes' ∧ carved (vs_holes st) holes' a0 size ∧
          (∀ a, in_range a0 size a → free_at (vs_holes st) a) ∧ 0 ≤ a0 ∧ a0 + size < 2 ^ 64 ∧
          (false = true ∨ false = true → a0 = address)
      | inl e => st' = st ∧ (e = noMemory ∨ e = alreadyExists)
      end) as Hal.
    { pose proof (allocate_hole_run (vs_holes st) size flags HH Hs Hms Hpref) as Hrun.
      rewrite decide_False in Hrun.
      2:{ intros E0. apply Hne. destruct (vs_holes st); [done|]. by apply app_nil in E0 as [_ ?]. }
      destruct Hrun as [[-> _]|(l1 & h & l2 & a0 & t' & E & Hl & Hpos & -> & Hc)]; cbn.
      - exists (inl noMemory), st. split; [by destruct st|]. split; [done|by left].
      - eexists _, _. split; [done|]. apply (Hin h); [by apply (hole_in _ l1 h l2)| | |done|naive_solver].
        all: destruct (flag flags kMapPreferBottom); destruct Hpos as [-> _]; lia. }
    destruct (negb (address =? 0) && _); [|done].
    destruct (allocateAt_run (vs_holes st) address size) as [(h & t' & Hh & H1 & H2 & -> & Hc)|[-> _]]; try done; cbn.
    eexists _, _. split; [done|]. by apply (Hin h).
Qed.

(** Installing the new mapping. *)
Lemma install_mapping base limit st holes' m :
  space_ok base limit st → mapping_ok m →
  carved (vs_holes st) holes' (m_address m) (m_length m) →
  (∀ a, covers m a → free_at (vs_holes st) a) →
  let st' := set_mappings (set_holes st holes') (rb_insert m (vs_mappings st)) in
  space_ok base limit st' ∧
  ∀ a v, view st' a v ↔ (covers m a ∧ v = meaning m a) ∨ view st a v.
Proof.
  intros [HH [HO HM] HC HD] Hm [HH' Hf] Hfree st'.
  destruct (ordered_place (elements (vs_mappings st)) m HO (mo_length _ Hm)) as (l1 & l2 & E & HO').
  { intros a Ha Hc. by apply (HD a (Hfree a Ha)). }
  pose proof (insert_at l1 l2 _ m E HO') as E'.
  assert (∀ a, covered (l1 ++ m :: l2) a ↔ covers m a ∨ covered (elements (vs_mappings st)) a) as Hcov.
  { intros a. rewrite E. by apply covered_maps. }
  assert (∀ a, covers m a ↔ m_address m ≤ a < m_address m + m_length m) as Hcm by done.
  split.
  - split; simpl; [done| |..].
    + split; rewrite E'; [done|]. rewrite E in HM. apply Forall_app in HM as [? ?].
      apply Forall_app. split; [done|]. by apply list.Forall_cons.
    + intros a. rewrite E', Hcov, Hf, HC, <-Hcm. specialize (Hfree a).
      destruct (decide (m_address m ≤ a < m_address m + m_length m)) as [Hd|Hd]; rewrite <-Hcm in Hd; tauto.
    + intros a. rewrite E', Hcov, Hf, <-Hcm. intros [? ?] [?|?]; [done|]. by apply (HD a).
  - intros a v. unfold view. simpl. rewrite E', E, !maps_app, maps_cons. tauto.
Qed.

Lemma populate_spec st m flags :
  let st' := populate st m flags in
  vs_holes st' = vs_holes st ∧ vs_mappings st' = vs_mappings st.
Proof.
  unfold populate. destruct (flag flags kMapPopulate), (is_active m),
    (negb (page_flags (m_flags m) =? 0)); try done.
  destruct (issue_revoke_spec st true (MapPresentPages (m_address m) (sl_view (m_slice m))
    (m_viewOffset m) (m_length m) (page_flags (m_flags m)) (caching_of (m_slice m))) m) as (? & ? & _). done.
Qed.

(** The mapping permissions [mf] that the flags of a caller ask for: writable and
    executable pages are always readable. *)
Definition permissions_of (flags mf : Z) : Prop :=
  flag mf protWrite = flag flags kMapProtWrite ∧
  flag mf protExecute = flag flags kMapProtExecute ∧
  flag mf protRead =
    flag flags kMapProtRead || flag flags kMapProtWrite || flag flags kMapProtExecute ∧
  Z.land mf permissionMask = mf.

Lemma flag_land x mask bit : Z.land mask bit = bit → flag (Z.land x mask) bit = flag x bit.
Proof. intros E. unfold flag. by rewrite <-Z.land_assoc, E. Qed.

Lemma prot_flags_spec flags : ∃ mf, prot_flags flags = Ret mf ∧ permissions_of flags mf.
Proof.
  unfold permissions_of, prot_flags.
  rewrite <-(flag_land flags (Z.lor kMapProtRead (Z.lor kMapProtWrite kMapProtExecute)) kMapProtWrite),
    <-(flag_land flags (Z.lor kMapProtRead (Z.lor kMapProtWrite kMapProtExecute)) kMapProtExecute),
    <-(flag_land flags (Z.lor kMapProtRead (Z.lor kMapProtWrite kMapProtExecute)) kMapProtRead) by done.
  set (p := Z.land flags (Z.lor kMapProtRead (Z.lor kMapProtWrite kMapProtExecute))).
  assert (p ∈ [0; 8; 16; 24; 32; 40; 48; 56]) as Hp.
  { assert (∃ q, 0 ≤ q < 8 ∧ p = q * 8) as (q & Hq & ->).
    { exists (Z.land (Z.shiftr flags 3) 7). split.
      - change 7 with (Z.ones 3). rewrite Z.land_ones by lia. apply Z.mod_pos_bound. lia.
      - subst p. change (Z.lor kMapProtRead (Z.lor kMapProtWrite kMapProtExecute)) with (Z.shiftl 7 3).
        replace (_ * 8) with (Z.shiftl (Z.land (Z.shiftr flags 3) 7) 3) by (rewrite Z.shiftl_mul_pow2; lia).
        rewrite Z.shiftl_land. apply Z.bits_inj'. intros i Hi. rewrite !Z.land_spec.
        rewrite !Z.shiftl_spec by done. destruct (Z.lt_ge_cases i 3).
        + by rewrite !(Z.testbit_neg_r _ (i - 3)), !andb_false_r by lia.
        + rewrite Z.shiftr_spec by lia. do 2 f_equal. lia. }
    assert (q = 0 ∨ q = 1 ∨ q = 2 ∨ q = 3 ∨ q = 4 ∨ q = 5 ∨ q = 6 ∨ q = 7) as Hc by lia.
    repeat destruct Hc as [->|Hc]; rewrite ?Hc; set_solver. }
  clearbody p. rewrite !elem_of_cons, elem_of_nil in Hp. repeat destruct Hp as [->|Hp]; [..|done]; by (eexists; split; [reflexivity|]).
Qed.

(** ** The operations against the abstract address space *)

Lemma unmap_run base limit st address size :
  space_ok base limit st → 0 ≤ address → 0 < size → address + size < 2 ^ 64 →
  vs_holes st ≠ Leaf ∨ (∀ a v, view st a v → ¬ in_range address size a) →
  ∃ st' ops, unmap st address size = Ret st' ∧ space_ok base limit st' ∧
    (∀ a v, view st' a v ↔ view st a v ∧ ¬ in_range address size a) ∧
    vs_log st' = vs_log st ++ ops ∧
    ∀ a v, view st a v → in_range address size a →
      ∃ va n, UnmapPages va n ∈ ops ∧ va ≤ a < va + n.
Proof.
  intros HS Ha Hs Hend Hor.
  destruct (split_range_spec base limit st address size HS Ha Hs Hend)
    as (st1 & A & B & C & start & end_ & Hrun & HS1 & Hd & Eh & El & Hv).
  destruct (unmapMappings_spec base limit st1 address size A B C start end_)
    as (st2 & ops & Hrun2 & HS2 & Hv2 & El2 & Hin); try done.
  { rewrite Eh. destruct Hor as [?|Hno]; [by left|right]. intros a v. rewrite Hv. apply Hno. }
  exists st2, ops. unfold unmap. rewrite Hrun. cbn [mbind outcome_bind]. split_and!; [done..| | |].
  - intros a v. by rewrite Hv2, Hv.
  - by rewrite El2, El.
  - intros a v Hav Hr. apply Hv in Hav as (m & Hm & [Hc1 Hc2] & _).
    exists (m_address m), (m_length m). split; [|done]. apply Hin.
    destruct Hd as [E HA HB HC _]. rewrite E in Hm. unfold in_range, ext_hi in *. simpl in *.
    apply elem_of_app in Hm as [Hm|[Hm|Hm]%elem_of_app]; [|done|].
    + specialize (HA m Hm). lia.
    + specialize (HC m Hm). lia.
Qed.

Lemma maps_protect mf l a s o f :
  maps ((λ m, protect_mapping m mf) <$> l) a (s, o, f) ↔
  ∃ f0, maps l a (s, o, f0) ∧
    f = Z.lor (Z.ldiff f0 (Z.lor protRead (Z.lor protWrite protExecute))) mf.
Proof.
  unfold maps. setoid_rewrite list_elem_of_fmap. split.
  - intros (m & (m0 & -> & Hm) & Hc & [= -> -> ->]). exists (m_flags m0). split; [by exists m0|done].
  - intros (f0 & (m & Hm & Hc & [= -> -> ->]) & ->). exists (protect_mapping m mf).
    split; [by exists m|done].
Qed.

Lemma delimited_maps address size t A B C start end_ a v :
  delimited address size t A B C start end_ →
  (maps A a v → ¬ in_range address size a) ∧
  (maps B a v → in_range address size a) ∧
  (maps C a v → ¬ in_range address size a).
Proof.
  intros [E HA HB HC _]. unfold in_range. split_and!; intros (m & Hm & [Hc1 Hc2] & _);
    [specialize (HA m Hm)|destruct (HB m Hm)|specialize (HC m Hm)];
    unfold ext_hi in *; simpl in *; lia.
Qed.

(** [_findMapping] finds the mapping of an address exactly if there is one,
    and [_areMappingsInRange] answers whether any address of a range is mapped. *)
Theorem lookup_correct (base limit : Z) (st : VirtualSpace) (address size : Z) :
  space_ok base limit st → 0 ≤ address → 0 < size → address + size < 2 ^ 64 →
  match findMapping (vs_mappings st) address with
  | Some m => m ∈ elements (vs_mappings st) ∧ view st address (meaning m address)
  | None => ∀ v, ¬ view st address v
  end ∧
  (areMappingsInRange (vs_mappings st) address size = true ↔
     ∃ a v, in_range address size a ∧ view st a v).
Proof.
  intros [_ Hok _ _] Ha Hs Hend. split.
  - pose proof (findMapping_spec (vs_mappings st) address Hok) as Hf.
    destruct (findMapping _ _) as [m|].
    + destruct Hf as [Hin Hc]. split; [done|]. by exists m.
    + intros v Hv. apply Hf, maps_covered. by exists v.
  - rewrite areMappingsInRange_spec by done. setoid_rewrite maps_covered. unfold view. naive_solver.
Qed.

(** C14: [VirtualSpace::unmap] of a non-empty range, in an address space that has at least
    one hole (in one without, the search for the neighbours of the freed range fails its
    assertion), removes exactly the addresses of the range from the
    address space and leaves the meaning of all others alone, also where it has to
    split mappings.  The addresses become free, the invariant is kept, and every
    address that was mapped is covered by an [unmapPages] operation. *)
Theorem unmap_correct (base limit : Z) (st : VirtualSpace) (address size : Z) :
  space_ok base limit st → 0 ≤ address → 0 < size → address + size < 2 ^ 64 →
  vs_holes st ≠ Leaf →
  ∃ st' ops, unmap st address size = Ret st' ∧ space_ok base limit st' ∧
    (∀ a v, view st' a v ↔ view st a v ∧ ¬ in_range address size a) ∧
    vs_log st' = vs_log st ++ ops ∧
    ∀ a v, view st a v → in_range address size a →
      ∃ va n, UnmapPages va n ∈ ops ∧ va ≤ a < va + n.
Proof. intros. apply unmap_run; auto. Qed.

(** C16: [VirtualSpace::protect] replaces the permission bits of exactly the mapped
    addresses of the range and changes nothing else.  For every such address it
    restricts the page tables to the new permissions, or unmaps the page when no
    permission is left. *)
Theorem protect_correct (base limit : Z) (st : VirtualSpace) (address size flags : Z) :
  space_ok base limit st → 0 ≤ address → 0 < size → address + size < 2 ^ 64 →
  ∃ mf st' ops, permissions_of flags mf ∧
    protect st address size flags = Ret st' ∧ space_ok base limit st' ∧
    (∀ a s o f, view st' a (s, o, f) ↔
       if decide (in_range address size a)
       then ∃ f0, view st a (s, o, f0) ∧
              f = Z.lor (Z.ldiff f0 (Z.lor protRead (Z.lor protWrite protExecute))) mf
       else view st a (s, o, f)) ∧
    vs_log st' = vs_log st ++ ops ∧
    ∀ a s o f, view st' a (s, o, f) → in_range address size a →
      ∃ va n, va ≤ a < va + n ∧
        (if page_flags f =? 0 then UnmapPages va n
         else RestrictPages va n (page_flags f) (caching_of s)) ∈ ops.
Proof.
  intros HS Ha Hs Hend. destruct (prot_flags_spec flags) as (mf & Hmf & Hperm).
  destruct (split_range_spec base limit st address size HS Ha Hs Hend)
    as (st1 & A & B & C & start & end_ & Hrun & HS1 & Hd & Eh & El & Hv).
  assert (∃ st' ops, protect_loop (S (length (elements (vs_mappings st1)))) st1 mf start end_ = Ret st' ∧
    space_ok base limit st' ∧
    elements (vs_mappings st') = A ++ ((λ m, protect_mapping m mf) <$> B) ++ C ∧
    vs_log st' = vs_log st1 ++ ops ∧ ∀ m, m ∈ B → protect_op (protect_mapping m mf) ∈ ops)
    as (st' & ops & Hrun2 & HS' & E' & El' & Hin).
  { pose proof (de_elements _ _ _ _ _ _ _ _ Hd) as E.
    destruct (de_range _ _ _ _ _ _ _ _ Hd) as [[-> ->]|(b & B' & -> & -> & ->)].
    - exists st1, []. cbn. rewrite bool_decide_true, app_nil_r by done. split_and!; [done..|].
      intros m Hm. by apply elem_of_nil in Hm.
    - apply (protect_loop_spec base limit mf _ st1 A (b :: B') C HS1 E).
      rewrite E, !length_app. lia. }
  exists mf, st', ops. unfold protect. rewrite Hmf. cbn [mbind outcome_bind]. rewrite Hrun. cbn [mbind outcome_bind].
  assert (∀ a v, maps A a v → ¬ in_range address size a) as HA by (intros ??; by apply (delimited_maps _ _ _ _ _ _ _ _ _ _ Hd)).
  assert (∀ a v, maps B a v → in_range address size a) as HB by (intros ??; by apply (delimited_maps _ _ _ _ _ _ _ _ _ _ Hd)).
  assert (∀ a v, maps C a v → ¬ in_range address size a) as HC by (intros ??; by apply (delimited_maps _ _ _ _ _ _ _ _ _ _ Hd)).
  pose proof (de_elements _ _ _ _ _ _ _ _ Hd) as E.
  split_and!; [done..| |by rewrite El', El|].
  - intros a s o f. unfold view. rewrite E', !maps_app, maps_protect.
    assert (∀ v, maps (elements (vs_mappings st)) a v ↔ maps A a v ∨ maps B a v ∨ maps C a v) as HE.
    { intros v. rewrite <-!maps_app, <-E. symmetry. apply Hv. }
    case_decide; [setoid_rewrite HE|rewrite HE]; split.
    + intros [?%HA|[(f0 & ? & ?)|?%HC]]; [done|exists f0; auto|done].
    + intros (f0 & [?%HA|[?|?%HC]] & ?); [done|right; left; eauto|done].
    + intros [?|[(f0 & ?%HB & _)|?]]; [auto|done|auto].
    + intros [?|[?%HB|?]]; [auto|done|auto].
  - intros a s o f (m & Hm & Hc & Heq) Hr. rewrite E' in Hm.
    apply elem_of_app in Hm as [Hm|[(m0 & -> & Hm)%list_elem_of_fmap|Hm]%elem_of_app];
      [by destruct (HA a (meaning m a)); [exists m|]| |by destruct (HC a (meaning m a)); [exists m|]].
    exists (m_address m0), (m_length m0). split; [done|]. specialize (Hin m0 Hm).
    injection Heq as -> -> ->.
    unfold protect_op in Hin. simpl in Hin |- *. by destruct (_ =? 0).
Qed.

(** The tail of [map], once an address was chosen. *)
Lemma map_install base limit st holes' a0 slice offset length flags mf :
  space_ok base limit st → carved (vs_holes st) holes' a0 length →
  (∀ a, in_range a0 length a → free_at (vs_holes st) a) →
  0 ≤ a0 → 0 < length → a0 + length < 2 ^ 64 →
  0 ≤ offset → offset + length ≤ sl_length slice →
  0 ≤ sl_offset slice → sl_offset slice + sl_length slice < 2 ^ 64 →
  ∃ m, new_mapping a0 length slice (u64 (sl_offset slice + offset)) mf = Ret m ∧
    let m := set_state m ms_active in
    let st' := populate (set_mappings (set_holes st holes') (rb_insert m (vs_mappings st))) m flags in
    space_ok base limit st' ∧
    ∀ a v, view st' a v ↔
      (in_range a0 length a ∧ v = (slice, sl_offset slice + offset + (a - a0), mf)) ∨ view st a v.
Proof.
  intros HS Hcarved Hfree Ha0 Hl Hend Ho Hlen Hs Hse.
  unfold new_mapping. usmall. rewrite assert_bind by (apply Z.leb_le; lia).
  rewrite assert_bind by (apply Z.leb_le; lia). eexists. split; [done|].
  cbn zeta. set (m := set_state _ ms_active).
  destruct (install_mapping base limit st holes' m) as [HS' Hv']; [done|by split; simpl; try lia|done|done|].
  destruct (populate_spec (set_mappings (set_holes st holes') (rb_insert m (vs_mappings st))) m flags)
    as [Eh Em].
  split.
  - destruct HS' as [H1 H2 H3 H4]. split; rewrite ?Eh, ?Em; done.
  - intros a v. unfold view. rewrite Em. by rewrite (Hv' a v).
Qed.

(** C15: for a page-aligned, non-empty range below 2^64, a preference for the top or the
    bottom, and an address space that has at least one hole (otherwise [_allocate]
    dereferences a null pointer):
    [VirtualSpace::map] checks the offset and length against the slice first.
    It fails without effect if they do not fit, or if there is no room; only with
    [kMapFixed] has the old content of the range been unmapped by then.  Otherwise
    the range it returns, the requested one for fixed mappings, maps to the given
    part of the slice with the permissions asked for, no live mapping outside of
    a [kMapFixed] range is touched, and the invariant of the space is kept. *)
Theorem map_correct (base limit : Z) (st : VirtualSpace) (slice : MemorySlice)
    (address offset length flags : Z) :
  space_ok base limit st → vs_holes st ≠ Leaf →
  0 ≤ address → 0 < length → address + length < 2 ^ 64 →
  address mod kPageSize = 0 → length mod kPageSize = 0 →
  flag flags kMapPreferBottom = true ∨ flag flags kMapPreferTop = true →
  0 ≤ offset → 0 ≤ sl_offset slice → sl_offset slice + sl_length slice < 2 ^ 64 →
  ∃ res st', map st slice address offset length flags = Ret (res, st') ∧ space_ok base limit st' ∧
    match res with
    | inr a0 =>
        offset + length ≤ sl_length slice ∧
        (flag flags kMapFixed = true ∨ flag flags kMapFixedNoReplace = true → a0 = address) ∧
        (flag flags kMapFixed = false → ∀ a v, in_range a0 length a → ¬ view st a v) ∧
        ∃ mf, permissions_of flags mf ∧
          ∀ a v, view st' a v ↔
            if decide (in_range a0 length a)
            then v = (slice, sl_offset slice + offset + (a - a0),
                      if flag flags kMapDontRequireBacking then Z.lor mf dontRequireBacking else mf)
            else view st a v
    | inl illegalArgs => 2 ^ 64 ≤ offset + length ∧ st' = st
    | inl bufferTooSmall => sl_length slice < offset + length ∧ st' = st
    | inl e => (e = noMemory ∨ e = alreadyExists) ∧
        ∀ a v, view st' a v ↔
          view st a v ∧ ¬ (flag flags kMapFixed = true ∧ in_range address length a)
    end.
Proof.
  intros HS Hne Ha Hl Hend Hma Hml Hpref Ho Hs Hse. unfold map.
  rewrite assert_bind by (rewrite negb_true_iff; apply Z.eqb_neq; lia).
  rewrite assert_bind by (by apply Z.eqb_eq).
  destruct (Z.leb_spec (2 ^ 64) (offset + length)).
  { eexists _, st. split; [done|]. split; [done|]. split; [lia|done]. }
  destruct (Z.ltb_spec (sl_length slice) (offset + length)).
  { eexists _, st. split; [done|]. split; [done|]. split; [lia|done]. }
  assert (∃ st1, (if flag flags kMapFixed then unmap st address length else Ret st) = Ret st1 ∧
    space_ok base limit st1 ∧ (vs_holes st1 ≠ Leaf ∨ flag flags kMapFixed = true) ∧
    ∀ a v, view st1 a v ↔ view st a v ∧ ¬ (flag flags kMapFixed = true ∧ in_range address length a))
    as (st1 & -> & HS1 & Hne1 & Hv1).
  { destruct (flag flags kMapFixed) eqn:Ef.
    - destruct (unmap_run base limit st address length HS Ha Hl Hend) as (st1 & ops & Hr & HS1 & Hv & _);
        [by left|]. exists st1. split_and!; [done..|by right|]. intros a v. rewrite Hv. naive_solver.
    - exists st. split_and!; [done..|by left|]. naive_solver. }
  cbn [mbind outcome_bind]. rewrite assert_bind by (by apply Z.eqb_eq).
  destruct (map_address_spec base limit st1 address length flags HS1 Hne1 Ha Hl Hend Hma Hml Hpref)
    as (res & st2 & -> & Hres). cbn [mbind outcome_bind].
  destruct res as [e|a0].
  { destruct Hres as [-> He]. eexists _, st1. split; [done|]. split; [done|].
    destruct He as [-> | ->]; (split; [by auto|done]). }
  destruct Hres as (holes' & -> & Hcarved & Hfree & Ha0 & Hend0 & Hfix).
  destruct (prot_flags_spec flags) as (mf & -> & Hperm). cbn [mbind outcome_bind].
  destruct (map_install base limit st1 holes' a0 slice offset length flags
    (if flag flags kMapDontRequireBacking then Z.lor mf dontRequireBacking else mf))
    as (m & -> & HS2 & Hv2); [done..|lia|done|done|]. cbn [mbind outcome_bind].
  assert (∀ a v, in_range a0 length a → ¬ view st1 a v) as Hnew.
  { intros a v Hr Hv. apply (so_disjoint _ _ _ HS1 a (Hfree a Hr)), maps_covered. by exists v. }
  eexists _, _. split; [done|]. split; [done|]. split; [lia|]. split; [done|]. split.
  { intros Ef a v Hr Hv. apply (Hnew a v Hr), Hv1. split; [done|]. rewrite Ef. by intros [? _]. }
  exists mf. split; [done|]. intros a v. rewrite Hv2, Hv1.
  specialize (Hnew a v). rewrite Hv1 in Hnew.
  assert (flag flags kMapFixed = true → a0 = address) as Hfix' by auto.
  case_decide as Hr; split.
  - intros [[_ ?]|?]; [done|by destruct (Hnew Hr)].
  - auto.
  - intros [[? _]|[? _]]; done.
  - intros ?. right. split; [done|]. intros [Ef ?]. by rewrite Hfix' in Hr.
Qed.
End spaces.

(** ** An example: one mapping of two pages below a hole *)
#[local] Existing Instance spine_tree.
#[local] Instance example_operations : VirtualOperations := λ _ op,
  match op with UnmapPages _ n => MkAffected 0 n 0 true | _ => MkAffected 0 0 0 false end.

Definition example_slice : MemorySlice := MkSlice 7 0 65536 0.
Definition example_mapping : Mapping := MkMapping 4096 8192 example_slice 4096 48 ms_active.
Definition example_space : VirtualSpace :=
  MkSpace (spine [MkHole 12288 53248]) (spine [example_mapping]) 8192 0 [].

Lemma covered_singleton {A} `{!Extent A} (x : A) a : covered [x] a ↔ covers x a.
Proof. rewrite covered_cons. pose proof (covered_nil a). tauto. Qed.

Lemma example_space_ok : space_ok 4096 65536 example_space.
Proof.
  assert (∀ a, covers (MkHole 12288 53248) a ↔ 12288 ≤ a < 65536) as Hh by done.
  assert (∀ a, covers example_mapping a ↔ 4096 ≤ a < 12288) as Hm by done.
  split.
  - split; [by repeat constructor|apply spine_aggregated|].
    intros h. simpl. rewrite elem_of_cons, elem_of_nil. intros [->|[]]; done.
  - split; [by repeat constructor|]. by repeat constructor.
  - intros a. unfold free_at. simpl. rewrite !covered_singleton, Hh, Hm. lia.
  - intros a. unfold free_at. simpl. rewrite !covered_singleton, Hh, Hm. lia.
Qed.

Lemma lookup_correct_witness :
  findMapping (vs_mappings example_space) 8192 = Some example_mapping ∧
  view example_space 8192 (meaning example_mapping 8192).
Proof.
  destruct (lookup_correct 4096 65536 example_space 8192 4096 example_space_ok) as [H _]; [done..|].
  split; [done|apply H].
Defined.

Lemma unmap_correct_witness :
  ∃ st', unmap example_space 8192 4096 = Ret st' ∧ ∀ v, ¬ view st' 8192 v.
Proof.
  destruct (unmap_correct 4096 65536 example_space 8192 4096 example_space_ok)
    as (st' & ops & Hrun & _ & Hv & _); [done..|].
  exists st'. split; [done|]. intros v. rewrite Hv. unfold in_range. lia.
Defined.

Lemma protect_correct_witness :
  ∃ st', protect example_space 8192 4096 kMapProtRead = Ret st' ∧
    view st' 8192 (example_slice, 8192, protRead).
Proof.
  destruct (protect_correct 4096 65536 example_space 8192 4096 kMapProtRead example_space_ok)
    as (mf & st' & ops & (Hw & Hx & Hr & Hmask) & Hrun & _ & Hv & _); [done..|].
  exists st'. split; [done|]. vm_compute in Hrun. injection Hrun as <-.
  eexists (MkMapping 8192 4096 example_slice 8192 protRead ms_active). split; [|done].
  vm_compute. right. left.
Defined.

Lemma map_correct_witness :
  ∃ st', map example_space example_slice 8192 0 4096
           (Z.lor kMapFixed (Z.lor kMapProtRead kMapPreferBottom)) = Ret (inr 8192, st') ∧
    space_ok 4096 65536 st'.
Proof.
  destruct (map_correct 4096 65536 example_space example_slice 8192 0 4096
    (Z.lor kMapFixed (Z.lor kMapProtRead kMapPreferBottom)) example_space_ok)
    as (res & st' & Hrun & Hok & _); [done..|by left|done|done|done|].
  exists st'. split; [|done]. rewrite Hrun. vm_compute in Hrun. by injection Hrun as <- <-.
Defined.
