(* ===== verification/CursorPolicy.v ===== *)
(** * Page table formats

    The [CursorPolicy] concept of kernel/thor/generic/thor-internal/arch-generic/cursor.hpp
    as a class, with the laws that the page table cursor relies on, and its six
    implementations: the page tables of x86, ARM and RISC-V, the nested page tables
    of VMX (EPT) and SVM (NPT), and those of the Intel IOMMU.

    A page table entry is a 64-bit number.  The operations that update an entry in
    memory ([pteClean], [pteAge]) are functions from the old to the new value; a
    compare-and-exchange loop succeeds in its first round.  [pteWriteBarrier] and
    [pteSyncICache] have no effect on the contents of memory. *)
From Stdlib Require Import ZArith Lia.
From stdpp Require Import base list numbers option.
From S2P Require Import Prelude PageConsts.
Open Scope Z_scope.

Class CursorPolicy := {
  maxLevels : nat;
  numLevels : nat;
  bitsPerLevel : Z;
  ptePagePresent : Z → bool;
  ptePageCanAccess : Z → Z → bool;
  ptePageAddress : Z → Z;
  ptePageStatus : Z → Z;
  pteClean : Z → Z;
  pteAge : Z → bool → Z * bool;
  pteBuild : Z → Z → CachingMode → outcome Z;
  pteTablePresent : Z → bool;
  pteTableAddress : Z → Z;
  (** The entry that [pteNewTable] returns for a table at a given address. *)
  pteNewTable : Z → Z;
}.

(** The physical addresses a page accessor accepts. *)
Definition page_address (pa : Z) : Prop := 0 ≤ pa < 2 ^ 46 ∧ pa mod kPageSize = 0.

(** What the page table cursor relies on. *)
Class CursorPolicyLaws `{!CursorPolicy} := {
  law_levels : (1 ≤ numLevels ≤ maxLevels)%nat;
  law_bits : 0 < bitsPerLevel;
  law_width : bitsPerLevel * Z.of_nat maxLevels + 12 ≤ 64;
  law_zero_table : pteTablePresent 0 = false;
  law_zero_page : ptePagePresent 0 = false;
  law_status pte : flag (ptePageStatus pte) status_present = ptePagePresent pte;
  law_status_absent pte : ptePagePresent pte = false → ptePageStatus pte = 0;
  law_address pte : Z.land (ptePageAddress pte) 0xFFF = 0;
  law_clean_present pte : ptePagePresent (pteClean pte) = ptePagePresent pte;
  law_clean_address pte : ptePageAddress (pteClean pte) = ptePageAddress pte;
  law_clean_dirty pte : flag (ptePageStatus (pteClean pte)) status_dirty = false;
  law_age pte vacate :
    match pteAge pte vacate with
    | (pte', true) => vacate = true ∧ ptePagePresent pte = true ∧ pte' = 0
    | (pte', false) => ptePagePresent pte' = ptePagePresent pte ∧
        ptePageAddress pte' = ptePageAddress pte ∧ ptePageStatus pte' = ptePageStatus pte ∧
        ∀ access, ptePageCanAccess pte' access = ptePageCanAccess pte access
    end;
  law_build pa flags mode pte : page_address pa → pteBuild pa flags mode = Ret pte →
    ptePagePresent pte = true ∧ ptePageAddress pte = pa;
  law_build_access pa flags mode pte access : page_address pa → pteBuild pa flags mode = Ret pte →
    access = access_write ∨ access = access_execute →
    ptePageCanAccess pte access = true → flag flags access = true;
  law_new_table pa : page_address pa →
    pteTablePresent (pteNewTable pa) = true ∧ pteTableAddress (pteNewTable pa) = pa;
}.

(** Setting a bit if a condition holds. *)
Definition set_if (b : bool) (mask pte : Z) : Z := if b then Z.lor pte mask else pte.

(** The aging of entries that have an age field, as on x86, ARM and RISC-V. *)
Definition age_entry (present : Z → bool) (accessed ageMask ageShift : Z) (oldPte : Z) (vacate : bool)
    : Z * bool :=
  if negb (present oldPte) then (oldPte, false)
  else if flag oldPte accessed then (Z.ldiff oldPte (Z.lor accessed ageMask), false)
  else
    let age := Z.shiftr (Z.land oldPte ageMask) ageShift in
    if age <? 3 then (Z.lor (Z.ldiff oldPte ageMask) (Z.shiftl (age + 1) ageShift), false)
    else if negb vacate then (oldPte, false)
    else (0, true).

(** ** x86 *)
Module X86.
Definition pteAgeShift : Z := 9.
Definition ptePresent : Z := 0x1.
Definition pteWrite : Z := 0x2.
Definition pteUser : Z := 0x4.
Definition ptePwt : Z := 0x8.
Definition ptePcd : Z := 0x10.
Definition pteAccessed : Z := 0x20.
Definition pteDirty : Z := 0x40.
Definition ptePat : Z := 0x80.
Definition pteGlobal : Z := 0x100.
Definition pteAgeMask : Z := Z.shiftl 3 pteAgeShift.
Definition pteXd : Z := 0x8000000000000000.
Definition pteAddress : Z := 0x000FFFFFFFFFF000.

Definition build (kernel : bool) (physical flags : Z) (cachingMode : CachingMode) : outcome Z :=
  let pte := Z.lor (Z.lor physical ptePresent) pteAccessed in
  let pte := if kernel then Z.lor pte pteGlobal else Z.lor pte pteUser in
  let pte := set_if (flag flags access_write) pteWrite pte in
  let pte := set_if (negb (flag flags access_execute)) pteXd pte in
  match cachingMode with
  | CM_writeThrough => Ret (Z.lor pte ptePwt)
  | CM_writeCombine => Ret (Z.lor pte (Z.lor ptePat ptePwt))
  | CM_uncached | CM_mmio | CM_mmioNonPosted => Ret (Z.lor pte ptePcd)
  | _ => assert! bool_decide (cachingMode = CM_null) || bool_decide (cachingMode = CM_writeBack);
      Ret pte
  end.

Definition canAccess (kernel : bool) (pte flags : Z) : bool :=
  if negb (flag pte ptePresent) then false
  else if negb kernel && negb (flag pte pteUser) then false
  else if flag flags access_execute && flag pte pteXd then false
  else if flag flags access_write && negb (flag pte pteWrite) then false
  else true.

Definition status (pte : Z) : Z :=
  if negb (flag pte ptePresent) then 0 else set_if (flag pte pteDirty) status_dirty status_present.

Definition policy (kernel : bool) : CursorPolicy := {|
  maxLevels := 4; numLevels := 4; bitsPerLevel := 9;
  ptePagePresent pte := flag pte ptePresent;
  ptePageCanAccess := canAccess kernel;
  ptePageAddress pte := Z.land pte pteAddress;
  ptePageStatus := status;
  pteClean pte := Z.ldiff pte pteDirty;
  pteAge := age_entry (λ pte, flag pte ptePresent) pteAccessed pteAgeMask pteAgeShift;
  pteBuild := build kernel;
  pteTablePresent pte := flag pte ptePresent;
  pteTableAddress pte := Z.land pte pteAddress;
  pteNewTable newPtAddr := Z.lor (Z.lor (Z.lor newPtAddr ptePresent) pteWrite) pteUser;
|}.
End X86.

(** ** RISC-V, with three or four levels *)
Module Riscv.
Definition pteAgeShift : Z := 8.
Definition pteValid : Z := Z.shiftl 1 0.
Definition pteRead : Z := Z.shiftl 1 1.
Definition pteWrite : Z := Z.shiftl 1 2.
Definition pteExecute : Z := Z.shiftl 1 3.
Definition pteUser : Z := Z.shiftl 1 4.
Definition pteGlobal : Z := Z.shiftl 1 5.
Definition pteAccess : Z := Z.shiftl 1 6.
Definition pteDirty : Z := Z.shiftl 1 7.
Definition ptePpnMask : Z := Z.shiftl (Z.shiftl 1 44 - 1) 10.
Definition pteAgeMask : Z := Z.shiftl 3 pteAgeShift.

Definition present (pte : Z) : bool := flag pte pteValid && flag pte pteRead.

Definition canAccess (kernel : bool) (pte flags : Z) : bool :=
  if negb (flag pte pteValid) then false
  else if negb kernel && negb (flag pte pteUser) then false
  else if flag flags access_execute && negb (flag pte pteExecute) then false
  else if flag flags access_write && negb (flag pte pteWrite) then false
  else true.

Definition status (pte : Z) : Z :=
  if negb (flag pte pteValid) || negb (flag pte pteRead) then 0
  else set_if (flag pte pteDirty) status_dirty status_present.

Definition build (kernel : bool) (physical flags : Z) (cachingMode : CachingMode) : outcome Z :=
  let pte := Z.lor (Z.lor (Z.shiftr physical 2) pteValid) pteRead in
  let pte :=
    if kernel then
      set_if (flag flags access_write) (Z.lor pteWrite pteDirty) (Z.lor pte (Z.lor pteAccess pteGlobal))
    else set_if (flag flags access_write) pteWrite (Z.lor pte (Z.lor pteUser pteAccess)) in
  Ret (set_if (flag flags access_execute) pteExecute pte).

(** [(pte & ptePpnMask) << 2] *)
Definition address (pte : Z) : Z := u64 (Z.shiftl (Z.land pte ptePpnMask) 2).

Definition policy (kernel : bool) (numPtLevels : nat) : CursorPolicy := {|
  maxLevels := 4; numLevels := numPtLevels; bitsPerLevel := 9;
  ptePagePresent := present;
  ptePageCanAccess := canAccess kernel;
  ptePageAddress := address;
  ptePageStatus := status;
  pteClean pte := Z.ldiff pte pteDirty;
  pteAge := age_entry present pteAccess pteAgeMask pteAgeShift;
  pteBuild := build kernel;
  pteTablePresent pte := flag pte pteValid;
  pteTableAddress := address;
  pteNewTable newPtAddr := Z.lor (Z.shiftr newPtAddr 2) pteValid;
|}.
End Riscv.

(** ** ARM *)
Module Arm.
Definition kPageAgeShift : Z := 56.
Definition kPageValid : Z := 1.
Definition kPageTable : Z := Z.shiftl 1 1.
Definition kPageL3Page : Z := Z.shiftl 1 1.
Definition kPageXN : Z := Z.shiftl 1 54.
Definition kPagePXN : Z := Z.shiftl 1 53.
Definition kPageShouldBeWritable : Z := Z.shiftl 1 55.
Definition kPageAgeMask : Z := Z.shiftl 3 kPageAgeShift.
Definition kPageNotGlobal : Z := Z.shiftl 1 11.
Definition kPageAccess : Z := Z.shiftl 1 10.
Definition kPageRO : Z := Z.shiftl 1 7.
Definition kPageUser : Z := Z.shiftl 1 6.
Definition kPageInnerSh : Z := Z.shiftl 3 8.
Definition kPageWb : Z := Z.shiftl 0 2.
Definition kPagenGnRnE : Z := Z.shiftl 2 2.
Definition kPagenGnRE : Z := Z.shiftl 3 2.
Definition kPageUc : Z := Z.shiftl 4 2.
Definition kPageAddress : Z := 0xFFFFFFFFF000.

Definition canAccess (kernel : bool) (pte flags : Z) : bool :=
  if negb (flag pte kPageValid) then false
  else if negb kernel && negb (flag pte kPageUser) then false
  else if flag flags access_execute && flag pte (if kernel then kPageXN else kPagePXN) then false
  else if flag flags access_write && negb (flag pte kPageShouldBeWritable) then false
  else true.

Definition status (pte : Z) : Z :=
  if negb (flag pte kPageValid) then 0
  else set_if (flag pte kPageShouldBeWritable && negb (flag pte kPageRO)) status_dirty status_present.

Definition build (kernel : bool) (physical flags : Z) (cachingMode : CachingMode) : outcome Z :=
  let pte := Z.lor (Z.lor (Z.lor (Z.lor physical kPageValid) kPageL3Page) kPageAccess) kPageInnerSh in
  let pte :=
    if kernel then set_if (negb (flag flags access_write)) kPageRO pte
    else set_if (flag flags access_write) kPageShouldBeWritable
           (Z.lor pte (Z.lor (Z.lor (Z.lor kPageUser kPageNotGlobal) kPageRO) kPagePXN)) in
  let pte := set_if (negb (flag flags access_execute)) (Z.lor kPageXN kPagePXN) pte in
  match cachingMode with
  | CM_writeCombine => Ret (Z.lor pte kPageUc)
  | CM_uncached => Ret (Z.lor pte kPagenGnRnE)
  | CM_mmio => Ret (Z.lor pte kPagenGnRE)
  | CM_mmioNonPosted => Ret (Z.lor pte kPagenGnRnE)
  | _ => assert! bool_decide (cachingMode = CM_null) || bool_decide (cachingMode = CM_writeBack);
      Ret (Z.lor pte kPageWb)
  end.

Definition policy (kernel : bool) : CursorPolicy := {|
  maxLevels := 4; numLevels := 4; bitsPerLevel := 9;
  ptePagePresent pte := flag pte kPageValid;
  ptePageCanAccess := canAccess kernel;
  ptePageAddress pte := Z.land pte kPageAddress;
  ptePageStatus := status;
  pteClean pte := Z.lor pte kPageRO;
  pteAge := age_entry (λ pte, flag pte kPageValid) kPageAccess kPageAgeMask kPageAgeShift;
  pteBuild := build kernel;
  pteTablePresent pte := flag pte kPageValid;
  pteTableAddress pte := Z.land pte kPageAddress;
  pteNewTable newPtAddr := Z.lor (Z.lor newPtAddr kPageValid) kPageTable;
|}.
End Arm.

(** ** Extended page tables of VMX *)
Module Ept.
Definition eptRead : Z := Z.shiftl 1 0.
Definition eptWrite : Z := Z.shiftl 1 1.
Definition eptExecute : Z := Z.shiftl 1 2.
Definition eptCacheWb : Z := Z.shiftl 6 3.
Definition eptIgnorePat : Z := Z.shiftl 1 6.
Definition eptDirty : Z := Z.shiftl 1 9.
Definition eptAddress : Z := 0x000FFFFFFFFFF000.

Definition canAccess (pte flags : Z) : bool :=
  if flag flags access_read && negb (flag pte eptRead) then false
  else if flag flags access_write && negb (flag pte eptWrite) then false
  else if flag flags access_execute && negb (flag pte eptExecute) then false
  else true.

Definition status (pte : Z) : Z :=
  if negb (flag pte eptRead) then 0 else set_if (flag pte eptDirty) status_dirty status_present.

Definition build (physical flags : Z) (cachingMode : CachingMode) : outcome Z :=
  let pte := Z.lor (Z.lor physical eptIgnorePat) eptRead in
  let pte := set_if (flag flags access_write) eptWrite pte in
  let pte := set_if (flag flags access_execute) eptExecute pte in
  assert! bool_decide (cachingMode = CM_null) || bool_decide (cachingMode = CM_writeBack);
  Ret (Z.lor pte eptCacheWb).

Definition policy : CursorPolicy := {|
  maxLevels := 4; numLevels := 4; bitsPerLevel := 9;
  ptePagePresent pte := flag pte eptRead;
  ptePageCanAccess := canAccess;
  ptePageAddress pte := Z.land pte eptAddress;
  ptePageStatus := status;
  pteClean pte := Z.ldiff pte eptDirty;
  pteAge pte _ := (pte, false);
  pteBuild := build;
  pteTablePresent pte := flag pte eptRead;
  pteTableAddress pte := Z.land pte eptAddress;
  pteNewTable newPtAddr := Z.lor (Z.lor (Z.lor newPtAddr eptRead) eptWrite) eptExecute;
|}.
End Ept.

(** ** Nested page tables of SVM *)
Module Npt.
Definition nptPresent : Z := Z.shiftl 1 0.
Definition nptWrite : Z := Z.shiftl 1 1.
Definition nptUser : Z := Z.shiftl 1 2.
Definition nptDirty : Z := Z.shiftl 1 6.
Definition nptXd : Z := Z.shiftl 1 6.
Definition nptAddress : Z := 0x000FFFFFFFFFF000.

Definition canAccess (pte flags : Z) : bool :=
  if negb (flag pte nptPresent) then false
  else if flag flags access_write && negb (flag pte nptWrite) then false
  else if flag flags access_execute && flag pte nptXd then false
  else true.

Definition status (pte : Z) : Z :=
  if negb (flag pte nptPresent) then 0 else set_if (flag pte nptDirty) status_dirty status_present.

Definition build (physical flags : Z) (cachingMode : CachingMode) : outcome Z :=
  let pte := Z.lor (Z.lor physical nptPresent) nptUser in
  let pte := set_if (flag flags access_write) nptWrite pte in
  let pte := set_if (negb (flag flags access_execute)) nptXd pte in
  assert! bool_decide (cachingMode = CM_null) || bool_decide (cachingMode = CM_writeBack);
  Ret pte.

Definition policy : CursorPolicy := {|
  maxLevels := 4; numLevels := 4; bitsPerLevel := 9;
  ptePagePresent pte := flag pte nptPresent;
  ptePageCanAccess := canAccess;
  ptePageAddress pte := Z.land pte nptAddress;
  ptePageStatus := status;
  pteClean pte := Z.ldiff pte nptDirty;
  pteAge pte _ := (pte, false);
  pteBuild := build;
  pteTablePresent pte := flag pte nptPresent;
  pteTableAddress pte := Z.land pte nptAddress;
  pteNewTable newPtAddr := Z.lor (Z.lor (Z.lor newPtAddr nptPresent) nptUser) nptWrite;
|}.
End Npt.

(** ** Intel IOMMU (VT-d), with a configured number of levels *)
Module IntelIommu.
Definition iommuRead : Z := Z.shiftl 1 0.
Definition iommuWrite : Z := Z.shiftl 1 1.
Definition iommuIgnorePat : Z := Z.shiftl 1 6.
Definition iommuDirty : Z := Z.shiftl 1 9.
Definition iommuAddress : Z := 0x000FFFFFFFFFF000.

Definition canAccess (pte flags : Z) : bool :=
  if flag flags access_read && negb (flag pte iommuRead) then false
  else if flag flags access_write && negb (flag pte iommuWrite) then false
  else if flag flags access_execute then false
  else true.

Definition status (pte : Z) : Z :=
  if negb (flag pte iommuRead) then 0 else set_if (flag pte iommuDirty) status_dirty status_present.

Definition build (physical flags : Z) (cachingMode : CachingMode) : outcome Z :=
  let pte := Z.lor (Z.lor physical iommuIgnorePat) iommuRead in
  Ret (set_if (flag flags access_write) iommuWrite pte).

Definition policy (levels : nat) : CursorPolicy := {|
  maxLevels := 5; numLevels := levels; bitsPerLevel := 9;
  ptePagePresent pte := flag pte iommuRead;
  ptePageCanAccess := canAccess;
  ptePageAddress pte := Z.land pte iommuAddress;
  ptePageStatus := status;
  pteClean pte := Z.ldiff pte iommuDirty;
  pteAge pte _ := (pte, false);
  pteBuild := build;
  pteTablePresent pte := flag pte iommuRead;
  pteTableAddress pte := Z.land pte iommuAddress;
  pteNewTable newPtAddr := Z.lor (Z.lor newPtAddr iommuRead) iommuWrite;
|}.
End IntelIommu.

(** ** Bit masks *)
Lemma flag_lor a b m : flag (Z.lor a b) m = flag a m || flag b m.
Proof.
  unfold flag. rewrite Z.land_lor_distr_l.
  destruct (Z.eqb_spec (Z.lor (Z.land a m) (Z.land b m)) 0) as [[-> ->]%Z.lor_eq_0_iff|H]; [done|].
  destruct (Z.eqb_spec (Z.land a m) 0) as [Ha|]; [|done].
  destruct (Z.eqb_spec (Z.land b m) 0) as [Hb|]; [|done]. by rewrite Ha, Hb in H.
Qed.

Lemma flag_set_if b mask pte m : flag (set_if b mask pte) m = flag pte m || (b && flag mask m).
Proof. destruct b; simpl; [apply flag_lor|by rewrite orb_false_r]. Qed.

Lemma land_ldiff a b m : Z.land b m = 0 → Z.land (Z.ldiff a b) m = Z.land a m.
Proof.
  intros E. apply Z.bits_inj'. intros i Hi. rewrite !Z.land_spec, Z.ldiff_spec.
  apply (f_equal (λ x, Z.testbit x i)) in E. rewrite Z.land_spec, Z.bits_0 in E.
  by destruct (Z.testbit a i), (Z.testbit b i), (Z.testbit m i).
Qed.

Lemma flag_ldiff a b m : Z.land b m = 0 → flag (Z.ldiff a b) m = flag a m.
Proof. intros E. unfold flag. by rewrite land_ldiff. Qed.

Lemma flag_ldiff_same a b m : Z.ldiff m b = 0 → flag (Z.ldiff a b) m = false.
Proof.
  intros E. unfold flag. apply negb_false_iff, Z.eqb_eq, Z.bits_inj'. intros i Hi.
  apply (f_equal (λ x, Z.testbit x i)) in E. rewrite Z.ldiff_spec, Z.bits_0 in E.
  rewrite Z.bits_0, Z.land_spec, Z.ldiff_spec. by destruct (Z.testbit a i), (Z.testbit b i), (Z.testbit m i).
Qed.

Lemma land_lor_disjoint a b m : Z.land b m = 0 → Z.land (Z.lor a b) m = Z.land a m.
Proof. intros E. by rewrite Z.land_lor_distr_l, E, Z.lor_0_r. Qed.

Lemma land_set_if b mask pte m : Z.land mask m = 0 → Z.land (set_if b mask pte) m = Z.land pte m.
Proof. intros E. destruct b; [by apply land_lor_disjoint|done]. Qed.

(** The bits of a page address. *)
Definition addressBits : Z := 2 ^ 46 - kPageSize.

Lemma page_address_bits pa : page_address pa → Z.land pa addressBits = pa.
Proof.
  intros [[H0 H1] Hm]. apply Z.bits_inj'. intros i Hi. rewrite Z.land_spec.
  change addressBits with (Z.shiftl (Z.ones 34) 12). rewrite Z.shiftl_spec by done.
  destruct (Z.lt_ge_cases i 12) as [Hl|Hl].
  - rewrite (Z.testbit_neg_r _ (i - 12)) by lia. rewrite andb_false_r. symmetry.
    rewrite <-(Z.mod_pow2_bits_low pa 12) by lia. change (2 ^ 12) with kPageSize. by rewrite Hm, Z.bits_0.
  - destruct (Z.lt_ge_cases i 46).
    + rewrite Z.ones_spec_low by lia. apply andb_true_r.
    + destruct (decide (pa = 0)) as [->|]; [by rewrite Z.bits_0|].
      assert (Z.log2 pa < i) by (apply Z.log2_lt_pow2; [lia|]; pose proof (Z.pow_le_mono_r 2 46 i); lia).
      by rewrite Z.bits_above_log2 by lia.
Qed.

Lemma page_address_land pa m : page_address pa → Z.land addressBits m = addressBits → Z.land pa m = pa.
Proof. intros Hp E. by rewrite <-(page_address_bits pa Hp), <-Z.land_assoc, E. Qed.

Lemma page_address_flag pa m : page_address pa → Z.land addressBits m = 0 → flag pa m = false.
Proof.
  intros Hp E. unfold flag. by rewrite <-(page_address_bits pa Hp), <-Z.land_assoc, E, Z.land_0_r.
Qed.

Lemma page_address_shifted pa m : page_address pa →
  Z.land (Z.shiftr addressBits 2) m = 0 → flag (Z.shiftr pa 2) m = false.
Proof.
  intros Hp E. unfold flag.
  by rewrite <-(page_address_bits pa Hp), Z.shiftr_land, <-Z.land_assoc, E, Z.land_0_r.
Qed.

(** Evaluate the conditions on known bits. *)
Ltac is_mask x :=
  first [is_const x | lazymatch x with
    | Z.lor ?a ?b => is_mask a; is_mask b
    | Z.shiftl ?a ?b => is_mask a; is_mask b
    | Zpos _ => idtac
    | Z0 => idtac
    end].
Ltac ground_flags :=
  repeat match goal with
  | |- context [flag ?a ?b] => is_mask a; is_mask b;
      let v := eval vm_compute in (flag a b) in change (flag a b) with v
  end.
Ltac flags_norm :=
  repeat match goal with
  | |- context [flag (set_if ?b ?x ?y) ?m] => rewrite (flag_set_if b x y m)
  | |- context [flag (Z.lor ?x ?y) ?m] => rewrite (flag_lor x y m)
  | |- context [flag (Z.ldiff ?x ?y) ?m] =>
      first [rewrite (flag_ldiff x y m) by reflexivity | rewrite (flag_ldiff_same x y m) by reflexivity]
  | H : page_address ?pa |- context [flag ?pa ?m] => rewrite (page_address_flag pa m H) by reflexivity
  | H : page_address ?pa |- context [flag (Z.shiftr ?pa 2) ?m] =>
      rewrite (page_address_shifted pa m H) by reflexivity
  end;
  ground_flags; rewrite ?andb_true_r, ?andb_false_r, ?orb_false_r, ?orb_true_r; cbn [orb andb negb].
Ltac land_norm :=
  repeat match goal with
  | |- context [Z.land (set_if ?b ?x ?y) ?m] => rewrite (land_set_if b x y m) by reflexivity
  | |- context [Z.land (Z.lor ?x ?y) ?m] => rewrite (land_lor_disjoint x y m) by reflexivity
  | |- context [Z.land (Z.ldiff ?x ?y) ?m] => rewrite (land_ldiff x y m) by reflexivity
  | H : page_address ?pa |- context [Z.land ?pa ?m] => rewrite (page_address_land pa m H) by reflexivity
  end.

(** ** Aging *)

(** What aging with an age field does to an entry. *)
Lemma age_entry_spec (present : Z → bool) accessed ageMask ageShift pte vacate :
  0 ≤ ageMask →
  match age_entry present accessed ageMask ageShift pte vacate with
  | (pte', true) => vacate = true ∧ present pte = true ∧ pte' = 0
  | (pte', false) => pte' = pte ∨ pte' = Z.ldiff pte (Z.lor accessed ageMask) ∨
      ∃ age, age ∈ [1; 2; 3] ∧ pte' = Z.lor (Z.ldiff pte ageMask) (Z.shiftl age ageShift)
  end.
Proof.
  intros Hmask. unfold age_entry. destruct (present pte) eqn:Hp; simpl; [|by left].
  destruct (flag pte accessed); [by right; left|].
  assert (0 ≤ Z.shiftr (Z.land pte ageMask) ageShift) by (apply Z.shiftr_nonneg, Z.land_nonneg; by right).
  destruct (Z.ltb_spec (Z.shiftr (Z.land pte ageMask) ageShift) 3).
  - right; right. eexists. split; [|done]. rewrite !elem_of_cons. lia.
  - by destruct vacate; simpl; [|left].
Qed.

(** ** The laws *)
Lemma set_if_dirty_present b : flag (set_if b status_dirty status_present) status_present = true.
Proof. by destruct b. Qed.
Lemma set_if_dirty b : flag (set_if b status_dirty status_present) status_dirty = b.
Proof. by destruct b. Qed.

(** Case analysis on the result of [age_entry]. *)
Ltac split_age :=
  lazymatch goal with
  | |- context [age_entry ?p ?a ?m ?s ?pte ?v] =>
      pose proof (age_entry_spec p a m s pte v) as Hage; destruct (age_entry p a m s pte v) as [pte' []];
      specialize (Hage ltac:(vm_compute; discriminate));
      [exact Hage|destruct Hage as [->|[->|(age & Hage & ->)]]; [done|..];
        [|rewrite !elem_of_cons, elem_of_nil in Hage; destruct Hage as [->|[->|[->|[]]]]]]
  end.
Ltac unfold_policy policy :=
  cbn [maxLevels numLevels bitsPerLevel ptePagePresent ptePageCanAccess ptePageAddress ptePageStatus
    pteClean pteAge pteBuild pteTablePresent pteTableAddress pteNewTable policy].
(** Case analysis on the arguments of [pteBuild]. *)
Ltac build_cases Hb flags mode :=
  destruct (flag flags access_write) eqn:?, (flag flags access_execute) eqn:?, mode;
  unfold set_if in Hb; cbn [negb] in Hb; inv_outcome; subst.

#[export] Instance x86_laws kernel : @CursorPolicyLaws (X86.policy kernel).
Proof.
  split; unfold_policy X86.policy; try done.
  - lia.
  - intros pte. unfold X86.status. destruct (flag pte X86.ptePresent); [apply set_if_dirty_present|done].
  - intros pte Hp. unfold X86.status. by rewrite Hp.
  - intros pte. by rewrite <-Z.land_assoc, Z.land_0_r.
  - intros pte. by flags_norm.
  - intros pte. by land_norm.
  - intros pte. unfold X86.status. flags_norm. by destruct (flag pte X86.ptePresent).
  - intros pte vacate. split_age; unfold X86.status, X86.canAccess; flags_norm; land_norm; done.
  - intros pa flags mode pte Hpa Hb. unfold X86.build in Hb.
    destruct kernel; build_cases Hb flags mode; (split; [by flags_norm|by land_norm]).
  - intros pa flags mode pte access Hpa Hb Hacc. unfold X86.build in Hb.
    destruct kernel; build_cases Hb flags mode; destruct Hacc as [-> | ->]; try done;
      unfold X86.canAccess; flags_norm; done.
  - intros pa Hpa. split; [by flags_norm|by land_norm].
Qed.

Lemma riscv_address pa pte : page_address pa →
  Z.land pte Riscv.ptePpnMask = Z.land (Z.shiftr pa 2) Riscv.ptePpnMask → Riscv.address pte = pa.
Proof.
  intros Hp E. unfold Riscv.address. rewrite E. pose proof Hp as [Hb Hm].
  rewrite <-(page_address_bits pa Hp), Z.shiftr_land, <-Z.land_assoc.
  change (Z.land (Z.shiftr addressBits 2) Riscv.ptePpnMask) with (Z.shiftr addressBits 2).
  rewrite <-Z.shiftr_land, page_address_bits by done.
  rewrite Z.shiftr_div_pow2, Z.shiftl_mul_pow2 by done. unfold kPageSize in Hm.
  rewrite u64_small; change (2 ^ 2) with 4; Z.div_mod_to_equations; lia.
Qed.

Lemma riscv_address_aligned pte : Z.land (Riscv.address pte) 0xFFF = 0.
Proof.
  unfold Riscv.address, u64, wrap. rewrite <-(Z.land_ones _ 64) by lia.
  rewrite <-Z.land_assoc, Z.shiftl_land, <-Z.land_assoc. apply Z.land_0_r.
Qed.

Lemma riscv_laws kernel levels : (1 ≤ levels ≤ 4)%nat → @CursorPolicyLaws (Riscv.policy kernel levels).
Proof.
  intros Hl. split; unfold_policy Riscv.policy; try done.
  - intros pte. unfold Riscv.status, Riscv.present.
    destruct (flag pte Riscv.pteValid), (flag pte Riscv.pteRead); try done. apply set_if_dirty_present.
  - intros pte. unfold Riscv.status, Riscv.present.
    by destruct (flag pte Riscv.pteValid), (flag pte Riscv.pteRead).
  - apply riscv_address_aligned.
  - intros pte. unfold Riscv.present. by flags_norm.
  - intros pte. unfold Riscv.address. by land_norm.
  - intros pte. unfold Riscv.status. flags_norm.
    by destruct (flag pte Riscv.pteValid), (flag pte Riscv.pteRead).
  - intros pte vacate. split_age; unfold Riscv.status, Riscv.canAccess, Riscv.present, Riscv.address;
      flags_norm; land_norm; done.
  - intros pa flags mode pte Hpa Hb. unfold Riscv.build in Hb.
    destruct kernel; build_cases Hb flags mode;
      (split; [unfold Riscv.present; by flags_norm|apply riscv_address; [done|by land_norm]]).
  - intros pa flags mode pte access Hpa Hb Hacc. unfold Riscv.build in Hb.
    destruct kernel; build_cases Hb flags mode; destruct Hacc as [-> | ->]; try done;
      unfold Riscv.canAccess; flags_norm; done.
  - intros pa Hpa. split; [by flags_norm|]. apply riscv_address; [done|by land_norm].
Qed.

#[export] Instance arm_laws kernel : @CursorPolicyLaws (Arm.policy kernel).
Proof.
  split; unfold_policy Arm.policy; try done.
  - lia.
  - intros pte. unfold Arm.status. destruct (flag pte Arm.kPageValid); [apply set_if_dirty_present|done].
  - intros pte Hp. unfold Arm.status. by rewrite Hp.
  - intros pte. by rewrite <-Z.land_assoc, Z.land_0_r.
  - intros pte. by flags_norm.
  - intros pte. by land_norm.
  - intros pte. unfold Arm.status. flags_norm.
    by destruct (flag pte Arm.kPageValid), (flag pte Arm.kPageShouldBeWritable).
  - intros pte vacate. split_age; unfold Arm.status, Arm.canAccess; destruct kernel; flags_norm; land_norm; done.
  - intros pa flags mode pte Hpa Hb. unfold Arm.build in Hb.
    destruct kernel; build_cases Hb flags mode; (split; [by flags_norm|by land_norm]).
  - intros pa flags mode pte access Hpa Hb Hacc. unfold Arm.build in Hb.
    destruct kernel; build_cases Hb flags mode; destruct Hacc as [-> | ->]; try done;
      unfold Arm.canAccess; flags_norm; done.
  - intros pa Hpa. split; [by flags_norm|by land_norm].
Qed.

#[export] Instance ept_laws : @CursorPolicyLaws Ept.policy.
Proof.
  split; unfold_policy Ept.policy; try done.
  - lia.
  - intros pte. unfold Ept.status. destruct (flag pte Ept.eptRead); [apply set_if_dirty_present|done].
  - intros pte Hp. unfold Ept.status. by rewrite Hp.
  - intros pte. by rewrite <-Z.land_assoc, Z.land_0_r.
  - intros pte. by flags_norm.
  - intros pte. by land_norm.
  - intros pte. unfold Ept.status. flags_norm. by destruct (flag pte Ept.eptRead).
  - intros pa flags mode pte Hpa Hb. unfold Ept.build in Hb.
    build_cases Hb flags mode; (split; [by flags_norm|by land_norm]).
  - intros pa flags mode pte access Hpa Hb Hacc. unfold Ept.build in Hb.
    build_cases Hb flags mode; destruct Hacc as [-> | ->]; try done;
      unfold Ept.canAccess; flags_norm; done.
  - intros pa Hpa. split; [by flags_norm|by land_norm].
Qed.

#[export] Instance npt_laws : @CursorPolicyLaws Npt.policy.
Proof.
  split; unfold_policy Npt.policy; try done.
  - lia.
  - intros pte. unfold Npt.status. destruct (flag pte Npt.nptPresent); [apply set_if_dirty_present|done].
  - intros pte Hp. unfold Npt.status. by rewrite Hp.
  - intros pte. by rewrite <-Z.land_assoc, Z.land_0_r.
  - intros pte. by flags_norm.
  - intros pte. by land_norm.
  - intros pte. unfold Npt.status. flags_norm. by destruct (flag pte Npt.nptPresent).
  - intros pa flags mode pte Hpa Hb. unfold Npt.build in Hb.
    build_cases Hb flags mode; (split; [by flags_norm|by land_norm]).
  - intros pa flags mode pte access Hpa Hb Hacc. unfold Npt.build in Hb.
    build_cases Hb flags mode; destruct Hacc as [-> | ->]; try done;
      unfold Npt.canAccess; flags_norm; done.
  - intros pa Hpa. split; [by flags_norm|by land_norm].
Qed.

Lemma iommu_laws levels : (1 ≤ levels ≤ 5)%nat → @CursorPolicyLaws (IntelIommu.policy levels).
Proof.
  intros Hl. split; unfold_policy IntelIommu.policy; try done.
  - intros pte. unfold IntelIommu.status.
    destruct (flag pte IntelIommu.iommuRead); [apply set_if_dirty_present|done].
  - intros pte Hp. unfold IntelIommu.status. by rewrite Hp.
  - intros pte. by rewrite <-Z.land_assoc, Z.land_0_r.
  - intros pte. by flags_norm.
  - intros pte. by land_norm.
  - intros pte. unfold IntelIommu.status. flags_norm. by destruct (flag pte IntelIommu.iommuRead).
  - intros pa flags mode pte Hpa Hb. unfold IntelIommu.build in Hb.
    build_cases Hb flags mode; (split; [by flags_norm|by land_norm]).
  - intros pa flags mode pte access Hpa Hb Hacc. unfold IntelIommu.build in Hb.
    build_cases Hb flags mode; destruct Hacc as [-> | ->]; try done;
      unfold IntelIommu.canAccess; flags_norm; done.
  - intros pa Hpa. split; [by flags_norm|by land_norm].
Qed.

(** ** Access rights *)

(** The entries that the x86, RISC-V and EPT formats build grant exactly the
    write and execute rights asked for, name the page they were built for, and
    cleaning an entry only removes the dirty status, not any right. *)
Theorem build_access_exact (kernel : bool) (levels : nat) (policy : CursorPolicy)
    (pa flags : Z) (mode : CachingMode) (pte : Z) :
  policy ∈ [X86.policy kernel; Riscv.policy kernel levels; Ept.policy] →
  page_address pa → pteBuild pa flags mode = Ret pte →
  ptePageCanAccess pte access_write = flag flags access_write ∧
  ptePageCanAccess pte access_execute = flag flags access_execute ∧
  ptePageAddress pte = pa ∧
  ∀ access, ptePageCanAccess (pteClean pte) access = ptePageCanAccess pte access.
Proof.
  rewrite !elem_of_cons, elem_of_nil. intros [->|[->|[->|[]]]] Hpa; unfold_policy X86.policy;
    unfold_policy Riscv.policy; unfold_policy Ept.policy; intros Hb.
  - pose proof (law_build (CursorPolicyLaws := x86_laws kernel) pa flags mode pte Hpa Hb) as [_ Ha].
    unfold X86.build in Hb. unfold X86.canAccess.
    destruct kernel; build_cases Hb flags mode; split_and!; try done; intros; flags_norm; done.
  - assert (Riscv.address pte = pa) as Ha.
    { unfold Riscv.build in Hb. destruct kernel; build_cases Hb flags mode;
      (apply riscv_address; [done|by land_norm]). }
    unfold Riscv.build in Hb. unfold Riscv.canAccess.
    destruct kernel; build_cases Hb flags mode; split_and!; try done; intros; flags_norm; done.
  - pose proof (law_build (CursorPolicyLaws := ept_laws) pa flags mode pte Hpa Hb) as [_ Ha].
    unfold Ept.build in Hb. unfold Ept.canAccess.
    build_cases Hb flags mode; split_and!; try done; intros; flags_norm; done.
Qed.

(** *** The rights that the hardware grants

    [grants pte access]: the memory management unit lets a write or an instruction
    fetch through a present entry, by the bits of the entry that the architecture
    defines.  [ptePageCanAccess] sees exactly these rights, and [pteBuild] grants
    every right it is asked for.  This holds for x86, RISC-V and EPT; on ARM and in
    the nested page tables of SVM [ptePageCanAccess] looks at other bits. *)
Class HardwareRights `{!CursorPolicy} := {
  grants : Z → Z → bool;
  grants_seen pte access : access = access_write ∨ access = access_execute →
    ptePagePresent pte = true → ptePageCanAccess pte access = grants pte access;
  grants_built pa flags mode pte access : access = access_write ∨ access = access_execute →
    page_address pa → pteBuild pa flags mode = Ret pte → flag flags access = true →
    grants pte access = true;
}.

Lemma flag_testbit x i : 0 ≤ i → flag x (2 ^ i) = Z.testbit x i.
Proof.
  intros Hi. unfold flag. destruct (Z.eqb_spec (Z.land x (2 ^ i)) 0) as [E|E]; cbn [negb].
  - apply (f_equal (λ z, Z.testbit z i)) in E. rewrite Z.land_spec, Z.pow2_bits_true, andb_true_r, Z.testbit_0_l in E by done.
    done.
  - destruct (Z.testbit x i) eqn:Ex; [done|]. destruct E. apply Z.bits_inj'. intros j Hj.
    rewrite Z.land_spec, Z.testbit_0_l. destruct (Z.eq_dec j i) as [->|Hne]; [by rewrite Ex|].
    by rewrite Z.pow2_bits_false, andb_false_r by congruence.
Qed.

(** Bit 1 of an x86 entry allows writes, bit 2 user accesses, and bit 63 forbids fetches. *)
Definition x86_grants (kernel : bool) (pte access : Z) : bool :=
  (kernel || Z.testbit pte 2) && (if access =? access_write then Z.testbit pte 1 else negb (Z.testbit pte 63)).
Lemma x86_seen kernel pte access : access = access_write ∨ access = access_execute →
  flag pte X86.ptePresent = true → X86.canAccess kernel pte access = x86_grants kernel pte access.
Proof.
  intros Ha Hp. unfold X86.canAccess, x86_grants. rewrite Hp, <-!flag_testbit by done.
  change (2 ^ 2) with X86.pteUser. change (2 ^ 1) with X86.pteWrite. change (2 ^ 63) with X86.pteXd.
  destruct Ha as [-> | ->]; cbn; destruct kernel, (flag pte X86.pteUser), (flag pte X86.pteWrite), (flag pte X86.pteXd); done.
Qed.
#[export] Instance x86_rights kernel : @HardwareRights (X86.policy kernel).
Proof.
  refine (@Build_HardwareRights (X86.policy kernel) (x86_grants kernel) (x86_seen kernel) _).
  intros pa flags mode pte access Ha Hpa Hb Hf.
  destruct (build_access_exact kernel 4 (X86.policy kernel) pa flags mode pte) as (Hw & Hx & _); [set_solver|done..|].
  destruct (law_build (CursorPolicyLaws := x86_laws kernel) pa flags mode pte Hpa Hb) as [Hp _].
  rewrite <-(x86_seen kernel pte access Ha Hp). destruct Ha as [-> | ->]; by rewrite <-Hf.
Defined.

(** Bits 2, 3 and 4 of a RISC-V entry allow writes, fetches and user accesses. *)
Definition riscv_grants (kernel : bool) (pte access : Z) : bool :=
  (kernel || Z.testbit pte 4) && (if access =? access_write then Z.testbit pte 2 else Z.testbit pte 3).
Lemma riscv_seen kernel pte access : access = access_write ∨ access = access_execute →
  Riscv.present pte = true → Riscv.canAccess kernel pte access = riscv_grants kernel pte access.
Proof.
  intros Ha [Hp _]%andb_true_iff. unfold Riscv.canAccess, riscv_grants. rewrite Hp, <-!flag_testbit by done.
  change (2 ^ 4) with Riscv.pteUser. change (2 ^ 2) with Riscv.pteWrite. change (2 ^ 3) with Riscv.pteExecute.
  destruct Ha as [-> | ->]; cbn; destruct kernel, (flag pte Riscv.pteUser), (flag pte Riscv.pteWrite), (flag pte Riscv.pteExecute); done.
Qed.
#[export] Instance riscv_rights kernel levels : @HardwareRights (Riscv.policy kernel levels).
Proof.
  refine (@Build_HardwareRights (Riscv.policy kernel levels) (riscv_grants kernel) (riscv_seen kernel) _).
  intros pa flags mode pte access Ha Hpa Hb Hf.
  destruct (build_access_exact kernel levels (Riscv.policy kernel levels) pa flags mode pte) as (Hw & Hx & _); [set_solver|done..|].
  assert (Riscv.present pte = true) as Hp.
  { change (Riscv.build kernel pa flags mode = Ret pte) in Hb. unfold Riscv.build in Hb. unfold Riscv.present.
    destruct kernel; build_cases Hb flags mode; flags_norm; done. }
  rewrite <-(riscv_seen kernel pte access Ha Hp). destruct Ha as [-> | ->]; by rewrite <-Hf.
Defined.

(** Bits 1 and 2 of an entry of the extended page tables allow writes and fetches. *)
Definition ept_grants (pte access : Z) : bool :=
  if access =? access_write then Z.testbit pte 1 else Z.testbit pte 2.
Lemma ept_seen pte access : access = access_write ∨ access = access_execute →
  Ept.canAccess pte access = ept_grants pte access.
Proof.
  intros Ha. unfold Ept.canAccess, ept_grants. rewrite <-!flag_testbit by done.
  change (2 ^ 1) with Ept.eptWrite. change (2 ^ 2) with Ept.eptExecute.
  destruct Ha as [-> | ->]; cbn; destruct (flag pte Ept.eptWrite), (flag pte Ept.eptExecute); done.
Qed.
#[export] Instance ept_rights : @HardwareRights Ept.policy.
Proof.
  refine (@Build_HardwareRights Ept.policy ept_grants (λ pte access Ha _, ept_seen pte access Ha) _).
  intros pa flags mode pte access Ha Hpa Hb Hf.
  destruct (build_access_exact true 4 Ept.policy pa flags mode pte) as (Hw & Hx & _); [set_solver|done..|].
  rewrite <-(ept_seen pte access Ha). destruct Ha as [-> | ->]; by rewrite <-Hf.
Defined.

(** On ARM the check of execute rights tests the bit for privileged accesses
    on user pages, and that bit is set on every user page: no entry that the user
    policy builds ever counts as executable, whatever was asked for. *)
Theorem arm_user_execute_unseen (pa flags : Z) (mode : CachingMode) (pte : Z) :
  page_address pa → Arm.build false pa flags mode = Ret pte →
  Arm.canAccess false pte access_execute = false ∧
  flag pte Arm.kPageXN = negb (flag flags access_execute).
Proof.
  intros Hpa Hb. unfold Arm.build in Hb. unfold Arm.canAccess.
  build_cases Hb flags mode; split; flags_norm; done.
Qed.

(** In the nested page tables of SVM the execute-disable bit is the dirty bit.
    A page mapped without execute rights counts as dirty from the start, and
    cleaning it makes it executable. *)
Theorem npt_execute_disable_is_dirty (pa flags : Z) (mode : CachingMode) (pte : Z) :
  page_address pa → Npt.build pa flags mode = Ret pte → flag flags access_execute = false →
  Npt.canAccess pte access_execute = false ∧
  flag (Npt.status pte) status_dirty = true ∧
  Npt.canAccess (@pteClean Npt.policy pte) access_execute = true.
Proof.
  intros Hpa Hb Hx. unfold_policy Npt.policy. unfold Npt.build in Hb. unfold Npt.canAccess, Npt.status.
  rewrite Hx in Hb. destruct (flag flags access_write) eqn:?, mode;
    unfold set_if in Hb; cbn [negb] in Hb; inv_outcome; subst; split_and!; flags_norm; done.
Qed.

Lemma build_access_exact_witness :
  ∃ pte, X86.build false 0x7000 access_read CM_null = Ret pte ∧
    X86.canAccess false pte access_write = false.
Proof.
  eexists. split; [reflexivity|].
  edestruct (build_access_exact false 4 (X86.policy false) 0x7000 access_read CM_null) as [H _];
    [set_solver|done|reflexivity|exact H].
Defined.

Lemma arm_user_execute_unseen_witness :
  ∃ pte, Arm.build false 0x7000 (Z.lor access_read access_execute) CM_null = Ret pte ∧
    Arm.canAccess false pte access_execute = false.
Proof.
  eexists. split; [reflexivity|].
  refine (proj1 (arm_user_execute_unseen 0x7000 (Z.lor access_read access_execute) CM_null _ _ _)).
  - done.
  - reflexivity.
Defined.

Lemma npt_execute_disable_is_dirty_witness :
  ∃ pte, Npt.build 0x7000 access_read CM_writeBack = Ret pte ∧
    flag (Npt.status pte) status_dirty = true.
Proof.
  eexists. split; [reflexivity|].
  refine (proj1 (proj2 (npt_execute_disable_is_dirty 0x7000 access_read CM_writeBack _ _ _ _))); done.
Defined.
