(* ===== verification/PageCursor.v ===== *)
(** * The page table cursor

    [PageCursor] of kernel/thor/generic/thor-internal/arch-generic/cursor.hpp walks a
    multi-level page table.  It caches the tables on the path to its current
    address, moves from page to page, and reads and exchanges page table entries,
    allocating missing tables on the way.

    Physical memory is a map from the addresses of tables to their entries, absent
    entries being zero; [pt_pool] is the sequence of pages that the physical
    allocator hands out next.  An accessor is the physical address of a page. *)
From Stdlib Require Import ZArith Lia.
From stdpp Require Import base list numbers option gmap.
From S2P Require Import Prelude PageConsts CursorPolicy.
Open Scope Z_scope.

Record PageTables := MkTables {
  pt_mem : gmap Z (gmap Z Z);
  pt_pool : list Z;
}.

Definition read_pte (pt : PageTables) (t i : Z) : Z := default 0 (default ∅ (pt_mem pt !! t) !! i).
Definition write_pte (pt : PageTables) (t i pte : Z) : PageTables :=
  MkTables (<[t := <[i := pte]> (default ∅ (pt_mem pt !! t))]> (pt_mem pt)) (pt_pool pt).

(** The constructor of [PageAccessor]. *)
Definition accessor (physical : Z) : outcome Z :=
  assert! negb (physical =? 2 ^ 64 - 1);
  assert! Z.land physical 0xFFF =? 0;
  assert! physical <? 0x400000000000;
  Ret physical.

Record PageCursor := MkCursor {
  c_va : Z;
  c_accessors : list (option Z);
}.

Section cursor.
Context {policy : CursorPolicy}.

Definition levelMask : Z := Z.shiftl 1 bitsPerLevel - 1.
Definition lastLevel : nat := maxLevels - 1.
Definition initialLevel : nat := maxLevels - numLevels.
Definition levelShift (level : nat) : Z := bitsPerLevel * (Z.of_nat maxLevels - 1 - Z.of_nat level) + 12.
Definition index (va : Z) (level : nat) : Z := Z.land (Z.shiftr va (levelShift level)) levelMask.

(** A fresh zeroed table and its entry: [pteNewTable]. *)
Definition newTable (pt : PageTables) : outcome (Z * PageTables) :=
  match pt_pool pt with
  | [] => Stop AssertionFailed
  | newPtAddr :: pool =>
      newPtAddr ← accessor newPtAddr;
      Ret (pteNewTable newPtAddr, MkTables (<[newPtAddr := ∅]> (pt_mem pt)) pool)
  end.

Definition doReloadLevel (pt : PageTables) (va : Z) (accessors : list (option Z)) (level : nat)
    : outcome (bool * list (option Z)) :=
  table ← deref (mjoin (accessors !! level));
  let ptEnt := read_pte pt table (index va level) in
  if negb (pteTablePresent ptEnt) then Ret (false, accessors)
  else subPt ← accessor (pteTableAddress ptEnt); Ret (true, <[S level := Some subPt]> accessors).

Fixpoint reloadLevel (pt : PageTables) (va : Z) (accessors : list (option Z)) (level : nat)
    : outcome (bool * list (option Z)) :=
  match mjoin (accessors !! level) with
  | Some _ => Ret (true, accessors)
  | None =>
      assert! negb (level =? initialLevel)%nat;
      match level with
      | O => Stop OutOfBounds
      | S level =>
          '(ok, accessors) ← reloadLevel pt va accessors level;
          if negb ok then Ret (false, accessors) else doReloadLevel pt va accessors level
      end
  end.

Definition doRealizeLevel (pt : PageTables) (va : Z) (accessors : list (option Z)) (level : nat)
    : outcome (PageTables * list (option Z)) :=
  table ← deref (mjoin (accessors !! level));
  let ptEnt := read_pte pt table (index va level) in
  if pteTablePresent ptEnt then
    subPt ← accessor (pteTableAddress ptEnt);
    Ret (pt, <[S level := Some subPt]> accessors)
  else
    '(ptEnt, pt) ← newTable pt;
    subPt ← accessor (pteTableAddress ptEnt);
    Ret (write_pte pt table (index va level) ptEnt, <[S level := Some subPt]> accessors).

Fixpoint realizeLevel (pt : PageTables) (va : Z) (accessors : list (option Z)) (level : nat)
    : outcome (PageTables * list (option Z)) :=
  match mjoin (accessors !! level) with
  | Some _ => Ret (pt, accessors)
  | None =>
      assert! negb (level =? initialLevel)%nat;
      match level with
      | O => Stop OutOfBounds
      | S level =>
          '(pt, accessors) ← realizeLevel pt va accessors level;
          doRealizeLevel pt va accessors level
      end
  end.

(** Whether two addresses differ in the index of a level. *)
Definition levelChanged (va va' : Z) (level : nat) : bool :=
  flag (Z.lxor va va') (u64 (Z.shiftl levelMask (levelShift level))).

Definition moveTo (pt : PageTables) (c : PageCursor) (va : Z) : outcome PageCursor :=
  let accessors :=
    match list_find (λ i, levelChanged (c_va c) va i = true)
            (seq (S initialLevel) (maxLevels - S initialLevel)) with
    | Some (_, i) => take i (c_accessors c) ++ replicate (maxLevels - i) None
    | None => c_accessors c
    end in
  '(_, accessors) ← reloadLevel pt va accessors lastLevel;
  Ret (MkCursor va accessors).

Definition newCursor (pt : PageTables) (rootTable va : Z) : outcome PageCursor :=
  root ← accessor rootTable;
  moveTo pt (MkCursor 0 (<[initialLevel := Some root]> (replicate maxLevels None))) va.

Definition advance4k (pt : PageTables) (c : PageCursor) : outcome PageCursor :=
  moveTo pt c (u64 (c_va c + kPageSize)).

(** ** Entries *)
Definition lastTable (c : PageCursor) : option Z := mjoin (c_accessors c !! lastLevel).
Definition currentIndex (c : PageCursor) : Z := Z.land (Z.shiftr (c_va c) 12) levelMask.

Definition readCurrentPte (pt : PageTables) (c : PageCursor) : outcome Z :=
  table ← deref (lastTable c);
  Ret (read_pte pt table (currentIndex c)).

Definition exchangeCurrentPte (pt : PageTables) (c : PageCursor) (value : Z)
    : outcome (Z * PageTables) :=
  table ← deref (lastTable c);
  Ret (read_pte pt table (currentIndex c), write_pte pt table (currentIndex c) value).

(** The search of [findPresent] and [findDirty]. *)
Fixpoint findEntry (fuel : nat) (wanted : Z → bool) (pt : PageTables) (c : PageCursor) (limit : Z)
    : outcome (bool * PageCursor) :=
  match fuel with
  | O => Stop OutOfFuel
  | S fuel =>
      if c_va c <? limit then
        match lastTable c with
        | None => c ← advance4k pt c; findEntry fuel wanted pt c limit
        | Some _ =>
            ptEnt ← readCurrentPte pt c;
            if wanted ptEnt then Ret (true, c)
            else c ← advance4k pt c; findEntry fuel wanted pt c limit
        end
      else Ret (false, c)
  end.

Definition find_fuel (c : PageCursor) (limit : Z) : nat := S (Z.to_nat (limit - c_va c)).
Definition findPresent (pt : PageTables) (c : PageCursor) (limit : Z) : outcome (bool * PageCursor) :=
  findEntry (find_fuel c limit) ptePagePresent pt c limit.
Definition pteDirtyPage (pte : Z) : bool :=
  ptePagePresent pte && flag (ptePageStatus pte) status_dirty.
Definition findDirty (pt : PageTables) (c : PageCursor) (limit : Z) : outcome (bool * PageCursor) :=
  findEntry (find_fuel c limit) pteDirtyPage pt c limit.

Definition realizePts (pt : PageTables) (c : PageCursor) : outcome (PageTables * PageCursor) :=
  match lastTable c with
  | Some _ => Ret (pt, c)
  | None =>
      '(pt, accessors) ← realizeLevel pt (c_va c) (c_accessors c) lastLevel;
      Ret (pt, MkCursor (c_va c) accessors)
  end.

(** Results: the status and the address of the old entry. *)
Definition map4k (pt : PageTables) (c : PageCursor) (pa flags : Z) (cachingMode : CachingMode)
    : outcome (Z * Z * PageTables * PageCursor) :=
  '(pt, c) ← realizePts pt c;
  newPte ← pteBuild pa flags cachingMode;
  '(oldPte, pt) ← exchangeCurrentPte pt c newPte;
  Ret (ptePageStatus oldPte, ptePageAddress oldPte, pt, c).

Definition remap4k (pt : PageTables) (c : PageCursor) (pa flags : Z) (cachingMode : CachingMode)
    : outcome (Z * Z * PageTables * PageCursor) :=
  '(pt, c) ← realizePts pt c;
  ptEnt ← pteBuild pa flags cachingMode;
  '(ptEnt, pt) ← exchangeCurrentPte pt c ptEnt;
  Ret (ptePageStatus ptEnt, ptePageAddress ptEnt, pt, c).

Definition no_address : Z := 2 ^ 64 - 1.

Definition restrict4k (pt : PageTables) (c : PageCursor) (flags : Z) (cachingMode : CachingMode)
    : outcome (Z * Z * bool * PageTables) :=
  match lastTable c with
  | None => Ret (0, no_address, false, pt)
  | Some _ =>
      oldPte ← readCurrentPte pt c;
      if negb (ptePagePresent oldPte) then Ret (0, no_address, false, pt)
      else
        let effectiveFlags :=
          if negb (ptePageCanAccess oldPte access_write) then Z.ldiff flags access_write else flags in
        let effectiveFlags :=
          if negb (ptePageCanAccess oldPte access_execute) then Z.ldiff effectiveFlags access_execute
          else effectiveFlags in
        newPte ← pteBuild (ptePageAddress oldPte) effectiveFlags cachingMode;
        '(oldPte, pt) ← exchangeCurrentPte pt c newPte;
        let restricted := negb (flag flags access_write) && ptePageCanAccess oldPte access_write in
        let restricted := if negb (flag flags access_execute) && ptePageCanAccess oldPte access_execute
                          then true else restricted in
        Ret (ptePageStatus oldPte, ptePageAddress oldPte, restricted, pt)
  end.

Definition clean4k (pt : PageTables) (c : PageCursor) : outcome (Z * Z * PageTables) :=
  match lastTable c with
  | None => Ret (0, no_address, pt)
  | Some _ =>
      ptEnt ← readCurrentPte pt c;
      '(ptEnt, pt) ← exchangeCurrentPte pt c (pteClean ptEnt);
      Ret (ptePageStatus ptEnt, ptePageAddress ptEnt, pt)
  end.

Definition unmap4k (pt : PageTables) (c : PageCursor) : outcome (Z * Z * PageTables) :=
  match lastTable c with
  | None => Ret (0, 0, pt)
  | Some _ =>
      '(ptEnt, pt) ← exchangeCurrentPte pt c 0;
      Ret (ptePageStatus ptEnt, ptePageAddress ptEnt, pt)
  end.

Definition age4k (pt : PageTables) (c : PageCursor) (vacate : bool) : outcome (Z * Z * bool * PageTables) :=
  match lastTable c with
  | None => Ret (0, no_address, false, pt)
  | Some _ =>
      oldPte ← readCurrentPte pt c;
      let '(newPte, unmapped) := pteAge oldPte vacate in
      '(oldPte, pt) ← exchangeCurrentPte pt c newPte;
      Ret (ptePageStatus oldPte, ptePageAddress oldPte, unmapped, pt)
  end.

(** ** The page table as a map from addresses to entries *)

(** The table of [n] levels below the root on the way to an address. *)
Fixpoint walk (pt : PageTables) (root va : Z) (n : nat) : option Z :=
  match n with
  | O => Some root
  | S n =>
      t ← walk pt root va n;
      let pte := read_pte pt t (index va (initialLevel + n)) in
      if pteTablePresent pte then Some (pteTableAddress pte) else None
  end.

Definition pte_of (pt : PageTables) (root va : Z) : Z :=
  match walk pt root va (numLevels - 1) with
  | Some t => read_pte pt t (index va lastLevel)
  | None => 0
  end.

(** Two addresses that agree in the indices of the first [n] levels. *)
Definition agree (n : nat) (va va' : Z) : Prop :=
  ∀ k, (k < n)%nat → index va (initialLevel + k) = index va' (initialLevel + k).
Definition same_page : Z → Z → Prop := agree numLevels.
End cursor.

(** ** Invariants *)
Section theory.
Context {policy : CursorPolicy} {laws : CursorPolicyLaws}.

(** A page table is a tree: a table is reached on one path only, and the pages the
    allocator hands out next are not part of it. *)
Record tables_ok (pt : PageTables) (root : Z) : Prop := {
  to_addresses va n t : (n < numLevels)%nat → walk pt root va n = Some t → page_address t;
  to_unique va n t va' n' : (n < numLevels)%nat → (n' < numLevels)%nat →
    walk pt root va n = Some t → walk pt root va' n' = Some t → n = n' ∧ agree n va va';
  to_pool va n t : (n < numLevels)%nat → walk pt root va n = Some t → t ∉ pt_pool pt;
  to_pool_nodup : NoDup (pt_pool pt);
  to_pool_addresses : Forall page_address (pt_pool pt);
}.

(** The accessors are those of the tables on the way to the address. *)
Record accessors_ok (pt : PageTables) (root va : Z) (accessors : list (option Z)) : Prop := {
  ao_length : length accessors = maxLevels;
  ao_root : mjoin (accessors !! initialLevel) = Some root;
  ao_walk n t : mjoin (accessors !! (initialLevel + n)%nat) = Some t → walk pt root va n = Some t;
}.

(** A cursor at an address, whose last accessor is up to date. *)
Record cursor_ok (pt : PageTables) (root : Z) (c : PageCursor) : Prop := {
  co_accessors : accessors_ok pt root (c_va c) (c_accessors c);
  co_last : lastTable c = walk pt root (c_va c) (numLevels - 1);
}.

(** ** Basic facts *)
Lemma last_level : lastLevel = (initialLevel + (numLevels - 1))%nat.
Proof. pose proof law_levels. unfold lastLevel, initialLevel. lia. Qed.

Lemma accessor_Ret pa : page_address pa → accessor pa = Ret pa.
Proof.
  intros [Hb Hm]. unfold accessor.
  rewrite assert_bind by (rewrite negb_true_iff; apply Z.eqb_neq; lia).
  rewrite assert_bind by (apply Z.eqb_eq; change 0xFFF with (Z.ones 12); by rewrite Z.land_ones).
  by rewrite assert_bind by (apply Z.ltb_lt; lia).
Qed.

Lemma read_write pt t i pte t' i' :
  read_pte (write_pte pt t i pte) t' i' = if decide (t = t' ∧ i = i') then pte else read_pte pt t' i'.
Proof.
  unfold read_pte, write_pte. simpl. destruct (decide (t = t')) as [<-|Ht].
  - rewrite lookup_insert. rewrite decide_True by done. simpl. destruct (decide (i = i')) as [<-|Hi].
    + rewrite lookup_insert, !decide_True by done. done.
    + rewrite lookup_insert_ne by done. by rewrite decide_False by naive_solver.
  - rewrite lookup_insert_ne by done. by rewrite decide_False by naive_solver.
Qed.

Lemma read_fresh pt pool t' a i :
  read_pte (MkTables (<[a := ∅]> (pt_mem pt)) pool) t' i = if decide (a = t') then 0 else read_pte pt t' i.
Proof.
  unfold read_pte. simpl. case_decide as Ha.
  - subst. rewrite lookup_insert, decide_True by done. simpl. by rewrite lookup_empty.
  - by rewrite lookup_insert_ne.
Qed.

Lemma agree_le n m va va' : (n ≤ m)%nat → agree m va va' → agree n va va'.
Proof. intros Hl Ha k Hk. apply Ha. lia. Qed.
Lemma agree_refl n va : agree n va va.
Proof. done. Qed.
Lemma agree_sym n va va' : agree n va va' → agree n va' va.
Proof. intros H k Hk. symmetry. by apply H. Qed.
Lemma agree_S n va va' :
  agree (S n) va va' ↔ agree n va va' ∧ index va (initialLevel + n) = index va' (initialLevel + n).
Proof.
  split.
  - intros H. split; [by apply (agree_le n (S n)); [lia|]|apply H; lia].
  - intros [H E] k Hk. destruct (decide (k = n)) as [->|]; [done|apply H; lia].
Qed.
#[global] Instance agree_dec n va va' : Decision (agree n va va').
Proof.
  induction n as [|n IH]; [left; intros k Hk; lia|].
  destruct IH as [IH|IH]; [|right; by intros [? _]%agree_S].
  destruct (decide (index va (initialLevel + n) = index va' (initialLevel + n))) as [E|E];
    [left; by apply agree_S|right; by intros [_ ?]%agree_S].
Defined.

Lemma walk_agree pt root va va' n : agree n va va' → walk pt root va n = walk pt root va' n.
Proof.
  induction n as [|n IH]; [done|]. intros [Ha E]%agree_S. simpl. rewrite (IH Ha).
  destruct (walk pt root va' n); simpl; [by rewrite E|done].
Qed.

Lemma walk_prefix pt root va n t : walk pt root va (S n) = Some t → is_Some (walk pt root va n).
Proof. simpl. destruct (walk pt root va n); [by eexists|done]. Qed.

Lemma walk_prefix_le pt root va n m : (n ≤ m)%nat → is_Some (walk pt root va m) → is_Some (walk pt root va n).
Proof. intros Hl. induction Hl as [|m Hl IH]; [done|]. intros [t Ht]. apply IH. by eapply walk_prefix. Qed.

(** ** Writing a page entry *)
Section leaf.
Context (pt : PageTables) (root va t : Z) (pte : Z).
Context (Hok : tables_ok pt root) (Ht : walk pt root va (numLevels - 1) = Some t).
Let pt' : PageTables := write_pte pt t (index va lastLevel) pte.

Lemma leaf_walk va' n : (n < numLevels)%nat → walk pt' root va' n = walk pt root va' n.
Proof.
  induction n as [|n IH]; intros Hn; [done|]. simpl. rewrite IH by lia.
  destruct (walk pt root va' n) as [t'|] eqn:E; [|done]. simpl. unfold pt'. rewrite read_write.
  rewrite decide_False; [done|]. intros [<- _].
  destruct (to_unique _ _ Hok va (numLevels - 1) t va' n) as [? _]; try done; lia.
Qed.

Lemma leaf_ok : tables_ok pt' root.
Proof.
  destruct Hok as [H1 H2 H3 H4 H5]. split; [| | |done..].
  - intros va' n t' Hn. rewrite leaf_walk by done. by apply H1.
  - intros va1 n1 t1 va2 n2 Hn1 Hn2. rewrite !leaf_walk by done. by apply H2.
  - intros va' n t' Hn. rewrite leaf_walk by done. by apply H3.
Qed.

Lemma leaf_pte va' :
  pte_of pt' root va' = if decide (same_page va va') then pte else pte_of pt root va'.
Proof.
  pose proof law_levels as Hl. unfold pte_of. rewrite leaf_walk by lia.
  destruct (walk pt root va' (numLevels - 1)) as [t'|] eqn:E.
  - unfold pt'. rewrite read_write. case_decide as Hd; case_decide as Hs; try done.
    + destruct Hd as [<- Hi]. destruct Hs. unfold same_page.
      destruct (to_unique _ _ Hok va (numLevels - 1) t va' (numLevels - 1)) as [_ Ha]; [lia..|done|done|].
      replace numLevels with (S (numLevels - 1)) by lia. apply agree_S. by rewrite <-last_level.
    + destruct Hd. unfold same_page in Hs. replace numLevels with (S (numLevels - 1)) in Hs by lia.
      apply agree_S in Hs as [Ha Hi]. rewrite <-last_level in Hi. split; [|done].
      rewrite (walk_agree _ _ _ _ _ Ha) in Ht. naive_solver.
  - case_decide as Hs; [|done]. rewrite (walk_agree _ _ va va') in Ht; [naive_solver|].
    by apply (agree_le _ numLevels); [lia|].
Qed.
End leaf.

(** ** Adding a table *)
Section table.
Context (pt : PageTables) (root va t a : Z) (pool : list Z) (n : nat).
Context (Hok : tables_ok pt root) (Hn : (S n < numLevels)%nat) (Ht : walk pt root va n = Some t).
Context (Habsent : pteTablePresent (read_pte pt t (index va (initialLevel + n))) = false).
Context (Hpool : pt_pool pt = a :: pool).
Let pt' : PageTables :=
  write_pte (MkTables (<[a := ∅]> (pt_mem pt)) pool) t (index va (initialLevel + n)) (pteNewTable a).

Lemma table_address : page_address a.
Proof. pose proof (to_pool_addresses _ _ Hok) as H. rewrite Hpool in H. by apply Forall_cons_1 in H as [? _]. Qed.

Lemma table_fresh va' m t' : (m < numLevels)%nat → walk pt root va' m = Some t' → t' ≠ a ∧ t' ∉ pool.
Proof. intros Hm Hw. pose proof (to_pool _ _ Hok va' m t' Hm Hw) as H. rewrite Hpool in H. set_solver. Qed.

Lemma table_read va' m t' : (m < numLevels)%nat → walk pt root va' m = Some t' →
  read_pte pt' t' (index va' (initialLevel + m)) =
  if decide (m = n ∧ agree (S n) va va') then pteNewTable a else read_pte pt t' (index va' (initialLevel + m)).
Proof.
  intros Hm Hw. unfold pt'. rewrite read_write, read_fresh.
  destruct (table_fresh va' m t' Hm Hw) as [Hne _]. rewrite (decide_False (P := a = t')) by congruence.
  case_decide as H1; case_decide as H2; try done.
  - destruct H1 as [<- Hi]. destruct H2.
    destruct (to_unique _ _ Hok va n t va' m) as [<- Ha]; [lia..|done|done|].
    split; [done|]. by apply agree_S.
  - destruct H2 as [-> [Ha Hi]%agree_S]. destruct H1. split; [|done].
    rewrite (walk_agree _ _ _ _ _ Ha) in Ht. naive_solver.
Qed.

Lemma table_absent va' m : (n < m)%nat → agree (S n) va va' → walk pt root va' m = None.
Proof.
  intros Hm [Ha Hi]%agree_S. destruct (walk pt root va' m) as [t'|] eqn:E; [|done].
  destruct (walk_prefix_le pt root va' (S n) m ltac:(lia) ltac:(by eexists)) as [t'' E'].
  simpl in E'. rewrite <-(walk_agree _ _ _ _ _ Ha), Ht in E'. simpl in E'.
  by rewrite <-Hi, Habsent in E'.
Qed.

Lemma table_walk va' m : (m < numLevels)%nat →
  walk pt' root va' m =
  if decide (n < m ∧ agree (S n) va va')%nat then (if decide (m = S n) then Some a else None)
  else walk pt root va' m.
Proof.
  induction m as [|m IH]; intros Hm; [rewrite decide_False by lia; done|].
  cbn [walk]. rewrite IH by lia. case_decide as H1.
  - destruct H1 as [H1 Ha]. rewrite (decide_True (P := (n < S m)%nat ∧ _)) by (split; [lia|done]).
    rewrite (decide_False (P := S m = S n)) by lia. case_decide as H2; [|done]. simpl.
    unfold pt'. rewrite read_write, read_fresh. rewrite decide_False.
    2:{ intros [E _]. destruct (table_fresh va n t) as [? _]; [lia|done|]. congruence. }
    rewrite decide_True by done. by rewrite law_zero_table.
  - destruct (walk pt root va' m) as [t'|] eqn:E; simpl.
    + rewrite table_read by (lia || done). case_decide as H2.
      * destruct H2 as [-> Ha]. destruct (law_new_table a table_address) as [-> ->].
        rewrite !decide_True by (done || (split; [lia|done])). done.
      * rewrite decide_False; [done|]. intros [H3 Ha].
        destruct (decide (m = n)) as [->|]; [by destruct H2|]. destruct H1. split; [lia|done].
    + case_decide as H2; [|done]. destruct H2 as [H2 Ha]. destruct (decide (m = n)) as [->|]; [|by destruct H1; split; [lia|]].
      rewrite <-(walk_agree pt root va va') in E by (by apply (agree_le n (S n)); [lia|]). by rewrite Ht in E.
Qed.

Lemma table_walk_Some va' m t' : (m < numLevels)%nat → walk pt' root va' m = Some t' →
  (m = S n ∧ agree (S n) va va' ∧ t' = a) ∨ walk pt root va' m = Some t'.
Proof.
  intros Hm. rewrite table_walk by done. case_decide as H1; [|by right].
  case_decide as H2; [|done]. intros [= <-]. left. naive_solver.
Qed.

Lemma table_ok : tables_ok pt' root.
Proof.
  pose proof (to_pool_nodup _ _ Hok) as Hnd. pose proof (to_pool_addresses _ _ Hok) as Hpa.
  rewrite Hpool in Hnd, Hpa. apply list.NoDup_cons in Hnd as [Ha Hnd]. apply Forall_cons_1 in Hpa as [_ Hpa].
  split; [| | |done..].
  - intros va' m t' Hm Hw. destruct (table_walk_Some va' m t' Hm Hw) as [(_ & _ & ->)|Hw']; [apply table_address|].
    by apply (to_addresses _ _ Hok va' m).
  - intros va1 m1 t1 va2 m2 Hm1 Hm2 Hw1 Hw2.
    destruct (table_walk_Some va1 m1 t1 Hm1 Hw1) as [(-> & Ha1 & ->)|Hw1'],
      (table_walk_Some va2 m2 _ Hm2 Hw2) as [(-> & Ha2 & E)|Hw2'].
    + split; [done|]. intros k Hk. by rewrite <-(Ha1 k Hk), <-(Ha2 k Hk).
    + by destruct (table_fresh va2 m2 a Hm2 Hw2').
    + subst. by destruct (table_fresh va1 m1 a Hm1 Hw1').
    + by apply (to_unique _ _ Hok va1 m1 t1 va2 m2).
  - intros va' m t' Hm Hw. destruct (table_walk_Some va' m t' Hm Hw) as [(_ & _ & ->)|Hw']; [done|].
    by apply (table_fresh va' m t').
Qed.

Lemma table_pte va' : pte_of pt' root va' = pte_of pt root va'.
Proof.
  pose proof law_levels as Hl. unfold pte_of. rewrite table_walk by lia. case_decide as H1.
  - destruct H1 as [H1 Ha]. rewrite (table_absent va' (numLevels - 1)) by done. case_decide; [|done].
    unfold pt'. rewrite read_write, read_fresh. rewrite decide_False; [by rewrite decide_True|].
    intros [E _]. destruct (table_fresh va n t) as [? _]; [lia|done|]. congruence.
  - destruct (walk pt root va' (numLevels - 1)) as [t'|] eqn:E; [|done].
    rewrite last_level, table_read by (lia || done). rewrite decide_False; [done|]. lia.
Qed.

Lemma table_keeps va' m t' : (m < numLevels)%nat → walk pt root va' m = Some t' → walk pt' root va' m = Some t'.
Proof.
  intros Hm Hw. rewrite table_walk by done. case_decide as H1; [|done].
  destruct H1 as [H1 Ha]. by rewrite (table_absent va' m) in Hw.
Qed.
End table.

(** ** Loading and allocating the tables on a path *)
Lemma accessors_insert pt root va acc n t : accessors_ok pt root va acc →
  (S n < numLevels)%nat → walk pt root va (S n) = Some t →
  accessors_ok pt root va (<[S (initialLevel + n) := Some t]> acc).
Proof.
  intros [H1 H2 H3] Hn Ht. split.
  - by rewrite length_insert.
  - by rewrite list_lookup_insert_ne by lia.
  - intros m t' Hm. destruct (decide (m = S n)) as [->|].
    + rewrite Nat.add_succ_r, list_lookup_insert_eq in Hm; [by simplify_eq/=|].
      rewrite H1. pose proof law_levels. unfold initialLevel. lia.
    + rewrite list_lookup_insert_ne in Hm by lia. by apply H3.
Qed.

Lemma reloadLevel_spec pt root va acc n : tables_ok pt root → accessors_ok pt root va acc →
  (n < numLevels)%nat →
  ∃ acc', reloadLevel pt va acc (initialLevel + n)
            = Ret (bool_decide (is_Some (walk pt root va n)), acc') ∧
    accessors_ok pt root va acc' ∧ mjoin (acc' !! (initialLevel + n)%nat) = walk pt root va n ∧
    ∀ m, (n < m)%nat → acc' !! (initialLevel + m)%nat = acc !! (initialLevel + m)%nat.
Proof.
  intros Hok Hacc. induction n as [|n IH]; intros Hn.
  { rewrite Nat.add_0_r. exists acc. pose proof (ao_root _ _ _ _ Hacc) as E.
    destruct initialLevel; simpl in *; rewrite E; split_and!; done. }
  rewrite Nat.add_succ_r. cbn [reloadLevel].
  destruct (mjoin (acc !! S (initialLevel + n))) as [t|] eqn:E.
  { exists acc. rewrite <-Nat.add_succ_r in E |- *. pose proof (ao_walk _ _ _ _ Hacc _ _ E) as Ew.
    rewrite Ew. split_and!; [by rewrite bool_decide_true|done..]. }
  rewrite assert_bind by (apply negb_true_iff, Nat.eqb_neq; lia).
  destruct IH as (acc1 & -> & Hacc1 & E1 & Hu); [lia|]. cbn [mbind outcome_bind].
  assert (mjoin (acc1 !! S (initialLevel + n)) = None) as E2.
  { by rewrite <-Nat.add_succ_r, Hu, Nat.add_succ_r by lia. }
  destruct (walk pt root va n) as [t|] eqn:Et.
  - rewrite bool_decide_true by done. cbn [negb]. unfold doReloadLevel. rewrite E1. cbn [deref mbind outcome_bind].
    destruct (pteTablePresent (read_pte pt t (index va (initialLevel + n)))) eqn:Hp; cbn [negb].
    + set (t' := pteTableAddress _).
      assert (walk pt root va (S n) = Some t') as Ew by (by simpl; rewrite Et; simpl; rewrite Hp).
      rewrite accessor_Ret by (by apply (to_addresses _ _ Hok va (S n))). cbn [mbind outcome_bind].
      eexists. rewrite Ew. split_and!; [by rewrite bool_decide_true|by apply accessors_insert| |].
      * rewrite list_lookup_insert_eq; [done|]. rewrite (ao_length _ _ _ _ Hacc1).
        pose proof law_levels. unfold initialLevel. lia.
      * intros m Hm. rewrite list_lookup_insert_ne by lia. apply Hu. lia.
    + exists acc1. assert (walk pt root va (S n) = None) as -> by (by simpl; rewrite Et; simpl; rewrite Hp).
      rewrite bool_decide_false by (by intros [? ?]). split_and!; [done..|]. intros m Hm. apply Hu. lia.
  - rewrite bool_decide_false by (by intros [? ?]). exists acc1.
    assert (walk pt root va (S n) = None) as -> by (by simpl; rewrite Et).
    rewrite bool_decide_false by (by intros [? ?]). split_and!; [done..|]. intros m Hm. apply Hu. lia.
Qed.

Lemma realizeLevel_spec root va n : ∀ pt acc, tables_ok pt root → accessors_ok pt root va acc →
  (n < numLevels)%nat → (n ≤ length (pt_pool pt))%nat →
  ∃ pt' acc' t, realizeLevel pt va acc (initialLevel + n) = Ret (pt', acc') ∧
    tables_ok pt' root ∧ accessors_ok pt' root va acc' ∧
    mjoin (acc' !! (initialLevel + n)%nat) = Some t ∧ (length (pt_pool pt) ≤ length (pt_pool pt') + n)%nat ∧
    ∀ va', pte_of pt' root va' = pte_of pt root va'.
Proof.
  induction n as [|n IH]; intros pt acc Hok Hacc Hn Hpool.
  { rewrite Nat.add_0_r. exists pt, acc, root. pose proof (ao_root _ _ _ _ Hacc) as E.
    destruct initialLevel; simpl in *; rewrite E; split_and!; done || lia. }
  rewrite Nat.add_succ_r. cbn [realizeLevel].
  destruct (mjoin (acc !! S (initialLevel + n))) as [t|] eqn:E.
  { exists pt, acc, t. split_and!; done || lia. }
  rewrite assert_bind by (apply negb_true_iff, Nat.eqb_neq; lia).
  destruct (IH pt acc) as (pt1 & acc1 & t & -> & Hok1 & Hacc1 & E1 & Hlen & Hpte); [done|done|lia|lia|].
  cbn [mbind outcome_bind]. unfold doRealizeLevel. rewrite E1. cbn [deref mbind outcome_bind].
  pose proof (ao_walk _ _ _ _ Hacc1 _ _ E1) as Et.
  assert (S (initialLevel + n) < length acc1)%nat as Hlen1.
  { rewrite (ao_length _ _ _ _ Hacc1). pose proof law_levels. unfold initialLevel. lia. }
  destruct (pteTablePresent (read_pte pt1 t (index va (initialLevel + n)))) eqn:Hp.
  - set (t' := pteTableAddress _).
    assert (walk pt1 root va (S n) = Some t') as Ew by (by simpl; rewrite Et; simpl; rewrite Hp).
    rewrite accessor_Ret by (by apply (to_addresses _ _ Hok1 va (S n))). cbn [mbind outcome_bind].
    eexists _, _, t'. split_and!; [done|done|by apply accessors_insert| |lia|done].
    by rewrite list_lookup_insert_eq.
  - destruct (pt_pool pt1) as [|a pool] eqn:Ep; [simpl in *; lia|]. unfold newTable. rewrite Ep.
    pose proof (table_address pt1 root a pool Hok1 Ep) as Ha.
    rewrite accessor_Ret by done. cbn [mbind outcome_bind].
    rewrite (proj2 (law_new_table a Ha)), accessor_Ret by done. cbn [mbind outcome_bind].
    eexists _, _, a. split; [done|]. set (pt' := write_pte _ _ _ _).
    split; [by apply table_ok|]. split.
    + destruct Hacc1 as [H1 H2 H3]. apply accessors_insert; [|done|].
      * split; [done|done|]. intros m t' Hm. apply (table_keeps pt1 root va t a pool n); [done..| |by apply H3].
        assert (initialLevel + m < length acc1)%nat.
        { apply lookup_lt_is_Some. destruct (acc1 !! (initialLevel + m)%nat); [by eexists|done]. }
        pose proof law_levels. rewrite H1 in *. unfold initialLevel in *. lia.
      * unfold pt'. rewrite (table_walk pt1 root va t a pool n) by done.
        by rewrite !decide_True by (done || (split; [lia|done])).
    + split; [by rewrite list_lookup_insert_eq|]. split; [simpl in *; lia|].
      intros va'. rewrite <-Hpte. by apply table_pte.
Qed.

(** ** Moving *)
Lemma levelShift_pos level : (level < maxLevels)%nat → 12 ≤ levelShift level.
Proof. intros. pose proof law_bits. unfold levelShift. nia. Qed.

Lemma index_div va level : (level < maxLevels)%nat →
  index va level = (va / 2 ^ levelShift level) mod 2 ^ bitsPerLevel.
Proof.
  intros Hl. pose proof (levelShift_pos level Hl). pose proof law_bits. unfold index, levelMask.
  replace (Z.shiftl 1 bitsPerLevel - 1) with (Z.ones bitsPerLevel) by (unfold Z.ones; lia).
  by rewrite Z.land_ones, Z.shiftr_div_pow2 by lia.
Qed.

Lemma currentIndex_index c : currentIndex c = index (c_va c) lastLevel.
Proof.
  pose proof law_levels. unfold currentIndex, index, levelShift, lastLevel. do 2 f_equal.
  replace (Z.of_nat maxLevels - 1 - Z.of_nat (maxLevels - 1)) with 0 by lia. lia.
Qed.

Lemma land_shifted x m s : 0 ≤ s → Z.land x (Z.shiftl m s) = Z.shiftl (Z.land (Z.shiftr x s) m) s.
Proof.
  intros Hs. apply Z.bits_inj'. intros i Hi. rewrite Z.land_spec, !Z.shiftl_spec by done.
  destruct (Z.lt_ge_cases i s); [by rewrite !(Z.testbit_neg_r _ (i - s)), andb_false_r by lia|].
  rewrite Z.land_spec, Z.shiftr_spec by lia. by replace (i - s + s) with i by lia.
Qed.

Lemma levelChanged_spec va va' level : (0 < level < maxLevels)%nat →
  levelChanged va va' level = true ↔ index va level ≠ index va' level.
Proof.
  intros Hl. pose proof (levelShift_pos level ltac:(lia)) as Hs. pose proof law_bits. pose proof law_width.
  unfold levelChanged, flag. rewrite negb_true_iff, Z.eqb_neq.
  assert (0 ≤ levelMask < 2 ^ bitsPerLevel) as Hm.
  { unfold levelMask. rewrite Z.shiftl_mul_pow2, Z.mul_1_l by lia. pose proof (Z.pow_pos_nonneg 2 bitsPerLevel). lia. }
  rewrite u64_small.
  2:{ rewrite Z.shiftl_mul_pow2 by lia. pose proof (Z.pow_pos_nonneg 2 (levelShift level)).
      split; [nia|]. apply (Z.lt_le_trans _ (2 ^ bitsPerLevel * 2 ^ levelShift level)); [nia|].
      rewrite <-Z.pow_add_r by lia. apply Z.pow_le_mono_r; [lia|]. unfold levelShift. nia. }
  rewrite land_shifted by lia.
  assert (∀ x, Z.shiftl x (levelShift level) = 0 ↔ x = 0) as Hz.
  { intros x. rewrite Z.shiftl_mul_pow2 by lia. pose proof (Z.pow_pos_nonneg 2 (levelShift level)). nia. }
  rewrite Hz, Z.shiftr_lxor. unfold index. apply not_iff_compat.
  assert (∀ a b m, Z.land (Z.lxor a b) m = Z.lxor (Z.land a m) (Z.land b m)) as Hd.
  { intros a b m. apply Z.bits_inj'. intros i Hi. rewrite Z.land_spec, !Z.lxor_spec, !Z.land_spec.
    destruct (Z.testbit m i); rewrite ?andb_true_r, ?andb_false_r; done. }
  by rewrite Hd, Z.lxor_eq_0_iff.
Qed.

(** A change of an index by a step to the next page changes all lower indices. *)
Lemma carry va k l : 0 ≤ va → (k < l < maxLevels)%nat →
  index va l = index (va + kPageSize) l → index va k = index (va + kPageSize) k.
Proof.
  intros Hva Hl. pose proof (levelShift_pos l ltac:(lia)) as Hs. pose proof law_bits as Hb.
  rewrite !index_div by lia. set (P := 2 ^ levelShift l).
  assert (kPageSize ≤ P) as HP.
  { unfold P. change kPageSize with (2 ^ 12). apply Z.pow_le_mono_r; lia. }
  assert (2 ≤ 2 ^ bitsPerLevel) as HB by (change 2 with (2 ^ 1) at 1; apply Z.pow_le_mono_r; lia).
  unfold kPageSize in *.
  assert (va / P ≤ (va + 4096) / P ≤ va / P + 1) as Hq.
  { split; [apply Z.div_le_mono; lia|]. rewrite <-Z.div_add with (b := 1) by lia. apply Z.div_le_mono; lia. }
  intros E. assert ((va + 4096) / P = va / P) as Eq.
  { destruct (Z.eq_dec ((va + 4096) / P) (va / P)) as [|Hne]; [done|].
    replace ((va + 4096) / P) with (va / P + 1) in E by lia.
    exfalso. revert E HB. generalize (va / P) (2 ^ bitsPerLevel). clear. intros q B E HB.
    assert (1 mod B = 1) as H1 by (apply Z.mod_small; lia).
    pose proof (Z.mod_pos_bound q B). rewrite <-Z.add_mod_idemp_l in E by lia.
    destruct (Z.eq_dec (q mod B) (B - 1)) as [E'|].
    - rewrite E' in E. replace (B - 1 + 1) with (0 + 1 * B) in E by lia.
      rewrite Z.mod_add, Z.mod_0_l in E by lia. lia.
    - rewrite (Z.mod_small (q mod B + 1)) in E by lia. lia. }
  assert (2 ^ levelShift k = P * 2 ^ (bitsPerLevel * (Z.of_nat l - Z.of_nat k))) as ->.
  { unfold P. rewrite <-Z.pow_add_r by (lia || (apply Z.mul_nonneg_nonneg; lia)). f_equal. unfold levelShift. ring. }
  pose proof (Z.pow_pos_nonneg 2 (bitsPerLevel * (Z.of_nat l - Z.of_nat k)) ltac:(lia)
    ltac:(apply Z.mul_nonneg_nonneg; lia)).
  rewrite <-!Z.div_div by lia. by rewrite Eq.
Qed.

(** Moving keeps the accessors of the tables that are also on the way to the new
    address. *)
Lemma moveTo_spec pt root c va' : tables_ok pt root → accessors_ok pt root (c_va c) (c_accessors c) →
  (∀ n, (initialLevel + n < maxLevels)%nat → is_Some (mjoin (c_accessors c !! (initialLevel + n)%nat)) →
     (∀ i, (initialLevel < i ≤ initialLevel + n)%nat → index (c_va c) i = index va' i) →
     agree n (c_va c) va') →
  ∃ c', moveTo pt c va' = Ret c' ∧ c_va c' = va' ∧ cursor_ok pt root c'.
Proof.
  intros Hok Hacc Hkeep. pose proof law_levels as Hl. unfold moveTo.
  assert (initialLevel < maxLevels)%nat as Hi by (unfold initialLevel; lia).
  set (acc := match list_find _ _ with Some _ => _ | None => _ end).
  assert (accessors_ok pt root va' acc) as Hacc'.
  { assert (∃ i, (initialLevel < i ≤ maxLevels)%nat ∧
      acc = take i (c_accessors c) ++ replicate (maxLevels - i) None ∧
      ∀ j, (initialLevel < j < i)%nat → index (c_va c) j = index va' j) as (i & Hi' & -> & Hsame).
    { unfold acc. destruct (list_find _ _) as [[j i]|] eqn:E.
      - apply list_find_Some in E as (Hj & _ & Hmin). apply lookup_seq in Hj as [-> Hj].
        exists (S initialLevel + j)%nat. split; [lia|]. split; [done|]. intros l Hlt.
        destruct (decide (index (c_va c) l = index va' l)) as [|Hne]; [done|].
        apply levelChanged_spec in Hne; [|lia]. exfalso.
        apply (Hmin (l - S initialLevel)%nat l); [apply lookup_seq; lia|lia|done].
      - apply list_find_None in E. exists maxLevels. split; [lia|]. split.
        + rewrite take_ge by (rewrite (ao_length _ _ _ _ Hacc); lia).
          by rewrite Nat.sub_diag, app_nil_r.
        + intros l Hlt. destruct (decide (index (c_va c) l = index va' l)) as [|Hne]; [done|].
          apply levelChanged_spec in Hne; [|lia]. rewrite list.Forall_forall in E.
          destruct (E l); [|done]. apply elem_of_seq. lia. }
    destruct Hacc as [H1 H2 H3]. split.
    - rewrite length_app, length_take, length_replicate. lia.
    - rewrite lookup_app_l, lookup_take_lt by (rewrite ?length_take; lia). done.
    - intros n t Hn. destruct (decide (initialLevel + n < i)%nat).
      + rewrite lookup_app_l, lookup_take_lt in Hn by (rewrite ?length_take; lia).
        rewrite <-(walk_agree _ _ (c_va c)); [by apply H3|]. apply Hkeep; [lia|by eexists|].
        intros j Hj. apply Hsame. lia.
      + rewrite lookup_app_r in Hn by (rewrite ?length_take; lia).
        destruct (replicate _ _ !! _) eqn:Er; [|done]. apply lookup_replicate in Er as [-> _]. done. }
  rewrite last_level. destruct (reloadLevel_spec pt root va' acc (numLevels - 1) Hok Hacc') as
    (acc' & -> & Hacc'' & E & _); [lia|]. cbn [mbind outcome_bind].
  eexists. split; [done|]. split; [done|]. split; [done|]. unfold lastTable. simpl. by rewrite last_level.
Qed.

Lemma newCursor_spec pt root va : tables_ok pt root →
  ∃ c, newCursor pt root va = Ret c ∧ c_va c = va ∧ cursor_ok pt root c.
Proof.
  intros Hok. pose proof law_levels as Hl. unfold newCursor.
  rewrite accessor_Ret by (apply (to_addresses _ _ Hok 0 0 root); [lia|done]). cbn [mbind outcome_bind].
  assert (initialLevel < maxLevels)%nat as Hi by (unfold initialLevel; lia).
  assert (∀ n t, mjoin ((<[initialLevel:=Some root]> (replicate maxLevels None) : list (option Z))
    !! (initialLevel + n)%nat) = Some t → n = 0%nat ∧ t = root) as Hroot.
  { intros n t. destruct n as [|n].
    - rewrite Nat.add_0_r, list_lookup_insert_eq by (by rewrite length_replicate). by intros [= <-].
    - rewrite list_lookup_insert_ne by lia. destruct (replicate _ _ !! _) eqn:Er; [|done].
      apply lookup_replicate in Er as [-> _]. done. }
  apply moveTo_spec; simpl; [done| |].
  - split.
    + by rewrite length_insert, length_replicate.
    + by rewrite list_lookup_insert_eq by (by rewrite length_replicate).
    + intros n t [-> ->]%Hroot. done.
  - intros n _ [t [-> ->]%Hroot] _ k Hk. lia.
Qed.

Lemma advance4k_spec pt root c : tables_ok pt root → cursor_ok pt root c →
  0 ≤ c_va c → c_va c + kPageSize < 2 ^ 64 →
  ∃ c', advance4k pt c = Ret c' ∧ c_va c' = c_va c + kPageSize ∧ cursor_ok pt root c'.
Proof.
  intros Hok [Hacc _] Hva Hend. unfold advance4k. rewrite u64_small by (unfold kPageSize in *; lia).
  apply moveTo_spec; [done..|]. intros n Hn _ Hsame k Hk.
  destruct k as [|k]; [|apply Hsame; lia]. apply (carry _ _ (S initialLevel)); [done|lia|].
  apply Hsame. lia.
Qed.

(** ** Entries *)

(** [pt'] is [pt] with the entry of one page replaced. *)
Definition replaced (pt pt' : PageTables) (root va pte : Z) : Prop :=
  ∀ va', pte_of pt' root va' = if decide (same_page va va') then pte else pte_of pt root va'.

Lemma same_page_refl va : same_page va va.
Proof. apply agree_refl. Qed.

Lemma replaced_id pt root va : replaced pt pt root va (pte_of pt root va).
Proof.
  intros va'. case_decide as Hs; [|done]. unfold pte_of.
  pose proof law_levels. rewrite (walk_agree _ _ va' va) by (by apply agree_sym, (agree_le _ numLevels); [lia|]).
  destruct (walk _ _ _ _); [|done]. f_equal. rewrite last_level. symmetry. apply Hs. lia.
Qed.

Lemma cursor_absent pt root c : cursor_ok pt root c → lastTable c = None → pte_of pt root (c_va c) = 0.
Proof. intros [_ E] Hn. unfold pte_of. by rewrite <-E, Hn. Qed.

Lemma readCurrentPte_spec pt root c t : cursor_ok pt root c → lastTable c = Some t →
  readCurrentPte pt c = Ret (pte_of pt root (c_va c)).
Proof.
  intros [_ E] Ht. unfold readCurrentPte, pte_of. rewrite <-E, Ht. cbn. by rewrite currentIndex_index.
Qed.

Lemma exchangeCurrentPte_spec pt root c t value : tables_ok pt root → cursor_ok pt root c →
  lastTable c = Some t →
  ∃ pt', exchangeCurrentPte pt c value = Ret (pte_of pt root (c_va c), pt') ∧
    tables_ok pt' root ∧ cursor_ok pt' root c ∧ replaced pt pt' root (c_va c) value ∧
    pt_pool pt' = pt_pool pt.
Proof.
  intros Hok [[H1 H2 H3] E] Ht. pose proof law_levels as Hl. pose proof E as Ew. rewrite Ht in Ew.
  unfold exchangeCurrentPte, pte_of. rewrite <-Ew, Ht. cbn. rewrite currentIndex_index.
  eexists. split; [done|]. split; [by apply leaf_ok|]. split; [|split; [|done]].
  - split; [split; [done|done|]|].
    + intros n t' Hn. rewrite leaf_walk; [by apply H3|done|done|].
      assert (initialLevel + n < length (c_accessors c))%nat.
      { apply lookup_lt_is_Some. destruct (c_accessors c !! (initialLevel + n)%nat); [by eexists|done]. }
      rewrite H1 in *. unfold initialLevel in *. lia.
    + rewrite leaf_walk by (done || lia). done.
  - intros va'. by apply leaf_pte.
Qed.

Lemma realizePts_spec pt root c : tables_ok pt root → cursor_ok pt root c →
  (numLevels - 1 ≤ length (pt_pool pt))%nat →
  ∃ pt' c' t, realizePts pt c = Ret (pt', c') ∧ c_va c' = c_va c ∧ tables_ok pt' root ∧ cursor_ok pt' root c' ∧
    lastTable c' = Some t ∧ (length (pt_pool pt) ≤ length (pt_pool pt') + (numLevels - 1))%nat ∧
    ∀ va', pte_of pt' root va' = pte_of pt root va'.
Proof.
  intros Hok Hc Hpool. pose proof law_levels as Hl. unfold realizePts.
  destruct (lastTable c) as [t|] eqn:Ht; [exists pt, c, t; split_and!; done || lia|].
  rewrite last_level.
  destruct (realizeLevel_spec root (c_va c) (numLevels - 1) pt (c_accessors c) Hok (co_accessors _ _ _ Hc))
    as (pt' & acc' & t & -> & Hok' & Hacc' & E & Hlen & Hpte); [lia|done|]. cbn [mbind outcome_bind].
  rewrite <-last_level in E.
  eexists pt', _, t. split; [done|]. split; [done|]. split; [done|]. split; [|done].
  split; [done|]. unfold lastTable. simpl. rewrite E. symmetry. apply (ao_walk _ _ _ _ Hacc').
  by rewrite <-last_level.
Qed.

Lemma map4k_spec pt root c pa flags mode pte : tables_ok pt root → cursor_ok pt root c →
  (numLevels - 1 ≤ length (pt_pool pt))%nat → pteBuild pa flags mode = Ret pte →
  ∃ pt' c', map4k pt c pa flags mode = remap4k pt c pa flags mode ∧
    map4k pt c pa flags mode = Ret (ptePageStatus (pte_of pt root (c_va c)),
                                    ptePageAddress (pte_of pt root (c_va c)), pt', c') ∧
    c_va c' = c_va c ∧ tables_ok pt' root ∧ cursor_ok pt' root c' ∧
    replaced pt pt' root (c_va c) pte ∧
    (length (pt_pool pt) ≤ length (pt_pool pt') + (numLevels - 1))%nat.
Proof.
  intros Hok Hc Hpool Hb. unfold map4k, remap4k.
  destruct (realizePts_spec pt root c Hok Hc Hpool) as (pt1 & c1 & t & -> & Ev & Hok1 & Hc1 & Ht & Hlen & Hpte).
  cbn [mbind outcome_bind]. rewrite Hb. cbn [mbind outcome_bind].
  destruct (exchangeCurrentPte_spec pt1 root c1 t pte Hok1 Hc1 Ht) as (pt2 & -> & Hok2 & Hc2 & Hr & Ep).
  cbn [mbind outcome_bind]. exists pt2, c1. rewrite Hpte, Ev. split_and!; try done.
  - intros va'. by rewrite (Hr va'), Ev, Hpte.
  - by rewrite Ep.
Qed.

(** The search finds the next entry of the wanted kind. *)
Lemma findEntry_spec wanted pt root limit : wanted 0 = false → tables_ok pt root →
  limit + kPageSize ≤ 2 ^ 64 → ∀ fuel c, cursor_ok pt root c → 0 ≤ c_va c → Z.max 0 (limit - c_va c) < Z.of_nat fuel →
  ∃ b c' (k : nat), findEntry fuel wanted pt c limit = Ret (b, c') ∧ cursor_ok pt root c' ∧
    c_va c' = c_va c + kPageSize * Z.of_nat k ∧
    (∀ j, (j < k)%nat → c_va c + kPageSize * Z.of_nat j < limit ∧
       wanted (pte_of pt root (c_va c + kPageSize * Z.of_nat j)) = false) ∧
    (if b then c_va c' < limit ∧ wanted (pte_of pt root (c_va c')) = true else limit ≤ c_va c').
Proof.
  intros Hw Hok Hlim. unfold kPageSize in *.
  induction fuel as [|fuel IH]; intros c Hc Hva Hf; [lia|]. cbn [findEntry].
  destruct (Z.ltb_spec (c_va c) limit) as [Hlt|Hge].
  2:{ exists false, c, 0%nat. split_and!; try done; lia. }
  assert (wanted (pte_of pt root (c_va c)) = false →
    ∃ (b : bool) c' (k : nat), (c ← advance4k pt c; findEntry fuel wanted pt c limit) = Ret (b, c') ∧
      cursor_ok pt root c' ∧ c_va c' = c_va c + 4096 * Z.of_nat k ∧
      (∀ j, (j < k)%nat → c_va c + 4096 * Z.of_nat j < limit ∧
        wanted (pte_of pt root (c_va c + 4096 * Z.of_nat j)) = false) ∧
      (if b then c_va c' < limit ∧ wanted (pte_of pt root (c_va c')) = true else limit ≤ c_va c')) as Hnext.
  { intros Hno. destruct (advance4k_spec pt root c Hok Hc Hva) as (c1 & -> & Ev & Hc1); [unfold kPageSize; lia|].
    unfold kPageSize in Ev. cbn [mbind outcome_bind].
    destruct (IH c1 Hc1) as (b & c' & k & -> & Hc' & Ev' & Hj & Hb); [lia..|].
    exists b, c', (S k). split_and!; try done; [lia|]. intros [|j] Hlt'.
    - by rewrite Z.mul_0_r, Z.add_0_r.
    - replace (c_va c + 4096 * Z.of_nat (S j)) with (c_va c1 + 4096 * Z.of_nat j) by lia. apply Hj. lia. }
  destruct (lastTable c) as [t|] eqn:Ht.
  - rewrite (readCurrentPte_spec pt root c t) by done. cbn [mbind outcome_bind].
    destruct (wanted (pte_of pt root (c_va c))) eqn:Hwanted; [|by apply Hnext].
    exists true, c, 0%nat. split_and!; try done; lia.
  - apply Hnext. by rewrite (cursor_absent pt root c).
Qed.

Lemma unmap4k_spec pt root c : tables_ok pt root → cursor_ok pt root c →
  ptePagePresent (pte_of pt root (c_va c)) = true →
  ∃ pt', unmap4k pt c = Ret (ptePageStatus (pte_of pt root (c_va c)),
                             ptePageAddress (pte_of pt root (c_va c)), pt') ∧
    tables_ok pt' root ∧ cursor_ok pt' root c ∧ replaced pt pt' root (c_va c) 0.
Proof.
  intros Hok Hc Hp. unfold unmap4k. destruct (lastTable c) as [t|] eqn:Ht.
  - destruct (exchangeCurrentPte_spec pt root c t 0 Hok Hc Ht) as (pt' & -> & ? & ? & ? & ?). cbn.
    exists pt'. split_and!; done.
  - by rewrite (cursor_absent pt root c), law_zero_page in Hp.
Qed.

Lemma clean4k_spec pt root c : tables_ok pt root → cursor_ok pt root c →
  ptePagePresent (pte_of pt root (c_va c)) = true →
  ∃ pt', clean4k pt c = Ret (ptePageStatus (pte_of pt root (c_va c)),
                             ptePageAddress (pte_of pt root (c_va c)), pt') ∧
    tables_ok pt' root ∧ cursor_ok pt' root c ∧
    replaced pt pt' root (c_va c) (pteClean (pte_of pt root (c_va c))).
Proof.
  intros Hok Hc Hp. unfold clean4k. destruct (lastTable c) as [t|] eqn:Ht.
  - rewrite (readCurrentPte_spec pt root c t) by done. cbn [mbind outcome_bind].
    destruct (exchangeCurrentPte_spec pt root c t (pteClean (pte_of pt root (c_va c))) Hok Hc Ht)
      as (pt' & -> & ? & ? & ? & ?). cbn. exists pt'. split_and!; done.
  - by rewrite (cursor_absent pt root c), law_zero_page in Hp.
Qed.

Lemma age4k_spec pt root c vacate : tables_ok pt root → cursor_ok pt root c →
  ptePagePresent (pte_of pt root (c_va c)) = true →
  let old := pte_of pt root (c_va c) in
  ∃ pt', age4k pt c vacate = Ret (ptePageStatus old, ptePageAddress old, (pteAge old vacate).2, pt') ∧
    tables_ok pt' root ∧ cursor_ok pt' root c ∧ replaced pt pt' root (c_va c) (pteAge old vacate).1.
Proof.
  intros Hok Hc Hp old. unfold age4k. destruct (lastTable c) as [t|] eqn:Ht.
  - rewrite (readCurrentPte_spec pt root c t) by done. cbn [mbind outcome_bind]. fold old.
    destruct (pteAge old vacate) as [new unmapped].
    destruct (exchangeCurrentPte_spec pt root c t new Hok Hc Ht) as (pt' & -> & ? & ? & ? & ?). cbn.
    exists pt'. split_and!; done.
  - by rewrite (cursor_absent pt root c), law_zero_page in Hp.
Qed.

(** What [restrict4k] makes of an entry. *)
Definition restricted_flags (old flags : Z) : Z :=
  let f := if negb (ptePageCanAccess old access_write) then Z.ldiff flags access_write else flags in
  if negb (ptePageCanAccess old access_execute) then Z.ldiff f access_execute else f.
Definition loses_access (old flags : Z) : bool :=
  (negb (flag flags access_write) && ptePageCanAccess old access_write)
  || (negb (flag flags access_execute) && ptePageCanAccess old access_execute).

Lemma restrict4k_spec pt root c flags mode new : tables_ok pt root → cursor_ok pt root c →
  let old := pte_of pt root (c_va c) in
  (ptePagePresent old = true → pteBuild (ptePageAddress old) (restricted_flags old flags) mode = Ret new) →
  ∃ pt', restrict4k pt c flags mode =
      Ret (if ptePagePresent old then (ptePageStatus old, ptePageAddress old, loses_access old flags, pt')
           else (0, no_address, false, pt)) ∧
    tables_ok pt' root ∧ cursor_ok pt' root c ∧
    replaced pt pt' root (c_va c) (if ptePagePresent old then new else old) ∧
    (ptePagePresent old = false → pt' = pt).
Proof.
  intros Hok Hc old Hb. unfold restrict4k. destruct (lastTable c) as [t|] eqn:Ht.
  - rewrite (readCurrentPte_spec pt root c t) by done. cbn [mbind outcome_bind]. fold old.
    destruct (ptePagePresent old) eqn:Hp; cbn [negb].
    + unfold restricted_flags in Hb. rewrite (Hb eq_refl). cbn [mbind outcome_bind].
      destruct (exchangeCurrentPte_spec pt root c t new Hok Hc Ht) as (pt' & -> & ? & ? & ? & ?). cbn.
      exists pt'. split_and!; try done. fold old. unfold loses_access. do 3 f_equal.
      by destruct (negb (flag flags access_write) && ptePageCanAccess old access_write),
        (negb (flag flags access_execute) && ptePageCanAccess old access_execute).
    + exists pt. split_and!; try done. apply replaced_id.
  - assert (ptePagePresent old = false) as -> by (unfold old; by rewrite (cursor_absent pt root c), law_zero_page).
    exists pt. split_and!; try done. apply replaced_id.
Qed.

(** A root table without entries. *)
Lemma empty_tables_ok pt root : page_address root → (∀ i, read_pte pt root i = 0) →
  root ∉ pt_pool pt → NoDup (pt_pool pt) → Forall page_address (pt_pool pt) → tables_ok pt root.
Proof.
  intros Hr H0 Hpool Hnd Hpa.
  assert (∀ va n t, walk pt root va n = Some t → n = 0%nat ∧ t = root) as Hw.
  { intros va [|n] t; [by intros [= <-]|]. intros Hw. exfalso.
    destruct (walk_prefix_le pt root va 1 (S n) ltac:(lia) ltac:(by eexists)) as [t' Ht'].
    simpl in Ht'. by rewrite H0, law_zero_table in Ht'. }
  split; [| | |done..].
  - intros va n t _ [-> ->]%Hw. done.
  - intros va n t va' n' _ _ [-> ->]%Hw [-> _]%Hw. split; [done|]. intros k Hk. lia.
  - intros va n t _ [-> ->]%Hw. done.
Qed.

(** ** The cursor against the page table walk *)

(** C17: a cursor placed at an address and [map4k] or [remap4k] there replace the
    entry that a page table walk finds for this page, and no other: the missing
    tables are allocated, the tables remain a tree, and the status and the address
    of the old entry are returned. *)
Theorem map4k_refines (pt : PageTables) (root va pa flags : Z) (mode : CachingMode) (pte : Z) :
  tables_ok pt root → (numLevels - 1 ≤ length (pt_pool pt))%nat → pteBuild pa flags mode = Ret pte →
  ∃ c pt' c', newCursor pt root va = Ret c ∧
    map4k pt c pa flags mode = Ret (ptePageStatus (pte_of pt root va), ptePageAddress (pte_of pt root va), pt', c') ∧
    remap4k pt c pa flags mode = map4k pt c pa flags mode ∧
    tables_ok pt' root ∧ cursor_ok pt' root c' ∧
    ∀ va', pte_of pt' root va' = if decide (same_page va va') then pte else pte_of pt root va'.
Proof.
  intros Hok Hpool Hb. destruct (newCursor_spec pt root va Hok) as (c & -> & Ev & Hc).
  destruct (map4k_spec pt root c pa flags mode pte Hok Hc Hpool Hb) as (pt' & c' & E & Er & _ & Hok' & Hc' & Hr & _).
  rewrite Ev in *. exists c, pt', c'. split_and!; done.
Qed.

(** [findPresent] moves the cursor to the first present page from its address
    on, and fails exactly if there is none below the limit. *)
Theorem findPresent_first (pt : PageTables) (root va limit : Z) :
  tables_ok pt root → 0 ≤ va → limit + kPageSize ≤ 2 ^ 64 →
  ∃ c b c' (k : nat), newCursor pt root va = Ret c ∧ findPresent pt c limit = Ret (b, c') ∧
    cursor_ok pt root c' ∧ c_va c' = va + kPageSize * Z.of_nat k ∧
    (∀ j, (j < k)%nat → ptePagePresent (pte_of pt root (va + kPageSize * Z.of_nat j)) = false) ∧
    (if b then c_va c' < limit ∧ ptePagePresent (pte_of pt root (c_va c')) = true else limit ≤ c_va c').
Proof.
  intros Hok Hva Hlim. destruct (newCursor_spec pt root va Hok) as (c & -> & Ev & Hc).
  destruct (findEntry_spec ptePagePresent pt root limit law_zero_page Hok Hlim (find_fuel c limit) c Hc)
    as (b & c' & k & Hrun & Hc' & Ev' & Hj & Hb); [lia|unfold find_fuel; lia|].
  exists c, b, c', k. rewrite <-Ev. split_and!; try done. intros j Hj'. by apply Hj.
Qed.
End theory.

(** ** Examples *)
#[local] Existing Instance X86.policy.
Definition example_tables : PageTables :=
  MkTables {[ 0x1000 := ∅ ]} [0x2000; 0x3000; 0x4000; 0x5000; 0x6000; 0x7000].

Lemma example_tables_ok : @tables_ok (X86.policy false) example_tables 0x1000.
Proof.
  apply empty_tables_ok; [done| |by vm_compute; set_solver| |].
  - intros i. unfold read_pte, example_tables. cbn [pt_mem].
    rewrite lookup_singleton, decide_True by done. cbn. by rewrite lookup_empty.
  - simpl. rewrite !list.NoDup_cons. split_and!; try (rewrite ?elem_of_cons, elem_of_nil; lia).
    all: set_solver || apply NoDup_nil_2.
  - simpl. rewrite !list.Forall_cons. split_and!; done.
Qed.

Lemma map4k_refines_witness :
  ∃ pte c pt' c', newCursor (policy := X86.policy false) example_tables 0x1000 0x400000 = Ret c ∧
    map4k (policy := X86.policy false) example_tables c 0x9000 access_read CM_null = Ret (0, 0, pt', c') ∧
    pte_of (policy := X86.policy false) pt' 0x1000 0x400000 = pte.
Proof.
  destruct (map4k_refines (policy := X86.policy false) example_tables 0x1000 0x400000 0x9000 access_read CM_null
    (0x8000000000009025)) as (c & pt' & c' & Hc & Hm & _ & _ & _ & Hpte).
  - apply example_tables_ok.
  - simpl. lia.
  - reflexivity.
  - eexists _, c, pt', c'. split_and!; [done|exact Hm|]. rewrite Hpte.
    by rewrite decide_True by apply same_page_refl.
Defined.

Lemma findPresent_first_witness :
  ∃ c c', newCursor (policy := X86.policy false) example_tables 0x1000 0x400000 = Ret c ∧
    findPresent (policy := X86.policy false) example_tables c 0x402000 = Ret (false, c').
Proof.
  destruct (findPresent_first (policy := X86.policy false) example_tables 0x1000 0x400000 0x402000)
    as (c & b & c' & k & Hc & Hf & _).
  - apply example_tables_ok.
  - done.
  - done.
  - exists c, c'. split; [done|]. rewrite Hf. vm_compute in Hc. injection Hc as <-.
    vm_compute in Hf. by injection Hf as <- <-.
Defined.

(** Four levels of tables for the first gigabytes, none for the others. *)
Definition example_path : PageTables :=
  MkTables {[ 0x1000 := {[ 0 := 0x2007 ]}; 0x2000 := {[ 0 := 0x3007 ]}; 0x3000 := {[ 0 := 0x4007 ]};
              0x4000 := {[ 0 := 0x9025 ]} ]} [].

(** [moveTo] never compares the index of the first level.  A cursor that is moved
    to an address that differs only there keeps the tables of the old address: it
    reads a present page where the page table has none. *)
Theorem moveTo_stale :
  ∃ c c', newCursor (policy := X86.policy false) example_path 0x1000 0 = Ret c ∧
    moveTo (policy := X86.policy false) example_path c (2 ^ 39) = Ret c' ∧
    readCurrentPte (policy := X86.policy false) example_path c' = Ret 0x9025 ∧
    pte_of (policy := X86.policy false) example_path 0x1000 (2 ^ 39) = 0.
Proof.
  eexists _, _. split; [vm_compute; reflexivity|]. split; [vm_compute; reflexivity|].
  split; vm_compute; reflexivity.
Qed.
