(* ===== verification/PageOps.v ===== *)
(** * Operations on ranges of pages

    The templates of kernel/thor/generic/thor-internal/address-space.hpp that
    implement [VirtualOperations] with a page table cursor: mapping the present
    pages of a memory view, restricting, cleaning, unmapping and aging pages and
    handling a page fault.  They keep the use counts of cached pages and the
    resident set size in step with the page tables.

    The use counts of the pages that the page frame database describes as pages of
    a cache are a map, the calls of [markDirty] a log, and [peekRange] of the memory
    view is a function from offsets to physical ranges. *)
From Stdlib Require Import ZArith Lia.
From stdpp Require Import base list numbers option gmap.
From S2P Require Import Prelude PageConsts CursorPolicy PageCursor.
Open Scope Z_scope.

Record PageState := MkPages {
  ps_tables : PageTables;
  ps_uses : gmap Z Z;
  ps_dirty : list Z;
}.
Definition set_tables (st : PageState) (pt : PageTables) : PageState :=
  MkPages pt (ps_uses st) (ps_dirty st).

(** [globalPfnDb().find] with its assertion. *)
Definition pfn_find (st : PageState) (pa : Z) : outcome (option Z) :=
  assert! Z.land pa (kPageSize - 1) =? 0;
  Ret (ps_uses st !! pa).

(** [incrementUses], [decrementUses] and [markDirty] on the descriptor of a page, if
    there is one. *)
Definition incrementUses (st : PageState) (pa : Z) : outcome PageState :=
  descriptor ← pfn_find st pa;
  match descriptor with
  | None => Ret st
  | Some cnt => Ret (MkPages (ps_tables st) (<[pa := u32 (cnt + 1)]> (ps_uses st)) (ps_dirty st))
  end.
Definition decrementUses (st : PageState) (pa : Z) : outcome PageState :=
  descriptor ← pfn_find st pa;
  match descriptor with
  | None => Ret st
  | Some cnt =>
      assert! 0 <? cnt;
      Ret (MkPages (ps_tables st) (<[pa := cnt - 1]> (ps_uses st)) (ps_dirty st))
  end.
Definition markDirty (st : PageState) (pa : Z) : outcome PageState :=
  descriptor ← pfn_find st pa;
  match descriptor with
  | None => Ret st
  | Some _ => Ret (MkPages (ps_tables st) (ps_uses st) (ps_dirty st ++ [pa]))
  end.

Definition no_pages : PagesAffected := MkAffected 0 0 0 false.
Definition add_rss (a : PagesAffected) (increase decrease : Z) : PagesAffected :=
  MkAffected (i64 (rssIncrease a + increase)) (i64 (rssDecrease a + decrease)) (scanned a) (anyRevoked a).
Definition add_scanned (a : PagesAffected) (n : Z) : PagesAffected :=
  MkAffected (rssIncrease a) (rssDecrease a) (i64 (scanned a + n)) (anyRevoked a).
Definition set_revoked (a : PagesAffected) (b : bool) : PagesAffected :=
  MkAffected (rssIncrease a) (rssDecrease a) (scanned a) (b || anyRevoked a).

Definition aligned (x : Z) : bool := Z.land x (kPageSize - 1) =? 0.
Definition any_access (flags : Z) : bool :=
  flag flags (Z.lor access_read (Z.lor access_write access_execute)).

Section operations.
Context {policy : CursorPolicy}.

(** The accounting for an old entry that was replaced. *)
Definition replaced_page (st : PageState) (aff : PagesAffected) (status oldPhysical : Z)
    : outcome (PageState * PagesAffected) :=
  st ← (if flag status status_present && flag status status_dirty then markDirty st oldPhysical else Ret st);
  let aff := add_rss aff kPageSize 0 in
  if flag status status_present then
    let aff := add_rss aff 0 kPageSize in
    st ← decrementUses st oldPhysical;
    Ret (st, aff)
  else Ret (st, aff).

Definition effective_flags (flags : Z) (r : PhysicalRange) : Z :=
  if negb (pr_isMutable r) then Z.ldiff flags access_write else flags.

(** The loop of [mapPresentPagesByCursor]. *)
Fixpoint mapPresent_loop (fuel : nat) (peek : Z → PhysicalRange) (va offset size flags : Z)
    (mode : CachingMode) (st : PageState) (c : PageCursor) (aff : PagesAffected)
    : outcome (PageState * PagesAffected) :=
  match fuel with
  | O => Stop OutOfFuel
  | S fuel =>
      if c_va c <? u64 (va + size) then
        let progress := u64 (c_va c - va) in
        let r := peek (u64 (offset + progress)) in
        if pr_physical r =? no_address then
          c ← advance4k (ps_tables st) c;
          mapPresent_loop fuel peek va offset size flags mode st c aff
        else
          assert! aligned (pr_physical r);
          st ← incrementUses st (pr_physical r);
          '(status, oldPhysical, pt, c) ← map4k (ps_tables st) c (pr_physical r) (effective_flags flags r)
            (determineCachingMode (pr_cachingMode r) mode);
          '(st, aff) ← replaced_page (set_tables st pt) aff status oldPhysical;
          c ← advance4k (ps_tables st) c;
          mapPresent_loop fuel peek va offset size flags mode st c aff
      else Ret (st, aff)
  end.

Definition loop_fuel (size : Z) : nat := S (Z.to_nat size).

Definition mapPresentPages (st : PageState) (root va : Z) (peek : Z → PhysicalRange)
    (offset size flags : Z) (mode : CachingMode) : outcome (PageState * PagesAffected) :=
  assert! aligned va; assert! aligned offset; assert! aligned size; assert! any_access flags;
  c ← newCursor (ps_tables st) root va;
  mapPresent_loop (loop_fuel size) peek va offset size flags mode st c no_pages.

(** The loop of [restrictPagesByCursor]. *)
Fixpoint restrict_loop (fuel : nat) (va size flags : Z) (mode : CachingMode) (st : PageState)
    (c : PageCursor) (aff : PagesAffected) : outcome (PageState * PagesAffected) :=
  match fuel with
  | O => Stop OutOfFuel
  | S fuel =>
      if c_va c <? u64 (va + size) then
        '(status, physical, restricted, pt) ← restrict4k (ps_tables st) c flags mode;
        let st := set_tables st pt in
        st ← (if flag status status_present && flag status status_dirty then markDirty st physical else Ret st);
        let aff := set_revoked aff restricted in
        c ← advance4k (ps_tables st) c;
        restrict_loop fuel va size flags mode st c aff
      else Ret (st, aff)
  end.

Definition restrictPages (st : PageState) (root va size flags : Z) (mode : CachingMode)
    : outcome (PageState * PagesAffected) :=
  assert! aligned va; assert! aligned size; assert! any_access flags;
  c ← newCursor (ps_tables st) root va;
  restrict_loop (loop_fuel size) va size flags mode st c no_pages.

(** [faultPageByCursor]; [None] stands for [Error::fault]. *)
Definition faultPage (st : PageState) (root va : Z) (peek : Z → PhysicalRange) (offset flags : Z)
    (mode : CachingMode) : outcome (option PagesAffected * PageState) :=
  assert! aligned va; assert! aligned offset; assert! any_access flags;
  c ← newCursor (ps_tables st) root va;
  let r := peek offset in
  if pr_physical r =? no_address then Ret (None, st)
  else
    st ← incrementUses st (pr_physical r);
    '(status, oldPhysical, pt, _) ← remap4k (ps_tables st) c (pr_physical r) (effective_flags flags r)
      (determineCachingMode (pr_cachingMode r) mode);
    let st := set_tables st pt in
    '(st, aff) ←
      (if flag status status_present then
         st ← (if flag status status_dirty then markDirty st oldPhysical else Ret st);
         st ← decrementUses st oldPhysical;
         Ret (st, add_rss no_pages 0 kPageSize)
       else Ret (st, no_pages));
    Ret (Some (add_rss aff kPageSize 0), st).

(** The loops of [cleanPagesByCursor], [unmapPagesByCursor] and [agePagesByCursor]:
    [while(c.find...(va + size)) { body; c.advance4k(); }]. *)
Fixpoint scan_loop (fuel : nat) (wanted : Z → bool)
    (body : PageState → PageCursor → PagesAffected → outcome (PageState * PagesAffected))
    (va size : Z) (st : PageState) (c : PageCursor) (aff : PagesAffected)
    : outcome (PageState * PagesAffected) :=
  match fuel with
  | O => Stop OutOfFuel
  | S fuel =>
      let limit := u64 (va + size) in
      '(found, c) ← findEntry (find_fuel c limit) wanted (ps_tables st) c limit;
      if (found : bool) then
        '(st, aff) ← body st c aff;
        c ← advance4k (ps_tables st) c;
        scan_loop fuel wanted body va size st c aff
      else Ret (st, aff)
  end.

(** Their common start. *)
Definition scanPages (wanted : Z → bool)
    (body : PageState → PageCursor → PagesAffected → outcome (PageState * PagesAffected))
    (st : PageState) (root va size : Z) : outcome (PageState * PagesAffected) :=
  assert! aligned va; assert! aligned size;
  c ← newCursor (ps_tables st) root va;
  scan_loop (loop_fuel size) wanted body va size st c no_pages.

Definition clean_body (st : PageState) (c : PageCursor) (aff : PagesAffected)
    : outcome (PageState * PagesAffected) :=
  '(status, physical, pt) ← clean4k (ps_tables st) c;
  assert! flag status status_present;
  assert! flag status status_dirty;
  st ← markDirty (set_tables st pt) physical;
  Ret (st, set_revoked aff true).

Definition cleanPages : PageState → Z → Z → Z → outcome (PageState * PagesAffected) :=
  scanPages pteDirtyPage clean_body.

(** The accounting for a page that was unmapped. *)
Definition unmapped_page (st : PageState) (aff : PagesAffected) (status physical : Z)
    : outcome (PageState * PagesAffected) :=
  st ← (if flag status status_dirty then markDirty st physical else Ret st);
  st ← decrementUses st physical;
  Ret (st, set_revoked (add_rss aff 0 kPageSize) true).

Definition unmap_body (st : PageState) (c : PageCursor) (aff : PagesAffected)
    : outcome (PageState * PagesAffected) :=
  '(status, physical, pt) ← unmap4k (ps_tables st) c;
  assert! flag status status_present;
  unmapped_page (set_tables st pt) aff status physical.

Definition unmapPages : PageState → Z → Z → Z → outcome (PageState * PagesAffected) :=
  scanPages ptePagePresent unmap_body.

Definition age_body (vacate : bool) (st : PageState) (c : PageCursor) (aff : PagesAffected)
    : outcome (PageState * PagesAffected) :=
  let aff := add_scanned aff kPageSize in
  '(status, physical, unmapped, pt) ← age4k (ps_tables st) c vacate;
  if (unmapped : bool) then unmapped_page (set_tables st pt) aff status physical
  else Ret (set_tables st pt, aff).

Definition agePages (vacate : bool) : PageState → Z → Z → Z → outcome (PageState * PagesAffected) :=
  scanPages ptePagePresent (age_body vacate).
End operations.

(** ** Accounting *)
Definition zsum (f : Z → Z) (l : list Z) : Z := foldr (λ p s, f p + s) 0 l.

Lemma zsum_app f l1 l2 : zsum f (l1 ++ l2) = zsum f l1 + zsum f l2.
Proof. induction l1 as [|x l1 IH]; simpl; lia. Qed.
Lemma zsum_ext f g l : (∀ p, p ∈ l → f p = g p) → zsum f l = zsum g l.
Proof.
  induction l as [|x l IH]; intros H; simpl; [done|].
  rewrite IH by (intros; apply H; by right). by rewrite (H x) by left.
Qed.
Lemma zsum_zero l : zsum (λ _, 0) l = 0.
Proof. induction l as [|x l IH]; simpl; lia. Qed.
Lemma zsum_nonneg f l : (∀ p, 0 ≤ f p) → 0 ≤ zsum f l.
Proof. intros H. induction l as [|x l IH]; simpl; [done|]. specialize (H x). lia. Qed.

(** The page addresses of a range. *)
Definition pages (va : Z) (n : nat) : list Z := (λ i, va + kPageSize * Z.of_nat i) <$> seq 0 n.

Lemma pages_S va n : pages va (S n) = va :: pages (va + kPageSize) n.
Proof.
  unfold pages. cbn [seq fmap list_fmap]. f_equal; [lia|]. rewrite <-fmap_S_seq, <-list_fmap_compose.
  apply list_fmap_ext. intros i x _. simpl. unfold kPageSize. lia.
Qed.
Lemma pages_app va n m : pages va (n + m) = pages va n ++ pages (va + kPageSize * Z.of_nat n) m.
Proof.
  revert va. induction n as [|n IH]; intros va.
  - simpl. by rewrite Z.mul_0_r, Z.add_0_r.
  - simpl plus. rewrite !pages_S, IH.
    by replace (va + kPageSize + kPageSize * Z.of_nat n) with (va + kPageSize * Z.of_nat (S n))
      by (unfold kPageSize; lia).
Qed.
Lemma pages_elem va n p : p ∈ pages va n ↔ ∃ i, (i < n)%nat ∧ p = va + kPageSize * Z.of_nat i.
Proof.
  unfold pages. rewrite list_elem_of_fmap. setoid_rewrite elem_of_seq. split.
  - intros (i & -> & ?). exists i. split; [lia|done].
  - intros (i & ? & ->). exists i. split; [done|lia].
Qed.
Lemma pages_length va n : length (pages va n) = n.
Proof. unfold pages. by rewrite length_fmap, length_seq. Qed.

Section theory.
Context {policy : CursorPolicy} {laws : CursorPolicyLaws}.

(** The number of address bits that the tables resolve. *)
Definition width : Z := 12 + bitsPerLevel * Z.of_nat numLevels.

Lemma same_page_eq v w : 0 ≤ v < 2 ^ width → 0 ≤ w < 2 ^ width →
  v mod kPageSize = 0 → w mod kPageSize = 0 → same_page v w → v = w.
Proof.
  intros Hv Hw Mv Mw Hs. pose proof law_levels as Hl. pose proof law_bits as Hb.
  assert (∀ n, (n ≤ numLevels)%nat →
    let s := bitsPerLevel * (Z.of_nat numLevels - Z.of_nat n) + 12 in v / 2 ^ s = w / 2 ^ s) as Hn.
  { induction n as [|n IH]; intros Hn s.
    - replace s with width by (unfold s, width; lia). by rewrite !Z.div_small.
    - specialize (IH ltac:(lia)). cbn zeta in IH.
      replace (bitsPerLevel * (Z.of_nat numLevels - Z.of_nat n) + 12) with (s + bitsPerLevel) in IH by (unfold s; lia).
      assert (0 ≤ s) by (unfold s; nia).
      assert (0 < 2 ^ s) by (apply Z.pow_pos_nonneg; lia).
      assert (0 < 2 ^ bitsPerLevel) by (apply Z.pow_pos_nonneg; lia).
      rewrite Z.pow_add_r, <-!Z.div_div in IH by lia.
      pose proof (Hs n ltac:(lia)) as Hd.
      assert (initialLevel + n < maxLevels)%nat by (unfold initialLevel; lia).
      rewrite !index_div in Hd by done.
      replace (levelShift (initialLevel + n)) with s in Hd.
      2:{ unfold s, levelShift, initialLevel. rewrite Nat2Z.inj_add, Nat2Z.inj_sub by lia. lia. }
      rewrite (Z.div_mod (v / 2 ^ s) (2 ^ bitsPerLevel)), (Z.div_mod (w / 2 ^ s) (2 ^ bitsPerLevel)) by lia.
      by rewrite IH, Hd. }
  specialize (Hn numLevels ltac:(lia)). cbn zeta in Hn.
  replace (bitsPerLevel * (Z.of_nat numLevels - Z.of_nat numLevels) + 12) with 12 in Hn by lia.
  change (2 ^ 12) with 4096 in Hn. unfold kPageSize in *. Z.div_mod_to_equations. lia.
Qed.

(** What an entry counts for: resident bytes and uses of a page. *)
Definition resident (pte : Z) : Z := if ptePagePresent pte then kPageSize else 0.
Definition uses_of (pte pa : Z) : Z :=
  if ptePagePresent pte && (ptePageAddress pte =? pa) then 1 else 0.
Definition entry (st : PageState) (root p : Z) : Z := pte_of (ps_tables st) root p.

(** Replacing a dirty entry loses the information that its page is dirty. *)
Definition drops_dirty (old new : Z) : bool :=
  flag (ptePageStatus old) status_dirty
  && negb (flag (ptePageStatus new) status_dirty && (ptePageAddress new =? ptePageAddress old)).

(** An operation replaced the entries of some pages by [new] and accounted for it:
    nothing else changed, the resident set size and the use counts changed by what
    the old and the new entries count for, and every cached page whose dirty
    entry was dropped has been marked as dirty. *)
Record range_effect (root : Z) (l : list Z) (new : Z → Z) (st : PageState) (aff : PagesAffected)
    (st' : PageState) (aff' : PagesAffected) : Prop := {
  re_tables : tables_ok (ps_tables st') root;
  re_outside v : (∀ p, p ∈ l → ¬ same_page p v) → entry st' root v = entry st root v;
  re_inside p : p ∈ l → entry st' root p = new p;
  re_uses pa : ps_uses st' !! pa =
    (λ n, n + zsum (λ p, uses_of (new p) pa - uses_of (entry st root p) pa) l) <$> ps_uses st !! pa;
  re_rss : rssIncrease aff' - rssDecrease aff' = rssIncrease aff - rssDecrease aff +
    zsum (λ p, resident (new p) - resident (entry st root p)) l;
  re_dirty_log : ps_dirty st `prefix_of` ps_dirty st';
  re_dirty p : p ∈ l → drops_dirty (entry st root p) (new p) = true →
    is_Some (ps_uses st !! ptePageAddress (entry st root p)) →
    ptePageAddress (entry st root p) ∈ ps_dirty st';
}.

Lemma pages_distinct va n : 0 ≤ va → va mod kPageSize = 0 → va + kPageSize * Z.of_nat n ≤ 2 ^ width →
  ∀ i j, (i < n)%nat → (j < n)%nat →
  same_page (va + kPageSize * Z.of_nat i) (va + kPageSize * Z.of_nat j) → i = j.
Proof.
  intros Hva Hm Hw i j Hi Hj Hs. unfold kPageSize in *.
  assert (∀ k : nat, (va + 4096 * Z.of_nat k) mod 4096 = 0) as Hk.
  { intros k. rewrite Z.mul_comm, Z.mod_add by lia. done. }
  apply same_page_eq in Hs; unfold kPageSize; try apply Hk; lia.
Qed.

Lemma drops_dirty_refl pte : drops_dirty pte pte = false.
Proof. unfold drops_dirty. rewrite Z.eqb_refl. by destruct (flag _ _). Qed.

Lemma range_effect_keep_list root l new st aff aff' : tables_ok (ps_tables st) root →
  (∀ p, p ∈ l → new p = entry st root p) →
  rssIncrease aff' - rssDecrease aff' = rssIncrease aff - rssDecrease aff →
  range_effect root l new st aff st aff'.
Proof.
  intros Hok Hn Hr. split; [done|done| | | |done|].
  - intros p Hp. symmetry. by apply Hn.
  - intros pa. rewrite (zsum_ext _ (λ _, 0)) by (intros p Hp; rewrite (Hn p Hp); lia).
    rewrite zsum_zero. destruct (ps_uses st !! pa); simpl; [by rewrite Z.add_0_r|done].
  - rewrite (zsum_ext _ (λ _, 0)) by (intros p Hp; rewrite (Hn p Hp); lia). rewrite zsum_zero. lia.
  - intros p Hp. by rewrite (Hn p Hp), drops_dirty_refl.
Qed.

Lemma range_effect_app root l1 l2 new st aff st1 aff1 st2 aff2 :
  (∀ p q, p ∈ l1 → q ∈ l2 → ¬ same_page p q) →
  range_effect root l1 new st aff st1 aff1 → range_effect root l2 new st1 aff1 st2 aff2 →
  range_effect root (l1 ++ l2) new st aff st2 aff2.
Proof.
  intros Hd [A1 A2 A3 A4 A5 A6 A7] [B1 B2 B3 B4 B5 B6 B7].
  assert (∀ q, q ∈ l2 → entry st1 root q = entry st root q) as E.
  { intros q Hq. apply A2. intros p Hp. by apply Hd. }
  split; [done| | | | |by etrans|].
  - intros v Hv. rewrite B2, A2; [done| |]; intros p Hp; apply Hv; set_solver.
  - intros p [Hp|Hp]%elem_of_app; [|by apply B3]. rewrite B2; [by apply A3|].
    intros q Hq Hs. apply (Hd p q Hp Hq). by apply agree_sym.
  - intros pa. rewrite B4, A4. destruct (ps_uses st !! pa) as [n|]; simpl; [|done]. f_equal.
    rewrite zsum_app, <-Z.add_assoc. do 2 f_equal. apply zsum_ext. intros q Hq. by rewrite E.
  - rewrite B5, A5, zsum_app, <-Z.add_assoc. do 2 f_equal. apply zsum_ext. intros q Hq. by rewrite E.
  - intros p [Hp|Hp]%elem_of_app Hdrop Hk.
    + destruct B6 as [l ->]. apply elem_of_app. left. by apply A7.
    + rewrite <-E in Hdrop, Hk |- * by done. apply B7; [done..|]. rewrite A4, fmap_is_Some. done.
Qed.

(** The use counts are large enough for the pages they count, and far from the
    maximum of their type. *)
Definition uses_enough (st : PageState) (root : Z) (l : list Z) : Prop := ∀ pa n,
  ps_uses st !! pa = Some n →
  zsum (λ p, uses_of (entry st root p) pa) l ≤ n ∧ n + Z.of_nat (length l) < 2 ^ 32.

(** The resident set counters of [PagesAffected] have room for [n] more pages. *)
Definition room (aff : PagesAffected) (n : nat) : Prop :=
  Forall (λ x, 0 ≤ x ∧ x + kPageSize * Z.of_nat n < 2 ^ 63) [rssIncrease aff; rssDecrease aff].

Lemma room_pred aff n : room aff (S n) → room aff n.
Proof. unfold room, kPageSize. apply Forall_impl. intros x. lia. Qed.

Lemma uses_of_bounds pte pa : 0 ≤ uses_of pte pa ≤ 1.
Proof. unfold uses_of. destruct (_ && _); lia. Qed.

Lemma uses_enough_tail st root p l : uses_enough st root (p :: l) → uses_enough st root l.
Proof.
  intros H pa n Hn. destruct (H pa n Hn) as [H1 H2]. simpl in *.
  pose proof (uses_of_bounds (entry st root p) pa). lia.
Qed.

Lemma uses_enough_step root p l new st aff st1 aff1 : (∀ q, q ∈ l → ¬ same_page p q) →
  range_effect root [p] new st aff st1 aff1 → uses_enough st root (p :: l) → uses_enough st1 root l.
Proof.
  intros Hd [A1 A2 A3 A4 A5 A6 A7] H pa n Hn. rewrite A4 in Hn.
  destruct (ps_uses st !! pa) as [n0|] eqn:E; [|done]. injection Hn as <-.
  destruct (H pa n0 E) as [H1 H2]. simpl in *.
  pose proof (uses_of_bounds (entry st root p) pa). pose proof (uses_of_bounds (new p) pa).
  assert (zsum (λ q, uses_of (entry st1 root q) pa) l = zsum (λ q, uses_of (entry st root q) pa) l) as ->.
  { apply zsum_ext. intros q Hq. rewrite A2; [done|]. intros p' ->%list_elem_of_singleton. by apply Hd. }
  lia.
Qed.

Lemma pfn_find_Ret st pa : Z.land pa 0xFFF = 0 → pfn_find st pa = Ret (ps_uses st !! pa).
Proof. intros E. unfold pfn_find. by rewrite assert_bind by (by apply Z.eqb_eq). Qed.

Lemma incrementUses_spec st pa : Z.land pa 0xFFF = 0 →
  (∀ n, ps_uses st !! pa = Some n → 0 ≤ n ∧ n + 1 < 2 ^ 32) →
  ∃ st', incrementUses st pa = Ret st' ∧ ps_tables st' = ps_tables st ∧ ps_dirty st' = ps_dirty st ∧
    ∀ pa', ps_uses st' !! pa' = (λ n, n + (if pa =? pa' then 1 else 0)) <$> ps_uses st !! pa'.
Proof.
  intros Ha Hn. unfold incrementUses. rewrite pfn_find_Ret by done. cbn [mbind outcome_bind].
  destruct (ps_uses st !! pa) as [n|] eqn:E; eexists; (split; [done|]); (split; [done|]); (split; [done|]); intros pa'; simpl.
  - destruct (Z.eqb_spec pa pa') as [<-|].
    + rewrite lookup_insert, decide_True, E by done. simpl. f_equal. apply wrap_small. specialize (Hn n eq_refl). lia.
    + rewrite lookup_insert_ne by done. destruct (_ !! pa'); simpl; [by rewrite Z.add_0_r|done].
  - destruct (Z.eqb_spec pa pa') as [<-|]; [by rewrite E|].
    destruct (_ !! pa'); simpl; [by rewrite Z.add_0_r|done].
Qed.

Lemma decrementUses_spec st pa : Z.land pa 0xFFF = 0 → (∀ n, ps_uses st !! pa = Some n → 0 < n) →
  ∃ st', decrementUses st pa = Ret st' ∧ ps_tables st' = ps_tables st ∧ ps_dirty st' = ps_dirty st ∧
    ∀ pa', ps_uses st' !! pa' = (λ n, n - (if pa =? pa' then 1 else 0)) <$> ps_uses st !! pa'.
Proof.
  intros Ha Hn. unfold decrementUses. rewrite pfn_find_Ret by done. cbn [mbind outcome_bind].
  destruct (ps_uses st !! pa) as [n|] eqn:E.
  - rewrite assert_bind by (apply Z.ltb_lt; by apply Hn).
    eexists; (split; [done|]); (split; [done|]); (split; [done|]); intros pa'; simpl. destruct (Z.eqb_spec pa pa') as [<-|].
    + by rewrite lookup_insert, decide_True, E by done.
    + rewrite lookup_insert_ne by done. destruct (_ !! pa'); simpl; [by rewrite Z.sub_0_r|done].
  - eexists; (split; [done|]); (split; [done|]); (split; [done|]); intros pa'. destruct (Z.eqb_spec pa pa') as [<-|]; [by rewrite E|].
    destruct (_ !! pa'); simpl; [by rewrite Z.sub_0_r|done].
Qed.

Lemma markDirty_spec st pa (b : bool) : Z.land pa 0xFFF = 0 →
  ∃ st', (if b then markDirty st pa else Ret st) = Ret st' ∧ ps_tables st' = ps_tables st ∧
    ps_uses st' = ps_uses st ∧ ps_dirty st `prefix_of` ps_dirty st' ∧
    (b = true → is_Some (ps_uses st !! pa) → pa ∈ ps_dirty st').
Proof.
  intros Ha. destruct b; [|by exists st]. unfold markDirty. rewrite pfn_find_Ret by done. cbn [mbind outcome_bind].
  destruct (ps_uses st !! pa); eexists; (split; [done|]); split_and!; try done.
  - by eexists.
  - intros _ _. simpl. apply elem_of_app. right. by left.
Qed.

Lemma i64_small z : 0 ≤ z < 2 ^ 63 → i64 z = z.
Proof. intros. apply sx_small; lia. Qed.

(** The old entry of a page was accounted for: its use is gone and, if it was dirty,
    the page is marked. *)
Record retired (old : Z) (st st' : PageState) : Prop := {
  rt_tables : ps_tables st' = ps_tables st;
  rt_uses pa : ps_uses st' !! pa = (λ n, n - uses_of old pa) <$> ps_uses st !! pa;
  rt_log : ps_dirty st `prefix_of` ps_dirty st';
  rt_dirty : flag (ptePageStatus old) status_dirty = true →
    is_Some (ps_uses st !! ptePageAddress old) → ptePageAddress old ∈ ps_dirty st';
}.

Lemma dirty_present pte : flag (ptePageStatus pte) status_dirty = true → ptePagePresent pte = true.
Proof. destruct (ptePagePresent pte) eqn:Hp; [done|]. by rewrite law_status_absent. Qed.

Lemma retire_present st old : ptePagePresent old = true →
  (∀ n, ps_uses st !! ptePageAddress old = Some n → 0 < n) →
  ∃ st1 st', (if flag (ptePageStatus old) status_dirty then markDirty st (ptePageAddress old) else Ret st) = Ret st1 ∧
    decrementUses st1 (ptePageAddress old) = Ret st' ∧ retired old st st'.
Proof.
  intros Hp Hn. destruct (markDirty_spec st (ptePageAddress old) (flag (ptePageStatus old) status_dirty)
    (law_address old)) as (st1 & -> & Et & Eu & Hpre & Hdirty).
  destruct (decrementUses_spec st1 (ptePageAddress old) (law_address old)) as (st' & Hdec & Et2 & Ed2 & Eu2).
  { by rewrite Eu. }
  exists st1, st'. split; [done|]. split; [done|]. split; [by rewrite Et2| |by rewrite Ed2|by rewrite Ed2].
  intros pa. unfold uses_of. by rewrite Eu2, Eu, Hp.
Qed.

Lemma retire_absent st old : ptePagePresent old = false → retired old st st.
Proof.
  intros Hp. split; [done| |done|].
  - intros pa. unfold uses_of. rewrite Hp. simpl. destruct (_ !! pa); simpl; [by rewrite Z.sub_0_r|done].
  - intros H%dirty_present. by rewrite H in Hp.
Qed.

Ltac room_tac :=
  unfold room, kPageSize in *; rewrite ?list.Forall_cons in *; simpl in *; split_and?; lia || constructor.

Lemma replaced_page_spec st aff old n : room aff (S n) →
  (ptePagePresent old = true → ∀ n, ps_uses st !! ptePageAddress old = Some n → 0 < n) →
  ∃ st' aff', replaced_page st aff (ptePageStatus old) (ptePageAddress old) = Ret (st', aff') ∧
    retired old st st' ∧ room aff' n ∧
    rssIncrease aff' - rssDecrease aff' = rssIncrease aff - rssDecrease aff + kPageSize - resident old ∧
    anyRevoked aff' = anyRevoked aff.
Proof.
  intros Hroom Hn. unfold replaced_page, resident. rewrite law_status. unfold kPageSize.
  destruct (ptePagePresent old) eqn:Hp; cbn [andb].
  - destruct (retire_present st old Hp (Hn eq_refl)) as (st1 & st' & -> & Hd & Hret).
    cbn [mbind outcome_bind]. rewrite Hd. cbn [mbind outcome_bind].
    eexists st', _. split; [done|]. split; [done|]. unfold add_rss. simpl.
    rewrite !i64_small by (rewrite ?i64_small; room_tac). split; [room_tac|]. split; [lia|done].
  - eexists st, _. split; [done|]. split; [by apply retire_absent|]. unfold add_rss. simpl.
    rewrite !i64_small by room_tac. split; [room_tac|]. split; [lia|done].
Qed.

Lemma unmapped_page_spec st aff old n : room aff (S n) → ptePagePresent old = true →
  (∀ n, ps_uses st !! ptePageAddress old = Some n → 0 < n) →
  ∃ st' aff', unmapped_page st aff (ptePageStatus old) (ptePageAddress old) = Ret (st', aff') ∧
    retired old st st' ∧ room aff' n ∧
    rssIncrease aff' - rssDecrease aff' = rssIncrease aff - rssDecrease aff - kPageSize ∧
    anyRevoked aff' = true.
Proof.
  intros Hroom Hp Hn. unfold unmapped_page, kPageSize.
  destruct (retire_present st old Hp Hn) as (st1 & st' & -> & Hd & Hret).
  cbn [mbind outcome_bind]. rewrite Hd. cbn [mbind outcome_bind].
  eexists st', _. split; [done|]. split; [done|]. unfold add_rss. simpl.
  rewrite !i64_small by room_tac. split; [room_tac|]. split; [lia|done].
Qed.

(** The use count of a present page of the range is positive. *)
Lemma uses_enough_present st root p l : uses_enough st root (p :: l) →
  ptePagePresent (entry st root p) = true →
  ∀ n, ps_uses st !! ptePageAddress (entry st root p) = Some n → 0 < n.
Proof.
  intros Hu Hp n Hn. destruct (Hu _ _ Hn) as [H1 _]. simpl in H1.
  assert (0 ≤ zsum (λ q, uses_of (entry st root q) (ptePageAddress (entry st root p))) l)
    by (apply zsum_nonneg; intros; apply uses_of_bounds).
  unfold uses_of in H1 at 1. rewrite Hp, Z.eqb_refl in H1. simpl in H1. lia.
Qed.

Lemma uses_enough_nonneg st root p l pa n : uses_enough st root (p :: l) →
  ps_uses st !! pa = Some n → 0 ≤ n ∧ n + 1 < 2 ^ 32.
Proof.
  intros Hu Hn. destruct (Hu _ _ Hn) as [H1 H2]. simpl in H1, H2.
  assert (0 ≤ zsum (λ q, uses_of (entry st root q) pa) l) by (apply zsum_nonneg; intros; apply uses_of_bounds).
  pose proof (uses_of_bounds (entry st root p) pa). lia.
Qed.

(** ** Mapping *)

(** The range of [n] pages from [p] on is one the tables can resolve. *)
Record range_ok (p : Z) (n : nat) : Prop := {
  ra_start : 0 ≤ p;
  ra_aligned : p mod kPageSize = 0;
  ra_width : p + kPageSize * Z.of_nat n ≤ 2 ^ width;
  ra_end : p + kPageSize * Z.of_nat n < 2 ^ 63;
}.

Lemma range_ok_S p n : range_ok p (S n) →
  range_ok (p + kPageSize) n ∧ ∀ q, q ∈ pages (p + kPageSize) n → ¬ same_page p q.
Proof.
  intros [H1 H2 H3 H4]. split.
  - split; unfold kPageSize in *; try lia. rewrite <-Z.add_mod_idemp_r, Z.mod_same, Z.add_0_r by lia. done.
  - intros q (i & Hi & ->)%pages_elem Hs.
    assert (0%nat = S i); [|done]. apply (pages_distinct p (S n)); [done..|lia|lia|].
    rewrite Z.mul_0_r, Z.add_0_r.
    by replace (p + kPageSize * Z.of_nat (S i)) with (p + kPageSize + kPageSize * Z.of_nat i) by (unfold kPageSize; lia).
Qed.

Lemma range_effect_cons root p n new st aff st1 aff1 st2 aff2 : range_ok p (S n) →
  range_effect root [p] new st aff st1 aff1 →
  range_effect root (pages (p + kPageSize) n) new st1 aff1 st2 aff2 →
  range_effect root (pages p (S n)) new st aff st2 aff2.
Proof.
  intros [_ Hd]%range_ok_S H1 H2. rewrite pages_S. change (p :: ?l) with ([p] ++ l).
  apply (range_effect_app _ _ _ _ _ _ st1 aff1); [|done..]. intros p' q ->%list_elem_of_singleton. apply Hd.
Qed.

(** The effect of replacing one entry. *)
Lemma range_effect_one root p new st aff st' aff' : tables_ok (ps_tables st') root →
  replaced (ps_tables st) (ps_tables st') root p (new p) →
  (∀ pa, ps_uses st' !! pa =
     (λ n, n + (uses_of (new p) pa - uses_of (entry st root p) pa)) <$> ps_uses st !! pa) →
  rssIncrease aff' - rssDecrease aff' =
    rssIncrease aff - rssDecrease aff + (resident (new p) - resident (entry st root p)) →
  ps_dirty st `prefix_of` ps_dirty st' →
  (drops_dirty (entry st root p) (new p) = true →
    is_Some (ps_uses st !! ptePageAddress (entry st root p)) →
    ptePageAddress (entry st root p) ∈ ps_dirty st') →
  range_effect root [p] new st aff st' aff'.
Proof.
  intros Hok Hr Hu Hrss Hpre Hd. split; [done| | | |simpl; lia|done|].
  - intros v Hv. unfold entry. rewrite (Hr v). rewrite decide_False; [done|]. apply Hv. by left.
  - intros q ->%list_elem_of_singleton. unfold entry. rewrite (Hr p).
    by rewrite decide_True by apply same_page_refl.
  - intros pa. rewrite Hu. simpl. destruct (ps_uses st !! pa); simpl; [f_equal; lia|done].
  - intros q ->%list_elem_of_singleton. done.
Qed.

Lemma drops_dirty_old old new : drops_dirty old new = true → flag (ptePageStatus old) status_dirty = true.
Proof. unfold drops_dirty. by intros [? _]%andb_prop. Qed.

Section mapping.
Context (root : Z) (peek : Z → PhysicalRange) (va offset size flags : Z) (mode : CachingMode) (new : Z → Z).
Context (Hva : 0 ≤ va) (Ho : 0 ≤ offset) (Hs : va + size < 2 ^ 63) (Hos : offset + size < 2 ^ 64).

(** What the memory view says about a page, and the entry it leads to. *)
Definition map_spec (st : PageState) (p : Z) : Prop :=
  let r := peek (offset + (p - va)) in
  if pr_physical r =? no_address then new p = entry st root p
  else page_address (pr_physical r) ∧
       pteBuild (pr_physical r) (effective_flags flags r)
         (determineCachingMode (pr_cachingMode r) mode) = Ret (new p).

(** The page at the cursor is mapped. *)
Lemma map_step st c aff n r l pte : tables_ok (ps_tables st) root → cursor_ok (ps_tables st) root c →
  (numLevels - 1 ≤ length (pt_pool (ps_tables st)))%nat →
  uses_enough st root (c_va c :: l) → room aff (S n) → page_address (pr_physical r) →
  pteBuild (pr_physical r) (effective_flags flags r) (determineCachingMode (pr_cachingMode r) mode) = Ret pte →
  new (c_va c) = pte →
  ∃ st1 pt' c' st' aff', incrementUses st (pr_physical r) = Ret st1 ∧
    map4k (ps_tables st1) c (pr_physical r) (effective_flags flags r)
      (determineCachingMode (pr_cachingMode r) mode) =
      Ret (ptePageStatus (entry st root (c_va c)), ptePageAddress (entry st root (c_va c)), pt', c') ∧
    replaced_page (set_tables st1 pt') aff (ptePageStatus (entry st root (c_va c)))
      (ptePageAddress (entry st root (c_va c))) = Ret (st', aff') ∧
    c_va c' = c_va c ∧ cursor_ok (ps_tables st') root c' ∧
    (length (pt_pool (ps_tables st)) ≤ length (pt_pool (ps_tables st')) + (numLevels - 1))%nat ∧
    room aff' n ∧ range_effect root [c_va c] new st aff st' aff' ∧ anyRevoked aff' = anyRevoked aff.
Proof.
  intros Hok Hc Hpool Hu Hroom Hpa Hb Hnew.
  assert (Z.land (pr_physical r) 0xFFF = 0) as Hal.
  { change 0xFFF with (Z.ones 12). rewrite Z.land_ones by done. apply Hpa. }
  destruct (incrementUses_spec st (pr_physical r) Hal) as (st1 & Hinc & Et1 & Ed1 & Eu1).
  { intros n0. by apply (uses_enough_nonneg st root (c_va c) l). }
  destruct (map4k_spec (ps_tables st) root c _ _ _ _ Hok Hc Hpool Hb)
    as (pt' & c1 & _ & Hmap & Ev & Hok' & Hc1 & Hrep & Hlen).
  destruct (replaced_page_spec (set_tables st1 pt') aff (entry st root (c_va c)) n Hroom)
    as (st2 & aff2 & Hrun & [Et2 Eu2 Hpre Hd] & Hroom2 & Erss & Erev).
  { intros Hp n0. simpl. rewrite Eu1. destruct (ps_uses st !! _) as [n1|] eqn:E1; simpl; [|done].
    intros [= <-]. pose proof (uses_enough_present st root _ _ Hu Hp n1 E1). destruct (_ =? _); lia. }
  destruct (law_build _ _ _ _ Hpa Hb) as [Hnp Hna]. subst pte.
  exists st1, pt', c1, st2, aff2. rewrite Et1, Et2. simpl. split_and!; try done.
  apply range_effect_one; rewrite ?Et2; try done.
  - intros pa. rewrite Eu2. simpl. rewrite Eu1. unfold uses_of at 2. rewrite Hnp, Hna. simpl.
    destruct (ps_uses st !! pa); simpl; [f_equal; lia|done].
  - rewrite Erss. unfold resident at 2. rewrite Hnp. lia.
  - simpl in Hpre. by rewrite Ed1 in Hpre.
  - intros Hdrop Hk. apply Hd; [by eapply drops_dirty_old|]. simpl. by rewrite Eu1, fmap_is_Some.
Qed.

Lemma mapPresent_loop_spec n : ∀ fuel st c aff,
  (n < fuel)%nat → range_ok (c_va c) n → c_va c + kPageSize * Z.of_nat n = va + size → va ≤ c_va c →
  tables_ok (ps_tables st) root → cursor_ok (ps_tables st) root c →
  ((numLevels - 1) * n ≤ length (pt_pool (ps_tables st)))%nat →
  uses_enough st root (pages (c_va c) n) → room aff n →
  (∀ p, p ∈ pages (c_va c) n → map_spec st p) →
  ∃ st' aff', mapPresent_loop fuel peek va offset size flags mode st c aff = Ret (st', aff') ∧
    range_effect root (pages (c_va c) n) new st aff st' aff' ∧
    anyRevoked aff' = anyRevoked aff.
Proof.
  induction n as [|n IH]; intros [|fuel] st c aff Hf Hr Hlim Hge Hok Hc Hpool Hu Hroom Hm; [lia| |lia|];
    cbn [mapPresent_loop]; unfold kPageSize in Hlim.
  { rewrite u64_small by lia. rewrite (proj2 (Z.ltb_ge _ _)) by lia. exists st, aff.
    split; [done|]. split; [|done]. apply range_effect_keep_list; [done| |done].
    intros p Hp. by apply elem_of_nil in Hp. }
  rewrite (u64_small (va + size)), (u64_small (c_va c - va)), (u64_small (offset + (c_va c - va))) by lia.
  rewrite (proj2 (Z.ltb_lt _ _)) by lia.
  destruct (range_ok_S _ _ Hr) as [Hr' Hdist]. destruct Hr as [R1 R2 R3 R4].
  rewrite pages_S in Hu, Hm |- *. rewrite Nat.mul_succ_r in Hpool.
  pose proof (Hm (c_va c) ltac:(by left)) as Hm0. unfold map_spec in Hm0.
  destruct (pr_physical (peek (offset + (c_va c - va))) =? no_address).
  - destruct (advance4k_spec (ps_tables st) root c Hok Hc R1) as (c1 & -> & Ev & Hc1); [unfold kPageSize; lia|].
    cbn [mbind outcome_bind]. unfold kPageSize in *.
    destruct (IH fuel st c1 aff) as (st' & aff' & -> & He & Er); rewrite ?Ev; [lia|done|lia|lia|done|done|lia| | | |].
    + by eapply uses_enough_tail.
    + by apply room_pred.
    + intros p Hp. apply Hm. by right.
    + exists st', aff'. split; [done|]. split; [|done]. rewrite Ev in He. change (?x :: ?l) with ([x] ++ l).
      apply (range_effect_app _ _ _ _ _ _ st aff); [| |done].
      * intros p q ->%list_elem_of_singleton. apply Hdist.
      * apply range_effect_keep_list; [done| |done]. intros p ->%list_elem_of_singleton. done.
  - destruct Hm0 as [Hpa Hb].
    assert (numLevels - 1 ≤ length (pt_pool (ps_tables st)))%nat as Hpool1.
    { etrans; [|exact Hpool]. apply Nat.le_add_l. }
    destruct (map_step st c aff n _ _ _ Hok Hc Hpool1 Hu Hroom Hpa Hb eq_refl)
      as (st1 & pt' & c1 & st2 & aff2 & -> & Hmap & Hrun & Ev & Hc1 & Hlen & Hroom2 & He1 & Erev).
    rewrite assert_bind.
    2:{ apply Z.eqb_eq. change (kPageSize - 1) with (Z.ones 12). rewrite Z.land_ones by done. apply Hpa. }
    cbn [mbind outcome_bind]. rewrite Hmap. cbn [mbind outcome_bind]. rewrite Hrun. cbn [mbind outcome_bind].
    pose proof (re_tables _ _ _ _ _ _ _ He1) as Hok2.
    destruct (advance4k_spec (ps_tables st2) root c1 Hok2 Hc1) as (c2 & -> & Ev2 & Hc2); [lia|unfold kPageSize; lia|].
    cbn [mbind outcome_bind].
    destruct (IH fuel st2 c2 aff2) as (st' & aff' & -> & He & Er);
      rewrite ?Ev2, ?Ev; [lia|done|unfold kPageSize in *; lia|unfold kPageSize in *; lia|done|done|lia| |done| |].
    + by eapply uses_enough_step.
    + intros p Hp. specialize (Hm p ltac:(by right)). unfold map_spec in *.
      destruct (_ =? no_address); [|done]. rewrite Hm. symmetry. apply (re_outside _ _ _ _ _ _ _ He1).
      intros p' ->%list_elem_of_singleton. by apply Hdist.
    + exists st', aff'. split; [done|]. rewrite Ev2, Ev in He. split; [|by rewrite Er].
      change (?x :: ?l) with ([x] ++ l). apply (range_effect_app _ _ _ _ _ _ st2 aff2); [|done..].
      intros p q ->%list_elem_of_singleton. apply Hdist.
Qed.
End mapping.

(** ** Unmapping, cleaning and aging *)
Lemma range_ok_app p n m : range_ok p (n + m) → range_ok (p + kPageSize * Z.of_nat n) m.
Proof.
  intros [H1 H2 H3 H4]. unfold kPageSize in *. split; unfold kPageSize; try lia.
  rewrite Z.mul_comm, Z.mod_add by lia. done.
Qed.

(** The pages up to the one found, this page, and the rest of the range. *)
Lemma findEntry_split wanted st root c p n limit : wanted 0 = false → tables_ok (ps_tables st) root →
  cursor_ok (ps_tables st) root c → c_va c = p → range_ok p n → p + kPageSize * Z.of_nat n = limit →
  ∃ b c', findEntry (find_fuel c limit) wanted (ps_tables st) c limit = Ret (b, c') ∧
    cursor_ok (ps_tables st) root c' ∧
    if b then ∃ k m, n = (k + S m)%nat ∧ c_va c' = p + kPageSize * Z.of_nat k ∧
           wanted (entry st root (c_va c')) = true ∧
           ∀ q, q ∈ pages p k → wanted (entry st root q) = false
    else ∀ q, q ∈ pages p n → wanted (entry st root q) = false.
Proof.
  intros Hw Hok Hc Ec [R1 R2 R3 R4] Hlim. unfold kPageSize in *.
  destruct (findEntry_spec wanted (ps_tables st) root limit Hw Hok) with (fuel := find_fuel c limit) (c := c)
    as (b & c' & k & Hrun & Hc' & Ev & Hj & Hb); [unfold kPageSize; lia|done|lia|unfold find_fuel; lia|].
  unfold kPageSize in *. exists b, c'. split; [done|]. split; [done|]. destruct b.
  - destruct Hb as [Hlt Hb]. exists k, (n - S k)%nat. split; [lia|]. split; [lia|]. split; [done|].
    intros q (j & Hjk & ->)%pages_elem. rewrite <-Ec. by apply Hj.
  - intros q (j & Hjn & ->)%pages_elem. rewrite <-Ec. apply Hj. unfold kPageSize in *. lia.
Qed.

(** A step at one page inside of a range. *)
Lemma range_effect_at root p k m new st aff st1 aff1 st2 aff2 : range_ok p (k + S m) →
  tables_ok (ps_tables st) root → (∀ q, q ∈ pages p k → new q = entry st root q) →
  range_effect root [p + kPageSize * Z.of_nat k] new st aff st1 aff1 →
  range_effect root (pages (p + kPageSize * Z.of_nat (S k)) m) new st1 aff1 st2 aff2 →
  range_effect root (pages p (k + S m)) new st aff st2 aff2.
Proof.
  intros Hr Hok Hkeep H1 H2. rewrite pages_app.
  apply (range_effect_app _ _ _ _ _ _ st aff); [|by apply range_effect_keep_list|].
  - destruct Hr as [R1 R2 R3 R4].
    intros p' q (i & Hi & ->)%pages_elem (j & Hj & ->)%pages_elem Hs.
    assert (i = (k + j)%nat); [|lia]. apply (pages_distinct p (k + S m)); [done..|lia|lia|].
    by replace (p + kPageSize * Z.of_nat (k + j)) with (p + kPageSize * Z.of_nat k + kPageSize * Z.of_nat j)
      by (unfold kPageSize; lia).
  - apply (range_effect_cons _ _ _ _ _ _ st1 aff1); [by apply range_ok_app|done|].
    by replace (p + kPageSize * Z.of_nat k + kPageSize) with (p + kPageSize * Z.of_nat (S k))
      by (unfold kPageSize; lia).
Qed.

Lemma uses_enough_app st root l1 l2 : uses_enough st root (l1 ++ l2) → uses_enough st root l2.
Proof. induction l1 as [|p l1 IH]; [done|]. intros H. by apply IH, (uses_enough_tail _ _ p). Qed.

Lemma room_le aff n m : (m ≤ n)%nat → room aff n → room aff m.
Proof. intros Hl. unfold room, kPageSize. apply Forall_impl. intros x. lia. Qed.


(** A loop over the wanted entries of a range, whose body replaces an entry [e] by
    [change e] and reports a revocation if [revokes e]. *)
Section scanning.
Context (root va size : Z) (Hva : 0 ≤ va) (Hs : va + size < 2 ^ 63).
Context (wanted : Z → bool) (change : Z → Z) (revokes : Z → bool).
Context (body : PageState → PageCursor → PagesAffected → outcome (PageState * PagesAffected)).
Context (Hzero : wanted 0 = false).

Definition scanned_entry (e : Z) : Z := if wanted e then change e else e.

Context (Hbody : ∀ st c aff l n new, tables_ok (ps_tables st) root → cursor_ok (ps_tables st) root c →
  wanted (entry st root (c_va c)) = true → uses_enough st root (c_va c :: l) → room aff (S n) →
  new (c_va c) = change (entry st root (c_va c)) →
  ∃ st' aff', body st c aff = Ret (st', aff') ∧ range_effect root [c_va c] new st aff st' aff' ∧
    cursor_ok (ps_tables st') root c ∧ room aff' n ∧
    anyRevoked aff' = revokes (entry st root (c_va c)) || anyRevoked aff).

Lemma scan_loop_spec new n : ∀ fuel st c aff,
  (n < fuel)%nat → range_ok (c_va c) n → c_va c + kPageSize * Z.of_nat n = va + size → va ≤ c_va c →
  tables_ok (ps_tables st) root → cursor_ok (ps_tables st) root c →
  uses_enough st root (pages (c_va c) n) → room aff n →
  (∀ p, p ∈ pages (c_va c) n → new p = scanned_entry (entry st root p)) →
  ∃ st' aff', scan_loop fuel wanted body va size st c aff = Ret (st', aff') ∧
    range_effect root (pages (c_va c) n) new st aff st' aff' ∧
    (anyRevoked aff' = true ↔ anyRevoked aff = true ∨ ∃ p, p ∈ pages (c_va c) n ∧
       wanted (entry st root p) = true ∧ revokes (entry st root p) = true).
Proof.
  induction n as [n IH] using lt_wf_ind. intros [|fuel] st c aff Hf Hr Hlim Hge Hok Hc Hu Hroom Hnew; [lia|].
  cbn [scan_loop]. cbn zeta. rewrite u64_small by (unfold kPageSize in *; lia).
  destruct (findEntry_split wanted st root c (c_va c) n (va + size) Hzero Hok Hc eq_refl Hr Hlim)
    as ([] & c1 & -> & Hc1 & Hfound); cbn [mbind outcome_bind].
  2:{ exists st, aff. split; [done|]. split.
      - apply range_effect_keep_list; [done| |done]. intros p Hp. rewrite Hnew by done.
        unfold scanned_entry. by rewrite Hfound.
      - split; [by left|]. intros [?|(p & Hp & E & _)]; [done|by rewrite Hfound in E]. }
  destruct Hfound as (k & m & -> & Ev & Hp & Hskip). set (p := c_va c) in *.
  rewrite pages_app, pages_S, <-Ev in Hu. apply uses_enough_app in Hu.
  assert (∀ q, q ∈ pages p k ∨ q = c_va c1 ∨ q ∈ pages (c_va c1 + kPageSize) m → q ∈ pages p (k + S m)) as Hin.
  { intros q. rewrite pages_app, pages_S, Ev. set_solver. }
  destruct (Hbody st c1 aff (pages (c_va c1 + kPageSize) m) m new Hok Hc1 Hp Hu)
    as (st1 & aff1 & -> & He1 & Hc1' & Hroom1 & Erev).
  { by apply (room_le _ (k + S m)); [lia|]. }
  { rewrite Hnew by auto. unfold scanned_entry. by rewrite Hp. }
  cbn [mbind outcome_bind]. pose proof (re_tables _ _ _ _ _ _ _ He1) as Hok1.
  pose proof Hr as [R1 R2 R3 R4]. assert (c_va c1 = p + 4096 * Z.of_nat k) as Ev' by done.
  unfold kPageSize in R4, Hlim.
  destruct (advance4k_spec (ps_tables st1) root c1 Hok1 Hc1') as (c2 & -> & Ev2 & Hc2); [lia|unfold kPageSize; lia|].
  cbn [mbind outcome_bind]. rewrite <-Ev2 in Hin.
  assert (c_va c2 = p + kPageSize * Z.of_nat (S k)) as Ep2 by (rewrite Ev2, Ev; unfold kPageSize; lia).
  destruct (range_ok_S _ _ (range_ok_app _ _ _ Hr)) as [Hr2 Hdist]. rewrite <-Ev, <-Ev2 in Hr2, Hdist.
  assert (∀ q, q ∈ pages (c_va c2) m → entry st1 root q = entry st root q) as Hrest.
  { intros q Hq. apply (re_outside _ _ _ _ _ _ _ He1). intros p' ->%list_elem_of_singleton. by apply Hdist. }
  destruct (IH m ltac:(lia) fuel st1 c2 aff1) as (st' & aff' & -> & He & Er);
    [lia|done|rewrite Ep2; unfold kPageSize; lia|rewrite Ep2; unfold kPageSize; lia|done|done| |done| |].
  - eapply uses_enough_step; [|done|]; [done|by rewrite Ev2].
  - intros q Hq. rewrite Hrest by done. apply Hnew. auto.
  - exists st', aff'. split; [done|]. split.
    + rewrite Ev in He1. rewrite Ep2 in He. apply (range_effect_at _ _ _ _ _ _ _ st1 aff1); try done.
      intros q Hq. rewrite Hnew by auto. unfold scanned_entry. by rewrite Hskip.
    + rewrite Er, Erev, orb_true_iff. split.
      * intros [[?|?]|(q & Hq & E1 & E2)]; [right; exists (c_va c1); auto|by left|].
        right. exists q. rewrite <-(Hrest q Hq). auto.
      * intros [?|(q & Hq & E1 & E2)]; [by left; right|]. rewrite pages_app, pages_S, <-Ev, <-Ev2 in Hq.
        apply elem_of_app in Hq as [Hq|[->|Hq]%elem_of_cons]; [by rewrite Hskip in E1|by left; left|].
        right. exists q. rewrite (Hrest q Hq). auto.
Qed.

Lemma scanPages_spec st n : range_ok va n → kPageSize * Z.of_nat n = size →
  tables_ok (ps_tables st) root → uses_enough st root (pages va n) →
  ∃ st' aff, scanPages wanted body st root va size = Ret (st', aff) ∧
    range_effect root (pages va n) (λ p, scanned_entry (entry st root p)) st no_pages st' aff ∧
    (anyRevoked aff = true ↔ ∃ p, p ∈ pages va n ∧
       wanted (entry st root p) = true ∧ revokes (entry st root p) = true).
Proof.
  intros Hr Hsize Hok Hu. pose proof Hr as [R1 R2 R3 R4]. unfold scanPages.
  rewrite assert_bind by (apply Z.eqb_eq; change (kPageSize - 1) with (Z.ones 12); by rewrite Z.land_ones).
  rewrite assert_bind.
  2:{ apply Z.eqb_eq. change (kPageSize - 1) with (Z.ones 12). rewrite Z.land_ones, <-Hsize by done.
      rewrite Z.mul_comm. by apply Z.mod_mul. }
  destruct (newCursor_spec (ps_tables st) root va Hok) as (c & -> & Ev & Hc). cbn [mbind outcome_bind].
  rewrite <-Ev in Hr, Hu.
  destruct (scan_loop_spec (λ p, scanned_entry (entry st root p)) n (loop_fuel size) st c no_pages)
    as (st' & aff & -> & He & Er); try done; rewrite ?Ev; try lia.
  - unfold loop_fuel, kPageSize in *. lia.
  - unfold kPageSize in *. repeat constructor; simpl; unfold kPageSize; lia.
  - rewrite Ev in He, Er. exists st', aff. split; [done|]. split; [done|]. rewrite Er. naive_solver.
Qed.
End scanning.

Lemma unmap_body_spec root st c aff l n new : tables_ok (ps_tables st) root → cursor_ok (ps_tables st) root c →
  ptePagePresent (entry st root (c_va c)) = true → uses_enough st root (c_va c :: l) → room aff (S n) →
  new (c_va c) = 0 →
  ∃ st' aff', unmap_body st c aff = Ret (st', aff') ∧ range_effect root [c_va c] new st aff st' aff' ∧
    cursor_ok (ps_tables st') root c ∧ room aff' n ∧ anyRevoked aff' = true || anyRevoked aff.
Proof.
  intros Hok Hc Hp Hu Hroom Hnew. unfold unmap_body.
  destruct (unmap4k_spec (ps_tables st) root c Hok Hc Hp) as (pt' & -> & Hok' & Hc' & Hrep).
  cbn [mbind outcome_bind]. rewrite assert_bind by (by rewrite law_status).
  destruct (unmapped_page_spec (set_tables st pt') aff (entry st root (c_va c)) n)
    as (st' & aff' & Hrun & [Et Eu Hpre Hd] & Hroom' & Erss & Erev);
    [done|done|by apply (uses_enough_present st root _ l)|].
  exists st', aff'. split; [done|]. rewrite Et. split_and!; try done.
  apply range_effect_one; rewrite ?Et; try done; rewrite Hnew; try done.
  - intros pa. rewrite Eu. simpl. unfold uses_of at 2. rewrite law_zero_page. simpl.
    destruct (ps_uses st !! pa); simpl; [f_equal; lia|done].
  - rewrite Erss. unfold resident. rewrite law_zero_page, Hp. lia.
  - intros Hdrop. apply Hd. by eapply drops_dirty_old.
Qed.

Lemma clean_body_spec root st c aff (l : list Z) n new : tables_ok (ps_tables st) root →
  cursor_ok (ps_tables st) root c → pteDirtyPage (entry st root (c_va c)) = true →
  uses_enough st root (c_va c :: l) → room aff (S n) → new (c_va c) = pteClean (entry st root (c_va c)) →
  ∃ st' aff', clean_body st c aff = Ret (st', aff') ∧ range_effect root [c_va c] new st aff st' aff' ∧
    cursor_ok (ps_tables st') root c ∧ room aff' n ∧ anyRevoked aff' = true || anyRevoked aff.
Proof.
  intros Hok Hc [Hp Hdirty]%andb_prop Hu Hroom Hnew. unfold clean_body.
  destruct (clean4k_spec (ps_tables st) root c Hok Hc Hp) as (pt' & -> & Hok' & Hc' & Hrep).
  cbn [mbind outcome_bind]. fold (entry st root (c_va c)) in *.
  rewrite assert_bind by (by rewrite law_status). rewrite assert_bind by done.
  destruct (markDirty_spec (set_tables st pt') (ptePageAddress (entry st root (c_va c))) true (law_address _))
    as (st' & -> & Et & Eu & Hpre & Hd). cbn [mbind outcome_bind]. simpl in *.
  eexists st', _. split; [done|]. rewrite Et. split_and!; try done; [|by apply room_pred].
  apply range_effect_one; rewrite ?Et; try done; rewrite Hnew; try done.
  - intros pa. rewrite Eu. unfold uses_of. rewrite law_clean_present, law_clean_address.
    destruct (ps_uses st !! pa); simpl; [f_equal; lia|done].
  - unfold resident. rewrite law_clean_present. simpl. lia.
  - intros _. by apply Hd.
Qed.

Lemma age_body_spec vacate root st c aff l n new : tables_ok (ps_tables st) root →
  cursor_ok (ps_tables st) root c → ptePagePresent (entry st root (c_va c)) = true →
  uses_enough st root (c_va c :: l) → room aff (S n) →
  new (c_va c) = (pteAge (entry st root (c_va c)) vacate).1 →
  ∃ st' aff', age_body vacate st c aff = Ret (st', aff') ∧ range_effect root [c_va c] new st aff st' aff' ∧
    cursor_ok (ps_tables st') root c ∧ room aff' n ∧
    anyRevoked aff' = (pteAge (entry st root (c_va c)) vacate).2 || anyRevoked aff.
Proof.
  intros Hok Hc Hp Hu Hroom Hnew. unfold age_body.
  destruct (age4k_spec (ps_tables st) root c vacate Hok Hc Hp) as (pt' & -> & Hok' & Hc' & Hrep).
  cbn [mbind outcome_bind]. fold (entry st root (c_va c)) in *.
  pose proof (law_age (entry st root (c_va c)) vacate) as Hage.
  destruct (pteAge (entry st root (c_va c)) vacate) as [e []]; simpl in *.
  - destruct Hage as (_ & _ & ->).
    destruct (unmapped_page_spec (set_tables st pt') (add_scanned aff kPageSize) (entry st root (c_va c)) n)
      as (st' & aff' & -> & [Et Eu Hpre Hd] & Hroom' & Erss & Erev);
      [done|done|by apply (uses_enough_present st root _ l)|].
    exists st', aff'. split; [done|]. rewrite Et. split_and!; try done.
    apply range_effect_one; rewrite ?Et; try done; rewrite Hnew; try done.
    + intros pa. rewrite Eu. simpl. unfold uses_of at 2. rewrite law_zero_page. simpl.
      destruct (ps_uses st !! pa); simpl; [f_equal; lia|done].
    + rewrite Erss. unfold resident. rewrite law_zero_page, Hp. simpl. lia.
    + intros Hdrop. apply Hd. by eapply drops_dirty_old.
  - destruct Hage as (Hp' & Ha' & Hs' & _).
    eexists _, _. split; [done|]. split_and!; try done; [|by apply room_pred].
    apply range_effect_one; try done; rewrite Hnew; try done.
    + intros pa. simpl. unfold uses_of. rewrite Hp', Ha'.
      destruct (ps_uses st !! pa); simpl; [f_equal; lia|done].
    + unfold resident. rewrite Hp'. simpl. lia.
    + unfold drops_dirty. rewrite Hs', Ha', Z.eqb_refl. by destruct (flag _ _).
Qed.

(** ** Restricting *)
Section restricting.
Context (root va size flags : Z) (mode : CachingMode) (new : Z → Z).
Context (Hva : 0 ≤ va) (Hs : va + size < 2 ^ 63).

(** The entry that a page is restricted to. *)
Definition restrict_spec (st : PageState) (p : Z) : Prop :=
  if ptePagePresent (entry st root p) then
    page_address (ptePageAddress (entry st root p)) ∧
    pteBuild (ptePageAddress (entry st root p)) (restricted_flags (entry st root p) flags) mode = Ret (new p)
  else new p = entry st root p.

Lemma restrict_step st c aff : tables_ok (ps_tables st) root → cursor_ok (ps_tables st) root c →
  restrict_spec st (c_va c) →
  ∃ status physical restricted pt' st', restrict4k (ps_tables st) c flags mode =
      Ret (status, physical, restricted, pt') ∧
    (if flag status status_present && flag status status_dirty
     then markDirty (set_tables st pt') physical else Ret (set_tables st pt')) = Ret st' ∧
    restricted = ptePagePresent (entry st root (c_va c)) && loses_access (entry st root (c_va c)) flags ∧
    cursor_ok (ps_tables st') root c ∧
    range_effect root [c_va c] new st aff st' (set_revoked aff restricted).
Proof.
  intros Hok Hc Hspec. unfold restrict_spec in Hspec.
  destruct (restrict4k_spec (ps_tables st) root c flags mode (new (c_va c)) Hok Hc)
    as (pt' & -> & Hok' & Hc' & Hrep & Hsame).
  { intros Hp. unfold entry in Hspec. rewrite Hp in Hspec. apply Hspec. }
  fold (entry st root (c_va c)) in *. destruct (ptePagePresent (entry st root (c_va c))) eqn:Hp; cbn [andb].
  - destruct Hspec as [Hpa Hb]. destruct (law_build _ _ _ _ Hpa Hb) as [Hnp Hna].
    destruct (markDirty_spec (set_tables st pt') (ptePageAddress (entry st root (c_va c)))
      (flag (ptePageStatus (entry st root (c_va c))) status_present
       && flag (ptePageStatus (entry st root (c_va c))) status_dirty) (law_address _))
      as (st' & Hrun & Et & Eu & Hpre & Hd). simpl in Et, Eu, Hpre, Hd.
    eexists _, _, _, pt', st'. split; [done|]. split; [done|]. split; [done|]. rewrite Et. split; [done|].
    apply range_effect_one; rewrite ?Et; try done.
    + intros pa. rewrite Eu. unfold uses_of. rewrite Hnp, Hna, Hp.
      destruct (ps_uses st !! pa); simpl; [f_equal; lia|done].
    + unfold resident. rewrite Hnp, Hp. simpl. lia.
    + intros Hdrop. apply Hd. rewrite law_status, Hp. by eapply drops_dirty_old.
  - rewrite (Hsame eq_refl) in *. eexists _, _, _, _, _. split; [done|]. split; [done|]. split; [done|].
    split; [done|]. destruct st. apply range_effect_keep_list; [done| |done].
    intros p ->%list_elem_of_singleton. done.
Qed.

Lemma restrict_loop_spec n : ∀ fuel st c aff,
  (n < fuel)%nat → range_ok (c_va c) n → c_va c + kPageSize * Z.of_nat n = va + size → va ≤ c_va c →
  tables_ok (ps_tables st) root → cursor_ok (ps_tables st) root c →
  (∀ p, p ∈ pages (c_va c) n → restrict_spec st p) →
  ∃ st' aff', restrict_loop fuel va size flags mode st c aff = Ret (st', aff') ∧
    range_effect root (pages (c_va c) n) new st aff st' aff' ∧
    (anyRevoked aff' = true ↔ anyRevoked aff = true ∨ ∃ p, p ∈ pages (c_va c) n ∧
       ptePagePresent (entry st root p) = true ∧ loses_access (entry st root p) flags = true).
Proof.
  induction n as [|n IH]; intros [|fuel] st c aff Hf Hr Hlim Hge Hok Hc Hm; [lia| |lia|];
    cbn [restrict_loop]; unfold kPageSize in Hlim; rewrite u64_small by lia.
  { rewrite (proj2 (Z.ltb_ge _ _)) by lia. exists st, aff. split; [done|]. split.
    - apply range_effect_keep_list; [done| |done]. intros p Hp. by apply elem_of_nil in Hp.
    - split; [by left|]. intros [?|(p & Hp & _)]; [done|]. by apply elem_of_nil in Hp. }
  rewrite (proj2 (Z.ltb_lt _ _)) by lia.
  destruct (range_ok_S _ _ Hr) as [Hr' Hdist]. pose proof Hr as [R1 R2 R3 R4]. unfold kPageSize in R4.
  rewrite pages_S in Hm |- *.
  destruct (restrict_step st c aff Hok Hc (Hm (c_va c) ltac:(by left)))
    as (status & physical & restricted & pt' & st1 & -> & Hrun & Erestr & Hc1 & He1).
  cbn [mbind outcome_bind]. rewrite Hrun. cbn [mbind outcome_bind].
  pose proof (re_tables _ _ _ _ _ _ _ He1) as Hok1.
  destruct (advance4k_spec (ps_tables st1) root c Hok1 Hc1) as (c2 & -> & Ev2 & Hc2); [lia|unfold kPageSize; lia|].
  cbn [mbind outcome_bind].
  assert (∀ q, q ∈ pages (c_va c + kPageSize) n → entry st1 root q = entry st root q) as Hrest.
  { intros q Hq. apply (re_outside _ _ _ _ _ _ _ He1). intros p' ->%list_elem_of_singleton. by apply Hdist. }
  destruct (IH fuel st1 c2 (set_revoked aff restricted)) as (st' & aff' & -> & He & Er);
    rewrite ?Ev2; [lia|done|unfold kPageSize; lia|unfold kPageSize; lia|done|done| |].
  - intros q Hq. unfold restrict_spec. rewrite Hrest by done. apply (Hm q). by right.
  - exists st', aff'. split; [done|]. rewrite Ev2 in He, Er. split.
    + change (?x :: ?l) with ([x] ++ l). apply (range_effect_app _ _ _ _ _ _ st1 (set_revoked aff restricted)); [|done..].
      intros p q ->%list_elem_of_singleton. apply Hdist.
    + rewrite Er. simpl. rewrite orb_true_iff, Erestr, andb_true_iff. split.
      * intros [[?|?]|(q & Hq & E)]; [right; exists (c_va c); split; [by left|done]|by left|].
        right. exists q. rewrite <-(Hrest q Hq). split; [by right|done].
      * intros [?|(q & [->|Hq]%elem_of_cons & E)]; [by left; right|by left; left|].
        right. exists q. by rewrite (Hrest q Hq).
Qed.
End restricting.

(** ** The operations *)
Lemma aligned_true x : x mod kPageSize = 0 → aligned x = true.
Proof. intros. apply Z.eqb_eq. change (kPageSize - 1) with (Z.ones 12). by rewrite Z.land_ones. Qed.

Lemma no_pages_room n : kPageSize * Z.of_nat n < 2 ^ 63 → room no_pages n.
Proof. intros. repeat constructor; simpl; lia. Qed.

Lemma mapPresentPages_run (st : PageState) (root va offset flags : Z) (n : nat)
    (peek : Z → PhysicalRange) (mode : CachingMode) (new : Z → Z) :
  range_ok va n → 0 ≤ offset → offset mod kPageSize = 0 → offset + kPageSize * Z.of_nat n < 2 ^ 64 →
  any_access flags = true → tables_ok (ps_tables st) root →
  ((numLevels - 1) * n ≤ length (pt_pool (ps_tables st)))%nat → uses_enough st root (pages va n) →
  (∀ p, p ∈ pages va n → map_spec root peek va offset flags mode new st p) →
  ∃ st' aff, mapPresentPages st root va peek offset (kPageSize * Z.of_nat n) flags mode = Ret (st', aff) ∧
    range_effect root (pages va n) new st no_pages st' aff ∧ anyRevoked aff = false.
Proof.
  intros Hr Ho Hoa Hos Hf Hok Hpool Hu Hm. pose proof Hr as [R1 R2 R3 R4]. unfold mapPresentPages.
  rewrite !assert_bind by (done || apply aligned_true; rewrite 1?Z.mul_comm; done || by apply Z.mod_mul).
  destruct (newCursor_spec (ps_tables st) root va Hok) as (c & -> & Ev & Hc). cbn [mbind outcome_bind].
  destruct (mapPresent_loop_spec root peek va offset (kPageSize * Z.of_nat n) flags mode new R1 Ho ltac:(lia) Hos n
    (loop_fuel (kPageSize * Z.of_nat n)) st c no_pages) as (st' & aff & -> & He & Er);
    rewrite ?Ev; try done; [unfold loop_fuel, kPageSize; lia|apply no_pages_room; lia|].
  rewrite Ev in He. by exists st', aff.
Qed.

(** C34: [mapPresentPagesByCursor] maps every page of the range that the memory view
    has, with the entry that the view and the flags determine, and touches no other
    page.  The resident set size grows by what becomes resident, the use count of
    every cached page follows the entries that refer to it, and a dirty page that is
    replaced has been marked.  It never reports a revocation. *)
Theorem mapPresentPages_correct (st : PageState) (root va offset flags : Z) (n : nat)
    (peek : Z → PhysicalRange) (mode : CachingMode) (new : Z → Z) :
  range_ok va n → 0 ≤ offset → offset mod kPageSize = 0 → offset + kPageSize * Z.of_nat n < 2 ^ 64 →
  any_access flags = true → tables_ok (ps_tables st) root →
  ((numLevels - 1) * n ≤ length (pt_pool (ps_tables st)))%nat → uses_enough st root (pages va n) →
  (∀ p, p ∈ pages va n → map_spec root peek va offset flags mode new st p) →
  ∃ st' aff, mapPresentPages st root va peek offset (kPageSize * Z.of_nat n) flags mode = Ret (st', aff) ∧
    range_effect root (pages va n) new st no_pages st' aff ∧ anyRevoked aff = false.
Proof. apply mapPresentPages_run. Qed.

(** C35: [unmapPagesByCursor] clears the entries of all present pages of the range and
    of no other page, with the accounting for the resident set size, the use counts
    and the dirty pages, and reports a revocation exactly if a page was present. *)
Theorem unmapPages_correct (st : PageState) (root va : Z) (n : nat) :
  range_ok va n → tables_ok (ps_tables st) root → uses_enough st root (pages va n) →
  ∃ st' aff, unmapPages st root va (kPageSize * Z.of_nat n) = Ret (st', aff) ∧
    range_effect root (pages va n)
      (λ p, if ptePagePresent (entry st root p) then 0 else entry st root p) st no_pages st' aff ∧
    (∀ p, p ∈ pages va n → ptePagePresent (entry st' root p) = false) ∧
    (anyRevoked aff = true ↔ ∃ p, p ∈ pages va n ∧ ptePagePresent (entry st root p) = true).
Proof.
  intros Hr Hok Hu. pose proof Hr as [R1 R2 R3 R4].
  destruct (scanPages_spec root va (kPageSize * Z.of_nat n) R1 ltac:(lia) ptePagePresent (λ _, 0) (λ _, true)
    unmap_body law_zero_page (unmap_body_spec root) st n Hr eq_refl Hok Hu) as (st' & aff & Hrun & He & Er).
  exists st', aff. split; [done|]. split; [done|]. split.
  - intros p Hp. rewrite (re_inside _ _ _ _ _ _ _ He p Hp). unfold scanned_entry.
    destruct (ptePagePresent (entry st root p)) eqn:E; [apply law_zero_page|done].
  - rewrite Er. naive_solver.
Qed.

Lemma restricted_flags_keep old flags access : access = access_write ∨ access = access_execute →
  flag flags access = true → ptePageCanAccess old access = true →
  flag (restricted_flags old flags) access = true.
Proof.
  intros Ha Hf Hc. unfold restricted_flags.
  destruct Ha as [-> | ->]; rewrite Hc; cbn [negb]; case_match; rewrite ?flag_ldiff; done.
Qed.

Lemma restricted_flags_access old flags access : access = access_write ∨ access = access_execute →
  flag (restricted_flags old flags) access = true →
  flag flags access = true ∧ ptePageCanAccess old access = true.
Proof.
  intros Ha. unfold restricted_flags.
  assert (∀ f, flag (Z.ldiff f access_write) access_execute = flag f access_execute) as E1
    by (intros; by apply flag_ldiff).
  assert (∀ f, flag (Z.ldiff f access_execute) access_write = flag f access_write) as E2
    by (intros; by apply flag_ldiff).
  assert (∀ f, flag (Z.ldiff f access_write) access_write = false) as E3 by (intros; by apply flag_ldiff_same).
  assert (∀ f, flag (Z.ldiff f access_execute) access_execute = false) as E4 by (intros; by apply flag_ldiff_same).
  destruct Ha as [-> | ->]; destruct (ptePageCanAccess old access_write), (ptePageCanAccess old access_execute);
    simpl; rewrite ?E1, ?E2, ?E3, ?E4; done.
Qed.

(** What the hardware grants through the restricted entry. *)
Lemma restricted_grants {rights : HardwareRights} old flags mode new access :
  access = access_write ∨ access = access_execute → ptePagePresent old = true →
  page_address (ptePageAddress old) →
  pteBuild (ptePageAddress old) (restricted_flags old flags) mode = Ret new →
  grants new access = flag flags access && grants old access.
Proof.
  intros Ha Hp Hpa Hb. rewrite <-(grants_seen old) by done.
  destruct (law_build _ _ _ _ Hpa Hb) as [Hnp _].
  destruct (flag flags access && ptePageCanAccess old access) eqn:E.
  - apply andb_true_iff in E as [E1 E2]. eapply grants_built; [done..|]. by apply restricted_flags_keep.
  - rewrite <-grants_seen by done. apply not_true_is_false. intros H.
    apply (law_build_access _ _ _ _ _ Hpa Hb Ha), restricted_flags_access in H as [H1 H2]; [|done].
    by rewrite H1, H2 in E.
Qed.

Lemma revoked_iff {rights : HardwareRights} (l : list Z) flags st st' root :
  (∀ p access, p ∈ l → ptePagePresent (entry st root p) = true →
    access = access_write ∨ access = access_execute →
    grants (entry st' root p) access = flag flags access && grants (entry st root p) access) →
  (anyRevoked no_pages = true ∨ ∃ p, p ∈ l ∧ ptePagePresent (entry st root p) = true ∧
     loses_access (entry st root p) flags = true) ↔
  ∃ p access, p ∈ l ∧ ptePagePresent (entry st root p) = true ∧
    (access = access_write ∨ access = access_execute) ∧
    grants (entry st root p) access = true ∧ grants (entry st' root p) access = false.
Proof.
  intros Hg. unfold loses_access. split.
  - intros [|(p & Hp & Hpres & H)]; [done|].
    apply orb_true_iff in H as [[H1 H2]%andb_true_iff|[H1 H2]%andb_true_iff]; apply negb_true_iff in H1.
    + exists p, access_write. rewrite Hg, H1 by auto. rewrite <-grants_seen by auto. auto.
    + exists p, access_execute. rewrite Hg, H1 by auto. rewrite <-grants_seen by auto. auto.
  - intros (p & access & Hp & Hpres & Ha & H1 & H2). right. exists p. split; [done|]. split; [done|].
    rewrite Hg, H1, andb_true_r in H2 by done. rewrite <-grants_seen in H1 by done.
    apply orb_true_iff. destruct Ha as [-> | ->]; rewrite H1, H2; auto.
Qed.

(** C37: for the page table formats of which [ptePageCanAccess] sees the rights that
    the hardware grants (x86, RISC-V and EPT; not ARM and SVM, whose checks look at
    other bits): after [restrictPagesByCursor] no present page of the range lets the
    hardware write or fetch unless the flags include that right and it did so before.
    All pages stay mapped to the same physical pages, with the accounting for dirty
    pages, and a revocation is reported exactly if some page lost a right. *)
Theorem restrictPages_sound {rights : HardwareRights} (st : PageState) (root va flags : Z) (n : nat)
    (mode : CachingMode) (new : Z → Z) :
  range_ok va n → any_access flags = true → tables_ok (ps_tables st) root →
  (∀ p, p ∈ pages va n → restrict_spec root flags mode new st p) →
  ∃ st' aff, restrictPages st root va (kPageSize * Z.of_nat n) flags mode = Ret (st', aff) ∧
    range_effect root (pages va n) new st no_pages st' aff ∧
    (∀ p access, p ∈ pages va n → ptePagePresent (entry st root p) = true →
       access = access_write ∨ access = access_execute →
       grants (entry st' root p) access = flag flags access && grants (entry st root p) access) ∧
    (∀ p, p ∈ pages va n → ptePagePresent (entry st root p) = true →
       ptePagePresent (entry st' root p) = true ∧
       ptePageAddress (entry st' root p) = ptePageAddress (entry st root p)) ∧
    (anyRevoked aff = true ↔ ∃ p access, p ∈ pages va n ∧ ptePagePresent (entry st root p) = true ∧
       (access = access_write ∨ access = access_execute) ∧
       grants (entry st root p) access = true ∧ grants (entry st' root p) access = false).
Proof.
  intros Hr Hf Hok Hm. pose proof Hr as [R1 R2 R3 R4]. unfold restrictPages.
  rewrite !assert_bind by (done || apply aligned_true; rewrite 1?Z.mul_comm; done || by apply Z.mod_mul).
  destruct (newCursor_spec (ps_tables st) root va Hok) as (c & -> & Ev & Hc). cbn [mbind outcome_bind].
  destruct (restrict_loop_spec root va (kPageSize * Z.of_nat n) flags mode new R1 ltac:(lia) n
    (loop_fuel (kPageSize * Z.of_nat n)) st c no_pages) as (st' & aff & -> & He & Er);
    rewrite ?Ev; try done; [unfold loop_fuel, kPageSize; lia|].
  rewrite Ev in He, Er. exists st', aff. split; [done|]. split; [done|].
  assert (∀ p, p ∈ pages va n → ptePagePresent (entry st root p) = true →
    page_address (ptePageAddress (entry st root p)) ∧ pteBuild (ptePageAddress (entry st root p))
      (restricted_flags (entry st root p) flags) mode = Ret (entry st' root p)) as Hbuilt.
  { intros p Hp Hpres. rewrite (re_inside _ _ _ _ _ _ _ He p Hp). specialize (Hm p Hp). unfold restrict_spec in Hm.
    by rewrite Hpres in Hm. }
  assert (∀ p access, p ∈ pages va n → ptePagePresent (entry st root p) = true →
    access = access_write ∨ access = access_execute →
    grants (entry st' root p) access = flag flags access && grants (entry st root p) access) as Hg.
  { intros p access Hp Hpres Ha. destruct (Hbuilt p Hp Hpres) as [Hpa Hb].
    by eapply restricted_grants. }
  split; [done|]. split; [|rewrite Er; by apply revoked_iff].
  intros p Hp Hpres. destruct (Hbuilt p Hp Hpres). by eapply law_build.
Qed.

(** After [cleanPagesByCursor] no page of the range is dirty in the page tables;
    exactly the dirty ones were changed, all stay mapped, every cached page among
    them has been marked, and a revocation is reported exactly if there was one. *)
Theorem cleanPages_correct (st : PageState) (root va : Z) (n : nat) :
  range_ok va n → tables_ok (ps_tables st) root → uses_enough st root (pages va n) →
  ∃ st' aff, cleanPages st root va (kPageSize * Z.of_nat n) = Ret (st', aff) ∧
    range_effect root (pages va n)
      (λ p, if pteDirtyPage (entry st root p) then pteClean (entry st root p) else entry st root p)
      st no_pages st' aff ∧
    (∀ p, p ∈ pages va n → pteDirtyPage (entry st' root p) = false ∧
       ptePagePresent (entry st' root p) = ptePagePresent (entry st root p)) ∧
    (anyRevoked aff = true ↔ ∃ p, p ∈ pages va n ∧ pteDirtyPage (entry st root p) = true).
Proof.
  intros Hr Hok Hu. pose proof Hr as [R1 R2 R3 R4].
  assert (pteDirtyPage 0 = false) as Hz by (unfold pteDirtyPage; by rewrite law_zero_page).
  destruct (scanPages_spec root va (kPageSize * Z.of_nat n) R1 ltac:(lia) pteDirtyPage pteClean (λ _, true)
    clean_body Hz (clean_body_spec root) st n Hr eq_refl Hok Hu) as (st' & aff & Hrun & He & Er).
  exists st', aff. split; [done|]. split; [done|]. split.
  - intros p Hp. rewrite (re_inside _ _ _ _ _ _ _ He p Hp). unfold scanned_entry.
    destruct (pteDirtyPage (entry st root p)) eqn:E; [|done].
    unfold pteDirtyPage. rewrite law_clean_dirty, law_clean_present, andb_false_r. done.
  - rewrite Er. naive_solver.
Qed.

(** [agePagesByCursor] ages every present page of the range once.  Pages are
    unmapped only on request, with the accounting for the resident set size, the use
    counts and the dirty pages; all others keep their page, status and rights.  A
    revocation is reported exactly if a page was unmapped. *)
Theorem agePages_correct (st : PageState) (root va : Z) (n : nat) (vacate : bool) :
  range_ok va n → tables_ok (ps_tables st) root → uses_enough st root (pages va n) →
  ∃ st' aff, agePages vacate st root va (kPageSize * Z.of_nat n) = Ret (st', aff) ∧
    range_effect root (pages va n)
      (λ p, if ptePagePresent (entry st root p) then (pteAge (entry st root p) vacate).1 else entry st root p)
      st no_pages st' aff ∧
    (anyRevoked aff = true ↔ ∃ p, p ∈ pages va n ∧
       ptePagePresent (entry st root p) = true ∧ (pteAge (entry st root p) vacate).2 = true) ∧
    (vacate = false → anyRevoked aff = false ∧
       ∀ p, p ∈ pages va n → ptePageStatus (entry st' root p) = ptePageStatus (entry st root p)).
Proof.
  intros Hr Hok Hu. pose proof Hr as [R1 R2 R3 R4].
  destruct (scanPages_spec root va (kPageSize * Z.of_nat n) R1 ltac:(lia) ptePagePresent
    (λ e, (pteAge e vacate).1) (λ e, (pteAge e vacate).2)
    (age_body vacate) law_zero_page (age_body_spec vacate root) st n Hr eq_refl Hok Hu) as (st' & aff & Hrun & He & Er).
  exists st', aff. split; [done|]. split; [done|]. split; [done|]. intros ->. split.
  - apply not_true_is_false. rewrite Er. intros (p & _ & _ & E). pose proof (law_age (entry st root p) false) as H.
    destruct (pteAge (entry st root p) false) as [e []]; [|done]. by destruct H.
  - intros p Hp. rewrite (re_inside _ _ _ _ _ _ _ He p Hp). unfold scanned_entry.
    destruct (ptePagePresent (entry st root p)); [|done]. pose proof (law_age (entry st root p) false) as H.
    destruct (pteAge (entry st root p) false) as [e []]; simpl; [by destruct H|apply H].
Qed.

(** C36: [faultPageByCursor] reports a fault without effect if the memory view has no
    page at the offset; otherwise the entry of the faulting page becomes the one that
    the view and the flags determine, no other entry changes, and the resident set
    size, the use counts and a dirty page that is replaced are accounted for. *)
Theorem faultPage_correct (st : PageState) (root va offset flags : Z) (peek : Z → PhysicalRange)
    (mode : CachingMode) (pte : Z) :
  let r := peek offset in
  va mod kPageSize = 0 → offset mod kPageSize = 0 → any_access flags = true →
  tables_ok (ps_tables st) root → (numLevels - 1 ≤ length (pt_pool (ps_tables st)))%nat →
  uses_enough st root [va] →
  (pr_physical r ≠ no_address → page_address (pr_physical r) ∧
     pteBuild (pr_physical r) (effective_flags flags r) (determineCachingMode (pr_cachingMode r) mode) = Ret pte) →
  if pr_physical r =? no_address then faultPage st root va peek offset flags mode = Ret (None, st)
  else ∃ st' aff, faultPage st root va peek offset flags mode = Ret (Some aff, st') ∧
    range_effect root [va] (λ _, pte) st no_pages st' aff.
Proof.
  intros r Hva Ho Hf Hok Hpool Hu Hm. unfold faultPage.
  rewrite !assert_bind by (done || by apply aligned_true).
  destruct (newCursor_spec (ps_tables st) root va Hok) as (c & -> & Ev & Hc). cbn [mbind outcome_bind]. fold r.
  destruct (Z.eqb_spec (pr_physical r) no_address) as [|Hne]; [done|].
  destruct (Hm Hne) as [Hpa Hb]. rewrite <-Ev in Hu |- *.
  destruct (map_step root flags mode (λ _, pte) st c no_pages 0 r [] pte Hok Hc Hpool Hu)
    as (st1 & pt' & c' & st' & aff' & -> & Hmap & Hrun & _ & _ & _ & _ & He & _);
    [by apply no_pages_room|done..|].
  cbn [mbind outcome_bind].
  change (remap4k (ps_tables st1) c) with (map4k (ps_tables st1) c). rewrite Hmap. cbn [mbind outcome_bind].
  unfold replaced_page in Hrun. destruct (flag (ptePageStatus (entry st root (c_va c))) status_present); cbn [andb] in Hrun.
  - destruct (if flag _ status_dirty then _ else _) as [st2|]; [|done]. cbn [mbind outcome_bind] in Hrun |- *.
    destruct (decrementUses st2 _) as [st3|]; [|done]. cbn [mbind outcome_bind] in Hrun |- *.
    injection Hrun as -> <-. by eexists st', _.
  - cbn [mbind outcome_bind] in Hrun |- *. injection Hrun as <- <-. by eexists _, _.
Qed.
End theory.

(** ** Examples: a cached page at 0x9000, used by one entry of an x86 page table *)
Definition x86 : CursorPolicy := X86.policy false.

Definition example_start : PageState := MkPages example_tables {[ 0x9000 := 0 ]} [].
Definition example_view (offset : Z) : PhysicalRange :=
  if offset <? 4096 then MkRange 0x9000 4096 CM_null true else MkRange no_address 0 CM_null false.

Lemma example_range n : (n ≤ 16)%nat → range_ok (policy := x86) 0x400000 n.
Proof. intros. split; [done|done|..]; unfold kPageSize, width; simpl; lia. Qed.

Lemma example_entry st p : (∀ i, read_pte (ps_tables st) 0x1000 i = 0) → entry (policy := x86) st 0x1000 p = 0.
Proof.
  intros H. unfold entry, pte_of. destruct (walk _ _ _ _) as [t|] eqn:E; [|done]. exfalso.
  destruct (walk_prefix_le (policy := x86) (ps_tables st) 0x1000 p 1 3 ltac:(lia) ltac:(by eexists)) as [t' E'].
  simpl in E'. by rewrite H in E'.
Qed.

Lemma example_empty i : read_pte example_tables 0x1000 i = 0.
Proof. unfold read_pte, example_tables. cbn [pt_mem]. rewrite lookup_singleton, decide_True by done. cbn. by rewrite lookup_empty. Qed.

Lemma example_uses l : (length l ≤ 16)%nat → uses_enough (policy := x86) example_start 0x1000 l.
Proof.
  intros Hl pa n Hn. rewrite (zsum_ext _ (λ _, 0)), zsum_zero.
  - unfold example_start in Hn. simpl in Hn. apply lookup_singleton_Some in Hn as [_ <-]. lia.
  - intros p _. unfold uses_of. rewrite example_entry by apply example_empty. done.
Qed.

Definition example_flags : Z := Z.lor access_read access_write.
Definition example_pte : Z := 0x8000000000009027.

Lemma example_map_spec p : p ∈ pages 0x400000 1 →
  map_spec (policy := x86) 0x1000 example_view 0x400000 0 example_flags CM_null (λ _, example_pte) example_start p.
Proof. rewrite pages_S. intros ->%list_elem_of_singleton. done. Qed.

(** The state after the first page of the view was mapped. *)
Lemma example_mapped : ∃ st aff,
  mapPresentPages (policy := x86) example_start 0x1000 0x400000 example_view 0 (kPageSize * Z.of_nat 1)
    example_flags CM_null = Ret (st, aff) ∧
  tables_ok (policy := x86) (ps_tables st) 0x1000 ∧ uses_enough (policy := x86) st 0x1000 (pages 0x400000 1) ∧
  entry (policy := x86) st 0x1000 0x400000 = example_pte.
Proof.
  destruct (mapPresentPages_run (policy := x86) example_start 0x1000 0x400000 0 example_flags 1 example_view
    CM_null (λ _, example_pte)) as (st & aff & Hrun & [H1 H2 H3 H4 H5 H6 H7] & _);
    [apply example_range; lia|done|done|done|done|apply example_tables_ok|simpl; lia|
     apply example_uses; simpl; lia|apply example_map_spec|].
    exists st, aff. split; [done|]. split; [done|]. rewrite pages_S in *.
    split; [|apply H3; by left]. intros pa n. rewrite H4. simpl.
    rewrite (H3 0x400000) by (by left). rewrite (example_entry example_start) by apply example_empty.
    unfold example_start. simpl. destruct (decide (0x9000 = pa)) as [<-|Hne].
    + rewrite lookup_singleton, decide_True by done. simpl. intros [= <-]. done.
    + by rewrite lookup_singleton_ne.
Qed.

Lemma mapPresentPages_correct_witness : ∃ st aff,
  mapPresentPages (policy := x86) example_start 0x1000 0x400000 example_view 0 (kPageSize * Z.of_nat 1)
    example_flags CM_null = Ret (st, aff) ∧ rssIncrease aff - rssDecrease aff = 4096.
Proof.
  destruct (mapPresentPages_correct (policy := x86) example_start 0x1000 0x400000 0 example_flags 1 example_view
    CM_null (λ _, example_pte)) as (st & aff & Hrun & He & _).
  - apply example_range. lia.
  - done.
  - done.
  - done.
  - done.
  - apply example_tables_ok.
  - simpl. lia.
  - apply example_uses. simpl. lia.
  - apply example_map_spec.
  - exists st, aff. split; [exact Hrun|]. rewrite (re_rss _ _ _ _ _ _ _ He), pages_S. simpl.
    rewrite (example_entry example_start) by apply example_empty. done.
Defined.

Lemma unmapPages_correct_witness : ∃ st st' aff,
  entry (policy := x86) st 0x1000 0x400000 = example_pte ∧
  unmapPages (policy := x86) st 0x1000 0x400000 (kPageSize * Z.of_nat 1) = Ret (st', aff) ∧
  ptePagePresent (CursorPolicy := x86) (entry (policy := x86) st' 0x1000 0x400000) = false.
Proof.
  destruct example_mapped as (st & aff0 & _ & Hok & Hu & He).
  destruct (unmapPages_correct (policy := x86) st 0x1000 0x400000 1) as (st' & aff & Hrun & _ & Hp & _).
  - apply example_range. lia.
  - exact Hok.
  - exact Hu.
  - exists st, st', aff. split; [done|]. split; [exact Hrun|]. apply Hp. rewrite pages_S. by left.
Defined.

Lemma restrictPages_sound_witness : ∃ st st' aff,
  entry (policy := x86) st 0x1000 0x400000 = example_pte ∧
  restrictPages (policy := x86) st 0x1000 0x400000 (kPageSize * Z.of_nat 1) access_read CM_null = Ret (st', aff) ∧
  anyRevoked aff = true.
Proof.
  destruct example_mapped as (st & aff0 & _ & Hok & Hu & He).
  destruct (restrictPages_sound (policy := x86) (rights := x86_rights false) st 0x1000 0x400000 access_read 1 CM_null
    (λ _, 0x8000000000009025)) as (st' & aff & Hrun & _ & Hg & _ & Hrev).
  - apply example_range. lia.
  - done.
  - exact Hok.
  - intros p. rewrite pages_S. intros ->%list_elem_of_singleton. unfold restrict_spec. rewrite He. done.
  - exists st, st', aff. split; [done|]. split; [exact Hrun|]. apply Hrev.
    exists 0x400000, access_write. rewrite Hg, He by (rewrite ?pages_S, ?He; by left || done || left).
    rewrite pages_S. split; [by left|]. by auto.
Defined.

Lemma cleanPages_correct_witness : ∃ st st' aff,
  entry (policy := x86) st 0x1000 0x400000 = example_pte ∧
  cleanPages (policy := x86) st 0x1000 0x400000 (kPageSize * Z.of_nat 1) = Ret (st', aff) ∧
  ptePagePresent (CursorPolicy := x86) (entry (policy := x86) st' 0x1000 0x400000) = true.
Proof.
  destruct example_mapped as (st & aff0 & _ & Hok & Hu & He).
  destruct (cleanPages_correct (policy := x86) st 0x1000 0x400000 1) as (st' & aff & Hrun & _ & Hp & _).
  - apply example_range. lia.
  - exact Hok.
  - exact Hu.
  - exists st, st', aff. split; [done|]. split; [exact Hrun|].
    destruct (Hp 0x400000) as [_ ->]; [rewrite pages_S; by left|]. by rewrite He.
Defined.

Lemma agePages_correct_witness : ∃ st st' aff,
  entry (policy := x86) st 0x1000 0x400000 = example_pte ∧
  agePages (policy := x86) false st 0x1000 0x400000 (kPageSize * Z.of_nat 1) = Ret (st', aff) ∧
  anyRevoked aff = false.
Proof.
  destruct example_mapped as (st & aff0 & _ & Hok & Hu & He).
  destruct (agePages_correct (policy := x86) st 0x1000 0x400000 1 false) as (st' & aff & Hrun & _ & _ & Hno).
  - apply example_range. lia.
  - exact Hok.
  - exact Hu.
  - exists st, st', aff. split; [done|]. split; [exact Hrun|]. by apply Hno.
Defined.

Lemma faultPage_correct_witness : ∃ st' aff,
  faultPage (policy := x86) example_start 0x1000 0x400000 example_view 0 example_flags CM_null = Ret (Some aff, st') ∧
  rssIncrease aff - rssDecrease aff = 4096.
Proof.
  destruct (faultPage_correct (policy := x86) example_start 0x1000 0x400000 0 example_flags example_view CM_null
    example_pte) as (st' & aff & Hrun & He).
  - done.
  - done.
  - done.
  - apply example_tables_ok.
  - simpl. lia.
  - apply example_uses. simpl. lia.
  - intros _. split; [done|reflexivity].
  - exists st', aff. split; [exact Hrun|]. rewrite (re_rss _ _ _ _ _ _ _ He). simpl.
    rewrite (example_entry example_start) by apply example_empty. done.
Defined.
