(* ===== verification/Reclaimer.v ===== *)
(** * The memory reclaimer

    [MemoryReclaimer] of kernel/thor/generic/memory-view.cpp keeps the pages of a
    cache bundle that are not in use in eight generations.  Rotating the generations
    posts the pages of the oldest one for reclamation; the owner of the bundle then
    takes the posted pages.  Pages are named by their identity in the bundle.

    The lists are intrusive: erasing a page from a list that it is not part of is a
    fault of the model. *)
From Stdlib Require Import ZArith Lia.
From stdpp Require Import base list numbers option gmap.
From S2P Require Import Prelude PageConsts.
Open Scope Z_scope.

Definition numGenerations : nat := 8.

(** The reclaimer's part of [CachePage]. *)
Record CacheFlags := MkFlags {
  reclaimRegistered : bool;
  reclaimPosted : bool;
  reclaimInflight : bool;
  generation : nat;
}.
Definition no_flags : CacheFlags := MkFlags false false false 0.

(** The reclaimer's part of [CacheBundle]. *)
Record Bundle := MkBundle {
  b_flags : gmap Z CacheFlags;
  genLists : list (list Z);
  newestGen : nat;
  reclaimList : list Z;
}.

Definition flags_of (b : Bundle) (page : Z) : CacheFlags := default no_flags (b_flags b !! page).
Definition set_flags_of (b : Bundle) (page : Z) (f : CacheFlags) : Bundle :=
  MkBundle (<[page := f]> (b_flags b)) (genLists b) (newestGen b) (reclaimList b).
Definition set_reclaimList (b : Bundle) (l : list Z) : Bundle :=
  MkBundle (b_flags b) (genLists b) (newestGen b) l.

(** [list.erase(list.iterator_to(page))] on an intrusive list. *)
Definition list_erase (page : Z) (l : list Z) : outcome (list Z) :=
  assert! bool_decide (page ∈ l);
  Ret (filter (λ q, q ≠ page) l).

Definition gen_push (b : Bundle) (g : nat) (page : Z) : outcome Bundle :=
  l ← deref (genLists b !! g);
  Ret (MkBundle (b_flags b) (<[g := l ++ [page]]> (genLists b)) (newestGen b) (reclaimList b)).
Definition gen_erase (b : Bundle) (g : nat) (page : Z) : outcome Bundle :=
  l ← deref (genLists b !! g);
  l ← list_erase page l;
  Ret (MkBundle (b_flags b) (<[g := l]> (genLists b)) (newestGen b) (reclaimList b)).

Definition empty_bundle : Bundle := MkBundle ∅ (replicate numGenerations []) 0 [].

Definition addPage (b : Bundle) (page : Z) : outcome Bundle :=
  let f := flags_of b page in
  assert! negb (reclaimRegistered f);
  b ← gen_push b (newestGen b) page;
  Ret (set_flags_of b page (MkFlags true (reclaimPosted f) (reclaimInflight f) (newestGen b))).

Definition removePage (b : Bundle) (page : Z) : outcome Bundle :=
  let f := flags_of b page in
  assert! reclaimRegistered f;
  if reclaimPosted f then
    b ← (if negb (reclaimInflight f)
         then l ← list_erase page (reclaimList b); Ret (set_reclaimList b l)
         else Ret b);
    Ret (set_flags_of b page (MkFlags false false false (generation f)))
  else
    b ← gen_erase b (generation f) page;
    Ret (set_flags_of b page (MkFlags false false (reclaimInflight f) (generation f))).

Definition bumpPage (b : Bundle) (page : Z) : outcome Bundle :=
  let f := flags_of b page in
  assert! reclaimRegistered f;
  if reclaimPosted f then
    b ← (if negb (reclaimInflight f)
         then l ← list_erase page (reclaimList b); Ret (set_reclaimList b l)
         else Ret b);
    let b := set_flags_of b page (MkFlags true false false (newestGen b)) in
    gen_push b (newestGen b) page
  else if negb (generation f =? newestGen b)%nat then
    b ← gen_erase b (generation f) page;
    let b := set_flags_of b page (MkFlags true false (reclaimInflight f) (newestGen b)) in
    gen_push b (newestGen b) page
  else Ret b.

(** The loop of [reclaimPages] over the pages taken out. *)
Fixpoint mark_inflight (b : Bundle) (out : list Z) : outcome Bundle :=
  match out with
  | [] => Ret b
  | page :: out =>
      let f := flags_of b page in
      assert! reclaimRegistered f;
      assert! reclaimPosted f;
      assert! negb (reclaimInflight f);
      mark_inflight (set_flags_of b page (MkFlags true true true (generation f))) out
  end.
Definition reclaimPages (b : Bundle) : outcome (list Z * Bundle) :=
  let out := reclaimList b in
  b ← mark_inflight (set_reclaimList b []) out;
  Ret (out, b).

(** The loop of [rotateGenerations_] that drains a generation into [_reclaimList]. *)
Fixpoint post_pages (b : Bundle) (l : list Z) : outcome Bundle :=
  match l with
  | [] => Ret b
  | page :: l =>
      let f := flags_of b page in
      assert! reclaimRegistered f;
      assert! negb (reclaimPosted f);
      let b := set_flags_of b page (MkFlags true true (reclaimInflight f) (generation f)) in
      post_pages (set_reclaimList b (reclaimList b ++ [page])) l
  end.
Definition rotate (b : Bundle) : outcome Bundle :=
  let g := ((newestGen b + 1) mod numGenerations)%nat in
  genList ← deref (genLists b !! g);
  b ← post_pages b genList;
  Ret (MkBundle (b_flags b) (<[g := []]> (genLists b)) g (reclaimList b)).

(** ** Where a page is *)
Inductive place := Nowhere | InGeneration (g : nat) | Posted | Inflight.
#[export] Instance place_eq_dec : EqDecision place.
Proof. solve_decision. Defined.

Definition place_of_flags (f : CacheFlags) : place :=
  if reclaimRegistered f then
    if reclaimPosted f then if reclaimInflight f then Inflight else Posted
    else InGeneration (generation f)
  else Nowhere.
Definition place_of (b : Bundle) (page : Z) : place := place_of_flags (flags_of b page).

Definition flags_ok (f : CacheFlags) : Prop :=
  (reclaimRegistered f = false → reclaimPosted f = false) ∧
  (reclaimPosted f = false → reclaimInflight f = false) ∧ (generation f < numGenerations)%nat.

(** Every registered page is in exactly one list, the one its flags say. *)
Record bundle_ok (b : Bundle) : Prop := {
  bo_length : length (genLists b) = numGenerations;
  bo_newest : (newestGen b < numGenerations)%nat;
  bo_gen g l : genLists b !! g = Some l → NoDup l ∧ ∀ p, p ∈ l ↔ place_of b p = InGeneration g;
  bo_posted : NoDup (reclaimList b) ∧ ∀ p, p ∈ reclaimList b ↔ place_of b p = Posted;
  bo_flags p : flags_ok (flags_of b p);
}.

(** One page moved to another place. *)
Definition moved (b b' : Bundle) (page : Z) (pl : place) : Prop :=
  ∀ q, place_of b' q = if decide (q = page) then pl else place_of b q.

Lemma flags_of_set b page f q :
  flags_of (set_flags_of b page f) q = if decide (q = page) then f else flags_of b q.
Proof.
  unfold flags_of, set_flags_of. simpl. case_decide as H.
  - subst. by rewrite lookup_insert, decide_True.
  - by rewrite lookup_insert_ne.
Qed.

Lemma empty_bundle_ok : bundle_ok empty_bundle.
Proof.
  split; try done.
  - unfold numGenerations. simpl. lia.
  - intros g l Hl. change (genLists empty_bundle) with (replicate numGenerations (@nil Z)) in Hl.
    apply lookup_replicate in Hl as [-> _]. split; [apply NoDup_nil_2|]. intros p. split; [by intros ?%elem_of_nil|done].
  - split; [apply NoDup_nil_2|]. intros p. split; [by intros ?%elem_of_nil|done].
  - intros p. unfold flags_of. simpl. rewrite lookup_empty. unfold flags_ok, numGenerations. simpl. split_and!; done || lia.
Qed.

(** The lists follow the places: put a page in or take it out of a list. *)
Lemma list_push_ok (l : list Z) page : NoDup l → page ∉ l → NoDup (l ++ [page]).
Proof.
  intros Hn Hp. apply list.NoDup_app. split_and!; [done| |apply NoDup_singleton].
  intros x Hx ->%list_elem_of_singleton. done.
Qed.

Lemma list_erase_Ret page l : page ∈ l → list_erase page l = Ret (filter (λ q, q ≠ page) l).
Proof. intros H. unfold list_erase. by rewrite assert_bind by (by apply bool_decide_true). Qed.

(** The general step: a page leaves the list of its old place and enters the list of
    its new place. *)
Definition list_at (b : Bundle) (pl : place) : list Z :=
  match pl with
  | InGeneration g => default [] (genLists b !! g)
  | Posted => reclaimList b
  | _ => []
  end.

Lemma bundle_ok_alt b : bundle_ok b ↔
  length (genLists b) = numGenerations ∧ (newestGen b < numGenerations)%nat ∧
  (∀ pl, pl ≠ Nowhere → pl ≠ Inflight → NoDup (list_at b pl) ∧
     ∀ p, place_of b p = pl ↔ p ∈ list_at b pl) ∧
  ∀ p, flags_ok (flags_of b p).
Proof.
  split.
  - intros [H1 H2 H3 H4 H5]. split_and!; try done. intros [|g| |] Hne Hni; try done.
    + simpl. destruct (genLists b !! g) as [l|] eqn:E; simpl.
      * destruct (H3 g l E). split; [done|]. naive_solver.
      * split; [apply NoDup_nil_2|]. intros p. split; [|by intros ?%elem_of_nil]. intros Hp. exfalso.
        destruct (H5 p) as (_ & _ & Hg). unfold place_of, place_of_flags in Hp.
        destruct (reclaimRegistered (flags_of b p)); [|done].
        destruct (reclaimPosted (flags_of b p)); [by destruct (reclaimInflight (flags_of b p))|].
        injection Hp as <-. apply lookup_ge_None in E. lia.
    + simpl. destruct H4. split; [done|]. naive_solver.
  - intros (H1 & H2 & H3 & H4). split; try done.
    + intros g l E. destruct (H3 (InGeneration g)) as [Hn Hp]; [done..|]. simpl in *. rewrite E in *. simpl in *.
      split; [done|]. intros p. symmetry. apply Hp.
    + destruct (H3 Posted) as [Hn Hp]; [done..|]. split; [done|]. intros p. symmetry. apply Hp.
Qed.

(** A change of places with matching lists keeps the bundle consistent. *)
Lemma bundle_step b b' page pl : bundle_ok b →
  length (genLists b') = numGenerations → (newestGen b' < numGenerations)%nat →
  (∀ p, flags_ok (flags_of b' p)) → moved b b' page pl →
  (∀ q, q ≠ Nowhere → q ≠ Inflight →
     list_at b' q = if decide (q = pl) then filter (λ p, p ≠ page) (list_at b q) ++ [page]
                    else filter (λ p, p ≠ page) (list_at b q)) →
  bundle_ok b'.
Proof.
  intros (H1 & H2 & H3 & H4)%bundle_ok_alt Hl Hn Hf Hm Hlist. apply bundle_ok_alt. split_and!; try done.
  intros q Hq1 Hq2. rewrite (Hlist q Hq1 Hq2). destruct (H3 q Hq1 Hq2) as [Hnd Hin].
  case_decide as Eq.
  - subst q. split.
    + apply list_push_ok; [by apply list.NoDup_filter|]. rewrite list_elem_of_filter. naive_solver.
    + intros p. rewrite (Hm p), elem_of_app, list_elem_of_filter, list_elem_of_singleton, <-Hin.
      case_decide; naive_solver.
  - split; [by apply list.NoDup_filter|]. intros p. rewrite (Hm p), list_elem_of_filter, <-Hin.
    case_decide; naive_solver.
Qed.

(** ** The operations *)
Lemma filter_absent page (l : list Z) : page ∉ l → filter (λ p, p ≠ page) l = l.
Proof.
  induction l as [|x l IH]; [done|]. intros [Hx Hl]%not_elem_of_cons.
  rewrite filter_cons_True by congruence. by rewrite IH.
Qed.

Lemma list_at_absent b page pl : bundle_ok b → pl ≠ Nowhere → pl ≠ Inflight → place_of b page ≠ pl →
  filter (λ p, p ≠ page) (list_at b pl) = list_at b pl.
Proof.
  intros (_ & _ & H & _)%bundle_ok_alt H1 H2 Hp. apply filter_absent. intros Hin. apply Hp.
  by apply (H pl H1 H2).
Qed.

Lemma place_generation b page g : bundle_ok b → place_of b page = InGeneration g →
  ∃ l, genLists b !! g = Some l ∧ page ∈ l.
Proof.
  intros Hok Hp. pose proof Hok as (_ & _ & H & _)%bundle_ok_alt.
  destruct (H (InGeneration g)) as [_ Hin]; [done..|]. apply Hin in Hp. simpl in Hp.
  destruct (genLists b !! g) as [l|] eqn:E; [by exists l|]. by apply elem_of_nil in Hp.
Qed.

Lemma newest_list b : bundle_ok b → ∃ l, genLists b !! newestGen b = Some l.
Proof. intros [H1 H2 _ _ _]. apply lookup_lt_is_Some. lia. Qed.

Lemma flags_place b page : bundle_ok b →
  match place_of b page with
  | Nowhere => reclaimRegistered (flags_of b page) = false ∧ reclaimPosted (flags_of b page) = false ∧
      reclaimInflight (flags_of b page) = false
  | InGeneration g => reclaimRegistered (flags_of b page) = true ∧ reclaimPosted (flags_of b page) = false ∧
      reclaimInflight (flags_of b page) = false ∧ generation (flags_of b page) = g
  | Posted => reclaimRegistered (flags_of b page) = true ∧ reclaimPosted (flags_of b page) = true ∧
      reclaimInflight (flags_of b page) = false
  | Inflight => reclaimRegistered (flags_of b page) = true ∧ reclaimPosted (flags_of b page) = true ∧
      reclaimInflight (flags_of b page) = true
  end.
Proof.
  intros [_ _ _ _ H]. destruct (H page) as (H1 & H2 & _). unfold place_of, place_of_flags.
  destruct (flags_of b page) as [[] [] [] g]; simpl in *; naive_solver.
Qed.

(** Updating one generation. *)
Lemma list_at_gens b b' g l : genLists b' = <[g := l]> (genLists b) → (g < length (genLists b))%nat →
  reclaimList b' = reclaimList b → ∀ q, list_at b' q = if decide (q = InGeneration g) then l else list_at b q.
Proof.
  intros E Hg Er [|g'| |]; simpl; try by rewrite ?decide_False by done.
  rewrite E. destruct (decide (g' = g)) as [->|Hne].
  - by rewrite list_lookup_insert_eq, decide_True by done.
  - rewrite list_lookup_insert_ne by done. by rewrite decide_False by congruence.
Qed.

Lemma set_flags_ok b page f : (∀ p, flags_ok (flags_of b p)) → flags_ok f →
  ∀ p, flags_ok (flags_of (set_flags_of b page f) p).
Proof. intros H Hf p. rewrite flags_of_set. by case_decide. Qed.

Lemma set_flags_moved b b' page f : b_flags b' = b_flags (set_flags_of b page f) →
  moved b b' page (place_of_flags f).
Proof.
  intros E q. unfold place_of, flags_of. rewrite E.
  change (default no_flags (b_flags (set_flags_of b page f) !! q)) with (flags_of (set_flags_of b page f) q).
  rewrite flags_of_set. by case_decide.
Qed.

Lemma addPage_spec b page : bundle_ok b → place_of b page = Nowhere →
  ∃ b', addPage b page = Ret b' ∧ bundle_ok b' ∧ moved b b' page (InGeneration (newestGen b)).
Proof.
  intros Hok Hp. pose proof (flags_place b page Hok) as Hf. rewrite Hp in Hf. destruct Hf as (F1 & F2 & F3).
  pose proof Hok as [Hl Hn _ _ Hfl]. destruct (newest_list b Hok) as [l El]. unfold addPage, gen_push.
  rewrite assert_bind by (by rewrite F1). rewrite El. cbn [deref mbind outcome_bind newestGen b_flags]. rewrite F2, F3.
  eexists. split; [done|].
  assert (moved b (set_flags_of (MkBundle (b_flags b) (<[newestGen b := l ++ [page]]> (genLists b)) (newestGen b)
    (reclaimList b)) page (MkFlags true false false (newestGen b))) page (InGeneration (newestGen b))) as Hm
    by (by apply (set_flags_moved b _ page (MkFlags true false false (newestGen b)))).
  split; [|done]. eapply bundle_step; [done|simpl; by rewrite length_insert|done| |done|].
  - apply set_flags_ok; [done|]. by split_and!.
  - intros q Hq1 Hq2. rewrite (list_at_gens b _ (newestGen b) (l ++ [page])); [|done|lia|done].
    case_decide as Eq.
    + subst q. rewrite list_at_absent by (done || congruence). simpl. by rewrite El.
    + by rewrite list_at_absent by (done || congruence).
Qed.

Lemma removePage_spec b page : bundle_ok b → place_of b page ≠ Nowhere →
  ∃ b', removePage b page = Ret b' ∧ bundle_ok b' ∧ moved b b' page Nowhere.
Proof.
  intros Hok Hp. pose proof (flags_place b page Hok) as Hf. pose proof Hok as [Hl Hn Hg [_ Hpo] Hfl].
  destruct (Hfl page) as (_ & _ & Hgen). unfold removePage.
  assert (∀ b' g, b_flags b' = b_flags b → (g < numGenerations)%nat → length (genLists b') = numGenerations →
    newestGen b' = newestGen b →
    (∀ q, q ≠ Nowhere → q ≠ Inflight → list_at b' q = filter (λ p, p ≠ page) (list_at b q)) →
    bundle_ok (set_flags_of b' page (MkFlags false false false g)) ∧
    moved b (set_flags_of b' page (MkFlags false false false g)) page Nowhere) as Hstep.
  { intros b' g Ef Hg' El En Hlist.
    assert (moved b (set_flags_of b' page (MkFlags false false false g)) page Nowhere) as Hm.
    { apply (set_flags_moved b _ page (MkFlags false false false g)). simpl. by rewrite Ef. }
    split; [|done]. eapply bundle_step; [done|done|by rewrite <-En in Hn| |done|].
    - apply set_flags_ok; [|by split_and!]. intros p. unfold flags_of. rewrite Ef. apply Hfl.
    - intros q Hq1 Hq2. rewrite decide_False by done. by apply Hlist. }
  destruct (place_of b page) as [|g| |] eqn:Epl; [done|..].
  - destruct Hf as (-> & -> & -> & <-). rewrite assert_bind by done.
    destruct (place_generation b page _ Hok Epl) as (l & El & Hin). unfold gen_erase. rewrite El.
    cbn [deref mbind outcome_bind]. rewrite list_erase_Ret by done. cbn [mbind outcome_bind].
    eexists. split; [done|]. apply Hstep; [done|done|simpl; by rewrite length_insert|done|].
    intros q Hq1 Hq2.
    rewrite (list_at_gens b _ (generation (flags_of b page)) (filter (λ p, p ≠ page) l)); [|done| |done].
    + case_decide as Eq; [subst q; simpl; by rewrite El|]. by rewrite list_at_absent by (done || congruence).
    + by apply lookup_lt_Some in El.
  - destruct Hf as (-> & -> & ->). rewrite assert_bind by done. cbn [negb].
    rewrite list_erase_Ret by (by apply Hpo). cbn [mbind outcome_bind].
    eexists. split; [done|]. apply Hstep; [done..|].
    intros [|g| |] Hq1 Hq2; try done. change (list_at (set_reclaimList b ?l) (InGeneration g)) with (list_at b (InGeneration g)).
    by rewrite list_at_absent by (done || congruence).
  - destruct Hf as (-> & -> & ->). rewrite assert_bind by done. cbn [negb mbind outcome_bind].
    eexists. split; [done|]. apply Hstep; [done..|].
    intros q Hq1 Hq2. by rewrite list_at_absent by (done || congruence).
Qed.

Lemma bumpPage_spec b page : bundle_ok b → place_of b page ≠ Nowhere →
  ∃ b', bumpPage b page = Ret b' ∧ bundle_ok b' ∧ moved b b' page (InGeneration (newestGen b)).
Proof.
  intros Hok Hp. pose proof (flags_place b page Hok) as Hf. pose proof Hok as [Hl Hn Hg [_ Hpo] Hfl].
  destruct (newest_list b Hok) as [l El]. unfold bumpPage.
  assert (∀ b' l', b_flags b' = b_flags b → length (genLists b') = numGenerations → newestGen b' = newestGen b →
    genLists b' !! newestGen b = Some l' → place_of b page ≠ InGeneration (newestGen b) →
    (∀ q, q ≠ Nowhere → q ≠ Inflight → list_at b' q = filter (λ p, p ≠ page) (list_at b q)) →
    ∃ b'', gen_push (set_flags_of b' page (MkFlags true false false (newestGen b'))) (newestGen b') page = Ret b'' ∧
      bundle_ok b'' ∧ moved b b'' page (InGeneration (newestGen b))) as Hstep.
  { intros b' l' Ef El' En Hnew Hne Hlist. unfold gen_push. cbn [set_flags_of genLists newestGen]. rewrite En, Hnew.
    cbn [deref mbind outcome_bind]. eexists. split; [done|]. set (b'' := MkBundle _ _ _ _).
    assert (moved b b'' page (InGeneration (newestGen b))) as Hm.
    { apply (set_flags_moved b _ page (MkFlags true false false (newestGen b))). simpl. by rewrite Ef. }
    split; [|done]. eapply bundle_step; [done|simpl; by rewrite length_insert|simpl; lia| |done|].
    - intros p. change (flags_of b'' p) with (flags_of (set_flags_of b' page (MkFlags true false false (newestGen b))) p).
      apply set_flags_ok; [|by split_and!]. intros p'. unfold flags_of. rewrite Ef. apply Hfl.
    - intros q Hq1 Hq2. rewrite (list_at_gens b' b'' (newestGen b) (l' ++ [page])); [|done|lia|done].
      pose proof (Hlist q Hq1 Hq2) as Eq. case_decide; [|done]. subst q. simpl in Eq |- *. rewrite Hnew in Eq.
      simpl in Eq. by rewrite Eq. }
  destruct (place_of b page) as [|g| |] eqn:Epl; [done|..].
  - destruct Hf as (-> & -> & -> & <-). rewrite assert_bind by done.
    destruct (Nat.eqb_spec (generation (flags_of b page)) (newestGen b)) as [E|E]; cbn [negb].
    { exists b. split; [done|]. split; [done|]. intros q. case_decide; [subst; by rewrite Epl, E|done]. }
    destruct (place_generation b page _ Hok Epl) as (l0 & El0 & Hin). unfold gen_erase. rewrite El0.
    cbn [deref mbind outcome_bind]. rewrite list_erase_Ret by done. cbn [mbind outcome_bind].
    apply (Hstep (MkBundle (b_flags b) _ (newestGen b) (reclaimList b)) l); try done.
    + simpl. by rewrite length_insert.
    + simpl. by rewrite list_lookup_insert_ne.
    + congruence.
    + intros q Hq1 Hq2.
      rewrite (list_at_gens b _ (generation (flags_of b page)) (filter (λ p, p ≠ page) l0)); [|done| |done].
      * case_decide as Eq; [subst q; simpl; by rewrite El0|]. by rewrite list_at_absent by (done || congruence).
      * by apply lookup_lt_Some in El0.
  - destruct Hf as (-> & -> & ->). rewrite assert_bind by done. cbn [negb].
    rewrite list_erase_Ret by (by apply Hpo). cbn [mbind outcome_bind].
    apply (Hstep (set_reclaimList b (filter (λ p, p ≠ page) (reclaimList b))) l); try done.
    intros [|g| |] Hq1 Hq2; try done. change (list_at (set_reclaimList b ?l) (InGeneration g)) with (list_at b (InGeneration g)).
    by rewrite list_at_absent by (done || congruence).
  - destruct Hf as (-> & -> & ->). rewrite assert_bind by done. cbn [negb mbind outcome_bind].
    apply (Hstep b l); try done. intros q Hq1 Hq2. by rewrite list_at_absent by (done || congruence).
Qed.

Lemma decide_cons {A} (q p : Z) l (x y : A) :
  (if decide (q ∈ p :: l) then x else y) =
  if decide (q = p) then x else if decide (q ∈ l) then x else y.
Proof.
  case_decide as H; rewrite elem_of_cons in H; destruct (decide (q = p)), (decide (q ∈ l)); tauto.
Qed.

(** Taking the posted pages. *)
Lemma mark_inflight_spec l : ∀ b, NoDup l → (∀ p, p ∈ l → place_of b p = Posted) →
  (∀ p, flags_ok (flags_of b p)) →
  ∃ b', mark_inflight b l = Ret b' ∧ genLists b' = genLists b ∧ newestGen b' = newestGen b ∧
    reclaimList b' = reclaimList b ∧ (∀ p, flags_ok (flags_of b' p)) ∧
    ∀ q, place_of b' q = if decide (q ∈ l) then Inflight else place_of b q.
Proof.
  induction l as [|page l IH]; intros b Hnd Hp Hfl.
  { exists b. split_and!; done. }
  apply list.NoDup_cons in Hnd as [Hx Hnd]. cbn [mark_inflight].
  assert (place_of b page = Posted) as Epl by (apply Hp; by left).
  destruct (Hfl page) as (F1 & F2 & F3).
  unfold place_of, place_of_flags in Epl.
  destruct (reclaimRegistered (flags_of b page)) eqn:E1; [|done].
  destruct (reclaimPosted (flags_of b page)) eqn:E2; [|done].
  destruct (reclaimInflight (flags_of b page)) eqn:E3; [done|].
  rewrite !assert_bind by done.
  destruct (IH (set_flags_of b page (MkFlags true true true (generation (flags_of b page))))) as
    (b' & -> & Eg & En & Er & Hf' & Hpl); [done| | |].
  - intros p Hin. unfold place_of. rewrite flags_of_set, decide_False by (intros ->; done). apply Hp. by right.
  - apply set_flags_ok; [done|]. by split_and!.
  - exists b'. split_and!; try done. intros q. rewrite Hpl. unfold place_of at 1. rewrite flags_of_set.
    rewrite decide_cons. by destruct (decide (q ∈ l)), (decide (q = page)) as [->|].
Qed.

Lemma reclaimPages_spec b : bundle_ok b →
  ∃ out b', reclaimPages b = Ret (out, b') ∧ bundle_ok b' ∧ newestGen b' = newestGen b ∧ NoDup out ∧
    (∀ p, p ∈ out ↔ place_of b p = Posted) ∧
    ∀ q, place_of b' q = if decide (place_of b q = Posted) then Inflight else place_of b q.
Proof.
  intros Hok. pose proof Hok as [Hl Hn Hg [Hnd Hpo] Hfl]. unfold reclaimPages.
  destruct (mark_inflight_spec (reclaimList b) (set_reclaimList b [])) as (b' & -> & Eg & En & Er & Hf' & Hpl);
    [done|intros p; apply Hpo|done|]. cbn [mbind outcome_bind].
  exists (reclaimList b), b'. assert (∀ q, place_of b' q = if decide (place_of b q = Posted) then Inflight else place_of b q) as Hpl'.
  { intros q. rewrite Hpl. change (place_of (set_reclaimList b []) q) with (place_of b q).
    destruct (decide (q ∈ reclaimList b)) as [H|H]; rewrite Hpo in H; by case_decide. }
  split; [done|]. split; [|split_and!; done]. split.
  - by rewrite Eg.
  - by rewrite En.
  - intros g l El. rewrite Eg in El. destruct (Hg g l El) as [H1 H2]. split; [done|]. intros p.
    rewrite H2, Hpl'. case_decide as Hd; [rewrite Hd; naive_solver|done].
  - rewrite Er. split; [apply NoDup_nil_2|]. intros p. rewrite Hpl'. split; [by intros ?%elem_of_nil|].
    case_decide; [done|]. naive_solver.
  - done.
Qed.

(** Rotating posts the pages of the oldest generation. *)
Lemma post_pages_spec l : ∀ b g, NoDup l → (∀ p, p ∈ l → place_of b p = InGeneration g) →
  (∀ p, flags_ok (flags_of b p)) →
  ∃ b', post_pages b l = Ret b' ∧ genLists b' = genLists b ∧ newestGen b' = newestGen b ∧
    reclaimList b' = reclaimList b ++ l ∧ (∀ p, flags_ok (flags_of b' p)) ∧
    ∀ q, place_of b' q = if decide (q ∈ l) then Posted else place_of b q.
Proof.
  induction l as [|page l IH]; intros b g Hnd Hp Hfl.
  { exists b. rewrite app_nil_r. split_and!; done. }
  apply list.NoDup_cons in Hnd as [Hx Hnd]. cbn [post_pages].
  assert (place_of b page = InGeneration g) as Epl by (apply Hp; by left).
  destruct (Hfl page) as (F1 & F2 & F3). unfold place_of, place_of_flags in Epl.
  destruct (reclaimRegistered (flags_of b page)) eqn:E1; [|done].
  destruct (reclaimPosted (flags_of b page)) eqn:E2; [by destruct (reclaimInflight (flags_of b page))|].
  rewrite !assert_bind by done. rewrite (F2 eq_refl).
  set (b1 := set_flags_of b page _). set (b2 := set_reclaimList b1 _).
  assert (∀ q, flags_of b2 q = if decide (q = page) then MkFlags true true false (generation (flags_of b page))
    else flags_of b q) as Hfo by (intros q; apply (flags_of_set b page)).
  destruct (IH b2 g) as (b' & -> & Eg & En & Er & Hf' & Hpl); [done| | |].
  - intros p Hin. unfold place_of. rewrite Hfo, decide_False by (intros ->; done). apply Hp. by right.
  - intros p. rewrite Hfo. case_decide; [by split_and!|done].
  - exists b'. split_and!; try done.
    + rewrite Er. simpl. by rewrite <-app_assoc.
    + intros q. rewrite Hpl. unfold place_of at 1. rewrite Hfo.
      rewrite decide_cons. by destruct (decide (q ∈ l)), (decide (q = page)) as [->|].
Qed.

Lemma rotate_spec b : bundle_ok b →
  let g := ((newestGen b + 1) mod numGenerations)%nat in
  ∃ b', rotate b = Ret b' ∧ bundle_ok b' ∧ newestGen b' = g ∧
    ∀ q, place_of b' q = if decide (place_of b q = InGeneration g) then Posted else place_of b q.
Proof.
  intros Hok g. pose proof Hok as [Hl Hn Hg [Hnd Hpo] Hfl].
  assert (g < numGenerations)%nat as Hlt by (apply Nat.mod_upper_bound; done).
  destruct (lookup_lt_is_Some_2 (genLists b) g) as [l El]; [lia|]. destruct (Hg g l El) as [Hnl Hin].
  unfold rotate. fold g. rewrite El. cbn [deref mbind outcome_bind].
  destruct (post_pages_spec l b g) as (b1 & -> & Eg & En & Er & Hf' & Hpl); [done|intros p; apply Hin|done|].
  cbn [mbind outcome_bind]. eexists. split; [done|]. set (b' := MkBundle _ _ _ _).
  assert (∀ q, place_of b' q = if decide (place_of b q = InGeneration g) then Posted else place_of b q) as Hpl'.
  { intros q. change (place_of b' q) with (place_of b1 q). rewrite Hpl.
    destruct (decide (q ∈ l)) as [H|H]; rewrite Hin in H; by case_decide. }
  split; [|done]. split.
  - simpl. by rewrite length_insert, Eg.
  - done.
  - intros g' l' El'. simpl in El'. rewrite Eg in El'. destruct (decide (g' = g)) as [->|Hne].
    + rewrite list_lookup_insert_eq in El' by lia. injection El' as <-. split; [apply NoDup_nil_2|].
      intros p. rewrite Hpl'. split; [by intros ?%elem_of_nil|]. case_decide; naive_solver.
    + rewrite list_lookup_insert_ne in El' by done. destruct (Hg g' l' El') as [H1 H2]. split; [done|].
      intros p. rewrite H2, Hpl'. case_decide as Hd; [rewrite Hd; naive_solver|done].
  - simpl. rewrite Er. split.
    + apply list.NoDup_app. split_and!; [done| |done]. intros p Hp1%Hpo Hp2%Hin. by rewrite Hp1 in Hp2.
    + intros p. rewrite elem_of_app, Hpo, Hin, Hpl'. case_decide as Hd; [rewrite Hd; naive_solver|naive_solver].
  - done.
Qed.

(** ** Sequences of operations

    The critical sections of the reclaimer on one bundle, in the order in which they
    take [reclaimMutex_]. *)
Inductive op := OpAdd (page : Z) | OpRemove (page : Z) | OpBump (page : Z) | OpReclaim | OpRotate.

Definition do_op (b : Bundle) (o : op) : outcome Bundle :=
  match o with
  | OpAdd page => addPage b page
  | OpRemove page => removePage b page
  | OpBump page => bumpPage b page
  | OpReclaim => '(_, b) ← reclaimPages b; Ret b
  | OpRotate => rotate b
  end.
Fixpoint do_ops (b : Bundle) (os : list op) : outcome Bundle :=
  match os with
  | [] => Ret b
  | o :: os => b ← do_op b o; do_ops b os
  end.

(** The callers' obligations: only pages out of the reclaimer are added and only
    pages in it are removed or bumped. *)
Definition op_allowed (b : Bundle) (o : op) : bool :=
  match o with
  | OpAdd page => bool_decide (place_of b page = Nowhere)
  | OpRemove page | OpBump page => bool_decide (place_of b page ≠ Nowhere)
  | OpReclaim | OpRotate => true
  end.
Fixpoint ops_allowed (b : Bundle) (os : list op) : bool :=
  match os with
  | [] => true
  | o :: os => op_allowed b o && match do_op b o with Ret b' => ops_allowed b' os | Stop _ => true end
  end.

Definition touches (page : Z) (o : op) : bool :=
  match o with
  | OpAdd p | OpRemove p | OpBump p => bool_decide (p = page)
  | _ => false
  end.
Fixpoint rotations (os : list op) : nat :=
  match os with
  | [] => 0
  | OpRotate :: os => S (rotations os)
  | _ :: os => rotations os
  end.

(** How many rotations a generation survives. *)
Definition rotations_left (b : Bundle) (g : nat) : nat :=
  (S ((g + numGenerations - newestGen b - 1) mod numGenerations))%nat.

Lemma mark_inflight_newest l : ∀ b b', mark_inflight b l = Ret b' → newestGen b' = newestGen b.
Proof.
  induction l as [|page l IH]; intros b b' H; cbn [mark_inflight] in H; [by injection H as <-|].
  inv_outcome. by match goal with H : _ = Ret b' |- _ => apply IH in H end.
Qed.

Lemma do_op_newest b o b' : do_op b o = Ret b' → o ≠ OpRotate → newestGen b' = newestGen b.
Proof.
  destruct o as [page|page|page| |]; cbn [do_op]; intros H Hne; [| | | |done].
  - unfold addPage, gen_push in H. inv_outcome. by subst.
  - unfold removePage, gen_erase, list_erase in H. inv_outcome.
    destruct (reclaimPosted _), (reclaimInflight _); cbn [negb] in *; inv_outcome; by subst.
  - unfold bumpPage, gen_push, gen_erase, list_erase in H. inv_outcome.
    destruct (reclaimPosted _), (reclaimInflight _), (generation (flags_of b page) =? newestGen b)%nat;
      cbn [negb] in *; inv_outcome; by subst.
  - unfold reclaimPages in H. inv_outcome. destruct x. inv_outcome. simplify_eq.
    match goal with H : mark_inflight _ _ = _ |- _ => by apply mark_inflight_newest in H end.
Qed.

(** An operation moves only the page it names; rotating moves a whole generation. *)
Lemma do_op_spec b o page : bundle_ok b → op_allowed b o = true → touches page o = false →
  ∃ b', do_op b o = Ret b' ∧ bundle_ok b' ∧
    newestGen b' = (if o is OpRotate then (newestGen b + 1) mod numGenerations else newestGen b)%nat ∧
    match place_of b page with
    | InGeneration g => place_of b' page =
        if o is OpRotate then if decide (g = newestGen b') then Posted else InGeneration g else InGeneration g
    | Posted | Inflight => place_of b' page = Posted ∨ place_of b' page = Inflight
    | Nowhere => place_of b' page = Nowhere
    end.
Proof.
  intros Hok Hal Ht.
  assert (∀ b' p pl, p ≠ page → moved b b' p pl → place_of b' page = place_of b page) as Hmv.
  { intros b' p pl Hne Hm. rewrite (Hm page). by rewrite decide_False by done. }
  destruct o as [p|p|p| |]; simpl in Ht, Hal;
    try apply bool_decide_eq_false in Ht; try apply bool_decide_eq_true in Hal.
  - destruct (addPage_spec b p Hok Hal) as (b' & E & Hok' & Hm). exists b'. split_and!; try done.
    + by apply (do_op_newest b (OpAdd p)).
    + rewrite (Hmv b' p _ Ht Hm). destruct (place_of b page); auto.
  - destruct (removePage_spec b p Hok Hal) as (b' & E & Hok' & Hm). exists b'. split_and!; try done.
    + by apply (do_op_newest b (OpRemove p)).
    + rewrite (Hmv b' p _ Ht Hm). destruct (place_of b page); auto.
  - destruct (bumpPage_spec b p Hok Hal) as (b' & E & Hok' & Hm). exists b'. split_and!; try done.
    + by apply (do_op_newest b (OpBump p)).
    + rewrite (Hmv b' p _ Ht Hm). destruct (place_of b page); auto.
  - destruct (reclaimPages_spec b Hok) as (out & b' & E & Hok' & Hn & _ & _ & Hp). exists b'.
    split; [simpl; by rewrite E|]. split_and!; try done. rewrite Hp.
    destruct (place_of b page); case_decide; auto; done.
  - destruct (rotate_spec b Hok) as (b' & E & Hok' & Hn & Hp). exists b'. split_and!; try done.
    rewrite Hp, Hn. destruct (place_of b page) as [|g| |]; [done| |by left|by right].
    destruct (decide (g = _)) as [->|Hne]; [by rewrite decide_True|].
    rewrite decide_False; [done|congruence].
Qed.

(** A posted page that is not touched stays with the reclaimer's client. *)
Lemma posted_stays os page : ∀ b, bundle_ok b → ops_allowed b os = true →
  forallb (λ o, negb (touches page o)) os = true → place_of b page = Posted ∨ place_of b page = Inflight →
  ∃ b', do_ops b os = Ret b' ∧ bundle_ok b' ∧ (place_of b' page = Posted ∨ place_of b' page = Inflight).
Proof.
  induction os as [|o os IH]; intros b Hok Hal Ht Hp; [by exists b|].
  simpl in Ht. apply andb_true_iff in Ht as [Ht Hts]. apply negb_true_iff in Ht. apply andb_true_iff in Hal as [Ho Hal].
  destruct (do_op_spec b o page Hok Ho Ht) as (b' & E & Hok' & _ & Hp'). cbn [do_ops]. rewrite E.
  cbn [mbind outcome_bind]. apply IH; [done|by rewrite E in Hal|done|]. by destruct Hp as [Hp|Hp]; rewrite Hp in Hp'.
Qed.

Lemma rotations_left_step b g : (newestGen b < numGenerations)%nat → (g < numGenerations)%nat →
  let n := ((newestGen b + 1) mod numGenerations)%nat in
  rotations_left b g =
    if decide (g = n) then 1%nat
    else S (S ((g + numGenerations - n - 1) mod numGenerations)).
Proof.
  unfold rotations_left. destruct b as [bf bg n br]. unfold numGenerations. cbn [newestGen]. intros Hn Hg.
  do 8 (destruct g as [|g]; [by do 8 (destruct n as [|n]; [done|]); lia|]). lia.
Qed.

Lemma aging os page : ∀ b g, bundle_ok b → ops_allowed b os = true →
  forallb (λ o, negb (touches page o)) os = true → place_of b page = InGeneration g →
  ∃ b', do_ops b os = Ret b' ∧ bundle_ok b' ∧
    if decide (rotations os < rotations_left b g)%nat then place_of b' page = InGeneration g
    else place_of b' page = Posted ∨ place_of b' page = Inflight.
Proof.
  induction os as [|o os IH]; intros b g Hok Hal Ht Hp.
  { exists b. by split_and!. }
  pose proof Ht as Ht'. simpl in Ht. apply andb_true_iff in Ht as [Ht Hts]. apply negb_true_iff in Ht.
  cbn [ops_allowed] in Hal. apply andb_true_iff in Hal as [Ho Hal].
  assert (g < numGenerations)%nat as Hg.
  { pose proof (flags_place b page Hok) as Hf. rewrite Hp in Hf. destruct Hf as (_ & _ & _ & <-). apply Hok. }
  assert (newestGen b < numGenerations)%nat as Hn by apply Hok.
  destruct (do_op_spec b o page Hok Ho Ht) as (b' & E & Hok' & Hn' & Hp'). rewrite Hp in Hp'. cbn [do_ops].
  rewrite E. cbn [mbind outcome_bind]. rewrite E in Hal.
  destruct o as [p|p|p| |]; try (destruct (IH b' g Hok' Hal Hts Hp') as (b2 & -> & Hok2 & H2); exists b2;
    split_and!; try done; unfold rotations_left in *; rewrite Hn' in H2; exact H2).
  rewrite rotations_left_step by done. cbn [rotations] in *. rewrite Hn' in Hp'. case_decide as Hd.
  - destruct (posted_stays os page b' Hok' Hal Hts) as (b2 & -> & Hok2 & H2); [by left|].
    exists b2. by split_and!.
  - destruct (IH b' g Hok' Hal Hts Hp') as (b2 & -> & Hok2 & H2). exists b2. split_and!; try done.
    unfold rotations_left in H2. rewrite Hn' in H2.
    destruct (decide (S _ < _)%nat), (decide (_ < S (_ mod _))%nat); try done; lia.
Qed.

(** ** Rotating every bundle

    [rotateGenerations_] walks [bundleList_]; it counts the bytes it posted and raises
    the event of each bundle that gained posted pages. *)
Record Reclaimer := MkReclaimer {
  bundles : list Bundle;
  rotationTurnaround : Z;
}.

Fixpoint rotate_bundles (bs : list Bundle) : outcome (list Bundle * list bool * Z) :=
  match bs with
  | [] => Ret ([], [], 0)
  | bundle :: bs =>
      let g := ((newestGen bundle + 1) mod numGenerations)%nat in
      genList ← deref (genLists bundle !! g);
      bundle ← rotate bundle;
      '(bs, raised, sizeReclaimed) ← rotate_bundles bs;
      Ret (bundle :: bs, negb (bool_decide (genList = [])) :: raised,
           u64 (kPageSize * Z.of_nat (length genList) + sizeReclaimed))
  end.
Definition rotateGenerations_ (r : Reclaimer) : outcome (Reclaimer * list bool * Z) :=
  '(bs, raised, sizeReclaimed) ← rotate_bundles (bundles r);
  Ret (MkReclaimer bs 0, raised, sizeReclaimed).

(** [rotationTurnaround_.fetch_add(1)] at the end of [addPage] and [bumpPage]. *)
Definition count_turnaround (r : Reclaimer) : Reclaimer :=
  MkReclaimer (bundles r) (u64 (rotationTurnaround r + 1)).
Definition shouldRotate_ (r : Reclaimer) (numTotalPages : Z) : bool :=
  let totalCachePages := numTotalPages / 2 in
  let threshold := totalCachePages / Z.of_nat numGenerations in
  threshold <=? rotationTurnaround r.
Definition checkPressure_ (tortureUncaching : bool) (numTotalPages numUsedPages : Z) : bool :=
  let watermark := u64 (numTotalPages * 3) / 4 in
  tortureUncaching || (watermark <=? numUsedPages).

(** The loop of [runReclaimFiber] on memory pressure.  [used i] is what the physical
    allocator reports in iteration [i]: other processors allocate and free meanwhile. *)
Fixpoint pressure_loop (torture : bool) (total : Z) (used : nat → Z) (n i : nat) (r : Reclaimer) :
    outcome Reclaimer :=
  match n with
  | O => Ret r
  | S n =>
      if negb (checkPressure_ torture total (used i)) then Ret r
      else '(r, _, _) ← rotateGenerations_ r; pressure_loop torture total used n (S i) r
  end.
(** One iteration of the fiber, up to its sleep. *)
Definition reclaim_iteration (disableUncaching torture : bool) (total : Z) (used : nat → Z) (r : Reclaimer) :
    outcome Reclaimer :=
  if disableUncaching then Ret r
  else
    r ← (if checkPressure_ torture total (used 0%nat)
         then pressure_loop torture total used numGenerations 1 r else Ret r);
    if shouldRotate_ r total then '(r, _, _) ← rotateGenerations_ r; Ret r else Ret r.


Lemma rotate_bundles_spec bs : Forall bundle_ok bs →
  ∃ bs' raised size, rotate_bundles bs = Ret (bs', raised, size) ∧ Forall bundle_ok bs' ∧
    Forall2 (λ b b', rotate b = Ret b') bs bs' ∧ length raised = length bs.
Proof.
  induction 1 as [|b bs Hb _ (bs' & raised & size & E & Hok & H2 & Hl)]; cbn [rotate_bundles].
  { exists [], [], 0. by split_and!. }
  destruct (rotate_spec b Hb) as (b' & Eb & Hb' & _). pose proof Hb as [Hlen _ _ _ _].
  destruct (lookup_lt_is_Some_2 (genLists b) ((newestGen b + 1) mod numGenerations)) as [l El].
  { rewrite Hlen. by apply Nat.mod_upper_bound. }
  rewrite El, Eb, E. cbn [deref mbind outcome_bind]. eexists _, _, _. split; [done|].
  split_and!; [by constructor|by constructor|]. simpl. by rewrite Hl.
Qed.

(** One iteration of the reclaim fiber keeps every bundle consistent and never fails. *)
Lemma rotateGenerations_spec r : Forall bundle_ok (bundles r) →
  ∃ r' raised size, rotateGenerations_ r = Ret (r', raised, size) ∧ Forall bundle_ok (bundles r') ∧
    rotationTurnaround r' = 0 ∧ Forall2 (λ b b', rotate b = Ret b') (bundles r) (bundles r').
Proof.
  intros H. unfold rotateGenerations_. destruct (rotate_bundles_spec _ H) as (bs' & raised & size & -> & Hok & H2 & _).
  cbn [mbind outcome_bind]. by eexists _, _, _.
Qed.

Lemma pressure_loop_spec torture total used n : ∀ i r, Forall bundle_ok (bundles r) →
  ∃ r', pressure_loop torture total used n i r = Ret r' ∧ Forall bundle_ok (bundles r').
Proof.
  induction n as [|n IH]; intros i r H; cbn [pressure_loop]; [by exists r|].
  destruct (checkPressure_ torture total (used i)); cbn [negb]; [|by exists r].
  destruct (rotateGenerations_spec r H) as (r' & ra & sz & -> & Hok & _). cbn [mbind outcome_bind]. by apply IH.
Qed.

Lemma reclaim_iteration_spec disable torture total used r : Forall bundle_ok (bundles r) →
  ∃ r', reclaim_iteration disable torture total used r = Ret r' ∧ Forall bundle_ok (bundles r').
Proof.
  intros H. unfold reclaim_iteration. destruct disable; [by exists r|].
  assert (∃ r1, (if checkPressure_ torture total (used 0%nat)
    then pressure_loop torture total used numGenerations 1 r else Ret r) = Ret r1 ∧ Forall bundle_ok (bundles r1))
    as (r1 & -> & H1) by (destruct (checkPressure_ _ _ _); [by apply pressure_loop_spec|by exists r]).
  cbn [mbind outcome_bind]. destruct (shouldRotate_ r1 total); [|by exists r1].
  destruct (rotateGenerations_spec r1 H1) as (r' & ra & sz & -> & Hok & _). by exists r'.
Qed.

(** C30: pages age as in a clock of eight generations, whatever else happens to the
    bundle.  Once a page was bumped and until it is touched again, it survives the next
    seven rotations, and by the eighth it has been posted for reclamation.  No
    operation of the sequence fails an assertion. *)
Theorem bumped_page_ages b page os :
  bundle_ok b → ops_allowed b (OpBump page :: os) = true →
  forallb (λ o, negb (touches page o)) os = true →
  ∃ b', do_ops b (OpBump page :: os) = Ret b' ∧ bundle_ok b' ∧
    ((rotations os < numGenerations)%nat → place_of b' page = InGeneration (newestGen b)) ∧
    ((numGenerations ≤ rotations os)%nat → place_of b' page = Posted ∨ place_of b' page = Inflight).
Proof.
  cbn [ops_allowed op_allowed]. intros Hok [Ho%bool_decide_eq_true Hal]%andb_true_iff Ht.
  destruct (bumpPage_spec b page Hok Ho) as (b1 & E & Hok1 & Hm).
  assert (newestGen b1 = newestGen b) as Hn by (by apply (do_op_newest b (OpBump page))).
  assert (place_of b1 page = InGeneration (newestGen b)) as Hp by (rewrite (Hm page); by rewrite decide_True).
  cbn [do_op] in Hal. rewrite E in Hal. destruct (aging os page b1 _ Hok1 Hal Ht Hp) as (b' & E' & Hok' & H').
  exists b'. split; [by cbn [do_ops do_op]; rewrite E|]. split; [done|].
  assert (rotations_left b1 (newestGen b) = numGenerations) as Hleft.
  { unfold rotations_left. rewrite Hn. pose proof (bo_newest b Hok) as Hlt.
    replace (newestGen b + numGenerations - newestGen b - 1)%nat with 7%nat by (unfold numGenerations; lia). done. }
  rewrite Hleft in H'. split; intros; [by rewrite decide_True in H'|by rewrite decide_False in H' by lia].
Qed.

Definition sample_bundle : Bundle :=
  match do_ops empty_bundle [OpAdd 1; OpAdd 2; OpRotate] with Ret b => b | Stop _ => empty_bundle end.
Definition sample_ops : list op :=
  [OpRotate; OpBump 2; OpRotate; OpRotate; OpRemove 2; OpRotate; OpReclaim; OpRotate; OpRotate; OpRotate; OpAdd 3].

Lemma bumped_page_ages_witness :
  ∃ b', do_ops sample_bundle (OpBump 1 :: (sample_ops ++ [OpRotate])) = Ret b' ∧
    (place_of b' 1 = Posted ∨ place_of b' 1 = Inflight).
Proof.
  destruct (bumped_page_ages sample_bundle 1 (sample_ops ++ [OpRotate])) as (b' & E & _ & _ & H).
  - destruct (addPage_spec empty_bundle 1 empty_bundle_ok) as (b1 & E1 & H1 & _); [by vm_compute|].
    destruct (addPage_spec b1 2 H1) as (b2 & E2 & H2 & _).
    { vm_compute in E1. injection E1 as <-. by vm_compute. }
    destruct (rotate_spec b2 H2) as (b3 & E3 & H3 & _).
    enough (sample_bundle = b3) as -> by done. unfold sample_bundle. cbn [do_ops do_op].
    rewrite E1. cbn [mbind outcome_bind]. rewrite E2. cbn [mbind outcome_bind]. by rewrite E3.
  - by vm_compute.
  - by vm_compute.
  - exists b'. split; [done|]. apply H. vm_compute. lia.
Defined.
