(* ===== verification/ManagedSpace.v ===== *)
(** * The page cache

    [ManagedSpace], [SwapSpace], [BackingMemory], [FrontalMemory] and
    [SwappableMemory] of kernel/thor/generic/memory-view.cpp.

    Every critical section under the mutex of a space is one function; the coroutines
    [_runReclaimLoop] and [_runDrainLoop] are the sequences of the critical sections
    between their suspension points, with their local lists as part of the state.
    Events that are raised, requests that are handed to the server and frames that are
    freed after the mutex is dropped are appended to a log in their order.

    The radix tree of pages is a finite map from page indices; a page is named by its
    index.  The reclaimer's part of a page is in the [Bundle] of Reclaimer.v. *)
From Stdlib Require Import ZArith Lia.
From stdpp Require Import base list numbers option gmap fin_maps functions sorting.
From S2P Require Import Prelude PageConsts Buddy Reclaimer.
Open Scope Z_scope.

Inductive Error :=
| E_success | E_illegalArgs | E_illegalObject | E_bufferTooSmall | E_fault | E_noMemory.

Inductive LoadState := missing | present.
#[export] Instance LoadState_eq_dec : EqDecision LoadState.
Proof. solve_decision. Defined.

Inductive TxState :=
| none | wantInitialization | initialization | dirty | pendingWriteback | wantWriteback
| writeback | inReclaimer | performReclaim | avertReclaim | discardQueued.
#[export] Instance TxState_eq_dec : EqDecision TxState.
Proof. solve_decision. Defined.

Inductive ManageRequest := MR_null | MR_initialize | MR_writeback.
#[export] Instance ManageRequest_eq_dec : EqDecision ManageRequest.
Proof. solve_decision. Defined.

(** [PhysicalAddr(-1)] *)
Definition noFrame : Z := u64 (-1).

(** [ManagedPage].  A [TransactionMonitor] is named by a number. *)
Record ManagedPage := MkPage {
  physical : Z;
  loadState : LoadState;
  transactionState : TxState;
  stillDirty : bool;
  forceInvalidation : bool;
  swapCopyValid : bool;
  discarded : bool;
  swapBudgetClaimed : bool;
  lockCount : Z;
  useCount : Z;
  monitor : option nat;
}.
Definition new_page : ManagedPage :=
  MkPage noFrame missing none false false false false false 0 0 None.

Definition set_physical (p : ManagedPage) (v : Z) : ManagedPage :=
  MkPage v (loadState p) (transactionState p) (stillDirty p) (forceInvalidation p) (swapCopyValid p)
    (discarded p) (swapBudgetClaimed p) (lockCount p) (useCount p) (monitor p).
Definition set_loadState (p : ManagedPage) (v : LoadState) : ManagedPage :=
  MkPage (physical p) v (transactionState p) (stillDirty p) (forceInvalidation p) (swapCopyValid p)
    (discarded p) (swapBudgetClaimed p) (lockCount p) (useCount p) (monitor p).
Definition set_tx (p : ManagedPage) (v : TxState) : ManagedPage :=
  MkPage (physical p) (loadState p) v (stillDirty p) (forceInvalidation p) (swapCopyValid p)
    (discarded p) (swapBudgetClaimed p) (lockCount p) (useCount p) (monitor p).
Definition set_stillDirty (p : ManagedPage) (v : bool) : ManagedPage :=
  MkPage (physical p) (loadState p) (transactionState p) v (forceInvalidation p) (swapCopyValid p)
    (discarded p) (swapBudgetClaimed p) (lockCount p) (useCount p) (monitor p).
Definition set_forceInvalidation (p : ManagedPage) (v : bool) : ManagedPage :=
  MkPage (physical p) (loadState p) (transactionState p) (stillDirty p) v (swapCopyValid p)
    (discarded p) (swapBudgetClaimed p) (lockCount p) (useCount p) (monitor p).
Definition set_swapCopyValid (p : ManagedPage) (v : bool) : ManagedPage :=
  MkPage (physical p) (loadState p) (transactionState p) (stillDirty p) (forceInvalidation p) v
    (discarded p) (swapBudgetClaimed p) (lockCount p) (useCount p) (monitor p).
Definition set_discarded (p : ManagedPage) (v : bool) : ManagedPage :=
  MkPage (physical p) (loadState p) (transactionState p) (stillDirty p) (forceInvalidation p)
    (swapCopyValid p) v (swapBudgetClaimed p) (lockCount p) (useCount p) (monitor p).
Definition set_swapBudgetClaimed (p : ManagedPage) (v : bool) : ManagedPage :=
  MkPage (physical p) (loadState p) (transactionState p) (stillDirty p) (forceInvalidation p)
    (swapCopyValid p) (discarded p) v (lockCount p) (useCount p) (monitor p).
Definition set_lockCount (p : ManagedPage) (v : Z) : ManagedPage :=
  MkPage (physical p) (loadState p) (transactionState p) (stillDirty p) (forceInvalidation p)
    (swapCopyValid p) (discarded p) (swapBudgetClaimed p) v (useCount p) (monitor p).
Definition set_useCount (p : ManagedPage) (v : Z) : ManagedPage :=
  MkPage (physical p) (loadState p) (transactionState p) (stillDirty p) (forceInvalidation p)
    (swapCopyValid p) (discarded p) (swapBudgetClaimed p) (lockCount p) v (monitor p).
Definition set_monitor (p : ManagedPage) (v : option nat) : ManagedPage :=
  MkPage (physical p) (loadState p) (transactionState p) (stillDirty p) (forceInvalidation p)
    (swapCopyValid p) (discarded p) (swapBudgetClaimed p) (lockCount p) (useCount p) v.

(** The lists that pages are linked into: those of the space, and the local lists of
    the coroutines.  [invalidate_evicting] is not a list of the code: it collects the
    pages that calls of [invalidateRange] are evicting and refer to by a pointer. *)
Inductive page_list :=
| _dirtyList | _initializationList | _writebackList | _discardList
| drain_pending | reclaim_batch | reclaim_discardBatch | invalidate_evicting.
#[export] Instance page_list_eq_dec : EqDecision page_list.
Proof. solve_decision. Defined.

Inductive effect :=
| RaiseMonitor (m : nat)
| RaiseDiscard
| RaiseDirty
| Complete (node : Z) (type : ManageRequest) (offset size : Z)
| FreeFrame (physical : Z).

(** [pfnDb] holds the frames that the global PFN database maps to pages of the space. *)
Record ManagedSpace := MkSpace {
  pages : gmap Z ManagedPage;
  lists : page_list → list Z;
  bundle : Bundle;
  pfnDb : gmap Z Z;
  numPages : Z;
  readahead : bool;
  isSwapSpace : bool;
  _managementQueue : list Z;
  _drainBlocked : bool;
  _buddyAccessor : BuddyAccessor;
  _budget : Z;
  _budgetClaimed : Z;
  nextMonitor : nat;
  log : list effect;
}.

Definition set_pages (s : ManagedSpace) (v : gmap Z ManagedPage) : ManagedSpace :=
  MkSpace v (lists s) (bundle s) (pfnDb s) (numPages s) (readahead s) (isSwapSpace s)
    (_managementQueue s) (_drainBlocked s) (_buddyAccessor s) (_budget s) (_budgetClaimed s) (nextMonitor s) (log s).
Definition set_lists (s : ManagedSpace) (v : page_list → list Z) : ManagedSpace :=
  MkSpace (pages s) v (bundle s) (pfnDb s) (numPages s) (readahead s) (isSwapSpace s)
    (_managementQueue s) (_drainBlocked s) (_buddyAccessor s) (_budget s) (_budgetClaimed s) (nextMonitor s) (log s).
Definition set_bundle (s : ManagedSpace) (v : Bundle) : ManagedSpace :=
  MkSpace (pages s) (lists s) v (pfnDb s) (numPages s) (readahead s) (isSwapSpace s)
    (_managementQueue s) (_drainBlocked s) (_buddyAccessor s) (_budget s) (_budgetClaimed s) (nextMonitor s) (log s).
Definition set_pfnDb (s : ManagedSpace) (v : gmap Z Z) : ManagedSpace :=
  MkSpace (pages s) (lists s) (bundle s) v (numPages s) (readahead s) (isSwapSpace s)
    (_managementQueue s) (_drainBlocked s) (_buddyAccessor s) (_budget s) (_budgetClaimed s) (nextMonitor s) (log s).
Definition set_numPages (s : ManagedSpace) (v : Z) : ManagedSpace :=
  MkSpace (pages s) (lists s) (bundle s) (pfnDb s) v (readahead s) (isSwapSpace s)
    (_managementQueue s) (_drainBlocked s) (_buddyAccessor s) (_budget s) (_budgetClaimed s) (nextMonitor s) (log s).
Definition set_managementQueue (s : ManagedSpace) (v : list Z) : ManagedSpace :=
  MkSpace (pages s) (lists s) (bundle s) (pfnDb s) (numPages s) (readahead s) (isSwapSpace s)
    v (_drainBlocked s) (_buddyAccessor s) (_budget s) (_budgetClaimed s) (nextMonitor s) (log s).
Definition set_drainBlocked (s : ManagedSpace) (v : bool) : ManagedSpace :=
  MkSpace (pages s) (lists s) (bundle s) (pfnDb s) (numPages s) (readahead s) (isSwapSpace s)
    (_managementQueue s) v (_buddyAccessor s) (_budget s) (_budgetClaimed s) (nextMonitor s) (log s).
Definition set_buddyAccessor (s : ManagedSpace) (v : BuddyAccessor) : ManagedSpace :=
  MkSpace (pages s) (lists s) (bundle s) (pfnDb s) (numPages s) (readahead s) (isSwapSpace s)
    (_managementQueue s) (_drainBlocked s) v (_budget s) (_budgetClaimed s) (nextMonitor s) (log s).
Definition set_budget (s : ManagedSpace) (v : Z) : ManagedSpace :=
  MkSpace (pages s) (lists s) (bundle s) (pfnDb s) (numPages s) (readahead s) (isSwapSpace s)
    (_managementQueue s) (_drainBlocked s) (_buddyAccessor s) v (_budgetClaimed s) (nextMonitor s) (log s).
Definition set_budgetClaimed (s : ManagedSpace) (v : Z) : ManagedSpace :=
  MkSpace (pages s) (lists s) (bundle s) (pfnDb s) (numPages s) (readahead s) (isSwapSpace s)
    (_managementQueue s) (_drainBlocked s) (_buddyAccessor s) (_budget s) v (nextMonitor s) (log s).
Definition set_nextMonitor (s : ManagedSpace) (v : nat) : ManagedSpace :=
  MkSpace (pages s) (lists s) (bundle s) (pfnDb s) (numPages s) (readahead s) (isSwapSpace s)
    (_managementQueue s) (_drainBlocked s) (_buddyAccessor s) (_budget s) (_budgetClaimed s) v (log s).
Definition set_log (s : ManagedSpace) (v : list effect) : ManagedSpace :=
  MkSpace (pages s) (lists s) (bundle s) (pfnDb s) (numPages s) (readahead s) (isSwapSpace s)
    (_managementQueue s) (_drainBlocked s) (_buddyAccessor s) (_budget s) (_budgetClaimed s) (nextMonitor s) v.

Definition set_page (s : ManagedSpace) (i : Z) (p : ManagedPage) : ManagedSpace :=
  set_pages s (<[i := p]> (pages s)).
Definition set_list (s : ManagedSpace) (l : page_list) (v : list Z) : ManagedSpace :=
  set_lists s (<[l := v]> (lists s)).
Definition push_back (s : ManagedSpace) (l : page_list) (i : Z) : ManagedSpace :=
  set_list s l (lists s l ++ [i]).
Definition erase_from (s : ManagedSpace) (l : page_list) (i : Z) : outcome ManagedSpace :=
  v ← list_erase i (lists s l);
  Ret (set_list s l v).
Definition emit (s : ManagedSpace) (e : list effect) : ManagedSpace :=
  set_log s (log s ++ e).
Definition emit_if (b : bool) (s : ManagedSpace) (e : effect) : ManagedSpace :=
  if b then emit s [e] else s.

(** [frg::allocate_intrusive_shared<TransactionMonitor>] *)
Definition new_monitor (s : ManagedSpace) : nat * ManagedSpace :=
  (nextMonitor s, set_nextMonitor s (S (nextMonitor s))).

Definition is_tx (p : ManagedPage) (t : TxState) : bool := bool_decide (transactionState p = t).
Definition is_present (p : ManagedPage) : bool := bool_decide (loadState p = present).
Definition in_use (p : ManagedPage) : bool := negb (lockCount p =? 0) || negb (useCount p =? 0).

(** [globalReclaimer->removePage] and [addPage]. *)
Definition reclaimer_remove (s : ManagedSpace) (i : Z) : outcome ManagedSpace :=
  b ← removePage (bundle s) i; Ret (set_bundle s b).
Definition reclaimer_add (s : ManagedSpace) (i : Z) : outcome ManagedSpace :=
  b ← addPage (bundle s) i; Ret (set_bundle s b).

(** [pages.find_or_insert(index, this, index)] *)
Definition find_or_insert (s : ManagedSpace) (i : Z) : ManagedPage * ManagedSpace :=
  match pages s !! i with
  | Some p => (p, s)
  | None => (new_page, set_page s i new_page)
  end.

(** The indices that a loop [for(pg = 0; pg < size; pg += kPageSize)] visits.  The
    callers bound [size] well below 2^64, so that the counter does not wrap. *)
Definition page_indices (offset size : Z) : list Z :=
  (λ pg, u64 (offset + pg * kPageSize) / kPageSize) <$> seqZ 0 ((size + kPageSize - 1) / kPageSize).

(** ** Swap budget and swap offsets *)
Definition claimSwapBudget (s : ManagedSpace) (p : ManagedPage) : bool * ManagedPage * ManagedSpace :=
  if negb (isSwapSpace s) then (true, p, s)
  else if swapBudgetClaimed p then (true, p, s)
  else if _budget s <=? _budgetClaimed s then (false, p, s)
  else (true, set_swapBudgetClaimed p true, set_budgetClaimed s (u64 (_budgetClaimed s + 1))).

Definition _allocateOffset (s : ManagedSpace) : outcome (option Z * ManagedSpace) :=
  '(offset, b) ← allocate (_buddyAccessor s) 0 64;
  if offset =? illegalAddress then Ret (None, set_buddyAccessor s b)
  else Ret (Some offset, set_buddyAccessor s b).
Definition _freeOffset (s : ManagedSpace) (offset : Z) : outcome ManagedSpace :=
  assert! offset <? numPages s;
  b ← free (_buddyAccessor s) offset 0;
  Ret (set_buddyAccessor s b).

(** [_pageDiscarded]: the page is about to be erased. *)
Definition _pageDiscarded (s : ManagedSpace) (i : Z) (p : ManagedPage) : outcome ManagedSpace :=
  if negb (isSwapSpace s) then Ret s
  else
    s ← (if swapBudgetClaimed p then
           assert! negb (_budgetClaimed s =? 0);
           Ret (set_drainBlocked (set_page (set_budgetClaimed s (u64 (_budgetClaimed s - 1))) i
                  (set_swapBudgetClaimed p false)) false)
         else Ret s);
    _freeOffset s i.

Definition erase_page (s : ManagedSpace) (i : Z) : ManagedSpace := set_pages s (delete i (pages s)).

(** [_disposeDiscarded]: the two results are [queued] and [erased]. *)
Definition _disposeDiscarded (s : ManagedSpace) (i : Z) : outcome (bool * bool * ManagedSpace) :=
  p ← deref (pages s !! i);
  assert! discarded p;
  assert! is_tx p none;
  assert! negb (bool_decide (is_Some (monitor p)));
  if in_use p then Ret (false, false, s)
  else if physical p =? noFrame then
    s ← _pageDiscarded s i p;
    Ret (false, true, erase_page s i)
  else Ret (true, false, push_back (set_page s i (set_tx p discardQueued)) _discardList i).

Definition _wakeDrain (s : ManagedSpace) : ManagedSpace :=
  emit (set_drainBlocked s false) [RaiseDirty].
Definition setBudget (s : ManagedSpace) (numSlots : Z) : ManagedSpace :=
  _wakeDrain (set_budget s numSlots).

(** ** Locks and uses *)

(** A page is locked or used for the first time: it leaves the reclaimer. *)
Definition retain (s : ManagedSpace) (i : Z) (p : ManagedPage) : outcome ManagedSpace :=
  if is_present p && is_tx p inReclaimer then
    s ← reclaimer_remove s i;
    Ret (set_page s i (set_tx p none))
  else if is_tx p performReclaim then Ret (set_page s i (set_tx p avertReclaim))
  else Ret (set_page s i p).

(** A page lost its last lock or its last use; [others] counts the other kind. *)
Definition release (s : ManagedSpace) (i : Z) (p : ManagedPage) (others : Z) :
    outcome (bool * bool * ManagedSpace) :=
  if discarded p then
    if is_tx p none then _disposeDiscarded (set_page s i p) i
    else Ret (false, false, set_page s i p)
  else if is_present p && is_tx p none && (others =? 0) then
    s ← reclaimer_add s i;
    Ret (false, false, set_page s i (set_tx p inReclaimer))
  else Ret (false, false, set_page s i p).

Definition lockPage (s : ManagedSpace) (i : Z) : outcome ManagedSpace :=
  let '(p, s) := find_or_insert s i in
  let p := set_lockCount p (u32 (lockCount p + 1)) in
  if lockCount p =? 1 then retain s i p else Ret (set_page s i p).
Fixpoint lock_loop (s : ManagedSpace) (indices : list Z) : outcome ManagedSpace :=
  match indices with
  | [] => Ret s
  | i :: indices => s ← lockPage s i; lock_loop s indices
  end.
Definition lockPages (s : ManagedSpace) (offset size : Z) : outcome (Error * ManagedSpace) :=
  s ← lock_loop s (page_indices offset size); Ret (E_success, s).

Definition unlockPage (s : ManagedSpace) (i : Z) : outcome (bool * bool * ManagedSpace) :=
  p ← deref (pages s !! i);
  assert! 0 <? lockCount p;
  let p := set_lockCount p (u32 (lockCount p - 1)) in
  if lockCount p =? 0 then release s i p (useCount p) else Ret (false, false, set_page s i p).
Fixpoint unlock_loop (s : ManagedSpace) (indices : list Z) (raiseDiscard raiseDirty : bool) :
    outcome (bool * bool * ManagedSpace) :=
  match indices with
  | [] => Ret (raiseDiscard, raiseDirty, s)
  | i :: indices =>
      '(queued, erased, s) ← unlockPage s i;
      unlock_loop s indices (raiseDiscard || queued) (raiseDirty || erased)
  end.
Definition unlockPages (s : ManagedSpace) (offset size : Z) : outcome ManagedSpace :=
  '(raiseDiscard, raiseDirty, s) ← unlock_loop s (page_indices offset size) false false;
  Ret (emit_if raiseDirty (emit_if raiseDiscard s RaiseDiscard) RaiseDirty).

Definition incrementUses (s : ManagedSpace) (i : Z) : outcome ManagedSpace :=
  p ← deref (pages s !! i);
  let cnt := useCount p in
  let p := set_useCount p (u32 (cnt + 1)) in
  if cnt =? 0 then retain s i p else Ret (set_page s i p).
Definition decrementUses (s : ManagedSpace) (i : Z) : outcome ManagedSpace :=
  p ← deref (pages s !! i);
  let cnt := useCount p in
  let p := set_useCount p (u32 (cnt - 1)) in
  assert! 0 <? cnt;
  '(queued, erased, s) ← (if cnt =? 1 then release s i p (lockCount p) else Ret (false, false, set_page s i p));
  Ret (emit_if erased (emit_if queued s RaiseDiscard) RaiseDirty).

Definition markDirty (s : ManagedSpace) (i : Z) : outcome ManagedSpace :=
  p ← deref (pages s !! i);
  if negb (is_present p) then Ret s
  else if discarded p then Ret s
  else
    let p := set_swapCopyValid p false in
    if is_present p && (is_tx p none || is_tx p inReclaimer) then
      s ← (if is_tx p inReclaimer then reclaimer_remove s i else Ret s);
      let s := push_back (set_page s i (set_tx p dirty)) _dirtyList i in
      if negb (_drainBlocked s) || swapBudgetClaimed p
      then Ret (emit (set_drainBlocked s false) [RaiseDirty]) else Ret s
    else if is_tx p performReclaim || is_tx p avertReclaim then
      Ret (set_page s i (set_stillDirty (set_tx p avertReclaim) true))
    else if is_tx p writeback then Ret (set_page s i (set_stillDirty p true))
    else
      assert! is_tx p dirty || is_tx p pendingWriteback || is_tx p wantWriteback;
      Ret (set_page s i p).

(** ** Discarding a page *)
Definition discardPage (s : ManagedSpace) (i : Z) : outcome ManagedSpace :=
  p ← deref (pages s !! i);
  assert! negb (discarded p);
  let p := set_discarded p true in
  '(m, raiseDiscard, s) ←
    match transactionState p with
    | none =>
        '(queued, _, s) ← _disposeDiscarded (set_page s i p) i; Ret (None, queued, s)
    | inReclaimer =>
        s ← reclaimer_remove s i;
        '(queued, _, s) ← _disposeDiscarded (set_page s i (set_tx p none)) i; Ret (None, queued, s)
    | dirty =>
        s ← erase_from s _dirtyList i;
        '(queued, _, s) ← _disposeDiscarded (set_page s i (set_tx p none)) i; Ret (None, queued, s)
    | wantWriteback =>
        s ← erase_from s _writebackList i;
        '(queued, _, s) ← _disposeDiscarded (set_page s i (set_tx (set_monitor p None) none)) i;
        Ret (monitor p, queued, s)
    | pendingWriteback | writeback | performReclaim | avertReclaim => Ret (None, false, set_page s i p)
    | _ => Stop AssertionFailed
    end;
  let s := match m with Some m => emit s [RaiseMonitor m] | None => s end in
  Ret (emit_if raiseDiscard s RaiseDiscard).

(** ** The reclamation coroutine *)

(** An initialized or written back page goes to the reclaimer unless it is in use. *)
Definition settle (s : ManagedSpace) (i : Z) (p : ManagedPage) : outcome ManagedSpace :=
  if in_use p then Ret (set_page s i (set_tx p none))
  else
    s ← reclaimer_add s i;
    Ret (set_page s i (set_tx p inReclaimer)).

(** The pages that the reclaimer posted. *)
Fixpoint collect_loop (s : ManagedSpace) (batch : list Z) : outcome ManagedSpace :=
  match batch with
  | [] => Ret s
  | i :: batch =>
      p ← deref (pages s !! i);
      assert! is_present p;
      assert! is_tx p inReclaimer;
      assert! lockCount p =? 0;
      let s := set_page s i (set_tx p performReclaim) in
      s ← reclaimer_remove s i;
      collect_loop s batch
  end.
Definition reclaim_collect (s : ManagedSpace) : outcome ManagedSpace :=
  '(batch, b) ← reclaimPages (bundle s);
  s ← collect_loop (set_bundle s b) batch;
  let s := set_list s reclaim_batch batch in
  let s := set_list s reclaim_discardBatch (lists s _discardList) in
  Ret (set_list s _discardList []).

(** The body of the loop over [batch], behind [fenceEphemeral].  The results are what
    is or'ed into [anyDirty], [anyDiscardQueued] and [anyDiscardErased]. *)
Definition reclaim_one (s : ManagedSpace) (i : Z) : outcome (bool * bool * bool * ManagedSpace) :=
  p ← deref (pages s !! i);
  if discarded p then
    assert! negb (forceInvalidation p);
    '(queued, erased, s) ← _disposeDiscarded (set_page s i (set_tx (set_stillDirty p false) none)) i;
    Ret (false, queued, erased, s)
  else if is_tx p avertReclaim then
    if stillDirty p then
      let s := push_back (set_page s i (set_tx (set_stillDirty p false) dirty)) _dirtyList i in
      let s := if swapBudgetClaimed p then set_drainBlocked s false else s in
      Ret (true, false, false, s)
    else
      s ← settle s i p;
      Ret (false, false, false, s)
  else
    assert! is_tx p performReclaim;
    assert! lockCount p =? 0;
    assert! negb (physical p =? noFrame);
    let f := physical p in
    let p := set_physical (set_tx (set_loadState p missing) none) noFrame in
    let m := if forceInvalidation p then monitor p else None in
    let p := if forceInvalidation p then set_forceInvalidation (set_monitor p None) false else p in
    let s := set_page s i p in
    let s := set_pfnDb s (delete f (pfnDb s)) in
    let s := emit s [FreeFrame f] in
    Ret (false, false, false, match m with Some m => emit s [RaiseMonitor m] | None => s end).

(** The body of the loop over [discardBatch]; the result is [anyDiscardErased]. *)
Definition discard_one (s : ManagedSpace) (i : Z) : outcome (bool * ManagedSpace) :=
  p ← deref (pages s !! i);
  assert! discarded p;
  assert! is_tx p discardQueued;
  if in_use p then Ret (false, set_page s i (set_tx p none))
  else
    let f := physical p in
    assert! negb (f =? noFrame);
    let s := set_pfnDb s (delete f (pfnDb s)) in
    s ← _pageDiscarded s i p;
    Ret (true, emit (erase_page s i) [FreeFrame f]).

(** One step of the coroutine behind the fence: it handles the first page of [batch],
    else the first page of [discardBatch].  The flags accumulate in [fl]; the events are
    raised when both lists are empty. *)
Definition reclaim_step (s : ManagedSpace) (fl : bool * bool * bool) :
    outcome (bool * bool * bool * ManagedSpace) :=
  let '(anyDirty, anyQueued, anyErased) := fl in
  '(anyDirty, anyQueued, anyErased, s) ←
    match lists s reclaim_batch with
    | i :: batch =>
        '(d, q, e, s) ← reclaim_one (set_list s reclaim_batch batch) i;
        Ret (anyDirty || d, anyQueued || q, anyErased || e, s)
    | [] =>
        match lists s reclaim_discardBatch with
        | i :: discardBatch =>
            '(e, s) ← discard_one (set_list s reclaim_discardBatch discardBatch) i;
            Ret (anyDirty, anyQueued, anyErased || e, s)
        | [] => Ret (anyDirty, anyQueued, anyErased, s)
        end
    end;
  match lists s reclaim_batch, lists s reclaim_discardBatch with
  | [], [] =>
      let s := emit_if (anyDirty || anyErased) s RaiseDirty in
      Ret (false, false, false, emit_if anyQueued s RaiseDiscard)
  | _, _ => Ret (anyDirty, anyQueued, anyErased, s)
  end.

(** ** Requests to the server *)

(** Fuse a request with adjacent pages of the list; the page count is at most the
    length of the list. *)
Fixpoint fuse (s : ManagedSpace) (from to : TxState) (queue : list Z) (index count : Z) :
    outcome (ManagedSpace * list Z * Z) :=
  match queue with
  | [] => Ret (s, [], count)
  | fuse_index :: rest =>
      if negb (fuse_index =? u64 (index + count)) then Ret (s, queue, count)
      else
        p ← deref (pages s !! fuse_index);
        assert! is_tx p from;
        fuse (set_page s fuse_index (set_tx p to)) from to rest index (count + 1)
  end.

(** One of the two loops of [_progressManagement]: each iteration takes a node. *)
Fixpoint issue_requests (s : ManagedSpace) (type : ManageRequest) (l : page_list) (from to : TxState)
    (nodes : list Z) : outcome ManagedSpace :=
  match nodes with
  | [] => Ret (set_managementQueue s [])
  | node :: nodes' =>
      match lists s l with
      | [] => Ret (set_managementQueue s nodes)
      | index :: _ =>
          '(s, rest, count) ← fuse s from to (lists s l) index 0;
          assert! negb (count =? 0);
          let s := set_list s l rest in
          let s := emit s [Complete node type (u64 (Z.shiftl index kPageShift)) (u64 (Z.shiftl count kPageShift))] in
          issue_requests s type l from to nodes'
      end
  end.
Definition _progressManagement (s : ManagedSpace) : outcome ManagedSpace :=
  s ← issue_requests s MR_writeback _writebackList wantWriteback writeback (_managementQueue s);
  issue_requests s MR_initialize _initializationList wantInitialization initialization (_managementQueue s).
Definition submitManagement (s : ManagedSpace) (node : Z) : outcome ManagedSpace :=
  _progressManagement (set_managementQueue s (_managementQueue s ++ [node])).

(** ** The writeback coroutine *)
Fixpoint drain_loop (s : ManagedSpace) (l : list Z) : outcome ManagedSpace :=
  match l with
  | [] => Ret s
  | i :: l =>
      p ← deref (pages s !! i);
      assert! is_tx p dirty;
      assert! negb (discarded p);
      let '(claimed, p, s) := claimSwapBudget s p in
      if negb claimed then drain_loop s l
      else
        s ← erase_from s _dirtyList i;
        drain_loop (push_back (set_page s i (set_tx p pendingWriteback)) drain_pending i) l
  end.
Definition drain_collect (s : ManagedSpace) : outcome ManagedSpace :=
  s ← drain_loop s (lists s _dirtyList);
  if bool_decide (lists s drain_pending = []) && negb (bool_decide (lists s _dirtyList = []))
  then Ret (set_drainBlocked s true) else Ret s.

(** Behind [fenceDirty]. *)
Fixpoint drain_finish_loop (s : ManagedSpace) (pending : list Z) (anyQueued : bool) :
    outcome (bool * ManagedSpace) :=
  match pending with
  | [] => Ret (anyQueued, s)
  | i :: pending =>
      let s := set_list s drain_pending pending in
      p ← deref (pages s !! i);
      assert! is_tx p pendingWriteback;
      if discarded p then
        '(queued, _, s) ← _disposeDiscarded (set_page s i (set_tx p none)) i;
        drain_finish_loop s pending (anyQueued || queued)
      else
        let '(m, s) := new_monitor s in
        let s := set_page s i (set_monitor (set_tx p wantWriteback) (Some m)) in
        drain_finish_loop (push_back s _writebackList i) pending anyQueued
  end.
(** Completed requests are part of the log in front of the event, whose order does
    not matter. *)
Definition drain_finish (s : ManagedSpace) : outcome ManagedSpace :=
  '(anyQueued, s) ← drain_finish_loop s (lists s drain_pending) false;
  s ← _progressManagement s;
  Ret (emit_if anyQueued s RaiseDiscard).

(** ** BackingMemory: the view of the server *)
Definition backingMemoryLength : Z := 2 ^ 62.

Definition misaligned (v : Z) : bool := negb (Z.land v (kPageSize - 1) =? 0).

(** [resize] up to its call of [breakRange]. *)
Definition Backing_resize (s : ManagedSpace) (newSize : Z) : Error * ManagedSpace :=
  if isSwapSpace s then (E_illegalObject, s)
  else if backingMemoryLength <? newSize then (E_illegalArgs, s)
  else if misaligned newSize then (E_illegalArgs, s)
  else (E_success, set_numPages s (Z.shiftr newSize kPageShift)).

Definition Backing_lockRange (s : ManagedSpace) (offset size : Z) : outcome (Error * ManagedSpace) :=
  if (backingMemoryLength <? offset) || (u64 (backingMemoryLength - offset) <? size)
  then Ret (E_bufferTooSmall, s)
  else lockPages s offset size.

Definition no_range : PhysicalRange := MkRange noFrame 0 CM_null false.

Definition Backing_peekRange (s : ManagedSpace) (offset : Z) : PhysicalRange :=
  let index := Z.shiftr offset kPageShift in
  let misalign := Z.land offset (kPageSize - 1) in
  if backingMemoryLength <=? offset then no_range
  else
    match pages s !! index with
    | None => no_range
    | Some p => MkRange (u64 (physical p + misalign)) (kPageSize - misalign) CM_null true
    end.

(** [frame] is what the physical allocator returns if a frame is needed. *)
Definition Backing_touchRange (s : ManagedSpace) (offset frame : Z) : outcome ((Error + Z) * ManagedSpace) :=
  let index := Z.shiftr offset kPageShift in
  let misalign := Z.land offset (kPageSize - 1) in
  if backingMemoryLength <=? offset then Ret (inl E_fault, s)
  else
    let '(p, s) := find_or_insert s index in
    s ← (if physical p =? noFrame then
           assert! negb (frame =? noFrame);
           let s := set_pfnDb s (<[frame := index]> (pfnDb s)) in
           Ret (set_page s index (set_physical p frame))
         else Ret s);
    Ret (inr (kPageSize - misalign), s).

(** [updateRange].  Every page of the range is validated first. *)
Definition update_valid (s : ManagedSpace) (expectedState : TxState) (indices : list Z) : bool :=
  forallb (λ i, match pages s !! i with Some p => is_tx p expectedState | None => false end) indices.

Definition emit_monitors (s : ManagedSpace) (ms : list nat) : ManagedSpace := emit s (RaiseMonitor <$> ms).

Fixpoint update_initialize (s : ManagedSpace) (indices : list Z) (ms : list nat) :
    outcome (list nat * ManagedSpace) :=
  match indices with
  | [] => Ret (ms, s)
  | i :: indices =>
      p ← deref (pages s !! i);
      assert! negb (discarded p);
      let p := set_loadState p present in
      s ← settle s i p;
      p ← deref (pages s !! i);
      m ← deref (monitor p);
      update_initialize (set_page s i (set_monitor p None)) indices (ms ++ [m])
  end.

Fixpoint update_writeback (s : ManagedSpace) (indices : list Z) (ms : list nat) (raiseDiscard raiseDirty : bool) :
    outcome (list nat * bool * bool * ManagedSpace) :=
  match indices with
  | [] => Ret (ms, raiseDiscard, raiseDirty, s)
  | i :: indices =>
      p ← deref (pages s !! i);
      m ← deref (monitor p);
      if discarded p then
        '(queued, erased, s) ←
          _disposeDiscarded (set_page s i (set_tx (set_stillDirty (set_monitor p None) false) none)) i;
        update_writeback s indices (ms ++ [m]) (raiseDiscard || queued) (raiseDirty || erased)
      else if negb (stillDirty p) then
        s ← settle s i (set_swapCopyValid p true);
        p ← deref (pages s !! i);
        update_writeback (set_page s i (set_monitor p None)) indices (ms ++ [m]) raiseDiscard raiseDirty
      else
        let p := set_tx (set_stillDirty p false) wantWriteback in
        let s := push_back (set_page s i p) _writebackList i in
        let '(m', s) := new_monitor s in
        update_writeback (set_page s i (set_monitor p (Some m'))) indices (ms ++ [m]) raiseDiscard raiseDirty
  end.

Definition updateRange (s : ManagedSpace) (type : ManageRequest) (offset length : Z) :
    outcome (Error * ManagedSpace) :=
  if misaligned offset then Ret (E_illegalArgs, s)
  else if misaligned length then Ret (E_illegalArgs, s)
  else
    let indices := page_indices offset length in
    match type with
    | MR_null => Ret (E_illegalArgs, s)
    | MR_initialize =>
        if negb (update_valid s initialization indices) then Ret (E_illegalArgs, s)
        else
          '(ms, s) ← update_initialize s indices [];
          Ret (E_success, emit_monitors s ms)
    | MR_writeback =>
        if negb (update_valid s writeback indices) then Ret (E_illegalArgs, s)
        else
          '(ms, raiseDiscard, raiseDirty, s) ← update_writeback s indices [] false false;
          let s := emit_if raiseDirty (emit_if raiseDiscard s RaiseDiscard) RaiseDirty in
          Ret (E_success, emit_monitors s ms)
    end.

(** [writebackFence]: the scan for the next page of the range that is being written
    back, the monitor to wait for and whether a second wait may be needed. *)
Fixpoint fence_scan (s : ManagedSpace) (indices : list Z) : option (Z * option nat * bool * list Z) :=
  match indices with
  | [] => None
  | i :: indices =>
      match pages s !! i with
      | Some p =>
          if is_tx p wantWriteback then Some (i, monitor p, false, indices)
          else if is_tx p writeback then Some (i, monitor p, true, indices)
          else fence_scan s indices
      | None => fence_scan s indices
      end
  end.
Definition writebackFence_scan (s : ManagedSpace) (offset size : Z) :
    Error + option (Z * option nat * bool * list Z) :=
  if misaligned offset then inl E_illegalArgs
  else if misaligned size then inl E_illegalArgs
  else inr (fence_scan s (page_indices offset size)).
(** The monitor of the second wait. *)
Definition writebackFence_second (s : ManagedSpace) (i : Z) : option nat :=
  p ← pages s !! i; monitor p.

(** [invalidateRange]: the critical section that looks at one page of the range. *)
Inductive invalidate_action :=
| InvalidateSkip | InvalidateWait (m : nat) | InvalidateEvict | InvalidateError.
Definition invalidate_page (s : ManagedSpace) (i : Z) : outcome (invalidate_action * ManagedSpace) :=
  match pages s !! i with
  | None => Ret (InvalidateSkip, s)
  | Some p =>
      if negb (is_present p) then Ret (InvalidateSkip, s)
      else if is_tx p performReclaim || is_tx p avertReclaim then
        let p := set_forceInvalidation p true in
        match monitor p with
        | Some m => Ret (InvalidateWait m, set_page s i p)
        | None =>
            let '(m, s) := new_monitor s in
            Ret (InvalidateWait m, set_page s i (set_monitor p (Some m)))
        end
      else
        match monitor p with
        | Some m => Ret (InvalidateWait m, s)
        | None =>
            if lockCount p =? 0 then
              s ← (if is_tx p inReclaimer then reclaimer_remove s i else Ret s);
              Ret (InvalidateEvict, set_page s i (set_tx p performReclaim))
            else Ret (InvalidateError, s)
        end
  end.
(** The critical section behind [breakRange]; the result says whether the page is done. *)
Definition invalidate_finish (s : ManagedSpace) (i : Z) : outcome (bool * ManagedSpace) :=
  p ← deref (pages s !! i);
  if is_tx p performReclaim then
    let f := physical p in
    let s := set_page s i (set_physical (set_tx (set_loadState p missing) none) noFrame) in
    if negb (f =? noFrame)
    then Ret (true, emit (set_pfnDb s (delete f (pfnDb s))) [FreeFrame f]) else Ret (false, s)
  else Ret (false, s).

(** ** FrontalMemory: the view of the clients *)
Definition Frontal_lockRange (s : ManagedSpace) (offset size : Z) : outcome (Error * ManagedSpace) :=
  let limit := u64 (Z.shiftl (numPages s) kPageShift) in
  if (limit <? offset) || (u64 (limit - offset) <? size) then Ret (E_bufferTooSmall, s)
  else lockPages s offset size.

(** What [peekRange] does with a page. *)
Definition peek_page (s : ManagedSpace) (i misalign : Z) (p : ManagedPage) : outcome (PhysicalRange * ManagedSpace) :=
  if is_present p then
    assert! negb (physical p =? noFrame);
    let s := if is_tx p performReclaim then set_page s i (set_tx p avertReclaim) else s in
    Ret (MkRange (u64 (physical p + misalign)) (kPageSize - misalign) CM_null true, s)
  else Ret (no_range, s).

Definition Frontal_peekRange (s : ManagedSpace) (offset : Z) : outcome (PhysicalRange * ManagedSpace) :=
  let index := Z.shiftr offset kPageShift in
  let misalign := Z.land offset (kPageSize - 1) in
  if numPages s <=? index then Ret (no_range, s)
  else
    match pages s !! index with
    | None => Ret (no_range, s)
    | Some p => peek_page s index misalign p
    end.

(** [touchRange] returns, or waits for a monitor first. *)
Inductive touch_result :=
| TouchError (e : Error) | TouchDone (size : Z) | TouchWait (m : nat) (size : Z) | TouchRetry.

(** A present page is touched. *)
Definition touch_present (s : ManagedSpace) (i : Z) (p : ManagedPage) : outcome ManagedSpace :=
  assert! negb (physical p =? noFrame);
  if is_tx p inReclaimer then
    b ← bumpPage (bundle s) i; Ret (set_bundle s b)
  else if is_tx p performReclaim then Ret (set_page s i (set_tx p avertReclaim))
  else Ret s.

(** A missing page that is not in a queue is requested. *)
Definition request_page (s : ManagedSpace) (i : Z) (p : ManagedPage) : ManagedSpace :=
  if negb (is_present p) && is_tx p none then
    let s := push_back (set_page s i (set_tx p wantInitialization)) _initializationList i in
    let '(m, s) := new_monitor s in
    set_page s i (set_monitor (set_tx p wantInitialization) (Some m))
  else s.

Fixpoint readahead_loop (s : ManagedSpace) (index : Z) (steps : list Z) : ManagedSpace :=
  match steps with
  | [] => s
  | i :: steps =>
      let index' := u64 (index + i) in
      if negb (index' <? numPages s) then s
      else
        let '(p, s) := find_or_insert s index' in
        readahead_loop (request_page s index' p) index steps
  end.

Definition fetchDisallowBacking : Z := 2.

Definition Frontal_touchRange (s : ManagedSpace) (offset flags : Z) : outcome (touch_result * ManagedSpace) :=
  let index := Z.shiftr offset kPageShift in
  let misalign := Z.land offset (kPageSize - 1) in
  if numPages s <=? index then Ret (TouchError E_fault, s)
  else
    let '(p, s) := find_or_insert s index in
    if is_present p then
      s ← touch_present s index p;
      Ret (TouchDone (kPageSize - misalign), s)
    else if flag flags fetchDisallowBacking then Ret (TouchError E_fault, s)
    else
      let s := request_page s index p in
      let s := if readahead s then readahead_loop s index [1; 2; 3] else s in
      s ← _progressManagement s;
      p ← deref (pages s !! index);
      m ← deref (monitor p);
      Ret (TouchWait m (kPageSize - misalign), s).

(** ** SwappableMemory: anonymous memory on a swap space *)
Record SwappableMemory := MkSwappable {
  _length : Z;
  _table : gmap Z Z;
}.

Definition _translate (v : SwappableMemory) (s : ManagedSpace) (index : Z) :
    outcome (option Z * SwappableMemory * ManagedSpace) :=
  match _table v !! index with
  | Some o => Ret (Some o, v, s)
  | None =>
      '(allocated, s) ← _allocateOffset s;
      match allocated with
      | None => Ret (None, v, s)
      | Some o =>
          let v := MkSwappable (_length v) (<[index := o]> (_table v)) in
          assert! bool_decide (pages s !! o = None);
          let '(_, s) := find_or_insert s o in
          Ret (Some o, v, s)
      end
  end.

Definition Swap_resize (v : SwappableMemory) (newSize : Z) : Error * SwappableMemory :=
  if misaligned newSize then (E_illegalArgs, v)
  else if newSize <? _length v then (E_illegalArgs, v)
  else (E_success, MkSwappable newSize (_table v)).

(** The destructor; [_table.begin()] walks the table in the order of its keys. *)
Fixpoint discard_loop (s : ManagedSpace) (offsets : list Z) : outcome ManagedSpace :=
  match offsets with
  | [] => Ret s
  | o :: offsets => s ← discardPage s o; discard_loop s offsets
  end.
Definition key_le (a b : Z * Z) : Prop := a.1 ≤ b.1.
#[export] Instance key_le_dec : RelDecision key_le.
Proof. intros a b. unfold key_le. apply _. Defined.
Definition table_values (v : SwappableMemory) : list Z :=
  snd <$> merge_sort key_le (map_to_list (_table v)).
Definition Swap_destruct (v : SwappableMemory) (s : ManagedSpace) : outcome ManagedSpace :=
  s ← discard_loop s (table_values v);
  Ret (_wakeDrain s).

Definition swap_indices (offset size : Z) : list Z :=
  (λ pg, Z.shiftr (u64 (offset + pg * kPageSize)) kPageShift) <$> seqZ 0 ((size + kPageSize - 1) / kPageSize).

Fixpoint _unlockPagesLocked (v : SwappableMemory) (s : ManagedSpace) (indices : list Z)
    (raiseDiscard raiseDirty : bool) : outcome (bool * bool * ManagedSpace) :=
  match indices with
  | [] => Ret (raiseDiscard, raiseDirty, s)
  | index :: indices =>
      o ← deref (_table v !! index);
      '(queued, erased, s) ← unlockPage s o;
      _unlockPagesLocked v s indices (raiseDiscard || queued) (raiseDirty || erased)
  end.

(** [locked] are the indices that were locked so far, to unwind on failure. *)
Fixpoint swap_lock_loop (v : SwappableMemory) (s : ManagedSpace) (locked indices : list Z) :
    outcome (Error * bool * bool * SwappableMemory * ManagedSpace) :=
  match indices with
  | [] => Ret (E_success, false, false, v, s)
  | index :: indices =>
      '(swapOffset, v, s) ← _translate v s index;
      match swapOffset with
      | None =>
          '(raiseDiscard, raiseDirty, s) ← _unlockPagesLocked v s locked false false;
          Ret (E_noMemory, raiseDiscard, raiseDirty, v, s)
      | Some o =>
          assert! bool_decide (is_Some (pages s !! o));
          s ← lockPage s o;
          swap_lock_loop v s (locked ++ [index]) indices
      end
  end.
Definition Swap_lockRange (v : SwappableMemory) (s : ManagedSpace) (offset size : Z) :
    outcome (Error * SwappableMemory * ManagedSpace) :=
  if _length v <? u64 (offset + size) then Ret (E_bufferTooSmall, v, s)
  else
    '(e, raiseDiscard, raiseDirty, v, s) ← swap_lock_loop v s [] (swap_indices offset size);
    Ret (e, v, emit_if raiseDirty (emit_if raiseDiscard s RaiseDiscard) RaiseDirty).
Definition Swap_unlockRange (v : SwappableMemory) (s : ManagedSpace) (offset size : Z) : outcome ManagedSpace :=
  assert! u64 (offset + size) <=? _length v;
  '(raiseDiscard, raiseDirty, s) ← _unlockPagesLocked v s (swap_indices offset size) false false;
  Ret (emit_if raiseDirty (emit_if raiseDiscard s RaiseDiscard) RaiseDirty).

Definition Swap_peekRange (v : SwappableMemory) (s : ManagedSpace) (offset : Z) :
    outcome (PhysicalRange * ManagedSpace) :=
  let index := Z.shiftr offset kPageShift in
  let misalign := Z.land offset (kPageSize - 1) in
  if _length v <=? offset then Ret (no_range, s)
  else
    match _table v !! index with
    | None => Ret (no_range, s)
    | Some o =>
        p ← deref (pages s !! o);
        peek_page s o misalign p
    end.

(** One iteration of the loop of [touchRange]; [freshPhysical] is the frame that the
    previous iteration allocated.  The result [TouchRetry] asks for another iteration
    with a fresh frame. *)
Definition Swap_touchRange (v : SwappableMemory) (s : ManagedSpace) (offset flags freshPhysical : Z) :
    outcome (touch_result * SwappableMemory * ManagedSpace) :=
  let index := Z.shiftr offset kPageShift in
  let misalign := Z.land offset (kPageSize - 1) in
  if Z.shiftr (_length v) kPageShift <=? index then Ret (TouchError E_fault, v, s)
  else
    '(swapOffset, v, s) ← _translate v s index;
    match swapOffset with
    | None => Ret (TouchError E_noMemory, v, s)
    | Some o =>
        p ← deref (pages s !! o);
        if is_present p then
          s ← touch_present s o p;
          Ret (TouchDone (kPageSize - misalign), v, s)
        else if negb (swapCopyValid p) then
          assert! is_tx p none;
          if negb (freshPhysical =? noFrame) then
            let s := set_pfnDb s (<[freshPhysical := o]> (pfnDb s)) in
            let p := set_loadState (set_physical p freshPhysical) present in
            s ← settle s o p;
            Ret (TouchDone (kPageSize - misalign), v, s)
          else Ret (TouchRetry, v, s)
        else if flag flags fetchDisallowBacking then Ret (TouchError E_fault, v, s)
        else
          let s := request_page s o p in
          s ← _progressManagement s;
          p ← deref (pages s !! o);
          m ← deref (monitor p);
          Ret (TouchWait m (kPageSize - misalign), v, s)
    end.

(** ** Construction *)
Definition ManagedSpace_new (length : Z) (readahead : bool) : outcome ManagedSpace :=
  assert! negb (misaligned length);
  Ret (MkSpace ∅ (λ _, []) empty_bundle ∅ (Z.shiftr length kPageShift) readahead false [] false
         (MkBuddy 0 0 [] 0 0) 0 0 0 []).
Definition ManagedSpace_create (length : Z) (readahead : bool) : outcome (Error + ManagedSpace) :=
  if backingMemoryLength <? length then Ret (inl E_illegalArgs)
  else s ← ManagedSpace_new length readahead; Ret (inr s).

(** The constructor of [SwapSpace], for any size; the code fixes [swapSpaceLength]. *)
Definition swapSpaceLength : Z := Z.shiftl 1 32.
Definition SwapSpace_new (length : Z) : outcome ManagedSpace :=
  s ← ManagedSpace_new length false;
  assert! negb (numPages s =? 0);
  let tableOrder := suitableOrder (numPages s) in
  let numRoots := Z.shiftr (numPages s) tableOrder in
  let metadata := replicate (Z.to_nat (determineSize numRoots tableOrder)) 0 in
  metadata ← initialize metadata numRoots tableOrder;
  Ret (MkSpace (pages s) (lists s) (bundle s) (pfnDb s) (numPages s) (readahead s) true
         (_managementQueue s) (_drainBlocked s) (MkBuddy 0 0 metadata numRoots tableOrder)
         (_budget s) (_budgetClaimed s) (nextMonitor s) (log s)).

Definition Swap_new (length : Z) : outcome SwappableMemory :=
  assert! negb (misaligned length);
  Ret (MkSwappable length ∅).
