(* ===== verification/ManagedInv.v ===== *)
(** * The page cache: consistency

    Where each page of a space is: the state of its transaction says which list holds
    it and which counts, frames and monitors it has.  Every critical section of
    ManagedSpace.v keeps that and fails no assertion. *)
From Stdlib Require Import ZArith Lia ZifyBool.
From stdpp Require Import base list numbers option gmap fin_maps functions.
From S2P Require Import Prelude PageConsts Buddy Reclaimer ManagedSpace.
Open Scope Z_scope.

(** ** The invariant *)
Inductive group := GDirty | GPending | GInit | GWriteback | GBatch | GDiscard.
#[export] Instance group_eq_dec : EqDecision group.
Proof. solve_decision. Defined.

Definition home (t : TxState) : option group :=
  match t with
  | dirty => Some GDirty
  | pendingWriteback => Some GPending
  | wantInitialization => Some GInit
  | wantWriteback => Some GWriteback
  | performReclaim | avertReclaim => Some GBatch
  | discardQueued => Some GDiscard
  | _ => None
  end.
(** The list that pages of a group are appended to; discarded pages move on to the
    local list of the coroutine. *)
Definition tail_list (g : group) : page_list :=
  match g with
  | GDirty => _dirtyList | GPending => drain_pending | GInit => _initializationList
  | GWriteback => _writebackList | GBatch => reclaim_batch | GDiscard => _discardList
  end.
Definition group_list (s : ManagedSpace) (g : group) : list Z :=
  match g with
  | GDiscard => lists s reclaim_discardBatch ++ lists s _discardList
  | GBatch => lists s invalidate_evicting ++ lists s reclaim_batch
  | _ => lists s (tail_list g)
  end.
(** The groups that are one list *)
Definition single (g : group) : bool := match g with GBatch | GDiscard => false | _ => true end.

Definition has_monitor (t : TxState) : bool :=
  match t with wantInitialization | initialization | wantWriteback | writeback => true | _ => false end.

(** The comments of [LoadState], [TxState] and [ManagedPage] in memory-view.hpp. *)
Definition page_ok (p : ManagedPage) : bool :=
  (0 <=? lockCount p) && (lockCount p <? 2 ^ 32) && (0 <=? useCount p) && (useCount p <? 2 ^ 32) &&
  negb (forceInvalidation p) &&
  eqb (bool_decide (is_Some (monitor p))) (has_monitor (transactionState p)) &&
  implb (stillDirty p) (is_tx p writeback || is_tx p avertReclaim) &&
  implb (is_present p) (negb (physical p =? noFrame)) &&
  match transactionState p with
  | none => implb (is_present p || discarded p) (in_use p)
  | wantInitialization | initialization => negb (is_present p) && negb (discarded p)
  | dirty | wantWriteback => is_present p && negb (discarded p)
  | pendingWriteback | writeback | avertReclaim => is_present p
  | inReclaimer => is_present p && negb (discarded p) && negb (in_use p)
  | performReclaim => is_present p && (lockCount p =? 0)
  | discardQueued => discarded p && negb (physical p =? noFrame)
  end.

Definition claimed_pages (s : ManagedSpace) : gset Z :=
  dom (filter (λ kp, swapBudgetClaimed kp.2 = true) (pages s)).

Definition page_at (s : ManagedSpace) (j : Z) (P : ManagedPage → Prop) : Prop :=
  ∃ p, pages s !! j = Some p ∧ P p.

(** The invariant while page [d] is taken out of its list, and while the reclaimer's
    pages [fl] are in flight. *)
Record Inv (d : option Z) (fl : list Z) (s : ManagedSpace) : Prop := {
  inv_pages j p : pages s !! j = Some p → d ≠ Some j → page_ok p = true;
  inv_group g : NoDup (group_list s g) ∧
    ∀ j, j ∈ group_list s g ↔ d ≠ Some j ∧ page_at s j (λ p, home (transactionState p) = Some g);
  inv_bundle : bundle_ok (bundle s);
  inv_place j : place_of (bundle s) j ≠ Nowhere ↔
    d ≠ Some j ∧ page_at s j (λ p, transactionState p = inReclaimer);
  inv_inflight j : place_of (bundle s) j = Inflight → j ∈ fl;
  inv_frames f j : pfnDb s !! f = Some j ↔ f ≠ noFrame ∧ page_at s j (λ p, physical p = f);
  inv_keys j p : pages s !! j = Some p → 0 ≤ j < 2 ^ 52;
  inv_claimed : _budgetClaimed s = Z.of_nat (size (claimed_pages s));
  inv_budget : 0 ≤ _budget s < 2 ^ 64;
  inv_swap : isSwapSpace s = true →
    Geometry (_buddyAccessor s) ∧ WF (_buddyAccessor s) ∧ baseAddress (_buddyAccessor s) = 0 ∧
    sizeShift (_buddyAccessor s) = 0 ∧
    numRoots (_buddyAccessor s) * 2 ^ tableOrder (_buddyAccessor s) ≤ numPages s ≤ 2 ^ 52 ∧
    ∀ j p, pages s !! j = Some p → allocated (_buddyAccessor s) 0 j ∧ j < numPages s;
  inv_noswap : isSwapSpace s = false → _budgetClaimed s = 0;
}.
Definition space_ok (s : ManagedSpace) : Prop := Inv None [] s.

(** What the invariant depends on. *)
Lemma Inv_ext d fl s s' : Inv d fl s → pages s' = pages s → (∀ l, lists s' l = lists s l) →
  bundle s' = bundle s → pfnDb s' = pfnDb s → isSwapSpace s' = isSwapSpace s →
  (isSwapSpace s = true → numPages s' = numPages s) →
  _buddyAccessor s' = _buddyAccessor s → _budgetClaimed s' = _budgetClaimed s → 0 ≤ _budget s' < 2 ^ 64 →
  Inv d fl s'.
Proof.
  intros [H1 H2 H3 H4 H5 H6 H7 H8 H9 H10 H11] Ep El Eb Ef Es En Ea Ec Hb.
  assert (∀ g, group_list s' g = group_list s g) as Eg by (intros []; simpl; by rewrite !El).
  split; unfold page_at, claimed_pages in *; rewrite ?Ep, ?Eb, ?Ef, ?Ea, ?Ec; try done.
  - intros g. rewrite Eg. apply H2.
  - rewrite Es. intros Hs. specialize (H10 Hs). by rewrite (En Hs).
  - by rewrite Es.
Qed.

Create HintDb space discriminated.

Lemma Inv_emit d fl s e : Inv d fl s → Inv d fl (emit s e).
Proof. intros H. pose proof (inv_budget _ _ _ H). by eapply Inv_ext. Qed.
Lemma Inv_emit_if d fl s b e : Inv d fl s → Inv d fl (emit_if b s e).
Proof. intros H. destruct b; [by apply Inv_emit|done]. Qed.
Lemma Inv_drainBlocked d fl s b : Inv d fl s → Inv d fl (set_drainBlocked s b).
Proof. intros H. pose proof (inv_budget _ _ _ H). by eapply Inv_ext. Qed.
Lemma Inv_management d fl s q : Inv d fl s → Inv d fl (set_managementQueue s q).
Proof. intros H. pose proof (inv_budget _ _ _ H). by eapply Inv_ext. Qed.
Lemma Inv_nextMonitor d fl s n : Inv d fl s → Inv d fl (set_nextMonitor s n).
Proof. intros H. pose proof (inv_budget _ _ _ H). by eapply Inv_ext. Qed.
#[export] Hint Resolve Inv_emit Inv_emit_if Inv_drainBlocked Inv_management Inv_nextMonitor : space.

Lemma elem_claimed s j : j ∈ claimed_pages s ↔ page_at s j (λ p, swapBudgetClaimed p = true).
Proof.
  unfold claimed_pages, page_at. rewrite elem_of_dom. split.
  - intros [p Hp]. apply map_lookup_filter_Some in Hp as [Hp Hc]. by exists p.
  - intros (p & Hp & Hc). exists p. by apply map_lookup_filter_Some.
Qed.

(** ** Taking a page out *)
Lemma page_at_eq s i p (P : ManagedPage → Prop) : pages s !! i = Some p → page_at s i P ↔ P p.
Proof. intros E. split; [intros (q & Hq & H); by simplify_eq|]. intros H. by exists p. Qed.

Lemma open_free fl s i p : Inv None fl s → pages s !! i = Some p →
  home (transactionState p) = None → transactionState p ≠ inReclaimer → Inv (Some i) fl s.
Proof.
  intros [H1 H2 H3 H4 H5 H6 H7 H8 H9 H10 H11] E Eh Et. split; try done.
  - intros j q Hq _. by apply (H1 j).
  - intros g. destruct (H2 g) as [Hn Hg]. split; [done|]. intros j. rewrite Hg.
    split; intros [_ Hj]; (split; [|done]); [|done].
    intros [= <-]. rewrite (page_at_eq s i p) in Hj by done. congruence.
  - intros j. rewrite H4. split; intros [_ Hj]; (split; [|done]); [|done].
    intros [= <-]. by rewrite (page_at_eq s i p) in Hj by done.
Qed.

(** The lists after page [i] is gone from the list of its group. *)
Lemma open_group fl s s' i p g : Inv None fl s → pages s !! i = Some p →
  home (transactionState p) = Some g →
  pages s' = pages s → bundle s' = bundle s → pfnDb s' = pfnDb s → isSwapSpace s' = isSwapSpace s →
  numPages s' = numPages s → _buddyAccessor s' = _buddyAccessor s → _budgetClaimed s' = _budgetClaimed s →
  _budget s' = _budget s →
  (∀ g', g' ≠ g → group_list s' g' = group_list s g') →
  NoDup (group_list s' g) → (∀ j, j ∈ group_list s' g ↔ j ≠ i ∧ j ∈ group_list s g) →
  Inv (Some i) fl s'.
Proof.
  intros [H1 H2 H3 H4 H5 H6 H7 H8 H9 H10 H11] E Eh Ep Eb Ef Es En Ea Ec Ed Hother Hnd Hin.
  split; unfold page_at, claimed_pages in *; rewrite ?Ep, ?Eb, ?Ef, ?Ea, ?Ec, ?Es, ?En, ?Ed; try done.
  - intros j q Hq _. by apply (H1 j).
  - intros g'. destruct (H2 g') as [Hn Hg]. destruct (decide (g' = g)) as [->|Hne].
    + split; [done|]. intros j. rewrite Hin, Hg. split; [intros (? & _ & ?); split; congruence|].
      intros (? & ?). split; [congruence|]. by split.
    + rewrite Hother by done. split; [done|]. intros j. rewrite Hg.
      split; intros [_ Hj]; (split; [|done]); [|done]. intros [= <-].
      destruct Hj as (q & Hq & Hh). simplify_eq.
  - intros j. rewrite H4. split; intros [_ Hj]; (split; [|done]); [|done]. intros [= <-].
    destruct Hj as (q & Hq & Hh). assert (q = p) as -> by congruence. by rewrite Hh in Eh.
Qed.

Lemma group_set_other s g g' v : g' ≠ g → group_list (set_list s (tail_list g) v) g' = group_list s g'.
Proof. by destruct g, g'. Qed.
Lemma group_set_same s g v : single g = true → group_list (set_list s (tail_list g) v) g = v.
Proof. by destruct g. Qed.
Lemma group_simple s g : single g = true → group_list s g = lists s (tail_list g).
Proof. by destruct g. Qed.

(** Erasing a page from the list of its group, wherever it is in the list. *)
Lemma open_erase fl s i p g : Inv None fl s → pages s !! i = Some p →
  home (transactionState p) = Some g → single g = true →
  ∃ v, erase_from s (tail_list g) i = Ret (set_list s (tail_list g) v) ∧
    v = filter (λ q, q ≠ i) (lists s (tail_list g)) ∧
    Inv (Some i) fl (set_list s (tail_list g) v).
Proof.
  intros H E Eh Hg. destruct (inv_group _ _ _ H g) as [Hnd Hin]. rewrite group_simple in Hnd, Hin by done.
  eexists. unfold erase_from. rewrite list_erase_Ret by (apply Hin; split; [done|by exists p]).
  split; [done|]. split; [done|]. eapply open_group; try done.
  - intros g' Hne. by apply group_set_other.
  - rewrite group_set_same by done. by apply list.NoDup_filter.
  - intros j. rewrite group_set_same, group_simple by done. rewrite list_elem_of_filter. done.
Qed.

(** Popping the first page of a list. *)
Lemma open_front fl s i rest p g : Inv None fl s → lists s (tail_list g) = i :: rest → single g = true →
  pages s !! i = Some p → home (transactionState p) = Some g →
  Inv (Some i) fl (set_list s (tail_list g) rest).
Proof.
  intros H El Hg E Eh. destruct (inv_group _ _ _ H g) as [Hnd Hin]. rewrite group_simple, El in Hnd, Hin by done.
  apply list.NoDup_cons in Hnd as [Hi Hnd]. eapply open_group; try done.
  - intros g' Hne. by apply group_set_other.
  - by rewrite group_set_same by done.
  - intros j. rewrite group_set_same, group_simple, El, elem_of_cons by done.
    split; [intros Hj; split; [by intros ->|by right]|by intros [? [?|?]]].
Qed.
Lemma open_discardBatch fl s i rest p : Inv None fl s → lists s reclaim_discardBatch = i :: rest →
  pages s !! i = Some p → transactionState p = discardQueued →
  Inv (Some i) fl (set_list s reclaim_discardBatch rest).
Proof.
  intros H El E Eh. destruct (inv_group _ _ _ H GDiscard) as [Hnd Hin]. simpl in Hnd, Hin. rewrite El in Hnd, Hin.
  simpl in Hnd, Hin. apply list.NoDup_cons in Hnd as [Hi Hnd].
  apply (open_group fl s _ i p GDiscard); try done; [by rewrite Eh|by intros []|].
  intros j. change (group_list (set_list s reclaim_discardBatch rest) GDiscard) with (rest ++ lists s _discardList).
  change (group_list s GDiscard) with (lists s reclaim_discardBatch ++ lists s _discardList).
  rewrite El. simpl. rewrite elem_of_cons.
  split; [intros Hj; split; [by intros ->|by right]|by intros [? [?|?]]].
Qed.

(** Popping the first page of the batch of the reclaim coroutine, and taking out a page
    that [invalidateRange] is evicting. *)
Lemma open_batch fl s i rest p : Inv None fl s → lists s reclaim_batch = i :: rest →
  pages s !! i = Some p → home (transactionState p) = Some GBatch →
  Inv (Some i) fl (set_list s reclaim_batch rest).
Proof.
  intros H El E Eh. destruct (inv_group _ _ _ H GBatch) as [Hnd Hin]. simpl in Hnd. rewrite El in Hnd.
  apply list.NoDup_app in Hnd as (Hn1 & Hd & Hn2). apply list.NoDup_cons in Hn2 as [Hi Hn2].
  apply (open_group fl s _ i p GBatch); try done; [by intros []| |].
  - apply list.NoDup_app. split_and!; [done| |done]. intros j Hj Hj'. apply (Hd j Hj). by right.
  - intros j. change (group_list (set_list s reclaim_batch rest) GBatch) with (lists s invalidate_evicting ++ rest).
    change (group_list s GBatch) with (lists s invalidate_evicting ++ lists s reclaim_batch).
    rewrite El, !elem_of_app, elem_of_cons. split; [|naive_solver].
    intros [Hj|Hj]; (split; [|naive_solver]); intros ->; [|done]. apply (Hd i Hj). by left.
Qed.
Lemma open_evicting fl s i p : Inv None fl s → i ∈ lists s invalidate_evicting → pages s !! i = Some p →
  home (transactionState p) = Some GBatch →
  Inv (Some i) fl (set_list s invalidate_evicting (filter (λ j, j ≠ i) (lists s invalidate_evicting))).
Proof.
  intros H Hi E Eh. destruct (inv_group _ _ _ H GBatch) as [Hnd Hin]. simpl in Hnd.
  apply list.NoDup_app in Hnd as (Hn1 & Hd & Hn2).
  apply (open_group fl s _ i p GBatch); try done; [by intros []| |].
  - apply list.NoDup_app. split_and!; [by apply list.NoDup_filter| |done]. intros j [_ Hj]%list_elem_of_filter. by apply Hd.
  - intros j. change (group_list (set_list s invalidate_evicting ?v) GBatch) with (v ++ lists s reclaim_batch).
    change (group_list s GBatch) with (lists s invalidate_evicting ++ lists s reclaim_batch).
    rewrite !elem_of_app, list_elem_of_filter. split; [|naive_solver].
    intros [[? ?]|Hj]; [naive_solver|]. split; [|by right]. intros ->. by apply (Hd i Hi).
Qed.

(** The page of a list. *)
Lemma listed_page d fl s i g : Inv d fl s → i ∈ group_list s g →
  ∃ p, pages s !! i = Some p ∧ home (transactionState p) = Some g ∧ page_ok p = true.
Proof.
  intros H Hi. apply (inv_group _ _ _ H g) in Hi as (Hd & p & E & Eh). exists p. split_and!; try done.
  by apply (inv_pages _ _ _ H i).
Qed.

Lemma open_reclaimer fl s i p : Inv None fl s → pages s !! i = Some p → transactionState p = inReclaimer →
  ∃ b, reclaimer_remove s i = Ret (set_bundle s b) ∧ moved (bundle s) b i Nowhere ∧
    Inv (Some i) fl (set_bundle s b).
Proof.
  intros H E Et. unfold reclaimer_remove.
  destruct (removePage_spec (bundle s) i) as (b & -> & Hb & Hm); [apply H| |].
  { apply (inv_place _ _ _ H). split; [done|by exists p]. }
  exists b. split; [done|]. split; [done|]. destruct H as [H1 H2 H3 H4 H5 H6 H7 H8 H9 H10 H11]. split; try done.
  - intros j q Hq _. by apply (H1 j).
  - intros g. destruct (H2 g) as [Hn Hg]. split; [done|]. intros j. rewrite Hg.
    split; intros [_ Hj]; (split; [|done]); [|done].
    intros [= <-]. rewrite (page_at_eq s i p) in Hj by done. by rewrite Et in Hj.
  - intros j. change (bundle (set_bundle s b)) with b. rewrite (Hm j). case_decide as Hd.
    + subst. split; [done|]. intros [? _]. done.
    + rewrite H4. split; intros [_ Hj]; (split; [congruence|done]).
  - intros j. change (bundle (set_bundle s b)) with b. rewrite (Hm j). case_decide; [done|]. apply H5.
Qed.

(** ** Changing the page that is taken out *)
Lemma claimed_insert s i p p' : pages s !! i = Some p → swapBudgetClaimed p' = swapBudgetClaimed p →
  claimed_pages (set_page s i p') = claimed_pages s.
Proof.
  intros E Ec. apply set_eq. intros j. rewrite !elem_claimed. unfold page_at. simpl.
  destruct (decide (j = i)) as [->|Hne].
  - rewrite lookup_insert, decide_True, E by done. split; intros (q & [= <-] & H); eexists; split; try done; congruence.
  - by rewrite lookup_insert_ne.
Qed.

Lemma page_at_insert s i p' j P : page_at (set_page s i p') j P ↔ (j = i ∧ P p') ∨ (j ≠ i ∧ page_at s j P).
Proof.
  unfold page_at. simpl. destruct (decide (j = i)) as [->|Hne].
  - rewrite lookup_insert, decide_True by done. split.
    + intros (q & [= <-] & H). by left.
    + intros [[_ H]|[? _]]; [by exists p'|done].
  - rewrite lookup_insert_ne by done. split; [intros H; by right|]. by intros [[? _]|[_ H]].
Qed.

Lemma set_opened fl s i p p' : Inv (Some i) fl s → pages s !! i = Some p →
  physical p' = physical p → swapBudgetClaimed p' = swapBudgetClaimed p → Inv (Some i) fl (set_page s i p').
Proof.
  intros [H1 H2 H3 H4 H5 H6 H7 H8 H9 H10 H11] E Ep Ec. split; try done.
  - intros j q Hq Hd. apply (H1 j); [|done]. simpl in Hq. rewrite lookup_insert_ne in Hq by congruence. done.
  - intros g. destruct (H2 g) as [Hn Hg]. split; [done|]. intros j. change (group_list (set_page s i p') g) with (group_list s g).
    rewrite Hg, page_at_insert. split; intros [Hd Hj]; (split; [done|]).
    + right. split; [congruence|done].
    + destruct Hj as [[-> _]|[_ Hj]]; done.
  - intros j. change (bundle (set_page s i p')) with (bundle s). rewrite H4, page_at_insert.
    split; intros [Hd Hj]; (split; [done|]).
    + right. split; [congruence|done].
    + destruct Hj as [[-> _]|[_ Hj]]; done.
  - intros f j. change (pfnDb (set_page s i p')) with (pfnDb s). rewrite H6, page_at_insert. apply and_iff_compat_l.
    destruct (decide (j = i)) as [->|Hne].
    + rewrite (page_at_eq s i p) by done. rewrite <-Ep. naive_solver.
    + naive_solver.
  - intros j q Hq. simpl in Hq. destruct (decide (j = i)) as [->|Hne]; [by apply (H7 i p)|].
    rewrite lookup_insert_ne in Hq by done. by apply (H7 j q).
  - by rewrite (claimed_insert s i p p').
  - intros Hs. destruct (H10 Hs) as (G & W & B & S & [N1 N2] & Hp). split_and!; try done. intros j q Hq. simpl in *.
    destruct (decide (j = i)) as [->|Hne]; [by apply (Hp i p)|]. rewrite lookup_insert_ne in Hq by done. by apply (Hp j q).
Qed.

(** Changing a page that stays where it is. *)
Lemma keep_page fl s i p p' : Inv None fl s → pages s !! i = Some p → page_ok p' = true →
  physical p' = physical p → swapBudgetClaimed p' = swapBudgetClaimed p →
  home (transactionState p') = home (transactionState p) →
  (transactionState p' = inReclaimer ↔ transactionState p = inReclaimer) →
  Inv None fl (set_page s i p').
Proof.
  intros [H1 H2 H3 H4 H5 H6 H7 H8 H9 H10 H11] E Hok Ep Ec Eh Et.
  assert (∀ j (P : ManagedPage → Prop), (P p' ↔ P p) → page_at (set_page s i p') j P ↔ page_at s j P) as Hat.
  { intros j P HP. rewrite page_at_insert. destruct (decide (j = i)) as [->|Hne].
    - rewrite (page_at_eq s i p) by done. rewrite <-HP. naive_solver.
    - naive_solver. }
  split; try done.
  - intros j q Hq _. simpl in Hq. destruct (decide (j = i)) as [->|Hne].
    + rewrite lookup_insert, decide_True in Hq by done. by injection Hq as <-.
    + rewrite lookup_insert_ne in Hq by done. by apply (H1 j).
  - intros g. destruct (H2 g) as [Hn Hg]. split; [done|]. intros j. rewrite Hat by (by rewrite Eh). apply Hg.
  - intros j. rewrite Hat by done. apply H4.
  - intros f j. rewrite Hat by (by rewrite Ep). apply H6.
  - intros j q Hq. simpl in Hq. destruct (decide (j = i)) as [->|Hne]; [by apply (H7 i p)|].
    rewrite lookup_insert_ne in Hq by done. by apply (H7 j q).
  - by rewrite (claimed_insert s i p p').
  - intros Hs. destruct (H10 Hs) as (G & W & B & S & [N1 N2] & Hp). split_and!; try done. intros j q Hq. simpl in *.
    destruct (decide (j = i)) as [->|Hne]; [by apply (Hp i p)|]. rewrite lookup_insert_ne in Hq by done. by apply (Hp j q).
Qed.

(** ** Putting the page back *)
Lemma close_free fl s i p : Inv (Some i) fl s → pages s !! i = Some p → page_ok p = true →
  home (transactionState p) = None → transactionState p ≠ inReclaimer → Inv None fl s.
Proof.
  intros [H1 H2 H3 H4 H5 H6 H7 H8 H9 H10 H11] E Hok Eh Et. split; try done.
  - intros j q Hq _. destruct (decide (j = i)) as [->|Hne]; [by simplify_eq|]. apply (H1 j); [done|congruence].
  - intros g. destruct (H2 g) as [Hn Hg]. split; [done|]. intros j. rewrite Hg.
    split; intros [_ Hj]; (split; [|done]); [done|].
    intros [= <-]. rewrite (page_at_eq s i p) in Hj by done. congruence.
  - intros j. rewrite H4. split; intros [_ Hj]; (split; [|done]); [done|].
    intros [= <-]. by rewrite (page_at_eq s i p) in Hj by done.
Qed.

Lemma group_push s g i : group_list (push_back s (tail_list g) i) g = group_list s g ++ [i].
Proof. destruct g; try done; unfold push_back; simpl; apply app_assoc. Qed.
Lemma group_push_other s g g' i : g' ≠ g → group_list (push_back s (tail_list g) i) g' = group_list s g'.
Proof. apply group_set_other. Qed.

Lemma close_list fl s i p g : Inv (Some i) fl s → pages s !! i = Some p → page_ok p = true →
  home (transactionState p) = Some g → Inv None fl (push_back s (tail_list g) i).
Proof.
  intros [H1 H2 H3 H4 H5 H6 H7 H8 H9 H10 H11] E Hok Eh. split; try done.
  - intros j q Hq _. simpl in Hq. destruct (decide (j = i)) as [->|Hne]; [by simplify_eq|].
    apply (H1 j); [done|congruence].
  - intros g'. destruct (H2 g') as [Hn Hg]. destruct (decide (g' = g)) as [->|Hne].
    + rewrite group_push. split.
      * apply list_push_ok; [done|]. rewrite Hg. by intros [? _].
      * intros j. rewrite elem_of_app, list_elem_of_singleton, Hg. change (page_at (push_back s (tail_list g) i)) with (page_at s).
        split; [intros [[_ ?]| ->]|intros [_ Hj]]; [done|split; [done|by exists p]|].
        destruct (decide (j = i)) as [->|Hne]; [by right|]. left. split; [congruence|done].
    + rewrite group_push_other by done. split; [done|]. intros j. rewrite Hg.
      change (page_at (push_back s (tail_list g) i)) with (page_at s).
      split; intros [_ Hj]; (split; [|done]); [done|]. intros [= <-].
      rewrite (page_at_eq s i p) in Hj by done. congruence.
  - intros j. change (bundle (push_back s (tail_list g) i)) with (bundle s).
    change (page_at (push_back s (tail_list g) i)) with (page_at s). rewrite H4.
    split; intros [_ Hj]; (split; [|done]); [done|]. intros [= <-].
    rewrite (page_at_eq s i p) in Hj by done. by rewrite Hj in Eh.
Qed.

(** The order of the pages within a group does not matter. *)
Lemma Inv_permute d fl s l v l' v' : Inv d fl (set_list s l v) →
  (∀ g, group_list (set_list s l' v') g ≡ₚ group_list (set_list s l v) g) → Inv d fl (set_list s l' v').
Proof.
  intros [H1 H2 H3 H4 H5 H6 H7 H8 H9 H10 H11] Hp. split; try done. intros g. destruct (H2 g) as [Hn Hg].
  split; [by rewrite (Hp g)|]. intros j. rewrite (Hp g). apply Hg.
Qed.
(** A page that [invalidateRange] starts to evict. *)
Lemma close_evicting fl s i p : Inv (Some i) fl s → pages s !! i = Some p → page_ok p = true →
  home (transactionState p) = Some GBatch →
  Inv None fl (set_list s invalidate_evicting (i :: lists s invalidate_evicting)).
Proof.
  intros H E Hok Eh. apply (Inv_permute None fl s reclaim_batch (lists s reclaim_batch ++ [i])).
  - by apply (close_list fl s i p GBatch).
  - intros g. destruct g; try done.
    change (i :: lists s invalidate_evicting ++ lists s reclaim_batch ≡ₚ lists s invalidate_evicting ++ lists s reclaim_batch ++ [i]).
    rewrite app_assoc. by apply Permutation_cons_append.
Qed.

Lemma close_reclaimer fl s i p : Inv (Some i) fl s → pages s !! i = Some p → page_ok p = true →
  transactionState p = inReclaimer →
  ∃ b, reclaimer_add s i = Ret (set_bundle s b) ∧ Inv None fl (set_bundle s b).
Proof.
  intros H E Hok Et. unfold reclaimer_add.
  destruct (addPage_spec (bundle s) i) as (b & -> & Hb & Hm); [apply H| |].
  { destruct (decide (place_of (bundle s) i = Nowhere)) as [|Hne]; [done|].
    by apply (inv_place _ _ _ H) in Hne as [? _]. }
  exists b. split; [done|]. destruct H as [H1 H2 H3 H4 H5 H6 H7 H8 H9 H10 H11]. split; try done.
  - intros j q Hq _. simpl in Hq. destruct (decide (j = i)) as [->|Hne]; [by simplify_eq|].
    apply (H1 j); [done|congruence].
  - intros g. destruct (H2 g) as [Hn Hg]. split; [done|]. intros j. rewrite Hg.
    change (page_at (set_bundle s b)) with (page_at s).
    split; intros [_ Hj]; (split; [|done]); [done|]. intros [= <-].
    rewrite (page_at_eq s i p) in Hj by done. by rewrite Et in Hj.
  - intros j. change (bundle (set_bundle s b)) with b. change (page_at (set_bundle s b)) with (page_at s).
    rewrite (Hm j). case_decide as Hd.
    + subst. split; [|done]. intros _. split; [done|by exists p].
    + rewrite H4. split; intros [_ Hj]; (split; [congruence|done]).
  - intros j. change (bundle (set_bundle s b)) with b. rewrite (Hm j). case_decide; [done|]. apply H5.
Qed.

Section put.
Context (fl : list Z) (s : ManagedSpace) (i : Z) (p p' : ManagedPage).
Hypothesis H : Inv (Some i) fl s.
Hypothesis E : pages s !! i = Some p.
Hypothesis Ep : physical p' = physical p.
Hypothesis Ec : swapBudgetClaimed p' = swapBudgetClaimed p.
Hypothesis Hok : page_ok p' = true.

Lemma put_free : home (transactionState p') = None → transactionState p' ≠ inReclaimer →
  Inv None fl (set_page s i p').
Proof.
  intros Eh Et. apply (close_free fl _ i p'); try done; [by eapply set_opened|].
  simpl. by rewrite lookup_insert, decide_True.
Qed.
Lemma put_list g : home (transactionState p') = Some g →
  Inv None fl (push_back (set_page s i p') (tail_list g) i).
Proof.
  intros Eh. apply (close_list fl _ i p'); try done; [by eapply set_opened|].
  simpl. by rewrite lookup_insert, decide_True.
Qed.
Lemma put_reclaimer : transactionState p' = inReclaimer →
  ∃ b, reclaimer_add s i = Ret (set_bundle s b) ∧ Inv None fl (set_page (set_bundle s b) i p').
Proof.
  intros Et. destruct (close_reclaimer fl (set_page s i p') i p') as (b & Eb & Hb); try done.
  - by eapply set_opened.
  - simpl. by rewrite lookup_insert, decide_True.
  - exists b. split; [|done]. revert Eb. unfold reclaimer_add. simpl.
    destruct (addPage (bundle s) i); [|done]. simpl. by intros [= ->].
Qed.
End put.

Lemma insert_new fl s i : Inv None fl s → pages s !! i = None → 0 ≤ i < 2 ^ 52 →
  (isSwapSpace s = true → allocated (_buddyAccessor s) 0 i ∧ i < numPages s) →
  Inv None fl (set_page s i new_page).
Proof.
  intros [H1 H2 H3 H4 H5 H6 H7 H8 H9 H10 H11] E Hi Hsw.
  assert (∀ j (P : ManagedPage → Prop), ¬ P new_page → page_at (set_page s i new_page) j P ↔ page_at s j P) as Hat.
  { intros j P HP. rewrite page_at_insert. unfold page_at at 2. destruct (decide (j = i)) as [->|Hne].
    - rewrite E. naive_solver.
    - unfold page_at. naive_solver. }
  split; try done.
  - intros j q Hq _. simpl in Hq. destruct (decide (j = i)) as [->|Hne].
    + rewrite lookup_insert, decide_True in Hq by done. by injection Hq as <-.
    + rewrite lookup_insert_ne in Hq by done. by apply (H1 j).
  - intros g. destruct (H2 g) as [Hn Hg]. split; [done|]. intros j. rewrite Hat by done. apply Hg.
  - intros j. rewrite Hat by done. apply H4.
  - intros f j. change (pfnDb (set_page s i new_page)) with (pfnDb s). rewrite H6. split; intros [Hf Hj]; (split; [done|]).
    all: by apply Hat || (by apply Hat in Hj).
  - intros j q Hq. simpl in Hq. destruct (decide (j = i)) as [->|Hne]; [done|].
    rewrite lookup_insert_ne in Hq by done. by apply (H7 j q).
  - assert (claimed_pages (set_page s i new_page) = claimed_pages s) as ->; [|done].
    apply set_eq. intros j. rewrite !elem_claimed. by rewrite Hat.
  - intros Hs. destruct (H10 Hs) as (G & W & B & S & [N1 N2] & Hp). split_and!; try done. intros j q Hq. simpl in *.
    destruct (decide (j = i)) as [->|Hne]; [by apply Hsw|]. rewrite lookup_insert_ne in Hq by done. by apply (Hp j q).
Qed.

(** ** Checking that a changed page is consistent *)
Ltac decide_consts :=
  repeat match goal with
  | |- context [bool_decide (?a = ?b)] =>
      first [rewrite (bool_decide_true (a = b)) by reflexivity | rewrite (bool_decide_false (a = b)) by discriminate]
  | H : context [bool_decide (?a = ?b)] |- _ =>
      first [rewrite (bool_decide_true (a = b)) in H by reflexivity
            | rewrite (bool_decide_false (a = b)) in H by discriminate]
  | |- context [bool_decide (is_Some (Some ?a))] => rewrite (bool_decide_true (is_Some (Some a))) by eauto
  | |- context [bool_decide (is_Some (@None ?A))] =>
      rewrite (bool_decide_false (is_Some (@None A))) by (intros [? [=]])
  | H : context [bool_decide (is_Some (Some ?a))] |- _ => rewrite (bool_decide_true (is_Some (Some a))) in H by eauto
  | H : context [bool_decide (is_Some (@None ?A))] |- _ =>
      rewrite (bool_decide_false (is_Some (@None A))) in H by (intros [? [=]])
  end.
Ltac page_unfold :=
  unfold page_ok, in_use, is_tx, is_present, has_monitor, set_physical, set_loadState, set_tx, set_stillDirty,
    set_forceInvalidation, set_swapCopyValid, set_discarded, set_swapBudgetClaimed, set_lockCount, set_useCount,
    set_monitor in *;
  cbn [physical loadState transactionState stillDirty forceInvalidation swapCopyValid discarded
       swapBudgetClaimed lockCount useCount monitor home] in *.
(** Case analysis on a page, then arithmetic. *)
Ltac page_solve p :=
  destruct p as [?ph ?ld ?tx ?st ?fo ?sw ?di ?cl ?lk ?us ?mo]; page_unfold;
  match goal with tx : TxState |- _ => first [subst tx | destruct tx] end; try congruence;
  decide_consts;
  match goal with ld : LoadState |- _ => first [subst ld | destruct ld] end; try congruence; decide_consts;
  cbn [andb orb negb implb] in *; try congruence;
  match goal with mo : option nat |- _ => first [subst mo | destruct mo] end; decide_consts; first [reflexivity | lia | congruence].

(** ** Swap offsets *)
Definition swap_ok (b : BuddyAccessor) : Prop :=
  Geometry b ∧ WF b ∧ baseAddress b = 0 ∧ sizeShift b = 0.

Lemma allocated_page b j : allocated b 0 j ↔
  valid (numRoots b) (tableOrder b) 0 j ∧ ent (numRoots b) (tableOrder b) (buddy b) 0 j = -1.
Proof. unfold allocated. split; [by intros (? & ? & _)|]. intros [? ?]. split_and!; [done|done|]. intros Hlt. lia. Qed.

Lemma allocated_kept b a' c v j : path_update b (buddy b) a' 0 c v → j ≠ c →
  allocated b 0 j → allocated (set_buddy b a') 0 j.
Proof.
  intros U Hne. rewrite !allocated_page. simpl. intros [V E]. split; [done|].
  rewrite (pu_keep _ _ _ _ _ _ U); [done|done|]. right. by rewrite Z.sub_diag, Z.div_1_r.
Qed.

Lemma free_offset b i : swap_ok b → allocated b 0 i →
  ∃ b', free b i 0 = Ret b' ∧ swap_ok b' ∧ numRoots b' = numRoots b ∧ tableOrder b' = tableOrder b ∧ ∀ j, j ≠ i → allocated b 0 j → allocated b' 0 j.
Proof.
  intros (G & W & Hb & Hs) A. destruct (free_run b 0 i G W A) as (a' & Hf & U).
  rewrite Hb, Hs in Hf. replace (0 + i * 2 ^ (0 + 0)) with i in Hf by lia.
  destruct (give_block b 0 i a' G W A U) as (G' & W' & _ & _).
  exists (set_buddy b a'). split; [done|]. split; [by split_and!|]. split; [done|]. split; [done|].
  intros j Hj. by eapply allocated_kept.
Qed.

Lemma allocate_offset b : swap_ok b →
  ∃ r b', allocate b 0 64 = Ret (r, b') ∧ swap_ok b' ∧
    ((r = illegalAddress ∧ b' = b) ∨
     (r ≠ illegalAddress ∧ allocated b' 0 r ∧ ¬ allocated b 0 r ∧ numRoots b' = numRoots b ∧
      tableOrder b' = tableOrder b ∧ ∀ j, allocated b 0 j → allocated b' 0 j)).
Proof.
  intros (G & W & Hb & Hs). destruct (allocate_run b 0 64 G W) as (r & b' & Hr & H); [done|done|].
  exists r, b'. split; [done|]. destruct H as [(-> & -> & _)|(c & Ec & Hill & _ & _ & Ht & U & P)].
  - split; [by split_and!|by left].
  - destruct Ht as (G' & W' & Eb & A & _). rewrite Hb, Hs in Ec. replace (0 + c * 2 ^ (0 + 0)) with c in Ec by lia.
    subst r. split; [rewrite Eb; split_and!; [by rewrite <-Eb|by rewrite <-Eb|done|done]|]. right.
    assert (¬ allocated b 0 c) as Hna.
    { rewrite allocated_page. intros [_ E]. pose proof (P 0 ltac:(destruct G; lia)) as H0.
      rewrite Z.sub_diag, Z.div_1_r in H0. simpl in H0. lia. }
    rewrite Eb. split_and!; try done; [by rewrite <-Eb|]. intros j Hj. eapply allocated_kept; [done| |done].
    by intros ->.
Qed.

(** ** Erasing a page *)
Lemma claimed_delete s s' i p : pages s !! i = Some p → (∀ j, j ≠ i → pages s' !! j = pages s !! j) →
  pages s' !! i = None →
  Z.of_nat (size (claimed_pages s')) =
    Z.of_nat (size (claimed_pages s)) - (if swapBudgetClaimed p then 1 else 0).
Proof.
  intros E Hother Hi. assert (claimed_pages s' = claimed_pages s ∖ {[i]}) as ->.
  { apply set_eq. intros j. rewrite elem_of_difference, elem_of_singleton, !elem_claimed. unfold page_at.
    destruct (decide (j = i)) as [->|Hne]; [rewrite Hi; naive_solver|]. rewrite Hother by done. naive_solver. }
  destruct (swapBudgetClaimed p) eqn:Ec.
  - assert (i ∈ claimed_pages s) as Hin by (apply elem_claimed; by exists p).
    rewrite size_difference by set_solver. rewrite size_singleton.
    assert (size ({[i]} : gset Z) ≤ size (claimed_pages s))%nat as Hle by (apply subseteq_size; set_solver).
    rewrite size_singleton in Hle. lia.
  - assert (i ∉ claimed_pages s) as Hin.
    { rewrite elem_claimed. intros (q & Hq & Hc). congruence. }
    replace (claimed_pages s ∖ {[i]}) with (claimed_pages s) by set_solver. lia.
Qed.

Definition frame_on (s s' : ManagedSpace) (i : Z) (q : option ManagedPage) : Prop :=
  (∀ j, pages s' !! j = if decide (j = i) then q else pages s !! j) ∧
  isSwapSpace s' = isSwapSpace s ∧ numPages s' = numPages s ∧ readahead s' = readahead s.

Lemma frame_set_page s i p : frame_on s (set_page s i p) i (Some p).
Proof.
  split; [|done]. intros j. simpl. case_decide as Hd; [subst; by rewrite lookup_insert, decide_True|].
  by rewrite lookup_insert_ne.
Qed.
Lemma frame_refl s i p : pages s !! i = Some p → frame_on s s i (Some p).
Proof. intros E. split; [|done]. intros j. case_decide; by subst. Qed.
Lemma frame_ext s s' s2 i q : frame_on s s' i q → pages s2 = pages s' → isSwapSpace s2 = isSwapSpace s' →
  numPages s2 = numPages s' → readahead s2 = readahead s' → frame_on s s2 i q.
Proof. unfold frame_on. intros (H1 & H2 & H3 & H4) -> -> -> ->. done. Qed.
Lemma frame_base s s0 s' i q : frame_on s0 s' i q → (∀ j, j ≠ i → pages s0 !! j = pages s !! j) →
  isSwapSpace s0 = isSwapSpace s → numPages s0 = numPages s → readahead s0 = readahead s → frame_on s s' i q.
Proof.
  intros (H1 & H2 & H3 & H4) Hj E1 E2 E3. split_and!; try congruence. intros j. rewrite H1. case_decide; [done|]. by apply Hj.
Qed.

Lemma keys_bound (n : Z) (X : gset Z) : 0 ≤ n → (∀ j, j ∈ X → 0 ≤ j < n) → Z.of_nat (size X) ≤ n.
Proof.
  intros Hn Hk. assert (X ⊆ list_to_set (seqZ 0 n)) as Hsub.
  { intros j Hj. apply elem_of_list_to_set, elem_of_seqZ. specialize (Hk j Hj). lia. }
  apply subseteq_size in Hsub. rewrite size_list_to_set in Hsub by apply NoDup_seqZ.
  rewrite length_seqZ in Hsub. lia.
Qed.
Lemma claimed_bound d fl s : Inv d fl s → _budgetClaimed s ≤ 2 ^ 52.
Proof.
  intros H. rewrite (inv_claimed _ _ _ H). apply keys_bound; [lia|].
  intros j (p & Hp & _)%elem_claimed. by apply (inv_keys _ _ _ H j p).
Qed.

(** The hook of the subclass before a page is erased. *)
Lemma pageDiscarded_spec d fl s i p : Inv d fl s → pages s !! i = Some p →
  ∃ s1, _pageDiscarded s i p = Ret s1 ∧
    (∀ j, j ≠ i → pages s1 !! j = pages s !! j) ∧ lists s1 = lists s ∧ bundle s1 = bundle s ∧
    pfnDb s1 = pfnDb s ∧ isSwapSpace s1 = isSwapSpace s ∧ numPages s1 = numPages s ∧
    readahead s1 = readahead s ∧ _budget s1 = _budget s ∧
    _budgetClaimed s1 = _budgetClaimed s - (if swapBudgetClaimed p then 1 else 0) ∧
    (isSwapSpace s = true → swap_ok (_buddyAccessor s1) ∧ numRoots (_buddyAccessor s1) = numRoots (_buddyAccessor s) ∧
       tableOrder (_buddyAccessor s1) = tableOrder (_buddyAccessor s) ∧
       ∀ j, j ≠ i → allocated (_buddyAccessor s) 0 j → allocated (_buddyAccessor s1) 0 j).
Proof.
  intros H E. assert (swapBudgetClaimed p = true → i ∈ claimed_pages s) as Hin.
  { intros Hc. apply elem_claimed. by exists p. }
  assert (swapBudgetClaimed p = true → 0 < _budgetClaimed s) as Hpos.
  { intros Hc%Hin. rewrite (inv_claimed _ _ _ H).
    destruct (decide (size (claimed_pages s) = 0%nat)) as [Hz|]; [|lia].
    apply size_empty_inv in Hz. set_solver. }
  unfold _pageDiscarded. destruct (isSwapSpace s) eqn:Es; cbn [negb].
  - destruct (inv_swap _ _ _ H Es) as (G & W & B & S & [N1 N2] & Hp). destruct (Hp i p E) as [A Hn].
    destruct (free_offset (_buddyAccessor s) i) as (b' & Hf & Hsw & Hnr & Hto & Hk); [by split_and!|done|].
    assert (_budgetClaimed s < 2 ^ 64) as Hlt.
    { pose proof (claimed_bound _ _ _ H). lia. }
    destruct (swapBudgetClaimed p) eqn:Ec.
    + specialize (Hpos eq_refl). rewrite assert_bind by lia. cbn [mbind outcome_bind]. unfold _freeOffset.
      simpl. rewrite assert_bind by lia. rewrite Hf. cbn [mbind outcome_bind]. eexists. split; [done|]. simpl.
      split_and!; try done.
      * intros j Hj. by rewrite lookup_insert_ne.
      * rewrite u64_small by lia. done.
    + cbn [mbind outcome_bind]. unfold _freeOffset. rewrite assert_bind by lia. rewrite Hf. cbn [mbind outcome_bind].
      eexists. split; [done|]. simpl. split_and!; try done. lia.
  - eexists. split; [done|]. split_and!; try done. pose proof (inv_noswap _ _ _ H Es).
    destruct (swapBudgetClaimed p); [|lia]. specialize (Hpos eq_refl). lia.
Qed.

Lemma erase_spec fl s i p : Inv (Some i) fl s → pages s !! i = Some p →
  ∃ s1, _pageDiscarded (set_pfnDb s (delete (physical p) (pfnDb s))) i p = Ret s1 ∧
    Inv None fl (erase_page s1 i) ∧ frame_on s (erase_page s1 i) i None.
Proof.
  intros H E. pose proof H as [H1 H2 H3 H4 H5 H6 H7 H8 H9 H10 H11].
  destruct (pageDiscarded_spec (Some i) fl s i p H E) as (s0 & E0 & Hp0 & El & Eb & Ef & Es & En & Er & Ebu & Ec & Hsw).
  assert (_pageDiscarded (set_pfnDb s (delete (physical p) (pfnDb s))) i p =
    Ret (set_pfnDb s0 (delete (physical p) (pfnDb s)))) as E1.
  { revert E0. unfold _pageDiscarded, _freeOffset. simpl. destruct (isSwapSpace s), (swapBudgetClaimed p); simpl.
    all: repeat match goal with |- context [assert ?b] => destruct b; [|done]; simpl end.
    all: simpl; try (destruct (free _ _ _); [|done]); simpl; by intros [= <-]. }
  exists (set_pfnDb s0 (delete (physical p) (pfnDb s))). split; [done|].
  assert (∀ j, delete i (pages s0) !! j = if decide (j = i) then None else pages s !! j) as Hp.
  { intros j. case_decide as Hd; [subst; by rewrite lookup_delete, decide_True|].
    rewrite lookup_delete_ne by done. by apply Hp0. }
  assert (∀ j P, page_at (erase_page (set_pfnDb s0 (delete (physical p) (pfnDb s))) i) j P ↔ j ≠ i ∧ page_at s j P) as Hat.
  { intros j P. unfold page_at. simpl. setoid_rewrite Hp. case_decide as Hd.
    - split; [by intros (? & ? & _)|by intros [? _]].
    - split; [by intros ?|by intros [_ ?]]. }
  split; [|by split_and!]. split; simpl; rewrite ?Eb, ?Ebu, ?Es; try done.
  - intros j q Hq _. rewrite Hp in Hq. case_decide; [done|]. apply (H1 j); [done|congruence].
  - intros g. destruct (H2 g) as [Hn Hg]. assert (group_list (erase_page (set_pfnDb s0 (delete (physical p) (pfnDb s))) i) g
      = group_list s g) as -> by (destruct g; simpl; by rewrite El).
    split; [done|]. intros j. rewrite Hg, Hat. split; [intros [? ?]; split; [done|split; [congruence|done]]|].
    intros (_ & ? & ?). split; [congruence|done].
  - intros j. rewrite H4, Hat. split; [intros [? ?]; split; [done|split; [congruence|done]]|].
    intros (_ & ? & ?). split; [congruence|done].
  - intros f j. rewrite Hat. destruct (decide (f = physical p)) as [->|Hne].
    + rewrite lookup_delete, decide_True by done. split; [done|]. intros (Hf & Hj & Hpj).
      exfalso. assert (pfnDb s !! physical p = Some j) as X1 by (by apply H6).
      assert (pfnDb s !! physical p = Some i) as X2 by (apply H6; split; [done|by exists p]). congruence.
    + rewrite lookup_delete_ne by done. rewrite H6. split; [|naive_solver]. intros [Hf Hj]. split; [done|].
      split; [|done]. intros ->. rewrite (page_at_eq s i p) in Hj by done. congruence.
  - intros j q Hq. rewrite Hp in Hq. case_decide; [done|]. by apply (H7 j q).
  - rewrite Ec, H8. symmetry. apply (claimed_delete s _ i p); simpl; [done| |by rewrite Hp, decide_True].
    intros j Hj. by rewrite Hp, decide_False.
  - intros Hs. destruct (H10 Hs) as (G & W & B & S & [N1 N2] & Hal). destruct (Hsw Hs) as ((G' & W' & B' & S') & Hnr & Hto & Hk).
    split; [done|]. split; [done|]. split; [done|]. split; [done|]. split; [by rewrite Hnr, Hto, En|].
    intros j q Hq. rewrite Hp in Hq. case_decide; [done|]. destruct (Hal j q Hq) as [A ?].
    split; [by apply Hk|by rewrite En].
  - intros Hs. rewrite Ec. specialize (H11 Hs). destruct (swapBudgetClaimed p) eqn:Ecp; [|lia].
    assert (i ∈ claimed_pages s) as Hin by (apply elem_claimed; by exists p).
    rewrite H8 in H11. assert (claimed_pages s = ∅) as X by (apply leibniz_equiv, size_empty_iff; lia). set_solver.
Qed.

(** ** Disposing of a discarded page *)
Definition dispose_page (p : ManagedPage) : option ManagedPage :=
  if in_use p then Some p else if physical p =? noFrame then None else Some (set_tx p discardQueued).

Lemma dispose_spec fl s i p : Inv (Some i) fl s → pages s !! i = Some p →
  discarded p = true → transactionState p = none → monitor p = None →
  (in_use p = true → page_ok p = true) → (in_use p = false → page_ok (set_tx p discardQueued) = negb (physical p =? noFrame)) →
  ∃ q e s', _disposeDiscarded s i = Ret (q, e, s') ∧ Inv None fl s' ∧ frame_on s s' i (dispose_page p).
Proof.
  intros H E Hd Ht Hm Hu Hq. unfold _disposeDiscarded, dispose_page. rewrite E. cbn [deref mbind outcome_bind].
  rewrite Hd. rewrite !assert_bind; [|by rewrite Hm|by unfold is_tx; rewrite bool_decide_true|done].
  destruct (in_use p) eqn:Eu.
  - exists false, false, s. split; [done|]. split; [|by apply frame_refl].
    apply (close_free fl s i p); try done; [by apply Hu|by rewrite Ht|by rewrite Ht].
  - specialize (Hq eq_refl). destruct (Z.eqb_spec (physical p) noFrame) as [Hf|Hf].
    + destruct (erase_spec fl s i p H E) as (s1 & E1 & H1 & F1).
      rewrite (delete_id (pfnDb s)) in E1.
      2: { rewrite Hf. destruct (pfnDb s !! noFrame) as [j|] eqn:En; [|done]. by apply (inv_frames _ _ _ H) in En as [? _]. }
      replace (set_pfnDb s (pfnDb s)) with s in E1 by (by destruct s). rewrite E1. cbn [mbind outcome_bind].
      by eexists _, _, _.
    + eexists _, _, _. split; [done|]. split.
      * apply (put_list fl s i p (set_tx p discardQueued) H E eq_refl eq_refl Hq GDiscard eq_refl).
      * apply (frame_ext s (set_page s i (set_tx p discardQueued))); try done. apply frame_set_page.
Qed.

(** ** Locks and uses *)
Lemma is_tx_true p t : is_tx p t = true ↔ transactionState p = t.
Proof. apply bool_decide_eq_true. Qed.
Lemma is_tx_false p t : is_tx p t = false ↔ transactionState p ≠ t.
Proof. apply bool_decide_eq_false. Qed.
Lemma is_present_true p : is_present p = true ↔ loadState p = present.
Proof. apply bool_decide_eq_true. Qed.
Lemma is_present_false p : is_present p = false ↔ loadState p = missing.
Proof. unfold is_present. rewrite bool_decide_eq_false. by destruct (loadState p). Qed.
Lemma set_tx_id p : set_tx p (transactionState p) = p.
Proof. by destruct p. Qed.

Definition retained_tx (t : TxState) : TxState :=
  match t with inReclaimer => none | performReclaim => avertReclaim | t => t end.

Lemma page_ok_at s i p : space_ok s → pages s !! i = Some p → page_ok p = true.
Proof. intros H E. by apply (inv_pages _ _ _ H i p E). Qed.

Ltac tx_tests :=
  repeat match goal with
  | |- context [is_tx ?p ?t] =>
      first [rewrite (proj2 (is_tx_true p t)) by (simpl; congruence)
            | rewrite (proj2 (is_tx_false p t)) by (simpl; congruence)]
  end.

Lemma retain_spec fl s i p p' : Inv None fl s → pages s !! i = Some p →
  physical p' = physical p → swapBudgetClaimed p' = swapBudgetClaimed p →
  transactionState p' = transactionState p → loadState p' = loadState p →
  page_ok (set_tx p' (retained_tx (transactionState p))) = true →
  ∃ s', retain s i p' = Ret s' ∧ Inv None fl s' ∧
    frame_on s s' i (Some (set_tx p' (retained_tx (transactionState p)))).
Proof.
  intros H E Ep Ec Et El Hok. pose proof (inv_pages _ _ _ H i p E ltac:(done)) as Hp. unfold retain.
  destruct (decide (transactionState p = inReclaimer)) as [Hr|Hr].
  - assert (is_present p' = true) as ->.
    { apply is_present_true. rewrite El. clear -Hp Hr. by page_solve p. }
    tx_tests. cbn [andb]. destruct (open_reclaimer fl s i p H E Hr) as (b & -> & _ & Hb). cbn [mbind outcome_bind].
    rewrite Hr in *. eexists. split; [done|]. split; [|by apply (frame_set_page (set_bundle s b))].
    by apply (put_free fl (set_bundle s b) i p).
  - rewrite andb_comm. tx_tests. cbn [andb]. destruct (decide (transactionState p = performReclaim)) as [Hq|Hq].
    + tx_tests. rewrite Hq in *. eexists. split; [done|]. split; [|apply frame_set_page].
      apply (keep_page fl s i p); try done; simpl; by rewrite Hq.
    + tx_tests. assert (retained_tx (transactionState p) = transactionState p') as Hre.
      { rewrite Et. by destruct (transactionState p). }
      rewrite Hre, set_tx_id in *. eexists. split; [done|]. split; [|apply frame_set_page].
      apply (keep_page fl s i p); try done; by rewrite Et.
Qed.

(** The page at an index, or the one that is inserted there. *)
Definition page_or_new (s : ManagedSpace) (i : Z) : ManagedPage := default new_page (pages s !! i).
Definition addable (s : ManagedSpace) (i : Z) : Prop :=
  pages s !! i = None → 0 ≤ i < 2 ^ 52 ∧ isSwapSpace s = false.

Lemma find_or_insert_spec fl s i : Inv None fl s → addable s i →
  ∃ s1, find_or_insert s i = (page_or_new s i, s1) ∧ Inv None fl s1 ∧
    pages s1 !! i = Some (page_or_new s i) ∧ frame_on s s1 i (Some (page_or_new s i)).
Proof.
  intros H Ha. unfold find_or_insert, page_or_new. destruct (pages s !! i) as [p|] eqn:E; simpl.
  - exists s. split_and!; try done. by apply frame_refl.
  - exists (set_page s i new_page). split; [done|]. destruct (Ha E) as [? Hs].
    split; [apply insert_new; try done; by rewrite Hs|].
    split; [simpl; by rewrite lookup_insert, decide_True|apply frame_set_page].
Qed.

Lemma frame_trans s s1 s2 i q q' : frame_on s s1 i q → frame_on s1 s2 i q' → frame_on s s2 i q'.
Proof.
  intros (H1 & A1 & B1 & C1) (H2 & A2 & B2 & C2). split_and!; try congruence. intros j. rewrite H2, H1.
  by case_decide.
Qed.

Lemma lockPage_spec fl s i p : Inv None fl s → addable s i → page_or_new s i = p → lockCount p + 1 < 2 ^ 32 →
  ∃ s', lockPage s i = Ret s' ∧ Inv None fl s' ∧
    frame_on s s' i (Some (set_tx (set_lockCount p (lockCount p + 1)) (retained_tx (transactionState p)))).
Proof.
  intros H Ha Enew Hlt. destruct (find_or_insert_spec fl s i H Ha) as (s1 & E1 & H1 & Ep & F1). rewrite Enew in *.
  pose proof (inv_pages _ _ _ H1 i p Ep ltac:(done)) as Hok.
  assert (page_ok (set_tx (set_lockCount p (lockCount p + 1)) (retained_tx (transactionState p))) = true) as Hok'.
  { clear -Hok Hlt. unfold retained_tx. page_solve p. }
  unfold lockPage. rewrite E1. assert (0 ≤ lockCount p) as Hl by (clear -Hok; page_solve p).
  rewrite u32_small by lia. cbn [lockCount set_lockCount]. destruct (Z.eqb_spec (lockCount p + 1) 1) as [Hz|Hz].
  - destruct (retain_spec fl s1 i p (set_lockCount p (lockCount p + 1))) as (s' & -> & H' & F'); try done.
    exists s'. split; [done|]. split; [done|]. by apply (frame_trans s s1 _ i (Some p)).
  - assert (retained_tx (transactionState p) = transactionState p) as Hre.
    { clear -Hok Hz. unfold retained_tx. page_solve p. }
    rewrite Hre in *. eexists. split; [done|]. split.
    + apply (keep_page fl s1 i p); try done.
    + apply (frame_trans s s1 _ i (Some p)); [done|]. apply frame_set_page.
Qed.

(** A page that [invalidateRange] evicts may be in use; another use does not avert that. *)
Definition used_page (p : ManagedPage) : ManagedPage :=
  let p' := set_useCount p (useCount p + 1) in
  if useCount p =? 0 then set_tx p' (retained_tx (transactionState p)) else p'.

Lemma space_incrementUses fl s i p : Inv None fl s → pages s !! i = Some p → useCount p + 1 < 2 ^ 32 →
  ∃ s', incrementUses s i = Ret s' ∧ Inv None fl s' ∧ frame_on s s' i (Some (used_page p)).
Proof.
  intros H Ep Hlt. pose proof (inv_pages _ _ _ H i p Ep ltac:(done)) as Hok.
  assert (page_ok (used_page p) = true) as Hok' by
    (clear -Hok Hlt; unfold used_page, retained_tx; destruct (Z.eqb_spec (useCount p) 0); page_solve p).
  unfold used_page in *.
  unfold incrementUses. rewrite Ep. cbn [deref mbind outcome_bind].
  assert (0 ≤ useCount p) as Hl by (clear -Hok; page_solve p).
  rewrite u32_small by lia. destruct (Z.eqb_spec (useCount p) 0) as [Hz|Hz].
  - destruct (retain_spec fl s i p (set_useCount p (useCount p + 1))) as (s' & -> & H' & F'); try done. by exists s'.
  - eexists. split; [done|]. split; [|apply frame_set_page]. by apply (keep_page fl s i p).
Qed.

(** The page that [release] leaves behind. *)
Definition released_page (p : ManagedPage) : option ManagedPage :=
  if is_tx p none then
    if discarded p then dispose_page p
    else if is_present p && negb (in_use p) then Some (set_tx p inReclaimer) else Some p
  else Some p.

Lemma release_spec fl s i p p' others : Inv None fl s → pages s !! i = Some p →
  physical p' = physical p → swapBudgetClaimed p' = swapBudgetClaimed p →
  transactionState p' = transactionState p → monitor p' = monitor p → discarded p' = discarded p →
  in_use p' = negb (others =? 0) →
  (∀ q, released_page p' = Some q → page_ok q = true) → page_ok p = true →
  ∃ q e s', release s i p' others = Ret (q, e, s') ∧ Inv None fl s' ∧ frame_on s s' i (released_page p').
Proof.
  intros H E Ep Ec Et Em Ed Hu Hok Hp. unfold release, released_page in *.
  destruct (decide (transactionState p = none)) as [Hn|Hn].
  - rewrite (proj2 (is_tx_true p' none)) in * by congruence.
    assert (Inv (Some i) fl s) as Ho by (apply (open_free fl s i p); [done|done|by rewrite Hn|by rewrite Hn]).
    destruct (discarded p') eqn:Ed'.
    + destruct (dispose_spec fl (set_page s i p') i p') as (q & e & s' & -> & H' & F'); try congruence.
      * by apply (set_opened fl s i p).
      * simpl. by rewrite lookup_insert, decide_True.
      * rewrite Em. clear -Hp Hn. page_solve p.
      * intros Hi. apply Hok. unfold dispose_page. by rewrite Hi.
      * intros Hi. unfold dispose_page in Hok. rewrite Hi in Hok. destruct (physical p' =? noFrame) eqn:Ef; [|by apply Hok].
        clear -Ed' Ef. unfold page_ok. simpl. rewrite Ed', Ef. by rewrite !andb_false_r.
      * exists q, e, s'. split; [done|]. split; [done|]. eapply frame_trans; [apply frame_set_page|done].
    + rewrite Hu in *. rewrite andb_true_r, negb_involutive in *.
      destruct (is_present p' && (others =? 0)).
      * destruct (put_reclaimer fl s i p (set_tx p' inReclaimer)) as (b & -> & Hb); try done; [by apply Hok|].
        cbn [mbind outcome_bind]. eexists _, _, _. split; [done|]. split; [done|]. apply (frame_set_page (set_bundle s b)).
      * eexists _, _, _. split; [done|]. split; [|apply frame_set_page].
        apply (put_free fl s i p); try done; [by apply Hok| |]; rewrite Et, Hn; done.
  - rewrite (proj2 (is_tx_false p' none)) in * by congruence. rewrite andb_false_r. cbn [andb].
    assert (∃ s', Inv None fl s' ∧ frame_on s s' i (Some p') ∧ s' = set_page s i p') as (s' & H' & F' & ->).
    { eexists. split_and!; [|apply frame_set_page|done]. apply (keep_page fl s i p); try done; [by apply Hok| |]; by rewrite Et. }
    destruct (discarded p'); by eexists _, _, _.
Qed.

Lemma released_in_use p : in_use p = true → released_page p = Some p.
Proof.
  intros Hu. unfold released_page, dispose_page. rewrite Hu, andb_false_r.
  by destruct (is_tx p none), (discarded p).
Qed.

Lemma unlocked_ok p q : page_ok p = true → 0 < lockCount p →
  released_page (set_lockCount p (lockCount p - 1)) = Some q → page_ok q = true.
Proof.
  intros Hok Hl. unfold released_page, dispose_page. repeat case_match; intros [= <-]; page_solve p.
Qed.
Lemma unused_ok p q : page_ok p = true → 0 < useCount p →
  released_page (set_useCount p (useCount p - 1)) = Some q → page_ok q = true.
Proof.
  intros Hok Hl. unfold released_page, dispose_page. repeat case_match; intros [= <-]; page_solve p.
Qed.

Lemma unlockPage_spec fl s i p : Inv None fl s → pages s !! i = Some p → 0 < lockCount p →
  ∃ q e s', unlockPage s i = Ret (q, e, s') ∧ Inv None fl s' ∧
    frame_on s s' i (released_page (set_lockCount p (lockCount p - 1))).
Proof.
  intros H E Hl. pose proof (inv_pages _ _ _ H i p E ltac:(done)) as Hok. unfold unlockPage. rewrite E.
  cbn [deref mbind outcome_bind]. rewrite assert_bind by lia.
  assert (lockCount p < 2 ^ 32) as Hlt by (clear -Hok; page_solve p). rewrite u32_small by lia.
  cbn [lockCount set_lockCount]. destruct (Z.eqb_spec (lockCount p - 1) 0) as [Hz|Hz].
  - apply (release_spec fl s i p); try done.
    + unfold in_use. simpl. by rewrite Hz.
    + intros q. by apply unlocked_ok.
  - assert (in_use (set_lockCount p (lockCount p - 1)) = true) as Hu by (unfold in_use; simpl; lia).
    rewrite released_in_use by done. eexists _, _, _. split; [done|]. split; [|apply frame_set_page].
    apply (keep_page fl s i p); try done. apply (unlocked_ok p); [done..|]. by apply released_in_use.
Qed.

Lemma space_decrementUses fl s i p : Inv None fl s → pages s !! i = Some p → 0 < useCount p →
  ∃ s', decrementUses s i = Ret s' ∧ Inv None fl s' ∧
    frame_on s s' i (released_page (set_useCount p (useCount p - 1))).
Proof.
  intros H E Hl. pose proof (inv_pages _ _ _ H i p E ltac:(done)) as Hok. unfold decrementUses. rewrite E.
  cbn [deref mbind outcome_bind]. rewrite assert_bind by lia.
  assert (useCount p < 2 ^ 32) as Hlt by (clear -Hok; page_solve p). rewrite u32_small by lia.
  assert (∃ q e s', (if useCount p =? 1 then release s i (set_useCount p (useCount p - 1)) (lockCount p)
      else Ret (false, false, set_page s i (set_useCount p (useCount p - 1)))) = Ret (q, e, s') ∧ Inv None fl s' ∧
    frame_on s s' i (released_page (set_useCount p (useCount p - 1)))) as (q & e & s' & Er & H' & F').
  - destruct (Z.eqb_spec (useCount p) 1) as [Hz|Hz].
    + apply (release_spec fl s i p); try done.
      * unfold in_use. simpl. rewrite Hz. simpl. by rewrite orb_false_r.
      * intros q. by apply unused_ok.
    + assert (in_use (set_useCount p (useCount p - 1)) = true) as Hu by (unfold in_use; simpl; lia).
      rewrite released_in_use by done. eexists _, _, _. split; [done|]. split; [|apply frame_set_page].
      apply (keep_page fl s i p); try done. apply (unused_ok p); [done..|]. by apply released_in_use.
  - change (lockCount (set_useCount p (useCount p - 1))) with (lockCount p). rewrite Er. cbn [mbind outcome_bind].
    eexists. split; [done|]. split; [auto with space|]. destruct q, e; by eapply frame_ext.
Qed.

(** ** Writes *)
Definition written_page (p : ManagedPage) : ManagedPage :=
  if is_present p && negb (discarded p) then
    let p := set_swapCopyValid p false in
    match transactionState p with
    | none | inReclaimer => set_tx p dirty
    | performReclaim | avertReclaim => set_stillDirty (set_tx p avertReclaim) true
    | writeback => set_stillDirty p true
    | _ => p
    end
  else p.

Lemma written_ok p : page_ok p = true → page_ok (written_page p) = true.
Proof.
  intros Hok. unfold written_page. destruct (is_present p && negb (discarded p)) eqn:E; [|done].
  change (transactionState (set_swapCopyValid p false)) with (transactionState p).
  destruct (transactionState p) eqn:Et; page_solve p.
Qed.

Lemma space_markDirty fl s i p : Inv None fl s → pages s !! i = Some p →
  ∃ s', markDirty s i = Ret s' ∧ Inv None fl s' ∧ frame_on s s' i (Some (written_page p)).
Proof.
  intros H E. pose proof (inv_pages _ _ _ H i p E ltac:(done)) as Hok. pose proof (written_ok p Hok) as Hok'.
  unfold markDirty. rewrite E. cbn [deref mbind outcome_bind]. unfold written_page in *.
  change (is_present (set_swapCopyValid p false)) with (is_present p).
  change (is_tx (set_swapCopyValid p false)) with (is_tx p).
  change (transactionState (set_swapCopyValid p false)) with (transactionState p) in *.
  destruct (is_present p) eqn:Ep; cbn [negb andb] in *.
  2: { exists s. split; [done|]. split; [done|]. by apply frame_refl. }
  destruct (discarded p) eqn:Ed; cbn [negb] in *.
  { exists s. split; [done|]. split; [done|]. by apply frame_refl. }
  set (p1 := set_swapCopyValid p false) in *.
  assert (∀ p', physical p' = physical p → swapBudgetClaimed p' = swapBudgetClaimed p →
    home (transactionState p') = home (transactionState p) →
    (transactionState p' = inReclaimer ↔ transactionState p = inReclaimer) → page_ok p' = true →
    ∃ s', Ret (set_page s i p') = Ret s' ∧ Inv None fl s' ∧ frame_on s s' i (Some p')) as Hkeep.
  { intros p' ? ? ? ? ?. eexists. split; [done|]. split; [|apply frame_set_page]. by apply (keep_page fl s i p). }
  assert (∀ s1 (b : bool), Inv (Some i) fl s1 → pages s1 = pages s → isSwapSpace s1 = isSwapSpace s →
    numPages s1 = numPages s → readahead s1 = readahead s → page_ok (set_tx p1 dirty) = true →
    ∃ s', (if b then Ret (emit (set_drainBlocked (push_back (set_page s1 i (set_tx p1 dirty)) _dirtyList i) false) [RaiseDirty])
      else Ret (push_back (set_page s1 i (set_tx p1 dirty)) _dirtyList i)) = Ret s' ∧ Inv None fl s' ∧
      frame_on s s' i (Some (set_tx p1 dirty))) as Hdirty.
  { intros s1 b H1 E1 E2 E3 E4 Hd. assert (Inv None fl (push_back (set_page s1 i (set_tx p1 dirty)) _dirtyList i)) as H2.
    { apply (put_list fl s1 i p (set_tx p1 dirty) H1) with (g := GDirty); try done. by rewrite E1. }
    assert (frame_on s (push_back (set_page s1 i (set_tx p1 dirty)) _dirtyList i) i (Some (set_tx p1 dirty))) as F2.
    { eapply frame_base; [apply (frame_set_page s1)|by rewrite E1|done..]. }
    destruct b; eexists; (split; [done|]); (split; [auto with space|done]). }
  destruct (decide (transactionState p = none)) as [Hn|Hn].
  { rewrite Hn in *. tx_tests. cbn [orb mbind outcome_bind]. apply Hdirty; try done.
    by apply (open_free fl s i p); [| |rewrite Hn|rewrite Hn]. }
  destruct (decide (transactionState p = inReclaimer)) as [Hr|Hr].
  { rewrite Hr in *. tx_tests. cbn [orb]. destruct (open_reclaimer fl s i p H E Hr) as (b & -> & _ & Hb).
    cbn [mbind outcome_bind]. by apply (Hdirty (set_bundle s b)). }
  tx_tests. cbn [orb]. destruct (transactionState p) eqn:Et; tx_tests; cbn [orb]; try done.
  all: try (rewrite assert_bind by done); try (apply Hkeep; simpl; congruence).
  all: try (apply Hkeep; try done; simpl; by rewrite Et).
  all: exfalso; clear -Hok Ep Et Ed; page_solve p.
Qed.
