(* ===== verification/ManagedOps.v ===== *)
(** * The page cache: the operations

    Every critical section of ManagedSpace.v on a consistent space returns and leaves
    the space consistent; what it does to each page is stated with it. *)
From Stdlib Require Import ZArith Lia ZifyBool.
From stdpp Require Import base list numbers option gmap fin_maps functions.
From S2P Require Import Prelude PageConsts Buddy Reclaimer ManagedSpace ManagedInv.
Open Scope Z_scope.

(** ** Discarding *)
Lemma page_ok_facts p : page_ok p = true →
  0 ≤ lockCount p < 2 ^ 32 ∧ 0 ≤ useCount p < 2 ^ 32 ∧ forceInvalidation p = false ∧
  (is_Some (monitor p) ↔ has_monitor (transactionState p) = true) ∧
  (stillDirty p = true → transactionState p = writeback ∨ transactionState p = avertReclaim) ∧
  (is_present p = true → physical p ≠ noFrame).
Proof.
  unfold page_ok. rewrite !andb_true_iff. intros ((((((((H1 & H2) & H3) & H4) & H5) & H6) & H7) & H8) & _).
  apply eqb_prop in H6. split_and!; try lia.
  - rewrite <-H6. by rewrite bool_decide_eq_true.
  - intros Hs. rewrite Hs in H7. simpl in H7. apply orb_true_iff in H7 as [H7|H7]; apply is_tx_true in H7; auto.
Qed.

Lemma page_ok_idle p : 0 ≤ lockCount p < 2 ^ 32 → 0 ≤ useCount p < 2 ^ 32 → forceInvalidation p = false →
  monitor p = None → stillDirty p = false → (is_present p = true → physical p ≠ noFrame) →
  page_ok p = match transactionState p with
  | none => implb (is_present p || discarded p) (in_use p)
  | dirty => is_present p && negb (discarded p)
  | pendingWriteback | avertReclaim => is_present p
  | inReclaimer => is_present p && negb (discarded p) && negb (in_use p)
  | performReclaim => is_present p && (lockCount p =? 0)
  | discardQueued => discarded p && negb (physical p =? noFrame)
  | _ => false
  end.
Proof.
  intros H1 H2 H3 H4 H5 H6. unfold page_ok. rewrite H3, H4, H5.
  rewrite (bool_decide_false (is_Some None)) by (by intros [? ?]). cbn [negb implb].
  assert (implb (is_present p) (negb (physical p =? noFrame)) = true) as ->
    by (destruct (is_present p); [|done]; specialize (H6 eq_refl); simpl; lia).
  replace ((0 <=? lockCount p) && (lockCount p <? 2 ^ 32) && (0 <=? useCount p) && (useCount p <? 2 ^ 32)) with true by lia.
  cbn [andb]. by destruct (transactionState p).
Qed.

Lemma dispose_opened fl s s1 i p p' : Inv (Some i) fl s1 → pages s !! i = Some p → page_ok p = true →
  pages s1 = pages s → isSwapSpace s1 = isSwapSpace s → numPages s1 = numPages s → readahead s1 = readahead s →
  physical p' = physical p → swapBudgetClaimed p' = swapBudgetClaimed p → loadState p' = loadState p →
  discarded p' = true → transactionState p' = none → monitor p' = None → stillDirty p' = false →
  forceInvalidation p' = false → lockCount p' = lockCount p → useCount p' = useCount p →
  ∃ q e s', _disposeDiscarded (set_page s1 i p') i = Ret (q, e, s') ∧ Inv None fl s' ∧
    frame_on s s' i (dispose_page p').
Proof.
  intros H E Hok E1 E2 E3 E4 F1 F2 F3 F4 F5 F6 F7 F8 F9 F10.
  destruct (page_ok_facts p Hok) as (L & U & _ & _ & _ & Hfr).
  assert (is_present p' = is_present p) as Epr by (unfold is_present; by rewrite F3).
  rewrite <-F9 in L. rewrite <-F10 in U. rewrite <-Epr, <-F1 in Hfr.
  destruct (dispose_spec fl (set_page s1 i p') i p') as (q & e & s' & -> & H' & F'); try done.
  - apply (set_opened fl s1 i p); try done. by rewrite E1.
  - simpl. by rewrite lookup_insert, decide_True.
  - intros Hu. rewrite page_ok_idle by done. by rewrite F5, Hu, implb_true_r.
  - intros Hu. rewrite page_ok_idle by done. simpl. by rewrite F4.
  - exists q, e, s'. split; [done|]. split; [done|]. eapply (frame_base s (set_page s1 i p')); try done.
    intros j Hj. simpl. rewrite lookup_insert_ne by done. by rewrite E1.
Qed.

Definition discarded_page (p : ManagedPage) : option ManagedPage :=
  let p := set_discarded p true in
  match transactionState p with
  | none | inReclaimer | dirty => dispose_page (set_tx p none)
  | wantWriteback => dispose_page (set_tx (set_monitor p None) none)
  | _ => Some p
  end.

Lemma no_monitor p : page_ok p = true → has_monitor (transactionState p) = false → monitor p = None.
Proof.
  intros (_ & _ & _ & H & _)%page_ok_facts Ht. destruct (monitor p) as [m|]; [|done].
  rewrite (proj1 H) in Ht; [done|by eexists].
Qed.
Lemma not_stillDirty p : page_ok p = true → transactionState p ≠ writeback → transactionState p ≠ avertReclaim →
  stillDirty p = false.
Proof.
  intros (_ & _ & _ & _ & H & _)%page_ok_facts H1 H2. destruct (stillDirty p); [|done]. by destruct (H eq_refl).
Qed.

Lemma discardPage_spec fl s i p : Inv None fl s → pages s !! i = Some p → discarded p = false →
  transactionState p ≠ wantInitialization → transactionState p ≠ initialization →
  ∃ s', discardPage s i = Ret s' ∧ Inv None fl s' ∧ frame_on s s' i (discarded_page p).
Proof.
  intros H E Hd Ht1 Ht2. pose proof (inv_pages _ _ _ H i p E ltac:(done)) as Hok.
  destruct (page_ok_facts p Hok) as (_ & _ & Hfo & _).
  unfold discardPage, discarded_page. rewrite E. cbn [deref mbind outcome_bind]. rewrite assert_bind by (by rewrite Hd).
  change (transactionState (set_discarded p true)) with (transactionState p).
  set (p1 := set_discarded p true).
  assert (∀ (m : option nat) (b : bool) s', Inv None fl s' → ∀ q, frame_on s s' i q →
    ∃ s2, Ret (emit_if b (match m with Some m => emit s' [RaiseMonitor m] | None => s' end) RaiseDiscard) = Ret s2 ∧
      Inv None fl s2 ∧ frame_on s s2 i q) as Hemit.
  { intros m b s' H' q F'. eexists. split; [done|]. split; [destruct m; auto with space|].
    destruct m, b; by eapply frame_ext. }
  destruct (transactionState p) eqn:Et; try done.
  all: try (cbn [mbind outcome_bind]; apply (Hemit None false (set_page s i p1)); [|apply frame_set_page];
    apply (keep_page fl s i p); try done; [subst p1; clear -Hok Et; page_solve p]).
  - destruct (dispose_opened fl s s i p (set_tx p1 none)) as (q & e & s' & Er & H' & F'); try done.
    { by apply (open_free fl s i p); [| |rewrite Et|rewrite Et]. }
    { apply (no_monitor p); [done|by rewrite Et]. } { apply (not_stillDirty p); [done|by rewrite Et|by rewrite Et]. }
    assert (set_tx p1 none = p1) as Hp1 by (rewrite <-Et; exact (set_tx_id p1)). rewrite Hp1 in *.
    rewrite Er. cbn [mbind outcome_bind]. by apply (Hemit None).
  - destruct (open_erase fl s i p GDirty H E) as (v & Ev & _ & Ho); [by rewrite Et|done|]. cbn [tail_list] in *.
    rewrite Ev. cbn [mbind outcome_bind].
    destruct (dispose_opened fl s _ i p (set_tx p1 none) Ho) as (q & e & s' & -> & H' & F'); try done.
    { apply (no_monitor p); [done|by rewrite Et]. } { apply (not_stillDirty p); [done|by rewrite Et|by rewrite Et]. }
    cbn [mbind outcome_bind]. by apply (Hemit None).
  - destruct (open_erase fl s i p GWriteback H E) as (v & Ev & _ & Ho); [by rewrite Et|done|]. cbn [tail_list] in *.
    rewrite Ev. cbn [mbind outcome_bind].
    destruct (dispose_opened fl s _ i p (set_tx (set_monitor p1 None) none) Ho) as (q & e & s' & -> & H' & F'); try done.
    { apply (not_stillDirty p); [done|by rewrite Et|by rewrite Et]. }
    cbn [mbind outcome_bind]. by apply (Hemit (monitor p)).
  - destruct (open_reclaimer fl s i p H E Et) as (b & -> & _ & Ho). cbn [mbind outcome_bind].
    destruct (dispose_opened fl s _ i p (set_tx p1 none) Ho) as (q & e & s' & -> & H' & F'); try done.
    { apply (no_monitor p); [done|by rewrite Et]. } { apply (not_stillDirty p); [done|by rewrite Et|by rewrite Et]. }
    cbn [mbind outcome_bind]. by apply (Hemit None).
  - exfalso. clear -Hok Et Hd. page_solve p.
Qed.

(** ** Frames *)
Lemma set_frame fl s i p p' db : Inv (Some i) fl s → pages s !! i = Some p →
  swapBudgetClaimed p' = swapBudgetClaimed p →
  (∀ f j, db !! f = Some j ↔ if decide (j = i) then f ≠ noFrame ∧ f = physical p' else pfnDb s !! f = Some j) →
  Inv (Some i) fl (set_pfnDb (set_page s i p') db).
Proof.
  intros H E Ec Hdb. pose proof (set_opened fl s i p (set_physical p' (physical p)) H E eq_refl Ec) as H'.
  destruct H' as [H1 H2 H3 H4 H5 H6 H7 H8 H9 H10 H11].
  assert (∀ j P, (P p' ↔ P (set_physical p' (physical p))) →
    page_at (set_pfnDb (set_page s i p') db) j P ↔ page_at (set_page s i (set_physical p' (physical p))) j P) as Hat.
  { intros j P HP. etrans; [apply (page_at_insert s i p')|]. rewrite page_at_insert. by rewrite HP. }
  assert (∀ j q, <[i := p']> (pages s) !! j = Some q →
    ∃ q', pages (set_page s i (set_physical p' (physical p))) !! j = Some q' ∧ (j ≠ i → q' = q)) as Hpg.
  { intros j q. simpl. destruct (decide (j = i)) as [->|Hne].
    - rewrite !lookup_insert, !decide_True by done. intros _. by eexists.
    - rewrite !lookup_insert_ne by done. intros Hq. by exists q. }
  split; try done.
  - intros j q Hq Hd. simpl in Hq. rewrite lookup_insert_ne in Hq by congruence.
    apply (H1 j); [|done]. simpl. by rewrite lookup_insert_ne by congruence.
  - intros g. destruct (H2 g) as [Hn Hg]. split; [done|]. intros j. rewrite Hat by done. apply Hg.
  - intros j. rewrite Hat by done. apply H4.
  - intros f j. simpl. rewrite Hdb. case_decide as Hd.
    + subst. rewrite (page_at_eq _ i p'); [naive_solver|]. simpl. by rewrite lookup_insert, decide_True.
    + rewrite (inv_frames _ _ _ H). unfold page_at. simpl. by rewrite lookup_insert_ne.
  - intros j q Hq. destruct (Hpg j q Hq) as (q' & Hq' & _). by apply (H7 j q').
  - rewrite (claimed_insert s i p (set_physical p' (physical p)) E Ec) in H8.
    change (claimed_pages (set_pfnDb (set_page s i p') db)) with (claimed_pages (set_page s i p')).
    by rewrite (claimed_insert s i p p' E Ec).
  - intros Hs. destruct (H10 Hs) as (G & W & B & S & [N1 N2] & Hp). split_and!; try done. intros j q Hq.
    destruct (Hpg j q Hq) as (q' & Hq' & _). by apply (Hp j q').
Qed.

Lemma drop_frame fl s i p p' : Inv (Some i) fl s → pages s !! i = Some p →
  swapBudgetClaimed p' = swapBudgetClaimed p → physical p' = noFrame → physical p ≠ noFrame →
  Inv (Some i) fl (set_pfnDb (set_page s i p') (delete (physical p) (pfnDb s))).
Proof.
  intros H E Ec Ep Hne. apply (set_frame fl s i p); try done. intros f j. rewrite Ep.
  assert (pfnDb s !! physical p = Some i) as Hi by (apply (inv_frames _ _ _ H); split; [done|by exists p]).
  destruct (decide (f = physical p)) as [->|Hf].
  - rewrite lookup_delete, decide_True by done. rewrite Hi. case_decide; naive_solver.
  - rewrite lookup_delete_ne by done. case_decide as Hd; [|done]. subst j. split; [|naive_solver].
    intros [Hff (q & Hq & Hqf)]%(inv_frames _ _ _ H). congruence.
Qed.

Lemma take_frame fl s i p p' : Inv (Some i) fl s → pages s !! i = Some p →
  swapBudgetClaimed p' = swapBudgetClaimed p → physical p = noFrame → physical p' ≠ noFrame →
  pfnDb s !! physical p' = None →
  Inv (Some i) fl (set_pfnDb (set_page s i p') (<[physical p' := i]> (pfnDb s))).
Proof.
  intros H E Ec Ep Hne Hfree. apply (set_frame fl s i p); try done. intros f j.
  destruct (decide (f = physical p')) as [->|Hf].
  - rewrite lookup_insert, decide_True by done. rewrite Hfree. case_decide; naive_solver.
  - rewrite lookup_insert_ne by done. case_decide as Hd; [|done]. subst j. split; [|naive_solver].
    intros [Hff (q & Hq & Hqf)]%(inv_frames _ _ _ H). congruence.
Qed.

(** ** Settling *)
Definition settled_page (p : ManagedPage) : ManagedPage :=
  set_tx p (if in_use p then none else inReclaimer).

Lemma set_page_id s i p : pages s !! i = Some p → ∀ d fl, Inv d fl (set_page s i p) → Inv d fl s.
Proof.
  intros E d fl H. eapply Inv_ext; [exact H|..]; try done; [|apply H]. simpl. by rewrite insert_id.
Qed.

(** A settled page may still carry its monitor, which the caller then drops. *)
Lemma settle_spec fl s i p p' : Inv (Some i) fl s → pages s !! i = Some p →
  physical p' = physical p → swapBudgetClaimed p' = swapBudgetClaimed p →
  ∃ s1, settle s i p' = Ret s1 ∧ frame_on s s1 i (Some (settled_page p')) ∧
    pages s1 !! i = Some (settled_page p') ∧
    ∀ p2, physical p2 = physical p → swapBudgetClaimed p2 = swapBudgetClaimed p →
      transactionState p2 = transactionState (settled_page p') → page_ok p2 = true →
      Inv None fl (set_page s1 i p2).
Proof.
  intros H E Ep Ec. unfold settle, settled_page. destruct (in_use p').
  - eexists. split; [done|]. split; [apply frame_set_page|]. split; [simpl; by rewrite lookup_insert, decide_True|].
    intros p2 E1 E2 E3 Hok. apply (put_free fl (set_page s i (set_tx p' none)) i (set_tx p' none)); try done.
    + by apply (set_opened fl s i p).
    + simpl. by rewrite lookup_insert, decide_True.
    + simpl. by rewrite E1, <-Ep.
    + simpl. by rewrite E2, <-Ec.
    + by rewrite E3.
    + by rewrite E3.
  - destruct (addPage_spec (bundle s) i) as (b & Eb & _ & _); [apply H| |].
    { destruct (decide (place_of (bundle s) i = Nowhere)) as [|Hne]; [done|].
      by apply (inv_place _ _ _ H) in Hne as [? _]. }
    unfold reclaimer_add. rewrite Eb. cbn [mbind outcome_bind]. eexists. split; [done|].
    split; [apply (frame_set_page (set_bundle s b))|]. split; [simpl; by rewrite lookup_insert, decide_True|].
    intros p2 E1 E2 E3 Hok. destruct (put_reclaimer fl s i p p2 H E E1 E2 Hok E3) as (b2 & Eb2 & Hb2).
    unfold reclaimer_add in Eb2. rewrite Eb in Eb2. cbn [mbind outcome_bind] in Eb2.
    assert (b2 = b) as -> by (by injection Eb2).
    eapply Inv_ext; [exact Hb2|..]; try done; [|apply H]. simpl. by rewrite insert_insert, decide_True.
Qed.

Lemma settle_ok fl s i p p' : Inv (Some i) fl s → pages s !! i = Some p →
  physical p' = physical p → swapBudgetClaimed p' = swapBudgetClaimed p → page_ok (settled_page p') = true →
  ∃ s1, settle s i p' = Ret s1 ∧ frame_on s s1 i (Some (settled_page p')) ∧ Inv None fl s1.
Proof.
  intros H E Ep Ec Hok. destruct (settle_spec fl s i p p' H E Ep Ec) as (s1 & -> & F & E1 & Hs). exists s1.
  split; [done|]. split; [done|]. by apply (set_page_id s1 i (settled_page p')); [|apply Hs].
Qed.

(** ** The reclamation coroutine *)
Definition evicted_page (p : ManagedPage) : ManagedPage :=
  set_physical (set_tx (set_loadState p missing) none) noFrame.
Definition reclaimed_page (p : ManagedPage) : option ManagedPage :=
  if discarded p then dispose_page (set_tx (set_stillDirty p false) none)
  else if is_tx p avertReclaim then
    if stillDirty p then Some (set_tx (set_stillDirty p false) dirty) else Some (settled_page p)
  else Some (evicted_page p).

Lemma batch_page fl s i rest : Inv None fl s → lists s reclaim_batch = i :: rest →
  ∃ p, pages s !! i = Some p ∧ (transactionState p = performReclaim ∨ transactionState p = avertReclaim) ∧
    page_ok p = true ∧ Inv (Some i) fl (set_list s reclaim_batch rest).
Proof.
  intros H El. destruct (listed_page None fl s i GBatch H) as (p & E & Eh & Hok).
  { simpl. rewrite El. apply elem_of_app. right. by left. }
  exists p. split; [done|]. split; [|split; [done|]].
  - destruct (transactionState p); simpl in Eh; try done; auto.
  - by apply (open_batch fl s i rest p).
Qed.

Lemma reclaim_one_spec fl s i rest : Inv None fl s → lists s reclaim_batch = i :: rest →
  ∃ p d q e s', pages s !! i = Some p ∧ reclaim_one (set_list s reclaim_batch rest) i = Ret (d, q, e, s') ∧
    Inv None fl s' ∧ frame_on s s' i (reclaimed_page p).
Proof.
  intros H El. destruct (batch_page fl s i rest H El) as (p & E & Ht & Hok & Ho). exists p.
  destruct (page_ok_facts p Hok) as (L & U & Hfo & _ & _ & Hfr).
  assert (is_present p = true) as Hpr by (clear -Hok Ht; destruct Ht as [Ht|Ht]; page_solve p).
  specialize (Hfr Hpr). set (s1 := set_list s reclaim_batch rest) in *.
  assert (monitor p = None) as Hmo by (apply no_monitor; [done|by destruct Ht as [-> | ->]]).
  unfold reclaim_one, reclaimed_page. change (pages s1) with (pages s). rewrite E. cbn [deref mbind outcome_bind].
  destruct (discarded p) eqn:Ed.
  { rewrite Hfo, assert_bind by done.
    destruct (dispose_opened fl s s1 i p (set_tx (set_stillDirty p false) none) Ho) as (q & e & s' & -> & H' & F'); try done.
    cbn [mbind outcome_bind]. by eexists _, _, _, _. }
  destruct (decide (transactionState p = avertReclaim)) as [Ha|Ha].
  - tx_tests. destruct (stillDirty p) eqn:Est.
    + eexists _, _, _, _. split; [done|]. split; [done|].
      assert (page_ok (set_tx (set_stillDirty p false) dirty) = true) as Hok'.
      { rewrite page_ok_idle by done. simpl. by rewrite Ed, andb_true_r. }
      assert (Inv None fl (push_back (set_page s1 i (set_tx (set_stillDirty p false) dirty)) _dirtyList i)) as H2.
      { by apply (put_list fl s1 i p (set_tx (set_stillDirty p false) dirty) Ho) with (g := GDirty). }
      split; [destruct (swapBudgetClaimed p); auto with space|].
      destruct (swapBudgetClaimed p); apply (frame_set_page s1).
    + destruct (settle_ok fl s1 i p p Ho) as (s2 & -> & F2 & H2); try done.
      { unfold settled_page. rewrite page_ok_idle by done. simpl. destruct (in_use p) eqn:Eu; simpl.
        - change (in_use (set_tx p none)) with (in_use p). by rewrite Eu, implb_true_r.
        - change (is_present (set_tx p inReclaimer)) with (is_present p).
          change (in_use (set_tx p inReclaimer)) with (in_use p). by rewrite Ed, Eu, Hpr. }
      cbn [mbind outcome_bind]. by eexists _, _, _, _.
  - tx_tests. destruct Ht as [Ht|Ht]; [|done]. tx_tests.
    assert (lockCount p = 0) as Hl by (clear -Hok Ht; page_solve p).
    rewrite !assert_bind by lia. fold (evicted_page p).
    change (forceInvalidation (evicted_page p)) with (forceInvalidation p). rewrite Hfo. eexists _, _, _, _. split; [done|]. split; [done|].
    assert (Inv None fl (set_pfnDb (set_page s1 i (evicted_page p)) (delete (physical p) (pfnDb s1)))) as H2.
    { apply (close_free fl _ i (evicted_page p)); [by apply drop_frame| | |done|done].
      - simpl. by rewrite lookup_insert, decide_True.
      - rewrite page_ok_idle; try done; simpl; [by rewrite Ed|]. apply (not_stillDirty p); [done| |]; by rewrite Ht. }
    split; [auto with space|]. apply (frame_set_page s1).
Qed.

Definition undisposed_page (p : ManagedPage) : option ManagedPage :=
  if in_use p then Some (set_tx p none) else None.

Lemma discard_one_spec fl s i rest : Inv None fl s → lists s reclaim_discardBatch = i :: rest →
  ∃ p e s', pages s !! i = Some p ∧ discard_one (set_list s reclaim_discardBatch rest) i = Ret (e, s') ∧
    discarded p = true ∧ Inv None fl s' ∧ frame_on s s' i (undisposed_page p).
Proof.
  intros H El. destruct (listed_page None fl s i GDiscard H) as (p & E & Eh & Hok).
  { simpl. rewrite El. by left. }
  assert (transactionState p = discardQueued) as Ht by (by destruct (transactionState p)).
  pose proof (open_discardBatch fl s i rest p H El E Ht) as Ho.
  assert (discarded p = true ∧ physical p ≠ noFrame) as [Hd Hf] by (clear -Hok Ht; split; page_solve p).
  exists p. unfold discard_one, undisposed_page. set (s1 := set_list s reclaim_discardBatch rest) in *.
  change (pages s1) with (pages s). rewrite E. cbn [deref mbind outcome_bind].
  rewrite Hd, assert_bind by done. tx_tests. rewrite assert_bind by done. destruct (in_use p) eqn:Eu.
  - eexists _, _. split; [done|]. split; [done|]. split; [done|]. split; [|apply (frame_set_page s1)].
    apply (put_free fl s1 i p); try done. destruct (page_ok_facts p Hok) as (L & U & Hfo & _ & _ & Hfr).
    rewrite page_ok_idle; try done; simpl.
    + change (in_use (set_tx p none)) with (in_use p). by rewrite Eu, implb_true_r.
    + apply (no_monitor p); [done|by rewrite Ht].
    + apply (not_stillDirty p); [done| |]; by rewrite Ht.
  - rewrite assert_bind by lia. destruct (erase_spec fl s1 i p Ho E) as (s2 & -> & H2 & F2).
    cbn [mbind outcome_bind]. eexists _, _. split; [done|]. split; [done|]. split; [done|].
    split; [auto with space|done].
Qed.

Lemma shrink_inflight d i fl s : Inv d (i :: fl) s → place_of (bundle s) i ≠ Inflight → Inv d fl s.
Proof.
  intros [H1 H2 H3 H4 H5 H6 H7 H8 H9 H10 H11] Hi. split; try done. intros j Hj.
  destruct (decide (j = i)) as [->|Hne]; [done|]. apply H5 in Hj. apply elem_of_cons in Hj as [?|?]; done.
Qed.

Lemma collect_loop_spec batch : ∀ s done, NoDup batch → Inv None batch (set_list s reclaim_batch done) →
  (∀ j, j ∈ batch → place_of (bundle s) j = Inflight) →
  ∃ s', collect_loop s batch = Ret s' ∧ Inv None [] (set_list s' reclaim_batch (done ++ batch)) ∧
    (∀ l, lists s' l = lists s l) ∧
    (∀ j, pages s' !! j = if decide (j ∈ batch) then (λ p, set_tx p performReclaim) <$> pages s !! j else pages s !! j) ∧
    (∀ j, j ∈ batch → page_at s j (λ p, transactionState p = inReclaimer)) ∧
    isSwapSpace s' = isSwapSpace s ∧ numPages s' = numPages s ∧ readahead s' = readahead s.
Proof.
  induction batch as [|i batch IH]; intros s done Hnd H Hin.
  { exists s. rewrite app_nil_r. split_and!; try done. intros j Hj. by apply elem_of_nil in Hj. }
  apply list.NoDup_cons in Hnd as [Hni Hnd]. set (s0 := set_list s reclaim_batch done) in *.
  assert (page_at s0 i (λ p, transactionState p = inReclaimer)) as (p & E & Ht).
  { assert (place_of (bundle s0) i ≠ Nowhere) as Hp by (change (bundle s0) with (bundle s); by rewrite Hin by left).
    by apply (inv_place _ _ _ H) in Hp as [_ ?]. }
  pose proof (inv_pages _ _ _ H i p E ltac:(done)) as Hok. change (pages s0) with (pages s) in E.
  assert (is_present p = true ∧ in_use p = false ∧ discarded p = false) as (Hpr & Hu & Hd)
    by (clear -Hok Ht; split_and!; page_solve p).
  assert (lockCount p = 0) as Hl by (unfold in_use in Hu; lia).
  cbn [collect_loop]. rewrite E. cbn [deref mbind outcome_bind]. rewrite Hpr. tx_tests. rewrite !assert_bind by lia.
  destruct (open_reclaimer (i :: batch) s0 i p H E Ht) as (b & Eb & Hm & Ho).
  assert (reclaimer_remove (set_page s i (set_tx p performReclaim)) i =
    Ret (set_bundle (set_page s i (set_tx p performReclaim)) b)) as ->.
  { revert Eb. unfold reclaimer_remove. simpl. destruct (removePage (bundle s) i); [|done]. simpl. by intros [= ->]. }
  cbn [mbind outcome_bind]. set (s1 := set_bundle (set_page s i (set_tx p performReclaim)) b).
  destruct (IH s1 (done ++ [i])) as (s' & Ec & H' & Hl' & Hp' & Ht' & Hst); [done| | |].
  - apply (Inv_ext None batch (push_back (set_page (set_bundle s0 b) i (set_tx p performReclaim)) reclaim_batch i));
      try done; [|by intros []|apply (inv_budget _ _ _ Ho)].
    apply (put_list batch (set_bundle s0 b) i p (set_tx p performReclaim)) with (g := GBatch); try done.
    + apply (shrink_inflight _ i); [done|]. change (bundle (set_bundle s0 b)) with b. by rewrite (Hm i), decide_True.
    + destruct (page_ok_facts p Hok) as (L & U & Hfo & _ & _ & Hfr).
      rewrite page_ok_idle; try done; simpl.
      * change (is_present p && (lockCount p =? 0) = true). by rewrite Hl, Hpr.
      * apply (no_monitor p); [done|by rewrite Ht].
      * apply (not_stillDirty p); [done| |]; by rewrite Ht.
  - intros j Hj. change (bundle s1) with b. rewrite (Hm j), decide_False by (intros ->; done).
    apply Hin. by right.
  - exists s'. split; [done|]. rewrite <-app_assoc in H'. split; [done|]. split; [done|]. split; [|split; [|done]].
    + intros j. rewrite Hp', decide_cons. simpl. destruct (decide (j = i)) as [->|Hne].
      * rewrite decide_False by done. by rewrite lookup_insert, decide_True, E.
      * by rewrite lookup_insert_ne.
    + intros j Hj. apply elem_of_cons in Hj as [->|Hj]; [by exists p|]. destruct (Ht' j Hj) as (q & Hq & Htq).
      exists q. split; [|done]. simpl in Hq. rewrite lookup_insert_ne in Hq by (intros ->; done). done.
Qed.

Lemma inflight_start s b out : Inv None [] s → bundle_ok b →
  (∀ p, p ∈ out ↔ place_of (bundle s) p = Posted) →
  (∀ q, place_of b q = if decide (place_of (bundle s) q = Posted) then Inflight else place_of (bundle s) q) →
  Inv None out (set_bundle s b).
Proof.
  intros [H1 H2 H3 H4 H5 H6 H7 H8 H9 H10 H11] Hb Hout Hpl. split; try done.
  - intros j. change (bundle (set_bundle s b)) with b. rewrite Hpl, <-H4. case_decide as Hd; [|done].
    rewrite Hd. done.
  - intros j. change (bundle (set_bundle s b)) with b. rewrite Hpl. case_decide as Hd; [by rewrite Hout|].
    intros Hj. apply H5 in Hj. by apply elem_of_nil in Hj.
Qed.

(** Splicing the discarded pages into the local list. *)
Lemma splice_discard fl s : Inv None fl s → lists s reclaim_discardBatch = [] →
  Inv None fl (set_list (set_list s reclaim_discardBatch (lists s _discardList)) _discardList []).
Proof.
  intros [H1 H2 H3 H4 H5 H6 H7 H8 H9 H10 H11] El. split; try done.
  intros g. assert (group_list (set_list (set_list s reclaim_discardBatch (lists s _discardList)) _discardList []) g
    = group_list s g) as ->; [|apply H2]. destruct g; try done. simpl. rewrite El. apply app_nil_r.
Qed.

Lemma reclaim_collect_spec s : space_ok s → lists s reclaim_batch = [] → lists s reclaim_discardBatch = [] →
  ∃ (out : list Z) s', reclaim_collect s = Ret s' ∧ space_ok s' ∧
    (∀ j, j ∈ out ↔ place_of (bundle s) j = Posted) ∧
    (∀ j, j ∈ out → page_at s j (λ p, transactionState p = inReclaimer)) ∧
    (∀ j, pages s' !! j = if decide (j ∈ out) then (λ p, set_tx p performReclaim) <$> pages s !! j else pages s !! j) ∧
    isSwapSpace s' = isSwapSpace s ∧ numPages s' = numPages s ∧ readahead s' = readahead s.
Proof.
  intros H Hb Hd. unfold reclaim_collect. destruct (reclaimPages_spec (bundle s)) as (out & b & -> & Hbo & _ & Hnd & Hout & Hpl); [apply H|].
  cbn [mbind outcome_bind].
  assert (Inv None out (set_bundle s b)) as H1 by (by apply inflight_start).
  destruct (collect_loop_spec out (set_bundle s b) []) as (s1 & -> & H2 & Hl & Hp & Ht & Hst1 & Hst2 & Hst3); [done| | |].
  - eapply Inv_ext; [exact H1|..]; try done; [|apply H]. by intros [].
  - intros j Hj%Hout. change (bundle (set_bundle s b)) with b. by rewrite Hpl, decide_True.
  - cbn [mbind outcome_bind]. exists out. eexists. split; [done|]. split; [|split_and!; try done].
    apply (splice_discard [] (set_list s1 reclaim_batch out)); [done|]. change (lists s1 reclaim_discardBatch = []).
    rewrite Hl. exact Hd.
Qed.

(** ** Unsaved data

    What the transaction state says about the contents of a page. *)
Inductive dirtiness := Clean | Unsaved | Flying | FlyingUnsaved.
#[export] Instance dirtiness_eq_dec : EqDecision dirtiness.
Proof. solve_decision. Defined.

Definition class_of (p : ManagedPage) : dirtiness :=
  match transactionState p with
  | dirty | pendingWriteback | wantWriteback => Unsaved
  | writeback => if stillDirty p then FlyingUnsaved else Flying
  | avertReclaim => if stillDirty p then Unsaved else Clean
  | _ => Clean
  end.
(** A page that is not in the cache has nothing unsaved; the contents of a discarded
    page do not matter. *)
Definition contents (q : option ManagedPage) : option dirtiness :=
  match q with
  | None => Some Clean
  | Some p => if discarded p then None else Some (class_of p)
  end.
Definition keeps_frame (q q' : option ManagedPage) : Prop :=
  ∀ p, q = Some p → discarded p = false →
    ∃ p', q' = Some p' ∧ (class_of p ≠ Clean → physical p' = physical p).

(** In a swap space, a missing page has no frame unless it is being fetched, and only
    pages with a copy in the swap space are fetched. *)
Definition swap_page (p : ManagedPage) : bool :=
  is_present p || discarded p || (if is_tx p none then physical p =? noFrame else swapCopyValid p).
Definition swap_opt (q : option ManagedPage) : bool :=
  match q with None => true | Some p => swap_page p end.

(** A change that has nothing to do with the contents; [sw] says if the space is a
    swap space. *)
Definition quiet (sw : bool) (q q' : option ManagedPage) : Prop :=
  (contents q ≠ None → contents q' = contents q) ∧ keeps_frame q q' ∧
  (sw = true → swap_opt q = true → swap_opt q' = true).
Definition quiet_space (s s' : ManagedSpace) : Prop :=
  isSwapSpace s' = isSwapSpace s ∧ ∀ j, quiet (isSwapSpace s) (pages s !! j) (pages s' !! j).

Lemma keeps_frame_trans q1 q2 q3 : (contents q1 ≠ None → contents q2 = contents q1) →
  keeps_frame q1 q2 → keeps_frame q2 q3 → keeps_frame q1 q3.
Proof.
  intros H1 K1 K2 p -> Hd. destruct (K1 p eq_refl Hd) as (p2 & -> & E2).
  assert (contents (Some p2) = Some (class_of p)) as C2 by (rewrite H1; simpl; by rewrite Hd).
  simpl in C2. destruct (discarded p2) eqn:Hd2; [done|]. injection C2 as C2.
  destruct (K2 p2 eq_refl Hd2) as (p3 & -> & E3). exists p3. split; [done|]. intros Hc.
  rewrite E3, E2; [done|done|by rewrite C2].
Qed.
#[export] Instance quiet_preorder sw : PreOrder (quiet sw).
Proof.
  split.
  - intros q. split; [done|]. split; [|done]. intros p -> _. by exists p.
  - intros q1 q2 q3 (H1 & K1 & S1) (H2 & K2 & S2). split; [|split].
    + intros Hc. rewrite H2, H1; try done. by rewrite H1.
    + by eapply keeps_frame_trans.
    + auto.
Qed.
#[export] Instance quiet_space_preorder : PreOrder quiet_space.
Proof.
  split; [by intros s|]. intros s1 s2 s3 [E1 H1] [E2 H2]. split; [congruence|]. intros j. trans (pages s2 !! j); [done|].
  rewrite <-E1. apply H2.
Qed.

Lemma quiet_page sw p p' : (discarded p = false → discarded p' = false ∧ class_of p' = class_of p) →
  (discarded p = false → class_of p ≠ Clean → physical p' = physical p) →
  (sw = true → swap_page p = true → swap_page p' = true) → quiet sw (Some p) (Some p').
Proof.
  intros H1 H2 H3. split; [|split; [|done]].
  - simpl. destruct (discarded p); [done|]. destruct (H1 eq_refl) as [-> ->]. done.
  - intros p0 [= <-] Hd. exists p'. split; [done|]. by apply H2.
Qed.
Lemma quiet_dead sw p q : discarded p = true → (∀ p', q = Some p' → discarded p' = true) → quiet sw (Some p) q.
Proof.
  intros Hd Hq. split; [simpl; by rewrite Hd|]. split; [intros p0 [= <-]; by rewrite Hd|]. intros _ _.
  destruct q as [p'|]; [|done]. simpl. unfold swap_page. rewrite (Hq p') by done. by rewrite orb_true_r.
Qed.
Lemma quiet_new sw : quiet sw None (Some new_page).
Proof. split; [done|]. split; [|done]. by intros p. Qed.

Lemma frame_quiet s s' i q : frame_on s s' i q → quiet (isSwapSpace s) (pages s !! i) q → quiet_space s s'.
Proof. intros (H & E & _) Hq. split; [done|]. intros j. rewrite H. case_decide as Hd; [by subst|done]. Qed.
Lemma quiet_ext s s1 s2 : pages s2 = pages s1 → isSwapSpace s2 = isSwapSpace s1 → quiet_space s s1 → quiet_space s s2.
Proof. unfold quiet_space. by intros -> ->. Qed.

Lemma present_swap p : is_present p = true → swap_page p = true.
Proof. unfold swap_page. by intros ->. Qed.
Lemma present_tx p : page_ok p = true → transactionState p ≠ none → transactionState p ≠ wantInitialization →
  transactionState p ≠ initialization → transactionState p ≠ discardQueued → is_present p = true.
Proof. intros Hok H1 H2 H3 H4. page_solve p. Qed.
(** A page in one of the states that need a valid copy in memory. *)
Ltac present_page p :=
  intros _ _; apply present_swap; change (is_present p = true); apply present_tx; [done|congruence..].

(** The parts of a space that no operation but [resize] changes. *)
Definition same_space (s s' : ManagedSpace) : Prop :=
  isSwapSpace s' = isSwapSpace s ∧ numPages s' = numPages s ∧ readahead s' = readahead s.
#[export] Instance same_space_preorder : PreOrder same_space.
Proof. split; [done|]. unfold same_space. intros s1 s2 s3 (? & ? & ?) (? & ? & ?). split_and!; congruence. Qed.
Lemma frame_same s s' i q : frame_on s s' i q → same_space s s'.
Proof. by intros [_ ?]. Qed.

(** ** The writeback coroutine *)
Lemma claimed_grow s i p p' : pages s !! i = Some p → swapBudgetClaimed p = false → swapBudgetClaimed p' = true →
  Z.of_nat (size (claimed_pages (set_page s i p'))) = Z.of_nat (size (claimed_pages s)) + 1.
Proof.
  intros E Hf Ht. assert (i ∉ claimed_pages s) as Hi.
  { rewrite elem_claimed. intros (q & Hq & Hc). congruence. }
  assert (claimed_pages (set_page s i p') = {[i]} ∪ claimed_pages s) as ->.
  { apply set_eq. intros j. rewrite elem_of_union, elem_of_singleton, !elem_claimed, page_at_insert.
    destruct (decide (j = i)) as [->|Hne]; [naive_solver|]. naive_solver. }
  rewrite size_union, size_singleton; [lia|]. intros j ->%elem_of_singleton. done.
Qed.

Lemma set_claimed fl s i p p' : Inv (Some i) fl s → pages s !! i = Some p → isSwapSpace s = true →
  physical p' = physical p → swapBudgetClaimed p = false → swapBudgetClaimed p' = true →
  Inv (Some i) fl (set_budgetClaimed (set_page s i p') (_budgetClaimed s + 1)).
Proof.
  intros H E Hs Ep Hf Ht.
  destruct (set_opened fl s i p (set_swapBudgetClaimed p' false) H E Ep (eq_sym Hf)) as [H1 H2 H3 H4 H5 H6 H7 H8 H9 H10 H11].
  assert (∀ j P, (P p' ↔ P (set_swapBudgetClaimed p' false)) →
    page_at (set_budgetClaimed (set_page s i p') (_budgetClaimed s + 1)) j P ↔
    page_at (set_page s i (set_swapBudgetClaimed p' false)) j P) as Hat.
  { intros j P HP. etrans; [apply (page_at_insert s i p')|]. rewrite page_at_insert. by rewrite HP. }
  assert (∀ j q, <[i := p']> (pages s) !! j = Some q →
    ∃ q', pages (set_page s i (set_swapBudgetClaimed p' false)) !! j = Some q') as Hpg.
  { intros j q. simpl. destruct (decide (j = i)) as [->|Hne].
    - rewrite !lookup_insert, !decide_True by done. by eexists.
    - rewrite !lookup_insert_ne by done. by eexists. }
  split; try done.
  - intros j q Hq Hd. simpl in Hq. rewrite lookup_insert_ne in Hq by congruence.
    apply (H1 j); [|done]. simpl. by rewrite lookup_insert_ne by congruence.
  - intros g. destruct (H2 g) as [Hn Hg]. split; [done|]. intros j. rewrite Hat by done. apply Hg.
  - intros j. rewrite Hat by done. apply H4.
  - intros f j. rewrite Hat by done. apply H6.
  - intros j q Hq. destruct (Hpg j q Hq) as (q' & Hq'). by apply (H7 j q').
  - change (_budgetClaimed s + 1 = Z.of_nat (size (claimed_pages (set_page s i p')))).
    rewrite (claimed_grow s i p p' E Hf Ht). by rewrite (inv_claimed _ _ _ H).
  - intros Hs'. destruct (H10 Hs') as (G & W & B & S & [N1 N2] & Hp). split_and!; try done. intros j q Hq.
    destruct (Hpg j q Hq) as (q' & Hq'). by apply (Hp j q').
  - simpl. by rewrite Hs.
Qed.

(** What [drain_loop] does to a dirty page. *)
Definition drained_page (p p' : ManagedPage) : Prop :=
  p' = p ∨ (transactionState p = dirty ∧ discarded p = false ∧
    (p' = set_tx p pendingWriteback ∨ p' = set_tx (set_swapBudgetClaimed p true) pendingWriteback)).

Lemma drain_one s i p : space_ok s → pages s !! i = Some p → transactionState p = dirty →
  ∃ claimed p1 s1, claimSwapBudget s p = (claimed, p1, s1) ∧
    (claimed = false → s1 = s ∧ isSwapSpace s = true) ∧
    (claimed = true → ∃ s2, erase_from s1 _dirtyList i = Ret s2 ∧
      (p1 = p ∨ p1 = set_swapBudgetClaimed p true) ∧
      lists s2 _dirtyList = filter (λ q, q ≠ i) (lists s _dirtyList) ∧
      let s3 := push_back (set_page s2 i (set_tx p1 pendingWriteback)) drain_pending i in
      space_ok s3 ∧ frame_on s s3 i (Some (set_tx p1 pendingWriteback))).
Proof.
  intros H E Ht. pose proof (page_ok_at s i p H E) as Hok.
  destruct (open_erase [] s i p GDirty H E) as (v & Ev & -> & Ho); [by rewrite Ht|done|].
  cbn [tail_list] in *. set (s0 := set_list s _dirtyList (filter (λ q, q ≠ i) (lists s _dirtyList))) in *.
  assert (page_ok (set_tx p pendingWriteback) = true) as Hok' by (clear -Hok Ht; page_solve p).
  assert (frame_on s (push_back (set_page s0 i (set_tx p pendingWriteback)) drain_pending i) i
    (Some (set_tx p pendingWriteback)) ∧
    space_ok (push_back (set_page s0 i (set_tx p pendingWriteback)) drain_pending i)) as [F3 H3].
  { split; [apply (frame_set_page s0)|]. by apply (put_list [] s0 i p (set_tx p pendingWriteback) Ho) with (g := GPending). }
  unfold claimSwapBudget. destruct (isSwapSpace s) eqn:Es; cbn [negb].
  2: { exists true, p, s. split; [done|]. split; [done|]. intros _. exists s0. split; [done|]. split; [by left|]. done. }
  destruct (swapBudgetClaimed p) eqn:Ec.
  { exists true, p, s. split; [done|]. split; [done|]. intros _. exists s0. split; [done|]. split; [by left|]. done. }
  destruct (Z.leb_spec (_budget s) (_budgetClaimed s)) as [Hb|Hb].
  { exists false, p, s. split; [done|]. done. }
  eexists _, _, _. split; [done|]. split; [done|]. intros _.
  pose proof (claimed_bound _ _ _ H) as Hcb. assert (0 ≤ _budgetClaimed s) as Hc0 by (rewrite (inv_claimed _ _ _ H); lia).
  rewrite u64_small by lia. exists (set_budgetClaimed s0 (_budgetClaimed s + 1)). split.
  { unfold erase_from. simpl. rewrite list_erase_Ret; [done|].
    apply (inv_group _ _ _ H GDirty). split; [done|]. exists p. by rewrite Ht. }
  split; [by right|]. split; [done|]. split.
  - set (p' := set_tx (set_swapBudgetClaimed p true) pendingWriteback).
    pose proof (set_claimed [] s0 i p p' Ho E Es eq_refl Ec eq_refl) as H4.
    apply (close_list [] _ i p' GPending) in H4; [done| |done|done].
    simpl. by rewrite lookup_insert, decide_True.
  - apply (frame_set_page s0).
Qed.

Lemma drain_loop_spec l : ∀ s, space_ok s → NoDup l → (∀ j, j ∈ l → j ∈ lists s _dirtyList) →
  ∃ s', drain_loop s l = Ret s' ∧ space_ok s' ∧ same_space s s' ∧
    (∀ j, match pages s !! j, pages s' !! j with
          | Some p, Some p' => drained_page p p' ∧
              (isSwapSpace s = false → j ∈ l → transactionState p' = pendingWriteback)
          | None, None => True | _, _ => False end).
Proof.
  induction l as [|i l IH]; intros s H Hnd Hl.
  { exists s. split_and!; try done. intros j. destruct (pages s !! j); [|done]. split; [by left|].
    intros _ Hj. by apply elem_of_nil in Hj. }
  apply list.NoDup_cons in Hnd as [Hi Hnd]. cbn [drain_loop].
  destruct (listed_page None [] s i GDirty H) as (p & E & Eh & Hok); [apply Hl; by left|].
  assert (transactionState p = dirty) as Ht by (by destruct (transactionState p)).
  assert (discarded p = false) as Hd by (clear -Hok Ht; page_solve p).
  rewrite E. cbn [deref mbind outcome_bind]. tx_tests. rewrite Hd, !assert_bind by done.
  destruct (drain_one s i p H E Ht) as (c & p1 & s1 & -> & Hno & Hyes). destruct c; cbn [negb].
  - destruct (Hyes eq_refl) as (s2 & -> & Hp1 & El2 & H3 & F3). cbn [mbind outcome_bind].
    set (s3 := push_back (set_page s2 i (set_tx p1 pendingWriteback)) drain_pending i) in *.
    destruct (IH s3 H3 Hnd) as (s' & Er & H' & Hss & Hp').
    { intros j Hj. change (lists s3 _dirtyList) with (lists s2 _dirtyList). rewrite El2. apply list_elem_of_filter.
      split; [by intros ->|]. apply Hl. by right. }
    exists s'. split; [done|]. split; [done|]. split; [etrans; [by eapply frame_same|done]|].
    intros j. specialize (Hp' j). destruct F3 as (F3 & Fs & _). rewrite F3 in Hp'. destruct (decide (j = i)) as [->|Hne].
    + rewrite E. destruct (pages s' !! i) as [p'|]; [|done]. destruct Hp' as [Hp' _].
      assert (p' = set_tx p1 pendingWriteback) as -> by (by destruct Hp' as [?|[? _]]).
      split; [|done]. right. split; [done|]. split; [done|]. destruct Hp1 as [-> | ->]; auto.
    + destruct (pages s !! j), (pages s' !! j); try done. destruct Hp' as [Hp' Hf]. split; [done|].
      rewrite Fs in Hf. intros Hs Hj. apply Hf; [done|]. by apply elem_of_cons in Hj as [?|?].
  - destruct (Hno eq_refl) as [-> Hs]. destruct (IH s H Hnd) as (s' & Er & H' & Hss & Hp').
    { intros j Hj. apply Hl. by right. }
    exists s'. split_and!; try done. intros j. specialize (Hp' j). destruct (pages s !! j), (pages s' !! j); try done.
    destruct Hp' as [Hp' _]. split; [done|]. congruence.
Qed.

Lemma drained_quiet sw p p' : page_ok p = true → drained_page p p' → quiet sw (Some p) (Some p').
Proof.
  intros Hok [-> |(Ht & Hd & Hp)]; [done|].
  destruct Hp as [-> | ->]; apply quiet_page; try done; try present_page p.
  all: intros _; split; [done|]; unfold class_of; simpl; by rewrite Ht.
Qed.

Lemma drain_collect_spec s : space_ok s → 
  ∃ s', drain_collect s = Ret s' ∧ space_ok s' ∧ same_space s s' ∧ quiet_space s s' ∧
    (isSwapSpace s = false → ∀ j, page_at s j (λ p, transactionState p = dirty) →
       page_at s' j (λ p, transactionState p = pendingWriteback)).
Proof.
  intros H. destruct (inv_group _ _ _ H GDirty) as [Hnd Hin]. unfold drain_collect.
  destruct (drain_loop_spec (lists s _dirtyList) s H Hnd) as (s1 & -> & H1 & Hss & Hp); [done|].
  cbn [mbind outcome_bind].
  assert (∃ s', (if bool_decide (lists s1 drain_pending = []) && negb (bool_decide (lists s1 _dirtyList = []))
    then Ret (set_drainBlocked s1 true) else Ret s1) = Ret s' ∧ space_ok s' ∧ pages s' = pages s1 ∧ same_space s1 s')
    as (s' & -> & H' & Ep & Hss').
  { destruct (_ && _); eexists; (split; [done|]); (split; [|done]); [by apply Inv_drainBlocked|done]. }
  exists s'. split; [done|]. split; [done|]. split; [by etrans|]. split.
  - split; [destruct Hss' as (-> & _); by destruct Hss as (-> & _)|]. intros j. rewrite Ep. specialize (Hp j).
    destruct (pages s !! j) eqn:E, (pages s1 !! j); try done.
    destruct Hp as [Hp _]. apply drained_quiet; [by apply (page_ok_at s j)|done].
  - intros Hs j (p & E & Ht). specialize (Hp j). rewrite E in Hp. unfold page_at. rewrite Ep.
    destruct (pages s1 !! j) as [p'|]; [|done]. exists p'. split; [done|]. apply Hp; [done|].
    apply (Hin j). split; [done|]. exists p. by rewrite Ht.
Qed.

Lemma dispose_lists s i q e s' : _disposeDiscarded s i = Ret (q, e, s') →
  ∀ l, l ≠ _discardList → lists s' l = lists s l.
Proof.
  unfold _disposeDiscarded, _pageDiscarded, _freeOffset. intros H l Hl. inv_outcome.
  repeat case_match; inv_outcome; simplify_eq; try done.
  all: repeat case_match; inv_outcome; simplify_eq; try done.
  all: unfold push_back, set_list; simpl; by rewrite fn_lookup_insert_ne.
Qed.

Lemma drain_finish_loop_spec pending : ∀ s b, space_ok s → lists s drain_pending = pending →
  ∃ b' s', drain_finish_loop s pending b = Ret (b', s') ∧ space_ok s' ∧ same_space s s' ∧ quiet_space s s' ∧
    lists s' drain_pending = [] ∧ _managementQueue s' = _managementQueue s ∧ (∀ j, j ∉ pending → pages s' !! j = pages s !! j) ∧
    (∀ j p, pages s !! j = Some p → j ∈ pending → discarded p = false →
       page_at s' j (λ p', transactionState p' = wantWriteback)).
Proof.
  induction pending as [|i pending IH]; intros s b H El.
  { exists b, s. split_and!; try done. intros j p _ Hj. by apply elem_of_nil in Hj. }
  destruct (listed_page None [] s i GPending H) as (p & E & Eh & Hok); [simpl; rewrite El; by left|].
  assert (transactionState p = pendingWriteback) as Ht by (by destruct (transactionState p)).
  pose proof (open_front [] s i pending p GPending H El ltac:(done) E Eh) as Ho. cbn [tail_list] in Ho.
  assert (i ∉ pending) as Hi.
  { destruct (inv_group _ _ _ H GPending) as [Hnd _]. simpl in Hnd. rewrite El in Hnd. by apply list.NoDup_cons in Hnd as [? _]. }
  destruct (page_ok_facts p Hok) as (L & U & Hfo & _ & _ & Hfr).
  cbn [drain_finish_loop]. set (s1 := set_list s drain_pending pending) in *. change (pages s1) with (pages s).
  rewrite E. cbn [deref mbind outcome_bind]. tx_tests. rewrite assert_bind by done.
  assert (∀ s2 b2 q, space_ok s2 → lists s2 drain_pending = pending → _managementQueue s2 = _managementQueue s →
    frame_on s s2 i q → quiet (isSwapSpace s) (Some p) q →
    (discarded p = false → ∃ p', q = Some p' ∧ transactionState p' = wantWriteback) →
    ∃ b' s', drain_finish_loop s2 pending b2 = Ret (b', s') ∧ space_ok s' ∧ same_space s s' ∧ quiet_space s s' ∧
      lists s' drain_pending = [] ∧ _managementQueue s' = _managementQueue s ∧
      (∀ j, j ∉ i :: pending → pages s' !! j = pages s !! j) ∧
      (∀ j p, pages s !! j = Some p → j ∈ i :: pending → discarded p = false →
         page_at s' j (λ p', transactionState p' = wantWriteback))) as Hnext.
  { intros s2 b2 q H2 El2 Em2 F2 Hq Hw. destruct (IH s2 b2 H2 El2) as (b' & s' & Er & H' & Hss & Hqu & Hnil & Hm & Hoth & Hwb).
    exists b', s'. split; [done|]. split; [done|]. split; [etrans; [by eapply frame_same|done]|].
    split; [etrans; [eapply frame_quiet; [done|by rewrite E]|done]|]. split; [done|]. split; [congruence|].
    destruct F2 as [F2 _]. split.
    - intros j [Hj1 Hj2]%not_elem_of_cons. rewrite Hoth by done. by rewrite F2, decide_False.
    - intros j p0 Ej Hj Hd. destruct (decide (j = i)) as [->|Hne].
      + assert (p0 = p) as -> by congruence. destruct (Hw Hd) as (p' & -> & Ht'). exists p'.
        split; [|done]. rewrite Hoth by done. by rewrite F2, decide_True.
      + apply elem_of_cons in Hj as [?|Hj]; [done|]. apply (Hwb j p0); try done. by rewrite F2, decide_False. }
  destruct (discarded p) eqn:Ed.
  - destruct (dispose_opened [] s s1 i p (set_tx p none) Ho) as (q & e & s2 & Er & H2 & F2); try done.
    { apply (no_monitor p); [done|by rewrite Ht]. } { apply (not_stillDirty p); [done| |]; by rewrite Ht. }
    rewrite Er. cbn [mbind outcome_bind]. apply (Hnext s2 _ (dispose_page (set_tx p none))); try done.
    + by rewrite (dispose_lists _ _ _ _ _ Er).
    + revert Er. unfold _disposeDiscarded, _pageDiscarded, _freeOffset. intros Er. inv_outcome.
      repeat case_match; inv_outcome; simplify_eq; try done. all: repeat case_match; inv_outcome; simplify_eq; done.
    + apply quiet_dead; [done|]. intros p'. unfold dispose_page. repeat case_match; by intros [= <-].
  - cbn [new_monitor]. set (p' := set_monitor (set_tx p wantWriteback) (Some (nextMonitor s1))).
    apply (Hnext _ _ (Some p')); try done.
    + apply (put_list [] (set_nextMonitor s1 (S (nextMonitor s1))) i p p') with (g := GWriteback); try done.
      * by apply Inv_nextMonitor.
      * subst p'. clear -Hok Ht Ed. page_solve p.
    + apply (frame_set_page s1).
    + apply quiet_page; [|done|present_page p]. intros _. unfold class_of. simpl. by rewrite Ht.
    + intros _. by exists p'.
Qed.

(** ** Requests to the server *)
Section requests.
Context (from to : TxState) (g : group).
Hypothesis Hg : single g = true.
Hypothesis Hfrom : home from = Some g.
Hypothesis Hto : home to = None.
Hypothesis Hto' : to ≠ inReclaimer.
Hypothesis Hpage : ∀ p, page_ok p = true → transactionState p = from → page_ok (set_tx p to) = true.
Hypothesis Honly : ∀ t, home t = Some g → t = from.

Definition issued_pages (s s' : ManagedSpace) (run : list Z) : Prop :=
  ∀ j, pages s' !! j = if decide (j ∈ run) then (λ p, set_tx p to) <$> pages s !! j else pages s !! j.

Lemma fuse_spec queue : ∀ s index count, Inv None [] (set_list s (tail_list g) queue) →
  0 ≤ index → 0 ≤ count → index + count + Z.of_nat (length queue) < 2 ^ 64 →
  ∃ s' run rest, fuse s from to queue index count = Ret (s', rest, count + Z.of_nat (length run)) ∧
    queue = run ++ rest ∧ run = seqZ (index + count) (Z.of_nat (length run)) ∧
    (∀ j rest', rest = j :: rest' → j ≠ index + count + Z.of_nat (length run)) ∧
    Inv None [] (set_list s' (tail_list g) rest) ∧ issued_pages s s' run ∧
    (∀ j, j ∈ run → page_at s j (λ p, transactionState p = from)) ∧
    lists s' = lists s ∧ log s' = log s ∧ same_space s s' ∧ _managementQueue s' = _managementQueue s.
Proof.
  induction queue as [|i queue IH]; intros s index count H Hi Hc Hlt.
  { exists s, [], []. cbn [fuse length]. rewrite Z.add_0_r. split_and!; try done. intros j Hj. by apply elem_of_nil in Hj. }
  cbn [fuse]. simpl in Hlt. rewrite u64_small by lia. destruct (Z.eqb_spec i (index + count)) as [Heq|Hne]; cbn [negb].
  2: { exists s, [], (i :: queue). cbn [length]. rewrite !Z.add_0_r. split_and!; try done.
       - intros j rest' [= -> ->]. done. - intros j Hj. by apply elem_of_nil in Hj. }
  set (s0 := set_list s (tail_list g) (i :: queue)) in *.
  assert (lists s0 (tail_list g) = i :: queue) as El by (simpl; by rewrite fn_lookup_insert).
  destruct (listed_page None [] s0 i g H) as (p & E & Eh & Hok); [rewrite group_simple, El by done; by left|].
  assert (i ∉ queue) as Hni.
  { destruct (inv_group _ _ _ H g) as [Hnd _]. rewrite group_simple, El in Hnd by done. by apply list.NoDup_cons in Hnd as [? _]. }
  change (pages s0) with (pages s) in E. pose proof (Honly _ Eh) as Ht.
  rewrite E. cbn [deref mbind outcome_bind]. rewrite (proj2 (is_tx_true p from)) by done. rewrite assert_bind by done.
  pose proof (open_front [] s0 i queue p g H El Hg E Eh) as Ho.
  destruct (IH (set_page s i (set_tx p to)) index (count + 1)) as
    (s' & run & rest & Er & Eq & Erun & Hrest & H' & Hiss & Hat & Els & Elog & Hss & Em); [|lia..|].
  - apply (Inv_ext None [] (set_page (set_list s0 (tail_list g) queue) i (set_tx p to))); try done.
    + apply (put_free [] _ i p); try done. by apply Hpage.
    + intros l. simpl. destruct (decide (l = tail_list g)) as [->|Hl].
      * by rewrite !fn_lookup_insert.
      * by rewrite !fn_lookup_insert_ne.
    + apply (inv_budget _ _ _ H).
  - exists s', (i :: run), rest. rewrite Er. cbn [length].
    replace (count + 1 + Z.of_nat (length run)) with (count + Z.of_nat (S (length run))) by lia.
    split; [done|]. split; [simpl; by rewrite Eq|]. split.
    { rewrite Nat2Z.inj_succ, seqZ_cons by lia. subst i. f_equal. rewrite Erun at 1. f_equal; lia. }
    split; [intros j rest' Hj; specialize (Hrest j rest' Hj); lia|]. split; [done|]. split; [|split; [|by split_and!]].
    + intros j. rewrite (Hiss j), decide_cons. simpl. destruct (decide (j = i)) as [->|Hj].
      * rewrite decide_False by (intros Hr; apply Hni; rewrite Eq; apply elem_of_app; by left).
        by rewrite lookup_insert, decide_True, E.
      * by rewrite lookup_insert_ne.
    + intros j [->|Hj]%elem_of_cons; [by exists p|]. destruct (Hat j Hj) as (q & Hq & Htq). exists q. split; [|done].
      simpl in Hq. rewrite lookup_insert_ne in Hq; [done|]. intros <-. apply Hni. rewrite Eq. apply elem_of_app. by left.
Qed.

(** The requests that one of the loops hands out: as many as there are nodes, each for
    a run of adjacent pages at the front of the list. *)
Definition run_request (type : ManageRequest) (nr : Z * list Z) : effect :=
  Complete nr.1 type (u64 (Z.shiftl (default 0 (head nr.2)) kPageShift))
    (u64 (Z.shiftl (Z.of_nat (length nr.2)) kPageShift)).
(** Adjacent pages, with nothing behind them that could be fused. *)
Fixpoint runs_ok (runs : list (list Z)) (rest : list Z) : Prop :=
  match runs with
  | [] => True
  | run :: runs =>
      (∃ i, run ≠ [] ∧ run = seqZ i (Z.of_nat (length run)) ∧
         head (concat runs ++ rest) ≠ Some (i + Z.of_nat (length run))) ∧ runs_ok runs rest
  end.

Lemma issue_requests_spec type nodes : ∀ s, space_ok s → 
  ∃ s' runs rest, issue_requests s type (tail_list g) from to nodes = Ret s' ∧ space_ok s' ∧ same_space s s' ∧
    lists s (tail_list g) = concat runs ++ rest ∧ lists s' (tail_list g) = rest ∧
    (∀ l, l ≠ tail_list g → lists s' l = lists s l) ∧
    runs_ok runs rest ∧
    _managementQueue s' = drop (length runs) nodes ∧ (length runs ≤ length nodes)%nat ∧
    (rest = [] ∨ length runs = length nodes) ∧
    log s' = log s ++ (run_request type <$> zip (take (length runs) nodes) runs) ∧
    issued_pages s s' (concat runs) ∧ (∀ j, j ∈ concat runs → page_at s j (λ p, transactionState p = from)).
Proof.
  induction nodes as [|node nodes IH]; intros s H; cbn [issue_requests].
  { exists (set_managementQueue s []), [], (lists s (tail_list g)). split; [done|]. split; [by apply Inv_management|].
    split_and!; try done; [by right|by rewrite app_nil_r|]. intros j Hj. by apply elem_of_nil in Hj. }
  destruct (lists s (tail_list g)) as [|index queue] eqn:El.
  { exists (set_managementQueue s (node :: nodes)), [], []. split; [done|]. split; [by apply Inv_management|].
    split_and!; try done; [simpl; lia|by left|by rewrite app_nil_r|]. intros j Hj. by apply elem_of_nil in Hj. }
  assert (∀ j, j ∈ index :: queue → 0 ≤ j < 2 ^ 52) as Hkeys.
  { intros j Hj. destruct (listed_page None [] s j g H) as (p & E & _); [rewrite group_simple, El; done|].
    by apply (inv_keys _ _ _ H j p). }
  assert (NoDup (index :: queue)) as Hnd.
  { destruct (inv_group _ _ _ H g) as [Hnd _]. by rewrite group_simple, El in Hnd. }
  assert (Z.of_nat (length (index :: queue)) ≤ 2 ^ 52) as Hlen.
  { pose proof (keys_bound (2 ^ 52) (list_to_set (index :: queue)) ltac:(lia)) as Hkb.
    rewrite size_list_to_set in Hkb by done. apply Hkb. intros j Hj. apply Hkeys. by apply elem_of_list_to_set in Hj. }
  pose proof (Hkeys index ltac:(by left)) as Hidx.
  destruct (fuse_spec (index :: queue) s index 0) as
    (s1 & run & rest & -> & Eq & Erun & Hrest & H1 & Hiss & Hat & Els & Elog & Hss & Em); [|lia..|].
  { eapply Inv_ext; [exact H|..]; try done; [|apply H]. intros l. simpl.
    destruct (decide (l = tail_list g)) as [->|Hl]; [by rewrite fn_lookup_insert|by rewrite fn_lookup_insert_ne]. }
  cbn [mbind outcome_bind]. rewrite Z.add_0_r, Z.add_0_l in *.
  assert (run ≠ []) as Hrun.
  { intros ->. simpl in Eq. destruct rest as [|j rest]; [done|]. injection Eq as <- <-. apply (Hrest index queue eq_refl). simpl. lia. }
  rewrite assert_bind by (destruct run; [done|simpl; lia]).
  set (s2 := emit (set_list s1 (tail_list g) rest) _).
  destruct (IH s2) as (s' & runs & rest' & -> & H' & Hss' & Ec & Er' & Hoth & Hall & Hm & Hle & Hend & Hlog & Hiss' & Hat').
  { by apply Inv_emit. }
  assert (lists s2 (tail_list g) = rest) as El2 by (simpl; by rewrite fn_lookup_insert).
  exists s', (run :: runs), rest'. split; [done|]. split; [done|]. split; [by etrans|]. rewrite El2 in Ec.
  split; [simpl; by rewrite <-app_assoc, <-Ec|]. split; [done|]. split.
  { intros l Hl. rewrite Hoth by done. simpl. rewrite fn_lookup_insert_ne by done. by rewrite Els. }
  split.
  { split; [|done]. exists index. split; [done|]. split; [done|]. rewrite <-Ec. destruct rest as [|j0 rest0]; [done|].
    intros [= ->]. by eapply Hrest. }
  split; [done|]. split; [simpl; lia|].
  split; [destruct Hend; [by left|right; simpl; lia]|]. split.
  { rewrite Hlog. simpl. rewrite Elog, <-app_assoc. simpl. f_equal. f_equal. unfold run_request. simpl.
    destruct run as [|i0 run']; [done|]. simpl in Eq. by injection Eq as -> _. }
  assert (∀ j, j ∈ run → j ∉ concat runs) as Hdis.
  { intros j Hj Hj'. rewrite Eq, Ec in Hnd. rewrite app_assoc in Hnd. apply list.NoDup_app in Hnd as (Hnd & _ & _).
    apply list.NoDup_app in Hnd as (_ & Hd & _). by apply (Hd j). }
  split.
  - intros j. simpl. rewrite (Hiss' j). change (pages s2) with (pages s1). rewrite (Hiss j).
    destruct (decide (j ∈ run)) as [Hj|Hj].
    + rewrite (decide_False (P := j ∈ concat runs)) by (by apply Hdis). rewrite decide_True; [done|]. apply elem_of_app. by left.
    + destruct (decide (j ∈ concat runs)) as [Hj'|Hj'].
      * rewrite decide_True; [done|]. apply elem_of_app. by right.
      * rewrite decide_False; [done|]. by intros [?|?]%elem_of_app.
  - intros j. simpl. intros [Hj|Hj]%elem_of_app; [by apply Hat|]. destruct (Hat' j Hj) as (q & Hq & Htq).
    exists q. split; [|done]. change (pages s2) with (pages s1) in Hq. rewrite (Hiss j) in Hq.
    rewrite decide_False in Hq; [done|]. intros Hj'. by apply (Hdis j).
Qed.
End requests.

Definition requested (s s' : ManagedSpace) (j : Z) (from to : TxState) : Prop :=
  ∃ p, pages s !! j = Some p ∧ transactionState p = from ∧ pages s' !! j = Some (set_tx p to).

Lemma issued_requested s s' to run from : issued_pages to s s' run →
  (∀ j, j ∈ run → page_at s j (λ p, transactionState p = from)) →
  ∀ j, (j ∈ run ∧ requested s s' j from to) ∨ ((j ∉ run) ∧ pages s' !! j = pages s !! j).
Proof.
  intros Hiss Hat j. destruct (decide (j ∈ run)) as [Hj|Hj].
  - left. split; [done|]. destruct (Hat j Hj) as (p & E & Ht). exists p. split; [done|]. split; [done|].
    by rewrite (Hiss j), decide_True, E.
  - right. split; [done|]. by rewrite (Hiss j), decide_False.
Qed.

(** Writeback requests are handed out before initialization requests. *)
Lemma progressManagement_spec s : space_ok s →
  ∃ s' wruns wrest iruns irest, _progressManagement s = Ret s' ∧ space_ok s' ∧ same_space s s' ∧
    lists s _writebackList = concat wruns ++ wrest ∧ lists s' _writebackList = wrest ∧ runs_ok wruns wrest ∧
    lists s _initializationList = concat iruns ++ irest ∧ lists s' _initializationList = irest ∧ runs_ok iruns irest ∧
    (∀ l, l ≠ _writebackList → l ≠ _initializationList → lists s' l = lists s l) ∧
    _managementQueue s' = drop (length wruns + length iruns) (_managementQueue s) ∧
    (length wruns + length iruns ≤ length (_managementQueue s))%nat ∧
    (wrest = [] ∧ irest = [] ∨ (length wruns + length iruns = length (_managementQueue s))%nat) ∧
    (wrest ≠ [] → iruns = []) ∧
    log s' = (log s ++ (run_request MR_writeback <$> zip (take (length wruns) (_managementQueue s)) wruns))
      ++ (run_request MR_initialize <$> zip (take (length iruns) (drop (length wruns) (_managementQueue s))) iruns) ∧
    (∀ j, (j ∈ concat wruns ∧ requested s s' j wantWriteback writeback) ∨
          (j ∈ concat iruns ∧ requested s s' j wantInitialization initialization) ∨ pages s' !! j = pages s !! j).
Proof.
  intros H. unfold _progressManagement.
  destruct (issue_requests_spec wantWriteback writeback GWriteback) with (type := MR_writeback)
    (nodes := _managementQueue s) (s := s) as
    (s1 & wruns & wrest & E1 & H1 & Hss1 & Ew & Ew1 & Ho1 & Hok1 & Hm1 & Hle1 & Hend1 & Hlog1 & Hi1 & Ha1); try done.
  { intros p. clear. intros Hok Ht. page_solve p. } { by intros []. }
  cbn [tail_list] in *. rewrite E1. cbn [mbind outcome_bind]. rewrite Hm1.
  destruct (issue_requests_spec wantInitialization initialization GInit) with (type := MR_initialize)
    (nodes := drop (length wruns) (_managementQueue s)) (s := s1) as
    (s2 & iruns & irest & E2 & H2 & Hss2 & Ei & Ei1 & Ho2 & Hok2 & Hm2 & Hle2 & Hend2 & Hlog2 & Hi2 & Ha2); try done.
  { intros p. clear. intros Hok Ht. page_solve p. } { by intros []. }
  cbn [tail_list] in *. rewrite length_drop in Hle2, Hend2.
  pose proof (issued_requested _ _ _ _ _ Hi1 Ha1) as Hr1. pose proof (issued_requested _ _ _ _ _ Hi2 Ha2) as Hr2.
  exists s2, wruns, wrest, iruns, irest. split; [done|]. split; [done|]. split; [by etrans|]. split; [done|].
  split; [by rewrite Ho2|]. split; [done|]. split; [by rewrite <-Ho1|]. split; [done|]. split; [done|].
  split; [intros l Hl1 Hl2; by rewrite Ho2, Ho1|]. split; [by rewrite Hm2, drop_drop|]. split; [lia|].
  assert (wrest ≠ [] → iruns = []) as Hwi.
  { intros Hw. destruct Hend1 as [?|Hend1]; [done|]. destruct iruns; [done|]. simpl in *. lia. }
  split. { destruct Hend1 as [-> |Hend1]; [destruct Hend2 as [-> |Hend2]; [by left|right; lia]|right; lia]. }
  split; [done|]. split; [by rewrite Hlog2, Hlog1, <-app_assoc|].
  intros j. destruct (Hr1 j) as [[Hj (p & Ep & Ht & Ep1)]|[Hj Ep1]], (Hr2 j) as [[Hj2 (q & Eq & Htq & Eq2)]|[Hj2 Ep2]].
  - rewrite Ep1 in Eq. injection Eq as <-. simpl in Htq. done.
  - left. split; [done|]. exists p. split_and!; try done. by rewrite Ep2.
  - right. left. split; [done|]. exists q. split_and!; try done. by rewrite <-Ep1.
  - right. right. by rewrite Ep2.
Qed.

(** A page that stays or whose writeback is requested. *)
Definition issue_step (sw : bool) (q q' : option ManagedPage) : Prop :=
  quiet sw q q' ∨ (∃ p, q = Some p ∧ transactionState p = wantWriteback ∧ is_present p = true ∧
    stillDirty p = false ∧ q' = Some (set_tx p writeback)).

Lemma requested_quiet sw p : transactionState p = wantInitialization → quiet sw (Some p) (Some (set_tx p initialization)).
Proof.
  intros Ht. apply quiet_page; [|done|].
  - intros Hd. split; [done|]. unfold class_of. simpl. by rewrite Ht.
  - intros _. unfold swap_page, is_tx. simpl. by rewrite Ht.
Qed.

Lemma progress_step s : space_ok s →
  ∃ s', _progressManagement s = Ret s' ∧ space_ok s' ∧ same_space s s' ∧
    (∀ j, issue_step (isSwapSpace s) (pages s !! j) (pages s' !! j)) ∧
    (∀ l, l ≠ _writebackList → l ≠ _initializationList → lists s' l = lists s l) ∧
    (∀ j p, pages s !! j = Some p → ∃ p', pages s' !! j = Some p' ∧ monitor p' = monitor p).
Proof.
  intros H. destruct (progressManagement_spec s H) as
    (s' & wr & wre & ir & ire & E & H' & Hss & _ & _ & _ & _ & _ & _ & Hl & _ & _ & _ & _ & _ & Hp).
  exists s'. split_and!; try done.
  - intros j. destruct (Hp j) as [(_ & p & Ep & Ht & Ep')|[(_ & p & Ep & Ht & Ep')|Ep]].
    + right. exists p. pose proof (page_ok_at s j p H Ep) as Hok. split_and!; try done.
      * apply present_tx; [done|congruence..].
      * apply not_stillDirty; [done|congruence..].
    + left. rewrite Ep, Ep'. by apply requested_quiet.
    + left. by rewrite Ep.
  - intros j p Ej. destruct (Hp j) as [(_ & q & Ep & Ht & Ep')|[(_ & q & Ep & Ht & Ep')|Ep]].
    + rewrite Ep'. eexists. split; [done|]. simpl. congruence.
    + rewrite Ep'. eexists. split; [done|]. simpl. congruence.
    + rewrite Ep. by exists p.
Qed.

(** ** Ranges of pages *)
Lemma page_indices_spec offset size : 0 ≤ offset → 0 ≤ size < 2 ^ 64 →
  page_indices offset size =
    (λ pg, (offset / kPageSize + pg) mod 2 ^ 52) <$> seqZ 0 ((size + kPageSize - 1) / kPageSize).
Proof.
  intros Ho Hs. apply list_fmap_ext. intros k pg Hpg. apply lookup_seqZ in Hpg as [-> Hk].
  unfold u64, wrap, kPageSize in *. change (2 ^ 64) with (4096 * 2 ^ 52).
  rewrite Z.rem_mul_r by lia. rewrite (Z.add_comm (_ mod 4096)), Z.mul_comm, Z.div_add_l by lia.
  rewrite (Z.div_small (_ mod 4096)) by (apply Z.mod_pos_bound; lia). rewrite Z.add_0_r.
  by rewrite Z.div_add by lia.
Qed.

Lemma page_indices_NoDup offset size : 0 ≤ offset → 0 ≤ size < 2 ^ 64 → NoDup (page_indices offset size).
Proof.
  intros Ho Hs. rewrite page_indices_spec by done. apply NoDup_fmap_2_strong; [|apply NoDup_seqZ].
  intros a b Ha%elem_of_seqZ Hb%elem_of_seqZ Heq.
  assert ((size + kPageSize - 1) / kPageSize ≤ 2 ^ 52) as Hn.
  { enough ((size + kPageSize - 1) / kPageSize < 2 ^ 52 + 1) by lia. unfold kPageSize. apply Z.div_lt_upper_bound; lia. }
  pose proof (Z.div_mod (offset / kPageSize + a) (2 ^ 52) ltac:(lia)).
  pose proof (Z.div_mod (offset / kPageSize + b) (2 ^ 52) ltac:(lia)). nia.
Qed.

Lemma page_indices_range offset size j : 0 ≤ offset → 0 ≤ size < 2 ^ 64 → j ∈ page_indices offset size → 0 ≤ j < 2 ^ 52.
Proof.
  intros Ho Hs. rewrite page_indices_spec by done. intros (pg & -> & _)%list_elem_of_fmap. apply Z.mod_pos_bound. lia.
Qed.

(** ** Completed requests *)
Lemma settled_ok p : 0 ≤ lockCount p < 2 ^ 32 → 0 ≤ useCount p < 2 ^ 32 → forceInvalidation p = false →
  physical p ≠ noFrame → is_present p = true → discarded p = false → stillDirty p = false →
  page_ok (set_monitor (settled_page p) None) = true.
Proof.
  intros L U Hf Hp Hpr Hd Hst. rewrite page_ok_idle by done. unfold settled_page.
  destruct (in_use p) eqn:Eu; simpl.
  - change (implb (is_present p || discarded p) (in_use p) = true). by rewrite Eu, implb_true_r.
  - change (is_present p && negb (discarded p) && negb (in_use p) = true). by rewrite Hd, Eu, Hpr.
Qed.

Lemma update_initialize_spec indices : ∀ s ms, space_ok s → NoDup indices →
  (∀ i, i ∈ indices → page_at s i (λ p, transactionState p = initialization ∧ physical p ≠ noFrame)) →
  ∃ ms' s', update_initialize s indices ms = Ret (ms', s') ∧ space_ok s' ∧ same_space s s' ∧ quiet_space s s'.
Proof.
  induction indices as [|i indices IH]; intros s ms H Hnd Hall; cbn [update_initialize].
  { by exists ms, s. }
  apply list.NoDup_cons in Hnd as [Hi Hnd]. destruct (Hall i) as (p & E & Ht & Hf); [by left|].
  pose proof (page_ok_at s i p H E) as Hok. destruct (page_ok_facts p Hok) as (L & U & Hfo & Hmo & _ & _).
  assert (discarded p = false) as Hd by (clear -Hok Ht; page_solve p).
  assert (stillDirty p = false) as Hst by (apply (not_stillDirty p); [done| |]; by rewrite Ht).
  destruct (monitor p) as [m|] eqn:Em; [|destruct (proj2 Hmo) as [? ?]; [by rewrite Ht|done]].
  rewrite E. cbn [deref mbind outcome_bind]. rewrite Hd, assert_bind by done. set (p1 := set_loadState p present).
  destruct (settle_spec [] s i p p1) as (s1 & -> & F1 & E1 & Hput); try done.
  { by apply (open_free [] s i p); [| |rewrite Ht|rewrite Ht]. }
  cbn [mbind outcome_bind]. rewrite E1. cbn [deref mbind outcome_bind].
  change (monitor (settled_page p1)) with (monitor p). rewrite Em. cbn [deref mbind outcome_bind].
  set (p2 := set_monitor (settled_page p1) None). set (s2 := set_page s1 i p2).
  assert (frame_on s s2 i (Some p2)) as F2 by (eapply frame_trans; [done|apply frame_set_page]).
  destruct (IH s2 (ms ++ [m])) as (ms' & s' & -> & H' & Hss & Hq).
  - apply Hput; try done. by apply settled_ok.
  - done.
  - intros j Hj. destruct (Hall j) as (q & Eq & Hq); [by right|]. exists q. split; [|done].
    destruct F2 as [F2 _]. rewrite F2, decide_False; [done|]. by intros ->.
  - exists ms', s'. split; [done|]. split; [done|]. split; [etrans; [by eapply frame_same|done]|].
    etrans; [|done]. eapply frame_quiet; [done|]. rewrite E.
    apply quiet_page; [|done|intros _ _; by apply present_swap]. intros _. split; [done|].
    unfold class_of. simpl. rewrite Ht. by destruct (in_use p1).
Qed.

(** The contents of a page whose writeback completes. *)
Definition completes (q q' : option ManagedPage) : Prop :=
  ∀ p, q = Some p → discarded p = false →
    ∃ p', q' = Some p' ∧ discarded p' = false ∧ physical p' = physical p ∧
      class_of p' = (if stillDirty p then Unsaved else Clean).

Lemma update_writeback_spec indices : ∀ s ms rd ry, space_ok s → NoDup indices →
  (∀ i, i ∈ indices → page_at s i (λ p, transactionState p = writeback)) →
  ∃ ms' rd' ry' s', update_writeback s indices ms rd ry = Ret (ms', rd', ry', s') ∧ space_ok s' ∧ same_space s s' ∧
    ∀ j, if decide (j ∈ indices) then completes (pages s !! j) (pages s' !! j) ∧ swap_opt (pages s' !! j) = true
         else pages s' !! j = pages s !! j.
Proof.
  induction indices as [|i indices IH]; intros s ms rd ry H Hnd Hall; cbn [update_writeback].
  { exists ms, rd, ry, s. split_and!; try done. }
  apply list.NoDup_cons in Hnd as [Hi Hnd]. destruct (Hall i) as (p & E & Ht); [by left|].
  pose proof (page_ok_at s i p H E) as Hok. destruct (page_ok_facts p Hok) as (L & U & Hfo & Hmo & _ & Hfr).
  assert (is_present p = true) as Hpr by (clear -Hok Ht; page_solve p). specialize (Hfr Hpr).
  destruct (monitor p) as [m|] eqn:Em; [|destruct (proj2 Hmo) as [? ?]; [by rewrite Ht|done]].
  assert (Inv (Some i) [] s) as Ho by (by apply (open_free [] s i p); [| |rewrite Ht|rewrite Ht]).
  rewrite E. cbn [deref mbind outcome_bind]. rewrite Em. cbn [deref mbind outcome_bind].
  assert (∀ s2 rd2 ry2 q, space_ok s2 → frame_on s s2 i q → completes (Some p) q ∧ swap_opt q = true →
    ∃ ms' rd' ry' s', update_writeback s2 indices (ms ++ [m]) rd2 ry2 = Ret (ms', rd', ry', s') ∧ space_ok s' ∧
      same_space s s' ∧ ∀ j, if decide (j ∈ i :: indices) then completes (pages s !! j) (pages s' !! j) ∧ swap_opt (pages s' !! j) = true
        else pages s' !! j = pages s !! j) as Hnext.
  { intros s2 rd2 ry2 q H2 F2 Hc. destruct (IH s2 (ms ++ [m]) rd2 ry2 H2 Hnd) as (ms' & rd' & ry' & s' & Er & H' & Hss & Hp).
    - intros j Hj. destruct (Hall j) as (q' & Eq & Hq); [by right|]. exists q'. split; [|done].
      destruct F2 as [F2 _]. rewrite F2, decide_False; [done|]. by intros ->.
    - exists ms', rd', ry', s'. split; [done|]. split; [done|]. split; [etrans; [by eapply frame_same|done]|].
      intros j. rewrite decide_cons. specialize (Hp j). destruct F2 as [F2 _]. rewrite F2 in Hp.
      destruct (decide (j = i)) as [->|Hne]; [|done]. rewrite decide_False in Hp by done. rewrite Hp, E. done. }
  destruct (discarded p) eqn:Hd.
  { destruct (dispose_opened [] s s i p (set_tx (set_stillDirty (set_monitor p None) false) none) Ho) as (q & e & s2 & -> & H2 & F2); try done.
    cbn [mbind outcome_bind]. eapply Hnext; [done|done|]. split; [intros p0 [= <-]; by rewrite Hd|]. unfold dispose_page.
    repeat case_match; try done; simpl; unfold swap_page; simpl; by rewrite Hd, orb_true_r. }
  destruct (stillDirty p) eqn:Hst; cbn [negb].
  - cbn [new_monitor]. set (p1 := set_tx (set_stillDirty p false) wantWriteback).
    eapply (Hnext _ _ _ (Some (set_monitor p1 (Some _)))).
    + set (p2 := set_monitor p1 _). apply (Inv_ext None [] (set_nextMonitor (push_back (set_page s i p2) _writebackList i) (S (nextMonitor s)))); try done.
      * apply Inv_nextMonitor. apply (put_list [] s i p p2 Ho) with (g := GWriteback); try done.
        subst p2 p1. clear -Hok Ht Hd. page_solve p.
      * simpl. by rewrite insert_insert, decide_True.
      * apply (inv_budget _ _ _ H).
    + eapply frame_trans; [|apply frame_set_page]. eapply frame_ext; [apply (frame_set_page s i p1)|done..].
    + split; [|by apply present_swap]. intros p0 [= <-] _. eexists. split; [done|]. split_and!; try done. by rewrite Hst.
  - destruct (settle_spec [] s i p (set_swapCopyValid p true)) as (s1 & -> & F1 & E1 & Hput); try done.
    cbn [mbind outcome_bind]. rewrite E1. cbn [deref mbind outcome_bind].
    set (p2 := set_monitor (settled_page (set_swapCopyValid p true)) None).
    apply (Hnext (set_page s1 i p2) _ _ (Some p2)).
    + apply Hput; try done. by apply settled_ok.
    + eapply frame_trans; [done|apply frame_set_page].
    + split; [|by apply present_swap]. intros p0 [= <-] _. exists p2. split_and!; try done. rewrite Hst. unfold class_of, p2, settled_page. simpl.
      by destruct (in_use _).
Qed.

(** ** Locking ranges *)
Lemma retained_swap p p' : page_ok p = true → is_present p' = is_present p → discarded p' = discarded p →
  physical p' = physical p → swapCopyValid p' = swapCopyValid p → transactionState p' = retained_tx (transactionState p) →
  swap_page p = true → swap_page p' = true.
Proof.
  intros Hok H1 H2 H3 H4 H5. unfold swap_page, is_tx. rewrite H1, H2, H3, H4, H5.
  destruct (transactionState p) eqn:Et; try done.
  all: intros _; by rewrite (present_tx p) by (done || congruence).
Qed.
Lemma retained_quiet sw p p' n : page_ok p = true →
  p' = set_tx (set_lockCount p n) (retained_tx (transactionState p)) ∨
  p' = set_tx (set_useCount p n) (retained_tx (transactionState p)) →
  quiet sw (Some p) (Some p').
Proof.
  intros Hok Hp. assert (transactionState p = performReclaim → stillDirty p = false) as Hst.
  { intros Ht. apply (not_stillDirty p); [done| |]; by rewrite Ht. }
  destruct Hp as [-> | ->]; (apply quiet_page; [|done|intros _; by apply retained_swap]); intros Hd; (split; [done|]);
    unfold class_of; simpl; destruct (transactionState p); try done; simpl; by rewrite Hst.
Qed.
Lemma used_quiet sw p : page_ok p = true → quiet sw (Some p) (Some (used_page p)).
Proof.
  intros Hok. unfold used_page. destruct (useCount p =? 0); [by eapply retained_quiet; [|right]|]. by apply quiet_page.
Qed.
Lemma released_quiet sw p p' n : p' = set_lockCount p n ∨ p' = set_useCount p n → quiet sw (Some p) (released_page p').
Proof.
  intros Hp. assert (discarded p' = discarded p ∧ class_of p' = class_of p ∧ physical p' = physical p ∧
    transactionState p' = transactionState p ∧ swap_page p' = swap_page p) as (Hd & Hc & Hf & Ht & Hsw)
    by (by destruct Hp as [-> | ->]).
  assert (quiet sw (Some p) (Some p')) as Hsame by (apply quiet_page; [intros ?; split; congruence|congruence..]).
  unfold released_page. destruct (is_tx p' none) eqn:En; [|done]. apply is_tx_true in En.
  destruct (discarded p') eqn:Ed.
  { apply quiet_dead; [done|]. intros q. unfold dispose_page. repeat case_match; by intros [= <-]. }
  destruct (is_present p' && negb (in_use p')) eqn:Eb; [|done]. apply andb_true_iff in Eb as [Epr _].
  apply quiet_page; [|done|intros _ _; by apply present_swap]. intros Hd'. split; [done|]. rewrite <-Hc. unfold class_of.
  simpl. by rewrite En.
Qed.

Definition lock_room (s : ManagedSpace) (i : Z) : Prop :=
  addable s i ∧ lockCount (page_or_new s i) + 1 < 2 ^ 32.

Lemma lock_loop_spec indices : ∀ s, space_ok s → NoDup indices → (∀ i, i ∈ indices → lock_room s i) →
  ∃ s', lock_loop s indices = Ret s' ∧ space_ok s' ∧ same_space s s' ∧ quiet_space s s'.
Proof.
  induction indices as [|i indices IH]; intros s H Hnd Hall; cbn [lock_loop].
  { by exists s. }
  apply list.NoDup_cons in Hnd as [Hi Hnd]. destruct (Hall i) as [Ha Hr]; [by left|].
  destruct (lockPage_spec [] s i (page_or_new s i) H Ha eq_refl Hr) as (s1 & -> & H1 & F1). cbn [mbind outcome_bind].
  destruct (IH s1 H1 Hnd) as (s' & -> & H' & Hss & Hq).
  - intros j Hj. destruct (Hall j) as [Haj Hrj]; [by right|]. destruct F1 as (F1 & Fs & _).
    unfold lock_room, addable, page_or_new in *. by rewrite F1, Fs, decide_False by (intros ->; done).
  - exists s'. split; [done|]. split; [done|]. split; [etrans; [by eapply frame_same|done]|].
    etrans; [|done]. eapply frame_quiet; [done|]. unfold page_or_new. destruct (pages s !! i) as [p|] eqn:E; simpl.
    + eapply retained_quiet; [by apply (page_ok_at s i)|by left].
    + etrans; [apply quiet_new|]. eapply retained_quiet; [done|by left].
Qed.

Lemma unlock_loop_spec indices : ∀ s rd ry, space_ok s → NoDup indices →
  (∀ i, i ∈ indices → page_at s i (λ p, 0 < lockCount p)) →
  ∃ rd' ry' s', unlock_loop s indices rd ry = Ret (rd', ry', s') ∧ space_ok s' ∧ same_space s s' ∧ quiet_space s s'.
Proof.
  induction indices as [|i indices IH]; intros s rd ry H Hnd Hall; cbn [unlock_loop].
  { by exists rd, ry, s. }
  apply list.NoDup_cons in Hnd as [Hi Hnd]. destruct (Hall i) as (p & E & Hl); [by left|].
  destruct (unlockPage_spec [] s i p H E Hl) as (q & e & s1 & -> & H1 & F1). cbn [mbind outcome_bind].
  destruct (IH s1 (rd || q) (ry || e) H1 Hnd) as (rd' & ry' & s' & -> & H' & Hss & Hq).
  - intros j Hj. destruct (Hall j) as (pj & Ej & Hj'); [by right|]. exists pj. split; [|done].
    destruct F1 as (F1 & _). rewrite F1, decide_False; [done|]. by intros ->.
  - exists rd', ry', s'. split; [done|]. split; [done|]. split; [etrans; [by eapply frame_same|done]|].
    etrans; [|done]. eapply frame_quiet; [done|]. rewrite E. eapply released_quiet. by left.
Qed.

(** ** Touching pages *)
Lemma averted_spec s i p : space_ok s → pages s !! i = Some p → transactionState p = performReclaim →
  space_ok (set_page s i (set_tx p avertReclaim)) ∧ quiet_space s (set_page s i (set_tx p avertReclaim)).
Proof.
  intros H E Ht. pose proof (page_ok_at s i p H E) as Hok. split.
  - apply (keep_page [] s i p); try done; simpl; try by rewrite Ht. clear -Hok Ht. page_solve p.
  - eapply frame_quiet; [apply frame_set_page|]. rewrite E.
    apply quiet_page; [|done|present_page p]. intros Hd. split; [done|].
    unfold class_of. simpl. rewrite Ht. rewrite (not_stillDirty p); [done|done|by rewrite Ht|by rewrite Ht].
Qed.

Lemma peek_page_spec s i misalign p : space_ok s → pages s !! i = Some p →
  ∃ r s', peek_page s i misalign p = Ret (r, s') ∧ space_ok s' ∧ same_space s s' ∧ quiet_space s s' ∧
    (if is_present p then r = MkRange (u64 (physical p + misalign)) (kPageSize - misalign) CM_null true ∧ physical p ≠ noFrame
     else r = no_range).
Proof.
  intros H E. pose proof (page_ok_at s i p H E) as Hok. destruct (page_ok_facts p Hok) as (_ & _ & _ & _ & _ & Hfr).
  unfold peek_page. destruct (is_present p) eqn:Ep; [|eexists _, s; split; [done|]; by split_and!].
  specialize (Hfr eq_refl). rewrite assert_bind by lia.
  destruct (decide (transactionState p = performReclaim)) as [Ht|Ht]; tx_tests.
  - destruct (averted_spec s i p H E Ht). eexists _, _. by split_and!.
  - eexists _, _. split; [done|]. by split_and!.
Qed.

Lemma bump_ok s b i : space_ok s → bundle_ok b → moved (bundle s) b i (InGeneration (newestGen (bundle s))) →
  place_of (bundle s) i ≠ Nowhere → space_ok (set_bundle s b).
Proof.
  intros [H1 H2 H3 H4 H5 H6 H7 H8 H9 H10 H11] Hb Hm Hi. split; try done.
  - intros j. change (bundle (set_bundle s b)) with b. change (page_at (set_bundle s b)) with (page_at s).
    rewrite (Hm j), <-H4. case_decide as Hd; [subst; naive_solver|done].
  - intros j. change (bundle (set_bundle s b)) with b. rewrite (Hm j). case_decide; [done|]. apply H5.
Qed.

Lemma touch_present_spec s i p : space_ok s → pages s !! i = Some p → is_present p = true →
  ∃ s', touch_present s i p = Ret s' ∧ space_ok s' ∧ same_space s s' ∧ quiet_space s s'.
Proof.
  intros H E Ep. pose proof (page_ok_at s i p H E) as Hok. destruct (page_ok_facts p Hok) as (_ & _ & _ & _ & _ & Hfr).
  specialize (Hfr Ep). unfold touch_present. rewrite assert_bind by lia.
  destruct (decide (transactionState p = inReclaimer)) as [Hr|Hr]; tx_tests.
  - assert (place_of (bundle s) i ≠ Nowhere) as Hp by (apply (inv_place _ _ _ H); split; [done|by exists p]).
    destruct (bumpPage_spec (bundle s) i (inv_bundle _ _ _ H) Hp) as (b & -> & Hb & Hm). cbn [mbind outcome_bind].
    eexists. split; [done|]. split; [by eapply bump_ok|]. split; [done|]. by apply (quiet_ext s s).
  - destruct (decide (transactionState p = performReclaim)) as [Ht|Ht]; tx_tests.
    + destruct (averted_spec s i p H E Ht). eexists. by split_and!.
    + exists s. by split_and!.
Qed.

Lemma request_page_spec s i p : space_ok s → pages s !! i = Some p → discarded p = false →
  (isSwapSpace s = true → swapCopyValid p = true) →
  space_ok (request_page s i p) ∧ same_space s (request_page s i p) ∧ quiet_space s (request_page s i p) ∧
  (∀ j, j ≠ i → pages (request_page s i p) !! j = pages s !! j) ∧
  (is_present p = false → page_at (request_page s i p) i (λ p', is_Some (monitor p'))).
Proof.
  intros H E Hd Hsw. pose proof (page_ok_at s i p H E) as Hok. unfold request_page.
  destruct (negb (is_present p) && is_tx p none) eqn:Ec.
  - apply andb_true_iff in Ec as [Hpr%negb_true_iff Ht%is_tx_true]. cbn [new_monitor].
    set (p1 := set_tx p wantInitialization). set (p2 := set_monitor p1 _).
    assert (space_ok (set_nextMonitor (push_back (set_page s i p2) _initializationList i) (S (nextMonitor s)))) as H1.
    { apply Inv_nextMonitor. apply (put_list [] s i p p2) with (g := GInit); try done.
      - by apply (open_free [] s i p); [| |rewrite Ht|rewrite Ht].
      - subst p2 p1. clear -Hok Ht Hd Hpr. page_solve p. }
    match goal with |- space_ok ?x ∧ _ => set (s' := x) end.
    assert (pages s' = <[i := p2]> (pages s)) as Epg by (simpl; by rewrite insert_insert, decide_True).
    split; [|split; [done|]].
    { eapply Inv_ext; [exact H1|..]; try done. apply H. }
    split; [|split].
    + split; [done|]. intros j. rewrite Epg. destruct (decide (j = i)) as [->|Hne].
      * rewrite lookup_insert, decide_True, E by done. apply quiet_page; [|done|].
        -- intros _. split; [done|]. unfold class_of. simpl. by rewrite Ht.
        -- intros Hs _. unfold swap_page. simpl. by rewrite (Hsw Hs), orb_true_r.
      * by rewrite lookup_insert_ne.
    + intros j Hne. rewrite Epg. by rewrite lookup_insert_ne.
    + intros _. exists p2. rewrite Epg. split; [by rewrite lookup_insert, decide_True|]. by eexists.
  - split_and!; try done. intros Hpr. rewrite Hpr in Ec. simpl in Ec. apply is_tx_false in Ec. exists p. split; [done|].
    destruct (page_ok_facts p Hok) as (_ & _ & _ & Hmo & _). apply Hmo. clear -Hok Hd Hpr Ec. page_solve p.
Qed.

(** A space without a swap view never has discarded pages. *)
Definition no_discards (s : ManagedSpace) : Prop :=
  ∀ j p, pages s !! j = Some p → discarded p = false.
Lemma no_discards_alt s : no_discards s ↔ ∀ j, contents (pages s !! j) ≠ None.
Proof.
  split.
  - intros H j. destruct (pages s !! j) as [p|] eqn:E; [|done]. simpl. by rewrite (H j p E).
  - intros H j p E. specialize (H j). rewrite E in H. simpl in H. by destruct (discarded p).
Qed.
Lemma no_discards_quiet s s' : no_discards s → quiet_space s s' → no_discards s'.
Proof.
  rewrite !no_discards_alt. intros H [_ Hq] j. destruct (Hq j) as [Hc _]. rewrite Hc; [apply H|apply H].
Qed.
Lemma issue_contents sw q q' : issue_step sw q q' → contents q ≠ None → contents q' ≠ None.
Proof.
  intros [[Hc _]|(p & -> & Ht & _ & _ & ->)] Hn; [by rewrite Hc|]. simpl in *. by destruct (discarded p).
Qed.
Lemma quiet_issue sw q1 q2 q3 : quiet sw q1 q2 → issue_step sw q2 q3 → contents q1 ≠ None →
  contents q3 = contents q1 ∨ (contents q1 = Some Unsaved ∧ contents q3 = Some Flying).
Proof.
  intros H1 [H2|(p & -> & Ht & _ & Hst & ->)] Hn.
  - left. assert (quiet sw q1 q3) as [Hc _] by (by trans q2). by apply Hc.
  - right. destruct H1 as (Hc & K & _).
    assert (discarded p = false) as Hd by (specialize (Hc Hn); simpl in Hc; destruct (discarded p); [congruence|done]).
    rewrite <-Hc by done. simpl. rewrite Hd. unfold class_of. simpl. by rewrite Ht, Hst.
Qed.
Lemma issue_swap q q' : issue_step true q q' → swap_opt q = true → swap_opt q' = true.
Proof. intros [(_ & _ & H)|(p & -> & Ht & Hp & _ & ->)] Hq; [by apply H|]. by apply present_swap. Qed.
Lemma issue_lives sw q q' p : issue_step sw q q' → q = Some p → discarded p = false →
  ∃ p', q' = Some p' ∧ discarded p' = false.
Proof.
  intros [(Hc & K & _)|(p0 & -> & Ht & _ & _ & ->)] E Hd.
  - destruct (K p E Hd) as (p' & E' & _). exists p'. split; [done|]. subst. simpl in Hc. rewrite Hd in Hc.
    destruct (discarded p'); [|done]. by specialize (Hc ltac:(done)).
  - injection E as ->. by eexists.
Qed.

Lemma find_or_insert_quiet s i : space_ok s → addable s i → no_discards s →
  ∃ s1, find_or_insert s i = (page_or_new s i, s1) ∧ space_ok s1 ∧ same_space s s1 ∧ quiet_space s s1 ∧
    pages s1 !! i = Some (page_or_new s i) ∧ discarded (page_or_new s i) = false ∧
    (∀ j, j ≠ i → pages s1 !! j = pages s !! j).
Proof.
  intros H Ha Hn. destruct (find_or_insert_spec [] s i H Ha) as (s1 & E1 & H1 & Ep & F1). exists s1.
  assert (quiet (isSwapSpace s) (pages s !! i) (Some (page_or_new s i))) as Hq.
  { unfold page_or_new. destruct (pages s !! i); [done|apply quiet_new]. }
  split; [done|]. split; [done|]. split; [by eapply frame_same|]. split; [by eapply frame_quiet|]. split; [done|].
  split; [unfold page_or_new; destruct (pages s !! i) as [p|] eqn:E; [by apply (Hn i)|done]|].
  intros j Hj. destruct F1 as [F1 _]. by rewrite F1, decide_False.
Qed.

Lemma readahead_loop_spec index steps : ∀ s, space_ok s → isSwapSpace s = false → no_discards s → numPages s ≤ 2 ^ 52 →
  (∀ i, i ∈ steps → u64 (index + i) ≠ index) →
  let s' := readahead_loop s index steps in
  space_ok s' ∧ same_space s s' ∧ quiet_space s s' ∧ pages s' !! index = pages s !! index.
Proof.
  induction steps as [|i steps IH]; intros s H Hs Hn Hlt Hidx; cbn [readahead_loop].
  { by split_and!. }
  destruct (Z.ltb_spec (u64 (index + i)) (numPages s)) as [Hl|Hl]; cbn [negb]; [|by split_and!].
  pose proof (u64_bound (index + i)) as Hub.
  destruct (find_or_insert_quiet s (u64 (index + i)) H) as (s1 & -> & H1 & Hss1 & Hq1 & E1 & Hd1 & Ho1);
    [intros _; split; [lia|done]|done|].
  destruct (request_page_spec s1 _ _ H1 E1 Hd1) as (H2 & Hss2 & Hq2 & Ho2 & _).
  { destruct Hss1 as (-> & _). by rewrite Hs. }
  set (s2 := request_page s1 _ _) in *. assert (same_space s s2) as Hss by (by etrans).
  assert (quiet_space s s2) as Hq by (by etrans).
  destruct (IH s2 H2) as (H' & Hss' & Hq' & Ei).
  - destruct Hss as (-> & _). done.
  - by eapply no_discards_quiet.
  - by destruct Hss as (_ & -> & _).
  - intros j Hj. apply Hidx. by right.
  - split; [done|]. split; [by etrans|]. split; [by etrans|]. rewrite Ei, Ho2, Ho1; [done| |].
    all: intros Hx; by apply (Hidx i); [left|].
Qed.

Lemma Frontal_touchRange_spec s offset flags : space_ok s → isSwapSpace s = false → no_discards s →
  numPages s ≤ 2 ^ 50 → 0 ≤ offset < 2 ^ 64 →
  ∃ r s' s1, Frontal_touchRange s offset flags = Ret (r, s') ∧ space_ok s' ∧ same_space s s' ∧
    quiet_space s s1 ∧ (∀ j, issue_step (isSwapSpace s) (pages s1 !! j) (pages s' !! j)).
Proof.
  intros H Hs Hn Hlt Ho. unfold Frontal_touchRange. rewrite shiftr_pow2 by done. set (index := offset / 2 ^ kPageShift).
  assert (0 ≤ index < 2 ^ 52) as Hix.
  { subst index. change (2 ^ kPageShift) with 4096. split; [apply Z.div_pos; lia|apply Z.div_lt_upper_bound; lia]. }
  destruct (Z.leb_spec (numPages s) index) as [Hle|Hle].
  { eexists _, s, s. split; [done|]. split_and!; try done. intros j. by left. }
  destruct (find_or_insert_quiet s index H) as (s1 & -> & H1 & Hss1 & Hq1 & E1 & Hd1 & Ho1); [intros _; by split|done|].
  destruct (is_present (page_or_new s index)) eqn:Ep.
  { destruct (touch_present_spec s1 index _ H1 E1 Ep) as (s2 & -> & H2 & Hss2 & Hq2). cbn [mbind outcome_bind].
    eexists _, s2, s2. split; [done|]. split; [done|]. split; [by etrans|]. split; [by etrans|]. intros j. by left. }
  destruct (flag flags fetchDisallowBacking).
  { eexists _, s1, s1. split; [done|]. split; [done|]. split; [done|]. split; [done|]. intros j. by left. }
  destruct (request_page_spec s1 index _ H1 E1 Hd1) as (H2 & Hss2 & Hq2 & Ho2 & Hm2).
  { destruct Hss1 as (-> & _). by rewrite Hs. }
  specialize (Hm2 Ep).
  set (s2 := request_page s1 _ _) in *.
  assert (same_space s s2) as Hss by (by etrans). assert (quiet_space s s2) as Hq by (by etrans).
  assert (∃ s3, (if readahead s2 then readahead_loop s2 index [1; 2; 3] else s2) = s3 ∧ space_ok s3 ∧ same_space s2 s3 ∧
    quiet_space s2 s3 ∧ pages s3 !! index = pages s2 !! index) as (s3 & -> & H3 & Hss3 & Hq3 & Ei3).
  { destruct (readahead s2); [|by exists s2]. eexists. split; [done|]. apply readahead_loop_spec; try done.
    - destruct Hss as (-> & _). done.
    - by eapply no_discards_quiet.
    - destruct Hss as (_ & -> & _). lia.
    - intros i Hi. rewrite !elem_of_cons, elem_of_nil in Hi. rewrite u64_small; lia. }
  destruct (progress_step s3 H3) as (s4 & -> & H4 & Hss4 & His & _ & Hmo).
  assert (isSwapSpace s3 = isSwapSpace s) as Esw by (destruct Hss3 as (-> & _); by destruct Hss as (-> & _)). rewrite Esw in His. cbn [mbind outcome_bind].
  destruct Hm2 as (p2 & Ep2 & [m Em]). rewrite <-Ei3 in Ep2. destruct (Hmo index p2 Ep2) as (p4 & -> & Em4).
  cbn [deref mbind outcome_bind]. rewrite Em4, Em. cbn [deref mbind outcome_bind].
  eexists _, s4, s3. split; [done|]. split; [done|]. split; [by etrans; [|etrans]|]. split; [by etrans|done].
Qed.

(** A page gets a frame where it is. *)
Lemma keep_frame fl s i p f : Inv None fl s → pages s !! i = Some p → physical p = noFrame → f ≠ noFrame →
  pfnDb s !! f = None → page_ok (set_physical p f) = true →
  Inv None fl (set_pfnDb (set_page s i (set_physical p f)) (<[f := i]> (pfnDb s))).
Proof.
  intros [H1 H2 H3 H4 H5 H6 H7 H8 H9 H10 H11] E Hno Hf Hdb Hok. set (s' := set_pfnDb _ _).
  assert (∀ j P, (P (set_physical p f) ↔ P p) → page_at s' j P ↔ page_at s j P) as Hat.
  { intros j P HP. etrans; [apply (page_at_insert s i (set_physical p f))|]. destruct (decide (j = i)) as [->|Hne].
    - rewrite (page_at_eq s i p) by done. rewrite <-HP. naive_solver.
    - naive_solver. }
  assert (∀ j q, pages s' !! j = Some q → ∃ q', pages s !! j = Some q') as Hpg.
  { intros j q. simpl. destruct (decide (j = i)) as [->|Hne]; [by eexists|]. rewrite lookup_insert_ne by done. by eexists. }
  split; try done.
  - intros j q Hq _. simpl in Hq. destruct (decide (j = i)) as [->|Hne].
    + rewrite lookup_insert, decide_True in Hq by done. by injection Hq as <-.
    + rewrite lookup_insert_ne in Hq by done. by apply (H1 j).
  - intros g. destruct (H2 g) as [Hn Hg]. split; [done|]. intros j. rewrite Hat by done. apply Hg.
  - intros j. rewrite Hat by done. apply H4.
  - intros f' j. change (pfnDb s') with (<[f := i]> (pfnDb s)).
    pose proof (page_at_insert s i (set_physical p f) j (λ q, physical q = f')) as Hins.
    change (page_at s' j (λ q, physical q = f') ↔ (j = i ∧ f = f') ∨ (j ≠ i ∧ page_at s j (λ q, physical q = f'))) in Hins.
    rewrite Hins.
    destruct (decide (f' = f)) as [->|Hne].
    + rewrite lookup_insert, decide_True by done. split; [intros [= <-]; split; [done|by left]|].
      intros (_ & [[-> _]|[Hj Hp]]); [done|]. assert (pfnDb s !! f = Some j) by (by apply H6). congruence.
    + rewrite lookup_insert_ne by done. rewrite H6. split; intros [Hf' Hj]; (split; [done|]).
      * right. split; [|done]. intros ->. rewrite (page_at_eq s i p) in Hj by done. congruence.
      * destruct Hj as [[-> Hj]|[_ Hj]]; [congruence|done].
  - intros j q Hq. destruct (Hpg j q Hq) as [q' Hq']. by apply (H7 j q').
  - change (claimed_pages s') with (claimed_pages (set_page s i (set_physical p f))). by rewrite (claimed_insert s i p).
  - intros Hs. destruct (H10 Hs) as (G & W & B & S & [N1 N2] & Hp). split_and!; try done. intros j q Hq.
    destruct (Hpg j q Hq) as [q' Hq']. by apply (Hp j q').
Qed.

Lemma Backing_touchRange_spec s offset frame : space_ok s →
  addable s (Z.shiftr offset kPageShift) ∨ backingMemoryLength ≤ offset →
  (isSwapSpace s = true → page_at s (Z.shiftr offset kPageShift) (λ p, transactionState p ≠ none)) →
  frame ≠ noFrame → pfnDb s !! frame = None →
  ∃ r s', Backing_touchRange s offset frame = Ret (r, s') ∧ space_ok s' ∧ same_space s s' ∧ quiet_space s s'.
Proof.
  intros H Ha Hsw Hf Hdb. unfold Backing_touchRange.
  destruct (Z.leb_spec backingMemoryLength offset) as [Hle|Hle]; [eexists _, s; by split_and!|].
  destruct Ha as [Ha|?]; [|lia]. set (i := Z.shiftr offset kPageShift) in *.
  destruct (find_or_insert_spec [] s i H Ha) as (s1 & E1 & H1 & Ep & F1). rewrite E1.
  assert (quiet_space s s1) as Hq1.
  { eapply frame_quiet; [done|]. unfold page_or_new. destruct (pages s !! i); [done|apply quiet_new]. }
  generalize dependent (page_or_new s i). intros p E1 Ep F1. pose proof (page_ok_at s1 i p H1 Ep) as Hok.
  destruct (Z.eqb_spec (physical p) noFrame) as [Hno|Hno]; cbn [mbind outcome_bind].
  2: { eexists _, s1. split; [done|]. split; [done|]. split; [by eapply frame_same|done]. }
  rewrite assert_bind by lia. cbn [mbind outcome_bind].
  assert (pfnDb s1 = pfnDb s) as Edb by (revert E1; unfold find_or_insert; destruct (pages s !! i); by intros [= _ <-]).
  assert (class_of p = Clean) as Hcl.
  { clear -Hok Hno. unfold class_of. page_solve p. }
  eexists _, _. split; [done|]. split.
  - apply (keep_frame [] s1 i p frame); try done; [by rewrite Edb|]. clear -Hok Hno Hf. page_solve p.
  - split; [etrans; [by eapply frame_same|done]|]. etrans; [done|].
    apply (frame_quiet s1 _ i (Some (set_physical p frame))); [apply (frame_set_page s1)|]. rewrite Ep.
    apply quiet_page; [done|by rewrite Hcl|]. intros Hs. destruct F1 as (F1 & Fs & _). rewrite Fs in Hs.
    destruct (Hsw Hs) as (p0 & E0 & Ht0). assert (p0 = p) as ->.
    { revert E1. unfold find_or_insert. rewrite E0. by intros [= -> _]. }
    unfold swap_page. simpl. unfold is_tx. simpl. by rewrite (bool_decide_false _ Ht0).
Qed.
