(* ===== verification/SwapView.v ===== *)
(** * Anonymous memory on a swap space

    The operations of [SwappableMemory]: every view translates its pages to swap
    offsets of its own, and every operation keeps the swap space consistent. *)
From Stdlib Require Import ZArith Lia ZifyBool.
From stdpp Require Import base list numbers option gmap fin_maps functions sorting.
From S2P Require Import Prelude PageConsts Buddy Reclaimer ManagedSpace ManagedInv ManagedOps.
Open Scope Z_scope.

(** The swap offsets of a view are pages of the space that are not discarded, no two
    pages of the view share one. *)
Definition view_pages (v : SwappableMemory) (s : ManagedSpace) : Prop :=
  ∀ index o, _table v !! index = Some o → page_at s o (λ p, discarded p = false).
Definition view_inj (v : SwappableMemory) : Prop :=
  ∀ i j o, _table v !! i = Some o → _table v !! j = Some o → i = j.

Lemma lives_on s s' o : quiet_space s s' → page_at s o (λ p, discarded p = false) →
  page_at s' o (λ p, discarded p = false).
Proof.
  intros [_ Hq] (p & E & Hd). destruct (Hq o) as (Hc & K & _). destruct (K p E Hd) as (p' & E' & _). exists p'. split; [done|].
  rewrite E, E' in Hc. simpl in Hc. rewrite Hd in Hc. destruct (discarded p'); [|done]. by specialize (Hc ltac:(done)).
Qed.
Lemma view_pages_quiet v s s' : view_pages v s → quiet_space s s' → view_pages v s'.
Proof. intros H Hq i o Ho. eapply lives_on; [done|]. by apply (H i). Qed.

Lemma set_buddy_Inv s b : space_ok s → isSwapSpace s = true → swap_ok b →
  numRoots b = numRoots (_buddyAccessor s) → tableOrder b = tableOrder (_buddyAccessor s) →
  (∀ j, allocated (_buddyAccessor s) 0 j → allocated b 0 j) → space_ok (set_buddyAccessor s b).
Proof.
  intros [H1 H2 H3 H4 H5 H6 H7 H8 H9 H10 H11] Hs (G' & W' & B' & S') Er Et Hk. split; try done.
  intros _. destruct (H10 Hs) as (G & W & B & S & [N1 N2] & Hp). simpl. rewrite Er, Et. split_and!; try done.
  intros j p E. destruct (Hp j p E). split; [by apply Hk|done].
Qed.

Lemma translate_spec v s index : space_ok s → isSwapSpace s = true → view_pages v s → view_inj v →
  ∃ r v' s', _translate v s index = Ret (r, v', s') ∧ space_ok s' ∧ same_space s s' ∧ quiet_space s s' ∧
    view_pages v' s' ∧ view_inj v' ∧ _length v' = _length v ∧
    (∀ o, r = Some o → _table v' !! index = Some o ∧ pages s' !! o = Some (page_or_new s o)) ∧
    (∀ i o, _table v !! i = Some o → _table v' !! i = Some o) ∧
    (∀ i, i ≠ index → _table v' !! i = _table v !! i) ∧
    (∀ i o, _table v' !! i = Some o → _table v !! i = Some o ∨ pages s !! o = None) ∧
    (∀ j, is_Some (pages s !! j) → pages s' !! j = pages s !! j) ∧ pfnDb s' = pfnDb s.
Proof.
  intros H Hs Hv Hi. unfold _translate. destruct (_table v !! index) as [o|] eqn:Et.
  { exists (Some o), v, s. split; [done|]. split_and!; try done; [|by left]. intros o' [= <-]. split; [done|].
    destruct (Hv index o Et) as (p & E & _). unfold page_or_new. by rewrite E. }
  unfold _allocateOffset. destruct (inv_swap _ _ _ H Hs) as (G & W & B & S & [N1 N2] & Hp).
  destruct (allocate_offset (_buddyAccessor s)) as (r & b & -> & Hb & Hr); [by split_and!|].
  cbn [mbind outcome_bind]. destruct Hr as [[-> ->]|(Hill & A & Hna & Er & Eto & Hk)].
  - rewrite Z.eqb_refl. cbn [mbind outcome_bind]. exists None, v, (set_buddyAccessor s (_buddyAccessor s)).
    split; [done|]. split; [by destruct s|]. split; [done|]. split; [by apply (quiet_ext s s)|].
    split_and!; try done. by left.
  - rewrite (proj2 (Z.eqb_neq _ _)) by done. cbn [mbind outcome_bind].
    assert (pages s !! r = None) as Hnone.
    { destruct (pages s !! r) as [p|] eqn:E; [|done]. by destruct (Hp r p E) as [? _]. }
    change (pages (set_buddyAccessor s b)) with (pages s). rewrite assert_bind by (by apply bool_decide_true).
    unfold find_or_insert. change (pages (set_buddyAccessor s b)) with (pages s). rewrite Hnone.
    assert (0 ≤ r < numPages s) as Hrange.
    { apply allocated_page in A as [[_ Hr'] _]. rewrite Er, Eto, Z.sub_0_r in Hr'. lia. }
    assert (space_ok (set_page (set_buddyAccessor s b) r new_page)) as H1.
    { apply insert_new; [by apply set_buddy_Inv|done|lia|]. intros _. split; [done|simpl; lia]. }
    assert (quiet_space s (set_page (set_buddyAccessor s b) r new_page)) as Hq.
    { apply (frame_quiet s _ r (Some new_page)); [apply (frame_set_page (set_buddyAccessor s b))|].
      rewrite Hnone. apply quiet_new. }
    eexists _, _, _. split; [done|]. split; [done|]. split; [done|]. split; [done|]. cbn [_table _length].
    assert (∀ i o, <[index := r]> (_table v) !! i = Some o → (i = index ∧ o = r) ∨ (i ≠ index ∧ _table v !! i = Some o)) as Hins.
    { intros i o Ho. destruct (decide (i = index)) as [->|Hne].
      - left. rewrite lookup_insert, decide_True in Ho by done. by injection Ho.
      - right. by rewrite lookup_insert_ne in Ho. }
    split; [|split; [|split; [done|split; [|split; [|split; [|split; [|split; [|done]]]]]]]].
    + intros i o Ho. destruct (Hins i o Ho) as [[-> ->]|[_ Ho']].
      * exists new_page. split; [simpl; by rewrite lookup_insert, decide_True|done].
      * eapply lives_on; [done|]. by apply (Hv i).
    + intros i j o Ho1 Ho2. destruct (Hins i o Ho1) as [[-> ->]|[Hn1 Ho1']], (Hins j _ Ho2) as [[-> ?]|[Hn2 Ho2']]; try done.
      * destruct (Hv j r Ho2') as (q & Eq & _). congruence.
      * subst. destruct (Hv i r Ho1') as (q & Eq & _). congruence.
      * by apply (Hi i j o).
    + intros o [= <-]. split; [by rewrite lookup_insert, decide_True|]. unfold page_or_new. rewrite Hnone.
      simpl. by rewrite lookup_insert, decide_True.
    + intros i o Ho. rewrite lookup_insert_ne; [done|]. intros ->. congruence.
    + intros i Hne. by rewrite lookup_insert_ne.
    + intros i o Ho. destruct (Hins i o Ho) as [[-> ->]|[_ Ho']]; [by right|by left].
    + intros j [q Hq']. simpl. rewrite lookup_insert_ne; [done|]. intros ->. congruence.
Qed.

(** ** Locking *)
Definition locked_pages (v : SwappableMemory) (s : ManagedSpace) (indices : list Z) : Prop :=
  ∀ i, i ∈ indices → ∃ o, _table v !! i = Some o ∧ page_at s o (λ p, 0 < lockCount p).

Lemma unlockPagesLocked_spec v indices : ∀ s rd ry, view_inj v → space_ok s → NoDup indices → locked_pages v s indices →
  ∃ rd' ry' s', _unlockPagesLocked v s indices rd ry = Ret (rd', ry', s') ∧ space_ok s' ∧ same_space s s' ∧ quiet_space s s'.
Proof.
  induction indices as [|i indices IH]; intros s rd ry Hi H Hnd Hall; cbn [_unlockPagesLocked].
  { by exists rd, ry, s. }
  apply list.NoDup_cons in Hnd as [Hni Hnd]. destruct (Hall i) as (o & Eo & p & E & Hl); [by left|].
  rewrite Eo. cbn [deref mbind outcome_bind].
  destruct (unlockPage_spec [] s o p H E Hl) as (q & e & s1 & -> & H1 & F1). cbn [mbind outcome_bind].
  destruct (IH s1 (rd || q) (ry || e) Hi H1 Hnd) as (rd' & ry' & s' & -> & H' & Hss & Hq).
  - intros j Hj. destruct (Hall j) as (oj & Ej & pj & Epj & Hlj); [by right|]. exists oj. split; [done|]. exists pj.
    split; [|done]. destruct F1 as (F1 & _). rewrite F1, decide_False; [done|]. intros ->. by rewrite (Hi j i o Ej Eo) in Hj.
  - exists rd', ry', s'. split; [done|]. split; [done|]. split; [etrans; [by eapply frame_same|done]|].
    etrans; [|done]. eapply frame_quiet; [done|]. rewrite E. eapply released_quiet. by left.
Qed.

Lemma locked_pages_frame v s s' i o p' indices : _table v !! i = Some o →
  frame_on s s' o (Some p') → 0 < lockCount p' → locked_pages v s indices → locked_pages v s' (indices ++ [i]).
Proof.
  intros Ho F Hp' Hl j [Hj|Hj%list_elem_of_singleton]%elem_of_app.
  - destruct (Hl j Hj) as (oj & Ej & pj & Epj & Hlj). exists oj. split; [done|]. destruct F as [F _]. unfold page_at.
    rewrite F. case_decide as Hd; [by exists p'|by exists pj].
  - subst j. exists o. split; [done|]. exists p'. split; [|done]. destruct F as [F _]. by rewrite F, decide_True.
Qed.

(** No page of the range is at the limit of its lock count. *)
Definition swap_lock_room (v : SwappableMemory) (s : ManagedSpace) (indices : list Z) : Prop :=
  ∀ i o p, i ∈ indices → _table v !! i = Some o → pages s !! o = Some p → lockCount p + 1 < 2 ^ 32.

Lemma swap_lock_loop_spec indices : ∀ v s locked, space_ok s → isSwapSpace s = true → view_pages v s → view_inj v →
  NoDup (locked ++ indices) → locked_pages v s locked → swap_lock_room v s indices →
  ∃ e rd ry v' s', swap_lock_loop v s locked indices = Ret (e, rd, ry, v', s') ∧ space_ok s' ∧ same_space s s' ∧
    quiet_space s s' ∧ view_pages v' s' ∧ view_inj v' ∧ _length v' = _length v ∧
    (∀ i o, _table v' !! i = Some o → _table v !! i = Some o ∨ pages s !! o = None).
Proof.
  induction indices as [|i indices IH]; intros v s locked H Hs Hv Hi Hnd Hl Hroom; cbn [swap_lock_loop].
  { exists E_success, false, false, v, s. split; [done|]. split_and!; try done. by left. }
  destruct (translate_spec v s i H Hs Hv Hi) as
    (r & v1 & s1 & -> & H1 & Hss1 & Hq1 & Hv1 & Hi1 & El & Hr & Hext & Hoth & Hnew & Hpg & _). cbn [mbind outcome_bind].
  assert (locked_pages v1 s1 locked) as Hl1.
  { intros j Hj. destruct (Hl j Hj) as (oj & Ej & pj & Epj & Hlj). exists oj. split; [by apply Hext|].
    exists pj. split; [by rewrite Hpg by (by eexists)|done]. }
  destruct r as [o|].
  2: { destruct (unlockPagesLocked_spec v1 locked s1 false false Hi1 H1) as (rd & ry & s2 & -> & H2 & Hss2 & Hq2); [|done|].
       - by apply list.NoDup_app in Hnd as (? & _ & _).
       - cbn [mbind outcome_bind]. exists E_noMemory, rd, ry, v1, s2. split; [done|]. split; [done|].
         split; [by etrans|]. split; [by etrans|]. split; [by eapply view_pages_quiet|]. done. }
  destruct (Hr o eq_refl) as [Ho Ep]. rewrite assert_bind by (apply bool_decide_true; by rewrite Ep).
  remember (page_or_new s o) as p eqn:Epn.
  assert (lockCount p + 1 < 2 ^ 32 ∧ 0 ≤ lockCount p) as [Hlt H0].
  { split; [|by apply page_ok_facts, (page_ok_at s1 o)]. destruct (pages s !! o) as [p0|] eqn:E0.
    - assert (p0 = p) as -> by (rewrite Hpg in Ep by (by eexists); congruence).
      destruct (Hnew i o Ho) as [Ho'|?]; [|congruence]. by apply (Hroom i o p); [left|..].
    - rewrite Epn. unfold page_or_new. rewrite E0. simpl. lia. }
  destruct (lockPage_spec [] s1 o p H1) as (s2 & -> & H2 & F2).
  { intros Hx. congruence. } { unfold page_or_new. by rewrite Ep. } { done. }
  cbn [mbind outcome_bind]. set (p' := set_tx (set_lockCount p (lockCount p + 1)) (retained_tx (transactionState p))) in *.
  assert (quiet_space s1 s2) as Hq2.
  { eapply frame_quiet; [done|]. rewrite Ep. eapply retained_quiet; [by apply (page_ok_at s1 o)|by left]. }
  assert (same_space s1 s2) as Hss2 by (by eapply frame_same).
  destruct (IH v1 s2 (locked ++ [i])) as (e & rd & ry & v' & s' & -> & H' & Hss' & Hq' & Hv' & Hi' & El' & Hnew').
  - done.
  - destruct Hss2 as (-> & _). by destruct Hss1 as (-> & _).
  - by eapply view_pages_quiet.
  - done.
  - by rewrite <-app_assoc.
  - apply (locked_pages_frame v1 s1 s2 i o p'); try done. simpl. lia.
  - intros j oj pj Hj Ej Epj. destruct F2 as [F2 _]. rewrite F2 in Epj. case_decide as Hd.
    + subst oj. exfalso. assert (j = i) as -> by (by apply (Hi1 j i o)).
      apply list.NoDup_app in Hnd as (_ & _ & [Hni _]%list.NoDup_cons). done.
    + rewrite Hoth in Ej by (intros ->; apply list.NoDup_app in Hnd as (_ & _ & [Hni _]%list.NoDup_cons); done).
      apply (Hroom j oj pj); [by right|done|]. destruct (Hv j oj Ej) as (p0 & E0 & _). by rewrite <-Hpg by (by eexists).
  - exists e, rd, ry, v', s'. split; [done|]. split; [done|]. split; [by etrans; [|etrans]|].
    split; [by etrans; [|etrans]|]. split; [done|]. split; [done|]. split; [congruence|].
    intros j oj Hj. destruct (Hnew' j oj Hj) as [Hj1|Hn]; [by apply Hnew|]. right.
    destruct F2 as [F2 _]. rewrite F2 in Hn. case_decide; [done|]. destruct (pages s !! oj) eqn:Eo; [|done].
    rewrite Hpg in Hn by (by eexists). congruence.
Qed.

Lemma swap_indices_pages offset size : 0 ≤ offset → 0 ≤ size < 2 ^ 64 → swap_indices offset size = page_indices offset size.
Proof.
  intros Ho Hs. unfold swap_indices, page_indices. apply list_fmap_ext. intros k pg _. by rewrite shiftr_pow2.
Qed.

Lemma Swap_lockRange_spec v s offset size : space_ok s → isSwapSpace s = true → view_pages v s → view_inj v →
  0 ≤ offset → 0 ≤ size < 2 ^ 64 → swap_lock_room v s (swap_indices offset size) →
  ∃ e v' s', Swap_lockRange v s offset size = Ret (e, v', s') ∧ space_ok s' ∧ same_space s s' ∧ quiet_space s s' ∧
    view_pages v' s' ∧ view_inj v' ∧ (∀ i o, _table v' !! i = Some o → _table v !! i = Some o ∨ pages s !! o = None).
Proof.
  intros H Hs Hv Hi Ho Hsz Hroom. unfold Swap_lockRange. destruct (_length v <? _).
  { eexists _, v, s. split; [done|]. split_and!; try done. by left. }
  destruct (swap_lock_loop_spec (swap_indices offset size) v s [] H Hs Hv Hi) as
    (e & rd & ry & v' & s' & -> & H' & Hss & Hq & Hv' & Hi' & _ & Hnew); try done.
  { simpl. rewrite swap_indices_pages by done. by apply page_indices_NoDup. }
  { intros i Hx. by apply elem_of_nil in Hx. }
  cbn [mbind outcome_bind]. eexists _, v', _. split; [done|]. split; [by apply Inv_emit_if, Inv_emit_if|].
  destruct rd, ry; by split_and!.
Qed.

Lemma Swap_unlockRange_spec v s offset size : space_ok s → view_inj v → 0 ≤ offset → 0 ≤ size < 2 ^ 64 →
  u64 (offset + size) ≤ _length v → locked_pages v s (swap_indices offset size) →
  ∃ s', Swap_unlockRange v s offset size = Ret s' ∧ space_ok s' ∧ same_space s s' ∧ quiet_space s s'.
Proof.
  intros H Hi Ho Hsz Hlen Hl. unfold Swap_unlockRange. rewrite assert_bind by lia.
  destruct (unlockPagesLocked_spec v (swap_indices offset size) s false false Hi H) as (rd & ry & s' & -> & H' & Hss & Hq); try done.
  { rewrite swap_indices_pages by done. by apply page_indices_NoDup. }
  cbn [mbind outcome_bind]. eexists. split; [done|]. split; [by apply Inv_emit_if, Inv_emit_if|]. destruct rd, ry; by split.
Qed.

(** ** Peeking and touching *)
Lemma Swap_peekRange_spec v s offset : space_ok s → view_pages v s →
  ∃ r s', Swap_peekRange v s offset = Ret (r, s') ∧ space_ok s' ∧ same_space s s' ∧ quiet_space s s'.
Proof.
  intros H Hv. unfold Swap_peekRange. destruct (_ <=? _); [eexists _, s; by split_and!|].
  destruct (_table v !! _) as [o|] eqn:Eo; [|eexists _, s; by split_and!].
  destruct (Hv _ o Eo) as (p & E & Hd). rewrite E. cbn [deref mbind outcome_bind].
  destruct (peek_page_spec s o (Z.land offset (kPageSize - 1)) p H E) as (r & s' & -> & H' & Hss & Hq & _). by exists r, s'.
Qed.

(** Every page of a swap space, discarded ones aside. *)
Definition swap_pages (s : ManagedSpace) : Prop := ∀ j, swap_opt (pages s !! j) = true.

Lemma swap_pages_quiet s s' : isSwapSpace s = true → swap_pages s → quiet_space s s' → swap_pages s'.
Proof. intros Hs H [_ Hq] j. destruct (Hq j) as (_ & _ & Hsw). rewrite Hs in Hsw. by apply Hsw. Qed.

(** The zero-filled page. *)
Definition zeroed_page (p : ManagedPage) (frame : Z) : ManagedPage :=
  settled_page (set_loadState (set_physical p frame) present).

Lemma zero_fill_spec s o p frame : space_ok s → pages s !! o = Some p → discarded p = false →
  transactionState p = none → physical p = noFrame → frame ≠ noFrame → pfnDb s !! frame = None →
  ∃ s', settle (set_pfnDb s (<[frame := o]> (pfnDb s))) o (set_loadState (set_physical p frame) present) = Ret s' ∧
    space_ok s' ∧ frame_on s s' o (Some (zeroed_page p frame)).
Proof.
  intros H E Hd Ht Hno Hf Hdb. pose proof (page_ok_at s o p H E) as Hok.
  destruct (page_ok_facts p Hok) as (L & U & Hfo & _ & _ & _).
  set (p1 := set_physical p frame). set (p2 := set_loadState p1 present).
  assert (Inv (Some o) [] (set_pfnDb (set_page s o p1) (<[frame := o]> (pfnDb s)))) as H1.
  { apply (take_frame [] s o p p1); try done. by apply (open_free [] s o p); [| |rewrite Ht|rewrite Ht]. }
  destruct (settle_ok [] _ o p1 p2 H1) as (s1 & E1 & F1 & Hs1); try done.
  { simpl. by rewrite lookup_insert, decide_True. }
  { pose proof (settled_ok p2) as Hset. replace (settled_page p2) with (set_monitor (settled_page p2) None).
    - apply Hset; try done. apply (not_stillDirty p); [done| |]; by rewrite Ht.
    - unfold settled_page, set_monitor, set_tx. simpl. f_equal. symmetry. apply (no_monitor p); [done|by rewrite Ht]. }
  assert (∃ s', settle (set_pfnDb s (<[frame := o]> (pfnDb s))) o p2 = Ret s' ∧ pages s' = pages s1 ∧
    (∀ l, lists s' l = lists s1 l) ∧ bundle s' = bundle s1 ∧ pfnDb s' = pfnDb s1 ∧ isSwapSpace s' = isSwapSpace s1 ∧
    numPages s' = numPages s1 ∧ _buddyAccessor s' = _buddyAccessor s1 ∧ _budgetClaimed s' = _budgetClaimed s1 ∧
    _budget s' = _budget s1 ∧ readahead s' = readahead s1) as (s' & E' & G1 & G2 & G3 & G4 & G5 & G6 & G7 & G8 & G9 & G10).
  { revert E1. unfold settle, reclaimer_add. simpl. destruct (in_use p2).
    - intros [= <-]. eexists. split; [done|]. simpl. by rewrite insert_insert, decide_True.
    - destruct (addPage (bundle s) o); [|done]. simpl. intros [= <-]. eexists. split; [done|]. simpl.
      by rewrite insert_insert, decide_True. }
  exists s'. split; [done|]. split.
  - eapply Inv_ext; [exact Hs1|..]; try done. rewrite G9. apply Hs1.
  - eapply frame_ext; [|done..]. eapply frame_base; [exact F1|..]; try done. intros j Hj. simpl. by rewrite lookup_insert_ne.
Qed.

Lemma Swap_touchRange_spec v s offset flags frame : space_ok s → isSwapSpace s = true → swap_pages s →
  view_pages v s → view_inj v → (frame ≠ noFrame → pfnDb s !! frame = None) →
  ∃ r v' s' s1, Swap_touchRange v s offset flags frame = Ret (r, v', s') ∧ space_ok s' ∧ same_space s s' ∧
    quiet_space s s1 ∧ (∀ j, issue_step true (pages s1 !! j) (pages s' !! j)) ∧ isSwapSpace s1 = true ∧
    view_pages v' s1 ∧ view_inj v' ∧ (∀ i o, _table v' !! i = Some o → _table v !! i = Some o ∨ pages s !! o = None) ∧
    (r = TouchRetry → frame = noFrame).
Proof.
  intros H Hs Hsw Hv Hi Hfr. unfold Swap_touchRange. destruct (_ <=? _).
  { eexists _, v, s, s. split; [done|]. split_and!; try done; [by left|by left]. }
  destruct (translate_spec v s (Z.shiftr offset kPageShift) H Hs Hv Hi) as
    (r & v1 & s1 & Etr & H1 & Hss1 & Hq1 & Hv1 & Hi1 & El & Hr & Hext & Hoth & Hnew & Hpg & Edb).
  rewrite Etr. cbn [mbind outcome_bind].
  assert (isSwapSpace s1 = true) as Hs1 by (by destruct Hss1 as (-> & _)).
  assert (∀ r' s2, space_ok s2 → same_space s1 s2 → quiet_space s1 s2 → (r' = TouchRetry → frame = noFrame) →
    ∃ r v' s' s3, Ret (r', v1, s2) = Ret (r, v', s') ∧ space_ok s' ∧ same_space s s' ∧ quiet_space s s3 ∧
      (∀ j, issue_step true (pages s3 !! j) (pages s' !! j)) ∧ isSwapSpace s3 = true ∧ view_pages v' s3 ∧ view_inj v' ∧
      (∀ i o, _table v' !! i = Some o → _table v !! i = Some o ∨ pages s !! o = None) ∧
      (r = TouchRetry → frame = noFrame)) as Hdone.
  { intros r' s2 H2 Hss2 Hq2 Hret. exists r', v1, s2, s2. split; [done|]. split; [done|]. split; [by etrans|].
    split; [by etrans|]. split; [by left|]. split; [by destruct Hss2 as (-> & _)|]. split; [by eapply view_pages_quiet|]. done. }
  destruct r as [o|]; [|by apply Hdone]. destruct (Hr o eq_refl) as [Ho Ep].
  remember (page_or_new s o) as p eqn:Epn. rewrite Ep. cbn [deref mbind outcome_bind].
  destruct (Hv1 _ o Ho) as (p0 & E0 & Hd). assert (p0 = p) as -> by congruence.
  pose proof (page_ok_at s1 o p H1 Ep) as Hok.
  destruct (is_present p) eqn:Epr.
  { destruct (touch_present_spec s1 o p H1 Ep Epr) as (s2 & -> & H2 & Hss2 & Hq2). cbn [mbind outcome_bind]. by apply Hdone. }
  assert (swap_page p = true) as Hswp.
  { pose proof (swap_pages_quiet s s1 Hs Hsw Hq1 o) as Hx. by rewrite Ep in Hx. }
  unfold swap_page in Hswp. rewrite Epr, Hd in Hswp. simpl in Hswp.
  destruct (swapCopyValid p) eqn:Ecv; cbn [negb].
  2: { destruct (is_tx p none) eqn:Etx; [|done]. apply is_tx_true in Etx. rewrite assert_bind by done.
       destruct (Z.eqb_spec frame noFrame) as [Hf|Hf]; cbn [negb]; [by apply Hdone|].
       destruct (zero_fill_spec s1 o p frame H1 Ep Hd Etx) as (s2 & -> & H2 & F2); [lia|done|rewrite Edb; by apply Hfr|].
       cbn [mbind outcome_bind]. apply Hdone; try done; [by eapply frame_same|].
       eapply frame_quiet; [done|]. rewrite Ep. apply quiet_page.
       - intros _. split; [done|]. unfold class_of. simpl. rewrite Etx. by destruct (in_use _).
       - unfold class_of. by rewrite Etx.
       - intros _ _. by apply present_swap. }
  destruct (flag flags fetchDisallowBacking); [by apply Hdone|].
  destruct (request_page_spec s1 o p H1 Ep Hd) as (H2 & Hss2 & Hq2 & Ho2 & Hm2); [done|]. specialize (Hm2 Epr).
  set (s2 := request_page s1 o p) in *.
  destruct (progress_step s2 H2) as (s3 & -> & H3 & Hss3 & His & _ & Hmo). cbn [mbind outcome_bind].
  destruct Hm2 as (p2 & Ep2 & [m Em]). destruct (Hmo o p2 Ep2) as (p3 & -> & Em3).
  cbn [deref mbind outcome_bind]. rewrite Em3, Em. cbn [deref mbind outcome_bind].
  assert (isSwapSpace s2 = true) as Hs2 by (by destruct Hss2 as (-> & _)). rewrite Hs2 in His.
  eexists _, v1, s3, s2. split; [done|]. split; [done|]. split; [by etrans; [|etrans]|]. split; [by etrans|].
  split; [done|]. split; [done|]. split; [by eapply view_pages_quiet|]. done.
Qed.

(** ** Destruction *)
Lemma elem_table_values v o : o ∈ table_values v ↔ ∃ i, _table v !! i = Some o.
Proof.
  unfold table_values. rewrite list_elem_of_fmap. setoid_rewrite (merge_sort_Permutation key_le). split.
  - intros ([i o'] & -> & H%elem_of_map_to_list). by exists i.
  - intros [i H]. exists (i, o). split; [done|]. by apply elem_of_map_to_list.
Qed.
Lemma NoDup_table_values v : view_inj v → NoDup (table_values v).
Proof.
  intros Hi. unfold table_values. rewrite (merge_sort_Permutation key_le).
  apply NoDup_fmap_2_strong; [|apply NoDup_map_to_list].
  intros [i o] [j o'] H1%elem_of_map_to_list H2%elem_of_map_to_list Heq. simpl in Heq. subst o'.
  by rewrite (Hi i j o H1 H2).
Qed.

Definition discardable (p : ManagedPage) : Prop :=
  discarded p = false ∧ transactionState p ≠ wantInitialization ∧ transactionState p ≠ initialization.

Lemma discard_loop_spec offsets : ∀ s, space_ok s → NoDup offsets → (∀ o, o ∈ offsets → page_at s o discardable) →
  ∃ s', discard_loop s offsets = Ret s' ∧ space_ok s' ∧ same_space s s' ∧
    (∀ j, j ∉ offsets → pages s' !! j = pages s !! j) ∧
    (∀ j p, j ∈ offsets → pages s' !! j = Some p → discarded p = true).
Proof.
  induction offsets as [|o offsets IH]; intros s H Hnd Hall; cbn [discard_loop].
  { exists s. split_and!; try done. intros j p Hj. by apply elem_of_nil in Hj. }
  apply list.NoDup_cons in Hnd as [Ho Hnd]. destruct (Hall o) as (p & E & Hd & Ht1 & Ht2); [by left|].
  destruct (discardPage_spec [] s o p H E Hd Ht1 Ht2) as (s1 & -> & H1 & F1). cbn [mbind outcome_bind].
  destruct F1 as (F1 & Fs). destruct (IH s1 H1 Hnd) as (s' & -> & H' & Hss & Hoth & Hdis).
  { intros j Hj. destruct (Hall j) as (pj & Ej & Hpj); [by right|]. exists pj. split; [|done].
    rewrite F1, decide_False; [done|]. by intros ->. }
  exists s'. split; [done|]. split; [done|]. split; [by etrans|]. split.
  - intros j [Hj1 Hj2]%not_elem_of_cons. rewrite Hoth by done. by rewrite F1, decide_False.
  - intros j pj [->|Hj]%elem_of_cons; [|by apply Hdis]. rewrite Hoth by done. rewrite F1, decide_True by done.
    unfold discarded_page, dispose_page. simpl. repeat case_match; try done; by intros [= <-].
Qed.

Lemma Swap_destruct_spec v s : space_ok s → view_inj v →
  (∀ i o, _table v !! i = Some o → page_at s o discardable) →
  ∃ s', Swap_destruct v s = Ret s' ∧ space_ok s' ∧ same_space s s' ∧
    (∀ j, j ∉ table_values v → pages s' !! j = pages s !! j) ∧
    (∀ j p, j ∈ table_values v → pages s' !! j = Some p → discarded p = true).
Proof.
  intros H Hi Hall. unfold Swap_destruct.
  destruct (discard_loop_spec (table_values v) s H (NoDup_table_values v Hi)) as (s1 & -> & H1 & Hss & Hoth & Hdis).
  { intros o [i Ho]%elem_table_values. by apply (Hall i). }
  cbn [mbind outcome_bind]. exists (_wakeDrain s1). split; [done|]. split; [by apply Inv_emit, Inv_drainBlocked|]. done.
Qed.
