(* ===== verification/PageCache.v ===== *)
(** * The page cache as a system

    A managed space with its two coroutines, its memory views and the servers and
    clients that call them, as a transition system: every event is one critical section
    of ManagedSpace.v.  The events come in any order; what the callers owe is [enabled]. *)
From Stdlib Require Import ZArith Lia ZifyBool.
From stdpp Require Import base list numbers option gmap fin_maps functions sorting.
From S2P Require Import Prelude PageConsts Buddy Reclaimer ManagedSpace ManagedInv ManagedOps SwapView.
Open Scope Z_scope.

(** [reclaimFlags] are the local flags of [_runReclaimLoop]. *)
Record System := MkSystem {
  space : ManagedSpace;
  reclaimFlags : bool * bool * bool;
  views : gmap Z SwappableMemory;
}.
Definition set_space (y : System) (s : ManagedSpace) : System := MkSystem s (reclaimFlags y) (views y).
Definition set_view (y : System) (k : Z) (v : SwappableMemory) (s : ManagedSpace) : System :=
  MkSystem s (reclaimFlags y) (<[k := v]> (views y)).

Inductive event :=
| EvBackLock (offset size : Z) | EvFrontLock (offset size : Z) | EvUnlock (offset size : Z)
| EvIncUses (i : Z) | EvDecUses (i : Z) | EvMarkDirty (i : Z)
| EvRotate | EvReclaimCollect | EvReclaimStep | EvDrainCollect | EvDrainFinish
| EvSubmit (node : Z) | EvUpdate (type : ManageRequest) (offset length : Z)
| EvBackTouch (offset frame : Z) | EvFrontTouch (offset flags : Z) | EvFrontPeek (offset : Z)
| EvResize (newSize : Z) | EvSetBudget (numSlots : Z)
| EvSwapCreate (k length : Z) | EvSwapResize (k newSize : Z) | EvSwapDestroy (k : Z)
| EvSwapLock (k offset size : Z) | EvSwapUnlock (k offset size : Z)
| EvSwapPeek (k offset : Z) | EvSwapTouch (k offset flags frame : Z)
| EvInvalidate (i : Z) | EvInvalidateFinish (i : Z).

Definition exec (y : System) (e : event) : outcome System :=
  let s := space y in
  match e with
  | EvBackLock offset size => '(_, s) ← Backing_lockRange s offset size; Ret (set_space y s)
  | EvFrontLock offset size => '(_, s) ← Frontal_lockRange s offset size; Ret (set_space y s)
  | EvUnlock offset size => s ← unlockPages s offset size; Ret (set_space y s)
  | EvIncUses i => s ← incrementUses s i; Ret (set_space y s)
  | EvDecUses i => s ← decrementUses s i; Ret (set_space y s)
  | EvMarkDirty i => s ← markDirty s i; Ret (set_space y s)
  | EvRotate => b ← rotate (bundle s); Ret (set_space y (set_bundle s b))
  | EvReclaimCollect => s ← reclaim_collect s; Ret (set_space y s)
  | EvReclaimStep =>
      '(d, q, er, s) ← reclaim_step s (reclaimFlags y); Ret (MkSystem s (d, q, er) (views y))
  | EvDrainCollect => s ← drain_collect s; Ret (set_space y s)
  | EvDrainFinish => s ← drain_finish s; Ret (set_space y s)
  | EvSubmit node => s ← submitManagement s node; Ret (set_space y s)
  | EvUpdate type offset length => '(_, s) ← updateRange s type offset length; Ret (set_space y s)
  | EvBackTouch offset frame => '(_, s) ← Backing_touchRange s offset frame; Ret (set_space y s)
  | EvFrontTouch offset flags => '(_, s) ← Frontal_touchRange s offset flags; Ret (set_space y s)
  | EvFrontPeek offset => '(_, s) ← Frontal_peekRange s offset; Ret (set_space y s)
  | EvResize newSize => Ret (set_space y (snd (Backing_resize s newSize)))
  | EvSetBudget numSlots => Ret (set_space y (setBudget s numSlots))
  | EvSwapCreate k length => v ← Swap_new length; Ret (set_view y k v s)
  | EvSwapResize k newSize => v ← deref (views y !! k); Ret (set_view y k (snd (Swap_resize v newSize)) s)
  | EvSwapDestroy k =>
      v ← deref (views y !! k); s ← Swap_destruct v s; Ret (MkSystem s (reclaimFlags y) (delete k (views y)))
  | EvSwapLock k offset size =>
      v ← deref (views y !! k); '(_, v, s) ← Swap_lockRange v s offset size; Ret (set_view y k v s)
  | EvSwapUnlock k offset size =>
      v ← deref (views y !! k); s ← Swap_unlockRange v s offset size; Ret (set_space y s)
  | EvSwapPeek k offset =>
      v ← deref (views y !! k); '(_, s) ← Swap_peekRange v s offset; Ret (set_space y s)
  | EvSwapTouch k offset flags frame =>
      v ← deref (views y !! k); '(_, v, s) ← Swap_touchRange v s offset flags frame; Ret (set_view y k v s)
  | EvInvalidate i =>
      if isSwapSpace s then Ret y else
      '(a, s) ← invalidate_page s i;
      Ret (set_space y match a with
        | InvalidateEvict => set_list s invalidate_evicting (i :: lists s invalidate_evicting)
        | _ => s
        end)
  | EvInvalidateFinish i =>
      '(evicted, s) ← invalidate_finish s i;
      Ret (set_space y (if evicted : bool
        then set_list s invalidate_evicting (filter (λ j, j ≠ i) (lists s invalidate_evicting)) else s))
  end.

Definition is_u64 (z : Z) : Prop := 0 ≤ z < 2 ^ 64.
Definition view_at (y : System) (k : Z) (P : SwappableMemory → Prop) : Prop :=
  ∃ v, views y !! k = Some v ∧ P v.

(** [EvInvalidate] is the first critical section of [invalidateRange] for a page, and
    [EvInvalidateFinish] the one behind its [breakRange].  The code is wrong for two kinds
    of pages: a dirty page that is not locked loses its writes and is left on the list of
    dirty pages ([invalidate_breaks_drain]), and a page that is being evicted already is
    waited for, also when nobody evicts it any more. *)
Definition invalidable (p : ManagedPage) : bool :=
  negb (is_tx p performReclaim || is_tx p avertReclaim) &&
  negb ((lockCount p =? 0) && (is_tx p dirty || is_tx p pendingWriteback)).

(** What the callers owe: ranges of machine integers, counts that do not overflow,
    locks and uses that are released only after they were taken, frames that nobody else
    uses, a server that has provided the frames it reports as initialized, no coroutine
    resumed before its wait, no view destroyed while one of its pages is fetched; pages
    of a swap space are created by its views only; only pages that [invalidable] allows
    are invalidated. *)
Definition enabled (y : System) (e : event) : Prop :=
  let s := space y in
  match e with
  | EvBackLock offset size | EvFrontLock offset size =>
      is_u64 offset ∧ is_u64 size ∧ ∀ i, i ∈ page_indices offset size → lock_room s i
  | EvUnlock offset size =>
      is_u64 offset ∧ is_u64 size ∧ ∀ i, i ∈ page_indices offset size → page_at s i (λ p, 0 < lockCount p)
  | EvIncUses i => page_at s i (λ p, useCount p + 1 < 2 ^ 32)
  | EvDecUses i => page_at s i (λ p, 0 < useCount p)
  | EvMarkDirty i => page_at s i (λ _, True)
  | EvReclaimCollect => lists s reclaim_batch = [] ∧ lists s reclaim_discardBatch = []
  | EvDrainCollect => lists s drain_pending = []
  | EvUpdate type offset length =>
      is_u64 offset ∧ is_u64 length ∧
      (type = MR_initialize → ∀ i p, i ∈ page_indices offset length → pages s !! i = Some p → physical p ≠ noFrame)
  | EvBackTouch offset frame =>
      is_u64 offset ∧ addable s (Z.shiftr offset kPageShift) ∧ frame ≠ noFrame ∧ pfnDb s !! frame = None ∧
      (isSwapSpace s = true → page_at s (Z.shiftr offset kPageShift) (λ p, transactionState p ≠ none))
  | EvFrontTouch offset _ => is_u64 offset ∧ isSwapSpace s = false
  | EvFrontPeek offset => is_u64 offset ∧ isSwapSpace s = false
  | EvResize newSize => is_u64 newSize
  | EvSetBudget numSlots => is_u64 numSlots
  | EvSwapCreate k length => isSwapSpace s = true ∧ views y !! k = None ∧ misaligned length = false
  | EvSwapResize k _ => view_at y k (λ _, True)
  | EvSwapPeek k offset => view_at y k (λ _, True)
  | EvSwapDestroy k => view_at y k (λ v, ∀ i o p, _table v !! i = Some o → pages s !! o = Some p →
      transactionState p ≠ wantInitialization ∧ transactionState p ≠ initialization)
  | EvSwapLock k offset size =>
      is_u64 offset ∧ is_u64 size ∧ view_at y k (λ v, swap_lock_room v s (swap_indices offset size))
  | EvSwapUnlock k offset size =>
      is_u64 offset ∧ is_u64 size ∧
      view_at y k (λ v, u64 (offset + size) ≤ _length v ∧ locked_pages v s (swap_indices offset size))
  | EvSwapTouch k offset _ frame => view_at y k (λ _, True) ∧ (frame ≠ noFrame → pfnDb s !! frame = None)
  | EvInvalidate i => isSwapSpace s = false → ∀ p, pages s !! i = Some p → invalidable p = true
  | EvInvalidateFinish i => isSwapSpace s = false ∧ i ∈ lists s invalidate_evicting
  | EvRotate | EvReclaimStep | EvDrainFinish | EvSubmit _ => True
  end.

(** ** Consistency of the system *)
Record sys_ok (y : System) : Prop := {
  sys_space : space_ok (space y);
  sys_size : 0 ≤ numPages (space y) ≤ 2 ^ 50;
  sys_file : isSwapSpace (space y) = false → no_discards (space y) ∧ views y = ∅;
  sys_swap : isSwapSpace (space y) = true → swap_pages (space y);
  sys_views k v : views y !! k = Some v → view_pages v (space y) ∧ view_inj v;
  sys_disjoint k v i k' v' i' o : views y !! k = Some v → views y !! k' = Some v' →
    _table v !! i = Some o → _table v' !! i' = Some o → k = k';
}.

Lemma sys_quiet y s s1 fl : sys_ok y → space_ok s → same_space (space y) s → quiet_space (space y) s1 →
  (∀ j, issue_step (isSwapSpace (space y)) (pages s1 !! j) (pages s !! j)) → isSwapSpace s1 = isSwapSpace (space y) →
  sys_ok (MkSystem s fl (views y)).
Proof.
  intros [H1 H2 H3 H4 H5 H6] H (Es & En & _) Hq His Es1. split; simpl.
  - done.
  - by rewrite En.
  - rewrite Es. intros Hs. destruct (H3 Hs) as [Hn Hv]. split; [|done].
    apply (no_discards_quiet _ s1 Hn) in Hq. rewrite no_discards_alt in *. intros j.
    eapply issue_contents; [apply His|done].
  - rewrite Es. intros Hs j. eapply issue_swap; [rewrite <-Hs; apply His|].
    by apply (swap_pages_quiet (space y) s1 Hs (H4 Hs) Hq).
  - intros k v E. destruct (H5 k v E) as [Hv Hi]. split; [|done]. intros i o Ho.
    destruct (view_pages_quiet v _ s1 Hv Hq i o Ho) as (p & Ep & Hd).
    destruct (issue_lives _ _ _ p (His o) Ep Hd) as (p' & E' & Hd'). by exists p'.
  - done.
Qed.
Lemma sys_quiet' y s fl : sys_ok y → space_ok s → same_space (space y) s → quiet_space (space y) s →
  sys_ok (MkSystem s fl (views y)).
Proof.
  intros Hy H Hss Hq. eapply sys_quiet; try done; [|by destruct Hss]. intros j. by left.
Qed.

(** ** What happens to the contents of a page

    A page is written, its writeback is requested, and the request completes. *)
Inductive label := Write | Issue | Done.
Definition label_step (c : dirtiness) (l : label) : option dirtiness :=
  match l, c with
  | Write, (Clean | Unsaved) => Some Unsaved
  | Write, (Flying | FlyingUnsaved) => Some FlyingUnsaved
  | Issue, Unsaved => Some Flying
  | Done, Flying => Some Clean
  | Done, FlyingUnsaved => Some Unsaved
  | _, _ => None
  end.
Fixpoint label_steps (c : dirtiness) (ls : list label) : option dirtiness :=
  match ls with
  | [] => Some c
  | l :: ls => c' ← label_step c l; label_steps c' ls
  end.

Definition in_writeback (q : option ManagedPage) : bool :=
  match q with Some p => is_tx p writeback | None => false end.
Definition issue_label (q q' : option ManagedPage) : list label :=
  if negb (in_writeback q) && in_writeback q' then [Issue] else [].

(** The labels of page [j] for an event. *)
Definition labels (y : System) (e : event) (y' : System) (j : Z) : list label :=
  let q := pages (space y) !! j in
  match e with
  | EvMarkDirty i =>
      if decide (j = i) then
        match q with Some p => if is_present p && negb (discarded p) then [Write] else [] | None => [] end
      else []
  | EvUpdate MR_writeback offset length =>
      if negb (misaligned offset) && negb (misaligned length) &&
         update_valid (space y) writeback (page_indices offset length) && bool_decide (j ∈ page_indices offset length)
      then [Done] else []
  | _ => issue_label q (pages (space y') !! j)
  end.
Definition destroys (y : System) (e : event) (j : Z) : Prop :=
  match e with EvSwapDestroy k => view_at y k (λ v, j ∈ table_values v) | _ => False end.

Definition follows (q q' : option ManagedPage) (ls : list label) : Prop :=
  ∀ c, contents q = Some c → ∃ c', label_steps c ls = Some c' ∧ contents q' = Some c'.

Lemma contents_writeback q c : contents q = Some c → in_writeback q = true ↔ c = Flying ∨ c = FlyingUnsaved.
Proof.
  destruct q as [p|]; simpl; [|intros [= <-]; naive_solver]. destruct (discarded p); [done|]. intros [= <-].
  unfold class_of. rewrite is_tx_true. destruct (transactionState p) eqn:Et, (stillDirty p); naive_solver.
Qed.

Lemma follows_issue q q' : (contents q ≠ None → contents q' = contents q ∨ (contents q = Some Unsaved ∧ contents q' = Some Flying)) →
  follows q q' (issue_label q q').
Proof.
  intros H c Hc. unfold issue_label. destruct H as [E|[E1 E2]]; [by rewrite Hc|..].
  - rewrite Hc in E. exists c. split; [|done]. pose proof (contents_writeback q c Hc) as H1.
    pose proof (contents_writeback q' c E) as H2. destruct (in_writeback q), (in_writeback q'); try done; simpl.
    exfalso. assert (false = true) by tauto. done.
  - rewrite Hc in E1. injection E1 as ->. exists Flying. split; [|done].
    pose proof (contents_writeback q Unsaved Hc) as H1. pose proof (contents_writeback q' Flying E2) as H2.
    destruct (in_writeback q); [exfalso; naive_solver|]. by rewrite (proj2 H2) by auto.
Qed.
Lemma follows_quiet sw q q' : quiet sw q q' → follows q q' (issue_label q q').
Proof. intros [Hc _]. apply follows_issue. intros Hn. left. by apply Hc. Qed.
Lemma follows_quiet_issue sw q1 q2 q3 : quiet sw q1 q2 → issue_step sw q2 q3 → follows q1 q3 (issue_label q1 q3).
Proof. intros H1 H2. apply follows_issue. by eapply quiet_issue. Qed.
Lemma follows_same q : follows q q [].
Proof. intros c Hc. by exists c. Qed.

(** The form of every step but writes, completions and destruction. *)
Definition step_result (y : System) (e : event) : Prop :=
  ∃ y', exec y e = Ret y' ∧ sys_ok y' ∧
    ∀ j, ¬ destroys y e j → follows (pages (space y) !! j) (pages (space y') !! j) (labels y e y' j).

Lemma quiet_event y e s fl : sys_ok y → (∀ i, e ≠ EvMarkDirty i) → (∀ t o l, e ≠ EvUpdate t o l) →
  exec y e = Ret (MkSystem s fl (views y)) →
  space_ok s → same_space (space y) s → quiet_space (space y) s → step_result y e.
Proof.
  intros Hy Hm Hu E H Hss Hq. eexists. split; [done|]. split; [by apply sys_quiet'|]. intros j _. simpl.
  pose proof (proj2 Hq j) as Hqj. destruct e; simpl; try (by eapply follows_quiet); [by destruct (Hm i)|by destruct (Hu type offset length)].
Qed.
Lemma issue_event y e s s1 fl : sys_ok y → (∀ i, e ≠ EvMarkDirty i) → (∀ t o l, e ≠ EvUpdate t o l) →
  exec y e = Ret (MkSystem s fl (views y)) →
  space_ok s → same_space (space y) s → quiet_space (space y) s1 → isSwapSpace s1 = isSwapSpace (space y) →
  (∀ j, issue_step (isSwapSpace (space y)) (pages s1 !! j) (pages s !! j)) → step_result y e.
Proof.
  intros Hy Hm Hu E H Hss Hq Es1 His. eexists. split; [done|]. split; [by eapply sys_quiet|]. intros j _. simpl.
  pose proof (proj2 Hq j) as Hqj. destruct e; simpl; try (by eapply follows_quiet_issue);
    [by destruct (Hm i)|by destruct (Hu type offset length)].
Qed.

(** Events that change one page. *)
Lemma frame_event y e s fl i p q : sys_ok y → (∀ i, e ≠ EvMarkDirty i) → (∀ t o l, e ≠ EvUpdate t o l) →
  exec y e = Ret (MkSystem s fl (views y)) → space_ok s → frame_on (space y) s i q →
  pages (space y) !! i = Some p → quiet (isSwapSpace (space y)) (Some p) q → step_result y e.
Proof.
  intros Hy Hm Hu E H F Ep Hq. eapply quiet_event; try done; [by eapply frame_same|].
  eapply frame_quiet; [done|]. by rewrite Ep.
Qed.

(** ** The events *)
Lemma lock_effect s offset size : space_ok s → is_u64 offset → is_u64 size →
  (∀ i, i ∈ page_indices offset size → lock_room s i) →
  ∃ s', lockPages s offset size = Ret (E_success, s') ∧ space_ok s' ∧ same_space s s' ∧ quiet_space s s'.
Proof.
  intros H [Ho _] Hs Hr. destruct (lock_loop_spec (page_indices offset size) s H) as (s' & E & H');
    [by apply page_indices_NoDup|done|]. exists s'. unfold lockPages. by rewrite E.
Qed.
Lemma step_BackLock y offset size : sys_ok y → enabled y (EvBackLock offset size) → step_result y (EvBackLock offset size).
Proof.
  intros Hy (Ho & Hs & Hr). destruct (lock_effect (space y) offset size (sys_space y Hy) Ho Hs Hr) as (s' & E & H' & Hss & Hq).
  destruct ((backingMemoryLength <? offset) || (u64 (backingMemoryLength - offset) <? size)) eqn:Eb.
  - apply (quiet_event y _ (space y) (reclaimFlags y)); try done; [|apply Hy].
    cbn [exec]. unfold Backing_lockRange. by rewrite Eb.
  - apply (quiet_event y _ s' (reclaimFlags y)); try done. cbn [exec]. unfold Backing_lockRange. by rewrite Eb, E.
Qed.
Lemma step_FrontLock y offset size : sys_ok y → enabled y (EvFrontLock offset size) → step_result y (EvFrontLock offset size).
Proof.
  intros Hy (Ho & Hs & Hr). destruct (lock_effect (space y) offset size (sys_space y Hy) Ho Hs Hr) as (s' & E & H' & Hss & Hq).
  set (limit := u64 (Z.shiftl (numPages (space y)) kPageShift)).
  destruct ((limit <? offset) || (u64 (limit - offset) <? size)) eqn:Eb.
  - apply (quiet_event y _ (space y) (reclaimFlags y)); try done; [|apply Hy].
    cbn [exec]. unfold Frontal_lockRange. fold limit. by rewrite Eb.
  - apply (quiet_event y _ s' (reclaimFlags y)); try done. cbn [exec]. unfold Frontal_lockRange. fold limit. by rewrite Eb, E.
Qed.
Lemma step_Unlock y offset size : sys_ok y → enabled y (EvUnlock offset size) → step_result y (EvUnlock offset size).
Proof.
  intros Hy ([Ho _] & Hs & Hl).
  destruct (unlock_loop_spec (page_indices offset size) (space y) false false (sys_space y Hy)) as (rd & ry & s' & E & H' & Hss & Hq);
    [by apply page_indices_NoDup|done|].
  apply (quiet_event y _ (emit_if ry (emit_if rd s' RaiseDiscard) RaiseDirty) (reclaimFlags y)); try done.
  - cbn [exec]. unfold unlockPages. by rewrite E.
  - by apply Inv_emit_if, Inv_emit_if.
  - by destruct rd, ry.
  - eapply quiet_ext; [..|exact Hq]; by destruct rd, ry.
Qed.

Lemma step_IncUses y i : sys_ok y → enabled y (EvIncUses i) → step_result y (EvIncUses i).
Proof.
  intros Hy (p & E & Hlt). destruct (space_incrementUses [] (space y) i p (sys_space y Hy) E Hlt) as (s' & E' & H' & F').
  eapply (frame_event y _ s' (reclaimFlags y) i p); try done; [cbn [exec]; by rewrite E'|].
  apply used_quiet. by apply (page_ok_at (space y) i); [apply Hy|].
Qed.
Lemma step_DecUses y i : sys_ok y → enabled y (EvDecUses i) → step_result y (EvDecUses i).
Proof.
  intros Hy (p & E & Hlt). destruct (space_decrementUses [] (space y) i p (sys_space y Hy) E Hlt) as (s' & E' & H' & F').
  eapply (frame_event y _ s' (reclaimFlags y) i p); try done; [cbn [exec]; by rewrite E'|].
  eapply released_quiet. by right.
Qed.

Lemma written_contents p : discarded p = false → is_present p = true → page_ok p = true →
  discarded (written_page p) = false ∧ label_step (class_of p) Write = Some (class_of (written_page p)).
Proof.
  intros Hd Hp Hok. unfold written_page. rewrite Hd, Hp. cbn [andb negb].
  change (transactionState (set_swapCopyValid p false)) with (transactionState p).
  unfold class_of. destruct (transactionState p) eqn:Et; simpl; rewrite ?Et; (split; [done|]); try done.
  all: try (by destruct (stillDirty p)).
  all: exfalso; clear -Hok Et Hp Hd; page_solve p.
Qed.

Lemma written_quiet_or p sw : is_present p && negb (discarded p) = false → quiet sw (Some p) (Some (written_page p)).
Proof. intros E. unfold written_page. by rewrite E. Qed.

Lemma step_MarkDirty y i : sys_ok y → enabled y (EvMarkDirty i) → step_result y (EvMarkDirty i).
Proof.
  intros Hy (p & E & _). destruct (space_markDirty [] (space y) i p (sys_space y Hy) E) as (s' & E' & H' & F').
  pose proof (page_ok_at (space y) i p (sys_space y Hy) E) as Hok. destruct F' as (F' & Es & En & Er).
  exists (set_space y s'). split; [cbn [exec]; by rewrite E'|].
  assert (∀ j, if decide (j = i) then True else pages s' !! j = pages (space y) !! j) as Hoth.
  { intros j. rewrite F'. by case_decide. }
  assert (discarded (written_page p) = discarded p ∧ (swap_page p = true → swap_page (written_page p) = true)) as [Hdw Hsw].
  { unfold written_page. destruct (is_present p) eqn:Ep, (discarded p) eqn:Ed; cbn [andb negb]; try done.
    split; [by destruct (transactionState _)|]. intros _. apply present_swap. by destruct (transactionState _). }
  split.
  - destruct Hy as [H1 H2 H3 H4 H5 H6]. split; simpl; try done.
    + by rewrite En.
    + rewrite Es. intros Hs. destruct (H3 Hs) as [Hn Hv]. split; [|done]. intros j q. rewrite F'. case_decide; [|apply Hn].
      intros [= <-]. rewrite Hdw. subst. by apply (Hn i).
    + rewrite Es. intros Hs j. rewrite F'. case_decide; [|by apply H4]. subst. simpl. apply Hsw.
      specialize (H4 Hs i). by rewrite E in H4.
    + intros k v Ev. destruct (H5 k v Ev) as [Hv Hi]. split; [|done]. intros a o Ho. destruct (Hv a o Ho) as (q & Eq & Hd).
      unfold page_at. rewrite F'. case_decide; [|by exists q]. subst. eexists. split; [done|]. rewrite Hdw. congruence.
  - intros j _. simpl. rewrite F'. case_decide as Hd; [|apply follows_same]. subst j. rewrite E.
    destruct (is_present p && negb (discarded p)) eqn:Ew.
    + apply andb_true_iff in Ew as [Hp Hd%negb_true_iff]. intros c. simpl. rewrite Hd. intros [= <-].
      destruct (written_contents p Hd Hp Hok) as [Hd' Hw]. eexists. rewrite Hd'. split; [|done].
      unfold label_steps. simpl in *. by rewrite Hw.
    + unfold written_page. rewrite Ew. apply follows_same.
Qed.

Lemma rotate_ok s b : space_ok s → rotate (bundle s) = Ret b → space_ok (set_bundle s b).
Proof.
  intros H E. destruct (rotate_spec (bundle s) (inv_bundle _ _ _ H)) as (b' & E' & Hb & _ & Hp).
  rewrite E in E'. injection E' as <-. destruct H as [H1 H2 H3 H4 H5 H6 H7 H8 H9 H10 H11]. split; try done.
  - intros j. change (bundle (set_bundle s b)) with b. change (page_at (set_bundle s b)) with (page_at s).
    rewrite Hp, <-H4. case_decide as Hd; [by rewrite Hd|done].
  - intros j. change (bundle (set_bundle s b)) with b. rewrite Hp. case_decide; [done|]. apply H5.
Qed.
Lemma step_Rotate y : sys_ok y → step_result y EvRotate.
Proof.
  intros Hy. pose proof (sys_space y Hy) as H. destruct (rotate_spec (bundle (space y)) (inv_bundle _ _ _ H)) as (b & E & _).
  apply (quiet_event y _ (set_bundle (space y) b) (reclaimFlags y)); try done; [cbn [exec]; by rewrite E|by apply rotate_ok].
Qed.

Lemma collected_quiet sw p : page_ok p = true → transactionState p = inReclaimer →
  quiet sw (Some p) (Some (set_tx p performReclaim)).
Proof.
  intros Hok Ht. apply quiet_page; [|done|present_page p]. intros Hd. split; [done|]. unfold class_of. simpl. by rewrite Ht.
Qed.
Lemma step_ReclaimCollect y : sys_ok y → enabled y EvReclaimCollect → step_result y EvReclaimCollect.
Proof.
  intros Hy [Hb Hd]. pose proof (sys_space y Hy) as H.
  destruct (reclaim_collect_spec (space y) H Hb Hd) as (out & s' & E & H' & _ & Ht & Hp & Hss).
  apply (quiet_event y _ s' (reclaimFlags y)); try done; [cbn [exec]; by rewrite E|].
  split; [apply Hss|]. intros j. rewrite Hp. case_decide as Hj; [|done]. destruct (Ht j Hj) as (p & Ep & Htp). rewrite Ep.
  apply collected_quiet; [by apply (page_ok_at (space y) j)|done].
Qed.

Lemma reclaimed_quiet sw p : page_ok p = true → transactionState p = performReclaim ∨ transactionState p = avertReclaim →
  quiet sw (Some p) (reclaimed_page p).
Proof.
  intros Hok Ht. unfold reclaimed_page. destruct (discarded p) eqn:Ed.
  { apply quiet_dead; [done|]. intros q. unfold dispose_page. repeat case_match; by intros [= <-]. }
  assert (is_present p = true) as Hp by (apply present_tx; [done|destruct Ht; congruence..]).
  destruct (is_tx p avertReclaim) eqn:Ea.
  - apply is_tx_true in Ea. destruct (stillDirty p) eqn:Es; apply quiet_page; try done; try (intros _ _; by apply present_swap).
    + intros _. split; [done|]. unfold class_of. simpl. by rewrite Ea, Es.
    + intros _. split; [done|]. unfold class_of. simpl. rewrite Ea, Es. by destruct (in_use p).
  - apply is_tx_false in Ea. destruct Ht as [Ht|Ht]; [|done].
    assert (stillDirty p = false) as Hst by (apply not_stillDirty; [done|congruence..]).
    apply quiet_page.
    + intros _. split; [done|]. unfold class_of. simpl. by rewrite Ht.
    + unfold class_of. by rewrite Ht.
    + intros _ _. unfold swap_page. change (is_tx (evicted_page p) none) with true.
      change (physical (evicted_page p)) with noFrame. by rewrite Z.eqb_refl, orb_true_r.
Qed.
Lemma undisposed_quiet sw p : discarded p = true → quiet sw (Some p) (undisposed_page p).
Proof. intros Hd. apply quiet_dead; [done|]. intros q. unfold undisposed_page. repeat case_match; by intros [= <-]. Qed.

Lemma reclaim_step_spec s fl : space_ok s →
  ∃ d q e s', reclaim_step s fl = Ret (d, q, e, s') ∧ space_ok s' ∧ same_space s s' ∧ quiet_space s s'.
Proof.
  intros H. unfold reclaim_step. destruct fl as [[fd fq] fe].
  assert (∃ d q e s1, match lists s reclaim_batch with
    | i :: batch => '(d, q, e, s) ← reclaim_one (set_list s reclaim_batch batch) i; Ret (fd || d, fq || q, fe || e, s)
    | [] => match lists s reclaim_discardBatch with
        | i :: discardBatch => '(e, s) ← discard_one (set_list s reclaim_discardBatch discardBatch) i; Ret (fd, fq, fe || e, s)
        | [] => Ret (fd, fq, fe, s) end end = Ret (d, q, e, s1) ∧ space_ok s1 ∧ same_space s s1 ∧ quiet_space s s1)
    as (d & q & e & s1 & -> & H1 & Hss & Hq).
  { destruct (lists s reclaim_batch) as [|i batch] eqn:Eb.
    - destruct (lists s reclaim_discardBatch) as [|i batch] eqn:Ed.
      + eexists _, _, _, _. split; [done|]. done.
      + destruct (discard_one_spec [] s i batch H Ed) as (p & e & s1 & Ep & -> & Hd & H1 & F1).
        eexists _, _, _, _. split; [done|]. split; [done|]. split; [by eapply frame_same|].
        eapply frame_quiet; [done|]. rewrite Ep. by apply undisposed_quiet.
    - destruct (batch_page [] s i batch H Eb) as (p0 & E0 & Ht0 & Hok0 & _).
      destruct (reclaim_one_spec [] s i batch H Eb) as (p & d & q & e & s1 & Ep & -> & H1 & F1).
      eexists _, _, _, _. split; [done|]. split; [done|]. split; [by eapply frame_same|].
      eapply frame_quiet; [done|]. rewrite Ep. assert (p0 = p) as -> by congruence. by apply reclaimed_quiet. }
  cbn [mbind outcome_bind].
  assert (∀ (d q e : bool) s2, space_ok s2 → pages s2 = pages s1 → same_space s1 s2 →
    ∃ d' q' e' s', Ret (d, q, e, s2) = Ret (d', q', e', s') ∧ space_ok s' ∧ same_space s s' ∧ quiet_space s s') as Hret.
  { intros d' q' e' s2 H2 Ep2 Hss2. eexists _, _, _, _. split; [done|]. split; [done|]. split; [by etrans|].
    eapply quiet_ext; [done|by destruct Hss2|done]. }
  destruct (lists s1 reclaim_batch); [|by apply Hret]. destruct (lists s1 reclaim_discardBatch); [|by apply Hret].
  apply Hret; [by apply Inv_emit_if, Inv_emit_if|by destruct (_ || _), q|by destruct (_ || _), q].
Qed.
Lemma step_ReclaimStep y : sys_ok y → step_result y EvReclaimStep.
Proof.
  intros Hy. destruct (reclaim_step_spec (space y) (reclaimFlags y) (sys_space y Hy)) as (d & q & e & s' & E & H' & Hss & Hq).
  apply (quiet_event y _ s' (d, q, e)); try done. cbn [exec]. by rewrite E.
Qed.

(** Invalidation: only clean pages are taken out of the cache. *)
Lemma invalidate_page_spec s i : space_ok s → no_discards s → (∀ p, pages s !! i = Some p → invalidable p = true) →
  ∃ a s', invalidate_page s i = Ret (a, s') ∧
    (a ≠ InvalidateEvict ∧ s' = s ∨
     a = InvalidateEvict ∧ space_ok (set_list s' invalidate_evicting (i :: lists s' invalidate_evicting)) ∧
     same_space s s' ∧ quiet_space s s').
Proof.
  intros H Hn Hi. unfold invalidate_page. destruct (pages s !! i) as [p|] eqn:E; [|eexists _, _; split; [done|by left]].
  specialize (Hi p eq_refl). pose proof (page_ok_at s i p H E) as Hok. pose proof (Hn i p E) as Hd.
  destruct (is_present p) eqn:Hp; cbn [negb]; [|eexists _, _; split; [done|by left]].
  unfold invalidable in Hi. apply andb_true_iff in Hi as [Hb%negb_true_iff Hi%negb_true_iff]. rewrite Hb.
  destruct (monitor p) as [m|] eqn:Em; [eexists _, _; split; [done|by left]|].
  destruct (Z.eqb_spec (lockCount p) 0) as [Hl|Hl]; [|eexists _, _; split; [done|by left]]. cbn [andb] in Hi.
  assert (transactionState p = none ∨ transactionState p = inReclaimer) as Ht.
  { clear -Hok Hd Hp Em Hb Hi. destruct (transactionState p) eqn:Et; auto; exfalso; page_solve p. }
  assert (page_ok (set_tx p performReclaim) = true) as Hok'.
  { clear -Hok Hp Hl Em Ht. destruct Ht as [Ht|Ht]; page_solve p. }
  assert (∀ b, Inv (Some i) [] (set_bundle s b) →
    space_ok (set_list (set_page (set_bundle s b) i (set_tx p performReclaim)) invalidate_evicting (i :: lists s invalidate_evicting))) as Hput.
  { intros b Ho. apply (close_evicting [] (set_page (set_bundle s b) i (set_tx p performReclaim)) i (set_tx p performReclaim)); try done.
    - by apply (set_opened [] (set_bundle s b) i p).
    - simpl. by rewrite lookup_insert, decide_True. }
  assert (quiet (isSwapSpace s) (Some p) (Some (set_tx p performReclaim))) as Hq.
  { apply quiet_page; [|done|intros _ _; by apply present_swap]. intros _. split; [done|]. unfold class_of. simpl. by destruct Ht as [-> | ->]. }
  assert (∃ b, (if is_tx p inReclaimer then reclaimer_remove s i else Ret s) = Ret (set_bundle s b) ∧ Inv (Some i) [] (set_bundle s b))
    as (b & -> & Ho).
  { destruct Ht as [Ht|Ht]; tx_tests.
    - exists (bundle s). assert (set_bundle s (bundle s) = s) as -> by (by destruct s). split; [done|].
      apply (open_free [] s i p); by rewrite ?Ht.
    - destruct (open_reclaimer [] s i p H E Ht) as (b & ? & _ & ?). by exists b. }
  eexists _, _. split; [done|]. right. split; [done|]. split; [by apply Hput|].
  assert (frame_on s (set_page (set_bundle s b) i (set_tx p performReclaim)) i (Some (set_tx p performReclaim))) as F
    by apply (frame_set_page (set_bundle s b)).
  split; [by eapply frame_same|]. eapply frame_quiet; [done|]. by rewrite E.
Qed.
Lemma step_Invalidate y i : sys_ok y → enabled y (EvInvalidate i) → step_result y (EvInvalidate i).
Proof.
  intros Hy Hi. cbn in Hi. destruct (isSwapSpace (space y)) eqn:Es.
  { apply (quiet_event y _ (space y) (reclaimFlags y)); try done; [cbn [exec]; rewrite Es; by destruct y|apply Hy]. }
  destruct (invalidate_page_spec (space y) i (sys_space y Hy) (proj1 (sys_file y Hy Es)) (Hi eq_refl)) as
    (a & s' & E & [[Ha ->]|(-> & H' & Hss & Hq)]).
  - apply (quiet_event y _ (space y) (reclaimFlags y)); try done; [|apply Hy]. cbn [exec]. rewrite Es, E. by destruct a.
  - eapply (quiet_event y _ _ (reclaimFlags y)); try done; [cbn [exec]; by rewrite Es, E|done..].
Qed.

Lemma invalidate_finish_spec s i : space_ok s → isSwapSpace s = false → no_discards s → i ∈ lists s invalidate_evicting →
  ∃ e s', invalidate_finish s i = Ret (e, s') ∧ same_space s s' ∧ quiet_space s s' ∧
    space_ok (if e : bool then set_list s' invalidate_evicting (filter (λ j, j ≠ i) (lists s' invalidate_evicting)) else s').
Proof.
  intros H Hs Hn Hi. destruct (listed_page None [] s i GBatch H) as (p & E & Eh & Hok); [by apply elem_of_app; left|].
  pose proof (Hn i p E) as Hd. unfold invalidate_finish. rewrite E. cbn [deref mbind outcome_bind].
  destruct (decide (transactionState p = performReclaim)) as [Ht|Ht]; tx_tests; [|by eexists _, _].
  destruct (page_ok_facts p Hok) as (L & U & Hfo & _ & _ & Hfr).
  assert (is_present p = true) as Hp by (apply present_tx; congruence). specialize (Hfr Hp).
  rewrite (proj2 (Z.eqb_neq _ _) Hfr). fold (evicted_page p). cbn [negb]. eexists _, _. split; [done|].
  set (s1 := set_list s invalidate_evicting (filter (λ j, j ≠ i) (lists s invalidate_evicting))).
  assert (frame_on s (set_page s i (evicted_page p)) i (Some (evicted_page p))) as F by apply frame_set_page.
  split; [by destruct (frame_same _ _ _ _ F)|]. split.
  { eapply quiet_ext; [..|eapply (frame_quiet s); [exact F|]]; try done. rewrite E.
    pose proof (reclaimed_quiet (isSwapSpace s) p Hok (or_introl Ht)) as Hq. unfold reclaimed_page in Hq. rewrite Hd in Hq.
    by rewrite (proj2 (is_tx_false p avertReclaim)) in Hq by congruence. }
  assert (Inv (Some i) [] s1) as Ho by (by apply (open_evicting [] s i p)).
  pose proof (drop_frame [] s1 i p (evicted_page p) Ho E eq_refl eq_refl Hfr) as H1.
  assert (space_ok (set_pfnDb (set_page s1 i (evicted_page p)) (delete (physical p) (pfnDb s1)))) as H2.
  { apply (close_free [] _ i (evicted_page p)); try done; [simpl; by rewrite lookup_insert, decide_True|].
    rewrite page_ok_idle; try done; simpl; [by rewrite Hd|apply (no_monitor p); [done|by rewrite Ht]|].
    apply (not_stillDirty p); [done| |]; by rewrite Ht. }
  exact (Inv_emit _ _ _ [FreeFrame (physical p)] H2).
Qed.
Lemma step_InvalidateFinish y i : sys_ok y → enabled y (EvInvalidateFinish i) → step_result y (EvInvalidateFinish i).
Proof.
  intros Hy [Hs Hi]. destruct (invalidate_finish_spec (space y) i (sys_space y Hy) Hs (proj1 (sys_file y Hy Hs)) Hi) as
    (e & s' & E & Hss & Hq & H').
  eapply (quiet_event y _ _ (reclaimFlags y)); [done..| |exact H'| |]; [cbn [exec]; by rewrite E|by destruct e..].
Qed.

Lemma step_DrainCollect y : sys_ok y → enabled y EvDrainCollect → step_result y EvDrainCollect.
Proof.
  intros Hy _. destruct (drain_collect_spec (space y) (sys_space y Hy)) as (s' & E & H' & Hss & Hq & _).
  apply (quiet_event y _ s' (reclaimFlags y)); try done. cbn [exec]. by rewrite E.
Qed.

(** Emitting events changes no page. *)
Lemma issue_emit sw s s1 s2 : pages s2 = pages s1 → (∀ j, issue_step sw (pages s !! j) (pages s1 !! j)) →
  ∀ j, issue_step sw (pages s !! j) (pages s2 !! j).
Proof. by intros ->. Qed.

Lemma step_DrainFinish y : sys_ok y → step_result y EvDrainFinish.
Proof.
  intros Hy. destruct (drain_finish_loop_spec (lists (space y) drain_pending) (space y) false (sys_space y Hy) eq_refl) as
    (b & s1 & E1 & H1 & Hss1 & Hq1 & _). destruct (progress_step s1 H1) as (s2 & E2 & H2 & Hss2 & His & _).
  destruct Hss1 as (Es1 & En1 & Er1). rewrite Es1 in His.
  apply (issue_event y _ (emit_if b s2 RaiseDiscard) s1 (reclaimFlags y)); try done.
  - cbn [exec]. unfold drain_finish. rewrite E1. cbn [mbind outcome_bind]. by rewrite E2.
  - by apply Inv_emit_if.
  - etrans; [by split_and!|]. etrans; [done|]. by destruct b.
  - eapply issue_emit; [|done]. by destruct b.
Qed.
Lemma step_Submit y node : sys_ok y → step_result y (EvSubmit node).
Proof.
  intros Hy. set (s1 := set_managementQueue (space y) (_managementQueue (space y) ++ [node])).
  destruct (progress_step s1) as (s2 & E2 & H2 & Hss2 & His & _); [by apply Inv_management, Hy|].
  apply (issue_event y _ s2 s1 (reclaimFlags y)); try done. cbn [exec]. unfold submitManagement. fold s1. by rewrite E2.
Qed.

Lemma update_valid_spec s t indices : update_valid s t indices = true →
  ∀ i, i ∈ indices → page_at s i (λ p, transactionState p = t).
Proof.
  unfold update_valid. rewrite forallb_forall. intros H i Hi. apply list_elem_of_In in Hi. specialize (H i Hi).
  destruct (pages s !! i) as [p|] eqn:E; [|done]. exists p. split; [done|]. by apply is_tx_true.
Qed.

Lemma same_event y e : sys_ok y → exec y e = Ret (set_space y (space y)) →
  (∀ j, labels y e (set_space y (space y)) j = []) → step_result y e.
Proof.
  intros Hy E Hl. exists (set_space y (space y)). split; [done|]. split; [by destruct y|]. intros j _. rewrite Hl. apply follows_same.
Qed.
Lemma issue_label_same q : issue_label q q = [].
Proof. unfold issue_label. by destruct (in_writeback q). Qed.

Lemma step_Update y type offset length : sys_ok y → enabled y (EvUpdate type offset length) →
  step_result y (EvUpdate type offset length).
Proof.
  intros Hy (Ho & Hl & Hfr). pose proof (sys_space y Hy) as H. destruct Ho as [Ho _].
  pose proof (page_indices_NoDup offset length Ho Hl) as Hnd. set (ix := page_indices offset length) in *.
  destruct (misaligned offset) eqn:Em1.
  { apply same_event; [done|cbn [exec]; unfold updateRange; by rewrite Em1|]. intros j. destruct type; simpl;
      try apply issue_label_same. by rewrite Em1. }
  destruct (misaligned length) eqn:Em2.
  { apply same_event; [done|cbn [exec]; unfold updateRange; by rewrite Em1, Em2|]. intros j. destruct type; simpl;
      try apply issue_label_same. by rewrite Em1, Em2. }
  destruct type.
  - apply same_event; [done|cbn [exec]; unfold updateRange; by rewrite Em1, Em2|]. intros j. apply issue_label_same.
  - destruct (update_valid (space y) initialization ix) eqn:Ev.
    2: { apply same_event; [done|cbn [exec]; unfold updateRange; fold ix; by rewrite Em1, Em2, Ev|]. intros j. apply issue_label_same. }
    destruct (update_initialize_spec ix (space y) [] H Hnd) as (ms & s' & E & H' & Hss & Hq).
    { intros i Hi. destruct (update_valid_spec _ _ _ Ev i Hi) as (p & Ep & Ht). exists p. split; [done|]. split; [done|].
      by apply (Hfr eq_refl i). }
    exists (set_space y (emit_monitors s' ms)). split; [cbn [exec]; unfold updateRange; fold ix; by rewrite Em1, Em2, Ev, E|].
    split; [apply sys_quiet'; try done; by apply Inv_emit|]. intros j _. eapply follows_quiet. apply (proj2 Hq j).
  - destruct (update_valid (space y) writeback ix) eqn:Ev.
    2: { apply same_event; [done|cbn [exec]; unfold updateRange; fold ix; by rewrite Em1, Em2, Ev|]. intros j. simpl.
         fold ix. by rewrite Em1, Em2, Ev. }
    pose proof (update_valid_spec _ _ _ Ev) as Hwb.
    destruct (update_writeback_spec ix (space y) [] false false H Hnd Hwb) as (ms & rd & ry & s' & E & H' & Hss & Hp).
    set (s2 := emit_monitors (emit_if ry (emit_if rd s' RaiseDiscard) RaiseDirty) ms).
    assert (pages s2 = pages s' ∧ same_space s' s2) as [Ep2 Hss2] by (subst s2; by destruct rd, ry).
    assert (space_ok s2) as H2' by (by apply Inv_emit, Inv_emit_if, Inv_emit_if).
    exists (set_space y s2). split; [cbn [exec]; unfold updateRange; fold ix; by rewrite Em1, Em2, Ev, E|]. clearbody s2.
    assert (∀ j p, pages (space y) !! j = Some p → discarded p = false → ∃ p', pages s' !! j = Some p' ∧ discarded p' = false) as Hlive.
    { intros j p Ej Hd. specialize (Hp j). case_decide; [|rewrite Hp; by exists p].
      destruct Hp as [Hp _]. destruct (Hp p Ej Hd) as (p' & E' & Hd' & _). by exists p'. }
    assert (∀ j, pages (space y) !! j = None → pages s' !! j = None) as Hnone.
    { intros j Ej. specialize (Hp j). case_decide as Hj; [|by rewrite Hp]. destruct (Hwb j Hj) as (p & Ep & _). congruence. }
    split.
    + destruct Hy as [H1 H2 H3 H4 H5 H6]. assert (same_space (space y) s2) as (Es & En & _) by (by etrans). split; simpl.
      * done.
      * by rewrite En.
      * rewrite Es. intros Hs. destruct (H3 Hs) as [Hn Hv]. split; [|done]. intros j q Hq. rewrite Ep2 in Hq.
        destruct (pages (space y) !! j) as [p|] eqn:Ej; [|rewrite Hnone in Hq; done].
        destruct (Hlive j p Ej (Hn j p Ej)) as (p' & E' & Hd'). congruence.
      * rewrite Es. intros Hs j. rewrite Ep2. specialize (Hp j). case_decide; [by destruct Hp|]. rewrite Hp. by apply H4.
      * intros k v Ekv. destruct (H5 k v Ekv) as [Hv Hi]. split; [|done]. intros i o Hio. destruct (Hv i o Hio) as (p & Ej & Hd).
        destruct (Hlive o p Ej Hd) as (p' & E' & Hd'). exists p'. by rewrite Ep2.
      * done.
    + intros j _. simpl. fold ix. rewrite Em1, Em2, Ev, Ep2. cbn [negb andb]. specialize (Hp j). case_decide as Hj.
      * rewrite bool_decide_true by done. destruct Hp as [Hp _]. destruct (Hwb j Hj) as (p & Ej & Ht). rewrite Ej in *.
        intros c. simpl. destruct (discarded p) eqn:Hd; [done|]. intros [= <-].
        destruct (Hp p eq_refl Hd) as (p' & -> & Hd' & _ & Hc'). simpl. rewrite Hd'. unfold class_of at 1. rewrite Ht, Hc'.
        destruct (stillDirty p); by eexists.
      * rewrite bool_decide_false by done. rewrite Hp. apply follows_same.
Qed.

Lemma step_BackTouch y offset frame : sys_ok y → enabled y (EvBackTouch offset frame) → step_result y (EvBackTouch offset frame).
Proof.
  intros Hy (Ho & Ha & Hf & Hdb & Hsw).
  destruct (Backing_touchRange_spec (space y) offset frame (sys_space y Hy) (or_introl Ha) Hsw Hf Hdb) as (r & s' & E & H' & Hss & Hq).
  apply (quiet_event y _ s' (reclaimFlags y)); try done. cbn [exec]. by rewrite E.
Qed.
Lemma step_FrontTouch y offset flags : sys_ok y → enabled y (EvFrontTouch offset flags) → step_result y (EvFrontTouch offset flags).
Proof.
  intros Hy (Ho & Hs). destruct (Frontal_touchRange_spec (space y) offset flags (sys_space y Hy) Hs) as (r & s' & s1 & E & H' & Hss & Hq & His).
  - by apply Hy.
  - apply Hy.
  - done.
  - apply (issue_event y _ s' s1 (reclaimFlags y)); try done; [cbn [exec]; by rewrite E|apply Hq].
Qed.
Lemma step_FrontPeek y offset : sys_ok y → enabled y (EvFrontPeek offset) → step_result y (EvFrontPeek offset).
Proof.
  intros Hy (Ho & Hs). set (i := Z.shiftr offset kPageShift). destruct (numPages (space y) <=? i) eqn:El.
  { apply same_event; [done|cbn [exec]; unfold Frontal_peekRange; fold i; by rewrite El|]. intros j. apply issue_label_same. }
  destruct (pages (space y) !! i) as [p|] eqn:Ep.
  2: { apply same_event; [done|cbn [exec]; unfold Frontal_peekRange; fold i; by rewrite El, Ep|]. intros j. apply issue_label_same. }
  destruct (peek_page_spec (space y) i (Z.land offset (kPageSize - 1)) p (sys_space y Hy) Ep) as (r & s' & E & H' & Hss & Hq & _).
  apply (quiet_event y _ s' (reclaimFlags y)); try done. cbn [exec]. unfold Frontal_peekRange. fold i. by rewrite El, Ep, E.
Qed.

(** Events that only change fields the pages do not depend on. *)
Lemma static_event y e s : sys_ok y → (∀ i, e ≠ EvMarkDirty i) → (∀ t o l, e ≠ EvUpdate t o l) →
  exec y e = Ret (set_space y s) → space_ok s → pages s = pages (space y) →
  isSwapSpace s = isSwapSpace (space y) → 0 ≤ numPages s ≤ 2 ^ 50 → step_result y e.
Proof.
  intros [H1 H2 H3 H4 H5 H6] Hm Hu E H Ep Es Hn. exists (set_space y s). split; [done|]. split.
  - split; simpl; try done.
    + rewrite Es. intros Hs. destruct (H3 Hs) as [Hd Hv]. split; [|done]. unfold no_discards. by rewrite Ep.
    + rewrite Es. intros Hs j. rewrite Ep. by apply H4.
    + intros k v Ek. destruct (H5 k v Ek) as [Hv Hi]. split; [|done]. unfold view_pages, page_at. by rewrite Ep.
  - intros j _. simpl. rewrite Ep. destruct e; simpl; try (by rewrite Ep, issue_label_same; apply follows_same);
      [by destruct (Hm i)|by destruct (Hu type offset length)].
Qed.

Lemma step_Resize y newSize : sys_ok y → enabled y (EvResize newSize) → step_result y (EvResize newSize).
Proof.
  intros Hy Hn. cbn in Hn. destruct Hn as [Hn0 Hn1]. pose proof (sys_space y Hy) as H.
  eapply (static_event y _ (snd (Backing_resize (space y) newSize))); try done; unfold Backing_resize;
    destruct (isSwapSpace (space y)) eqn:Es; try done; try apply Hy.
  - destruct (Z.ltb_spec backingMemoryLength newSize) as [Hlt|Hlt]; [done|]. destruct (misaligned newSize); [done|].
    pose proof (inv_budget _ _ _ H). eapply Inv_ext; try done. by rewrite Es.
  - by destruct (_ <? _), (misaligned newSize).
  - by destruct (_ <? _), (misaligned newSize).
  - destruct (Z.ltb_spec backingMemoryLength newSize) as [Hlt|Hlt]; [apply Hy|]. destruct (misaligned newSize); [apply Hy|]. simpl.
    rewrite shiftr_pow2 by done. unfold backingMemoryLength in Hlt. change (2 ^ kPageShift) with 4096.
    split; [apply Z.div_pos; lia|]. apply Z.lt_succ_r, Z.div_lt_upper_bound; lia.
Qed.
Lemma step_SetBudget y numSlots : sys_ok y → enabled y (EvSetBudget numSlots) → step_result y (EvSetBudget numSlots).
Proof.
  intros Hy Hn. pose proof (sys_space y Hy) as H.
  eapply (static_event y _ (setBudget (space y) numSlots)); try done; try apply Hy.
  unfold setBudget. apply Inv_emit, Inv_drainBlocked. by eapply Inv_ext.
Qed.

(** Events of one view: its new entries are pages that did not exist before. *)
Lemma view_event y e k v v' s s1 : sys_ok y → (∀ i, e ≠ EvMarkDirty i) → (∀ t o l, e ≠ EvUpdate t o l) →
  views y !! k = Some v → exec y e = Ret (set_view y k v' s) →
  space_ok s → same_space (space y) s → quiet_space (space y) s1 → isSwapSpace s1 = isSwapSpace (space y) →
  (∀ j, issue_step (isSwapSpace (space y)) (pages s1 !! j) (pages s !! j)) →
  view_pages v' s1 → view_inj v' →
  (∀ i o, _table v' !! i = Some o → _table v !! i = Some o ∨ pages (space y) !! o = None) → step_result y e.
Proof.
  intros Hy Hm Hu Ek E H Hss Hq Es1 His Hv' Hi' Hnew. eexists. split; [done|]. split.
  - pose proof (sys_quiet y s s1 (reclaimFlags y) Hy H Hss Hq His Es1) as [G1 G2 G3 G4 G5 G6]. simpl in *.
    assert (∀ k2 v2 i i2 o, k2 ≠ k → views y !! k2 = Some v2 → _table v' !! i = Some o → _table v2 !! i2 = Some o → False) as Hx.
    { intros k2 v2 i i2 o Hk E2 T1 T2. destruct (Hnew i o T1) as [T|Hn].
      - by destruct Hk, (G6 k2 v2 i2 k v i o).
      - destruct (sys_views y Hy k2 v2 E2) as [Hp _]. destruct (Hp i2 o T2) as (p & Ep & _). congruence. }
    split; simpl; try done.
    + intros Hs. destruct (G3 Hs) as [_ Hv]. rewrite Hv in Ek. done.
    + intros k2 v2. destruct (decide (k2 = k)) as [->|Hk].
      * rewrite lookup_insert, decide_True by done. intros [= <-]. split; [|done]. intros i o Ho.
        destruct (Hv' i o Ho) as (p & Ep & Hd). destruct (issue_lives _ _ _ p (His o) Ep Hd) as (p' & E' & Hd'). by exists p'.
      * rewrite lookup_insert_ne by done. apply G5.
    + intros k2 v2 i2 k3 v3 i3 o E2 E3 T2 T3. destruct (decide (k2 = k)) as [->|H2], (decide (k3 = k)) as [->|H3]; try done.
      * rewrite lookup_insert, decide_True in E2 by done. rewrite lookup_insert_ne in E3 by done. simplify_eq.
        by destruct (Hx k3 v3 i2 i3 o).
      * rewrite lookup_insert, decide_True in E3 by done. rewrite lookup_insert_ne in E2 by done. simplify_eq.
        by destruct (Hx k2 v2 i3 i2 o).
      * rewrite lookup_insert_ne in E2, E3 by done. by eapply G6.
  - intros j _. simpl. pose proof (proj2 Hq j) as Hqj. destruct e; simpl; try (by eapply follows_quiet_issue);
      [by destruct (Hm i)|by destruct (Hu type offset length)].
Qed.

Lemma swap_of_view y k v : sys_ok y → views y !! k = Some v → isSwapSpace (space y) = true.
Proof.
  intros Hy Ek. destruct (isSwapSpace (space y)) eqn:Es; [done|]. destruct (sys_file y Hy Es) as [_ Hv]. by rewrite Hv in Ek.
Qed.

Lemma step_SwapCreate y k length : sys_ok y → enabled y (EvSwapCreate k length) → step_result y (EvSwapCreate k length).
Proof.
  intros Hy (Hs & Hk & Hm). exists (set_view y k (MkSwappable length ∅) (space y)).
  split; [cbn [exec]; unfold Swap_new; by rewrite Hm|]. split.
  - destruct Hy as [H1 H2 H3 H4 H5 H6]. split; simpl; try done.
    + by rewrite Hs.
    + intros k2 v2. destruct (decide (k2 = k)) as [->|Hne].
      * rewrite lookup_insert, decide_True by done. intros [= <-]. by split.
      * rewrite lookup_insert_ne by done. apply H5.
    + intros k2 v2 i2 k3 v3 i3 o. destruct (decide (k2 = k)) as [->|Hn2]; [rewrite lookup_insert, decide_True by done; by intros [= <-]|].
      destruct (decide (k3 = k)) as [->|Hn3]; [rewrite (lookup_insert _ k k), decide_True by done; by intros _ [= <-]|].
      rewrite !lookup_insert_ne by done. apply H6.
  - intros j _. simpl. rewrite issue_label_same. apply follows_same.
Qed.
Lemma step_SwapResize y k newSize : sys_ok y → enabled y (EvSwapResize k newSize) → step_result y (EvSwapResize k newSize).
Proof.
  intros Hy (v & Ek & _). destruct (sys_views y Hy k v Ek) as [Hv Hi].
  assert (_table (snd (Swap_resize v newSize)) = _table v) as Et by (unfold Swap_resize; by repeat case_match).
  eapply (view_event y _ k v (snd (Swap_resize v newSize)) (space y) (space y)); try done.
  - cbn [exec]. by rewrite Ek.
  - apply Hy.
  - intros j. by left.
  - unfold view_pages. by rewrite Et.
  - unfold view_inj. by rewrite Et.
  - rewrite Et. by left.
Qed.
Lemma step_SwapLock y k offset size : sys_ok y → enabled y (EvSwapLock k offset size) → step_result y (EvSwapLock k offset size).
Proof.
  intros Hy ([Ho _] & Hz & v & Ek & Hroom). destruct (sys_views y Hy k v Ek) as [Hv Hi].
  destruct (Swap_lockRange_spec v (space y) offset size (sys_space y Hy) (swap_of_view y k v Hy Ek) Hv Hi Ho Hz Hroom)
    as (r & v' & s' & E & H' & Hss & Hq & Hv' & Hi' & Hnew).
  eapply (view_event y _ k v v' s' s'); try done; [cbn [exec]; rewrite Ek; cbn [deref mbind outcome_bind]; by rewrite E|by destruct Hss|].
  intros j. by left.
Qed.
Lemma step_SwapUnlock y k offset size : sys_ok y → enabled y (EvSwapUnlock k offset size) → step_result y (EvSwapUnlock k offset size).
Proof.
  intros Hy ([Ho _] & Hz & v & Ek & Hlen & Hl). destruct (sys_views y Hy k v Ek) as [Hv Hi].
  destruct (Swap_unlockRange_spec v (space y) offset size (sys_space y Hy) Hi Ho Hz Hlen Hl) as (s' & E & H' & Hss & Hq).
  apply (quiet_event y _ s' (reclaimFlags y)); try done. cbn [exec]. rewrite Ek. cbn [deref mbind outcome_bind]. by rewrite E.
Qed.
Lemma step_SwapPeek y k offset : sys_ok y → enabled y (EvSwapPeek k offset) → step_result y (EvSwapPeek k offset).
Proof.
  intros Hy (v & Ek & _). destruct (sys_views y Hy k v Ek) as [Hv Hi].
  destruct (Swap_peekRange_spec v (space y) offset (sys_space y Hy) Hv) as (r & s' & E & H' & Hss & Hq).
  apply (quiet_event y _ s' (reclaimFlags y)); try done. cbn [exec]. rewrite Ek. cbn [deref mbind outcome_bind]. by rewrite E.
Qed.
Lemma step_SwapTouch y k offset flags frame : sys_ok y → enabled y (EvSwapTouch k offset flags frame) →
  step_result y (EvSwapTouch k offset flags frame).
Proof.
  intros Hy ((v & Ek & _) & Hfr). destruct (sys_views y Hy k v Ek) as [Hv Hi]. pose proof (swap_of_view y k v Hy Ek) as Hs.
  destruct (Swap_touchRange_spec v (space y) offset flags frame (sys_space y Hy) Hs (sys_swap y Hy Hs) Hv Hi Hfr)
    as (r & v' & s' & s1 & E & H' & Hss & Hq & His & Es1 & Hv' & Hi' & Hnew & _).
  eapply (view_event y _ k v v' s' s1); try done; [cbn [exec]; rewrite Ek; cbn [deref mbind outcome_bind]; by rewrite E|by rewrite Hs|].
  by rewrite Hs.
Qed.

Lemma step_SwapDestroy y k : sys_ok y → enabled y (EvSwapDestroy k) → step_result y (EvSwapDestroy k).
Proof.
  intros Hy (v & Ek & Hno). destruct (sys_views y Hy k v Ek) as [Hv Hi]. pose proof (swap_of_view y k v Hy Ek) as Hs.
  destruct (Swap_destruct_spec v (space y) (sys_space y Hy) Hi) as (s' & E & H' & (Es & En & _) & Hoth & Hdis).
  { intros i o Ho. destruct (Hv i o Ho) as (p & Ep & Hd). exists p. split; [done|]. split; [done|]. by apply (Hno i o). }
  eexists. split; [cbn [exec]; rewrite Ek; cbn [deref mbind outcome_bind]; by rewrite E|]. split.
  - destruct Hy as [H1 H2 H3 H4 H5 H6]. split; simpl.
    + done.
    + by rewrite En.
    + by rewrite Es, Hs.
    + intros _ j. destruct (decide (j ∈ table_values v)) as [Hj|Hj]; [|rewrite Hoth by done; by apply H4].
      destruct (pages s' !! j) as [p|] eqn:Ep; [|done]. specialize (Hdis j p Hj Ep). unfold swap_opt, swap_page. by rewrite Hdis, orb_true_r.
    + intros k2 v2 [Hne E2]%lookup_delete_Some. destruct (H5 k2 v2 E2) as [Hv2 Hi2]. split; [|done]. intros i o Ho.
      destruct (Hv2 i o Ho) as (p & Ep & Hd). exists p. split; [|done]. rewrite Hoth; [done|].
      intros [i1 T]%elem_table_values. by destruct Hne, (H6 k v i1 k2 v2 i o).
    + intros k2 v2 i2 k3 v3 i3 o [_ E2]%lookup_delete_Some [_ E3]%lookup_delete_Some. by eapply H6.
  - intros j Hj. simpl. rewrite Hoth, issue_label_same; [apply follows_same|]. intros Hin. apply Hj. by exists v.
Qed.

(** Every event that the callers may perform returns: no assertion of the code fails. *)
Lemma exec_ok y e : sys_ok y → enabled y e → step_result y e.
Proof.
  destruct e; eauto using step_BackLock, step_FrontLock, step_Unlock, step_IncUses, step_DecUses, step_MarkDirty, step_Rotate,
    step_ReclaimCollect, step_ReclaimStep, step_DrainCollect, step_DrainFinish, step_Submit, step_Update, step_BackTouch,
    step_FrontTouch, step_FrontPeek, step_Resize, step_SetBudget, step_SwapCreate, step_SwapResize, step_SwapDestroy,
    step_SwapLock, step_SwapUnlock, step_SwapPeek, step_SwapTouch, step_Invalidate, step_InvalidateFinish.
Qed.

(** ** Runs of the system *)
Inductive initial : System → Prop :=
| initial_file length ra s : is_u64 length → ManagedSpace_create length ra = Ret (inr s) →
    initial (MkSystem s (false, false, false) ∅)
| initial_swap length s : 0 ≤ length ≤ backingMemoryLength → SwapSpace_new length = Ret s → initial (MkSystem s (false, false, false) ∅).

(** [run y es y']: the events [es], each one allowed in its turn, lead from [y] to [y']. *)
Inductive run : System → list event → System → Prop :=
| run_nil y : run y [] y
| run_cons y e y1 es y' : enabled y e → exec y e = Ret y1 → run y1 es y' → run y (e :: es) y'.

(** The table of a swap space, as its constructor makes it. *)
Lemma swap_order num : 1 ≤ num ≤ 2 ^ 50 → let k := suitableOrder num in
  0 ≤ k ∧ 1 ≤ num / 2 ^ k ∧ num / 2 ^ k * 2 ^ k ≤ num.
Proof.
  intros Hn k. destruct (suitable_loop_spec num 64 0) as (Hk & _ & Hmin); [lia..|]. fold (suitableOrder num) in Hk, Hmin. fold k in Hk, Hmin.
  split; [lia|]. pose proof (pow2_pos k ltac:(lia)). split; [|rewrite Z.mul_comm; by apply Z.mul_div_le].
  destruct (decide (k = 0)) as [->|Hne]; [rewrite Z.div_1_r; lia|]. specialize (Hmin (k - 1) ltac:(lia)).
  apply Z.div_le_lower_bound; [done|]. replace k with (k - 1 + 1) by lia. rewrite Z.pow_add_r by lia.
  pose proof (pow2_pos (k - 1) ltac:(lia)). pose proof (Z.mul_div_le num (2 ^ (k - 1)) ltac:(done)). nia.
Qed.

Lemma swap_geometry num a : 1 ≤ num ≤ 2 ^ 50 → let k := suitableOrder num in
  Z.of_nat (length a) = table_size (num / 2 ^ k) k → Geometry (MkBuddy 0 0 a (num / 2 ^ k) k).
Proof.
  intros Hn k Ha. destruct (swap_order num Hn) as (Hk & Hr & Hle). fold k in Hk, Hr, Hle.
  split; cbn [tableOrder numRoots sizeShift baseAddress buddy]; try done; try lia.
  - rewrite Z.pow_add_r by lia. nia.
  - rewrite Z.add_0_r. lia.
Qed.

Lemma SwapSpace_new_run length s : 0 ≤ length ≤ backingMemoryLength → SwapSpace_new length = Ret s →
  ∃ a, let k := suitableOrder (length / 4096) in let b := MkBuddy 0 0 a (length / 4096 / 2 ^ k) k in
    s = MkSpace ∅ (λ _, []) empty_bundle ∅ (length / 4096) false true [] false b 0 0 0 [] ∧
    1 ≤ length / 4096 ≤ 2 ^ 50 ∧ Geometry b ∧ WF b.
Proof.
  intros Hl. unfold SwapSpace_new, ManagedSpace_new. rewrite shiftr_pow2 by done. change (2 ^ kPageShift) with 4096.
  set (num := length / 4096). intros E. apply bind_Ret in E as (s0 & E0 & E). apply bind_Ret in E0 as (u & _ & E0).
  injection E0 as <-. apply bind_Ret in E as (u' & Hu & E). apply assert_Ret in Hu.
  cbn [pages lists bundle pfnDb numPages readahead _managementQueue _drainBlocked _budget _budgetClaimed nextMonitor log] in *.
  cbv zeta in E. apply bind_Ret in E as (a & Ha & E). injection E as <-.
  assert (1 ≤ num ≤ 2 ^ 50) as Hn.
  { unfold backingMemoryLength in Hl. assert (0 ≤ num) by (apply Z.div_pos; lia).
    assert (num ≤ 2 ^ 50) by (apply Z.lt_succ_r, Z.div_lt_upper_bound; lia). lia. }
  destruct (swap_order num Hn) as (Hk & Hr & _). set (k := suitableOrder num) in *. rewrite shiftr_pow2 in * by done.
  set (n := num / 2 ^ k) in *.
  assert (Geometry (MkBuddy 0 0 (replicate (Z.to_nat (table_size n k)) 0) n k)) as G0.
  { apply swap_geometry; [done|]. fold k n. rewrite length_replicate, Z2Nat.id; [done|]. unfold table_size.
    pose proof (pow2_pos (k + 1) ltac:(lia)). nia. }
  assert (determineSize n k = table_size n k) as Ed.
  { unfold determineSize. apply (size_loop_spec _ G0); simpl; [lia..|]. replace (k - 0 + 1) with (k + 1) by lia. lia. }
  rewrite Ed in Ha. destruct (initialize_run 0 0 n k _ G0) as (a' & Ha' & G & He).
  rewrite Ha in Ha'. injection Ha' as <-. exists a. split; [done|]. split; [done|]. split; [done|by apply table_full_WF].
Qed.

Lemma empty_space_ok s : pages s = ∅ → (∀ l, lists s l = []) → bundle s = empty_bundle → pfnDb s = ∅ →
  _budget s = 0 → _budgetClaimed s = 0 →
  (isSwapSpace s = true → Geometry (_buddyAccessor s) ∧ WF (_buddyAccessor s) ∧ baseAddress (_buddyAccessor s) = 0 ∧
    sizeShift (_buddyAccessor s) = 0 ∧ numRoots (_buddyAccessor s) * 2 ^ tableOrder (_buddyAccessor s) ≤ numPages s ≤ 2 ^ 52) →
  space_ok s.
Proof.
  intros Ep El Eb Ef Eg Ec Hs. assert (∀ j P, ¬ page_at s j P) as Hno by (intros j P (p & E & _); by rewrite Ep in E).
  split; try done.
  - intros j p E. by rewrite Ep in E.
  - intros g. assert (group_list s g = []) as -> by (destruct g; simpl; by rewrite ?El).
    split; [apply NoDup_nil_2|]. intros j. split; [intros Hj; by apply elem_of_nil in Hj|]. intros [_ Hp]. by destruct (Hno _ _ Hp).
  - rewrite Eb. apply empty_bundle_ok.
  - intros j. rewrite Eb. split; [done|]. intros [_ Hp]. by destruct (Hno _ _ Hp).
  - intros j. by rewrite Eb.
  - intros f j. rewrite Ef. split; [done|]. intros [_ Hp]. by destruct (Hno _ _ Hp).
  - intros j p E. by rewrite Ep in E.
  - unfold claimed_pages. rewrite Ec, Ep. done.
  - rewrite Eg. lia.
  - intros H. destruct (Hs H) as (? & ? & ? & ? & ?). split_and!; try done; try lia. intros j p E. by rewrite Ep in E.
Qed.

Lemma initial_ok y : initial y → sys_ok y.
Proof.
  assert (∀ s, space_ok s → pages s = ∅ → 0 ≤ numPages s ≤ 2 ^ 50 → sys_ok (MkSystem s (false, false, false) ∅)) as Hnew.
  { intros s H Ep Hn. split; simpl; try done.
    - intros _. split; [|done]. intros j p E. by rewrite Ep in E.
    - intros _ j. by rewrite Ep. }
  intros [length ra s [Hl _] E|length s Hl E].
  - unfold ManagedSpace_create in E. destruct (Z.ltb_spec backingMemoryLength length) as [?|Hle]; [done|].
    unfold ManagedSpace_new in E. inv_outcome. subst. simplify_eq. apply Hnew; simpl; [by apply empty_space_ok|done|].
    rewrite shiftr_pow2 by done. unfold backingMemoryLength in Hle. change (2 ^ kPageShift) with 4096.
    split; [apply Z.div_pos; lia|]. apply Z.lt_succ_r, Z.div_lt_upper_bound; lia.
  - destruct (SwapSpace_new_run length s Hl E) as (a & -> & Hn & G & W).
    apply Hnew; [|done|cbn [numPages]; lia]. apply empty_space_ok; try done. intros _.
    cbn [_buddyAccessor numPages baseAddress sizeShift numRoots tableOrder]. split; [apply G|]. split; [apply W|].
    split; [done|]. split; [done|]. destruct (swap_order _ Hn). lia.
Qed.

Lemma exec_step y e y' : sys_ok y → enabled y e → exec y e = Ret y' → sys_ok y' ∧
  ∀ j, ¬ destroys y e j → follows (pages (space y) !! j) (pages (space y') !! j) (labels y e y' j).
Proof. intros Hy He E. destruct (exec_ok y e Hy He) as (y1 & E1 & H). rewrite E in E1. injection E1 as <-. done. Qed.
Lemma run_ok y es y' : sys_ok y → run y es y' → sys_ok y'.
Proof. intros Hy. induction 1 as [|y e y1 es y' He E _ IH]; [done|]. apply IH. by destruct (exec_step y e y1 Hy He E). Qed.

(** C2: whatever sequence of allowed events has happened since a file cache or a swap
    space was created, every further allowed event returns: no assertion of the page
    cache fails, no page is taken from a list that it is not on, no count wraps.  What
    the callers owe for an event to be allowed is [enabled]. *)
Theorem page_cache_safe y0 es y e : initial y0 → run y0 es y → enabled y e → ∃ y', exec y e = Ret y'.
Proof.
  intros H0 Hr He. destruct (exec_ok y e) as (y' & E & _); [|done|by exists y']. by eapply run_ok; [apply initial_ok|].
Qed.

(** C23: at every time every page of a swap space that a view refers to exists, its slot
    is below the size of the space and allocated, and it belongs to that view and that
    index alone: no two pages of swappable memory ever share a slot. *)
Theorem swap_slots_owned y0 es y k v i o : initial y0 → run y0 es y → views y !! k = Some v → _table v !! i = Some o →
  0 ≤ o < numPages (space y) ∧ allocated (_buddyAccessor (space y)) 0 o ∧ page_at (space y) o (λ p, discarded p = false) ∧
  ∀ k' v' i', views y !! k' = Some v' → _table v' !! i' = Some o → k' = k ∧ i' = i.
Proof.
  intros H0 Hr Ek Eo. assert (sys_ok y) as Hy by (by eapply run_ok; [apply initial_ok|]).
  destruct (sys_views y Hy k v Ek) as [Hv Hi]. pose proof (sys_space y Hy) as H. destruct (Hv i o Eo) as (p & Ep & Hd).
  pose proof (inv_keys _ _ _ H o p Ep). destruct (inv_swap _ _ _ H (swap_of_view y k v Hy Ek)) as (_ & _ & _ & _ & _ & Hp).
  destruct (Hp o p Ep) as [Ha Hlt]. split; [lia|]. split; [done|]. split; [by exists p|].
  intros k' v' i' E' T'. pose proof (sys_disjoint y Hy k' v' i' k v i o E' Ek T' Eo) as ->. rewrite Ek in E'. injection E' as <-.
  split; [done|]. by eapply Hi.
Qed.

(** ** Writes are not lost *)

(** [trace j y es ls y']: events [es] that do not destroy page [j]; they do [ls] to it. *)
Inductive trace (j : Z) : System → list event → list label → System → Prop :=
| trace_nil y : trace j y [] [] y
| trace_cons y e y1 es ls y' : enabled y e → ¬ destroys y e j → exec y e = Ret y1 → trace j y1 es ls y' →
    trace j y (e :: es) (labels y e y1 j ++ ls) y'.

Lemma label_steps_app c ls1 ls2 : label_steps c (ls1 ++ ls2) = (c' ← label_steps c ls1; label_steps c' ls2).
Proof. revert c. induction ls1 as [|l ls1 IH]; intros c; [done|]. simpl. destruct (label_step c l); [apply IH|done]. Qed.

Lemma trace_follows j y es ls y' : sys_ok y → trace j y es ls y' → sys_ok y' ∧ follows (pages (space y) !! j) (pages (space y') !! j) ls.
Proof.
  intros Hy. induction 1 as [y|y e y1 es ls y' He Hd E _ IH]; [split; [done|apply follows_same]|].
  destruct (exec_step y e y1 Hy He E) as [H1 F1]. destruct (IH H1) as [H' F']. split; [done|].
  intros c Hc. destruct (F1 j Hd c Hc) as (c1 & L1 & C1). destruct (F' c1 C1) as (c' & L' & C'). exists c'.
  by rewrite label_steps_app, L1.
Qed.

(** A way back to clean contents contains what each kind of contents needs. *)
Definition cleaned (c : dirtiness) (ls : list label) : Prop :=
  match c with
  | Clean => True
  | Flying => ∃ l1 l2, ls = l1 ++ Done :: l2
  | Unsaved | FlyingUnsaved => ∃ l1 l2 l3, ls = l1 ++ Issue :: l2 ++ Done :: l3
  end.
Lemma cleaned_steps ls : ∀ c, label_steps c ls = Some Clean → cleaned c ls.
Proof.
  induction ls as [|l ls IH]; intros c H; [simpl in H; by injection H as ->|]. cbn [label_steps] in H.
  destruct (label_step c l) as [c'|] eqn:El; [|done]. specialize (IH c' H).
  destruct l, c; simpl in El; try done; injection El as <-; simpl in *; try done.
  - destruct IH as (l1 & l2 & l3 & ->). by exists (Write :: l1), l2, l3.
  - destruct IH as (l1 & l2 & l3 & ->). exists (Write :: l1 ++ Issue :: l2), l3. simpl. by rewrite <-app_assoc.
  - destruct IH as (l1 & l2 & l3 & ->). by exists (Write :: l1), l2, l3.
  - destruct IH as (l1 & l2 & ->). by exists [], l1, l2.
  - by exists [], ls.
  - destruct IH as (l1 & l2 & l3 & ->). by exists (Done :: l1), l2, l3.
Qed.

Lemma absent_clean y j c : sys_ok y → (∀ p, pages (space y) !! j = Some p → is_present p = false) →
  contents (pages (space y) !! j) = Some c → c = Clean.
Proof.
  intros Hy Hno Hc. destruct (pages (space y) !! j) as [p|] eqn:Ep; simpl in Hc; [|by injection Hc].
  pose proof (page_ok_at _ j p (sys_space y Hy) Ep) as Hok. specialize (Hno p eq_refl).
  destruct (discarded p) eqn:Hd; [done|]. injection Hc as <-. clear -Hok Hno. unfold class_of. page_solve p.
Qed.

(** C1: a page that has lost its frame (by reclaim, by [invalidateRange], or because it is
    gone) has lost no write: every write to it while it was alive was followed by a
    writeback request and by the completion of that request by the server.  Runs in which
    [invalidateRange] meets an unlocked dirty page or a page that is being evicted
    already are excluded ([invalidable]): there the code drops writes or gets stuck. *)
Theorem no_lost_writes y0 es0 y j es ls y' : initial y0 → run y0 es0 y → trace j y es ls y' →
  contents (pages (space y) !! j) ≠ None →
  (∀ p, pages (space y') !! j = Some p → is_present p = false) →
  ∀ l1 l2, ls = l1 ++ Write :: l2 → ∃ l3 l4 l5, l2 = l3 ++ Issue :: l4 ++ Done :: l5.
Proof.
  intros H0 Hr Ht Hc Hno l1 l2 ->. assert (sys_ok y) as Hy by (by eapply run_ok; [apply initial_ok|]).
  destruct (trace_follows j y es _ y' Hy Ht) as [Hy' F]. destruct (contents (pages (space y) !! j)) as [c|] eqn:Ec; [|done].
  destruct (F c Ec) as (c' & L & C'). apply (absent_clean y' j c' Hy' Hno) in C' as ->.
  rewrite label_steps_app in L. destruct (label_steps c l1) as [c1|]; [|done]. cbn in L.
  destruct c1; cbn in L; by apply cleaned_steps in L.
Qed.

(** ** Requests to the server *)

(** C28: [_progressManagement] takes request nodes from the queue of the server in order
    and hands out one request per maximal run of adjacent pages, in the order of the
    lists, all writebacks before the first initialization; each request names exactly
    the bytes of its run and its pages change to the state of the transaction.  It stops
    only when both lists are empty or no node is left. *)
Theorem requests_fused s : space_ok s →
  ∃ s' wruns wrest iruns irest, _progressManagement s = Ret s' ∧ space_ok s' ∧
    lists s _writebackList = concat wruns ++ wrest ∧ lists s' _writebackList = wrest ∧ runs_ok wruns wrest ∧
    lists s _initializationList = concat iruns ++ irest ∧ lists s' _initializationList = irest ∧ runs_ok iruns irest ∧
    _managementQueue s' = drop (length wruns + length iruns) (_managementQueue s) ∧
    (wrest = [] ∧ irest = [] ∨ _managementQueue s' = []) ∧ (wrest ≠ [] → iruns = []) ∧
    log s' = (log s ++ (run_request MR_writeback <$> zip (take (length wruns) (_managementQueue s)) wruns))
      ++ (run_request MR_initialize <$> zip (take (length iruns) (drop (length wruns) (_managementQueue s))) iruns) ∧
    (∀ j, (j ∈ concat wruns ∧ requested s s' j wantWriteback writeback) ∨
          (j ∈ concat iruns ∧ requested s s' j wantInitialization initialization) ∨ pages s' !! j = pages s !! j).
Proof.
  intros H. destruct (progressManagement_spec s H) as
    (s' & wruns & wrest & iruns & irest & E & H' & _ & Ew & Ew' & Hw & Ei & Ei' & Hi & _ & Em & _ & Hend & Hfirst & Hlog & Hp).
  exists s', wruns, wrest, iruns, irest. repeat (split; [done|]). split; [|by repeat (split; [done|])].
  destruct Hend as [?|Hend]; [by left|right]. by rewrite Em, Hend, drop_all.
Qed.

Lemma drain_finish_dirty s j : space_ok s → no_discards s → page_at s j (λ p, transactionState p = pendingWriteback) →
  ∃ s', drain_finish s = Ret s' ∧
    (page_at s' j (λ p, transactionState p = writeback) ∨
     page_at s' j (λ p, transactionState p = wantWriteback) ∧ _managementQueue s' = []).
Proof.
  intros H Hn (p & Ep & Ht).
  assert (j ∈ lists s drain_pending) as Hj.
  { apply (inv_group _ _ _ H GPending). split; [done|]. exists p. by rewrite Ht. }
  destruct (drain_finish_loop_spec (lists s drain_pending) s false H eq_refl) as (b & s1 & E1 & H1 & _ & _ & _ & _ & _ & Hw).
  destruct (Hw j p Ep Hj (Hn j p Ep)) as (p1 & Ep1 & Ht1).
  assert (j ∈ lists s1 _writebackList) as Hj1.
  { apply (inv_group _ _ _ H1 GWriteback). split; [done|]. exists p1. by rewrite Ht1. }
  destruct (progressManagement_spec s1 H1) as
    (s2 & wruns & wrest & iruns & irest & E2 & H2 & _ & Ew & Ew' & Hwo & _ & _ & _ & _ & Em & _ & Hend & _ & _ & Hp).
  unfold drain_finish. rewrite E1. cbn [mbind outcome_bind]. rewrite E2. cbn [mbind outcome_bind]. eexists. split; [done|].
  assert (pages (emit_if b s2 RaiseDiscard) = pages s2 ∧ _managementQueue (emit_if b s2 RaiseDiscard) = _managementQueue s2)
    as [Epg Emq] by (by destruct b). unfold page_at. rewrite Epg, Emq.
  destruct (Hp j) as [(_ & q & Eq & _ & Eq')|[(_ & q & Eq & Htq & _)|Hq]].
  - left. by exists (set_tx q writeback).
  - congruence.
  - right. split; [exists p1; by rewrite Hq|]. destruct Hend as [[-> _]|Hend]; [|by rewrite Em, Hend, drop_all].
    assert (page_at s2 j (λ p, home (transactionState p) = Some GWriteback)) as Hat by (exists p1; by rewrite Hq, Ht1).
    assert (j ∈ group_list s2 GWriteback) as Hin by (by apply (inv_group _ _ _ H2 GWriteback)).
    simpl in Hin. rewrite Ew' in Hin. by apply elem_of_nil in Hin.
Qed.

(** C27: one round of [_runDrainLoop] of a file cache requests the writeback of every
    dirty page: a page that is dirty when the round starts is under writeback after it,
    unless the server has no request node left, and then it waits for the next one. *)
Theorem drain_round y0 es y j y1 : initial y0 → run y0 es y → isSwapSpace (space y) = false →
  page_at (space y) j (λ p, transactionState p = dirty) → enabled y EvDrainCollect → exec y EvDrainCollect = Ret y1 →
  ∃ y2, exec y1 EvDrainFinish = Ret y2 ∧
    (page_at (space y2) j (λ p, transactionState p = writeback) ∨
     page_at (space y2) j (λ p, transactionState p = wantWriteback) ∧ _managementQueue (space y2) = []).
Proof.
  intros H0 Hr Hs Hj He E. assert (sys_ok y) as Hy by (by eapply run_ok; [apply initial_ok|]).
  destruct (exec_step y _ y1 Hy He E) as [Hy1 _].
  destruct (drain_collect_spec (space y) (sys_space y Hy)) as (s' & E' & H' & Hss & _ & Hd).
  cbn [exec] in E. rewrite E' in E. injection E as <-. destruct Hss as (Es & _).
  destruct (drain_finish_dirty s' j H') as (s2 & E2 & Hj2).
  - apply (sys_file _ Hy1). by rewrite <-Hs.
  - by apply Hd.
  - exists (set_space (set_space y s') s2). split; [|done]. cbn [exec space set_space]. by rewrite E2.
Qed.

(** ** A file cache of four pages

    Two pages are read, written and written back; then the first one is reclaimed. *)
Definition example_system : System :=
  MkSystem (MkSpace ∅ (λ _, []) empty_bundle ∅ 4 false false [] false (MkBuddy 0 0 [] 0 0) 0 0 0 []) (false, false, false) ∅.
Definition example_load : list event :=
  [EvFrontTouch 0 0; EvFrontTouch 4096 0; EvSubmit 7; EvBackTouch 0 1048576; EvBackTouch 4096 1052672;
   EvUpdate MR_initialize 0 8192; EvMarkDirty 0; EvMarkDirty 1].
Definition example_save : list event :=
  [EvDrainCollect; EvDrainFinish; EvSubmit 8; EvUpdate MR_writeback 0 8192].
Definition example_evict : list event := replicate 8 EvRotate ++ [EvReclaimCollect; EvReclaimStep].

Lemma example_initial : initial example_system.
Proof. apply (initial_file 16384 false); [split; lia|reflexivity]. Qed.

Ltac allowed :=
  lazymatch goal with
  | |- enabled _ (EvFrontTouch _ _) => split; [split; lia|reflexivity]
  | |- enabled _ (EvBackTouch _ _) =>
      split; [split; lia|]; split; [by (intros _; split; [vm_compute; intuition congruence|done])|];
      split; [done|]; split; [reflexivity|done]
  | |- enabled _ (EvUpdate MR_initialize _ _) =>
      split; [split; lia|]; split; [split; lia|]; intros _ i p;
      (let l := eval vm_compute in (page_indices 0 8192) in change (page_indices 0 8192) with l);
      intros Hi; repeat (apply elem_of_cons in Hi as [->|Hi]; [vm_compute; by intros [= <-]|]);
      by apply elem_of_nil in Hi
  | |- enabled _ (EvUpdate _ _ _) => split; [split; lia|]; split; [split; lia|done]
  | |- enabled _ (EvMarkDirty _) => eexists; split; [reflexivity|done]
  | |- enabled _ EvReclaimCollect => split; reflexivity
  | |- enabled _ (EvInvalidate _) => intros _ p; vm_compute; by intros [= <-]
  | |- enabled _ (EvInvalidateFinish _) => split; [reflexivity|left]
  | |- enabled _ EvDrainCollect => reflexivity
  | |- enabled _ _ => exact I
  end.

Lemma trace_step j y e y1 l es ls y' : enabled y e → ¬ destroys y e j → exec y e = Ret y1 → labels y e y1 j = l → trace j y1 es ls y' →
  trace j y (e :: es) (l ++ ls) y'.
Proof. intros H1 H2 H3 <- H4. by apply trace_cons with (e := e). Qed.

Ltac run_events := repeat (eapply run_cons; [allowed|vm_compute; reflexivity|]); apply run_nil.

Lemma example_loaded : ∃ y, run example_system example_load y ∧ isSwapSpace (space y) = false ∧
  page_at (space y) 1 (λ p, transactionState p = dirty) ∧ enabled y EvDrainCollect ∧
  ∃ y1, exec y EvDrainCollect = Ret y1.
Proof.
  eexists. split; [run_events|]. split; [reflexivity|]. split; [by eexists; split; [reflexivity|]|].
  split; [reflexivity|]. eexists. vm_compute. reflexivity.
Qed.

Lemma example_traced : ∃ ls y, trace 0 example_system (example_load ++ example_save ++ example_evict) ls y ∧
  ls = [Write; Issue; Done] ∧ ∀ p, pages (space y) !! 0 = Some p → is_present p = false.
Proof.
  eexists _, _. split.
  - repeat (eapply trace_step; [allowed|by intros []|vm_compute; reflexivity|vm_compute; reflexivity|]). apply trace_nil.
  - split; [reflexivity|]. vm_compute. by intros p [= <-].
Qed.

(** The same page taken out of the cache by the server. *)
Lemma example_invalidated : ∃ ls y,
  trace 0 example_system (example_load ++ example_save ++ [EvInvalidate 0; EvInvalidateFinish 0]) ls y ∧
  ls = [Write; Issue; Done] ∧ ∀ p, pages (space y) !! 0 = Some p → is_present p = false.
Proof.
  eexists _, _. split.
  - repeat (eapply trace_step; [allowed|by intros []|vm_compute; reflexivity|vm_compute; reflexivity|]). apply trace_nil.
  - split; [reflexivity|]. vm_compute. by intros p [= <-].
Qed.

Lemma page_cache_safe_witness : ∃ y y', run example_system example_load y ∧ exec y EvDrainCollect = Ret y'.
Proof.
  destruct example_loaded as (y & Hr & _ & _ & He & _).
  destruct (page_cache_safe example_system example_load y EvDrainCollect example_initial Hr He) as (y' & E). by exists y, y'.
Defined.

Lemma no_lost_writes_witness : ∃ l3 l4 l5, [Issue; Done] = l3 ++ Issue :: l4 ++ Done :: l5.
Proof.
  destruct example_traced as (ls & y & Ht & -> & Hno).
  apply (no_lost_writes example_system [] example_system 0 _ _ y example_initial (run_nil _) Ht) with (l1 := []); done.
Defined.

(** A swap space of two pages; a view of one page is filled with zeros. *)
Definition example_swap : System :=
  MkSystem (MkSpace ∅ (λ _, []) empty_bundle ∅ 2 false true [] false (MkBuddy 0 0 [0; 0] 2 0) 0 0 0 []) (false, false, false) ∅.
Lemma example_swap_initial : initial example_swap.
Proof. apply (initial_swap 8192); [unfold backingMemoryLength; lia|reflexivity]. Qed.

Lemma example_swapped : ∃ y v, run example_swap [EvSwapCreate 1 4096; EvSwapTouch 1 0 0 1048576] y ∧
  views y !! 1 = Some v ∧ _table v !! 0 = Some 0.
Proof.
  eexists _, _. split; [|split].
  - eapply run_cons; [by split_and!|vm_compute; reflexivity|].
    eapply run_cons; [split; [by eexists|done]|vm_compute; reflexivity|]. apply run_nil.
  - vm_compute. reflexivity.
  - vm_compute. reflexivity.
Qed.

Lemma swap_slots_owned_witness : ∃ y, run example_swap [EvSwapCreate 1 4096; EvSwapTouch 1 0 0 1048576] y ∧
  0 ≤ 0 < numPages (space y) ∧ allocated (_buddyAccessor (space y)) 0 0.
Proof.
  destruct example_swapped as (y & v & Hr & Ek & Eo).
  destruct (swap_slots_owned example_swap _ y 1 v 0 0 example_swap_initial Hr Ek Eo) as (H1 & H2 & _). by exists y.
Defined.

(** Two adjacent pages wait for one request. *)
Lemma example_waiting : ∃ y, run example_system [EvFrontTouch 0 0; EvFrontTouch 4096 0] y ∧
  ∀ s', _progressManagement (set_managementQueue (space y) [7]) = Ret s' → log s' = [Complete 7 MR_initialize 0 8192].
Proof. eexists. split; [run_events|]. intros s' E. vm_compute in E. by injection E as <-. Qed.

Lemma requests_fused_witness : ∃ s s', _progressManagement s = Ret s' ∧ log s' = [Complete 7 MR_initialize 0 8192].
Proof.
  destruct example_waiting as (y & Hr & Hlog). exists (set_managementQueue (space y) [7]).
  destruct (requests_fused (set_managementQueue (space y) [7])) as (s' & _ & _ & _ & _ & E & _); [|exists s'; by split; [|apply Hlog]].
  apply Inv_management. apply (run_ok _ _ _ (initial_ok _ example_initial) Hr).
Defined.

Lemma drain_round_witness : ∃ y1 y2, exec y1 EvDrainFinish = Ret y2.
Proof.
  destruct example_loaded as (y & Hr & Hs & Hj & He & y1 & E).
  destruct (drain_round example_system example_load y 1 y1 example_initial Hr Hs Hj He E) as (y2 & E2 & _). by exists y1, y2.
Defined.

(** ** Behaviour outside of [enabled]

    What the code does on calls that the model of the callers excludes. *)

(** [invalidateRange] of a dirty page leaves the page on [_dirtyList] in another state:
    the next round of the drain loop fails its assertion. *)
Lemma invalidate_breaks_drain : ∃ y s, run example_system example_load y ∧
  invalidate_page (space y) 0 = Ret (InvalidateEvict, s) ∧ ∀ s', drain_collect s ≠ Ret s'.
Proof. eexists _, _. split; [run_events|]. split; [vm_compute; reflexivity|]. intros s' E. vm_compute in E. done. Qed.

(** [writebackFence] does not wait for pages that are dirty but not yet requested. *)
Lemma fence_misses_dirty : ∃ y, run example_system example_load y ∧
  page_at (space y) 0 (λ p, transactionState p = dirty) ∧ writebackFence_scan (space y) 0 16384 = inr None.
Proof. eexists. split; [run_events|]. split; [by eexists; split; [reflexivity|]|]. reflexivity. Qed.

(** The pages that [lockPages] locks for a range that is not aligned: the last byte of
    the range, on page 1, is not covered. *)
Lemma misaligned_lock_misses_page : page_indices 4095 2 = [0] ∧ (4095 + 2 - 1) / kPageSize = 1.
Proof. split; reflexivity. Qed.

(** A server that touches a slot of a swap space before it is allocated makes the
    allocation of that slot fail an assertion. *)
Lemma backing_touch_breaks_translate : ∃ r s, Backing_touchRange (space example_swap) 0 1048576 = Ret (r, s) ∧
  ∀ r', _translate (MkSwappable 4096 ∅) s 0 ≠ Ret r'.
Proof. eexists _, _. split; [vm_compute; reflexivity|]. intros r' E. vm_compute in E. done. Qed.

(** A server that reports a page as initialized without having touched it makes the
    next access of a client fail an assertion. *)
Lemma initialize_without_frame : ∃ y s, run example_system [EvFrontTouch 0 0; EvSubmit 7] y ∧
  updateRange (space y) MR_initialize 0 4096 = Ret (E_success, s) ∧ ∀ r, Frontal_peekRange s 0 ≠ Ret r.
Proof. eexists _, _. split; [run_events|]. split; [vm_compute; reflexivity|]. intros r E. vm_compute in E. done. Qed.
