(* ===== verification/CowMemory.v ===== *)
(** * Copy-on-write memory

    [CopyOnWriteMemory], [CowChain] and [CowPage] of kernel/thor/generic/memory-view.cpp.

    Pages and chains are objects that several views share; they are named by numbers,
    and the world maps the names to the objects.  The root view that a view copies from
    is a parameter: what its [peekRange] returns and what its [copyFrom] reads.  The
    contents of a page frame are of any type.

    The coroutines [touchRange] and [fork] are the sequences of their critical sections;
    what they keep across their suspension points is part of the world: the copy of a
    page in flight is kept under the name of the page, a fork in flight under the name
    of the forked view. *)
From Stdlib Require Import ZArith Lia ZifyBool.
From stdpp Require Import base list numbers option gmap fin_maps.
From S2P Require Import Prelude PageConsts ManagedSpace.
Open Scope Z_scope.

Inductive CowState := cow_null | inProgress | hasCopy.
#[export] Instance CowState_eq_dec : EqDecision CowState.
Proof. solve_decision. Defined.

Record CowPage := MkCowPage {
  cp_physical : Z;
  cp_state : CowState;
  cp_lockCount : Z;
}.
Definition new_cow_page : CowPage := MkCowPage noFrame cow_null 0.
Definition is_cow (s : CowState) (p : CowPage) : bool := bool_decide (cp_state p = s).
Definition set_cow_state (p : CowPage) (s : CowState) : CowPage := MkCowPage (cp_physical p) s (cp_lockCount p).
Definition set_cow_lock (p : CowPage) (n : Z) : CowPage := MkCowPage (cp_physical p) (cp_state p) n.

Record CopyOnWriteMemory := MkCow {
  _view : Z;
  _viewOffset : Z;
  _cowLength : Z;
  _copyChain : option nat;
  _ownedPages : gmap Z nat;
}.
Definition set_owned (m : CopyOnWriteMemory) (o : gmap Z nat) : CopyOnWriteMemory :=
  MkCow (_view m) (_viewOffset m) (_cowLength m) (_copyChain m) o.
Definition set_chain (m : CopyOnWriteMemory) (c : option nat) : CopyOnWriteMemory :=
  MkCow (_view m) (_viewOffset m) (_cowLength m) c (_ownedPages m).

(** [touchRange] between the start of a copy and its end: [t_frame] is the frame once
    the contents are copied. *)
Record Touch := MkTouch {
  t_memory : nat;
  t_index : Z;
  t_chain : option nat;
  t_frame : option Z;
}.
(** [fork] in flight. *)
Record Fork := MkFork {
  f_memory : nat;
  f_newChain : nat;
  f_inProgress : list (Z * nat);
  f_lockedCopies : list (Z * nat);
}.

Section cow.
Context {A : Type}.

Record World := MkWorld {
  cowPages : gmap nat CowPage;
  cowChains : gmap nat (gmap Z nat);
  memories : gmap nat CopyOnWriteMemory;
  frames : gmap Z A;
  cowPfns : gset Z;
  touches : gmap nat Touch;
  forks : gmap nat Fork;
  nextId : nat;
}.
Definition set_cowPages (w : World) v := MkWorld v (cowChains w) (memories w) (frames w) (cowPfns w) (touches w) (forks w) (nextId w).
Definition set_cowChains (w : World) v := MkWorld (cowPages w) v (memories w) (frames w) (cowPfns w) (touches w) (forks w) (nextId w).
Definition set_memories (w : World) v := MkWorld (cowPages w) (cowChains w) v (frames w) (cowPfns w) (touches w) (forks w) (nextId w).
Definition set_frames (w : World) v := MkWorld (cowPages w) (cowChains w) (memories w) v (cowPfns w) (touches w) (forks w) (nextId w).
Definition set_cowPfns (w : World) v := MkWorld (cowPages w) (cowChains w) (memories w) (frames w) v (touches w) (forks w) (nextId w).
Definition set_touches (w : World) v := MkWorld (cowPages w) (cowChains w) (memories w) (frames w) (cowPfns w) v (forks w) (nextId w).
Definition set_forks (w : World) v := MkWorld (cowPages w) (cowChains w) (memories w) (frames w) (cowPfns w) (touches w) v (nextId w).
Definition new_id (w : World) : nat * World :=
  (nextId w, MkWorld (cowPages w) (cowChains w) (memories w) (frames w) (cowPfns w) (touches w) (forks w) (S (nextId w))).

Definition set_cow_page (w : World) (p : nat) (v : CowPage) : World := set_cowPages w (<[p := v]> (cowPages w)).
Definition set_memory (w : World) (m : nat) (v : CopyOnWriteMemory) : World := set_memories w (<[m := v]> (memories w)).

(** The key of a page of a view in its chain. *)
Definition chain_key (m : CopyOnWriteMemory) (index : Z) : Z :=
  Z.shiftr (u64 (_viewOffset m + index * kPageSize)) kPageShift.
Definition chain_find (w : World) (chain : option nat) (key : Z) : option nat :=
  c ← chain; pages ← cowChains w !! c; pages !! key.

(** [CopyOnWriteMemory::create] *)
Definition Cow_new (view offset length : Z) (chain : option nat) : outcome CopyOnWriteMemory :=
  assert! negb (length =? 0);
  assert! negb (misaligned offset);
  assert! negb (misaligned length);
  Ret (MkCow view offset length chain ∅).
Definition Cow_create (w : World) (view offset length : Z) : outcome (nat * World) :=
  m ← Cow_new view offset length None;
  let '(id, w) := new_id w in
  Ret (id, set_memory w id m).

(** ** Locks *)
Definition cow_indices (offset size : Z) : list Z :=
  (λ pg, Z.shiftr (u64 (offset + pg * kPageSize)) kPageShift) <$> seqZ 0 ((size + kPageSize - 1) / kPageSize).

Definition cow_lock (w : World) (id : nat) (index : Z) : outcome World :=
  m ← deref (memories w !! id);
  match _ownedPages m !! index with
  | Some p =>
      page ← deref (cowPages w !! p);
      Ret (set_cow_page w p (set_cow_lock page (u32 (cp_lockCount page + 1))))
  | None =>
      let '(p, w) := new_id w in
      let w := set_cow_page w p (set_cow_lock new_cow_page 1) in
      Ret (set_memory w id (set_owned m (<[index := p]> (_ownedPages m))))
  end.
Fixpoint cow_lock_loop (w : World) (id : nat) (indices : list Z) : outcome World :=
  match indices with
  | [] => Ret w
  | index :: indices => w ← cow_lock w id index; cow_lock_loop w id indices
  end.
Definition Cow_lockRange (w : World) (id : nat) (offset size : Z) : outcome World :=
  cow_lock_loop w id (cow_indices offset size).

Definition cow_unlock (w : World) (id : nat) (index : Z) : outcome World :=
  m ← deref (memories w !! id);
  p ← deref (_ownedPages m !! index);
  page ← deref (cowPages w !! p);
  assert! 0 <? cp_lockCount page;
  Ret (set_cow_page w p (set_cow_lock page (u32 (cp_lockCount page - 1)))).
Fixpoint cow_unlock_loop (w : World) (id : nat) (indices : list Z) : outcome World :=
  match indices with
  | [] => Ret w
  | index :: indices => w ← cow_unlock w id index; cow_unlock_loop w id indices
  end.
Definition Cow_unlockRange (w : World) (id : nat) (offset size : Z) : outcome World :=
  cow_unlock_loop w id (cow_indices offset size).

(** ** Access

    [rootPeek] is [peekRange] of the root views. *)
Variable rootPeek : Z → Z → Z → PhysicalRange.
(** What [copyFrom] of the root views reads; nothing if it fails. *)
Variable rootPage : Z → Z → option A.

Definition fetchRequireMutable : Z := 1.

Definition owned_page (w : World) (m : CopyOnWriteMemory) (index : Z) : outcome (option CowPage) :=
  match _ownedPages m !! index with
  | Some p => page ← deref (cowPages w !! p); Ret (Some page)
  | None => Ret None
  end.

Definition Cow_peekRange (w : World) (id : nat) (offset flags : Z) : outcome PhysicalRange :=
  let misalign := Z.land offset (kPageSize - 1) in
  m ← deref (memories w !! id);
  if _cowLength m <=? offset then Ret no_range
  else
    owned ← owned_page w m (Z.shiftr offset kPageShift);
    match owned with
    | Some page =>
        if is_cow hasCopy page then
          assert! negb (cp_physical page =? noFrame);
          Ret (MkRange (u64 (cp_physical page + misalign)) (kPageSize - misalign) CM_null true)
        else Ret no_range
    | None =>
        if flag flags fetchRequireMutable then Ret no_range
        else
          let totalOffset := u64 (_viewOffset m + offset) in
          match chain_find w (_copyChain m) (Z.shiftr totalOffset kPageShift) with
          | Some p =>
              page ← deref (cowPages w !! p);
              Ret (MkRange (u64 (cp_physical page + misalign)) (kPageSize - misalign) CM_null false)
          | None =>
              let range := rootPeek (_view m) totalOffset flags in
              if negb (pr_physical range =? noFrame)
              then Ret (MkRange (pr_physical range) (Z.min (pr_size range) (kPageSize - misalign)) (pr_cachingMode range) false)
              else Ret no_range
          end
    end.

(** How [touchRange] goes on after its first critical section. *)
Inductive cow_touch :=
| CowFault
| CowDone (size : Z)
| CowPassChain (size : Z)
| CowPassRoot (view offset : Z)
| CowWait (page : nat)
| CowCopy (page : nat).

Definition Cow_touch_begin (w : World) (id : nat) (offset flags : Z) : outcome (cow_touch * World) :=
  let misalign := Z.land offset (kPageSize - 1) in
  let index := Z.shiftr offset kPageShift in
  m ← deref (memories w !! id);
  let totalOffset := u64 (_viewOffset m + offset) in
  if _cowLength m <=? offset then Ret (CowFault, w)
  else
    match _ownedPages m !! index with
    | Some p =>
        page ← deref (cowPages w !! p);
        match cp_state page with
        | hasCopy =>
            assert! negb (cp_physical page =? noFrame);
            Ret (CowDone (kPageSize - misalign), w)
        | inProgress => Ret (CowWait p, w)
        | cow_null =>
            let w := set_cow_page w p (set_cow_state page inProgress) in
            Ret (CowCopy p, set_touches w (<[p := MkTouch id index (_copyChain m) None]> (touches w)))
        end
    | None =>
        if flag flags fetchRequireMutable then
          let '(p, w) := new_id w in
          let w := set_cow_page w p (set_cow_state new_cow_page inProgress) in
          let w := set_memory w id (set_owned m (<[index := p]> (_ownedPages m))) in
          Ret (CowCopy p, set_touches w (<[p := MkTouch id index (_copyChain m) None]> (touches w)))
        else
          match chain_find w (_copyChain m) (Z.shiftr totalOffset kPageShift) with
          | Some _ => Ret (CowPassChain (kPageSize - misalign), w)
          | None => Ret (CowPassRoot (_view m) totalOffset, w)
          end
    end.

(** The frame is allocated and filled from the chain or from the root view.  The result
    is false if [copyFrom] fails: [touchRange] then returns, the page stays in progress
    and the frame is lost. *)
Definition Cow_touch_copy (w : World) (p : nat) (physical : Z) : outcome (bool * World) :=
  t ← deref (touches w !! p);
  m ← deref (memories w !! t_memory t);
  assert! negb (physical =? noFrame);
  let key := chain_key m (t_index t) in
  let filled (contents : A) :=
    set_touches (set_frames w (<[physical := contents]> (frames w)))
      (<[p := MkTouch (t_memory t) (t_index t) (t_chain t) (Some physical)]> (touches w)) in
  match chain_find w (t_chain t) key with
  | Some src =>
      srcPage ← deref (cowPages w !! src);
      assert! is_cow hasCopy srcPage;
      assert! negb (cp_physical srcPage =? noFrame);
      contents ← deref (frames w !! cp_physical srcPage);
      Ret (true, filled contents)
  | None =>
      match rootPage (_view m) (Z.shiftl key kPageShift) with
      | Some contents => Ret (true, filled contents)
      | None => Ret (false, set_touches w (delete p (touches w)))
      end
  end.

(** Behind [breakRange]. *)
Definition Cow_touch_finish (w : World) (p : nat) : outcome World :=
  t ← deref (touches w !! p);
  physical ← deref (t_frame t);
  page ← deref (cowPages w !! p);
  assert! is_cow inProgress page;
  let w := set_cow_page w p (MkCowPage physical hasCopy (cp_lockCount page)) in
  Ret (set_touches (set_cowPfns w ({[physical]} ∪ cowPfns w)) (delete p (touches w))).

(** The wait of [touchRange] for a copy by somebody else is over. *)
Definition Cow_wait_over (w : World) (p : nat) : outcome bool :=
  page ← deref (cowPages w !! p);
  if is_cow inProgress page then Ret false
  else
    assert! is_cow hasCopy page;
    Ret true.

(** ** Fork *)

(** What the loop over the pages of the view builds. *)
Record Scan := MkScan {
  sc_owned : gmap Z nat;
  sc_chain : gmap Z nat;
  sc_inProgress : list (Z * nat);
  sc_locked : list (Z * nat);
}.
Definition scan_page (w : World) (m : CopyOnWriteMemory) (curChain : option nat) (sc : Scan) (index : Z) : outcome Scan :=
  match sc_owned sc !! index with
  | None =>
      match chain_find w curChain (chain_key m index) with
      | Some p =>
          page ← deref (cowPages w !! p);
          assert! is_cow hasCopy page;
          Ret (MkScan (sc_owned sc) (<[chain_key m index := p]> (sc_chain sc)) (sc_inProgress sc) (sc_locked sc))
      | None => Ret sc
      end
  | Some p =>
      page ← deref (cowPages w !! p);
      match cp_state page with
      | cow_null => Ret sc
      | inProgress => Ret (MkScan (sc_owned sc) (sc_chain sc) (sc_inProgress sc ++ [(index, p)]) (sc_locked sc))
      | hasCopy =>
          if negb (cp_lockCount page =? 0)
          then Ret (MkScan (sc_owned sc) (sc_chain sc) (sc_inProgress sc) (sc_locked sc ++ [(index, p)]))
          else
            assert! negb (cp_physical page =? noFrame);
            Ret (MkScan (delete index (sc_owned sc)) (<[chain_key m index := p]> (sc_chain sc))
                   (sc_inProgress sc) (sc_locked sc))
      end
  end.
Fixpoint scan_loop (w : World) (m : CopyOnWriteMemory) (curChain : option nat) (sc : Scan) (indices : list Z) : outcome Scan :=
  match indices with
  | [] => Ret sc
  | index :: indices => sc ← scan_page w m curChain sc index; scan_loop w m curChain sc indices
  end.
Definition all_indices (m : CopyOnWriteMemory) : list Z := seqZ 0 (_cowLength m / kPageSize).

(** The first critical section; the result is the name of the forked view. *)
Definition Cow_fork_begin (w : World) (id : nat) : outcome (nat * World) :=
  m ← deref (memories w !! id);
  let curChain := _copyChain m in
  let '(newChain, w) := new_id w in
  forked ← Cow_new (_view m) (_viewOffset m) (_cowLength m) (Some newChain);
  let '(forkedId, w) := new_id w in
  sc ← scan_loop w m curChain (MkScan (_ownedPages m) ∅ [] []) (all_indices m);
  let w := set_cowChains w (<[newChain := sc_chain sc]> (cowChains w)) in
  let w := set_memory w id (set_owned (set_chain m (Some newChain)) (sc_owned sc)) in
  let w := set_memory w forkedId forked in
  Ret (forkedId, set_forks w (<[forkedId := MkFork id newChain (sc_inProgress sc) (sc_locked sc)]> (forks w))).

Definition still_waiting (w : World) (f : Fork) : bool :=
  existsb (λ ip : Z * nat, match cowPages w !! ip.2 with Some page => is_cow inProgress page | None => false end) (f_inProgress f).

(** The second critical section, when no copy is in progress any more. *)
Definition settle_page (w : World) (id newChain : nat) (index : Z) (p : nat) : outcome (bool * World) :=
  page ← deref (cowPages w !! p);
  assert! is_cow hasCopy page;
  if negb (cp_lockCount page =? 0) then Ret (true, w)
  else
    assert! negb (cp_physical page =? noFrame);
    m ← deref (memories w !! id);
    chain ← deref (cowChains w !! newChain);
    let w := set_cowChains w (<[newChain := <[chain_key m index := p]> chain]> (cowChains w)) in
    Ret (false, set_memory w id (set_owned m (delete index (_ownedPages m)))).
Fixpoint settle_loop (w : World) (id newChain : nat) (pages : list (Z * nat)) (locked : list (Z * nat)) :
    outcome (list (Z * nat) * World) :=
  match pages with
  | [] => Ret (locked, w)
  | (index, p) :: pages =>
      '(isLocked, w) ← settle_page w id newChain index p;
      settle_loop w id newChain pages (if isLocked : bool then locked ++ [(index, p)] else locked)
  end.
Definition Cow_fork_settle (w : World) (forkedId : nat) : outcome World :=
  f ← deref (forks w !! forkedId);
  if still_waiting w f then Ret w
  else
    '(locked, w) ← settle_loop w (f_memory f) (f_newChain f) (f_inProgress f) (f_lockedCopies f);
    Ret (set_forks w (<[forkedId := MkFork (f_memory f) (f_newChain f) [] locked]> (forks w))).

(** The loop over the locked pages, one page at a time. *)
Definition Cow_fork_copy (w : World) (forkedId : nat) (copyPhysical : Z) : outcome World :=
  f ← deref (forks w !! forkedId);
  match f_lockedCopies f with
  | [] => Ret w
  | (index, p) :: rest =>
      assert! negb (copyPhysical =? noFrame);
      src ← deref (cowPages w !! p);
      contents ← deref (frames w !! cp_physical src);
      let w := set_frames w (<[copyPhysical := contents]> (frames w)) in
      let '(copy, w) := new_id w in
      let w := set_cow_page w copy (MkCowPage copyPhysical hasCopy 0) in
      let w := set_cowPfns w ({[copyPhysical]} ∪ cowPfns w) in
      forked ← deref (memories w !! forkedId);
      let w := set_memory w forkedId (set_owned forked (<[index := copy]> (_ownedPages forked))) in
      Ret (set_forks w (<[forkedId := MkFork (f_memory f) (f_newChain f) (f_inProgress f) rest]> (forks w)))
  end.
(** [co_return] *)
Definition Cow_fork_return (w : World) (forkedId : nat) : World := set_forks w (delete forkedId (forks w)).

(** ** Destruction *)

(** [CowPage::~CowPage], run when the last reference is gone. *)
Definition CowPage_destruct (w : World) (p : nat) : outcome World :=
  page ← deref (cowPages w !! p);
  let w := set_cowPages w (delete p (cowPages w)) in
  if is_cow cow_null page then Ret w
  else
    assert! is_cow hasCopy page;
    assert! negb (cp_physical page =? noFrame);
    let w := set_frames w (delete (cp_physical page) (frames w)) in
    Ret (set_cowPfns w (cowPfns w ∖ {[cp_physical page]})).
Definition CowChain_destruct (w : World) (c : nat) : World := set_cowChains w (delete c (cowChains w)).
Definition Cow_destruct (w : World) (id : nat) : World := set_memories w (delete id (memories w)).

End cow.
Arguments World A : clear implicits.
