(* ===== verification/CowProofs.v ===== *)
(** * Copy-on-write memory: isolation

    What a program reads through each view, and that nothing but a write to the view
    itself ever changes it: pages that are copied, moved to chains, copied eagerly or
    shared between views are not observable. *)
From Stdlib Require Import ZArith Lia ZifyBool.
From stdpp Require Import base list numbers option gmap fin_maps.
From S2P Require Import Prelude PageConsts ManagedSpace CowMemory.
Open Scope Z_scope.

Definition is_word (z : Z) : Prop := 0 ≤ z < 2 ^ 64.

Section cow.
Context {A : Type} (rootPage : Z → Z → option A).
Implicit Types (w : World A) (m : CopyOnWriteMemory) (p id c : nat) (i k : Z) (f : Fork) (t : Touch).

(** ** Contents *)
Definition frame_contents w p : option A := page ← cowPages w !! p; frames w !! cp_physical page.
(** What a view reads where it owns no copy. *)
Definition source w (chain : option nat) m i : option A :=
  match chain_find w chain (chain_key m i) with
  | Some p => frame_contents w p
  | None => rootPage (_view m) (Z.shiftl (chain_key m i) kPageShift)
  end.
Definition owned_contents w m i p : option A :=
  page ← cowPages w !! p;
  match cp_state page with
  | hasCopy => frames w !! cp_physical page
  | inProgress => t ← touches w !! p; source w (t_chain t) m i
  | cow_null => source w (_copyChain m) m i
  end.
Definition denote_memory w m i : option A :=
  match _ownedPages m !! i with
  | Some p => owned_contents w m i p
  | None => source w (_copyChain m) m i
  end.
Definition denote w id i : option A := m ← memories w !! id; denote_memory w m i.

(** The pages that a fork in flight still has to copy: until then the forked view stands
    for the original one. *)
Definition pendings f : list Z := (f_inProgress f).*1 ++ (f_lockedCopies f).*1.
Definition contents w id i : option A :=
  match forks w !! id with
  | Some f => if decide (i ∈ pendings f) then denote w (f_memory f) i else denote w id i
  | None => denote w id i
  end.
Definition in_view m i : Prop := 0 ≤ i < _cowLength m / kPageSize.

(** ** The invariant *)
Definition owner w p id i : Prop := ∃ m, memories w !! id = Some m ∧ _ownedPages m !! i = Some p.
Definition page_is w p (s : CowState) : Prop := ∃ page, cowPages w !! p = Some page ∧ cp_state page = s.
Definition copy_at w p (phys : Z) : Prop :=
  ∃ page, cowPages w !! p = Some page ∧ cp_state page = hasCopy ∧ cp_physical page = phys.
Definition same_shape m m' : Prop :=
  _view m' = _view m ∧ _viewOffset m' = _viewOffset m ∧ _cowLength m' = _cowLength m.
Definition has_chain w (chain : option nat) : Prop := ∀ c, chain = Some c → is_Some (cowChains w !! c).

Record touch_ok w p t : Prop := {
  tk_owner : owner w p (t_memory t) (t_index t);
  tk_view m : memories w !! t_memory t = Some m → in_view m (t_index t);
  tk_published : forks w !! t_memory t = None;
  tk_chain : has_chain w (t_chain t);
  tk_frame phys : t_frame t = Some phys → 0 ≤ phys < noFrame ∧ is_Some (frames w !! phys) ∧
    (∀ m, memories w !! t_memory t = Some m → frames w !! phys = source w (t_chain t) m (t_index t)) ∧
    (∀ p', ¬ copy_at w p' phys) ∧ ∀ p' t', touches w !! p' = Some t' → t_frame t' = Some phys → p' = p;
}.

Record fork_ok w id f : Prop := {
  fk_memory : ∃ m m', memories w !! f_memory f = Some m ∧ memories w !! id = Some m' ∧ same_shape m m' ∧
    _copyChain m = Some (f_newChain f) ∧ _copyChain m' = Some (f_newChain f) ∧
    (∀ i, i ∈ pendings f → in_view m i ∧ _ownedPages m' !! i = None);
  fk_published : forks w !! f_memory f = None;
  fk_progress i p : (i, p) ∈ f_inProgress f → owner w p (f_memory f) i ∧ (page_is w p inProgress ∨ page_is w p hasCopy);
  fk_locked i p : (i, p) ∈ f_lockedCopies f → owner w p (f_memory f) i ∧ page_is w p hasCopy;
  fk_nodup : NoDup (pendings f);
  fk_alone id' f' : forks w !! id' = Some f' → f_memory f' = f_memory f → id' = id;
  fk_users id' m : memories w !! id' = Some m → _copyChain m = Some (f_newChain f) → id' = f_memory f ∨ id' = id;
  fk_touches p t : touches w !! p = Some t → t_chain t = Some (f_newChain f) → t_memory t = f_memory f;
}.

Record cow_ok w : Prop := {
  ck_ids n : (nextId w ≤ n)%nat → cowPages w !! n = None ∧ cowChains w !! n = None ∧ memories w !! n = None;
  ck_page p page : cowPages w !! p = Some page → 0 ≤ cp_lockCount page < 2 ^ 32 ∧
    (cp_state page = hasCopy → 0 ≤ cp_physical page < noFrame ∧ is_Some (frames w !! cp_physical page));
  ck_frame p p' phys : copy_at w p phys → copy_at w p' phys → p' = p;
  ck_progress p : page_is w p inProgress ↔ is_Some (touches w !! p);
  ck_owner p id i : owner w p id i → is_Some (cowPages w !! p) ∧ ∀ id' i', owner w p id' i' → id' = id ∧ i' = i;
  ck_chain c ch k p : cowChains w !! c = Some ch → ch !! k = Some p → page_is w p hasCopy ∧ ∀ id i, ¬ owner w p id i;
  ck_memory id m : memories w !! id = Some m →
    0 < _cowLength m < 2 ^ 64 ∧ misaligned (_cowLength m) = false ∧ misaligned (_viewOffset m) = false ∧ has_chain w (_copyChain m);
  ck_touch p t : touches w !! p = Some t → touch_ok w p t;
  ck_fork id f : forks w !! id = Some f → fork_ok w id f;
  ck_pfns phys : phys ∈ cowPfns w ↔ ∃ p, copy_at w p phys;
}.

(** ** Keys *)
Lemma page_key vo off : misaligned vo = false → 0 ≤ off →
  Z.shiftr (u64 (vo + off)) kPageShift = (vo / 4096 + off / 4096) mod 2 ^ 52.
Proof.
  intros Ha Ho. unfold misaligned in Ha. apply negb_false_iff, Z.eqb_eq in Ha. change (kPageSize - 1) with (Z.ones 12) in Ha.
  rewrite Z.land_ones in Ha by lia. change (2 ^ 12) with 4096 in Ha.
  rewrite shiftr_pow2 by done. change (2 ^ kPageShift) with 4096. unfold u64, wrap. change (2 ^ 64) with (4096 * 2 ^ 52).
  rewrite Z.rem_mul_r by lia. rewrite Z.mul_comm, Z.div_add by lia.
  rewrite (Z.div_small ((vo + off) mod 4096)) by (apply Z.mod_pos_bound; lia). rewrite Z.add_0_l. f_equal.
  pose proof (Z.div_mod vo 4096 ltac:(lia)) as Hd. rewrite Ha in Hd. rewrite Hd at 1.
  replace (4096 * (vo / 4096) + 0 + off) with (off + vo / 4096 * 4096) by lia. rewrite Z.div_add by lia. lia.
Qed.
Lemma chain_key_eq m i : misaligned (_viewOffset m) = false → 0 ≤ i → chain_key m i = (_viewOffset m / 4096 + i) mod 2 ^ 52.
Proof. intros Ha Hi. unfold chain_key. rewrite page_key by (unfold kPageSize; lia). unfold kPageSize. by rewrite Z.div_mul. Qed.
Lemma page_key_eq m off : misaligned (_viewOffset m) = false → 0 ≤ off →
  Z.shiftr (u64 (_viewOffset m + off)) kPageShift = chain_key m (Z.shiftr off kPageShift).
Proof.
  intros Ha Ho. rewrite (shiftr_pow2 off) by done. change (2 ^ kPageShift) with 4096.
  rewrite page_key, chain_key_eq by (done || apply Z.div_pos; lia). done.
Qed.
Lemma chain_key_inj m i j : _cowLength m < 2 ^ 64 → misaligned (_viewOffset m) = false → in_view m i → in_view m j →
  chain_key m i = chain_key m j → i = j.
Proof.
  intros Hl Ha [Hi Hi'] [Hj Hj'] He. rewrite !chain_key_eq in He by done. unfold kPageSize in *.
  assert (_cowLength m / 4096 < 2 ^ 52) by (apply Z.div_lt_upper_bound; lia).
  set (q := _viewOffset m / 4096) in *. pose proof (Z.div_mod (q + i) (2 ^ 52) ltac:(lia)).
  pose proof (Z.div_mod (q + j) (2 ^ 52) ltac:(lia)). rewrite He in *. nia.
Qed.
Lemma same_key m m' i : same_shape m m' → chain_key m' i = chain_key m i.
Proof. unfold chain_key. by intros (_ & -> & _). Qed.
Lemma same_view m m' i : same_shape m m' → in_view m' i ↔ in_view m i.
Proof. unfold in_view. by intros (_ & _ & ->). Qed.
Lemma source_shape w chain m m' i : same_shape m m' → source w chain m' i = source w chain m i.
Proof. intros Hs. unfold source. rewrite (same_key m m') by done. by destruct Hs as (-> & _). Qed.

(** ** Steps that keep copies and chains *)
Record keeps w w' : Prop := {
  kp_copy p phys : copy_at w p phys → copy_at w' p phys ∧ frames w' !! phys = frames w !! phys;
  kp_chains c ch : cowChains w !! c = Some ch → cowChains w' !! c = Some ch;
}.

Lemma copy_contents w p phys : copy_at w p phys → frame_contents w p = frames w !! phys.
Proof. intros (page & Ep & _ & <-). unfold frame_contents. by rewrite Ep. Qed.
Lemma page_copy w p : page_is w p hasCopy → ∃ phys, copy_at w p phys.
Proof. intros (page & Ep & Hs). exists (cp_physical page), page. done. Qed.
Lemma chain_find_copy w chain k p : cow_ok w → chain_find w chain k = Some p → ∃ phys, copy_at w p phys.
Proof.
  intros H E. unfold chain_find in E. destruct chain as [c|]; [|done]. cbn in E.
  destruct (cowChains w !! c) as [ch|] eqn:Ec; [|done]. cbn in E. apply page_copy. by apply (ck_chain _ H c ch k p).
Qed.
Lemma chain_find_keeps w w' chain k : keeps w w' → has_chain w chain → chain_find w' chain k = chain_find w chain k.
Proof.
  intros [_ Hc] Hh. unfold chain_find. destruct chain as [c|]; [|done]. cbn.
  destruct (Hh c eq_refl) as [ch Ech]. by rewrite Ech, (Hc c ch Ech).
Qed.
Lemma source_keeps w w' chain m i : cow_ok w → keeps w w' → has_chain w chain → source w' chain m i = source w chain m i.
Proof.
  intros H K Hh. unfold source. rewrite (chain_find_keeps w w') by done.
  destruct (chain_find w chain (chain_key m i)) as [p|] eqn:E; [|done].
  destruct (chain_find_copy w chain _ p H E) as [phys Hp]. destruct (kp_copy _ _ K p phys Hp) as [Hp' Hf].
  by rewrite (copy_contents w' p phys), (copy_contents w p phys), Hf.
Qed.
Lemma owned_null w m i p page : cowPages w !! p = Some page → cp_state page = cow_null →
  owned_contents w m i p = source w (_copyChain m) m i.
Proof. intros E Es. unfold owned_contents. rewrite E. cbn. by rewrite Es. Qed.
Lemma owned_progress w m i p page t : cowPages w !! p = Some page → cp_state page = inProgress → touches w !! p = Some t →
  owned_contents w m i p = source w (t_chain t) m i.
Proof. intros E Es Et. unfold owned_contents. rewrite E. cbn. by rewrite Es, Et. Qed.
Lemma owned_copy w m i p page : cowPages w !! p = Some page → cp_state page = hasCopy →
  owned_contents w m i p = frames w !! cp_physical page.
Proof. intros E Es. unfold owned_contents. rewrite E. cbn. by rewrite Es. Qed.

(** A page of a view is read as before if the step keeps its copy. *)
Definition same_page w w' p : Prop :=
  (∃ page page', cowPages w !! p = Some page ∧ cowPages w' !! p = Some page' ∧ cp_state page' = cp_state page) ∧
  t_chain <$> touches w' !! p = t_chain <$> touches w !! p.
Lemma denote_local w w' id m m' i : cow_ok w → memories w !! id = Some m → memories w' !! id = Some m' →
  same_shape m m' → _ownedPages m' !! i = _ownedPages m !! i →
  source w' (_copyChain m') m i = source w (_copyChain m) m i →
  (∀ p, _ownedPages m !! i = Some p → same_page w w' p ∧
    (∀ phys, copy_at w p phys → copy_at w' p phys ∧ frames w' !! phys = frames w !! phys) ∧
    ∀ t, touches w !! p = Some t → source w' (t_chain t) m i = source w (t_chain t) m i) →
  denote w' id i = denote w id i.
Proof.
  intros H Em Em' Hs Ho Hsrc Hp. unfold denote, denote_memory. rewrite Em, Em'. cbn. rewrite Ho.
  destruct (_ownedPages m !! i) as [p|] eqn:Eo; [|by rewrite (source_shape w' _ m m')].
  destruct (Hp p eq_refl) as ([(page & page' & Ep & Ep' & Est) Et] & Hc & Ht). unfold owned_contents. rewrite Ep, Ep'. cbn. rewrite Est.
  destruct (cp_state page) eqn:Es; [by rewrite (source_shape w' _ m m')| |].
  - assert (is_Some (touches w !! p)) as [t Htp] by (apply (ck_progress _ H); by exists page).
    rewrite Htp in *. cbn in Et. destruct (touches w' !! p) as [t'|]; [|done]. cbn in *. injection Et as ->.
    rewrite (source_shape w' _ m m') by done. by apply Ht.
  - destruct (Hc (cp_physical page)) as [(page2 & E2 & _ & Eph) Hf]; [by exists page|].
    rewrite Ep' in E2. injection E2 as <-. by rewrite Eph.
Qed.
Lemma denote_keeps w w' id m m' i : cow_ok w → keeps w w' → memories w !! id = Some m → memories w' !! id = Some m' →
  same_shape m m' → _copyChain m' = _copyChain m → _ownedPages m' !! i = _ownedPages m !! i →
  (∀ p, _ownedPages m !! i = Some p → same_page w w' p) → denote w' id i = denote w id i.
Proof.
  intros H K Em Em' Hs Hc Ho Hp. apply (denote_local w w' id m m'); try done.
  - rewrite Hc. apply source_keeps; [done..|]. by apply (ck_memory _ H id m).
  - intros p Eo. split; [by apply Hp|]. split; [intros phys; apply (kp_copy _ _ K)|].
    intros t Et. apply source_keeps; [done..|]. apply (ck_touch _ H p t Et).
Qed.

Definition quiet_step w w' : Prop :=
  ∀ id m i, memories w !! id = Some m → in_view m i → contents w' id i = contents w id i.
Lemma quiet_trans w1 w2 w3 : quiet_step w1 w2 → quiet_step w2 w3 →
  (∀ id m i, memories w1 !! id = Some m → in_view m i → ∃ m', memories w2 !! id = Some m' ∧ in_view m' i) → quiet_step w1 w3.
Proof. intros H1 H2 Hm id m i Em Hi. destruct (Hm id m i Em Hi) as (m' & Em' & Hi'). by rewrite (H2 id m' i), (H1 id m i). Qed.

(** Views that are forked denote what they did if forks stay the same. *)
Lemma quiet_denote w w' : cow_ok w → forks w' = forks w →
  (∀ id m i, memories w !! id = Some m → in_view m i → denote w' id i = denote w id i) → quiet_step w w'.
Proof.
  intros H Ef Hd id m i Em Hi. unfold contents. rewrite Ef. destruct (forks w !! id) as [f|] eqn:E; [|by eapply Hd].
  case_decide as Hp; [|by eapply Hd]. destruct (ck_fork _ H id f E) as [(m1 & m2 & E1 & _ & _ & _ & _ & Hv) _ _ _ _ _ _ _].
  destruct (Hv i Hp) as [Hi1 _]. by eapply Hd.
Qed.

(** ** Changes of lock counts *)
Definition pages_sim w w' : Prop := ∀ p,
  match cowPages w !! p, cowPages w' !! p with
  | Some a, Some b => cp_state b = cp_state a ∧ cp_physical b = cp_physical a ∧ 0 ≤ cp_lockCount b < 2 ^ 32
  | None, None => True
  | _, _ => False
  end.
Lemma sim_page w w' p s : pages_sim w w' → page_is w' p s ↔ page_is w p s.
Proof.
  intros Hs. specialize (Hs p). unfold page_is. destruct (cowPages w !! p) as [a|], (cowPages w' !! p) as [b|]; [|by destruct Hs|by destruct Hs|split; by intros (? & ? & _)].
  destruct Hs as (E & _). split; intros (? & [= <-] & <-); eexists; done.
Qed.
Lemma sim_copy w w' p phys : pages_sim w w' → copy_at w' p phys ↔ copy_at w p phys.
Proof.
  intros Hs. specialize (Hs p). unfold copy_at. destruct (cowPages w !! p) as [a|], (cowPages w' !! p) as [b|]; [|by destruct Hs|by destruct Hs|split; by intros (? & ? & _)].
  destruct Hs as (E1 & E2 & _). split; intros (? & [= <-] & ? & <-); eexists; (split; [done|]); split; congruence.
Qed.
Lemma sim_keeps w w' : pages_sim w w' → cowChains w' = cowChains w → frames w' = frames w → keeps w w'.
Proof. intros Hs Hc Hf. split; [|by rewrite Hc]. intros p phys Hp. rewrite Hf. by rewrite (sim_copy w w'). Qed.

(** The parts of the invariant about one touch or fork, under a step that keeps more. *)
Lemma touch_ok_sim w w' p t : cow_ok w → pages_sim w w' → cowChains w' = cowChains w → memories w' = memories w →
  frames w' = frames w → touches w' = touches w → forks w' = forks w → touch_ok w p t → touch_ok w' p t.
Proof.
  intros H Hs Hc Hm Hf Ht Hk [H1 H2 H3 H4 H5]. split; unfold owner, has_chain in *; rewrite ?Hm, ?Hk, ?Hc; try done.
  intros phys E. destruct (H5 phys E) as (? & ? & Hsrc & Hno & Hu). rewrite Hf, Ht. split; [done|]. split; [done|].
  split; [|split; [|done]].
  - intros m Em. rewrite (Hsrc m Em). symmetry. apply source_keeps; [done|by apply sim_keeps|done].
  - intros p'. by rewrite (sim_copy w w').
Qed.
Lemma fork_ok_sim w w' id f : pages_sim w w' → memories w' = memories w → touches w' = touches w → forks w' = forks w →
  fork_ok w id f → fork_ok w' id f.
Proof.
  intros Hs Hm Ht Hk [H1 H2 H3 H4 H5 H6 H7 H8]. split; unfold owner in *; rewrite ?Hm, ?Hk, ?Ht; try done.
  - intros i p Hp. rewrite !(sim_page w w') by done. by apply H3.
  - intros i p Hp. rewrite (sim_page w w') by done. by apply H4.
Qed.
Lemma cow_ok_sim w w' : cow_ok w → pages_sim w w' → cowChains w' = cowChains w → memories w' = memories w →
  frames w' = frames w → cowPfns w' = cowPfns w → touches w' = touches w → forks w' = forks w → nextId w' = nextId w →
  cow_ok w' ∧ quiet_step w w'.
Proof.
  intros H Hs Hc Hm Hf Hp Ht Hk Hn. split.
  - pose proof H as [H1 H2 H3 H4 H5 H6 H7 H8 H9 H10]. split; unfold owner in *; rewrite ?Hc, ?Hm, ?Ht, ?Hn; try done.
    + intros n Hle. destruct (H1 n Hle) as (E & ?). split; [|done]. specialize (Hs n). rewrite E in Hs. by destruct (cowPages w' !! n).
    + intros p page' E'. specialize (Hs p). rewrite E' in Hs. destruct (cowPages w !! p) as [page|] eqn:E; [|done].
      destruct Hs as (-> & -> & Hl), (H2 p page E) as [_ Hx]. rewrite Hf. done.
    + intros p p' phys. rewrite !(sim_copy w w') by done. apply H3.
    + intros p. rewrite (sim_page w w') by done. apply H4.
    + intros p id i Ho. destruct (H5 p id i Ho) as [[page E] Hu]. split; [|done]. specialize (Hs p). rewrite E in Hs.
      destruct (cowPages w' !! p); [done|done].
    + intros c ch k p E1 E2. destruct (H6 c ch k p E1 E2) as [Hx Hy]. split; [|done]. by rewrite (sim_page w w').
    + intros id m Em. unfold has_chain. rewrite Hc. by apply (H7 id).
    + intros p t E. by apply (touch_ok_sim w), H8.
    + intros id f E. rewrite Hk in E. by apply (fork_ok_sim w), H9.
    + intros phys. rewrite Hp, H10. by setoid_rewrite (sim_copy w w').
  - apply quiet_denote; [done..|]. intros id m i Em Hi. eapply denote_keeps; try done; [by apply sim_keeps|by rewrite Hm|].
    intros p Eo. split; [|by rewrite Ht]. destruct (ck_owner _ H p id i) as [[page E] _]; [by exists m|].
    specialize (Hs p). rewrite E in Hs. destruct (cowPages w' !! p) as [page'|] eqn:E'; [|done]. destruct Hs as (Hst & _).
    by exists page, page'.
Qed.

Lemma relock_ok w p page n : cow_ok w → cowPages w !! p = Some page → 0 ≤ n < 2 ^ 32 →
  cow_ok (set_cow_page w p (set_cow_lock page n)) ∧ quiet_step w (set_cow_page w p (set_cow_lock page n)).
Proof.
  intros H E Hn. apply cow_ok_sim; try done. intros q. simpl. destruct (decide (q = p)) as [->|Hq].
  - rewrite lookup_insert, decide_True, E by done. simpl. split; [done|]. split; [done|lia].
  - rewrite lookup_insert_ne by done. destruct (cowPages w !! q) as [a|] eqn:Eq; [|done]. split; [done|]. split; [done|]. by apply (ck_page _ H q a).
Qed.

(** ** A new page without contents *)
Definition add_page w id m i (page : CowPage) : World A :=
  set_memory (set_cow_page (snd (new_id w)) (nextId w) page) id (set_owned m (<[i := nextId w]> (_ownedPages m))).

Lemma set_owned_shape m o : same_shape m (set_owned m o).
Proof. done. Qed.
Lemma owner_fresh w id i p : cow_ok w → owner w p id i → p ≠ nextId w.
Proof. intros H Ho ->. destruct (ck_owner _ H _ _ _ Ho) as [[page E] _]. destruct (ck_ids _ H (nextId w) ltac:(lia)) as [E' _]. congruence. Qed.
Lemma page_fresh w p s : cow_ok w → page_is w p s → p ≠ nextId w.
Proof. intros H (page & E & _) ->. destruct (ck_ids _ H (nextId w) ltac:(lia)) as [E' _]. congruence. Qed.
Lemma copy_fresh w p phys : cow_ok w → copy_at w p phys → p ≠ nextId w.
Proof. intros H (page & E & Hs & _). apply (page_fresh w p hasCopy H). by exists page. Qed.

Section add_page.
Context (w : World A) (id : nat) (m : CopyOnWriteMemory) (i : Z) (page : CowPage).
Hypothesis H : cow_ok w.
Hypothesis Em : memories w !! id = Some m.
Hypothesis Eo : _ownedPages m !! i = None.
Hypothesis Ef : forks w !! id = None.
Hypothesis Hs : cp_state page = cow_null.
Hypothesis Hl : 0 ≤ cp_lockCount page < 2 ^ 32.
Let w' := add_page w id m i page.
Let n := nextId w.

Lemma add_owner q id' j : owner w' q id' j ↔ owner w q id' j ∨ (q = n ∧ id' = id ∧ j = i).
Proof.
  unfold owner, w', add_page. simpl. destruct (decide (id' = id)) as [->|Hid].
  - rewrite lookup_insert, decide_True by done. split.
    + intros (m1 & [= <-] & E). simpl in E. destruct (decide (j = i)) as [->|Hj].
      * rewrite lookup_insert, decide_True in E by done. right. by injection E as <-.
      * rewrite lookup_insert_ne in E by done. left. by exists m.
    + intros [(m1 & E1 & E2)|(-> & _ & ->)]; eexists; (split; [done|]); simpl.
      * rewrite Em in E1. injection E1 as <-. rewrite lookup_insert_ne; [done|]. by intros ->; rewrite Eo in E2.
      * by rewrite lookup_insert, decide_True.
  - rewrite lookup_insert_ne by done. split; [by left|]. by intros [?|(_ & ? & _)].
Qed.
Lemma add_pages q : cowPages w' !! q = if decide (q = n) then Some page else cowPages w !! q.
Proof.
  unfold w', add_page. simpl. case_decide as E; [subst q; by rewrite lookup_insert, decide_True|by rewrite lookup_insert_ne].
Qed.
Lemma add_page_is q s : page_is w' q s ↔ if decide (q = n) then s = cow_null else page_is w q s.
Proof.
  unfold page_is. rewrite add_pages. case_decide; [|done]. split; [intros (? & [= <-] & <-); done|]. intros ->. by exists page.
Qed.
Lemma add_copy q phys : copy_at w' q phys ↔ copy_at w q phys.
Proof.
  unfold copy_at. rewrite add_pages. case_decide as E; [|done]. split; [intros (? & [= <-] & ? & _); congruence|].
  intros Hc. by destruct (copy_fresh w q phys H Hc).
Qed.
Lemma add_keeps : keeps w w'.
Proof. split; [|done]. intros p phys Hp. by rewrite add_copy. Qed.
Lemma add_memory id' m' : memories w' !! id' = Some m' → ∃ m0, memories w !! id' = Some m0 ∧ same_shape m0 m' ∧ _copyChain m' = _copyChain m0 ∧
  (id' = id ∨ m' = m0).
Proof.
  unfold w', add_page. simpl. destruct (decide (id' = id)) as [->|Hid].
  - rewrite lookup_insert, decide_True by done. intros [= <-]. exists m. split; [done|]. split; [done|]. split; [done|by left].
  - rewrite lookup_insert_ne by done. intros E. exists m'. split; [done|]. split; [done|]. split; [done|by right].
Qed.
Lemma add_memory' id' m0 : memories w !! id' = Some m0 → ∃ m', memories w' !! id' = Some m' ∧ same_shape m0 m' ∧ _copyChain m' = _copyChain m0 ∧
  (id' ≠ id → m' = m0) ∧ ∀ j q, _ownedPages m0 !! j = Some q → _ownedPages m' !! j = Some q.
Proof.
  unfold w', add_page. simpl. destruct (decide (id' = id)) as [->|Hid].
  - intros E. rewrite Em in E. injection E as <-. rewrite lookup_insert, decide_True by done. eexists. split; [done|]. split; [done|].
    split; [done|]. split; [done|]. intros j q Eq. simpl. rewrite lookup_insert_ne; [done|]. by intros ->; rewrite Eo in Eq.
  - rewrite lookup_insert_ne by done. intros E. by exists m0.
Qed.

Lemma add_touch_ok p t : touch_ok w p t → touch_ok w' p t.
Proof.
  intros [T1 T2 T3 T4 T5]. split.
  - apply add_owner. by left.
  - intros m' E'. destruct (add_memory _ _ E') as (m0 & E0 & Hsh & _). rewrite (same_view m0) by done. by apply T2.
  - done.
  - done.
  - intros phys E. destruct (T5 phys E) as (? & ? & Hsrc & Hno & Hu). split; [done|]. split; [done|]. split; [|split; [|done]].
    + intros m' E'. destruct (add_memory _ _ E') as (m0 & E0 & Hsh & _). rewrite (source_shape w' _ m0 m') by done.
      rewrite (source_keeps w w') by (done || apply add_keeps). by apply Hsrc.
    + intros p'. rewrite add_copy. apply Hno.
Qed.
Lemma add_fork_ok id' f : forks w !! id' = Some f → fork_ok w id' f → fork_ok w' id' f.
Proof.
  intros Efk [K1 K2 K3 K4 K5 K6 K7 K8]. split.
  - destruct K1 as (m1 & m2 & E1 & E2 & Hsh & C1 & C2 & Hv).
    destruct (add_memory' _ _ E1) as (m1' & E1' & Hs1 & Hc1 & _). destruct (add_memory' _ _ E2) as (m2' & E2' & _ & _ & Hsame & _).
    assert (m2' = m2) as -> by (apply Hsame; congruence). exists m1', m2. split; [done|]. split; [done|].
    split; [unfold same_shape in *; intuition congruence|]. split; [congruence|]. split; [done|].
    intros j Hj. rewrite (same_view m1 m1') by done. by apply Hv.
  - done.
  - intros j p Hp. destruct (K3 j p Hp) as [Ho Hpg]. split; [apply add_owner; by left|].
    rewrite !add_page_is, !decide_False by (by eapply owner_fresh). done.
  - intros j p Hp. destruct (K4 j p Hp) as [Ho Hpg]. split; [apply add_owner; by left|].
    rewrite add_page_is, decide_False; [done|]. by eapply owner_fresh.
  - done.
  - done.
  - intros id2 m' E' Ec. destruct (add_memory _ _ E') as (m0 & E0 & _ & Hc & _). eapply K7; [done|congruence].
  - done.
Qed.

Lemma add_page_ok : cow_ok w' ∧ quiet_step w w'.
Proof.
  split.
  - pose proof H as [H1 H2 H3 H4 H5 H6 H7 H8 H9 H10]. split.
    + intros k Hk. simpl in Hk. destruct (H1 k ltac:(lia)) as (E1 & E2 & E3). rewrite add_pages, decide_False by lia.
      split; [done|]. split; [done|]. unfold w', add_page. simpl. rewrite lookup_insert_ne; [done|]. by intros ->; rewrite Em in E3.
    + intros p pg. rewrite add_pages. case_decide; [|apply H2]. intros [= <-]. split; [done|]. by rewrite Hs.
    + intros p p' phys. rewrite !add_copy. apply H3.
    + intros p. rewrite add_page_is. case_decide as E; [|apply H4]. subst p. split; [done|]. intros Ht.
      change (touches w') with (touches w) in Ht. apply H4 in Ht. by destruct (page_fresh w n inProgress H Ht).
    + intros p id1 j. rewrite add_owner. intros Ho. rewrite add_pages. destruct Ho as [Ho|(-> & -> & ->)].
      * destruct (H5 p id1 j Ho) as [Hp Hu]. rewrite decide_False by (by eapply owner_fresh). split; [done|].
        intros id2 j2. rewrite add_owner. intros [?|(-> & _ & _)]; [by apply Hu|]. by destruct (owner_fresh w id1 j _ H Ho).
      * rewrite decide_True by done. split; [done|]. intros id2 j2. rewrite add_owner. intros [Ho|(_ & -> & ->)]; [|done].
        by destruct (owner_fresh w id2 j2 _ H Ho).
    + intros c ch k p E1 E2. change (cowChains w') with (cowChains w) in E1. destruct (H6 c ch k p E1 E2) as [Hp Hn]. rewrite add_page_is.
      assert (p ≠ n) as Hpn by (by eapply page_fresh). rewrite decide_False by done. split; [done|].
      intros id1 j. rewrite add_owner. intros [Ho|(? & _)]; [by eapply Hn|done].
    + intros id1 m1 E1. destruct (add_memory _ _ E1) as (m0 & E0 & (_ & -> & ->) & -> & _). by apply (H7 id1).
    + intros p t E. by apply add_touch_ok, H8.
    + intros id1 f E. by apply add_fork_ok, H9.
    + intros phys. change (cowPfns w') with (cowPfns w). rewrite H10. by setoid_rewrite add_copy.
  - apply quiet_denote; [done..|]. intros id1 m1 j E1 Hj. destruct (add_memory' _ _ E1) as (m1' & E1' & Hsh & Hc & Hne & Hext).
    destruct (decide (id1 = id ∧ j = i)) as [[-> ->]|Hdiff].
    + rewrite Em in E1. injection E1 as <-. unfold denote. rewrite Em, E1'. cbn. unfold denote_memory. rewrite Eo.
      assert (_ownedPages m1' !! i = Some n) as ->.
      { assert (owner w' n id i) as (m2 & E2 & E3) by (apply add_owner; by right). congruence. }
      unfold owned_contents. rewrite add_pages, decide_True by done. cbn. rewrite Hs, Hc, (source_shape w' _ m m1') by done.
      apply source_keeps; [done|apply add_keeps|]. by apply (ck_memory _ H id m).
    + apply (denote_keeps w w' id1 m1 m1'); try done; [apply add_keeps|..].
      * destruct (_ownedPages m1' !! j) as [q|] eqn:Eq.
        -- assert (owner w' q id1 j) as Ho by (by exists m1'). apply add_owner in Ho as [(m2 & E2 & E3)|(_ & -> & ->)]; [congruence|tauto].
        -- destruct (_ownedPages m1 !! j) as [q|] eqn:Eq'; [|done]. by rewrite (Hext j q Eq') in Eq.
      * intros p Ep. split; [|done]. destruct (ck_owner _ H p id1 j) as [[pg Epg] _]; [by exists m1|]. exists pg, pg.
        rewrite add_pages, decide_False; [done|]. apply (owner_fresh w id1 j p H). by exists m1.
Qed.
End add_page.

(** ** The copy of a page *)
Definition busy w p : Prop := page_is w p inProgress ∨ page_is w p hasCopy.

(** What a step owes that changes pages, frames and copies in flight only. *)
Lemma cow_ok_local w w' : cow_ok w → cowChains w' = cowChains w → memories w' = memories w → forks w' = forks w →
  nextId w' = nextId w → keeps w w' →
  (∀ p, is_Some (cowPages w' !! p) ↔ is_Some (cowPages w !! p)) →
  (∀ p page, cowPages w' !! p = Some page → 0 ≤ cp_lockCount page < 2 ^ 32 ∧
    (cp_state page = hasCopy → 0 ≤ cp_physical page < noFrame ∧ is_Some (frames w' !! cp_physical page))) →
  (∀ p p' phys, copy_at w' p phys → copy_at w' p' phys → p' = p) →
  (∀ p, page_is w' p inProgress ↔ is_Some (touches w' !! p)) →
  (∀ p, busy w p → busy w' p) →
  (∀ p t, touches w' !! p = Some t → touch_ok w' p t) →
  (∀ id f p t, forks w !! id = Some f → touches w' !! p = Some t → t_chain t = Some (f_newChain f) → t_memory t = f_memory f) →
  (∀ phys, phys ∈ cowPfns w' ↔ ∃ p, copy_at w' p phys) → cow_ok w'.
Proof.
  intros H Hc Hm Hf Hn K Hd Hp Hfr Hpr Hb Ht Hft Hpf. pose proof H as [H1 _ _ _ H5 H6 H7 _ H9 _].
  assert (∀ p, page_is w p hasCopy → page_is w' p hasCopy) as Hcopy.
  { intros p [phys Hx]%page_copy. destruct (kp_copy _ _ K p phys Hx) as [(pg & E & Hs & _) _]. by exists pg. }
  split; unfold owner in *; rewrite ?Hc, ?Hm, ?Hf, ?Hn; try done.
  - intros n Hle. destruct (H1 n Hle) as (E & ?). split; [|done]. apply eq_None_not_Some. rewrite Hd, E. apply is_Some_None.
  - intros p id i Ho. destruct (H5 p id i Ho) as [? ?]. by rewrite Hd.
  - intros c ch k p E1 E2. destruct (H6 c ch k p E1 E2) as [? ?]. split; [by apply Hcopy|done].
  - intros id m Em. unfold has_chain. rewrite Hc. by apply (H7 id).
  - intros id f E. destruct (H9 id f E) as [K1 K2 K3 K4 K5 K6 K7 K8]. split; unfold owner in *; rewrite ?Hm, ?Hf; try done.
    + intros i p Hin. destruct (K3 i p Hin) as [? Hx]. split; [done|by apply Hb].
    + intros i p Hin. destruct (K4 i p Hin) as [? Hx]. split; [done|by apply Hcopy].
    + intros p t. by apply (Hft id f p t).
Qed.

Lemma local_has_chain w w' chain : cowChains w' = cowChains w → has_chain w chain → has_chain w' chain.
Proof. unfold has_chain. by intros ->. Qed.

(** A touch that the step keeps. *)
Lemma touch_ok_local w w' p t : cow_ok w → cowChains w' = cowChains w → memories w' = memories w → forks w' = forks w → keeps w w' →
  (∀ phys, t_frame t = Some phys → frames w' !! phys = frames w !! phys ∧ (∀ p', copy_at w' p' phys → copy_at w p' phys) ∧
    ∀ p' t', touches w' !! p' = Some t' → t_frame t' = Some phys → ∃ t'', touches w !! p' = Some t'' ∧ t_frame t'' = Some phys) →
  touch_ok w p t → touch_ok w' p t.
Proof.
  intros H Hc Hm Hf K Hx [T1 T2 T3 T4 T5]. split; unfold owner in *; rewrite ?Hm, ?Hf; try done; [by apply (local_has_chain w)|].
  intros phys E. destruct (T5 phys E) as (? & ? & Hsrc & Hno & Hu). destruct (Hx phys E) as (Efr & Hcp & Htt). rewrite Efr.
  split; [done|]. split; [done|]. split; [|split].
  - intros m Em. rewrite (Hsrc m Em). symmetry. by apply source_keeps.
  - intros p' Hp'. by apply (Hno p'), Hcp.
  - intros p' t' E' F'. destruct (Htt p' t' E' F') as (t'' & E'' & F''). by apply (Hu p' t'').
Qed.

Section start.
Context (w : World A) (id : nat) (m : CopyOnWriteMemory) (i : Z) (p : nat) (page : CowPage).
Hypothesis H : cow_ok w.
Hypothesis Em : memories w !! id = Some m.
Hypothesis Eo : _ownedPages m !! i = Some p.
Hypothesis Ep : cowPages w !! p = Some page.
Hypothesis Hs : cp_state page = cow_null.
Hypothesis Ef : forks w !! id = None.
Hypothesis Hi : in_view m i.
Definition start_touch : World A :=
  set_touches (set_cow_page w p (set_cow_state page inProgress)) (<[p := MkTouch id i (_copyChain m) None]> (touches w)).
Let w' := start_touch.

Lemma start_page_is q s : page_is w' q s ↔ if decide (q = p) then s = inProgress else page_is w q s.
Proof.
  unfold page_is, w'. simpl. destruct (decide (q = p)) as [->|Hq].
  - rewrite lookup_insert, decide_True by done. split; [by intros (? & [= <-] & <-)|]. intros ->. by eexists.
  - by rewrite lookup_insert_ne.
Qed.
Lemma start_copy q phys : copy_at w' q phys ↔ copy_at w q phys.
Proof.
  unfold copy_at, w'. simpl. destruct (decide (q = p)) as [->|Hq]; [|by rewrite lookup_insert_ne].
  rewrite lookup_insert, decide_True, Ep by done. split; intros (? & [= <-] & Hx & _); simpl in Hx; congruence.
Qed.
Lemma start_keeps : keeps w w'.
Proof. split; [|done]. intros q phys Hq. by rewrite start_copy. Qed.

Lemma start_touch_ok : cow_ok w' ∧ quiet_step w w'.
Proof.
  assert (touches w !! p = None) as Ent.
  { apply eq_None_not_Some. rewrite <-(ck_progress _ H). intros (pg & E & Hx). congruence. }
  split.
  - apply (cow_ok_local w); try done; [apply start_keeps| | | | | | | |].
    + intros q. unfold w'. simpl. destruct (decide (q = p)) as [->|Hq]; [rewrite lookup_insert, decide_True, Ep by done; done|].
      by rewrite lookup_insert_ne.
    + intros q pg. unfold w'. simpl. destruct (decide (q = p)) as [->|Hq]; [|rewrite lookup_insert_ne by done; apply (ck_page _ H)].
      rewrite lookup_insert, decide_True by done. intros [= <-]. simpl. split; [by apply (ck_page _ H p page)|done].
    + intros q q' phys. rewrite !start_copy. apply (ck_frame _ H).
    + intros q. rewrite start_page_is. unfold w'. simpl. destruct (decide (q = p)) as [->|Hq].
      * rewrite lookup_insert, decide_True by done. by split.
      * rewrite lookup_insert_ne by done. apply (ck_progress _ H).
    + intros q [Hq|Hq]; [left|right]; rewrite start_page_is; (case_decide as E; [|done]); [done|].
      subst q. destruct Hq as (pg & E & Hx). congruence.
    + intros q t. unfold w' at 1. simpl. destruct (decide (q = p)) as [->|Hq].
      * rewrite lookup_insert, decide_True by done. intros [= <-]. split; simpl; [by exists m|by intros m0 E0; rewrite Em in E0; injection E0 as <-|done| |done].
        by apply (ck_memory _ H id m).
      * rewrite lookup_insert_ne by done. intros E. apply (touch_ok_local w); try done; [apply start_keeps| |by apply (ck_touch _ H)].
        intros phys _. split; [done|]. split; [by intros p'; rewrite start_copy|]. intros p' t'. unfold w'. simpl.
        destruct (decide (p' = p)) as [->|Hp']; [rewrite lookup_insert, decide_True by done; by intros [= <-]|].
        rewrite lookup_insert_ne by done. intros. by exists t'.
    + intros id' f q t Efk. unfold w'. simpl. destruct (decide (q = p)) as [->|Hq].
      * rewrite lookup_insert, decide_True by done. intros [= <-]. simpl. intros Ec.
        destruct (fk_users _ _ _ (ck_fork _ H id' f Efk) id m Em Ec) as [?|Hx]; [done|congruence].
      * rewrite lookup_insert_ne by done. by apply (fk_touches _ _ _ (ck_fork _ H id' f Efk)).
    + intros phys. change (cowPfns w') with (cowPfns w). rewrite (ck_pfns _ H). by setoid_rewrite start_copy.
  - apply quiet_denote; [done..|]. intros id1 m1 j E1 Hj. destruct (decide (id1 = id ∧ j = i)) as [[-> ->]|Hdiff].
    + unfold denote. change (memories w') with (memories w). rewrite Em. cbn. unfold denote_memory, owned_contents. rewrite Eo, Ep. unfold w'. simpl.
      rewrite !lookup_insert, !decide_True by done. cbn. rewrite Hs. apply (source_keeps w w'); [done|apply start_keeps|].
      by apply (ck_memory _ H id m).
    + apply (denote_keeps w w' id1 m1 m1); try done; [apply start_keeps|]. intros q Eq.
      destruct (ck_owner _ H q id1 j) as [[pg Epg] Hu]; [by exists m1|].
      assert (q ≠ p) as Hq. { intros ->. destruct (Hu id i) as [-> ->]; [by exists m|tauto]. }
      split; [exists pg, pg; unfold w'; simpl; by rewrite lookup_insert_ne|]. unfold w'. simpl. by rewrite lookup_insert_ne.
Qed.
End start.

Lemma touch_inProgress w p t : cow_ok w → touches w !! p = Some t → page_is w p inProgress.
Proof. intros H E. apply (ck_progress _ H). by exists t. Qed.
Lemma copy_frame w p phys : cow_ok w → copy_at w p phys → 0 ≤ phys < noFrame ∧ is_Some (frames w !! phys).
Proof. intros H (page & E & Hs & <-). by apply (ck_page _ H p page). Qed.
Lemma not_both w p s s' : page_is w p s → page_is w p s' → s = s'.
Proof. intros (a & E & <-) (b & E' & <-). congruence. Qed.
Lemma copy_is w p phys : copy_at w p phys → page_is w p hasCopy.
Proof. intros (page & E & Hs & _). by exists page. Qed.

Section fill.
Context (w : World A) (p : nat) (t : Touch) (m : CopyOnWriteMemory) (phys : Z) (a : A).
Hypothesis H : cow_ok w.
Hypothesis Et : touches w !! p = Some t.
Hypothesis Em : memories w !! t_memory t = Some m.
Hypothesis Hph : 0 ≤ phys < noFrame.
Hypothesis Hfree : frames w !! phys = None.
Hypothesis Ha : source w (t_chain t) m (t_index t) = Some a.
Definition fill_touch : World A :=
  set_touches (set_frames w (<[phys := a]> (frames w))) (<[p := MkTouch (t_memory t) (t_index t) (t_chain t) (Some phys)]> (touches w)).
Let w' := fill_touch.

Lemma fill_frames (f : Z) : frames w !! f ≠ None → frames w' !! f = frames w !! f.
Proof. intros Hf. unfold w'. simpl. rewrite lookup_insert_ne; [done|]. by intros ->. Qed.
Lemma fill_keeps : keeps w w'.
Proof.
  split; [|done]. intros q f Hq. split; [done|]. apply fill_frames. destruct (copy_frame w q f H Hq) as [_ [x Hx]]. by rewrite Hx.
Qed.
Lemma fill_touches q t' : touches w' !! q = Some t' →
  ∃ t0, touches w !! q = Some t0 ∧ t_memory t' = t_memory t0 ∧ t_index t' = t_index t0 ∧ t_chain t' = t_chain t0 ∧
    (q = p ∧ t_frame t' = Some phys ∨ t' = t0 ∧ q ≠ p).
Proof.
  unfold w'. simpl. destruct (decide (q = p)) as [->|Hq].
  - rewrite lookup_insert, decide_True by done. intros [= <-]. exists t. simpl. split_and!; try done. by left.
  - rewrite lookup_insert_ne by done. intros E. exists t'. split_and!; try done. by right.
Qed.

Lemma fill_touch_ok : cow_ok w' ∧ quiet_step w w'.
Proof.
  split.
  - apply (cow_ok_local w); try done; [apply fill_keeps| | | | | |].
    + intros q pg E. destruct (ck_page _ H q pg E) as [? Hx]. split; [done|]. intros Hs. destruct (Hx Hs) as [? [x Ex]].
      split; [done|]. rewrite fill_frames; [by exists x|congruence].
    + apply (ck_frame _ H).
    + intros q. change (page_is w' q inProgress) with (page_is w q inProgress). rewrite (ck_progress _ H q). unfold w'. simpl. destruct (decide (q = p)) as [->|Hq]; [|by rewrite lookup_insert_ne].
      rewrite lookup_insert, decide_True, Et by done. done.
    + intros q t' E'. destruct (fill_touches q t' E') as (t0 & E0 & E1 & E2 & E3 & Hc). destruct (ck_touch _ H q t0 E0) as [T1 T2 T3 T4 T5].
      split; rewrite ?E1, ?E2, ?E3; try done. intros f Ef. destruct Hc as [[-> Ef']|[-> Hq]].
      * rewrite Et in E0. injection E0 as <-. rewrite Ef' in Ef. injection Ef as <-. split; [done|]. unfold w' at 1. simpl.
        rewrite lookup_insert, decide_True by done. split; [done|]. split; [|split].
        -- intros m0 Em0. change (memories w') with (memories w) in Em0. rewrite Em in Em0. injection Em0 as <-.
           by rewrite (source_keeps w w') by (done || apply fill_keeps).
        -- intros q Hq. destruct (copy_frame w q phys H Hq) as [_ [x Hx]]. congruence.
        -- intros q tq Eq Fq. destruct (fill_touches q tq Eq) as (t1 & F1 & _ & _ & _ & [[-> _]|[-> Hne]]); [done|].
           destruct (ck_touch _ H q t1 F1) as [_ _ _ _ T5']. destruct (T5' phys Fq) as (_ & [x Hx] & _). congruence.
      * destruct (T5 f Ef) as (? & [x Hx] & Hsrc & Hno & Hu). rewrite fill_frames by congruence. split; [done|]. split; [by exists x|].
        split; [|split; [done|]].
        -- intros m0 Em0. rewrite (source_keeps w w') by (done || apply fill_keeps). by apply Hsrc.
        -- intros q' t' Eq' Fq'. destruct (fill_touches q' t' Eq') as (t1 & F1 & _ & _ & _ & [[-> Fp]|[-> Hne]]); [|by apply (Hu q' t1)].
           rewrite Fp in Fq'. injection Fq' as <-. congruence.
    + intros id f q t' Ef E' Ec. destruct (fill_touches q t' E') as (t0 & E0 & E1 & _ & E3 & _). rewrite E1. rewrite E3 in Ec.
      by apply (fk_touches _ _ _ (ck_fork _ H id f Ef) q).
    + apply (ck_pfns _ H).
  - apply quiet_denote; [done..|]. intros id1 m1 j E1 Hj. apply (denote_keeps w w' id1 m1 m1); try done; [apply fill_keeps|].
    intros q Eq. destruct (ck_owner _ H q id1 j) as [[pg Epg] Hu]; [by exists m1|]. split; [by exists pg, pg|].
    unfold w'. simpl. destruct (decide (q = p)) as [->|Hq]; [rewrite lookup_insert, decide_True, Et by done; done|].
    by rewrite lookup_insert_ne.
Qed.
End fill.

Section finish.
Context (w : World A) (p : nat) (t : Touch) (phys : Z) (page : CowPage).
Hypothesis H : cow_ok w.
Hypothesis Et : touches w !! p = Some t.
Hypothesis Eph : t_frame t = Some phys.
Hypothesis Ep : cowPages w !! p = Some page.
Definition finish_touch : World A :=
  set_touches (set_cowPfns (set_cow_page w p (MkCowPage phys hasCopy (cp_lockCount page))) ({[phys]} ∪ cowPfns w)) (delete p (touches w)).
Let w' := finish_touch.

Lemma finish_copy q (f : Z) : copy_at w' q f ↔ copy_at w q f ∨ (q = p ∧ f = phys).
Proof.
  unfold copy_at, w'. simpl. destruct (decide (q = p)) as [->|Hq].
  - rewrite lookup_insert, decide_True by done. split.
    + intros (pg & [= <-] & _ & <-). by right.
    + intros [Hc|[_ ->]]; [|by eexists]. apply copy_is in Hc. by pose proof (not_both _ _ _ _ Hc (touch_inProgress w p t H Et)).
  - rewrite lookup_insert_ne by done. split; [by left|]. by intros [?|[? _]].
Qed.
Lemma finish_keeps : keeps w w'.
Proof. split; [|done]. intros q f Hq. split; [|done]. apply finish_copy. by left. Qed.
Lemma finish_touches q t' : touches w' !! q = Some t' ↔ touches w !! q = Some t' ∧ q ≠ p.
Proof. unfold w'. simpl. rewrite lookup_delete_Some. naive_solver. Qed.
Lemma finish_inProgress q : page_is w' q inProgress ↔ page_is w q inProgress ∧ q ≠ p.
Proof.
  unfold page_is, w'. simpl. destruct (decide (q = p)) as [->|Hq]; [|rewrite lookup_insert_ne by done; naive_solver].
  rewrite lookup_insert, decide_True by done. split; [by intros (? & [= <-] & ?)|]. by intros [_ ?].
Qed.

Lemma finish_touch_ok : cow_ok w' ∧ quiet_step w w'.
Proof.
  destruct (ck_touch _ H p t Et) as [T1 T2 T3 T4 T5]. destruct (T5 phys Eph) as (Hb & [x Hx] & Hsrc & Hno & Hu). split.
  - apply (cow_ok_local w); try done; [apply finish_keeps| | | | | | | |].
    + intros q. unfold w'. simpl. destruct (decide (q = p)) as [->|Hq]; [rewrite lookup_insert, decide_True, Ep by done; done|].
      by rewrite lookup_insert_ne.
    + intros q pg. unfold w' at 1. simpl. destruct (decide (q = p)) as [->|Hq]; [|rewrite lookup_insert_ne by done; apply (ck_page _ H)].
      rewrite lookup_insert, decide_True by done. intros [= <-]. simpl. split; [by apply (ck_page _ H p page)|].
      intros _. split; [done|]. by exists x.
    + intros q q' f. rewrite !finish_copy. intros [Hq|[-> ->]] [Hq'|[-> Hf]]; [by apply (ck_frame _ H q q' f)|subst f; by destruct (Hno q)| |done].
      by destruct (Hno q').
    + intros q. rewrite finish_inProgress, (ck_progress _ H). split.
      * intros [[t' E'] Hq]. exists t'. by apply finish_touches.
      * intros [t' [E' Hq]%finish_touches]. by split; [exists t'|].
    + intros q Hq. destruct (decide (q = p)) as [->|Hne].
      * right. destruct (finish_copy p phys) as [_ Hc]. eapply copy_is, Hc. by right.
      * destruct Hq as [Hq|Hq]; [left; by apply finish_inProgress|right]. apply page_copy in Hq as [f Hf].
        eapply copy_is, finish_copy. by left.
    + intros q t' [E' Hq]%finish_touches. apply (touch_ok_local w); try done; [apply finish_keeps| |by apply (ck_touch _ H)].
      intros f Ef. split; [done|]. split.
      * intros p'. rewrite finish_copy. intros [?|[-> ->]]; [done|]. destruct Hq. by apply (Hu q t').
      * intros p' t'' [E'' _]%finish_touches F''. by exists t''.
    + intros id f q t' Ef [E' _]%finish_touches Ec. by apply (fk_touches _ _ _ (ck_fork _ H id f Ef) q).
    + intros f. unfold w' at 1. simpl. rewrite elem_of_union, elem_of_singleton, (ck_pfns _ H). setoid_rewrite finish_copy. split.
      * intros [->|[q Hq]]; [exists p; by right|exists q; by left].
      * intros [q [Hq|[_ ->]]]; [right; by exists q|by left].
  - destruct T1 as (m & Em & Eo). apply quiet_denote; [done..|]. intros id1 m1 j E1 Hj.
    destruct (decide (id1 = t_memory t ∧ j = t_index t)) as [[-> ->]|Hdiff].
    + rewrite Em in E1. injection E1 as <-. unfold denote. change (memories w') with (memories w). rewrite Em. cbn.
      unfold denote_memory, owned_contents. rewrite Eo. unfold w'. simpl. rewrite lookup_insert, decide_True, Ep, Et by done. cbn.
      rewrite (Hsrc m Em). destruct (touch_inProgress w p t H Et) as (pg & Epg & Hst). rewrite Ep in Epg. injection Epg as <-. by rewrite Hst.
    + apply (denote_keeps w w' id1 m1 m1); try done; [apply finish_keeps|]. intros q Eq.
      destruct (ck_owner _ H q id1 j) as [[pg Epg] Hu']; [by exists m1|].
      assert (q ≠ p) as Hq. { intros ->. destruct (Hu' (t_memory t) (t_index t)) as [? ?]; [by exists m|destruct Hdiff; by split]. }
      split; [exists pg, pg; unfold w'; simpl; by rewrite lookup_insert_ne|]. unfold w'. simpl. by rewrite lookup_delete_ne.
Qed.
End finish.

(** ** Writes *)

(** A write to page [i] of view [id] is seen by view [id'] too: it is the same view, or
    a fork of it that has yet to copy the page. *)
Definition sees w id' id i : bool :=
  bool_decide (id' = id) ||
  match forks w !! id' with
  | Some f => bool_decide (f_memory f = id) && bool_decide (i ∈ pendings f)
  | None => false
  end.
Section write.
Context (w : World A) (id : nat) (i : Z) (p : nat) (phys : Z) (x : A).
Hypothesis H : cow_ok w.
Hypothesis Ho : owner w p id i.
Hypothesis Hc : copy_at w p phys.
Hypothesis Ef : forks w !! id = None.
Definition write_frame : World A := set_frames w (<[phys := x]> (frames w)).
Let w' := write_frame.

Lemma write_frames (f : Z) : f ≠ phys → frames w' !! f = frames w !! f.
Proof. intros Hf. unfold w'. simpl. by rewrite lookup_insert_ne. Qed.
Lemma write_other q (f : Z) : copy_at w q f → q ≠ p → frames w' !! f = frames w !! f.
Proof. intros Hq Hne. apply write_frames. intros ->. by destruct Hne; apply (ck_frame _ H p q phys). Qed.
Lemma write_source chain m j : source w' chain m j = source w chain m j.
Proof.
  unfold source. change (chain_find w' chain (chain_key m j)) with (chain_find w chain (chain_key m j)).
  destruct (chain_find w chain (chain_key m j)) as [q|] eqn:E; [|done].
  destruct (chain_find_copy w chain _ q H E) as [f Hq]. rewrite (copy_contents w' q f), (copy_contents w q f) by done.
  apply (write_other q f Hq). intros ->. unfold chain_find in E. destruct chain as [c|]; [|done]. cbn in E.
  destruct (cowChains w !! c) as [ch|] eqn:Ec; [|done]. cbn in E. destruct (ck_chain _ H c ch _ p Ec E) as [_ Hno]. by eapply Hno.
Qed.
Lemma write_frame_ok : cow_ok w'.
Proof.
  pose proof H as [H1 H2 H3 H4 H5 H6 H7 H8 H9 H10].
  assert (∀ f : Z, is_Some (frames w !! f) → is_Some (frames w' !! f)) as Hdom.
  { intros f Hf. unfold w'. simpl. destruct (decide (f = phys)) as [->|Hne]; [by rewrite lookup_insert, decide_True by done|by rewrite lookup_insert_ne]. }
  split; try done.
  - intros q pg E. destruct (H2 q pg E) as [? Hx]. split; [done|]. intros Hs. destruct (Hx Hs) as [? ?]. split; [done|by apply Hdom].
  - intros q t E. destruct (H8 q t E) as [T1 T2 T3 T4 T5]. split; try done. intros f Eft. destruct (T5 f Eft) as (? & ? & Hsrc & Hno & Hu).
    split; [done|]. split; [by apply Hdom|]. split; [|done]. intros m Em. rewrite write_source, write_frames; [by apply Hsrc|].
    intros ->. by apply (Hno p).
  - intros id' f E. by destruct (H9 id' f E) as [K1 K2 K3 K4 K5 K6 K7 K8].
Qed.
Lemma write_denote id' m j : memories w !! id' = Some m → denote w' id' j = if decide (id' = id ∧ j = i) then Some x else denote w id' j.
Proof.
  intros Em. case_decide as Hd.
  - destruct Hd as [-> ->], Ho as (m0 & Em0 & Eo), Hc as (page & Ep & Hs & Hph). unfold denote. change (memories w') with (memories w).
    rewrite Em0. cbn. unfold denote_memory, owned_contents. rewrite Eo. change (cowPages w') with (cowPages w). rewrite Ep. cbn. rewrite Hs.
    unfold w'. simpl. by rewrite Hph, lookup_insert, decide_True.
  - apply (denote_local w w' id' m m); try done; [apply write_source|]. intros q Eq.
    destruct (ck_owner _ H q id' j) as [[pg Epg] Hu]; [by exists m|].
    split; [split; [by exists pg, pg|done]|]. split; [|intros t _; apply write_source]. intros f Hf. split; [done|].
    apply (write_other q f Hf). intros ->. destruct (Hu id i Ho) as [? ?]. by destruct Hd.
Qed.
Lemma write_contents id' m j : memories w !! id' = Some m → in_view m j →
  contents w' id' j = if bool_decide (j = i) && sees w id' id i then Some x else contents w id' j.
Proof.
  intros Em Hj. unfold contents, sees. change (forks w') with (forks w). destruct (forks w !! id') as [f|] eqn:E.
  - rewrite (bool_decide_false (id' = id)) by (intros ->; congruence). cbn [orb].
    destruct (ck_fork _ H id' f E) as [(m1 & m2 & E1 & _) _ _ _ _ _ _ _]. case_decide as Hp.
    + rewrite (write_denote (f_memory f) m1) by done. repeat case_bool_decide; repeat case_decide; naive_solver.
    + rewrite (write_denote id' m) by done. rewrite decide_False by (intros [-> _]; congruence).
      repeat case_bool_decide; naive_solver.
  - rewrite (write_denote id' m) by done. repeat case_bool_decide; repeat case_decide; naive_solver.
Qed.
End write.

(** ** New views *)
Lemma create_ok w view off len m : cow_ok w → 0 < len < 2 ^ 64 → misaligned len = false → misaligned off = false →
  m = MkCow view off len None ∅ →
  let w' := set_memory (snd (new_id w)) (nextId w) m in cow_ok w' ∧ quiet_step w w' ∧ forks w !! nextId w = None.
Proof.
  intros H Hl Hal Hao Em w'. pose proof H as [H1 H2 H3 H4 H5 H6 H7 H8 H9 H10].
  destruct (H1 (nextId w) ltac:(lia)) as (_ & _ & En).
  assert (∀ q id j, owner w' q id j ↔ owner w q id j) as How.
  { intros q id j. unfold owner, w'. simpl. destruct (decide (id = nextId w)) as [->|Hne]; [|by rewrite lookup_insert_ne].
    rewrite lookup_insert, decide_True, En by done. split; [intros (m1 & [= <-] & E); by rewrite Em in E|by intros (m1 & E & _)]. }
  assert (∀ id m1, memories w !! id = Some m1 → memories w' !! id = Some m1) as Hold.
  { intros id m1 E. unfold w'. simpl. rewrite lookup_insert_ne; [done|]. by intros <-; rewrite En in E. }
  assert (∀ id m1, memories w' !! id = Some m1 → memories w !! id = Some m1 ∨ (id = nextId w ∧ m1 = m)) as Hnew.
  { intros id m1. unfold w'. simpl. destruct (decide (id = nextId w)) as [->|Hne]; [|rewrite lookup_insert_ne by done; by left].
    rewrite lookup_insert, decide_True by done. intros [= <-]. by right. }
  assert (forks w !! nextId w = None) as Hfn.
  { apply eq_None_not_Some. intros [f E]. destruct (H9 _ f E) as [(m1 & m2 & _ & E2 & _) _ _ _ _ _ _ _]. congruence. }
  split; [|split; [|done]].
  - split; try done.
    + intros n Hn. simpl in Hn. destruct (H1 n ltac:(lia)) as (? & ? & E3). split; [done|]. split; [done|]. unfold w'. simpl.
      rewrite lookup_insert_ne by lia. done.
    + intros q id j. setoid_rewrite How. apply H5.
    + intros c ch k q E1 E2. setoid_rewrite How. by apply (H6 c ch k).
    + intros id m1 [E|[-> ->]]%Hnew; [by apply (H7 id)|]. rewrite Em. simpl. split; [done|]. split; [done|]. split; [done|].
      by intros c [=].
    + intros q t E. destruct (H8 q t E) as [T1 T2 T3 T4 T5]. split; try done; [by apply How|..].
      * intros m1 [E1|[En' ->]]%Hnew; [by apply T2|]. destruct T1 as (m2 & E2 & _). rewrite En' in E2. congruence.
      * intros f Eft. destruct (T5 f Eft) as (? & ? & Hsrc & Hno & Hu). split; [done|]. split; [done|]. split; [|done].
        intros m1 [E1|[En' ->]]%Hnew; [by apply Hsrc|]. destruct T1 as (m2 & E2 & _). rewrite En' in E2. congruence.
    + intros id f E. destruct (H9 id f E) as [K1 K2 K3 K4 K5 K6 K7 K8]. split; try done.
      * destruct K1 as (m1 & m2 & E1 & E2 & Hr). exists m1, m2. split; [by apply Hold|]. split; [by apply Hold|done].
      * intros j q Hq. rewrite How. by apply K3.
      * intros j q Hq. rewrite How. by apply K4.
      * intros id' m1 [E1|[-> ->]]%Hnew; [by apply K7|by rewrite Em].
  - apply quiet_denote; [done..|]. intros id m1 j E Hj. unfold denote. by rewrite E, (Hold id m1 E).
Qed.

(** ** The end of a fork *)
Lemma return_ok w id f : cow_ok w → forks w !! id = Some f → pendings f = [] →
  let w' := set_forks w (delete id (forks w)) in cow_ok w' ∧ quiet_step w w'.
Proof.
  intros H Ef Hp w'. pose proof H as [H1 H2 H3 H4 H5 H6 H7 H8 H9 H10].
  assert (∀ id', forks w !! id' = None → forks w' !! id' = None) as Hnone.
  { intros id' E. unfold w'. simpl. rewrite lookup_delete. by case_decide. }
  assert (∀ id' f', forks w' !! id' = Some f' → forks w !! id' = Some f') as Hsub.
  { intros id' f'. unfold w'. simpl. by intros [_ ?]%lookup_delete_Some. }
  split.
  - split; try done.
    + intros q t E. destruct (H8 q t E) as [T1 T2 T3 T4 T5]. split; try done. by apply Hnone.
    + intros id' f' E%Hsub. destruct (H9 id' f' E) as [K1 K2 K3 K4 K5 K6 K7 K8]. split; try done; [by apply Hnone|].
      intros id2 f2 E2%Hsub. by apply K6.
  - intros id' m i Em Hi. unfold contents, w'. simpl. destruct (decide (id' = id)) as [->|Hne].
    + rewrite lookup_delete, decide_True, Ef, Hp by done. by rewrite decide_False by apply not_elem_of_nil.
    + by rewrite lookup_delete_ne.
Qed.

(** ** Destruction *)
Lemma drop_memory_ok w id : cow_ok w → forks w !! id = None → (∀ id' f, forks w !! id' = Some f → f_memory f ≠ id) →
  (∀ p t, touches w !! p = Some t → t_memory t ≠ id) →
  let w' := Cow_destruct w id in cow_ok w' ∧ ∀ id' m i, memories w' !! id' = Some m → contents w' id' i = contents w id' i.
Proof.
  intros H Hf Hfm Ht w'. pose proof H as [H1 H2 H3 H4 H5 H6 H7 H8 H9 H10].
  assert (∀ id' m, memories w' !! id' = Some m ↔ memories w !! id' = Some m ∧ id' ≠ id) as Hm.
  { intros id' m. unfold w', Cow_destruct. simpl. rewrite lookup_delete_Some. naive_solver. }
  assert (∀ q id' j, owner w' q id' j ↔ owner w q id' j ∧ id' ≠ id) as How.
  { intros q id' j. unfold owner. setoid_rewrite Hm. naive_solver. }
  split.
  - split; try done.
    + intros n Hn. destruct (H1 n Hn) as (? & ? & E). split; [done|]. split; [done|]. unfold w', Cow_destruct. simpl.
      apply lookup_delete_None. by right.
    + intros q id' j [Ho Hne]%How. destruct (H5 q id' j Ho) as [? Hu]. split; [done|]. intros id2 j2 [Ho2 _]%How. by apply Hu.
    + intros c ch k q E1 E2. destruct (H6 c ch k q E1 E2) as [? Hno]. split; [done|]. intros id' j [Ho _]%How. by apply (Hno id' j).
    + intros id' m [Em _]%Hm. by apply (H7 id').
    + intros q t E. destruct (H8 q t E) as [T1 T2 T3 T4 T5]. split; try done.
      * apply How. split; [done|by apply (Ht q)].
      * intros m [Em _]%Hm. by apply T2.
      * intros f Eft. destruct (T5 f Eft) as (? & ? & Hsrc & ?). split; [done|]. split; [done|]. split; [|done]. intros m [Em _]%Hm. by apply Hsrc.
    + intros id' f E. change (forks w') with (forks w) in E. destruct (H9 id' f E) as [K1 K2 K3 K4 K5 K6 K7 K8]. specialize (Hfm id' f E). split; try done.
      * destruct K1 as (m1 & m2 & E1 & E2 & Hr). exists m1, m2. split; [by apply Hm|]. split; [apply Hm; split; [done|intros ->; congruence]|done].
      * intros j q Hq. rewrite How. destruct (K3 j q Hq) as [? ?]. done.
      * intros j q Hq. rewrite How. destruct (K4 j q Hq) as [? ?]. done.
      * intros id2 m [Em _]%Hm. by apply K7.
  - assert (∀ id' i, id' ≠ id → denote w' id' i = denote w id' i) as Hd.
    { intros id' i Hne. unfold denote, w', Cow_destruct. simpl. by rewrite lookup_delete_ne. }
    intros id' m i [Em Hne]%Hm. unfold contents. change (forks w') with (forks w). destruct (forks w !! id') as [f|] eqn:E; [|by apply Hd].
    case_decide; [|by apply Hd]. by apply Hd, (Hfm id').
Qed.

(** A step that removes objects nobody refers to. *)
Lemma cow_ok_drop w w' : cow_ok w → memories w' = memories w → touches w' = touches w → forks w' = forks w → nextId w' = nextId w →
  (∀ p page, cowPages w' !! p = Some page → cowPages w !! p = Some page) →
  (∀ p page, cowPages w !! p = Some page → (∃ id i, owner w p id i) ∨ (∃ c ch k, cowChains w' !! c = Some ch ∧ ch !! k = Some p) →
     cowPages w' !! p = Some page) →
  (∀ c ch, cowChains w' !! c = Some ch → cowChains w !! c = Some ch) →
  (∀ c ch, cowChains w !! c = Some ch → (∃ id m, memories w !! id = Some m ∧ _copyChain m = Some c) ∨ (∃ p t, touches w !! p = Some t ∧ t_chain t = Some c) →
     cowChains w' !! c = Some ch) →
  (∀ phys : Z, frames w' !! phys = None → frames w !! phys = None ∨ ∃ p, copy_at w p phys ∧ cowPages w' !! p = None) →
  (∀ (phys : Z) a, frames w' !! phys = Some a → frames w !! phys = Some a) →
  (∀ phys, phys ∈ cowPfns w' ↔ ∃ p, copy_at w' p phys) → cow_ok w' ∧ quiet_step w w'.
Proof.
  intros H Hm Ht Hf Hn Hp1 Hp2 Hc1 Hc2 Hfr1 Hfr2 Hpf. pose proof H as [H1 H2 H3 H4 H5 H6 H7 H8 H9 H10].
  assert (∀ q s, page_is w' q s → page_is w q s) as Hpi by (intros q s (pg & E%Hp1 & Hs); by exists pg).
  assert (∀ q x, copy_at w' q x → copy_at w q x) as Hca by (intros q x (pg & E%Hp1 & Hs); by exists pg).
  assert (∀ q id j, owner w' q id j ↔ owner w q id j) as How by (unfold owner; by rewrite Hm).
  assert (∀ q id j pg, owner w q id j → cowPages w !! q = Some pg → cowPages w' !! q = Some pg) as Hown.
  { intros q id j pg Ho E. apply Hp2; [done|]. left. by exists id, j. }
  assert (∀ q x, copy_at w' q x → frames w' !! x = frames w !! x) as Hfx.
  { intros q x Hq. destruct (frames w' !! x) as [a|] eqn:E; [by rewrite (Hfr2 x a E)|]. destruct (Hfr1 x E) as [->|(q' & Hq' & E')]; [done|].
    assert (q' = q) as -> by (by apply (H3 q q' x); [apply Hca|]). destruct Hq as (pg & E2 & _). congruence. }
  assert (∀ q t, touches w !! q = Some t → has_chain w' (t_chain t)) as Hth.
  { intros q t E c Ec. destruct (tk_chain _ _ _ (H8 q t E) c Ec) as [ch Ech]. exists ch. apply Hc2; [done|]. right. by exists q, t. }
  assert (∀ chain m j, has_chain w' chain → source w' chain m j = source w chain m j) as Hsrc.
  { intros chain m j Hh. unfold source, chain_find. destruct chain as [c|]; [|done]. cbn. destruct (Hh c eq_refl) as [ch Ech].
    rewrite Ech, (Hc1 c ch Ech). cbn. destruct (ch !! chain_key m j) as [q|] eqn:Eq; [|done].
    destruct (H6 c ch _ q (Hc1 c ch Ech) Eq) as [(pg & Epg & Hs) _].
    assert (cowPages w' !! q = Some pg) as Epg' by (apply Hp2; [done|right; by exists c, ch, (chain_key m j)]).
    unfold frame_contents. rewrite Epg, Epg'. cbn. apply (Hfx q). by exists pg. }
  split.
  - split; rewrite ?Hm, ?Ht, ?Hf, ?Hn; try done.
    + intros n Hle. destruct (H1 n Hle) as (E1 & E2 & ?). split; [|split; [|done]].
      * destruct (cowPages w' !! n) eqn:E; [|done]. apply Hp1 in E. congruence.
      * destruct (cowChains w' !! n) eqn:E; [|done]. apply Hc1 in E. congruence.
    + intros q pg E. destruct (H2 q pg (Hp1 q pg E)) as [? Hx]. split; [done|]. intros Hs. rewrite (Hfx q); [by apply Hx|]. by exists pg.
    + intros q q' x Hq Hq'. by apply (H3 q q' x); apply Hca.
    + intros q. rewrite <-H4. split; [apply Hpi|]. intros Hq. destruct (proj1 (H4 q) Hq) as [t E]. destruct Hq as (pg & Epg & Hs).
      exists pg. split; [|done]. eapply Hown; [apply (tk_owner _ _ _ (H8 q t E))|done].
    + intros q id j Ho. apply How in Ho. destruct (H5 q id j Ho) as [[pg E] Hu]. split; [exists pg; by eapply Hown|].
      intros id' j'. rewrite How. apply Hu.
    + intros c ch k q E1 E2. destruct (H6 c ch k q (Hc1 c ch E1) E2) as [(pg & Epg & Hs) Hno]. split.
      * exists pg. split; [|done]. apply Hp2; [done|right; by exists c, ch, k].
      * intros id j. rewrite How. apply Hno.
    + intros id m Em. destruct (H7 id m Em) as (? & ? & ? & Hh). split; [done|]. split; [done|]. split; [done|].
      intros c Ec. destruct (Hh c Ec) as [ch Ech]. exists ch. apply Hc2; [done|]. left. by exists id, m.
    + intros q t E. destruct (H8 q t E) as [T1 T2 T3 T4 T5]. split; rewrite ?Hm, ?Hf; try done; [by apply How|by eapply Hth|].
      intros x Ex. destruct (T5 x Ex) as (? & [a Ha] & Hs & Hno & Hu). rewrite Ht.
      assert (frames w' !! x = Some a) as Ea.
      { destruct (frames w' !! x) as [b|] eqn:Eb; [by rewrite <-(Hfr2 x b Eb)|]. destruct (Hfr1 x Eb) as [?|(q' & Hq' & _)]; [congruence|].
        by destruct (Hno q'). }
      rewrite Ea. split; [done|]. split; [done|]. split; [|split; [|done]].
      * intros m Em. rewrite Hsrc by (by eapply Hth). by rewrite <-(Hs m Em).
      * intros q' Hq'%Hca. by apply (Hno q').
    + intros id f E. destruct (H9 id f E) as [K1 K2 K3 K4 K5 K6 K7 K8]. split; rewrite ?Hm, ?Ht, ?Hf; try done.
      * intros j q Hq. destruct (K3 j q Hq) as [Ho Hs]. rewrite How. split; [done|].
        destruct Hs as [(pg & Epg & Hs)|(pg & Epg & Hs)]; [left|right]; exists pg; (split; [by eapply Hown|done]).
      * intros j q Hq. destruct (K4 j q Hq) as [Ho (pg & Epg & Hs)]. rewrite How. split; [done|]. exists pg. split; [by eapply Hown|done].
  - apply quiet_denote; [done..|]. intros id m j Em Hj. apply (denote_local w w' id m m); try done; [by rewrite Hm| |].
    + apply Hsrc. intros c Ec. destruct (H7 id m Em) as (_ & _ & _ & Hh). destruct (Hh c Ec) as [ch Ech]. exists ch. apply Hc2; [done|].
      left. by exists id, m.
    + intros q Eq. assert (owner w q id j) as Ho by (by exists m). destruct (H5 q id j Ho) as [[pg Epg] _].
      pose proof (Hown q id j pg Ho Epg) as Epg'. split; [split; [by exists pg, pg|by rewrite Ht]|]. split.
      * intros x (pg2 & E2 & Hs & Hph). rewrite Epg in E2. injection E2 as <-. assert (copy_at w' q x) by (by exists pg).
        split; [done|by apply (Hfx q)].
      * intros t Et. apply Hsrc. by eapply Hth.
Qed.

Lemma drop_chain_ok w c : cow_ok w → (∀ id m, memories w !! id = Some m → _copyChain m ≠ Some c) →
  (∀ p t, touches w !! p = Some t → t_chain t ≠ Some c) →
  cow_ok (CowChain_destruct w c) ∧ quiet_step w (CowChain_destruct w c).
Proof.
  intros H Hm Ht. apply cow_ok_drop; try done.
  - intros c' ch. unfold CowChain_destruct. simpl. by intros [_ ?]%lookup_delete_Some.
  - intros c' ch E Hr. unfold CowChain_destruct. simpl. rewrite lookup_delete_ne; [done|]. intros <-.
    destruct Hr as [(id & m & Em & Ec)|(p & t & Et & Ec)]; [by destruct (Hm id m)|by destruct (Ht p t)].
  - intros phys E. by left.
  - apply (ck_pfns _ H).
Qed.
Lemma drop_page_ok w p : cow_ok w → is_Some (cowPages w !! p) → (∀ id i, ¬ owner w p id i) →
  (∀ c ch k, cowChains w !! c = Some ch → ch !! k ≠ Some p) →
  ∃ w', CowPage_destruct w p = Ret w' ∧ cow_ok w' ∧ quiet_step w w' ∧ memories w' = memories w.
Proof.
  intros H [page Ep] Ho Hc. unfold CowPage_destruct. rewrite Ep. cbn [deref mbind outcome_bind].
  assert (cp_state page ≠ inProgress) as Hnp.
  { intros Hs. destruct (proj1 (ck_progress _ H p)) as [t Et]; [by exists page|]. by apply (Ho (t_memory t) (t_index t)), (ck_touch _ H p t Et). }
  assert (∀ q pg, delete p (cowPages w) !! q = Some pg → cowPages w !! q = Some pg) as Hsub by (intros q pg; by intros [_ ?]%lookup_delete_Some).
  assert (∀ q, (∃ id i, owner w q id i) ∨ (∃ c ch k, cowChains w !! c = Some ch ∧ ch !! k = Some q) → q ≠ p) as Hr.
  { intros q [(id & i & Hx)|(c & ch & k & E1 & E2)] ->; [by eapply Ho|by eapply Hc]. }
  destruct (cp_state page) eqn:Hs; [|done|].
  - unfold is_cow. rewrite Hs. cbn. eexists. split; [done|]. refine ((λ P, conj (proj1 P) (conj (proj2 P) eq_refl)) _). apply cow_ok_drop; try done; simpl.
    + intros q pg E Hq. rewrite lookup_delete_ne; [done|]. by apply not_eq_sym, Hr.
    + by left.
    + intros phys. rewrite (ck_pfns _ H). split; intros [q Hq]; exists q.
      * destruct Hq as (pg & E & Hs' & Hph). exists pg. simpl. rewrite lookup_delete_ne; [done|]. intros <-. congruence.
      * destruct Hq as (pg & E & Hs' & Hph). exists pg. by split; [apply Hsub|].
  - unfold is_cow. rewrite Hs, bool_decide_false, bool_decide_true by done.
    destruct (ck_page _ H p page Ep) as [_ Hx]. destruct (Hx Hs) as [Hb Hfx].
    rewrite assert_bind, assert_bind by (done || lia). eexists. split; [done|]. refine ((λ P, conj (proj1 P) (conj (proj2 P) eq_refl)) _). set (ph := cp_physical page) in *.
    assert (copy_at w p ph) as Hcp by (by exists page).
    apply cow_ok_drop; try done; simpl.
    + intros q pg E Hq. rewrite lookup_delete_ne; [done|]. by apply not_eq_sym, Hr.
    + intros phys. rewrite lookup_delete_None. intros [<-|?]; [right; exists p; split; [done|]; by rewrite lookup_delete, decide_True|by left].
    + intros phys a. by intros [_ ?]%lookup_delete_Some.
    + intros phys. rewrite elem_of_difference, elem_of_singleton, (ck_pfns _ H). split.
      * intros [[q (pg & E & Hs' & Hph)] Hne]. exists q, pg. simpl. rewrite lookup_delete_ne; [done|].
        intros <-. rewrite Ep in E. injection E as <-. by destruct Hne.
      * intros [q (pg & E & Hs' & Hph)]. simpl in E. apply lookup_delete_Some in E as [Hne E]. split; [exists q; by exists pg|].
        intros ->. apply Hne. apply (ck_frame _ H q p ph); [by exists pg|done].
Qed.

(** ** The copy of a locked page for a forked view *)
Section fork_copy.
Context (w : World A) (id : nat) (f : Fork) (i : Z) (p : nat) (rest : list (Z * nat)) (phys src : Z) (a : A) (fm : CopyOnWriteMemory).
Hypothesis H : cow_ok w.
Hypothesis Ef : forks w !! id = Some f.
Hypothesis Hip : f_inProgress f = [].
Hypothesis Hlk : f_lockedCopies f = (i, p) :: rest.
Hypothesis Hph : 0 ≤ phys < noFrame.
Hypothesis Hfree : frames w !! phys = None.
Hypothesis Hcp : copy_at w p src.
Hypothesis Ha : frames w !! src = Some a.
Hypothesis Efm : memories w !! id = Some fm.
Let n := nextId w.
Let f' := MkFork (f_memory f) (f_newChain f) [] rest.
Definition copy_locked : World A :=
  MkWorld (<[nextId w := MkCowPage phys hasCopy 0]> (cowPages w)) (cowChains w)
    (<[id := set_owned fm (<[i := nextId w]> (_ownedPages fm))]> (memories w)) (<[phys := a]> (frames w))
    ({[phys]} ∪ cowPfns w) (touches w) (<[id := MkFork (f_memory f) (f_newChain f) [] rest]> (forks w)) (S (nextId w)).
Let w' := copy_locked.

Lemma fc_pendings : pendings f = i :: rest.*1.
Proof. unfold pendings. by rewrite Hip, Hlk. Qed.
Lemma fc_unowned : _ownedPages fm !! i = None.
Proof.
  destruct (ck_fork _ H id f Ef) as [(m1 & m2 & _ & E2 & _ & _ & _ & Hv) _ _ _ _ _ _ _]. rewrite Efm in E2. injection E2 as <-.
  apply Hv. rewrite fc_pendings. by left.
Qed.
Lemma fc_pages q : cowPages w' !! q = if decide (q = n) then Some (MkCowPage phys hasCopy 0) else cowPages w !! q.
Proof. unfold w'. simpl. case_decide as E; [subst q; by rewrite lookup_insert, decide_True|by rewrite lookup_insert_ne]. Qed.
Lemma fc_copy q x : copy_at w' q x ↔ copy_at w q x ∨ (q = n ∧ x = phys).
Proof.
  unfold copy_at. rewrite fc_pages. case_decide as E.
  - split; [intros (pg & [= <-] & _ & <-); by right|]. intros [Hc|[_ ->]]; [by destruct (copy_fresh w q x H Hc)|by eexists].
  - split; [by left|]. by intros [?|[? _]].
Qed.
Lemma fc_frames x : is_Some (frames w !! x) → frames w' !! x = frames w !! x.
Proof. intros [b Hb]. unfold w'. simpl. rewrite lookup_insert_ne; [done|]. intros <-. congruence. Qed.
Lemma fc_keeps : keeps w w'.
Proof. split; [|done]. intros q x Hq. split; [apply fc_copy; by left|]. apply fc_frames. by apply (copy_frame w q x). Qed.
Lemma fc_owner q id' j : owner w' q id' j ↔ owner w q id' j ∨ (q = n ∧ id' = id ∧ j = i).
Proof.
  unfold owner, w'. simpl. destruct (decide (id' = id)) as [->|Hid].
  - rewrite lookup_insert, decide_True by done. split.
    + intros (m1 & [= <-] & E). simpl in E. destruct (decide (j = i)) as [->|Hj].
      * rewrite lookup_insert, decide_True in E by done. right. by injection E as <-.
      * rewrite lookup_insert_ne in E by done. left. by exists fm.
    + intros [(m1 & E1 & E2)|(-> & _ & ->)]; eexists; (split; [done|]); simpl.
      * rewrite Efm in E1. injection E1 as <-. rewrite lookup_insert_ne; [done|]. by intros <-; rewrite fc_unowned in E2.
      * by rewrite lookup_insert, decide_True.
  - rewrite lookup_insert_ne by done. split; [by left|]. by intros [?|(_ & ? & _)].
Qed.
Lemma fc_memory id' m' : memories w' !! id' = Some m' → ∃ m0, memories w !! id' = Some m0 ∧ same_shape m0 m' ∧ _copyChain m' = _copyChain m0.
Proof.
  unfold w'. simpl. destruct (decide (id' = id)) as [->|Hid].
  - rewrite lookup_insert, decide_True by done. intros [= <-]. by exists fm.
  - rewrite lookup_insert_ne by done. intros E. by exists m'.
Qed.
Lemma fc_memory' id' m : id' ≠ id → memories w !! id' = Some m → memories w' !! id' = Some m.
Proof. intros Hne E. unfold w'. simpl. by rewrite lookup_insert_ne. Qed.
Lemma fc_forks id' g : forks w' !! id' = Some g → (id' = id ∧ g = f') ∨ (id' ≠ id ∧ forks w !! id' = Some g).
Proof.
  unfold w'. simpl. destruct (decide (id' = id)) as [->|Hne].
  - rewrite lookup_insert, decide_True by done. intros [= <-]. by left.
  - rewrite lookup_insert_ne by done. by right.
Qed.
Lemma fc_forks_none id' : forks w !! id' = None → forks w' !! id' = None.
Proof. intros E. unfold w'. simpl. rewrite lookup_insert_ne; [done|]. intros <-. congruence. Qed.
Lemma fc_page_is q s : page_is w q s → page_is w' q s.
Proof.
  intros Hq. assert (q ≠ n) as Hne by (by eapply page_fresh). destruct Hq as (pg & E & Hs). exists pg. rewrite fc_pages, decide_False by done. done.
Qed.

Lemma fc_touch_ok q t : touches w !! q = Some t → touch_ok w' q t.
Proof.
  intros Et. destruct (ck_touch _ H q t Et) as [T1 T2 T3 T4 T5]. split.
  - apply fc_owner. by left.
  - intros m' E'. destruct (fc_memory _ _ E') as (m0 & E0 & Hsh & _). rewrite (same_view m0) by done. by apply T2.
  - by apply fc_forks_none.
  - done.
  - intros x Ex. destruct (T5 x Ex) as (? & Hx & Hsrc & Hno & Hu). rewrite fc_frames by done. split; [done|]. split; [done|]. split; [|split; [|done]].
    + intros m' E'. destruct (fc_memory _ _ E') as (m0 & E0 & Hsh & _). rewrite (source_shape w' _ m0 m') by done.
      rewrite (source_keeps w w') by (done || apply fc_keeps). by apply Hsrc.
    + intros q'. rewrite fc_copy. intros [Hq'|[_ ->]]; [by apply (Hno q')|]. destruct Hx as [b Hb]. congruence.
Qed.
Lemma fc_fork_ok id' g : forks w' !! id' = Some g → fork_ok w' id' g.
Proof.
  intros Eg. assert (∃ g0, forks w !! id' = Some g0 ∧ f_memory g = f_memory g0 ∧ f_newChain g = f_newChain g0 ∧
    f_inProgress g = f_inProgress g0 ∧ (∀ x, x ∈ f_lockedCopies g → x ∈ f_lockedCopies g0) ∧ NoDup (pendings g) ∧
    (∀ j, j ∈ pendings g → j ∈ pendings g0 ∧ (id' = id → j ≠ i))) as (g0 & E0 & Em & Ec & Ei & Hl & Hnd & Hp).
  { destruct (fc_forks id' g Eg) as [[-> ->]|[Hne E0]].
    - exists f. pose proof (fk_nodup _ _ _ (ck_fork _ H id f Ef)) as Hnd. rewrite fc_pendings in Hnd. apply list.NoDup_cons in Hnd as [Hni Hnd].
      split; [done|]. split; [done|]. split; [done|]. split; [by rewrite Hip|]. split; [rewrite Hlk; by right|]. split; [done|].
      intros j Hj. unfold pendings in Hj. simpl in Hj. split; [rewrite fc_pendings; by right|]. intros _ ->. done.
    - exists g. split_and!; try done. apply (fk_nodup _ _ _ (ck_fork _ H id' g E0)). }
  destruct (ck_fork _ H id' g0 E0) as [K1 K2 K3 K4 K5 K6 K7 K8]. split; rewrite ?Em, ?Ec, ?Ei; try done.
  - destruct K1 as (m1 & m2 & E1 & E2 & Hsh & C1 & C2 & Hv). assert (f_memory g0 ≠ id) as Hne by (intros E; rewrite E in K2; congruence).
    assert (∃ m2', memories w' !! id' = Some m2' ∧ same_shape m2 m2' ∧ _copyChain m2' = _copyChain m2 ∧
      ∀ j, j ∈ pendings g → _ownedPages m2' !! j = _ownedPages m2 !! j) as (m2' & E2' & Hsh' & Hc' & Ho').
    { destruct (decide (id' = id)) as [->|Hid]; [|exists m2; by rewrite (fc_memory' id' m2)].
      rewrite Efm in E2. injection E2 as <-. eexists. split; [unfold w'; simpl; by rewrite lookup_insert, decide_True|].
      split; [done|]. split; [done|]. intros j Hj. simpl. rewrite lookup_insert_ne; [done|]. intros <-. by apply (Hp i Hj). }
    exists m1, m2'. split; [by apply fc_memory'|]. split; [done|]. split; [unfold same_shape in *; intuition congruence|].
    split; [done|]. split; [congruence|]. intros j Hj. rewrite Ho' by done. by apply Hv, Hp.
  - by apply fc_forks_none.
  - intros j q Hq. destruct (K3 j q Hq) as [Ho Hs]. split; [apply fc_owner; by left|]. destruct Hs; [left|right]; by apply fc_page_is.
  - intros j q Hq. destruct (K4 j q (Hl _ Hq)) as [Ho Hs]. split; [apply fc_owner; by left|by apply fc_page_is].
  - intros id2 g2 E2 Em2. destruct (fc_forks id2 g2 E2) as [[-> ->]|[_ E2']]; [by apply (K6 id f)|by apply (K6 id2 g2)].
  - intros id2 m2 E2 Ec2. destruct (fc_memory _ _ E2) as (m0 & E0' & _ & Hc). eapply K7; [done|congruence].
Qed.

Lemma copy_locked_ok : cow_ok w' ∧ quiet_step w w'.
Proof.
  destruct (ck_ids _ H n ltac:(unfold n; lia)) as (Enp & Enc & Enm). split.
  - pose proof H as [H1 H2 H3 H4 H5 H6 H7 H8 H9 H10]. split.
    + intros k Hk. simpl in Hk. destruct (H1 k ltac:(lia)) as (E1 & E2 & E3). rewrite fc_pages, decide_False by (unfold n; lia).
      split; [done|]. split; [done|]. unfold w'. simpl. rewrite lookup_insert_ne; [done|]. intros <-. congruence.
    + intros q pg. rewrite fc_pages. case_decide.
      * intros [= <-]. simpl. split; [lia|]. intros _. split; [done|]. by rewrite lookup_insert, decide_True.
      * intros E. destruct (H2 q pg E) as [? Hx]. split; [done|]. intros Hs. destruct (Hx Hs) as [? ?]. by rewrite fc_frames.
    + assert (∀ q, ¬ copy_at w q phys) as Hno by (intros q Hq; destruct (copy_frame w q phys H Hq) as [_ [b Hb]]; congruence).
      intros q q' x. rewrite !fc_copy. intros [Hq|[-> ->]] [Hq'|[-> Hx]]; [by apply (H3 q q' x)|subst x; by destruct (Hno q)| |done].
      by destruct (Hno q').
    + intros q. change (touches w') with (touches w). rewrite <-H4. split; [|apply fc_page_is]. intros (pg & E & Hs).
      rewrite fc_pages in E. case_decide; [injection E as <-; done|]. by exists pg.
    + intros q id1 j Ho. apply fc_owner in Ho as [Ho|(-> & -> & ->)].
      * destruct (H5 q id1 j Ho) as [Hp Hu]. rewrite fc_pages, decide_False by (by eapply owner_fresh). split; [done|].
        intros id2 j2 [?|(-> & _ & _)]%fc_owner; [by apply Hu|]. by destruct (owner_fresh w id1 j _ H Ho).
      * rewrite fc_pages, decide_True by done. split; [done|]. intros id2 j2 [Ho|(_ & -> & ->)]%fc_owner; [|done].
        by destruct (owner_fresh w id2 j2 _ H Ho).
    + intros c ch k q E1 E2. change (cowChains w') with (cowChains w) in E1. destruct (H6 c ch k q E1 E2) as [Hp Hn].
      split; [by apply fc_page_is|]. intros id1 j [Ho|(-> & _)]%fc_owner; [by eapply Hn|]. by destruct (page_fresh w _ _ H Hp).
    + intros id1 m1 E1. destruct (fc_memory _ _ E1) as (m0 & E0 & (_ & -> & ->) & ->). by apply (H7 id1).
    + intros q t E. by apply fc_touch_ok.
    + apply fc_fork_ok.
    + intros x. unfold w' at 1. simpl. rewrite elem_of_union, elem_of_singleton, H10. setoid_rewrite fc_copy. split.
      * intros [->|[q Hq]]; [exists n; by right|exists q; by left].
      * intros [q [Hq|[_ ->]]]; [right; by exists q|by left].
  - destruct (ck_fork _ H id f Ef) as [(m1 & m2 & E1 & E2 & Hsh & C1 & C2 & Hv) K2 K3 K4 K5 K6 K7 K8].
    rewrite Efm in E2. injection E2 as <-.
    assert (∀ id1 m j, memories w !! id1 = Some m → ¬ (id1 = id ∧ j = i) → denote w' id1 j = denote w id1 j) as Hd.
    { intros id1 m j Em Hne. assert (∃ m', memories w' !! id1 = Some m' ∧ same_shape m m' ∧ _copyChain m' = _copyChain m ∧
        _ownedPages m' !! j = _ownedPages m !! j) as (m' & Em' & Hsh' & Hc' & Ho').
      { destruct (decide (id1 = id)) as [->|Hid]; [|exists m; by rewrite (fc_memory' id1 m)].
        rewrite Efm in Em. injection Em as <-. eexists. split; [unfold w'; simpl; by rewrite lookup_insert, decide_True|].
        split; [done|]. split; [done|]. simpl. rewrite lookup_insert_ne; [done|]. intros <-. by destruct Hne. }
      apply (denote_keeps w w' id1 m m'); try done; [apply fc_keeps|]. intros q Eq.
      assert (owner w q id1 j) as Ho by (by exists m). destruct (ck_owner _ H q id1 j Ho) as [[pg Epg] _].
      split; [|done]. exists pg, pg. rewrite fc_pages, decide_False by (by eapply owner_fresh). done. }
    assert (∀ g id1, forks w !! id1 = Some g → f_memory g ≠ id) as Hfm.
    { intros g id1 E E'. pose proof (fk_published _ _ _ (ck_fork _ H id1 g E)) as Hn. rewrite E' in Hn. congruence. }
    intros id1 m j Em Hj. unfold contents. unfold w' at 1. simpl. destruct (decide (id1 = id)) as [->|Hid].
    + rewrite lookup_insert, decide_True, Ef by done. change (pendings (MkFork (f_memory f) (f_newChain f) [] rest)) with (rest.*1).
      rewrite fc_pendings. cbn [f_memory]. destruct (decide (j = i)) as [->|Hji].
      * rewrite (decide_False (P := i ∈ rest.*1)), decide_True.
        -- destruct (K4 i p) as [(m3 & E3 & Eo) _]; [rewrite Hlk; by left|]. rewrite E1 in E3. injection E3 as <-.
           destruct Hcp as (pg & Epg & Hs & Hph'). unfold denote. rewrite E1. unfold w'. simpl. rewrite lookup_insert, decide_True by done. cbn.
           unfold denote_memory. simpl. rewrite lookup_insert, decide_True, Eo by done. unfold owned_contents. rewrite Epg. simpl.
           rewrite lookup_insert, decide_True by done. cbn. rewrite Hs, Hph', Ha. by rewrite lookup_insert, decide_True.
        -- by left.
        -- rewrite fc_pendings in K5. by apply list.NoDup_cons in K5 as [? _].
      * assert (j ∈ rest.*1 ↔ j ∈ i :: rest.*1) as Hiff by (rewrite elem_of_cons; tauto).
        case_decide as H1; case_decide as H2; try tauto.
        -- apply (Hd _ m1); [done|]. by intros [_ ?].
        -- apply (Hd _ fm); [done|]. by intros [_ ?].
    + rewrite lookup_insert_ne by done. destruct (forks w !! id1) as [g|] eqn:Eg; [|apply (Hd _ m); [done|by intros [? _]]].
      case_decide; [|apply (Hd _ m); [done|by intros [? _]]].
      destruct (ck_fork _ H id1 g Eg) as [(m3 & m4 & E3 & _) _ _ _ _ _ _ _]. apply (Hd _ m3); [done|]. intros [E _]. by apply (Hfm g id1).
Qed.
End fork_copy.

(** ** A page that was in progress when the fork began *)
Lemma settle_locked_ok w id f i p rest : cow_ok w → forks w !! id = Some f → f_inProgress f = (i, p) :: rest → page_is w p hasCopy →
  let w' := set_forks w (<[id := MkFork (f_memory f) (f_newChain f) rest (f_lockedCopies f ++ [(i, p)])]> (forks w)) in
  cow_ok w' ∧ quiet_step w w'.
Proof.
  intros H Ef Hi Hp w'. set (f' := MkFork _ _ _ _) in w'. pose proof H as [H1 H2 H3 H4 H5 H6 H7 H8 H9 H10].
  assert (pendings f' ≡ₚ pendings f) as Hperm.
  { unfold pendings. simpl. rewrite Hi, fmap_app. simpl. rewrite app_assoc, (Permutation_app_comm (_ ++ _) [i]). done. }
  assert (∀ id', forks w !! id' = None → forks w' !! id' = None) as Hnone.
  { intros id' E. unfold w'. simpl. rewrite lookup_insert_ne; [done|]. intros <-. congruence. }
  assert (∀ id' g, forks w' !! id' = Some g → ∃ g0, forks w !! id' = Some g0 ∧ f_memory g = f_memory g0 ∧ f_newChain g = f_newChain g0 ∧
    pendings g ≡ₚ pendings g0 ∧ (id' = id ∧ g = f' ∨ g = g0)) as Hsub.
  { intros id' g. unfold w'. simpl. destruct (decide (id' = id)) as [->|Hne].
    - rewrite lookup_insert, decide_True by done. intros [= <-]. exists f. split_and!; try done. by left.
    - rewrite lookup_insert_ne by done. intros E. exists g. split_and!; try done. by right. }
  split.
  - split; try done.
    + intros q t E. destruct (H8 q t E) as [T1 T2 T3 T4 T5]. split; try done. by apply Hnone.
    + intros id' g E. destruct (Hsub id' g E) as (g0 & E0 & Em & Ec & Hpg & Hcase).
      destruct (H9 id' g0 E0) as [K1 K2 K3 K4 K5 K6 K7 K8]. split; rewrite ?Em, ?Ec, ?Hpg; try done.
      * destruct K1 as (m1 & m2 & ? & ? & ? & ? & ? & Hv). exists m1, m2. split_and!; try done. intros j Hj. apply Hv. by rewrite <-Hpg.
      * by apply Hnone.
      * destruct Hcase as [[-> ->]| ->]; [|done]. rewrite Ef in E0. injection E0 as <-. intros j q Hq. apply K3. rewrite Hi. by right.
      * destruct Hcase as [[-> ->]| ->]; [|done]. rewrite Ef in E0. injection E0 as <-. intros j q Hq. simpl in Hq.
        apply elem_of_app in Hq as [Hq|[= -> ->]%list_elem_of_singleton]; [by apply K4|]. split; [|done]. apply K3. rewrite Hi. by left.
      * intros id2 g2 E2 Em2. destruct (Hsub id2 g2 E2) as (g3 & E3 & Em3 & _). eapply K6; [done|congruence].
  - intros id' m j Em Hj. unfold contents, w'. simpl. destruct (decide (id' = id)) as [->|Hne]; [|by rewrite lookup_insert_ne].
    rewrite lookup_insert, decide_True, Ef by done. cbn [f_memory]. rewrite (decide_ext (j ∈ pendings f') (j ∈ pendings f)); [done|]. by rewrite Hperm.
Qed.

Section settle.
Context (w : World A) (id : nat) (f : Fork) (i : Z) (p : nat) (rest : list (Z * nat)) (m : CopyOnWriteMemory) (ch : gmap Z nat).
Hypothesis H : cow_ok w.
Hypothesis Ef : forks w !! id = Some f.
Hypothesis Hi : f_inProgress f = (i, p) :: rest.
Hypothesis Hp : page_is w p hasCopy.
Hypothesis Em : memories w !! f_memory f = Some m.
Hypothesis Ech : cowChains w !! f_newChain f = Some ch.
Let c := f_newChain f.
Let f' := MkFork (f_memory f) (f_newChain f) rest (f_lockedCopies f).
Definition settle_moved : World A :=
  MkWorld (cowPages w) (<[f_newChain f := <[chain_key m i := p]> ch]> (cowChains w))
    (<[f_memory f := set_owned m (delete i (_ownedPages m))]> (memories w)) (frames w) (cowPfns w) (touches w)
    (<[id := MkFork (f_memory f) (f_newChain f) rest (f_lockedCopies f)]> (forks w)) (nextId w).
Let w' := settle_moved.

Lemma sm_owned : _ownedPages m !! i = Some p.
Proof.
  destruct (fk_progress _ _ _ (ck_fork _ H id f Ef) i p) as [(m1 & E1 & E2) _]; [rewrite Hi; by left|]. congruence.
Qed.
Lemma sm_pending : i ∈ pendings f ∧ (i ∉ pendings f') ∧ (∀ j, j ∈ pendings f' ↔ j ∈ pendings f ∧ j ≠ i) ∧ NoDup (pendings f').
Proof.
  pose proof (fk_nodup _ _ _ (ck_fork _ H id f Ef)) as Hnd. unfold pendings in *. rewrite Hi in *. simpl in *.
  apply list.NoDup_cons in Hnd as [Hni Hnd]. split; [by left|]. split; [done|]. split; [|done].
  intros j. rewrite elem_of_cons. split; [|tauto]. intros Hj. split; [by right|]. by intros ->.
Qed.
Lemma sm_view j : j ∈ pendings f → in_view m j.
Proof.
  destruct (fk_memory _ _ _ (ck_fork _ H id f Ef)) as (m1 & m2 & E1 & _ & _ & _ & _ & Hv). rewrite Em in E1. injection E1 as <-.
  intros Hj. by apply Hv.
Qed.
Lemma sm_key j : in_view m j → j ≠ i → chain_key m j ≠ chain_key m i.
Proof.
  intros Hj Hne Hk. destruct (ck_memory _ H _ m Em) as (? & ? & ? & _). destruct Hne.
  apply (chain_key_inj m); [lia|done|done|apply sm_view, (proj1 sm_pending)|done].
Qed.
Lemma sm_memory id' m' : memories w' !! id' = Some m' → ∃ m0, memories w !! id' = Some m0 ∧ same_shape m0 m' ∧ _copyChain m' = _copyChain m0 ∧
  ∀ j, (id' ≠ f_memory f ∨ j ≠ i) → _ownedPages m' !! j = _ownedPages m0 !! j.
Proof.
  unfold w'. simpl. destruct (decide (id' = f_memory f)) as [->|Hid].
  - rewrite lookup_insert, decide_True by done. intros [= <-]. exists m. split; [done|]. split; [done|]. split; [done|].
    intros j [?|Hj]; [done|]. simpl. by rewrite lookup_delete_ne.
  - rewrite lookup_insert_ne by done. intros E. by exists m'.
Qed.
Lemma sm_memory' id' m0 : memories w !! id' = Some m0 → ∃ m', memories w' !! id' = Some m' ∧ same_shape m0 m' ∧ _copyChain m' = _copyChain m0 ∧
  (id' ≠ f_memory f → m' = m0) ∧ ∀ j, (id' ≠ f_memory f ∨ j ≠ i) → _ownedPages m' !! j = _ownedPages m0 !! j.
Proof.
  unfold w'. simpl. destruct (decide (id' = f_memory f)) as [->|Hid].
  - intros E. rewrite Em in E. injection E as <-. rewrite lookup_insert, decide_True by done. eexists. split; [done|]. split; [done|].
    split; [done|]. split; [done|]. intros j [?|Hj]; [done|]. simpl. by rewrite lookup_delete_ne.
  - rewrite lookup_insert_ne by done. intros E. by exists m0.
Qed.
Lemma sm_owner q id' j : owner w' q id' j ↔ owner w q id' j ∧ q ≠ p.
Proof.
  assert (owner w p (f_memory f) i) as Hop by (exists m; split; [done|apply sm_owned]).
  split.
  - intros (m' & E' & Eo). destruct (sm_memory _ _ E') as (m0 & E0 & _ & _ & Hoth). destruct (decide (id' = f_memory f ∧ j = i)) as [[-> ->]|Hd].
    + unfold w' in E'. simpl in E'. rewrite lookup_insert, decide_True in E' by done. injection E' as <-. simpl in Eo.
      by rewrite lookup_delete, decide_True in Eo.
    + rewrite Hoth in Eo by (destruct (decide (id' = f_memory f)); [right; tauto|by left]). assert (owner w q id' j) as Ho by (by exists m0).
      split; [done|]. intros ->. destruct (ck_owner _ H p id' j Ho) as [_ Hu]. destruct (Hu _ _ Hop) as [? ?]. by destruct Hd.
  - intros [(m0 & E0 & Eo) Hq]. destruct (sm_memory' _ _ E0) as (m' & E' & _ & _ & _ & Hoth). exists m'. split; [done|]. rewrite Hoth; [done|].
    destruct (decide (id' = f_memory f)) as [->|?]; [right|by left]. intros ->. rewrite Em in E0. injection E0 as <-. rewrite sm_owned in Eo. congruence.
Qed.
Lemma sm_chain_find chain k : chain ≠ Some c ∨ k ≠ chain_key m i → chain_find w' chain k = chain_find w chain k.
Proof.
  intros Hd. unfold chain_find. destruct chain as [c'|]; [|done]. cbn. unfold w'. simpl. destruct (decide (c' = f_newChain f)) as [->|Hc].
  - destruct Hd as [?|Hk]; [done|]. rewrite lookup_insert, decide_True, Ech by done. cbn. by rewrite lookup_insert_ne.
  - by rewrite lookup_insert_ne.
Qed.
Lemma sm_source chain m' j : chain ≠ Some c ∨ chain_key m' j ≠ chain_key m i → source w' chain m' j = source w chain m' j.
Proof. intros Hd. unfold source. by rewrite sm_chain_find. Qed.
Lemma sm_has_chain chain : has_chain w chain → has_chain w' chain.
Proof.
  intros Hh c' Ec. destruct (Hh c' Ec) as [ch' E]. unfold w'. simpl. destruct (decide (c' = f_newChain f)) as [->|Hc].
  - by rewrite lookup_insert, decide_True by done.
  - rewrite lookup_insert_ne by done. by exists ch'.
Qed.
Lemma sm_forks_none id' : forks w !! id' = None → forks w' !! id' = None.
Proof. intros E. unfold w'. simpl. rewrite lookup_insert_ne; [done|]. intros <-. congruence. Qed.
(** Copies in flight do not read the new entry of the chain. *)
Lemma sm_touch_source q t m' j : touches w !! q = Some t → memories w !! t_memory t = Some m' → j = t_index t →
  source w' (t_chain t) m' j = source w (t_chain t) m' j.
Proof.
  intros Et Em' ->. apply sm_source. destruct (decide (t_chain t = Some c)) as [Ec|?]; [right|by left].
  pose proof (fk_touches _ _ _ (ck_fork _ H id f Ef) q t Et Ec) as Etm. rewrite Etm, Em in Em'. injection Em' as <-.
  destruct (ck_touch _ H q t Et) as [T1 T2 _ _ _]. apply sm_key; [apply T2; by rewrite Etm|]. intros Hx.
  destruct T1 as (m1 & E1 & Eo). rewrite Etm, Em in E1. injection E1 as <-. rewrite Hx, sm_owned in Eo. injection Eo as <-.
  by pose proof (not_both _ _ _ _ Hp (touch_inProgress w p t H Et)).
Qed.

Lemma sm_fork_ok id' g : forks w' !! id' = Some g → fork_ok w' id' g.
Proof.
  destruct sm_pending as (Hpi & Hpn & Hpj & Hnd').
  intros Eg. assert (∃ g0, forks w !! id' = Some g0 ∧ f_memory g = f_memory g0 ∧ f_newChain g = f_newChain g0 ∧
    (∀ x, x ∈ f_inProgress g → x ∈ f_inProgress g0) ∧ f_lockedCopies g = f_lockedCopies g0 ∧ NoDup (pendings g) ∧
    (∀ j, j ∈ pendings g → j ∈ pendings g0 ∧ (id' = id → j ≠ i))) as (g0 & E0 & Emm & Ec & Hx & El & Hnd & Hpp).
  { unfold w' in Eg. simpl in Eg. destruct (decide (id' = id)) as [->|Hne].
    - rewrite lookup_insert, decide_True in Eg by done. injection Eg as <-. exists f. split_and!; try done.
      + rewrite Hi. by right.
      + intros j Hj. apply Hpj in Hj as [? ?]. done.
    - rewrite lookup_insert_ne in Eg by done. exists g. split_and!; try done. apply (fk_nodup _ _ _ (ck_fork _ H id' g Eg)). }
  pose proof (ck_fork _ H id' g0 E0) as [K1 K2 K3 K4 K5 K6 K7 K8].
  assert (∀ j q, owner w q (f_memory g0) j → j ∈ pendings g → q ≠ p) as Hqp.
  { intros j q Ho Hj ->. destruct (ck_owner _ H p _ _ Ho) as [_ Hu]. destruct (Hu (f_memory f) i) as [E1 E2]; [exists m; split; [done|apply sm_owned]|].
    assert (id = id') as <- by (by apply (K6 id f)). destruct (Hpp j Hj) as [_ Hne]. by apply Hne. }
  split; rewrite ?Emm, ?Ec, ?El; try done.
  - destruct K1 as (m1 & m2 & E1 & E2 & Hsh & C1 & C2 & Hv).
    destruct (sm_memory' _ _ E1) as (m1' & E1' & Hs1 & Hc1 & _). destruct (sm_memory' _ _ E2) as (m2' & E2' & Hs2 & Hc2 & Hsame & _).
    assert (id' ≠ f_memory f) as Hid. { intros ->. rewrite (fk_published _ _ _ (ck_fork _ H id f Ef)) in E0. done. }
    rewrite (Hsame Hid) in *. exists m1', m2. split; [done|]. split; [done|]. split; [unfold same_shape in *; intuition congruence|].
    split; [congruence|]. split; [done|]. intros j Hj. rewrite (same_view m1 m1') by done. by apply Hv, Hpp.
  - by apply sm_forks_none.
  - intros j q Hq. destruct (K3 j q (Hx _ Hq)) as [Ho Hs]. split; [|done]. apply sm_owner. split; [done|]. apply (Hqp j q Ho).
    unfold pendings. apply elem_of_app. left. apply list_elem_of_fmap. by exists (j, q).
  - intros j q Hq. destruct (K4 j q Hq) as [Ho Hs]. split; [|done]. apply sm_owner. split; [done|]. apply (Hqp j q Ho).
    unfold pendings. apply elem_of_app. right. apply list_elem_of_fmap. exists (j, q). by rewrite El.
  - intros id2 g2 E2 Em2. unfold w' in E2. simpl in E2. destruct (decide (id2 = id)) as [->|Hne].
    + rewrite lookup_insert, decide_True in E2 by done. injection E2 as <-. by apply (K6 id f).
    + rewrite lookup_insert_ne in E2 by done. by apply (K6 id2 g2).
  - intros id2 m2 E2 Ec2. destruct (sm_memory _ _ E2) as (m0 & E0' & _ & Hc & _). eapply K7; [done|congruence].
Qed.

Lemma sm_cow_ok : cow_ok w'.
Proof.
  pose proof H as [H1 H2 H3 H4 H5 H6 H7 H8 H9 H10]. split; try done.
  - intros n Hn. destruct (H1 n Hn) as (? & E2 & E3). split; [done|]. unfold w'. simpl. split; rewrite lookup_insert_ne; try done; intros <-; congruence.
  - intros q id1 j [Ho Hq]%sm_owner. destruct (H5 q id1 j Ho) as [? Hu]. split; [done|]. intros id2 j2 [Ho2 _]%sm_owner. by apply Hu.
  - intros c' ch' k q E1 E2. unfold w' in E1. simpl in E1. destruct (decide (c' = f_newChain f)) as [->|Hc].
    + rewrite lookup_insert, decide_True in E1 by done. injection E1 as <-. destruct (decide (k = chain_key m i)) as [->|Hk].
      * rewrite lookup_insert, decide_True in E2 by done. injection E2 as <-. split; [done|]. intros id1 j [_ ?]%sm_owner. done.
      * rewrite lookup_insert_ne in E2 by done. destruct (H6 _ _ _ _ Ech E2) as [? Hno]. split; [done|]. intros id1 j [Ho _]%sm_owner. by apply (Hno id1 j).
    + rewrite lookup_insert_ne in E1 by done. destruct (H6 _ _ _ _ E1 E2) as [? Hno]. split; [done|]. intros id1 j [Ho _]%sm_owner. by apply (Hno id1 j).
  - intros id1 m1 E1. destruct (sm_memory _ _ E1) as (m0 & E0 & (_ & -> & ->) & -> & _). destruct (H7 id1 m0 E0) as (? & ? & ? & ?).
    split; [done|]. split; [done|]. split; [done|by apply sm_has_chain].
  - intros q t Et. change (touches w') with (touches w) in Et. destruct (H8 q t Et) as [T1 T2 T3 T4 T5]. split.
    + apply sm_owner. split; [done|]. intros ->. by pose proof (not_both _ _ _ _ Hp (touch_inProgress w p t H Et)).
    + intros m' E'. destruct (sm_memory _ _ E') as (m0 & E0 & Hsh & _). rewrite (same_view m0) by done. by apply T2.
    + by apply sm_forks_none.
    + by apply sm_has_chain.
    + intros x Ex. destruct (T5 x Ex) as (? & ? & Hsrc & Hno & Hu). split; [done|]. split; [done|]. split; [|done].
      intros m' E'. destruct (sm_memory _ _ E') as (m0 & E0 & Hsh & _). rewrite (source_shape w' _ m0 m') by done.
      rewrite (sm_touch_source q t m0) by done. by apply Hsrc.
  - apply sm_fork_ok.
Qed.

Lemma sm_denote id1 m1 j : memories w !! id1 = Some m1 → in_view m1 j →
  (id1 = id → j ≠ i) → denote w' id1 j = denote w id1 j.
Proof.
  intros E1 Hj Hne. destruct (fk_memory _ _ _ (ck_fork _ H id f Ef)) as (mo & fm & Emo & Efm & Hsh & C1 & C2 & Hv).
  rewrite Em in Emo. injection Emo as <-. destruct (sm_memory' _ _ E1) as (m1' & E1' & Hs1 & Hc1 & _ & Hoth).
  destruct (decide (id1 = f_memory f ∧ j = i)) as [[-> ->]|Hd].
  - rewrite Em in E1. injection E1 as <-. unfold denote. rewrite Em, E1'. cbn. unfold denote_memory. rewrite sm_owned.
    unfold w' in E1'. simpl in E1'. rewrite lookup_insert, decide_True in E1' by done. injection E1' as <-. simpl.
    rewrite lookup_delete, decide_True by done. unfold source, chain_find. rewrite C1. cbn. unfold w'. simpl.
    rewrite lookup_insert, decide_True by done. cbn. rewrite lookup_insert, decide_True by done.
    destruct Hp as (pg & Epg & Hs). unfold owned_contents, frame_contents. simpl. rewrite Epg. cbn. by rewrite Hs.
  - apply (denote_local w w' id1 m1 m1'); try done.
    + apply Hoth. destruct (decide (id1 = f_memory f)); [right; tauto|by left].
    + rewrite Hc1. apply sm_source. destruct (decide (_copyChain m1 = Some c)) as [Ec|?]; [right|by left].
      destruct (fk_users _ _ _ (ck_fork _ H id f Ef) id1 m1 E1 Ec) as [Eid|Eid]; subst id1.
      * rewrite Em in E1. injection E1 as <-. apply sm_key; [done|tauto].
      * rewrite Efm in E1. injection E1 as <-. rewrite (same_key m fm) by done. rewrite (same_view m fm) in Hj by done.
        apply sm_key; [done|by apply Hne].
    + intros q Eq. assert (owner w q id1 j) as Ho by (by exists m1). destruct (ck_owner _ H q id1 j Ho) as [[pg Epg] Hu].
      split; [split; [by exists pg, pg|done]|]. split; [done|]. intros t Et. destruct (ck_touch _ H q t Et) as [T1 _ _ _ _].
      destruct (Hu _ _ T1) as [E2 E3]. apply (sm_touch_source q t); [done|by rewrite E2|done].
Qed.

Lemma settle_moved_ok : cow_ok w' ∧ quiet_step w w'.
Proof.
  split; [apply sm_cow_ok|]. destruct sm_pending as (Hpi & Hpn & Hpj & _).
  destruct (fk_memory _ _ _ (ck_fork _ H id f Ef)) as (mo & fm & Emo & Efm & Hsh & C1 & C2 & Hv). rewrite Em in Emo. injection Emo as <-.
  assert (f_memory f ≠ id) as Hfid. { intros E. pose proof (fk_published _ _ _ (ck_fork _ H id f Ef)) as Hn. rewrite E in Hn. congruence. }
  intros id1 m1 j E1 Hj. unfold contents. destruct (decide (id1 = id)) as [->|Hid].
  - rewrite Efm in E1. injection E1 as <-. unfold w' at 1. simpl. rewrite lookup_insert, decide_True, Ef by done. cbn [f_memory].
    destruct (decide (j = i)) as [->|Hji].
    + rewrite decide_False, (decide_True _ (denote w id i)) by done. rewrite <-(sm_denote (f_memory f) m i Em) by (done || by apply sm_view).
      destruct (sm_memory' _ _ Efm) as (fm' & Efm' & _ & _ & Hsame & _). rewrite (Hsame (not_eq_sym Hfid)) in Efm'.
      destruct (Hv i Hpi) as [_ Hfo]. unfold denote. rewrite Efm'. unfold w' at 2. simpl. rewrite lookup_insert, decide_True by done. cbn.
      unfold denote_memory. simpl. rewrite lookup_delete, decide_True, Hfo, C1, C2 by done. rewrite (source_shape w' _ m fm) by done. done.
    + destruct (Hpj j) as [Hp1 Hp2]. case_decide as Hd1; case_decide as Hd2; try tauto.
      * apply (sm_denote _ m); [done|by apply sm_view|done].
      * apply (sm_denote _ fm); [done|done|done].
  - unfold w' at 1. simpl. rewrite lookup_insert_ne by done. destruct (forks w !! id1) as [g|] eqn:Eg; [|by apply (sm_denote _ m1)].
    case_decide as Hd; [|by apply (sm_denote _ m1)].
    destruct (fk_memory _ _ _ (ck_fork _ H id1 g Eg)) as (m3 & m4 & E3 & _ & _ & _ & _ & Hv3). destruct (Hv3 j Hd) as [Hj3 _].
    apply (sm_denote _ m3); [done..|]. intros E. pose proof (fk_published _ _ _ (ck_fork _ H id1 g Eg)) as Hn. rewrite E in Hn. congruence.
Qed.
End settle.

(** ** The beginning of a fork *)
Inductive scan_kind := SNone | SNull | SChain (p : nat) | SProg (p : nat) | SLocked (p : nat) | SMove (p : nat).
Definition kind_of w m i : scan_kind :=
  match _ownedPages m !! i with
  | None => match chain_find w (_copyChain m) (chain_key m i) with Some p => SChain p | None => SNone end
  | Some p =>
      match cowPages w !! p with
      | None => SNull
      | Some page =>
          match cp_state page with
          | cow_null => SNull
          | inProgress => SProg p
          | hasCopy => if negb (cp_lockCount page =? 0) then SLocked p else SMove p
          end
      end
  end.
Definition kind_chain (s : scan_kind) : option nat := match s with SChain p | SMove p => Some p | _ => None end.
Definition kind_prog i (s : scan_kind) : option (Z * nat) := match s with SProg p => Some (i, p) | _ => None end.
Definition kind_locked i (s : scan_kind) : option (Z * nat) := match s with SLocked p => Some (i, p) | _ => None end.
Definition is_move (s : scan_kind) : bool := match s with SMove _ => true | _ => false end.

Fixpoint owned_after w m (o : gmap Z nat) (l : list Z) : gmap Z nat :=
  match l with [] => o | i :: l => owned_after w m (if is_move (kind_of w m i) then delete i o else o) l end.
Fixpoint chain_after w m (ch : gmap Z nat) (l : list Z) : gmap Z nat :=
  match l with
  | [] => ch
  | i :: l => chain_after w m (match kind_chain (kind_of w m i) with Some p => <[chain_key m i := p]> ch | None => ch end) l
  end.

Lemma owned_after_lookup w m l : ∀ o j, owned_after w m o l !! j =
  if decide (j ∈ l) then if is_move (kind_of w m j) then None else o !! j else o !! j.
Proof.
  induction l as [|i l IH]; intros o j; [done|]. cbn [owned_after]. rewrite IH. destruct (decide (j = i)) as [->|Hne].
  - rewrite (decide_True (P := i ∈ i :: l)) by (by left). destruct (is_move (kind_of w m i)); [|by case_decide].
    rewrite lookup_delete, (decide_True (P := i = i)) by done. by case_decide.
  - assert ((if is_move (kind_of w m i) then delete i o else o) !! j = o !! j) as -> by (destruct (is_move _); [by rewrite lookup_delete_ne|done]).
    apply not_eq_sym in Hne. case_decide as H1; case_decide as H2; try done; rewrite elem_of_cons in H2; naive_solver.
Qed.
Lemma chain_after_other w m l : ∀ ch k, (∀ j, j ∈ l → chain_key m j ≠ k) → chain_after w m ch l !! k = ch !! k.
Proof.
  induction l as [|i l IH]; intros ch k Hk; [done|]. cbn [chain_after]. rewrite IH by (intros j Hj; apply Hk; by right).
  destruct (kind_chain _); [|done]. rewrite lookup_insert_ne; [done|]. apply Hk. by left.
Qed.
Lemma chain_after_lookup w m l : (∀ i j, i ∈ l → j ∈ l → chain_key m i = chain_key m j → i = j) → NoDup l →
  ∀ ch j, j ∈ l → ch !! chain_key m j = None → chain_after w m ch l !! chain_key m j = kind_chain (kind_of w m j).
Proof.
  intros Hinj Hnd. induction Hnd as [|i l Hi Hnd IH]; intros ch j Hj Hn; [by apply elem_of_nil in Hj|]. cbn [chain_after].
  destruct (decide (j = i)) as [->|Hne].
  - rewrite chain_after_other.
    + destruct (kind_chain (kind_of w m i)); [by rewrite lookup_insert, decide_True|done].
    + intros j Hj' Hk. assert (j = i) as -> by (apply Hinj; [by right|by left|done]). done.
  - apply elem_of_cons in Hj as [?|Hj]; [done|]. apply IH; [intros; apply Hinj; by try right|done|].
    destruct (kind_chain (kind_of w m i)); [|done]. rewrite lookup_insert_ne; [done|]. intros Hk. apply Hne. apply Hinj; [by right|by left|done].
Qed.
Lemma chain_after_inv w m l : ∀ ch k p, chain_after w m ch l !! k = Some p →
  ch !! k = Some p ∨ ∃ j, j ∈ l ∧ kind_chain (kind_of w m j) = Some p.
Proof.
  induction l as [|i l IH]; intros ch k p E; [by left|]. cbn [chain_after] in E. destruct (IH _ _ _ E) as [E'|(j & Hj & Hk)].
  - destruct (kind_chain (kind_of w m i)) as [q|] eqn:Eq; [|by left]. destruct (decide (k = chain_key m i)) as [->|Hne].
    + rewrite lookup_insert, decide_True in E' by done. injection E' as <-. right. exists i. by split; [left|].
    + rewrite lookup_insert_ne in E' by done. by left.
  - right. exists j. by split; [right|].
Qed.

Lemma scan_loop_run w w1 m l : cow_ok w → cowPages w1 = cowPages w → cowChains w1 = cowChains w → ∀ sc,
  (∃ id, memories w !! id = Some m) → NoDup l → (∀ j, j ∈ l → sc_owned sc !! j = _ownedPages m !! j) →
  scan_loop w1 m (_copyChain m) sc l =
    Ret (MkScan (owned_after w m (sc_owned sc) l) (chain_after w m (sc_chain sc) l)
           (sc_inProgress sc ++ omap (λ j, kind_prog j (kind_of w m j)) l)
           (sc_locked sc ++ omap (λ j, kind_locked j (kind_of w m j)) l)).
Proof.
  intros H Ep Ec. induction l as [|i l IH]; intros sc [id Em] Hnd Ho.
  { simpl. rewrite !app_nil_r. by destruct sc. }
  apply list.NoDup_cons in Hnd as [Hi Hnd]. cbn [scan_loop owned_after chain_after omap list_omap].
  assert (scan_page w1 m (_copyChain m) sc i =
    Ret (MkScan (if is_move (kind_of w m i) then delete i (sc_owned sc) else sc_owned sc)
           (match kind_chain (kind_of w m i) with Some p => <[chain_key m i := p]> (sc_chain sc) | None => sc_chain sc end)
           (sc_inProgress sc ++ (match kind_prog i (kind_of w m i) with Some x => [x] | None => [] end))
           (sc_locked sc ++ (match kind_locked i (kind_of w m i) with Some x => [x] | None => [] end)))) as ->.
  { unfold scan_page, kind_of. rewrite (Ho i) by (by left). unfold chain_find. rewrite Ep, Ec. fold (chain_find w (_copyChain m) (chain_key m i)).
    destruct (_ownedPages m !! i) as [p|] eqn:Eo.
    - destruct (ck_owner _ H p id i) as [[page Epg] _]; [by exists m|]. rewrite Epg. cbn [deref mbind outcome_bind].
      destruct (ck_page _ H p page Epg) as [_ Hx]. destruct (cp_state page) eqn:Es; [|..|destruct (cp_lockCount page =? 0)];
        cbn [negb kind_chain is_move kind_prog kind_locked]; rewrite ?app_nil_r; [by destruct sc|done| |done].
      rewrite assert_bind; [done|]. destruct (Hx eq_refl) as [? _]. lia.
    - change (c ← _copyChain m; pages ← cowChains w !! c; pages !! chain_key m i) with (chain_find w (_copyChain m) (chain_key m i)).
      destruct (chain_find w (_copyChain m) (chain_key m i)) as [p|] eqn:Ef.
      + destruct (chain_find_copy w _ _ p H Ef) as (phys & page & Epg & Hs & _). rewrite Epg. cbn [deref mbind outcome_bind].
        unfold is_cow. rewrite Hs, assert_bind by done. cbn [kind_chain is_move kind_prog kind_locked]. by rewrite !app_nil_r.
      + cbn [kind_chain is_move kind_prog kind_locked]. rewrite !app_nil_r. by destruct sc. }
  cbn [mbind outcome_bind]. rewrite IH; [..|done|].
  - cbn [sc_owned sc_chain sc_inProgress sc_locked]. f_equal. f_equal; rewrite <-app_assoc; f_equal.
    + by destruct (kind_prog i (kind_of w m i)).
    + by destruct (kind_locked i (kind_of w m i)).
  - by exists id.
  - intros j Hj. cbn [sc_owned]. rewrite <-(Ho j) by (by right). destruct (is_move (kind_of w m i)); [|done].
    rewrite lookup_delete_ne; [done|]. by intros <-.
Qed.

Lemma all_indices_view m i : i ∈ all_indices m ↔ in_view m i.
Proof. unfold all_indices, in_view. rewrite elem_of_seqZ. lia. Qed.
Lemma all_indices_nodup m : NoDup (all_indices m).
Proof. apply NoDup_seqZ. Qed.
Lemma omap_prog w m (l : list Z) j p : (j, p) ∈ omap (λ i, kind_prog i (kind_of w m i)) l ↔ j ∈ l ∧ kind_of w m j = SProg p.
Proof.
  rewrite list_elem_of_omap. split.
  - intros (i & Hi & E). destruct (kind_of w m i) eqn:Ek; try done. by injection E as -> ->.
  - intros [Hj E]. exists j. by rewrite E.
Qed.
Lemma omap_locked w m (l : list Z) j p : (j, p) ∈ omap (λ i, kind_locked i (kind_of w m i)) l ↔ j ∈ l ∧ kind_of w m j = SLocked p.
Proof.
  rewrite list_elem_of_omap. split.
  - intros (i & Hi & E). destruct (kind_of w m i) eqn:Ek; try done. by injection E as -> ->.
  - intros [Hj E]. exists j. by rewrite E.
Qed.
Lemma omap_nodup w m (l : list Z) : NoDup l →
  NoDup ((omap (λ i, kind_prog i (kind_of w m i)) l).*1 ++ (omap (λ i, kind_locked i (kind_of w m i)) l).*1).
Proof.
  assert (∀ (g : Z → option (Z * nat)) (l : list Z), (∀ i x, g i = Some x → x.1 = i) → NoDup l → NoDup (omap g l).*1) as Hone.
  { intros g l0 Hg Hnd. induction Hnd as [|i l0 Hi Hnd IH]; [constructor|]. cbn [omap list_omap]. destruct (g i) as [x|] eqn:E; [|done].
    cbn. constructor; [|done]. rewrite list_elem_of_fmap. intros (y & E1 & (k & Hk & E2)%list_elem_of_omap).
    rewrite (Hg i x E), (Hg k y E2) in E1. by subst k. }
  intros Hnd. apply list.NoDup_app. split_and!.
  - apply Hone; [|done]. intros i x. by destruct (kind_of w m i); intros [= <-].
  - intros j (x & -> & Hx)%list_elem_of_fmap (y & E & Hy)%list_elem_of_fmap. destruct x as [j p], y as [j' p']. simpl in E. subst j'.
    apply omap_prog in Hx as [_ Hx]. apply omap_locked in Hy as [_ Hy]. congruence.
  - apply Hone; [|done]. intros i x. by destruct (kind_of w m i); intros [= <-].
Qed.

Section fork_begin.
Context (w : World A) (id : nat) (m : CopyOnWriteMemory).
Hypothesis H : cow_ok w.
Hypothesis Em : memories w !! id = Some m.
Hypothesis Efk : forks w !! id = None.
Hypothesis Halone : ∀ id' f, forks w !! id' = Some f → f_memory f ≠ id.
(** No page that is locked but not copied hides a page of the chain. *)
Hypothesis Hhidden : ∀ i, in_view m i → kind_of w m i = SNull → chain_find w (_copyChain m) (chain_key m i) = None.
Let nc := nextId w.
Let fid := S (nextId w).
Let l := all_indices m.
Let prog := omap (λ i, kind_prog i (kind_of w m i)) l.
Let locked := omap (λ i, kind_locked i (kind_of w m i)) l.
Let f := MkFork id nc prog locked.
Let m' := MkCow (_view m) (_viewOffset m) (_cowLength m) (Some nc) (owned_after w m (_ownedPages m) l).
Let fm := MkCow (_view m) (_viewOffset m) (_cowLength m) (Some nc) ∅.
Definition fork_begun : World A :=
  MkWorld (cowPages w) (<[nextId w := chain_after w m ∅ (all_indices m)]> (cowChains w))
    (<[S (nextId w) := MkCow (_view m) (_viewOffset m) (_cowLength m) (Some (nextId w)) ∅]>
      (<[id := MkCow (_view m) (_viewOffset m) (_cowLength m) (Some (nextId w)) (owned_after w m (_ownedPages m) (all_indices m))]> (memories w)))
    (frames w) (cowPfns w) (touches w)
    (<[S (nextId w) := MkFork id (nextId w) (omap (λ i, kind_prog i (kind_of w m i)) (all_indices m))
         (omap (λ i, kind_locked i (kind_of w m i)) (all_indices m))]> (forks w)) (S (S (nextId w))).
Let w' := fork_begun.

Lemma fb_run : Cow_fork_begin w id = Ret (S (nextId w), fork_begun).
Proof.
  unfold Cow_fork_begin. rewrite Em. cbn [deref mbind outcome_bind new_id]. destruct (ck_memory _ H id m Em) as (Hl & Ha & Ho & _).
  unfold Cow_new. rewrite !assert_bind by (rewrite ?Ha, ?Ho; done || lia). cbn [mbind outcome_bind]. cbv zeta.
  rewrite (scan_loop_run w); [done..|by exists id|apply all_indices_nodup|done].
Qed.

Lemma fb_fresh : cowChains w !! nc = None ∧ memories w !! fid = None ∧ id ≠ fid ∧ forks w !! fid = None ∧ memories w !! nc = None.
Proof.
  destruct (ck_ids _ H nc ltac:(unfold nc; lia)) as (_ & E1 & E0). destruct (ck_ids _ H fid ltac:(unfold fid; lia)) as (_ & _ & E2).
  split; [done|]. split; [done|]. split; [intros E; unfold fid in *; congruence|]. split; [|done].
  destruct (forks w !! fid) as [g|] eqn:E; [|done]. destruct (ck_fork _ H fid g E) as [(m1 & m2 & _ & E3 & _) _ _ _ _ _ _ _]. congruence.
Qed.
Lemma fb_keeps : keeps w w'.
Proof.
  split; [done|]. intros c ch E. unfold w'. simpl. rewrite lookup_insert_ne; [done|]. intros <-. destruct fb_fresh as [E' _]. unfold nc in E'. congruence.
Qed.
Lemma fb_mem_id : memories w' !! id = Some m'.
Proof.
  destruct fb_fresh as (_ & _ & Hne & _). unfold w'. simpl. rewrite lookup_insert_ne by (by apply not_eq_sym). by rewrite lookup_insert, decide_True.
Qed.
Lemma fb_mem_fid : memories w' !! fid = Some fm.
Proof. unfold w'. simpl. by rewrite lookup_insert, decide_True. Qed.
Lemma fb_mem_old id1 m1 : memories w !! id1 = Some m1 → id1 ≠ id → memories w' !! id1 = Some m1.
Proof.
  intros E Hne. destruct fb_fresh as (_ & E2 & _). unfold w'. simpl. rewrite !lookup_insert_ne; [done|by apply not_eq_sym|].
  intros <-. unfold fid in E2. congruence.
Qed.
Lemma fb_mem id1 m1 : memories w' !! id1 = Some m1 →
  (id1 = id ∧ m1 = m') ∨ (id1 = fid ∧ m1 = fm) ∨ (id1 ≠ id ∧ id1 ≠ fid ∧ memories w !! id1 = Some m1).
Proof.
  unfold w'. simpl. destruct (decide (id1 = fid)) as [->|Hf].
  - rewrite lookup_insert, decide_True by done. intros [= <-]. auto.
  - rewrite lookup_insert_ne by (by apply not_eq_sym). destruct (decide (id1 = id)) as [->|Hi].
    + rewrite lookup_insert, decide_True by done. intros [= <-]. auto.
    + rewrite lookup_insert_ne by (by apply not_eq_sym). auto.
Qed.
Lemma fb_owned j : _ownedPages m' !! j = if decide (in_view m j ∧ is_move (kind_of w m j) = true) then None else _ownedPages m !! j.
Proof.
  simpl. rewrite owned_after_lookup. assert (j ∈ l ↔ in_view m j) as Hl by apply all_indices_view. unfold l in *.
  destruct (is_move (kind_of w m j)); repeat case_decide; naive_solver.
Qed.
Definition moved q : Prop := ∃ j, in_view m j ∧ kind_of w m j = SMove q.
Lemma kind_owner j q : kind_of w m j = SMove q ∨ kind_of w m j = SProg q ∨ kind_of w m j = SLocked q → owner w q id j.
Proof.
  unfold kind_of. intros Hk. exists m. split; [done|]. destruct (_ownedPages m !! j) as [p|]; [|destruct (chain_find _ _ _); naive_solver].
  destruct (cowPages w !! p) as [pg|]; [|naive_solver]. destruct (cp_state pg); try naive_solver. destruct (negb _); naive_solver.
Qed.
Lemma kind_state j q : kind_of w m j = SMove q ∨ kind_of w m j = SLocked q → page_is w q hasCopy.
Proof.
  unfold kind_of. intros Hk. destruct (_ownedPages m !! j) as [p|]; [|destruct (chain_find _ _ _); naive_solver].
  destruct (cowPages w !! p) as [pg|] eqn:E; [|naive_solver]. destruct (cp_state pg) eqn:Es; try naive_solver.
  exists pg. destruct (negb _); naive_solver.
Qed.
Lemma kind_prog_state j q : kind_of w m j = SProg q → page_is w q inProgress.
Proof.
  unfold kind_of. intros Hk. destruct (_ownedPages m !! j) as [p|]; [|destruct (chain_find _ _ _); naive_solver].
  destruct (cowPages w !! p) as [pg|] eqn:E; [|naive_solver]. destruct (cp_state pg) eqn:Es; try naive_solver.
  - exists pg. naive_solver.
  - destruct (negb _); naive_solver.
Qed.
Lemma fb_owner q id1 j : owner w' q id1 j ↔ owner w q id1 j ∧ ¬ moved q.
Proof.
  split.
  - intros (m1 & E1 & Eo). destruct (fb_mem id1 m1 E1) as [[-> ->]|[[-> ->]|(Hi & Hf & E)]].
    + rewrite fb_owned in Eo. case_decide as Hd; [done|]. assert (owner w q id j) as Ho by (by exists m). split; [done|].
      intros (j' & Hj' & Hk). destruct (ck_owner _ H q id j Ho) as [_ Hu]. destruct (Hu id j') as [_ ->]; [apply kind_owner; by left|].
      destruct Hd. by rewrite Hk.
    + done.
    + assert (owner w q id1 j) as Ho by (by exists m1). split; [done|]. intros (j' & Hj' & Hk).
      destruct (ck_owner _ H q id1 j Ho) as [_ Hu]. destruct (Hu id j') as [? _]; [apply kind_owner; by left|]. done.
  - intros [(m1 & E1 & Eo) Hm]. destruct (decide (id1 = id)) as [->|Hne]; [|exists m1; split; [by apply fb_mem_old|done]].
    rewrite Em in E1. injection E1 as <-. exists m'. split; [apply fb_mem_id|]. rewrite fb_owned, decide_False; [done|].
    intros [Hv Hk]. apply Hm. exists j. split; [done|]. destruct (kind_of w m j) eqn:Ek; try done.
    destruct (kind_owner j p) as (m1 & E1 & E2); [by left|]. rewrite Em in E1. injection E1 as <-. congruence.
Qed.
Lemma fb_chain_entry k q : chain_after w m ∅ l !! k = Some q → page_is w q hasCopy ∧ ∀ id1 j, ¬ owner w' q id1 j.
Proof.
  intros E. destruct (chain_after_inv w m l ∅ k q E) as [?|(j & Hj & Hk)]; [done|]. apply all_indices_view in Hj.
  destruct (kind_of w m j) eqn:Ek; try done; injection Hk as <-.
  - unfold kind_of in Ek. destruct (_ownedPages m !! j) as [p0|] eqn:Eo.
    { destruct (cowPages w !! p0) as [pg|]; [|done]. destruct (cp_state pg); try done. by destruct (negb _). }
    destruct (chain_find w (_copyChain m) (chain_key m j)) as [p1|] eqn:Ef; [|done]. injection Ek as ->.
    unfold chain_find in Ef. destruct (_copyChain m) as [c|]; [|done]. cbn in Ef. destruct (cowChains w !! c) as [ch|] eqn:Ec; [|done]. cbn in Ef.
    destruct (ck_chain _ H c ch _ p Ec Ef) as [Hp Hno]. split; [done|]. intros id1 j1 [Ho _]%fb_owner. by apply (Hno id1 j1).
  - split; [apply (kind_state j); by left|]. intros id1 j1 [_ Hm]%fb_owner. apply Hm. by exists j.
Qed.
Lemma fb_key j k : in_view m j → in_view m k → chain_key m j = chain_key m k → j = k.
Proof. destruct (ck_memory _ H id m Em) as (? & ? & ? & _). intros. apply (chain_key_inj m); try done. lia. Qed.
Lemma fb_source j : in_view m j → source w' (Some nc) m j =
  match kind_chain (kind_of w m j) with Some p => frame_contents w p | None => rootPage (_view m) (Z.shiftl (chain_key m j) kPageShift) end.
Proof.
  intros Hj. unfold source, chain_find. cbn. unfold w'. simpl. rewrite lookup_insert, decide_True by done. cbn.
  rewrite chain_after_lookup; [by destruct (kind_chain _)|..|done].
  - intros i k Hi Hk. apply fb_key; by apply all_indices_view.
  - apply all_indices_nodup.
  - by apply all_indices_view.
Qed.
Lemma fb_pendings j : j ∈ pendings f ↔ in_view m j ∧ ∃ p, kind_of w m j = SProg p ∨ kind_of w m j = SLocked p.
Proof.
  unfold pendings, f. simpl. rewrite elem_of_app, !list_elem_of_fmap. split.
  - intros [([j' p] & -> & [Hj Hk]%omap_prog)|([j' p] & -> & [Hj Hk]%omap_locked)]; (split; [by apply all_indices_view|]); exists p; auto.
  - intros [Hj%all_indices_view (p & [Hk|Hk])]; [left|right]; exists (j, p); (split; [done|]); [by apply omap_prog|by apply omap_locked].
Qed.
Lemma fb_forks id1 g : forks w' !! id1 = Some g → (id1 = fid ∧ g = f) ∨ (id1 ≠ fid ∧ forks w !! id1 = Some g).
Proof.
  unfold w'. simpl. destruct (decide (id1 = fid)) as [->|Hne].
  - rewrite lookup_insert, decide_True by done. intros [= <-]. by left.
  - rewrite lookup_insert_ne by (by apply not_eq_sym). by right.
Qed.
Lemma fb_forks_none id1 : memories w !! id1 ≠ None → forks w !! id1 = None → forks w' !! id1 = None.
Proof.
  intros Hm E. destruct fb_fresh as (_ & E2 & _). unfold w'. simpl. rewrite lookup_insert_ne; [done|]. intros <-. by apply Hm, E2.
Qed.
Lemma fb_has_chain chain : has_chain w chain → has_chain w' chain ∧ chain ≠ Some nc.
Proof.
  intros Hh. split.
  - intros c Ec. destruct (Hh c Ec) as [ch Ech]. exists ch. by apply (kp_chains _ _ fb_keeps).
  - intros ->. destruct (Hh nc eq_refl) as [ch Ech]. destruct fb_fresh as [E _]. congruence.
Qed.
Lemma fb_shape : same_shape m m' ∧ same_shape m fm.
Proof. done. Qed.
Lemma fb_not_moved q t : touches w !! q = Some t → ¬ moved q.
Proof.
  intros Et (j & _ & Hk). by pose proof (not_both _ _ _ _ (kind_state j q (or_introl Hk)) (touch_inProgress w q t H Et)).
Qed.

Lemma fb_fork_new : fork_ok w' fid f.
Proof.
  destruct fb_fresh as (Ec & Ef & Hne & Eff & _). split; simpl.
  - exists m', fm. split; [apply fb_mem_id|]. split; [apply fb_mem_fid|]. split; [done|]. split; [done|]. split; [done|].
    intros i Hi. apply fb_pendings in Hi as [Hi _]. by split.
  - apply fb_forks_none; [congruence|done].
  - intros i p [Hi Hk]%omap_prog. split; [|left; by apply (kind_prog_state i)]. apply fb_owner. split; [apply kind_owner; auto|].
    intros (j & _ & Hk'). pose proof (kind_state j p (or_introl Hk')) as H1. by pose proof (not_both _ _ _ _ H1 (kind_prog_state i p Hk)).
  - intros i p [Hi Hk]%omap_locked. split; [|apply (kind_state i); by right]. apply fb_owner. split; [apply kind_owner; auto|].
    intros (j & Hj & Hk'). pose proof (kind_owner j p (or_introl Hk')) as Ho. destruct (ck_owner _ H p id j Ho) as [_ Hu].
    destruct (Hu id i) as [_ ->]; [apply kind_owner; auto|]. congruence.
  - apply omap_nodup, all_indices_nodup.
  - intros id1 g Eg Em1. destruct (fb_forks id1 g Eg) as [[-> _]|[_ E]]; [done|]. by destruct (Halone id1 g).
  - intros id1 m1 E1 Ec1. destruct (fb_mem id1 m1 E1) as [[-> _]|[[-> _]|(_ & _ & E)]]; [by left|by right|].
    destruct (ck_memory _ H id1 m1 E) as (_ & _ & _ & Hh). by destruct (fb_has_chain _ Hh).
  - intros q t Et Ect. destruct (fb_has_chain _ (tk_chain _ _ _ (ck_touch _ H q t Et))). done.
Qed.

Lemma fb_fork_old id1 g : id1 ≠ fid → forks w !! id1 = Some g → fork_ok w' id1 g.
Proof.
  intros Hne Eg. destruct (ck_fork _ H id1 g Eg) as [K1 K2 K3 K4 K5 K6 K7 K8]. pose proof (Halone id1 g Eg) as Hgm.
  assert (id1 ≠ id) as Hid by (intros ->; congruence). destruct K1 as (m1 & m2 & E1 & E2 & Hsh & C1 & C2 & Hv).
  assert (∀ q j, owner w q (f_memory g) j → owner w' q (f_memory g) j) as Hown.
  { intros q j Ho. apply fb_owner. split; [done|]. intros (j' & _ & Hk). destruct (ck_owner _ H q _ _ Ho) as [_ Hu].
    destruct (Hu id j') as [? _]; [apply kind_owner; auto|]. done. }
  split; try done.
  - exists m1, m2. split; [by apply fb_mem_old|]. split; [by apply fb_mem_old|]. done.
  - apply fb_forks_none; [congruence|done].
  - intros j q Hq. destruct (K3 j q Hq) as [? ?]. split; [by apply Hown|done].
  - intros j q Hq. destruct (K4 j q Hq) as [? ?]. split; [by apply Hown|done].
  - intros id2 g2 E Em2. destruct (fb_forks id2 g2 E) as [[-> ->]|[_ E']]; [|by apply (K6 id2 g2)]. by destruct Hgm.
  - intros id2 m3 E3 Ec3. destruct (fb_mem id2 m3 E3) as [[-> ->]|[[-> ->]|(_ & _ & E)]]; [..|by apply (K7 id2 m3)].
    + injection Ec3 as Ec3. destruct (ck_memory _ H _ m1 E1) as (_ & _ & _ & Hh). destruct (fb_has_chain _ Hh) as [_ Hx].
      rewrite C1, <-Ec3 in Hx. done.
    + injection Ec3 as Ec3. destruct (ck_memory _ H _ m1 E1) as (_ & _ & _ & Hh). destruct (fb_has_chain _ Hh) as [_ Hx].
      rewrite C1, <-Ec3 in Hx. done.
Qed.

Lemma fb_cow_ok : cow_ok w'.
Proof.
  pose proof H as [H1 H2 H3 H4 H5 H6 H7 H8 H9 H10]. split; try done.
  - intros n Hn. simpl in Hn. destruct (H1 n ltac:(lia)) as (? & E2 & E3). split; [done|]. unfold w'. simpl.
    split; [rewrite lookup_insert_ne by lia; done|]. rewrite lookup_insert_ne by lia. rewrite lookup_insert_ne; [done|]. intros <-. congruence.
  - intros q id1 j [Ho Hm]%fb_owner. destruct (H5 q id1 j Ho) as [? Hu]. split; [done|]. intros id2 j2 [Ho2 _]%fb_owner. by apply Hu.
  - intros c ch k q E1 E2. unfold w' in E1. simpl in E1. destruct (decide (c = nc)) as [->|Hc].
    + rewrite lookup_insert, decide_True in E1 by done. injection E1 as <-. by apply (fb_chain_entry k).
    + rewrite lookup_insert_ne in E1 by (by apply not_eq_sym). destruct (H6 _ _ _ _ E1 E2) as [? Hno]. split; [done|].
      intros id1 j [Ho _]%fb_owner. by apply (Hno id1 j).
  - destruct (H7 id m Em) as (? & ? & ? & _). assert (has_chain w' (Some nc)) as Hnc.
    { intros c [= <-]. unfold w'. simpl. by rewrite lookup_insert, decide_True by done. }
    intros id1 m1 E1. destruct (fb_mem id1 m1 E1) as [[-> ->]|[[-> ->]|(_ & _ & E)]]; [done|done|].
    destruct (H7 id1 m1 E) as (? & ? & ? & Hh). split; [done|]. split; [done|]. split; [done|]. by apply fb_has_chain.
  - intros q t Et. change (touches w') with (touches w) in Et. destruct (H8 q t Et) as [T1 T2 T3 T4 T5].
    assert (∃ m0, memories w !! t_memory t = Some m0) as [m0 E0] by (destruct T1 as (m0 & E0 & _); by exists m0).
    assert (∃ m1, memories w' !! t_memory t = Some m1 ∧ same_shape m0 m1) as (m1 & E1 & Hsh).
    { destruct (decide (t_memory t = id)) as [Eid|Hne]; [|exists m0; split; [by apply fb_mem_old|done]].
      rewrite Eid in *. rewrite Em in E0. injection E0 as <-. exists m'. split; [apply fb_mem_id|apply fb_shape]. }
    split.
    + apply fb_owner. split; [done|by apply (fb_not_moved q t)].
    + intros m2 E2. rewrite E1 in E2. injection E2 as <-. rewrite (same_view m0) by done. by apply T2.
    + apply fb_forks_none; [congruence|done].
    + by apply fb_has_chain.
    + intros x Ex. destruct (T5 x Ex) as (? & ? & Hsrc & Hno & Hu). split; [done|]. split; [done|]. split; [|done].
      intros m2 E2. rewrite E1 in E2. injection E2 as <-. rewrite (source_shape w' _ m0 m1) by done.
      rewrite (source_keeps w w') by (done || apply fb_keeps). by apply Hsrc.
  - intros id1 g Eg. destruct (fb_forks id1 g Eg) as [[-> ->]|[? ?]]; [apply fb_fork_new|by apply fb_fork_old].
Qed.

Lemma fb_source' j : in_view m j → source w' (_copyChain m') m' j =
  match kind_chain (kind_of w m j) with Some p => frame_contents w p | None => rootPage (_view m) (Z.shiftl (chain_key m j) kPageShift) end.
Proof. intros Hj. rewrite (source_shape w' _ m m') by apply fb_shape. by apply fb_source. Qed.
Lemma fb_denote_id j : in_view m j → denote w' id j = denote w id j.
Proof.
  intros Hj. unfold denote. rewrite fb_mem_id, Em. cbn [mbind option_bind]. unfold denote_memory. rewrite fb_owned.
  destruct (_ownedPages m !! j) as [p|] eqn:Eo.
  - destruct (ck_owner _ H p id j) as [[pg Epg] _]; [by exists m|]. destruct (cp_state pg) eqn:Es.
    + assert (kind_of w m j = SNull) as Hk by (unfold kind_of; by rewrite Eo, Epg, Es). rewrite Hk, decide_False by (by intros [_ ?]).
      rewrite (owned_null w' m' j p pg), (owned_null w m j p pg), fb_source', Hk by done. unfold source. by rewrite (Hhidden j Hj Hk).
    + assert (kind_of w m j = SProg p) as Hk by (unfold kind_of; by rewrite Eo, Epg, Es). rewrite Hk, decide_False by (by intros [_ ?]).
      assert (is_Some (touches w !! p)) as [t Et] by (apply (ck_progress _ H); by exists pg).
      rewrite (owned_progress w' m' j p pg t), (owned_progress w m j p pg t), (source_shape w' _ m m') by (done || apply fb_shape).
      apply source_keeps; [done|apply fb_keeps|]. apply (ck_touch _ H p t Et).
    + rewrite (owned_copy w m j p pg) by done. case_decide as Hd; [|by rewrite (owned_copy w' m' j p pg)].
      assert (kind_of w m j = SMove p) as Hk.
      { unfold kind_of in *. rewrite Eo, Epg, Es in *. destruct (negb _); [by destruct Hd|done]. }
      rewrite fb_source', Hk by done. cbn. unfold frame_contents. by rewrite Epg.
  - rewrite fb_source' by done. unfold kind_of, source. rewrite Eo. case_decide; [by destruct (chain_find w _ _)|]. by destruct (chain_find w _ _).
Qed.

(** The fork reads what the original reads, and so does everybody else. *)
Lemma fork_begun_ok : cow_ok w' ∧ quiet_step w w' ∧ ∀ j, in_view m j → contents w' fid j = contents w id j.
Proof.
  assert (∀ id1 m1 j, memories w !! id1 = Some m1 → in_view m1 j → denote w' id1 j = denote w id1 j) as Hd.
  { intros id1 m1 j E1 Hj. destruct (decide (id1 = id)) as [->|Hne].
    - rewrite Em in E1. injection E1 as <-. by apply fb_denote_id.
    - apply (denote_keeps w w' id1 m1 m1); try done; [apply fb_keeps|by apply fb_mem_old|].
      intros q Eq. destruct (ck_owner _ H q id1 j) as [[pg Epg] _]; [by exists m1|]. split; [by exists pg, pg|done]. }
  split; [apply fb_cow_ok|]. split.
  - intros id1 m1 j E1 Hj. unfold contents. destruct (forks w' !! id1) as [g|] eqn:Eg.
    + destruct (fb_forks id1 g Eg) as [[-> ->]|[Hne Eg']]; [destruct fb_fresh as (_ & E & _); unfold fid in *; congruence|]. rewrite Eg'.
      case_decide as Hp; [|by apply (Hd _ m1)]. destruct (ck_fork _ H id1 g Eg') as [(m2 & m3 & E2 & _ & _ & _ & _ & Hv) _ _ _ _ _ _ _].
      apply (Hd _ m2); [done|by apply Hv].
    + assert (forks w !! id1 = None) as ->.
      { destruct (forks w !! id1) as [g|] eqn:E; [|done]. unfold w' in Eg. simpl in Eg. rewrite lookup_insert_ne in Eg; [congruence|].
        intros <-. destruct fb_fresh as (_ & _ & _ & E' & _). unfold fid in E'. congruence. }
      by apply (Hd _ m1).
  - intros j Hj. unfold contents. rewrite Efk. unfold w' at 1. simpl. rewrite lookup_insert, decide_True by done. cbn [f_memory].
    change (MkFork id (nextId w) _ _) with f. case_decide as Hp; [by apply (Hd _ m)|].
    rewrite <-(Hd id m j Em Hj). unfold denote. rewrite fb_mem_fid, fb_mem_id. cbn. unfold denote_memory. rewrite fb_owned. cbn [fm _ownedPages].
    rewrite lookup_empty, (source_shape w' _ m m'), (source_shape w' _ m fm) by apply fb_shape. change (_copyChain m') with (Some nc).
    change (_copyChain fm) with (Some nc). case_decide as Hm; [done|]. destruct (_ownedPages m !! j) as [p|] eqn:Eo; [|done].
    destruct (ck_owner _ H p id j) as [[pg Epg] _]; [by exists m|]. unfold owned_contents. change (cowPages w') with (cowPages w). rewrite Epg. cbn.
    assert (cp_state pg = cow_null) as ->.
    { destruct (cp_state pg) eqn:Es; [done|exfalso..]; [apply Hp, fb_pendings; split; [done|]; exists p; left; unfold kind_of; by rewrite Eo, Epg, Es|].
      destruct (negb (cp_lockCount pg =? 0)) eqn:El.
      - apply Hp, fb_pendings. split; [done|]. exists p. right. unfold kind_of. by rewrite Eo, Epg, Es, El.
      - apply Hm. split; [done|]. unfold kind_of. by rewrite Eo, Epg, Es, El. }
    by rewrite (source_shape w' _ m m') by apply fb_shape.
Qed.
End fork_begin.
End cow.
