(* ===== verification/CowSystem.v ===== *)
(** * Copy-on-write memory as a system

    The critical sections of CowMemory.v as events that interleave in any order, and the
    theorems: no assertion fails, every view reads what was last written to it, and a
    fork reads what the original read. *)
From Stdlib Require Import ZArith Lia ZifyBool.
From stdpp Require Import base list numbers option gmap fin_maps.
From S2P Require Import Prelude PageConsts ManagedSpace ManagedOps CowMemory CowProofs.
Open Scope Z_scope.

Inductive cow_event (A : Type) :=
| CevCreate (view offset length : Z)
| CevLock (id : nat) (offset size : Z) | CevUnlock (id : nat) (offset size : Z)
| CevTouch (id : nat) (offset flags : Z) | CevCopy (p : nat) (frame : Z) | CevFinish (p : nat)
| CevFork (id : nat) | CevSettle (id : nat) | CevForkCopy (id : nat) (frame : Z) | CevReturn (id : nat)
| CevWrite (id : nat) (offset : Z) (x : A)
| CevDropMemory (id : nat) | CevDropChain (c : nat) | CevDropPage (p : nat).
Arguments CevCreate {A}. Arguments CevLock {A}. Arguments CevUnlock {A}. Arguments CevTouch {A}. Arguments CevCopy {A}.
Arguments CevFinish {A}. Arguments CevFork {A}. Arguments CevSettle {A}. Arguments CevForkCopy {A}. Arguments CevReturn {A}.
Arguments CevWrite {A}. Arguments CevDropMemory {A}. Arguments CevDropChain {A}. Arguments CevDropPage {A}.

Section cow.
Context {A : Type} (rootPeek : Z → Z → Z → PhysicalRange) (rootPage : Z → Z → option A).
Implicit Types (w : World A) (m : CopyOnWriteMemory) (p id c : nat) (i k : Z) (f : Fork) (t : Touch).

(** A write replaces the contents of the page that [peekRange] returns as mutable. *)
Definition cow_write w id (offset : Z) (x : A) : outcome (World A) :=
  range ← Cow_peekRange rootPeek w id offset fetchRequireMutable;
  if pr_isMutable range then Ret (set_frames w (<[pr_physical range := x]> (frames w))) else Ret w.

Definition cow_exec w (e : cow_event A) : outcome (World A) :=
  match e with
  | CevCreate view offset length => '(_, w) ← Cow_create w view offset length; Ret w
  | CevLock id offset size => Cow_lockRange w id offset size
  | CevUnlock id offset size => Cow_unlockRange w id offset size
  | CevTouch id offset flags => '(_, w) ← Cow_touch_begin w id offset flags; Ret w
  | CevCopy p frame => '(_, w) ← Cow_touch_copy rootPage w p frame; Ret w
  | CevFinish p => Cow_touch_finish w p
  | CevFork id => '(_, w) ← Cow_fork_begin w id; Ret w
  | CevSettle id => Cow_fork_settle w id
  | CevForkCopy id frame => Cow_fork_copy w id frame
  | CevReturn id => Ret (Cow_fork_return w id)
  | CevWrite id offset x => cow_write w id offset x
  | CevDropMemory id => Ret (Cow_destruct w id)
  | CevDropChain c => Ret (CowChain_destruct w c)
  | CevDropPage p => CowPage_destruct w p
  end.

Definition published w id : Prop := is_Some (memories w !! id) ∧ forks w !! id = None.
Definition free_frame w (frame : Z) : Prop := 0 ≤ frame < noFrame ∧ frames w !! frame = None.
Definition lock_of w id i (P : Z → Prop) : Prop :=
  ∀ m p page, memories w !! id = Some m → _ownedPages m !! i = Some p → cowPages w !! p = Some page → P (cp_lockCount page).

(** What the callers owe: a view is used after its fork has returned; lock counts do not
    overflow and locks are taken before they are released; the physical allocator hands
    out unused frames; the root view can be read; objects are destroyed when nothing refers
    to them.  Two conditions of [CevFork] are not kept by the callers, and the code loses
    writes without them (see [settle_drops_copy] and [fork_forgets_chain] below): a view is
    forked by one caller at a time, and no locked page without a copy hides a page of its
    chain.  The contents of the root view, [rootPage], stay the same throughout. *)
Definition cow_enabled w (e : cow_event A) : Prop :=
  match e with
  | CevCreate view offset length => 0 < length < 2 ^ 64 ∧ misaligned length = false ∧ misaligned offset = false
  | CevLock id offset size =>
      published w id ∧ is_word offset ∧ is_word size ∧
      ∀ i, i ∈ cow_indices offset size → lock_of w id i (λ n, n + 1 < 2 ^ 32)
  | CevUnlock id offset size =>
      published w id ∧ is_word offset ∧ is_word size ∧
      ∀ i, i ∈ cow_indices offset size → lock_of w id i (λ n, 0 < n) ∧ ∃ p, owner w p id i
  | CevTouch id offset flags => published w id ∧ is_word offset
  | CevCopy p frame =>
      free_frame w frame ∧ ∃ t m, touches w !! p = Some t ∧ t_frame t = None ∧ memories w !! t_memory t = Some m ∧
        (chain_find w (t_chain t) (chain_key m (t_index t)) = None →
         rootPage (_view m) (Z.shiftl (chain_key m (t_index t)) kPageShift) ≠ None)
  | CevFinish p => ∃ t, touches w !! p = Some t ∧ t_frame t ≠ None
  | CevFork id =>
      published w id ∧ (∀ id' f, forks w !! id' = Some f → f_memory f ≠ id) ∧
      ∀ m i, memories w !! id = Some m → in_view m i → kind_of w m i = SNull →
        chain_find w (_copyChain m) (chain_key m i) = None
  | CevSettle id => is_Some (forks w !! id)
  | CevForkCopy id frame => free_frame w frame ∧ ∃ f, forks w !! id = Some f ∧ f_inProgress f = []
  | CevReturn id => ∃ f, forks w !! id = Some f ∧ pendings f = []
  | CevWrite id offset _ => published w id ∧ is_word offset ∧ misaligned offset = false
  | CevDropMemory id =>
      published w id ∧ (∀ id' f, forks w !! id' = Some f → f_memory f ≠ id) ∧ (∀ p t, touches w !! p = Some t → t_memory t ≠ id)
  | CevDropChain c =>
      (∀ id m, memories w !! id = Some m → _copyChain m ≠ Some c) ∧ (∀ p t, touches w !! p = Some t → t_chain t ≠ Some c)
  | CevDropPage p =>
      is_Some (cowPages w !! p) ∧ (∀ id i, ¬ owner w p id i) ∧ (∀ c ch k, cowChains w !! c = Some ch → ch !! k ≠ Some p)
  end.

(** Page [i] of a view can be written. *)
Definition writable w id i : bool :=
  match memories w !! id with
  | Some m =>
      (i * kPageSize <? _cowLength m) &&
      match _ownedPages m !! i with
      | Some p => match cowPages w !! p with Some page => is_cow hasCopy page | None => false end
      | None => false
      end
  | None => false
  end.

(** What page [i] of view [id] holds after an event. *)
Definition cow_expected w (e : cow_event A) id i : option A :=
  match e with
  | CevWrite id0 offset x =>
      let j := Z.shiftr offset kPageShift in
      if writable w id0 j && bool_decide (i = j) && sees w id id0 i then Some x else contents rootPage w id i
  | _ => contents rootPage w id i
  end.
Definition cow_effect w (e : cow_event A) w' : Prop :=
  (∀ id m i, memories w !! id = Some m → is_Some (memories w' !! id) → in_view m i →
     contents rootPage w' id i = cow_expected w e id i) ∧
  match e with
  | CevFork id => ∀ m i, memories w !! id = Some m → in_view m i →
      contents rootPage w' (S (nextId w)) i = contents rootPage w id i
  | CevCreate view offset length => ∀ i, 0 ≤ i < length / kPageSize →
      contents rootPage w' (nextId w) i =
        rootPage view (Z.shiftl (Z.shiftr (u64 (offset + i * kPageSize)) kPageShift) kPageShift)
  | _ => True
  end.
Definition cow_result w (e : cow_event A) : Prop :=
  ∃ w', cow_exec w e = Ret w' ∧ cow_ok rootPage w' ∧ cow_effect w e w'.

Definition plain (e : cow_event A) : bool :=
  match e with CevWrite _ _ _ | CevFork _ | CevCreate _ _ _ => false | _ => true end.
Lemma plain_result w w' e : plain e = true → cow_exec w e = Ret w' → cow_ok rootPage w' → quiet_step rootPage w w' → cow_result w e.
Proof.
  intros Hp E H Hq. exists w'. split; [done|]. split; [done|]. split; [|by destruct e]. intros id m i Em _ Hi.
  rewrite (Hq id m i Em Hi). by destruct e.
Qed.

Definition shapes w w' : Prop := ∀ id m, memories w !! id = Some m → ∃ m', memories w' !! id = Some m' ∧ same_shape m m'.
Lemma shapes_refl w : shapes w w.
Proof. intros id m E. by exists m. Qed.
Lemma shapes_trans w1 w2 w3 : shapes w1 w2 → shapes w2 w3 → shapes w1 w3.
Proof.
  intros H1 H2 id m E. destruct (H1 id m E) as (m2 & E2 & S2). destruct (H2 id m2 E2) as (m3 & E3 & S3). exists m3. split; [done|].
  unfold same_shape in *. intuition congruence.
Qed.
Lemma quiet_shapes w1 w2 w3 : quiet_step rootPage w1 w2 → quiet_step rootPage w2 w3 → shapes w1 w2 → quiet_step rootPage w1 w3.
Proof.
  intros H1 H2 Hs. eapply quiet_trans; [done..|]. intros id m i Em Hi. destruct (Hs id m Em) as (m' & E' & Hsh). exists m'.
  split; [done|]. by apply (same_view m m').
Qed.

(** ** Locks *)
Lemma cow_indices_pages offset size : cow_indices offset size = page_indices offset size.
Proof. unfold cow_indices, page_indices. apply list_fmap_ext. intros k pg _. by rewrite shiftr_pow2. Qed.
Lemma cow_indices_nodup offset size : is_word offset → is_word size → NoDup (cow_indices offset size).
Proof. intros [Ho _] Hs. rewrite cow_indices_pages. by apply page_indices_NoDup. Qed.

(** The step changes no other page's lock than that of page [i] of view [id]. *)
Record lock_step w w' id i : Prop := {
  ls_ok : cow_ok rootPage w';
  ls_quiet : quiet_step rootPage w w';
  ls_shapes : shapes w w';
  ls_forks : forks w' = forks w;
  ls_locks j P : j ≠ i → lock_of w id j P → lock_of w' id j P;
  ls_owners p id' j : owner w p id' j → owner w' p id' j;
}.
Lemma relock_step w id i m p page n : cow_ok rootPage w → memories w !! id = Some m → _ownedPages m !! i = Some p →
  cowPages w !! p = Some page → 0 ≤ n < 2 ^ 32 → lock_step w (set_cow_page w p (set_cow_lock page n)) id i.
Proof.
  intros H Em Eo Ep Hn. destruct (relock_ok rootPage w p page n H Ep Hn) as [H' Hq]. split; try done; [by intros id' m' E; exists m'|].
  intros j P Hj Hl m1 q pg Em1 Eq Epg. cbn in Em1, Epg. rewrite Em in Em1. injection Em1 as <-.
  rewrite lookup_insert_ne in Epg.
  - by apply (Hl m q pg).
  - intros ->. apply Hj. destruct (ck_owner _ _ H q id i) as [_ Hu]; [by exists m|]. apply (Hu id j). by exists m.
Qed.
Lemma add_shapes w id m i page : memories w !! id = Some m → shapes w (add_page w id m i page).
Proof.
  intros Em id' m' Em'. unfold add_page. cbn. rewrite lookup_insert. case_decide as Hd; [|by exists m'].
  subst id'. rewrite Em in Em'. injection Em' as <-. eexists. split; [done|]. apply set_owned_shape.
Qed.
Lemma add_step w id i m page : cow_ok rootPage w → memories w !! id = Some m → _ownedPages m !! i = None → forks w !! id = None →
  cp_state page = cow_null → 0 ≤ cp_lockCount page < 2 ^ 32 → lock_step w (add_page w id m i page) id i.
Proof.
  intros H Em Eo Ef Hs Hl. destruct (add_page_ok rootPage w id m i page) as [H' Hq]; [done..|].
  split; try done; [by apply add_shapes| |].
  - intros j P Hj HP m1 q pg Em1 Eq Epg. cbn in Em1, Epg. rewrite lookup_insert, decide_True in Em1 by done. injection Em1 as <-.
    cbn in Eq. rewrite lookup_insert_ne in Eq by congruence.
    assert (q ≠ nextId w) by (apply (owner_fresh rootPage w id j); [done|by exists m]).
    rewrite lookup_insert_ne in Epg by congruence. by apply (HP m q pg).
  - intros q id' j Hq'. apply add_owner; [done..|]. by left.
Qed.
Lemma cow_lock_step w id i : cow_ok rootPage w → published w id → lock_of w id i (λ n, n + 1 < 2 ^ 32) →
  ∃ w', cow_lock w id i = Ret w' ∧ lock_step w w' id i.
Proof.
  intros H [[m Em] Ef] Hl. unfold cow_lock. rewrite Em. cbn [deref mbind outcome_bind].
  destruct (_ownedPages m !! i) as [p|] eqn:Eo.
  - destruct (ck_owner _ _ H p id i) as [[page Ep] _]; [by exists m|]. rewrite Ep. cbn [deref mbind outcome_bind].
    eexists. split; [done|]. pose proof (Hl m p page Em Eo Ep) as Hn. destruct (ck_page _ _ H p page Ep) as [Hr _].
    cbv beta in Hn. rewrite u32_small by lia. apply (relock_step w id i m p page); [done..|lia].
  - eexists. split; [done|]. by apply add_step.
Qed.
Lemma cow_unlock_step w id i : cow_ok rootPage w → published w id → lock_of w id i (λ n, 0 < n) → (∃ p, owner w p id i) →
  ∃ w', cow_unlock w id i = Ret w' ∧ lock_step w w' id i.
Proof.
  intros H [_ Ef] Hl [p (m & Em & Eo)]. unfold cow_unlock. rewrite Em. cbn [deref mbind outcome_bind]. rewrite Eo. cbn [deref mbind outcome_bind].
  destruct (ck_owner _ _ H p id i) as [[page Ep] _]; [by exists m|]. rewrite Ep. cbn [deref mbind outcome_bind].
  pose proof (Hl m p page Em Eo Ep) as Hn. destruct (ck_page _ _ H p page Ep) as [Hr _]. cbv beta in Hn.
  rewrite assert_bind by lia. eexists. split; [done|]. rewrite u32_small by lia. apply (relock_step w id i m p page); [done..|lia].
Qed.
Lemma lock_step_published w w' id i : lock_step w w' id i → published w id → published w' id.
Proof.
  intros L [[m Em] Ef]. split; [|by rewrite (ls_forks _ _ _ _ L)]. destruct (ls_shapes _ _ _ _ L id m Em) as (m' & -> & _). done.
Qed.
Lemma cow_lock_loop_ok id l : ∀ w, cow_ok rootPage w → published w id → NoDup l →
  (∀ i, i ∈ l → lock_of w id i (λ n, n + 1 < 2 ^ 32)) →
  ∃ w', cow_lock_loop w id l = Ret w' ∧ cow_ok rootPage w' ∧ quiet_step rootPage w w' ∧ shapes w w'.
Proof.
  induction l as [|i l IH]; intros w H Hp Hn Hl; cbn.
  { exists w. split; [done|]. split; [done|]. split; [done|apply shapes_refl]. }
  apply list.NoDup_cons in Hn as [Hi Hn]. destruct (cow_lock_step w id i) as (w1 & -> & L); [done..|apply Hl; left|].
  cbn [mbind outcome_bind]. destruct (IH w1) as (w2 & -> & H2 & Hq2 & Hs2); [apply L|by apply (lock_step_published w w1 id i)|done| |].
  { intros j Hj. apply (ls_locks _ _ _ _ L); [congruence|]. apply Hl. by right. }
  exists w2. split; [done|]. split; [done|].
  split; [apply (quiet_shapes w w1); [apply L|done|apply L]|apply (shapes_trans w w1); [apply L|done]].
Qed.
Lemma cow_unlock_loop_ok id l : ∀ w, cow_ok rootPage w → published w id → NoDup l →
  (∀ i, i ∈ l → lock_of w id i (λ n, 0 < n) ∧ ∃ p, owner w p id i) →
  ∃ w', cow_unlock_loop w id l = Ret w' ∧ cow_ok rootPage w' ∧ quiet_step rootPage w w' ∧ shapes w w'.
Proof.
  induction l as [|i l IH]; intros w H Hp Hn Hl; cbn.
  { exists w. split; [done|]. split; [done|]. split; [done|apply shapes_refl]. }
  apply list.NoDup_cons in Hn as [Hi Hn]. destruct (cow_unlock_step w id i) as (w1 & -> & L); [done..|apply Hl; left|apply Hl; left|].
  cbn [mbind outcome_bind]. destruct (IH w1) as (w2 & -> & H2 & Hq2 & Hs2); [apply L|by apply (lock_step_published w w1 id i)|done| |].
  { intros j Hj. destruct (Hl j) as [Hlj [q Hq]]; [by right|]. split; [apply (ls_locks _ _ _ _ L); [congruence|done]|].
    exists q. by apply (ls_owners _ _ _ _ L). }
  exists w2. split; [done|]. split; [done|].
  split; [apply (quiet_shapes w w1); [apply L|done|apply L]|apply (shapes_trans w w1); [apply L|done]].
Qed.
Lemma cow_lock_result w id offset size : cow_ok rootPage w → cow_enabled w (CevLock id offset size) → cow_result w (CevLock id offset size).
Proof.
  intros H (Hp & Ho & Hs & Hl). destruct (cow_lock_loop_ok id (cow_indices offset size) w) as (w' & E & H' & Hq & _);
    [done..|by apply cow_indices_nodup|done|]. by apply (plain_result w w').
Qed.
Lemma cow_unlock_result w id offset size : cow_ok rootPage w → cow_enabled w (CevUnlock id offset size) → cow_result w (CevUnlock id offset size).
Proof.
  intros H (Hp & Ho & Hs & Hl). destruct (cow_unlock_loop_ok id (cow_indices offset size) w) as (w' & E & H' & Hq & _);
    [done..|by apply cow_indices_nodup|done|]. by apply (plain_result w w').
Qed.

(** ** The other events *)
Lemma view_index m offset : misaligned (_cowLength m) = false → 0 ≤ offset < _cowLength m → in_view m (Z.shiftr offset kPageShift).
Proof.
  intros Ha Ho. unfold misaligned in Ha. apply negb_false_iff, Z.eqb_eq in Ha. change (kPageSize - 1) with (Z.ones 12) in Ha.
  rewrite Z.land_ones in Ha by lia. change (2 ^ 12) with 4096 in Ha.
  rewrite shiftr_pow2 by done. change (2 ^ kPageShift) with 4096. unfold in_view, kPageSize. split; [apply Z.div_pos; lia|].
  pose proof (Z.div_mod (_cowLength m) 4096 ltac:(lia)). apply Z.div_lt_upper_bound; lia.
Qed.
Lemma cow_create_result w view offset length : cow_ok rootPage w → cow_enabled w (CevCreate view offset length) →
  cow_result w (CevCreate view offset length).
Proof.
  intros H (Hl & Ha & Ho). destruct (create_ok rootPage w view offset length (MkCow view offset length None ∅)) as (H' & Hq & Ef); [done..|].
  eexists. split; [|split; [apply H'|split]].
  - cbn. unfold Cow_create, Cow_new. rewrite Ha, Ho. rewrite assert_bind by lia. done.
  - intros id m i Em _ Hi. rewrite (Hq id m i Em Hi). done.
  - intros i Hi. unfold contents, denote. cbn. rewrite Ef, lookup_insert, decide_True by done. done.
Qed.

Lemma touch_fresh w id m i : memories w !! id = Some m →
  set_touches (set_memory (set_cow_page (new_id w).2 (nextId w) (set_cow_state new_cow_page inProgress)) id
      (set_owned m (<[i := nextId w]> (_ownedPages m)))) (<[nextId w := MkTouch id i (_copyChain m) None]> (touches w)) =
  start_touch (add_page w id m i new_cow_page) id (set_owned m (<[i := nextId w]> (_ownedPages m))) i (nextId w) new_cow_page.
Proof.
  intros Em. unfold start_touch, add_page, set_touches, set_memory, set_cow_page, set_cowPages, set_memories. cbn.
  by rewrite insert_insert, decide_True.
Qed.
Lemma cow_touch_result w id offset flags : cow_ok rootPage w → cow_enabled w (CevTouch id offset flags) →
  cow_result w (CevTouch id offset flags).
Proof.
  intros H ([[m Em] Ef] & Ho). destruct (ck_memory _ _ H id m Em) as (Hl & Ha & _ & _). unfold is_word in Ho.
  assert (∀ r w', Cow_touch_begin w id offset flags = Ret (r, w') → cow_ok rootPage w' → quiet_step rootPage w w' →
    cow_result w (CevTouch id offset flags)) as Hdone.
  { intros r w' E Hw Hq. apply (plain_result w w'); try done. cbn. by rewrite E. }
  unfold Cow_touch_begin in Hdone. rewrite Em in Hdone. cbn [deref mbind outcome_bind] in Hdone.
  destruct (_cowLength m <=? offset) eqn:Elen; [by eapply Hdone|].
  assert (in_view m (Z.shiftr offset kPageShift)) as Hi by (apply view_index; [done|lia]).
  set (i := Z.shiftr offset kPageShift) in *. destruct (_ownedPages m !! i) as [p|] eqn:Eo.
  - destruct (ck_owner _ _ H p id i) as [[page Ep] _]; [by exists m|]. rewrite Ep in Hdone. cbn [deref mbind outcome_bind] in Hdone.
    destruct (cp_state page) eqn:Es.
    + destruct (start_touch_ok rootPage w id m i p page) as [H' Hq]; [done..|]. by eapply Hdone.
    + by eapply Hdone.
    + destruct (ck_page _ _ H p page Ep) as [_ [Hf _]]; [done|]. rewrite assert_bind in Hdone by lia. by eapply Hdone.
  - destruct (flag flags fetchRequireMutable).
    + destruct (add_page_ok rootPage w id m i new_cow_page) as [H1 Hq1]; [done..|].
      destruct (start_touch_ok rootPage (add_page w id m i new_cow_page) id (set_owned m (<[i := nextId w]> (_ownedPages m))) i
        (nextId w) new_cow_page) as [H2 Hq2]; try done; try (cbn; by rewrite lookup_insert, decide_True).
      eapply (Hdone _ _); [|exact H2|]; [by rewrite <- touch_fresh by done|].
      apply (quiet_shapes w (add_page w id m i new_cow_page)); [done..|]. by apply add_shapes.
    + destruct (chain_find _ _ _); by eapply Hdone.
Qed.

Lemma cow_copy_result w p frame : cow_ok rootPage w → cow_enabled w (CevCopy p frame) → cow_result w (CevCopy p frame).
Proof.
  intros H ([Hf Hfree] & t & m & Et & Etf & Em & Hroot).
  assert (∀ a, source rootPage w (t_chain t) m (t_index t) = Some a →
    Cow_touch_copy rootPage w p frame = Ret (true, fill_touch w p t frame a) → cow_result w (CevCopy p frame)) as Hdone.
  { intros a Ha E. destruct (fill_touch_ok rootPage w p t m frame a) as [H' Hq]; [done..|].
    apply (plain_result w (fill_touch w p t frame a)); try done. cbn. by rewrite E. }
  unfold Cow_touch_copy in Hdone. rewrite Et in Hdone. cbn [deref mbind outcome_bind] in Hdone. rewrite Em in Hdone.
  cbn [deref mbind outcome_bind] in Hdone. rewrite assert_bind in Hdone by lia. unfold source in Hdone.
  destruct (chain_find w (t_chain t) (chain_key m (t_index t))) as [q|] eqn:Ec.
  - destruct (chain_find_copy rootPage w _ _ q H Ec) as [phys Hc]. destruct (copy_frame rootPage w q phys H Hc) as [Hph [a Ea]].
    destruct Hc as (page & Ep & Es & <-). apply (Hdone a); [unfold frame_contents; by rewrite Ep|].
    rewrite Ep. cbn [deref mbind outcome_bind]. unfold is_cow. rewrite bool_decide_true by done.
    rewrite assert_bind by done. rewrite assert_bind by lia. rewrite Ea. done.
  - destruct (rootPage (_view m) _) as [a|] eqn:Er; [by apply (Hdone a)|]. by destruct (Hroot eq_refl).
Qed.
Lemma cow_finish_result w p : cow_ok rootPage w → cow_enabled w (CevFinish p) → cow_result w (CevFinish p).
Proof.
  intros H (t & Et & Hf). destruct (t_frame t) as [phys|] eqn:Etf; [|done].
  destruct (touch_inProgress rootPage w p t H Et) as (page & Ep & Es).
  destruct (finish_touch_ok rootPage w p t phys page) as [H' Hq]; [done..|].
  apply (plain_result w (finish_touch w p phys page)); try done. cbn. unfold Cow_touch_finish. rewrite Et. cbn [deref mbind outcome_bind].
  rewrite Etf. cbn [deref mbind outcome_bind]. rewrite Ep. cbn [deref mbind outcome_bind]. unfold is_cow. rewrite bool_decide_true by done. done.
Qed.
Lemma cow_fork_result w id : cow_ok rootPage w → cow_enabled w (CevFork id) → cow_result w (CevFork id).
Proof.
  intros H ([[m Em] Ef] & Ha & Hn).
  destruct (fork_begun_ok rootPage w id m) as (H' & Hq & Hc); [done..|by intros i Hi; apply Hn|].
  exists (fork_begun w id m). split; [cbn; by rewrite (fb_run rootPage w id m)|]. split; [done|]. split.
  - intros id' m' i Em' _ Hi. by rewrite (Hq id' m' i).
  - intros m' i Em' Hi. rewrite Em in Em'. injection Em' as <-. by apply Hc.
Qed.
Lemma cow_fork_copy_result w id frame : cow_ok rootPage w → cow_enabled w (CevForkCopy id frame) → cow_result w (CevForkCopy id frame).
Proof.
  intros H ([Hf Hfree] & f & Ef & Ep). destruct (f_lockedCopies f) as [|[i p] rest] eqn:El.
  { apply (plain_result w w); try done. cbn. unfold Cow_fork_copy. rewrite Ef. cbn [deref mbind outcome_bind]. by rewrite El. }
  pose proof (ck_fork _ _ H id f Ef) as F. destruct (fk_memory _ _ _ F) as (m & fm & Em & Efm & _).
  destruct (fk_locked _ _ _ F i p) as [Ho Hc]; [rewrite El; left|]. destruct (page_copy w p Hc) as [src Hsrc].
  destruct (copy_frame rootPage w p src H Hsrc) as [_ [a Ea]].
  destruct (copy_locked_ok rootPage w id f i p rest frame src a fm) as [H' Hq]; [done..|].
  apply (plain_result w (copy_locked w id f i rest frame a fm)); try done.
  destruct Hsrc as (page & Epg & _ & Eph). cbn. unfold Cow_fork_copy. rewrite Ef. cbn [deref mbind outcome_bind]. rewrite El.
  rewrite assert_bind by lia. rewrite Epg. cbn [deref mbind outcome_bind]. rewrite Eph, Ea. cbn. rewrite Efm. cbn. by rewrite Ep.
Qed.
Lemma cow_return_result w id : cow_ok rootPage w → cow_enabled w (CevReturn id) → cow_result w (CevReturn id).
Proof. intros H (f & Ef & Hp). destruct (return_ok rootPage w id f) as [H' Hq]; [done..|]. by eapply plain_result. Qed.
Lemma cow_drop_memory_result w id : cow_ok rootPage w → cow_enabled w (CevDropMemory id) → cow_result w (CevDropMemory id).
Proof.
  intros H ([_ Ef] & Hf & Ht). destruct (drop_memory_ok rootPage w id) as [H' Hq]; [done..|].
  eexists. split; [done|]. split; [done|]. split; [|done]. intros id' m i _ [m' Em'] _. by apply (Hq id' m').
Qed.
Lemma cow_drop_chain_result w c : cow_ok rootPage w → cow_enabled w (CevDropChain c) → cow_result w (CevDropChain c).
Proof. intros H (Hm & Ht). destruct (drop_chain_ok rootPage w c) as [H' Hq]; [done..|]. by eapply plain_result. Qed.
Lemma cow_drop_page_result w p : cow_ok rootPage w → cow_enabled w (CevDropPage p) → cow_result w (CevDropPage p).
Proof. intros H (Hs & Ho & Hc). destruct (drop_page_ok rootPage w p) as (w' & E & H' & Hq & _); [done..|]. by eapply plain_result. Qed.

Lemma view_page_out m offset : misaligned (_cowLength m) = false → 0 ≤ _cowLength m ≤ offset →
  (Z.shiftr offset kPageShift * kPageSize <? _cowLength m) = false.
Proof.
  intros Ha Ho. unfold misaligned in Ha. apply negb_false_iff, Z.eqb_eq in Ha. change (kPageSize - 1) with (Z.ones 12) in Ha.
  rewrite Z.land_ones in Ha by lia. change (2 ^ 12) with 4096 in Ha. rewrite shiftr_pow2 by done. change (2 ^ kPageShift) with 4096.
  unfold kPageSize. pose proof (Z.div_mod (_cowLength m) 4096 ltac:(lia)).
  assert (_cowLength m / 4096 ≤ offset / 4096) by (apply Z.div_le_mono; lia). lia.
Qed.
Lemma view_page_in m offset : 0 ≤ offset < _cowLength m → (Z.shiftr offset kPageShift * kPageSize <? _cowLength m) = true.
Proof.
  intros Ho. rewrite shiftr_pow2 by done. change (2 ^ kPageShift) with 4096. unfold kPageSize.
  pose proof (Z.mul_div_le offset 4096 ltac:(lia)). lia.
Qed.
(** [peekRange] for writing returns the frame of the copy that the view owns. *)
Lemma peek_writable w id m offset : cow_ok rootPage w → memories w !! id = Some m → is_word offset →
  ∃ r, Cow_peekRange rootPeek w id offset fetchRequireMutable = Ret r ∧
  if writable w id (Z.shiftr offset kPageShift) then
    ∃ p phys, owner w p id (Z.shiftr offset kPageShift) ∧ copy_at w p phys ∧
      r = MkRange (u64 (phys + Z.land offset (kPageSize - 1))) (kPageSize - Z.land offset (kPageSize - 1)) CM_null true
  else pr_isMutable r = false.
Proof.
  intros H Em Ho. destruct (ck_memory _ _ H id m Em) as (Hl & Ha & _ & _). unfold is_word in Ho. unfold Cow_peekRange, writable.
  rewrite Em. cbn [deref mbind outcome_bind]. destruct (_cowLength m <=? offset) eqn:El.
  { exists no_range. split; [done|].
    by rewrite (view_page_out m offset) by (done || lia). }
  rewrite (view_page_in m offset) by lia.
  unfold owned_page. destruct (_ownedPages m !! _) as [p|] eqn:Eo; [|by exists no_range].
  destruct (ck_owner _ _ H p id (Z.shiftr offset kPageShift)) as [[page Ep] _]; [by exists m|]. rewrite Ep. cbn [deref mbind outcome_bind andb].
  destruct (is_cow hasCopy page) eqn:Ec; [|by exists no_range]. unfold is_cow in Ec. apply bool_decide_eq_true in Ec.
  destruct (ck_page _ _ H p page Ep) as [_ [Hp _]]; [done|]. rewrite assert_bind by lia. eexists. split; [done|].
  exists p, (cp_physical page). split; [by exists m|]. split; [by exists page|done].
Qed.
Lemma cow_write_result w id offset x : cow_ok rootPage w → cow_enabled w (CevWrite id offset x) → cow_result w (CevWrite id offset x).
Proof.
  intros H ([[m Em] Ef] & Ho & Ha). destruct (peek_writable w id m offset H Em Ho) as (r & E & Hr).
  unfold cow_result. cbn [cow_exec]. unfold cow_write. rewrite E. cbn [mbind outcome_bind].
  unfold cow_effect, cow_expected. set (i := Z.shiftr offset kPageShift) in *. destruct (writable w id i); [|rewrite Hr; by exists w].
  destruct Hr as (p & phys & Hown & Hc & ->). cbn [pr_isMutable pr_physical].
  assert (Z.land offset (kPageSize - 1) = 0) as -> by (unfold misaligned in Ha; by apply negb_false_iff, Z.eqb_eq in Ha).
  destruct (copy_frame rootPage w p phys H Hc) as [Hp _]. change noFrame with (2 ^ 64 - 1) in Hp. rewrite Z.add_0_r, u64_small by lia.
  exists (write_frame w phys x). split; [done|]. split; [by apply (write_frame_ok rootPage w id i p)|]. split; [|done].
  intros id' m' j Em' _ Hj. rewrite (write_contents rootPage w id i p) with (m := m') by done. rewrite andb_true_l.
  destruct (bool_decide (j = i)) eqn:Eji; [apply bool_decide_eq_true in Eji; by rewrite Eji|done].
Qed.

(** The second critical section of [fork]: each page that is settled keeps the invariant of
    the world in which the fork has one page less to wait for. *)
Definition with_fork w id mem nc (progress locked : list (Z * nat)) : World A :=
  set_forks w (<[id := MkFork mem nc progress locked]> (forks w)).
Lemma settle_page_ok w id mem nc i p rest locked : cow_ok rootPage (with_fork w id mem nc ((i, p) :: rest) locked) → page_is w p hasCopy →
  ∃ isLocked w', settle_page w mem nc i p = Ret (isLocked, w') ∧ cowPages w' = cowPages w ∧
    cow_ok rootPage (with_fork w' id mem nc rest (if isLocked : bool then locked ++ [(i, p)] else locked)) ∧
    quiet_step rootPage (with_fork w id mem nc ((i, p) :: rest) locked)
      (with_fork w' id mem nc rest (if isLocked : bool then locked ++ [(i, p)] else locked)) ∧
    shapes w w'.
Proof.
  set (W := with_fork w id mem nc ((i, p) :: rest) locked). set (f := MkFork mem nc ((i, p) :: rest) locked). intros H Hc.
  assert (forks W !! id = Some f) as Ef by (unfold W, with_fork; cbn; by rewrite lookup_insert, decide_True).
  pose proof (ck_fork _ _ H id f Ef) as F. destruct Hc as (page & Ep & Es) eqn:EHc. unfold settle_page. rewrite Ep.
  cbn [deref mbind outcome_bind]. unfold is_cow. rewrite bool_decide_true by done. rewrite assert_bind by done.
  destruct (negb (cp_lockCount page =? 0)) eqn:El.
  - exists true, w. split; [done|]. split; [done|].
    destruct (settle_locked_ok rootPage W id f i p rest H Ef eq_refl Hc) as [H' Hq].
    unfold W, with_fork in H', Hq. cbn in H', Hq. rewrite insert_insert, decide_True in H', Hq by done.
    split; [exact H'|]. split; [exact Hq|apply shapes_refl].
  - destruct (ck_page _ _ H p page Ep) as [_ [Hp _]]; [done|]. rewrite assert_bind by lia.
    destruct (fk_memory _ _ _ F) as (m & fm & Em & _ & _ & Ech & _). cbn in Em, Ech.
    destruct (ck_memory _ _ H mem m Em) as (_ & _ & _ & Hch). destruct (Hch nc Ech) as [ch Ec]. cbn in Ec.
    rewrite Em. cbn [deref mbind outcome_bind]. rewrite Ec. cbn [deref mbind outcome_bind].
    destruct (settle_moved_ok rootPage W id f i p rest m ch H Ef eq_refl Hc Em Ec) as [H' Hq].
    eexists false, _. split; [done|]. split; [done|].
    unfold settle_moved, W, with_fork in H', Hq. cbn in H', Hq. rewrite insert_insert, decide_True in H', Hq by done.
    split; [exact H'|]. split; [exact Hq|].
    intros id' m' Em'. cbn. rewrite lookup_insert. case_decide as Hd; [|by exists m']. subst id'. rewrite Em in Em'. injection Em' as <-.
    eexists. split; [done|]. apply set_owned_shape.
Qed.
Lemma settle_loop_ok id mem nc pages : ∀ w locked, cow_ok rootPage (with_fork w id mem nc pages locked) →
  (∀ i p, (i, p) ∈ pages → page_is w p hasCopy) →
  ∃ locked' w', settle_loop w mem nc pages locked = Ret (locked', w') ∧ cow_ok rootPage (with_fork w' id mem nc [] locked') ∧
    quiet_step rootPage (with_fork w id mem nc pages locked) (with_fork w' id mem nc [] locked').
Proof.
  induction pages as [|[i p] pages IH]; intros w locked H Hc; cbn; [by exists locked, w|].
  destruct (settle_page_ok w id mem nc i p pages locked H) as (b & w1 & -> & Ep & H1 & Hq1 & Hs1); [apply (Hc i); left|].
  cbn [mbind outcome_bind]. destruct (IH w1 _ H1) as (locked' & w2 & -> & H2 & Hq2).
  { intros j q Hj. destruct (Hc j q) as (page & Eq & Es); [by right|]. exists page. by rewrite Ep. }
  exists locked', w2. split; [done|]. split; [done|]. by apply (quiet_shapes _ _ _ Hq1 Hq2).
Qed.
Lemma with_fork_same w id f : forks w !! id = Some f → with_fork w id (f_memory f) (f_newChain f) (f_inProgress f) (f_lockedCopies f) = w.
Proof. intros E. unfold with_fork. destruct f, w. cbn in *. unfold set_forks. cbn. by rewrite insert_id. Qed.
Lemma cow_settle_result w id : cow_ok rootPage w → cow_enabled w (CevSettle id) → cow_result w (CevSettle id).
Proof.
  intros H [f Ef]. pose proof (ck_fork _ _ H id f Ef) as F. pose proof (with_fork_same w id f Ef) as Ew.
  destruct (still_waiting w f) eqn:Ew'.
  { apply (plain_result w w); try done. cbn. unfold Cow_fork_settle. rewrite Ef. cbn [deref mbind outcome_bind]. by rewrite Ew'. }
  destruct (settle_loop_ok id (f_memory f) (f_newChain f) (f_inProgress f) w (f_lockedCopies f)) as (locked & w' & E & H' & Hq).
  - by rewrite Ew.
  - intros i p Hp. destruct (fk_progress _ _ _ F i p Hp) as [_ [Hb|Hb]]; [|done]. exfalso.
    destruct Hb as (page & Ep & Es). unfold still_waiting in Ew'. apply not_true_iff_false in Ew'. apply Ew'. apply existsb_exists.
    exists (i, p). split; [by apply list_elem_of_In|]. cbn. rewrite Ep. unfold is_cow. by apply bool_decide_eq_true.
  - rewrite Ew in Hq. apply (plain_result w (with_fork w' id (f_memory f) (f_newChain f) [] locked)); try done.
    cbn. unfold Cow_fork_settle. rewrite Ef. cbn [deref mbind outcome_bind]. by rewrite Ew', E.
Qed.

(** Every event that the callers may cause returns, keeps the invariant and has its effect. *)
Lemma cow_exec_ok w e : cow_ok rootPage w → cow_enabled w e → cow_result w e.
Proof.
  destruct e; [apply cow_create_result|apply cow_lock_result|apply cow_unlock_result|apply cow_touch_result|apply cow_copy_result
    |apply cow_finish_result|apply cow_fork_result|apply cow_settle_result|apply cow_fork_copy_result|apply cow_return_result
    |apply cow_write_result|apply cow_drop_memory_result|apply cow_drop_chain_result|apply cow_drop_page_result].
Qed.

(** ** Runs *)

(** Views keep their shape, a view in use never becomes a fork in flight, and a fork in
    flight stays the fork of its original. *)
Record frame_step w w' : Prop := {
  fs_ids : (nextId w ≤ nextId w')%nat;
  fs_views id m' : memories w' !! id = Some m' → (nextId w ≤ id)%nat ∨ ∃ m, memories w !! id = Some m ∧ same_shape m m';
  fs_forks id f' : forks w' !! id = Some f' → (nextId w ≤ id)%nat ∨ ∃ f, forks w !! id = Some f ∧ f_memory f = f_memory f';
}.
Lemma cow_frame_same w w' : memories w' = memories w → forks w' = forks w → (nextId w ≤ nextId w')%nat → frame_step w w'.
Proof. intros Em Ef En. split; [done|..]; [rewrite Em|rewrite Ef]; intros id x E; right; by exists x. Qed.
Lemma cow_frame_trans w1 w2 w3 : frame_step w1 w2 → frame_step w2 w3 → frame_step w1 w3.
Proof.
  intros [I1 V1 F1] [I2 V2 F2]. split; [lia|..].
  - intros id m3 E3. destruct (V2 id m3 E3) as [|(m2 & E2 & S2)]; [left; lia|]. destruct (V1 id m2 E2) as [|(m1 & E1 & S1)]; [by left|].
    right. exists m1. split; [done|]. unfold same_shape in *. intuition congruence.
  - intros id f3 E3. destruct (F2 id f3 E3) as [|(f2 & E2 & M2)]; [left; lia|]. destruct (F1 id f2 E2) as [|(f1 & E1 & M1)]; [by left|].
    right. exists f1. split; [done|congruence].
Qed.
Lemma frame_memory w w' id m m' : memories w !! id = Some m → same_shape m m' → memories w' = <[id := m']> (memories w) →
  (∀ id' f', forks w' !! id' = Some f' → ∃ f, forks w !! id' = Some f ∧ f_memory f = f_memory f') → (nextId w ≤ nextId w')%nat →
  frame_step w w'.
Proof.
  intros Em Hs Ew Hf Hn. split; [done|..]; [|intros id' f' H; right; by apply Hf]. intros id' m1. rewrite Ew, lookup_insert.
  case_decide as Hd; intros E; right; [|by exists m1]. subst id'. injection E as <-. by exists m.
Qed.
Lemma cow_lock_frame w id i w' : cow_lock w id i = Ret w' → frame_step w w'.
Proof.
  unfold cow_lock. intros E. inv_outcome. destruct (_ownedPages _ !! i); cbn [new_id] in *; inv_outcome; subst; [by apply cow_frame_same|].
  eapply frame_memory; [done|apply set_owned_shape|reflexivity|by intros id' f' E; exists f'|cbn; lia].
Qed.
Lemma cow_lock_loop_frame id l : ∀ w w', cow_lock_loop w id l = Ret w' → frame_step w w'.
Proof.
  induction l as [|i l IH]; cbn; intros w w' E; inv_outcome; [subst; by apply cow_frame_same|].
  eapply cow_frame_trans; [by eapply cow_lock_frame|by apply IH].
Qed.
Lemma cow_unlock_loop_frame id l : ∀ w w', cow_unlock_loop w id l = Ret w' → frame_step w w'.
Proof.
  induction l as [|i l IH]; cbn; intros w w' E; inv_outcome; [subst; by apply cow_frame_same|].
  eapply cow_frame_trans; [|by apply IH]. unfold cow_unlock in *. inv_outcome. subst. by apply cow_frame_same.
Qed.
Lemma settle_page_frame w id nc i p b w' : settle_page w id nc i p = Ret (b, w') → frame_step w w' ∧ forks w' = forks w.
Proof.
  unfold settle_page. intros E. inv_outcome. destruct (negb (cp_lockCount _ =? 0)); inv_outcome; simplify_eq; [by split; [apply cow_frame_same|]|].
  split; [|done]. eapply frame_memory; [done|apply set_owned_shape|reflexivity|by intros id' f' E; exists f'|cbn; lia].
Qed.
Lemma settle_loop_frame id nc l : ∀ w locked locked' w', settle_loop w id nc l locked = Ret (locked', w') → frame_step w w' ∧ forks w' = forks w.
Proof.
  induction l as [|[i p] l IH]; cbn; intros w locked locked' w' E; inv_outcome; [simplify_eq; by split; [apply cow_frame_same|]|].
  case_match eqn:Ex. destruct (IH _ _ _ _ H0) as [F Ef]. destruct (settle_page_frame _ _ _ _ _ _ _ H) as [F1 Ef1].
  split; [by eapply cow_frame_trans|congruence].
Qed.
Lemma insert_forks (g : gmap nat Fork) (k : nat) f f1 (j : nat) f' : g !! k = Some f → f_memory f = f_memory f1 →
  <[k := f1]> g !! j = Some f' → ∃ f0, g !! j = Some f0 ∧ f_memory f0 = f_memory f'.
Proof. intros E M. rewrite lookup_insert. case_decide as Hd; [subst j; intros [= <-]; by exists f|]. intros E'. by exists f'. Qed.
Lemma create_frame w view offset length id w' : Cow_create w view offset length = Ret (id, w') → frame_step w w'.
Proof.
  unfold Cow_create, Cow_new. intros E. inv_outcome. cbn [new_id] in *. simplify_eq. split; [cbn; lia| |by intros id f E; right; exists f]. intros id m'. cbn.
  rewrite lookup_insert. case_decide as Hd; [intros _; left; lia|]. intros E. right. by exists m'.
Qed.
Lemma touch_begin_frame w id offset flags r w' : Cow_touch_begin w id offset flags = Ret (r, w') → frame_step w w'.
Proof.
  unfold Cow_touch_begin. intros E. inv_outcome. destruct (_ <=? _); inv_outcome; simplify_eq; [by apply cow_frame_same|].
  destruct (_ownedPages _ !! _) eqn:Eo; inv_outcome.
  - destruct (cp_state _); inv_outcome; simplify_eq; by apply cow_frame_same.
  - destruct (flag _ _); cbn [new_id] in *; [|destruct (chain_find _ _ _)]; inv_outcome; simplify_eq; try by apply cow_frame_same.
    eapply frame_memory; [done|apply set_owned_shape|reflexivity|by intros id' f' E; exists f'|cbn; lia].
Qed.
Lemma touch_copy_frame w p frame b w' : Cow_touch_copy rootPage w p frame = Ret (b, w') → frame_step w w'.
Proof.
  unfold Cow_touch_copy. intros E. inv_outcome.
  destruct (chain_find _ _ _); [|destruct (rootPage _ _)]; inv_outcome; simplify_eq; by apply cow_frame_same.
Qed.
Lemma fork_begin_frame w id n w' : cow_ok rootPage w → Cow_fork_begin w id = Ret (n, w') → frame_step w w'.
Proof.
  intros H E. destruct (memories w !! id) as [m|] eqn:Em; [|unfold Cow_fork_begin in E; by rewrite Em in E].
  rewrite (fb_run rootPage w id m H Em) in E. simplify_eq. split; [cbn; lia|..]; intros id' m'; cbn.
  - rewrite lookup_insert. case_decide; [left; lia|]. rewrite lookup_insert. case_decide as Hd; intros E; right; [|by exists m'].
    subst id'. injection E as <-. by exists m.
  - rewrite lookup_insert. case_decide; [left; lia|]. intros E. right. by exists m'.
Qed.
Lemma fork_settle_frame w id w' : Cow_fork_settle w id = Ret w' → frame_step w w'.
Proof.
  unfold Cow_fork_settle. intros E. inv_outcome. destruct (still_waiting w _); inv_outcome; [subst; by apply cow_frame_same|].
  case_match. inv_outcome. subst. destruct (settle_loop_frame _ _ _ _ _ _ _ H0) as [F Ef]. eapply cow_frame_trans; [exact F|].
  split; [done|intros id' m' E; right; by exists m'|]. intros id' f' E. right. cbn in E. rewrite Ef in E |- *. by eapply insert_forks in E.
Qed.
Lemma fork_copy_frame w id frame w' : Cow_fork_copy w id frame = Ret w' → frame_step w w'.
Proof.
  unfold Cow_fork_copy. intros E. inv_outcome. destruct (f_lockedCopies _) as [|[i p] rest]; inv_outcome; [subst; by apply cow_frame_same|].
  cbn [new_id] in *. inv_outcome. subst. cbn in *.
  eapply frame_memory; [done|apply set_owned_shape|reflexivity|intros id' f'; cbn; by eapply insert_forks|cbn; lia].
Qed.
Lemma delete_frame w w' : (∀ id m, memories w' !! id = Some m → memories w !! id = Some m) →
  (∀ id f, forks w' !! id = Some f → forks w !! id = Some f) → nextId w' = nextId w → frame_step w w'.
Proof.
  intros Hm Hf En. split; [lia|..].
  - intros id m' E. right. exists m'. by split; [apply Hm|].
  - intros id f E. right. exists f. by split; [apply Hf|].
Qed.
Lemma cow_exec_frame w e w' : cow_ok rootPage w → cow_exec w e = Ret w' → frame_step w w'.
Proof.
  intros H. destruct e; cbn; intros E; try (apply bind_Ret in E as ([? ?] & E & E2); injection E2 as <-).
  - by eapply create_frame.
  - by eapply cow_lock_loop_frame.
  - by eapply cow_unlock_loop_frame.
  - by eapply touch_begin_frame.
  - by eapply touch_copy_frame.
  - unfold Cow_touch_finish in E. inv_outcome. subst. by apply cow_frame_same.
  - by eapply fork_begin_frame.
  - by eapply fork_settle_frame.
  - by eapply fork_copy_frame.
  - injection E as <-. apply delete_frame; [done| |done]. intros i f. cbn. rewrite lookup_delete. by case_decide.
  - unfold cow_write in E. inv_outcome. case_match; inv_outcome; subst; by apply cow_frame_same.
  - injection E as <-. apply delete_frame; [|done|done]. intros i f. cbn. rewrite lookup_delete. by case_decide.
  - injection E as <-. by apply cow_frame_same.
  - unfold CowPage_destruct in E. inv_outcome. destruct (is_cow cow_null _); inv_outcome; subst; by apply cow_frame_same.
Qed.

(** The writes that an event performs: a store without a mutable page faults. *)
Definition effective w (e : cow_event A) : list (nat * Z * A) :=
  match e with
  | CevWrite id offset x => if writable w id (Z.shiftr offset kPageShift) then [(id, Z.shiftr offset kPageShift, x)] else []
  | _ => []
  end.
Inductive cow_run w : list (nat * Z * A) → World A → Prop :=
| cow_run_nil : cow_run w [] w
| cow_run_step ws w1 e w2 : cow_run w ws w1 → cow_enabled w1 e → cow_exec w1 e = Ret w2 → cow_run w (ws ++ effective w1 e) w2.
Lemma cow_run_app w ws w1 ws' w2 : cow_run w ws w1 → cow_run w1 ws' w2 → cow_run w (ws ++ ws') w2.
Proof. intros H1. induction 1 as [|ws' w2 e w3 Hr IH He E]; [by rewrite app_nil_r|]. rewrite app_assoc. by eapply cow_run_step. Qed.
(** The last of a sequence of writes to page [i] of view [id], or else [a]. *)
Fixpoint last_write (ws : list (nat * Z * A)) id i (a : option A) : option A :=
  match ws with
  | [] => a
  | (id', j, x) :: ws => last_write ws id i (if decide (id' = id ∧ j = i) then Some x else a)
  end.
Lemma last_write_app ws ws' id i : ∀ a, last_write (ws ++ ws') id i a = last_write ws' id i (last_write ws id i a).
Proof. induction ws as [|[[id' j] x] ws IH]; intros a; cbn; [done|]. apply IH. Qed.

Definition empty_world : World A := MkWorld ∅ ∅ ∅ ∅ ∅ ∅ ∅ 0.
Lemma empty_world_ok : cow_ok rootPage empty_world.
Proof.
  split; cbn; try (intros; by simplify_map_eq).
  - by intros p p' phys (page & E & _).
  - intros p. split; [by intros (page & E & _)|]. by intros [t E].
  - by intros p id i (m & E & _).
  - intros phys. split; [set_solver|]. by intros (p & page & E & _).
Qed.
Lemma cow_run_ok w ws w' : cow_ok rootPage w → cow_run w ws w' → cow_ok rootPage w' ∧ frame_step w w'.
Proof.
  intros H. induction 1 as [|ws w1 e w2 Hr [H1 F1] He E]; [split; [done|by apply cow_frame_same]|].
  destruct (cow_exec_ok w1 e H1 He) as (w2' & E' & H2 & _). rewrite E in E'. injection E' as <-. split; [done|].
  eapply cow_frame_trans; [done|]. by eapply cow_exec_frame.
Qed.
Lemma cow_alive w ws w' id : cow_ok rootPage w → cow_run w ws w' → (id < nextId w)%nat → is_Some (memories w' !! id) →
  ∃ m m', memories w !! id = Some m ∧ memories w' !! id = Some m' ∧ same_shape m m'.
Proof.
  intros H Hr Hid [m' E']. destruct (cow_run_ok w ws w' H Hr) as [_ F]. destruct (fs_views _ _ F id m' E') as [|(m & E & S)]; [lia|].
  by exists m, m'.
Qed.
Lemma view_id w id m : cow_ok rootPage w → memories w !! id = Some m → (id < nextId w)%nat.
Proof. intros H E. destruct (decide (id < nextId w)%nat) as [|Hn]; [done|]. destruct (ck_ids _ _ H id) as (_ & _ & E'); [lia|congruence]. Qed.

(** One event changes what a view reads only by a write to the view, or to the view whose
    fork it is. *)
Lemma exec_contents w e w' id m i : cow_ok rootPage w → cow_enabled w e → cow_exec w e = Ret w' → memories w !! id = Some m →
  is_Some (memories w' !! id) → in_view m i →
  (∀ id0 x f, (id0, i, x) ∈ effective w e → forks w !! id = Some f → f_memory f ≠ id0) →
  contents rootPage w' id i = last_write (effective w e) id i (contents rootPage w id i).
Proof.
  intros H He E Em Ha Hi Hf. destruct (cow_exec_ok w e H He) as (w2 & E' & _ & Hc & _). rewrite E in E'. injection E' as <-.
  rewrite (Hc id m i Em Ha Hi). destruct e; try done. cbn in *. set (j := Z.shiftr offset kPageShift) in *.
  destruct (writable w id0 j) eqn:Ew; [|done]. cbn. destruct (bool_decide (i = j)) eqn:Ej; cbn.
  - apply bool_decide_eq_true in Ej. unfold sees. destruct (bool_decide (id = id0)) eqn:Ei; cbn.
    + apply bool_decide_eq_true in Ei. by rewrite decide_True.
    + apply bool_decide_eq_false in Ei. rewrite decide_False by naive_solver. destruct (forks w !! id) as [f|] eqn:Ef; [|done].
      rewrite bool_decide_eq_false_2; [done|]. apply (Hf id0 x f); [|done]. rewrite Ej. left.
  - apply bool_decide_eq_false in Ej. by rewrite decide_False by naive_solver.
Qed.
Lemma run_contents w ws w' id m i : cow_ok rootPage w → cow_run w ws w' → memories w !! id = Some m →
  is_Some (memories w' !! id) → in_view m i →
  (∀ id0 x f, (id0, i, x) ∈ ws → forks w !! id = Some f → f_memory f ≠ id0) →
  contents rootPage w' id i = last_write ws id i (contents rootPage w id i).
Proof.
  intros H Hr Em. revert i. induction Hr as [|ws w1 e w2 Hr IH He E]; intros i Ha Hi Hf; [done|].
  destruct (cow_run_ok w ws w1 H Hr) as [H1 F1]. pose proof (view_id w id m H Em) as Hid.
  destruct Ha as [m2 Em2]. destruct (fs_views _ _ (cow_exec_frame w1 e w2 H1 E) id m2 Em2) as [Hn|(m1 & Em1 & S1)].
  { pose proof (fs_ids _ _ F1). lia. }
  destruct (cow_alive w ws w1 id H Hr Hid) as (m' & m1' & E1 & E2 & S); [by rewrite Em1|].
  rewrite Em in E1. rewrite Em1 in E2. injection E1 as <-. injection E2 as <-.
  rewrite last_write_app, (exec_contents w1 e w2 id m1 i); try done.
  - rewrite IH; try done. intros id0 x f Hx. apply (Hf id0 x). apply elem_of_app. by left.
  - by apply (same_view m m1).
  - intros id0 x f Hx Ef. destruct (fs_forks _ _ F1 id f Ef) as [|(f0 & Ef0 & <-)]; [lia|].
    apply (Hf id0 x f0); [|done]. apply elem_of_app. by right.
Qed.

(** ** Theorems *)

(** C13: After any sequence of allowed events, every allowed event of the copy-on-write
    memory returns: no assertion fails.  Creating, locking, faulting, copying, forking
    and dropping are not observable, a write changes one page of one view, and a fork
    reads what the original reads.  Until a locked page is copied to the fork, a write to
    the original is seen by the fork in flight as well. *)
Theorem cow_events ws w e : cow_run empty_world ws w → cow_enabled w e → ∃ w', cow_exec w e = Ret w' ∧ cow_effect w e w'.
Proof.
  intros Hr He. destruct (cow_run_ok _ _ _ empty_world_ok Hr) as [H _]. destruct (cow_exec_ok w e H He) as (w' & E & _ & Hc). by exists w'.
Qed.

(** C3: In runs of allowed events, over an underlying view whose contents do not change, a
    view that is in use reads, at any later time, what was last written to it itself: no
    write to another view, to its original or to one of its forks shows up in it, and none
    of its own writes is lost.  The allowed events leave out two kinds of forks that do
    lose writes: a fork of a view with a locked page that has no copy yet and hides a page
    of the copy chain ([fork_forgets_chain]), and a fork of a view of which another fork is
    still in flight ([settle_drops_copy]). *)
Theorem cow_isolation ws w id m i ws' w' : cow_run empty_world ws w → memories w !! id = Some m → forks w !! id = None → in_view m i →
  cow_run w ws' w' → is_Some (memories w' !! id) → contents rootPage w' id i = last_write ws' id i (contents rootPage w id i).
Proof.
  intros Hr Em Ef Hi Hr' Ha. destruct (cow_run_ok _ _ _ empty_world_ok Hr) as [H _].
  apply (run_contents w ws' w' id m i); try done. intros id0 x f _. by rewrite Ef.
Qed.

Lemma no_write ws id i : (∀ x, (id, i, x) ∉ ws) → ∀ a, last_write ws id i a = a.
Proof.
  induction ws as [|[[id' j] x] ws IH]; intros Hn a; cbn; [done|]. rewrite decide_False.
  - apply IH. intros y Hy. apply (Hn y). by right.
  - intros [-> ->]. apply (Hn x). left.
Qed.
(** C18: For a fork of a view of which no other fork is in flight and of which no locked page
    without a copy hides a page of the copy chain ([settle_drops_copy] and
    [fork_forgets_chain] show what happens otherwise), over an underlying view whose
    contents do not change: whatever else happens, by allowed events, while [fork] waits for
    copies in flight and copies locked pages, and afterwards, each page of the fork holds
    what the original held when [fork] was called, as long as the page is written in
    neither of the two. *)
Theorem fork_snapshot ws w id m i w1 ws' w' : cow_run empty_world ws w → memories w !! id = Some m → in_view m i →
  cow_enabled w (CevFork id) → cow_exec w (CevFork id) = Ret w1 → cow_run w1 ws' w' →
  is_Some (memories w' !! S (nextId w)) → (∀ x, (id, i, x) ∉ ws') → (∀ x, (S (nextId w), i, x) ∉ ws') →
  contents rootPage w' (S (nextId w)) i = contents rootPage w id i.
Proof.
  intros Hr Em Hi He E Hr' Ha Hn Hn'. destruct (cow_run_ok _ _ _ empty_world_ok Hr) as [H _].
  destruct (cow_exec_ok w _ H He) as (w1' & E' & H1 & _ & Hf). rewrite E in E'. injection E' as <-. rewrite <- (Hf m i Em Hi).
  cbn in E. rewrite (fb_run rootPage w id m H Em) in E. cbn [mbind outcome_bind] in E. injection E as <-.
  rewrite (run_contents (fork_begun w id m) ws' w' (S (nextId w)) (MkCow (_view m) (_viewOffset m) (_cowLength m) (Some (nextId w)) ∅) i); try done.
  - by apply no_write.
  - cbn. by rewrite lookup_insert, decide_True.
  - intros id0 x f Hx. cbn. rewrite lookup_insert, decide_True by done. intros [= <-]. cbn. intros ->. by apply (Hn x).
Qed.

Definition frame_range (phys offset : Z) (isMutable : bool) : PhysicalRange :=
  MkRange (u64 (phys + Z.land offset (kPageSize - 1))) (kPageSize - Z.land offset (kPageSize - 1)) CM_null isMutable.
(** Page [i] of view [id] is read from the copy [p]. *)
Definition reads_copy w id i p : Prop :=
  ∃ m, memories w !! id = Some m ∧
    (_ownedPages m !! i = Some p ∨ _ownedPages m !! i = None ∧ chain_find w (_copyChain m) (chain_key m i) = Some p).
Lemma owned_exclusive w id i p : cow_ok rootPage w → owner w p id i → ∀ id' i', reads_copy w id' i' p → id' = id ∧ i' = i.
Proof.
  intros H Ho id' i' (m' & Em' & [Eo|[_ Ec]]).
  - apply (ck_owner _ _ H p id i Ho). by exists m'.
  - exfalso. unfold chain_find in Ec. destruct (_copyChain m') as [c|]; [|done]. cbn in Ec.
    destruct (cowChains w !! c) as [ch|] eqn:Ech; [|done]. cbn in Ec. by apply (ck_chain _ _ H c ch _ p Ech Ec) in Ho.
Qed.
(** [peekRange] returns the frame that holds what the view reads, unless the page is
    out of range, a copy is missing or the root view has no page.  It returns a frame for
    writing exactly if the view has a copy of the page, and then no other page of any
    view is read from this copy. *)
Theorem cow_peek ws w id m offset flags : cow_run empty_world ws w → memories w !! id = Some m → forks w !! id = None → is_word offset →
  let i := Z.shiftr offset kPageShift in
  ∃ r, Cow_peekRange rootPeek w id offset flags = Ret r ∧ pr_isMutable r = writable w id i ∧
  if pr_isMutable r then
    ∃ p phys, copy_at w p phys ∧ r = frame_range phys offset true ∧ frames w !! phys = contents rootPage w id i ∧
      ∀ id' i', reads_copy w id' i' p → id' = id ∧ i' = i
  else
    r = no_range ∧ (_cowLength m ≤ offset ∨ is_Some (_ownedPages m !! i) ∨ flag flags fetchRequireMutable = true ∨
      pr_physical (rootPeek (_view m) (u64 (_viewOffset m + offset)) flags) = noFrame) ∨
    (∃ phys, r = frame_range phys offset false ∧ frames w !! phys = contents rootPage w id i) ∨
    contents rootPage w id i = rootPage (_view m) (Z.shiftl (chain_key m i) kPageShift) ∧
    pr_physical r = pr_physical (rootPeek (_view m) (u64 (_viewOffset m + offset)) flags).
Proof.
  intros Hr Em Ef Ho i. destruct (cow_run_ok _ _ _ empty_world_ok Hr) as [H _].
  destruct (ck_memory _ _ H id m Em) as (Hl & Ha & Hv & _). unfold contents, denote, denote_memory. rewrite Ef, Em. cbn [mbind option_bind].
  unfold Cow_peekRange, writable. rewrite Em. cbn [deref mbind outcome_bind]. fold i. destruct (_cowLength m <=? offset) eqn:El.
  { exists no_range. split; [done|]. assert ((i * kPageSize <? _cowLength m) = false) as -> by (apply view_page_out; [done|lia]).
    split; [done|]. left. split; [done|]. left. lia. }
  unfold is_word in Ho. assert ((i * kPageSize <? _cowLength m) = true) as -> by (apply view_page_in; lia). cbn [andb]. unfold owned_page.
  destruct (_ownedPages m !! i) as [p|] eqn:Eo.
  - destruct (ck_owner _ _ H p id i) as [[page Ep] _]; [by exists m|]. rewrite Ep. cbn [deref mbind outcome_bind].
    destruct (is_cow hasCopy page) eqn:Ec; [|exists no_range; split; [done|]; split; [done|]; left; split; [done|]; right; by left].
    unfold is_cow in Ec. apply bool_decide_eq_true in Ec. destruct (ck_page _ _ H p page Ep) as [_ [Hp _]]; [done|].
    rewrite assert_bind by lia. eexists. split; [done|]. split; [done|]. exists p, (cp_physical page). split; [by exists page|].
    split; [done|]. split; [by rewrite (owned_copy rootPage w m i p page)|]. apply owned_exclusive; [done|by exists m].
  - destruct (flag flags fetchRequireMutable) eqn:Efl.
    { exists no_range. split; [done|]. split; [done|]. left. split; [done|]. right. right. by left. }
    rewrite page_key_eq by (done || lia). fold i. unfold source.
    destruct (chain_find w (_copyChain m) (chain_key m i)) as [p|] eqn:Ec.
    + destruct (chain_find_copy rootPage w _ _ p H Ec) as [phys (page & Ep & Es & Eph)]. rewrite Ep. cbn [deref mbind outcome_bind].
      eexists. split; [done|]. split; [done|]. right. left. exists (cp_physical page). split; [done|]. unfold frame_contents. by rewrite Ep.
    + destruct (negb (pr_physical _ =? noFrame)) eqn:En; eexists; (split; [done|]); (split; [done|]); [by right; right|].
      left. split; [done|]. right. right. right. apply negb_false_iff, Z.eqb_eq in En. done.
Qed.
End cow.

(** ** Examples *)
Definition exec_all {A} (rootPeek : Z → Z → Z → PhysicalRange) (rootPage : Z → Z → option A) :=
  fix go (w : World A) (es : list (cow_event A)) : World A :=
    match es with
    | [] => w
    | e :: es => match cow_exec rootPeek rootPage w e with Ret w' => go w' es | Stop _ => w end
    end.
Lemma cow_run_cons {A} rootPeek (rootPage : Z → Z → option A) w e w1 ws1 ws w2 : cow_enabled rootPage w e →
  cow_exec rootPeek rootPage w e = Ret w1 → effective w e = ws1 → cow_run rootPeek rootPage w1 ws w2 →
  cow_run rootPeek rootPage w (ws1 ++ ws) w2.
Proof.
  intros He E <-. induction 1 as [|ws w3 e' w4 Hr IH He' E'].
  - rewrite app_nil_r. by apply (cow_run_step _ _ w [] w e); [apply cow_run_nil|..].
  - rewrite app_assoc. by eapply cow_run_step.
Qed.

(** A root view whose pages hold their offsets. *)
Definition demoPeek (view offset flags : Z) : PhysicalRange := no_range.
Definition demoPage (view offset : Z) : option Z := Some offset.
(** A view whose first page is copied and written; its fork; a write to the fork. *)
Definition demoWritten : list (cow_event Z) := [CevCreate 5 0 8192; CevTouch 0 0 1; CevCopy 1 4096; CevFinish 1; CevWrite 0 0 77].
Definition demoForked : list (cow_event Z) := [CevFork 0; CevReturn 3].
Definition demoFork : list (cow_event Z) := [CevTouch 3 0 1; CevCopy 4 8192; CevFinish 4; CevWrite 3 0 99].
Definition demo1 : World Z := Eval vm_compute in exec_all demoPeek demoPage empty_world demoWritten.
Definition demo2 : World Z := Eval vm_compute in exec_all demoPeek demoPage demo1 demoForked.
Definition demo3 : World Z := Eval vm_compute in exec_all demoPeek demoPage demo2 demoFork.

Ltac nothing := let E := fresh in intros; match goal with H : _ |- _ => vm_compute in H; discriminate H end.
Ltac demo_published := split; [vm_compute; by eexists|by vm_compute].
Ltac demo_enabled :=
  lazymatch goal with
  | |- cow_enabled _ _ (CevCreate _ _ _) => split; [lia|by split]
  | |- cow_enabled _ _ (CevTouch _ _ _) => split; [demo_published|unfold is_word; lia]
  | |- cow_enabled _ _ (CevCopy _ _) =>
      split; [split; [split; [lia|vm_compute; reflexivity]|vm_compute; reflexivity]|];
      eexists _, _; split; [vm_compute; reflexivity|]; split; [reflexivity|]; split; [vm_compute; reflexivity|done]
  | |- cow_enabled _ _ (CevFinish _) => eexists; split; [vm_compute; reflexivity|done]
  | |- cow_enabled _ _ (CevWrite _ _ _) => split; [demo_published|by split; [unfold is_word; lia|]]
  | |- cow_enabled _ _ (CevReturn _) => eexists; split; [vm_compute; reflexivity|reflexivity]
  | |- cow_enabled _ _ (CevFork _) => split; [demo_published|split; [nothing|]]
  end.
Ltac demo_step e := eapply (cow_run_cons _ _ _ e); [demo_enabled|vm_compute; reflexivity|vm_compute; reflexivity|].
Lemma demo1_run : cow_run demoPeek demoPage empty_world [(0%nat, 0, 77)] demo1.
Proof.
  change [(0%nat, 0, 77)] with ([] ++ [] ++ [] ++ [] ++ [(0%nat, 0, 77)] ++ []).
  demo_step (CevCreate (A := Z) 5 0 8192). demo_step (CevTouch (A := Z) 0 0 1). demo_step (CevCopy (A := Z) 1 4096).
  demo_step (CevFinish (A := Z) 1). demo_step (CevWrite 0 0 77). apply cow_run_nil.
Qed.
Lemma demo1_fork : cow_enabled demoPage demo1 (CevFork 0).
Proof. demo_enabled. intros m i E. vm_compute in E. injection E as <-. done. Qed.
Lemma demo2_run : cow_run demoPeek demoPage demo1 [] demo2.
Proof.
  change (@nil (nat * Z * Z)) with (@nil (nat * Z * Z) ++ [] ++ []).
  eapply (cow_run_cons _ _ _ (CevFork 0)); [apply demo1_fork|vm_compute; reflexivity|vm_compute; reflexivity|].
  demo_step (CevReturn (A := Z) 3). apply cow_run_nil.
Qed.
Lemma demo3_run : cow_run demoPeek demoPage demo2 [(3%nat, 0, 99)] demo3.
Proof.
  change [(3%nat, 0, 99)] with ([] ++ [] ++ [] ++ [(3%nat, 0, 99)] ++ []).
  demo_step (CevTouch (A := Z) 3 0 1). demo_step (CevCopy (A := Z) 4 8192). demo_step (CevFinish (A := Z) 4).
  demo_step (CevWrite 3 0 99). apply cow_run_nil.
Qed.
Lemma demo12_run : cow_run demoPeek demoPage empty_world [(0%nat, 0, 77)] demo2.
Proof. rewrite <- (app_nil_r [(0%nat, 0, 77)]). eapply cow_run_app; [apply demo1_run|apply demo2_run]. Qed.

Lemma cow_events_witness : ∃ w', cow_exec demoPeek demoPage demo1 (CevFork 0) = Ret w' ∧ cow_effect demoPage demo1 (CevFork 0) w'.
Proof. apply (cow_events demoPeek demoPage [(0%nat, 0, 77)]); [apply demo1_run|apply demo1_fork]. Defined.
Lemma cow_isolation_witness : contents demoPage demo3 3 0 = Some 99 ∧ contents demoPage demo3 0 0 = Some 77.
Proof.
  split; [by vm_compute|].
  rewrite (cow_isolation demoPeek demoPage [(0%nat, 0, 77)] demo2 0 (MkCow 5 0 8192 (Some 2%nat) ∅) 0 [(3%nat, 0, 99)] demo3).
  - by vm_compute.
  - apply demo12_run.
  - by vm_compute.
  - by vm_compute.
  - by vm_compute.
  - apply demo3_run.
  - vm_compute. by eexists.
Defined.
Lemma fork_snapshot_witness : contents demoPage (exec_all demoPeek demoPage demo1 [CevFork 0]) 3 0 = contents demoPage demo1 0 0.
Proof.
  apply (fork_snapshot demoPeek demoPage [(0%nat, 0, 77)] demo1 0 (MkCow 5 0 8192 None {[0 := 1%nat]}) 0
    (exec_all demoPeek demoPage demo1 [CevFork 0]) [] (exec_all demoPeek demoPage demo1 [CevFork 0])).
  - apply demo1_run.
  - by vm_compute.
  - by vm_compute.
  - apply demo1_fork.
  - by vm_compute.
  - apply cow_run_nil.
  - vm_compute. by eexists.
  - intros x. apply not_elem_of_nil.
  - intros x. apply not_elem_of_nil.
Defined.
Lemma cow_peek_witness : ∃ r, Cow_peekRange demoPeek demo1 0 16 0 = Ret r ∧ pr_isMutable r = true.
Proof.
  destruct (cow_peek demoPeek demoPage [(0%nat, 0, 77)] demo1 0 (MkCow 5 0 8192 None {[0 := 1%nat]}) 16 0) as (r & E & Em & _).
  - apply demo1_run.
  - by vm_compute.
  - by vm_compute.
  - unfold is_word. lia.
  - exists r. split; [done|]. rewrite Em. by vm_compute.
Defined.

(** A page that is locked but not copied hides the page of the chain: [fork] carries
    neither over, and the original and the fork lose what was written to it. *)
Definition demoHidden : list (cow_event Z) := [CevLock 0 0 4096; CevFork 0].
Lemma fork_forgets_chain : contents demoPage demo2 0 0 = Some 77 ∧
  contents demoPage (exec_all demoPeek demoPage demo2 [CevLock 0 0 4096]) 0 0 = Some 77 ∧
  contents demoPage (exec_all demoPeek demoPage demo2 demoHidden) 0 0 = Some 0 ∧
  contents demoPage (exec_all demoPeek demoPage demo2 demoHidden) 6 0 = Some 0.
Proof. by vm_compute. Qed.
(** Two concurrent forks: the second one settles a page that the first one has moved to
    its chain and that was copied and written again since; the new copy is dropped. *)
Definition demoTwoForks : list (cow_event Z) :=
  [CevTouch 0 0 1; CevFork 0; CevFork 0; CevCopy 4 8192; CevFinish 4; CevSettle 6; CevTouch 0 0 1; CevCopy 9 12288; CevFinish 9;
   CevWrite 0 0 55].
Lemma settle_drops_copy :
  contents demoPage (exec_all demoPeek demoPage demo2 demoTwoForks) 0 0 = Some 55 ∧
  contents demoPage (exec_all demoPeek demoPage demo2 (demoTwoForks ++ [CevSettle 8])) 0 0 = Some 77.
Proof. by vm_compute. Qed.
