(* ===== verification/PacketFilter.v ===== *)
(** * Packet filters

    The interpreter of classic BPF programs, [Bpf] of core/lib/bpf/bpf.cpp, and the raw
    sockets of the network server that filter packets with it, servers/netserver/src/raw.cpp.

    A program is validated once, when it is attached to a socket, and then runs on every
    packet.  The theorem about the validation is a type soundness theorem: the program
    counter stays within the program and a return instruction is reached. *)
From Stdlib Require Import ZArith Lia ZifyBool.
From stdpp Require Import base list numbers option.
From S2P Require Import Prelude.
Open Scope Z_scope.

Inductive Op :=
| ALU_ADD_X | ALU_AND_K | ALU_MUL_K | JMP_JEQ_K | JMP_JSET_K | LDX_W_IMM | LD_B_IND | LD_H_ABS | LD_H_IND | LD_W_ABS | LD_W_IND
| MISC_TAX | MISC_TXA | RET_A | RET_K | NEG.
#[export] Instance Op_eq_dec : EqDecision Op.
Proof. solve_decision. Defined.
Definition all_ops : list Op :=
  [ALU_ADD_X; ALU_AND_K; ALU_MUL_K; JMP_JEQ_K; JMP_JSET_K; LDX_W_IMM; LD_B_IND; LD_H_ABS; LD_H_IND; LD_W_ABS; LD_W_IND;
   MISC_TAX; MISC_TXA; RET_A; RET_K; NEG].

(** [struct sock_filter] of linux/filter.h. *)
Record sock_filter := MkInst { code : Z; jt : Z; jf : Z; k : Z }.
Definition inst_ok (i : sock_filter) : Prop := 0 ≤ jt i < 2 ^ 8 ∧ 0 ≤ jf i < 2 ^ 8 ∧ 0 ≤ k i < 2 ^ 32.

(** What the code takes from linux/filter.h: the numbers of the operations, which are
    distinct, and the layout of [sock_filter] as eight bytes. *)
Class FilterAbi := {
  op_code : Op → Z;
  sizeof_sock_filter : Z;
  to_prog : list Z → list sock_filter;
  op_code_inj : Inj (=) (=) op_code;
  sizeof_pos : 0 < sizeof_sock_filter;
  to_prog_length bytes : Z.of_nat (length (to_prog bytes)) = Z.of_nat (length bytes) / sizeof_sock_filter;
  to_prog_ok bytes : Forall (λ b, 0 ≤ b < 256) bytes → Forall inst_ok (to_prog bytes);
}.

Section bpf.
Context `{FilterAbi}.

(** [Op(inst.code)] as the case of a switch. *)
Definition to_op (c : Z) : option Op := list_find (λ o, op_code o = c) all_ops ≫= λ x, Some x.2.

Record Bpf := MkBpf { prog_ : list sock_filter; A : Z; X : Z }.
Definition Bpf_new (fprog : list Z) : Bpf := MkBpf (to_prog fprog) 0 0.

(** ** Validation *)
Definition validate_inst (size pc : Z) (inst : sock_filter) : bool :=
  match to_op (code inst) with
  | Some JMP_JEQ_K | Some JMP_JSET_K => negb ((size <=? pc + jt inst + 1) || (size <=? pc + jf inst + 1))
  | Some _ => true
  | None => false
  end.
Fixpoint validate_loop (size pc : Z) (insts : list sock_filter) : bool :=
  match insts with
  | [] => true
  | inst :: insts => validate_inst size pc inst && validate_loop size (pc + 1) insts
  end.
Definition is_ret (inst : sock_filter) : bool :=
  match to_op (code inst) with Some RET_K | Some RET_A => true | _ => false end.
Definition validate (b : Bpf) : bool :=
  negb (bool_decide (prog_ b = [])) && validate_loop (Z.of_nat (length (prog_ b))) 0 (prog_ b) &&
  match list.last (prog_ b) with Some inst => is_ret inst | None => false end.

(** ** Execution *)

(** Big-endian bytes. *)
Definition be_value (bytes : list Z) : Z := foldl (λ v b, v * 256 + b) 0 bytes.
Definition load (buffer : list Z) (size offset : Z) : outcome Z :=
  assert! offset + size <=? Z.of_nat (length buffer);
  Ret (be_value (take (Z.to_nat size) (drop (Z.to_nat offset) buffer))).

(** What one instruction does. *)
Inductive bpf_next := Return (v : Z) | Goto (pc a x : Z).
Definition step (buffer : list Z) (inst : sock_filter) (pc a x : Z) : outcome bpf_next :=
  match to_op (code inst) with
  | Some ALU_ADD_X => Ret (Goto pc (u32 (a + x)) x)
  | Some ALU_AND_K => Ret (Goto pc (Z.land a (k inst)) x)
  | Some ALU_MUL_K => Ret (Goto pc (u32 (a * k inst)) x)
  | Some JMP_JEQ_K => Ret (Goto (pc + if a =? k inst then jt inst else jf inst) a x)
  | Some JMP_JSET_K => Ret (Goto (pc + if Z.land a (k inst) =? 0 then jf inst else jt inst) a x)
  | Some LDX_W_IMM => Ret (Goto pc a (k inst))
  | Some LD_B_IND => v ← load buffer 1 (u32 (x + k inst)); Ret (Goto pc v x)
  | Some LD_H_ABS => v ← load buffer 2 (k inst); Ret (Goto pc v x)
  | Some LD_H_IND => v ← load buffer 2 (u32 (x + k inst)); Ret (Goto pc v x)
  | Some LD_W_ABS => v ← load buffer 4 (k inst); Ret (Goto pc v x)
  | Some LD_W_IND => v ← load buffer 4 (u32 (x + k inst)); Ret (Goto pc v x)
  | Some MISC_TAX => Ret (Goto pc a a)
  | Some MISC_TXA => Ret (Goto pc x x)
  | Some RET_K => Ret (Return (k inst))
  | Some RET_A => Ret (Return a)
  | Some NEG => Ret (Goto pc (u32 (- a)) x)
  | None => Ret (Goto pc a x)
  end.
Fixpoint run_loop (fuel : nat) (prog buffer : list _) (pc a x : Z) : outcome Z :=
  match fuel with
  | O => Stop OutOfFuel
  | S fuel =>
      if Z.of_nat (length prog) <=? pc then Stop AssertionFailed
      else
        inst ← arr_get prog pc;
        r ← step buffer inst pc a x;
        match r with
        | Return v => Ret v
        | Goto pc a x => run_loop fuel prog buffer (pc + 1) a x
        end
  end.
(** The program counter grows in every round. *)
Definition run (b : Bpf) (buffer : list Z) : outcome Z := run_loop (S (length (prog_ b))) (prog_ b) buffer 0 (A b) (X b).

(** ** The machine

    The meaning of a program without a program counter: a program is the list of the
    instructions that follow, and a jump drops some of them.  There is no rule for the
    empty list. *)
Definition alu (o : Op) (c a x : Z) : option (Z * Z) :=
  match o with
  | ALU_ADD_X => Some ((a + x) mod 2 ^ 32, x)
  | ALU_AND_K => Some (Z.land a c, x)
  | ALU_MUL_K => Some ((a * c) mod 2 ^ 32, x)
  | NEG => Some ((- a) mod 2 ^ 32, x)
  | LDX_W_IMM => Some (a, c)
  | MISC_TAX => Some (a, a)
  | MISC_TXA => Some (x, x)
  | _ => None
  end.
(** Size and offset of a load. *)
Definition access (o : Op) (c x : Z) : option (nat * Z) :=
  match o with
  | LD_B_IND => Some (1%nat, (x + c) mod 2 ^ 32)
  | LD_H_ABS => Some (2%nat, c)
  | LD_H_IND => Some (2%nat, (x + c) mod 2 ^ 32)
  | LD_W_ABS => Some (4%nat, c)
  | LD_W_IND => Some (4%nat, (x + c) mod 2 ^ 32)
  | _ => None
  end.
Definition condition (o : Op) (c a : Z) : option bool :=
  match o with
  | JMP_JEQ_K => Some (a =? c)
  | JMP_JSET_K => Some (negb (Z.land a c =? 0))
  | _ => None
  end.
Definition returned (o : Op) (c a : Z) : option Z := match o with RET_K => Some c | RET_A => Some a | _ => None end.

Inductive verdict := Accept (bytes : Z) | BadLoad.
Inductive evals (buffer : list Z) : list sock_filter → Z → Z → verdict → Prop :=
| ev_return inst rest o a x v : to_op (code inst) = Some o → returned o (k inst) a = Some v →
    evals buffer (inst :: rest) a x (Accept v)
| ev_alu inst rest o a x a' x' r : to_op (code inst) = Some o → alu o (k inst) a x = Some (a', x') →
    evals buffer rest a' x' r → evals buffer (inst :: rest) a x r
| ev_load inst rest o a x n offset bytes r : to_op (code inst) = Some o → access o (k inst) x = Some (n, offset) →
    take n (drop (Z.to_nat offset) buffer) = bytes → length bytes = n →
    evals buffer rest (be_value bytes) x r → evals buffer (inst :: rest) a x r
| ev_bad_load inst rest o a x n offset : to_op (code inst) = Some o → access o (k inst) x = Some (n, offset) →
    length (take n (drop (Z.to_nat offset) buffer)) ≠ n → evals buffer (inst :: rest) a x BadLoad
| ev_jump inst rest o a x b r : to_op (code inst) = Some o → condition o (k inst) a = Some b →
    evals buffer (drop (Z.to_nat (if b then jt inst else jf inst)) rest) a x r → evals buffer (inst :: rest) a x r.

(** *** Words *)
Definition word (z : Z) : Prop := 0 ≤ z < 2 ^ 32.
Lemma word_u32 z : word (u32 z).
Proof. apply u32_bound. Qed.
Lemma word_land a c : word a → word c → word (Z.land a c).
Proof.
  intros [Ha Ha'] [Hc Hc']. split; [apply Z.land_nonneg; by left|].
  destruct (decide (Z.land a c = 0)) as [->|Hn]; [lia|]. apply Z.log2_lt_cancel. rewrite Z.log2_pow2 by lia.
  eapply Z.le_lt_trans; [apply Z.log2_land; lia|]. apply Z.min_lt_iff. left.
  destruct (decide (a = 0)) as [->|Hz]; [cbn; lia|]. apply Z.log2_lt_pow2; lia.
Qed.
Lemma be_value_bound bytes : Forall (λ b, 0 ≤ b < 256) bytes → ∀ v, 0 ≤ v →
  0 ≤ foldl (λ v b, v * 256 + b) v bytes < (v + 1) * 256 ^ Z.of_nat (length bytes).
Proof.
  induction 1 as [|b bytes Hb _ IH]; intros v Hv; [cbn; lia|]. cbn [foldl length]. destruct (IH (v * 256 + b)) as [H0 H1]; [lia|].
  split; [done|]. eapply Z.lt_le_trans; [done|]. rewrite Nat2Z.inj_succ, Z.pow_succ_r by lia.
  pose proof (Z.pow_pos_nonneg 256 (Z.of_nat (length bytes)) ltac:(lia) ltac:(lia)). nia.
Qed.
Lemma word_be bytes : Forall (λ b, 0 ≤ b < 256) bytes → (length bytes ≤ 4)%nat → word (be_value bytes).
Proof.
  intros Hb Hl. destruct (be_value_bound bytes Hb 0 ltac:(lia)) as [H0 H1]. split; [done|]. eapply Z.lt_le_trans; [done|].
  change (2 ^ 32) with (256 ^ 4). rewrite Z.mul_1_l. apply Z.pow_le_mono_r; lia.
Qed.

(** *** Validation gives progress *)
Lemma to_op_ret inst : is_ret inst = true → ∃ o, to_op (code inst) = Some o ∧ (o = RET_K ∨ o = RET_A).
Proof. unfold is_ret. destruct (to_op (code inst)) as [[]|]; try done; eauto. Qed.

Section program.
Context (p buffer : list _) (Hp : Forall inst_ok p) (Hb : Forall (λ b, 0 ≤ b < 256) buffer).
Context (Hv : validate_loop (Z.of_nat (length p)) 0 p = true) (Hr : match list.last p with Some inst => is_ret inst | None => false end = true).

Lemma validate_at l : ∀ size pc, validate_loop size pc l = true → ∀ i inst, l !! i = Some inst → validate_inst size (pc + Z.of_nat i) inst = true.
Proof.
  induction l as [|inst0 l IH]; intros size pc E i inst Hi; [done|]. cbn in E. apply andb_true_iff in E as [E1 E2].
  destruct i as [|i]; cbn in Hi; [injection Hi as ->; by rewrite Z.add_0_r|].
  replace (pc + Z.of_nat (S i)) with (pc + 1 + Z.of_nat i) by lia. by apply IH.
Qed.
Lemma valid_at i inst : p !! i = Some inst → validate_inst (Z.of_nat (length p)) (Z.of_nat i) inst = true.
Proof. apply (validate_at p _ 0 Hv). Qed.
Lemma valid_op i inst : p !! i = Some inst → ∃ o, to_op (code inst) = Some o.
Proof. intros E. apply valid_at in E. unfold validate_inst in E. destruct (to_op (code inst)) as [o|]; [by exists o|done]. Qed.
(** Behind an instruction that does not return there is another one. *)
Lemma valid_next i inst : p !! i = Some inst → is_ret inst = false → (S i < length p)%nat.
Proof.
  intros E Hn. pose proof (lookup_lt_Some _ _ _ E) as Hlt. destruct (decide (S i = length p)) as [He|]; [|lia].
  rewrite last_lookup, <- He in Hr. cbn in Hr. rewrite E in Hr. congruence.
Qed.
Lemma valid_jump i inst o b a : p !! i = Some inst → to_op (code inst) = Some o → condition o (k inst) a = Some b →
  0 ≤ (if b then jt inst else jf inst) ∧ (i + 1 + Z.to_nat (if b then jt inst else jf inst) < length p)%nat.
Proof.
  intros E Eo Ec. pose proof (valid_at i inst E) as Hva. unfold validate_inst in Hva. rewrite Eo in Hva.
  apply (Forall_lookup_1 _ _ _ _ Hp) in E as (Hjt & Hjf & _).
  destruct o; try done; apply negb_true_iff, orb_false_iff in Hva as [H1 H2]; destruct b; lia.
Qed.

(** One instruction of the loop against the rules. *)
Lemma step_spec inst o pc a x : to_op (code inst) = Some o →
  step buffer inst pc a x =
    match returned o (k inst) a, alu o (k inst) a x, access o (k inst) x, condition o (k inst) a with
    | Some v, _, _, _ => Ret (Return v)
    | _, Some (a', x'), _, _ => Ret (Goto pc a' x')
    | _, _, Some (n, offset), _ => v ← load buffer (Z.of_nat n) offset; Ret (Goto pc v x)
    | _, _, _, Some b => Ret (Goto (pc + if b : bool then jt inst else jf inst) a x)
    | _, _, _, _ => Ret (Goto pc a x)
    end.
Proof. intros E. unfold step. rewrite E. destruct o; try done. cbn. by destruct (Z.land a (k inst) =? 0). Qed.
Lemma alu_word o c a x a' x' : word a → word x → word c → alu o c a x = Some (a', x') → word a' ∧ word x'.
Proof.
  intros Ha Hx Hc. destruct o; cbn; intros [= <- <-]; (split; [|done]) || split; try done; try apply word_u32. by apply word_land.
Qed.
Lemma is_ret_returned inst o a : to_op (code inst) = Some o → returned o (k inst) a = None → is_ret inst = false.
Proof. intros E. unfold is_ret. rewrite E. by destruct o. Qed.
Lemma load_spec n offset : (0 < n)%nat → 0 ≤ offset →
  (∃ bytes, take n (drop (Z.to_nat offset) buffer) = bytes ∧ length bytes = n ∧ load buffer (Z.of_nat n) offset = Ret (be_value bytes)) ∨
  (length (take n (drop (Z.to_nat offset) buffer)) ≠ n ∧ load buffer (Z.of_nat n) offset = Stop AssertionFailed).
Proof.
  intros Hn Ho. unfold load. rewrite length_take, length_drop.
  destruct (offset + Z.of_nat n <=? Z.of_nat (length buffer)) eqn:E; [left|right; by split; [lia|]].
  eexists. split; [done|]. rewrite Nat2Z.id. split; [|done]. rewrite length_take, length_drop. lia.
Qed.
Lemma access_bounds o c x n offset : word x → word c → access o c x = Some (n, offset) → (0 < n ≤ 4)%nat ∧ 0 ≤ offset.
Proof. intros [Hx _] [Hc _]. destruct o; cbn; intros [= <- <-]; (split; [lia|]); (done || apply Z.mod_pos_bound; lia). Qed.

Definition outcome_of (r : verdict) : outcome Z := match r with Accept v => Ret v | BadLoad => Stop AssertionFailed end.
Lemma run_loop_evals fuel : ∀ i a x, (i < length p)%nat → (length p - i ≤ fuel)%nat → word a → word x →
  ∃ r, evals buffer (drop i p) a x r ∧ run_loop fuel p buffer (Z.of_nat i) a x = outcome_of r ∧ ∀ v, r = Accept v → word v.
Proof.
  induction fuel as [|fuel IH]; intros i a x Hi Hf Ha Hx; [lia|]. cbn [run_loop].
  rewrite (proj2 (Z.leb_gt _ _)) by lia. destruct (lookup_lt_is_Some_2 p i Hi) as [inst E]. rewrite (drop_S p inst i E).
  unfold arr_get. rewrite decide_True, Nat2Z.id, E by lia. cbn [mbind outcome_bind].
  destruct (valid_op i inst E) as [o Eo]. rewrite (step_spec inst o) by done.
  pose proof (Forall_lookup_1 _ _ _ _ Hp E) as (_ & _ & Hk).
  assert (∀ j a' x', (i < j < length p)%nat → word a' → word x' → ∃ r, evals buffer (drop j p) a' x' r ∧
    run_loop fuel p buffer (Z.of_nat j) a' x' = outcome_of r ∧ ∀ v, r = Accept v → word v) as Hgo by (intros; apply IH; [lia|lia|done..]).
  destruct (returned o (k inst) a) as [v|] eqn:Er.
  { exists (Accept v). split; [by eapply ev_return|]. split; [done|]. intros v' [= <-]. by destruct o; try done; injection Er as <-. }
  pose proof (valid_next i inst E (is_ret_returned _ _ _ Eo Er)) as Hn.
  destruct (alu o (k inst) a x) as [[a' x']|] eqn:Ea.
  { destruct (alu_word _ _ _ _ _ _ Ha Hx Hk Ea) as [Ha' Hx']. destruct (Hgo (S i) a' x') as (r & Hev & Hrun & Hw); [lia|done..|].
    exists r. split; [by eapply ev_alu|]. cbn [mbind outcome_bind]. by replace (Z.of_nat i + 1) with (Z.of_nat (S i)) by lia. }
  destruct (access o (k inst) x) as [[n offset]|] eqn:Ec.
  { destruct (access_bounds _ _ _ _ _ Hx Hk Ec) as [Hn4 Hoff]. destruct (load_spec n offset ltac:(lia) Hoff) as [(bytes & Eb & El & ->)|[Hbad ->]].
    - destruct (Hgo (S i) (be_value bytes) x) as (r & Hev & Hrun & Hw); [lia| |done|].
      { apply word_be; [|lia]. subst bytes. by apply Forall_take, Forall_drop. }
      exists r. split; [by eapply ev_load|]. cbn [mbind outcome_bind]. by replace (Z.of_nat i + 1) with (Z.of_nat (S i)) by lia.
    - exists BadLoad. split; [by eapply ev_bad_load|done]. }
  destruct (condition o (k inst) a) as [b|] eqn:Ej; [|by destruct o].
  destruct (valid_jump i inst o b a E Eo Ej) as [Hj Hlt]. set (j := if b then jt inst else jf inst) in *.
  destruct (Hgo (i + 1 + Z.to_nat j)%nat a x) as (r & Hev & Hrun & Hw); [lia|done..|].
  exists r. split; [eapply ev_jump; [done..|]; fold j; rewrite drop_drop; by replace (S i + Z.to_nat j)%nat with (i + 1 + Z.to_nat j)%nat by lia|].
  cbn [mbind outcome_bind]. by replace (Z.of_nat i + j + 1) with (Z.of_nat (i + 1 + Z.to_nat j)) by lia.
Qed.
End program.

Lemma evals_det buffer p a x r : evals buffer p a x r → ∀ r', evals buffer p a x r' → r' = r.
Proof.
  induction 1; intros r' E'; inversion E'; subst; simplify_eq;
    repeat match goal with o : Op |- _ => destruct o; try discriminate end; simplify_eq; eauto.
Qed.

Lemma run_evals b buffer : Forall inst_ok (prog_ b) → word (A b) → word (X b) → Forall (λ v, 0 ≤ v < 256) buffer → validate b = true →
  ∃ r, evals buffer (prog_ b) (A b) (X b) r ∧ run b buffer = outcome_of r ∧ ∀ v, r = Accept v → word v.
Proof.
  intros Hp Ha Hx Hb Hv. unfold validate in Hv. apply andb_true_iff in Hv as [[Hne Hv]%andb_true_iff Hr]. unfold run.
  destruct (run_loop_evals (prog_ b) buffer Hp Hb Hv Hr (S (length (prog_ b))) 0 (A b) (X b)) as (r & Hev & Hrun & Hw); [|lia|done..|].
  - destruct (prog_ b); [done|cbn; lia].
  - exists r. by rewrite drop_0 in Hev.
Qed.
(** C29: A validated program has a meaning on every packet: the program counter never
    leaves the program, and a return instruction is reached unless a load reads behind
    the end of the packet.  [run] returns this verdict, a 32-bit number; the assertion
    that fails otherwise is the one of the load. *)
Theorem validated_runs b buffer : Forall inst_ok (prog_ b) → word (A b) → word (X b) → Forall (λ v, 0 ≤ v < 256) buffer → validate b = true →
  ∃ r, evals buffer (prog_ b) (A b) (X b) r ∧ (∀ r', evals buffer (prog_ b) (A b) (X b) r' → r' = r) ∧
    run b buffer = outcome_of r ∧ ∀ v, r = Accept v → word v.
Proof.
  intros Hp Ha Hx Hb Hv. destruct (run_evals b buffer Hp Ha Hx Hb Hv) as (r & Hev & Hrun & Hw). exists r.
  split; [done|]. split; [by apply evals_det|done].
Qed.

(** ** Raw sockets *)
Record PacketInfo := MkPacketInfo { len : Z; view : list Z }.
(** The two sequence numbers are not initialized by the code; they are arguments of the
    constructor here. *)
Record RawSocket := MkRaw {
  filterLocked_ : bool;
  packetAuxData_ : bool;
  filter_ : option (list Z);
  queue_ : list PacketInfo;
  _currentSeq : Z;
  _inSeq : Z;
}.
Definition RawSocket_new (currentSeq inSeq : Z) : RawSocket := MkRaw false false None [] currentSeq inSeq.

Definition SIZE_MAX : Z := 2 ^ 64 - 1.
(** One round of the loop of [Raw::feedPacket]. *)
Definition feed_socket (s : RawSocket) (frame : list Z) : outcome RawSocket :=
  accept_bytes ← match filter_ s with Some f => run (Bpf_new f) frame | None => Ret SIZE_MAX end;
  if accept_bytes =? 0 then Ret s
  else
    let size := Z.of_nat (length frame) in
    let info := MkPacketInfo size (take (Z.to_nat (Z.min size accept_bytes)) frame) in
    let seq := u64 (_currentSeq s + 1) in
    Ret (MkRaw (filterLocked_ s) (packetAuxData_ s) (filter_ s) (queue_ s ++ [info]) seq seq).
Fixpoint feedPacket (sockets : list RawSocket) (frame : list Z) : outcome (list RawSocket) :=
  match sockets with
  | [] => Ret []
  | s :: sockets => s ← feed_socket s frame; sockets ← feedPacket sockets frame; Ret (s :: sockets)
  end.

(** The data, the length of the packet and what of it was queued; nothing if there is no packet to receive. *)
Definition recvmsg (s : RawSocket) (max : Z) : option (list Z * option (Z * Z)) * RawSocket :=
  match queue_ s with
  | [] => (None, s)
  | element :: queue =>
      let data_len := Z.min max (Z.of_nat (length (view element))) in
      let aux := if packetAuxData_ s then Some (u32 (len element), u32 (Z.of_nat (length (view element)))) else None in
      (Some (take (Z.to_nat data_len) (view element), aux),
       MkRaw (filterLocked_ s) (packetAuxData_ s) (filter_ s) queue (_currentSeq s) (_inSeq s))
  end.

(** The options by layer and number; [opt] is the integer at the start of the buffer. *)
Inductive sockopt := SO_ATTACH_FILTER (optbuf : list Z) | SO_DETACH_FILTER | SO_LOCK_FILTER (opt : Z) | PACKET_AUXDATA (opt : Z) | unhandled.
Inductive rawError := raw_none | illegalArguments | insufficientPermissions | invalidProtocolOption.
Definition setSocketOption (s : RawSocket) (option : sockopt) : outcome (rawError * RawSocket) :=
  match option with
  | SO_ATTACH_FILTER optbuf =>
      assert! Z.of_nat (length optbuf) mod sizeof_sock_filter =? 0;
      if filterLocked_ s then Ret (insufficientPermissions, s)
      else if negb (validate (Bpf_new optbuf)) then Ret (illegalArguments, s)
      else Ret (raw_none, MkRaw (filterLocked_ s) (packetAuxData_ s) (Some optbuf) (queue_ s) (_currentSeq s) (_inSeq s))
  | SO_DETACH_FILTER =>
      if filterLocked_ s then Ret (insufficientPermissions, s)
      else Ret (raw_none, MkRaw (filterLocked_ s) (packetAuxData_ s) None (queue_ s) (_currentSeq s) (_inSeq s))
  | SO_LOCK_FILTER opt =>
      if (opt =? 0) && filterLocked_ s then Ret (insufficientPermissions, s)
      else Ret (raw_none, MkRaw true (packetAuxData_ s) (filter_ s) (queue_ s) (_currentSeq s) (_inSeq s))
  | PACKET_AUXDATA opt => Ret (raw_none, MkRaw (filterLocked_ s) (negb (opt =? 0)) (filter_ s) (queue_ s) (_currentSeq s) (_inSeq s))
  | unhandled => Ret (invalidProtocolOption, s)
  end.

(** *** What a socket delivers *)
Inductive raw_event := RawOption (o : sockopt) | RawFrame (frame : list Z) | RawReceive (max : Z).
Definition raw_exec (s : RawSocket) (e : raw_event) : outcome RawSocket :=
  match e with
  | RawOption o => '(_, s) ← setSocketOption s o; Ret s
  | RawFrame frame => feed_socket s frame
  | RawReceive max => Ret (recvmsg s max).2
  end.
Definition bytes_ok (bytes : list Z) : Prop := Forall (λ b, 0 ≤ b < 256) bytes.
Definition raw_event_ok (e : raw_event) : Prop :=
  match e with RawOption (SO_ATTACH_FILTER optbuf) => bytes_ok optbuf | RawFrame frame => bytes_ok frame | _ => True end.
Inductive raw_reachable : RawSocket → Prop :=
| raw_init currentSeq inSeq : raw_reachable (RawSocket_new currentSeq inSeq)
| raw_next s e s' : raw_reachable s → raw_event_ok e → raw_exec s e = Ret s' → raw_reachable s'.

Lemma feed_socket_filter s frame s' : feed_socket s frame = Ret s' → filter_ s' = filter_ s ∧ filterLocked_ s' = filterLocked_ s.
Proof. unfold feed_socket. intros E. inv_outcome. case_match; inv_outcome; by subst. Qed.
Lemma raw_attached s : raw_reachable s → ∀ f, filter_ s = Some f → bytes_ok f ∧ validate (Bpf_new f) = true.
Proof.
  induction 1 as [|s e s' _ IH He E]; intros f Hf; [done|]. destruct e as [o|frame|max]; cbn in E.
  - apply bind_Ret in E as ([err s1] & E & E1). injection E1 as <-. destruct o; cbn in E; inv_outcome; simplify_eq; try by apply IH.
    + destruct (filterLocked_ s); inv_outcome; simplify_eq; [by apply IH|]. destruct (validate _) eqn:Ev; cbn in *; simplify_eq; [|by apply IH].
      cbn in Hf. injection Hf as <-. done.
    + destruct (filterLocked_ s); simplify_eq; by apply IH.
    + destruct (_ && _); simplify_eq; by apply IH.
  - apply feed_socket_filter in E as [E _]. rewrite E in Hf. by apply IH.
  - injection E as <-. apply IH. unfold recvmsg in Hf. by destruct (queue_ s).
Qed.

(** A locked filter stays. *)
Lemma raw_locked s e s' : filterLocked_ s = true → raw_exec s e = Ret s' → filterLocked_ s' = true ∧ filter_ s' = filter_ s.
Proof.
  intros Hl E. destruct e as [o|frame|max]; cbn in E.
  - apply bind_Ret in E as ([err s1] & E & E1). injection E1 as <-. destruct o; cbn in E; rewrite ?Hl in E; inv_outcome; simplify_eq; try done.
    rewrite andb_true_r in E. by destruct (opt =? 0); simplify_eq.
  - apply feed_socket_filter in E as [-> ->]. done.
  - injection E as <-. unfold recvmsg. by destruct (queue_ s).
Qed.

(** What the filter of a socket says about a packet. *)
Definition verdict_on (s : RawSocket) (frame : list Z) (r : verdict) : Prop :=
  match filter_ s with Some f => evals frame (to_prog f) 0 0 r | None => r = Accept SIZE_MAX end.
Definition enqueue (s : RawSocket) (frame : list Z) (v : Z) : RawSocket :=
  MkRaw (filterLocked_ s) (packetAuxData_ s) (filter_ s)
    (queue_ s ++ [MkPacketInfo (Z.of_nat (length frame)) (take (Z.to_nat v) frame)]) (u64 (_currentSeq s + 1)) (u64 (_currentSeq s + 1)).
Lemma take_min (frame : list Z) (v : Z) : 0 ≤ v → take (Z.to_nat (Z.min (Z.of_nat (length frame)) v)) frame = take (Z.to_nat v) frame.
Proof.
  intros Hv. destruct (Z.min_spec (Z.of_nat (length frame)) v) as [[? ->]|[? ->]]; [|done]. rewrite Nat2Z.id, firstn_all, take_ge by lia. done.
Qed.
(** A raw socket delivers of each packet exactly as many bytes as its filter says, and
    nothing of a packet that the filter rejects; without a filter it delivers everything. *)
Theorem filtered_delivery s frame : raw_reachable s → bytes_ok frame →
  ∃ r, verdict_on s frame r ∧
    feed_socket s frame = match r with Accept v => Ret (if v =? 0 then s else enqueue s frame v) | BadLoad => Stop AssertionFailed end.
Proof.
  intros Hs Hb. unfold verdict_on, feed_socket. destruct (filter_ s) as [f|] eqn:Ef.
  - destruct (raw_attached s Hs f Ef) as [Hf Hv].
    destruct (run_evals (Bpf_new f) frame) as (r & Hev & -> & Hw); [by apply to_prog_ok|done..|].
    exists r. split; [done|]. destruct r as [v|]; [|done]. cbn [outcome_of mbind outcome_bind]. destruct (Hw v eq_refl) as [Hv0 _].
    destruct (v =? 0); [done|]. unfold enqueue. by rewrite take_min, Ef.
  - exists (Accept SIZE_MAX). split; [done|]. cbn [mbind outcome_bind]. unfold enqueue. by rewrite take_min, Ef.
Qed.
End bpf.

(** ** The numbers of Linux *)
Definition linux_code (o : Op) : Z :=
  match o with
  | ALU_ADD_X => 0x0c | ALU_AND_K => 0x54 | ALU_MUL_K => 0x24 | JMP_JEQ_K => 0x15 | JMP_JSET_K => 0x45 | LDX_W_IMM => 0x01
  | LD_B_IND => 0x50 | LD_H_ABS => 0x28 | LD_H_IND => 0x48 | LD_W_ABS => 0x20 | LD_W_IND => 0x40 | MISC_TAX => 0x07
  | MISC_TXA => 0x87 | RET_A => 0x16 | RET_K => 0x06 | NEG => 0x84
  end.
Fixpoint linux_prog (bytes : list Z) : list sock_filter :=
  match bytes with
  | c0 :: c1 :: t :: f :: k0 :: k1 :: k2 :: k3 :: bytes =>
      MkInst (c0 + 256 * c1) t f (k0 + 256 * (k1 + 256 * (k2 + 256 * k3))) :: linux_prog bytes
  | _ => []
  end.
Lemma linux_prog_ind (P : list Z → Prop) : (∀ l, (length l < 8)%nat → P l) →
  (∀ c0 c1 t f k0 k1 k2 k3 l, P l → P (c0 :: c1 :: t :: f :: k0 :: k1 :: k2 :: k3 :: l)) → ∀ l, P l.
Proof.
  intros Hs Hl l. remember (length l) as n eqn:En. revert l En. induction n as [n IH] using lt_wf_ind. intros l ->.
  destruct l as [|c0 [|c1 [|t [|f [|k0 [|k1 [|k2 [|k3 l]]]]]]]]; try (apply Hs; cbn; lia).
  apply Hl, (IH (length l)); [cbn; lia|done].
Qed.
Lemma linux_prog_short l : (length l < 8)%nat → linux_prog l = [].
Proof. intros Hl. do 8 (destruct l as [|? l]; [done|cbn in Hl]). lia. Qed.
Lemma linux_prog_length bytes : Z.of_nat (length (linux_prog bytes)) = Z.of_nat (length bytes) / 8.
Proof.
  induction bytes as [l Hl|c0 c1 t f k0 k1 k2 k3 l IH] using linux_prog_ind.
  - rewrite linux_prog_short by done. symmetry. apply Z.div_small. lia.
  - transitivity (Z.of_nat (length (linux_prog l)) + 1); [cbn [linux_prog length]; lia|]. rewrite IH.
    replace (Z.of_nat (length (c0 :: _))) with (Z.of_nat (length l) + 1 * 8) by (cbn [length]; lia). rewrite Z.div_add by lia. lia.
Qed.
Lemma linux_prog_ok bytes : Forall (λ b, 0 ≤ b < 256) bytes → Forall inst_ok (linux_prog bytes).
Proof.
  induction bytes as [l Hl|c0 c1 t f k0 k1 k2 k3 l IH] using linux_prog_ind; intros Hb.
  - by rewrite linux_prog_short.
  - cbn [linux_prog]. do 8 (apply list.Forall_cons in Hb as [? Hb]). constructor; [|by apply IH]. unfold inst_ok. cbn. lia.
Qed.
#[export] Instance linux_filter : FilterAbi.
Proof.
  refine {| op_code := linux_code; sizeof_sock_filter := 8; to_prog := linux_prog; to_prog_length := linux_prog_length; to_prog_ok := linux_prog_ok |}.
  - intros [] []; cbn; (done || discriminate).
  - lia.
Defined.

(** Accept the first 64 bytes of IPv4 packets: load the type of the Ethernet frame, compare
    it and return. *)
Definition ip_filter : list Z :=
  [0x28; 0; 0; 0; 12; 0; 0; 0;  0x15; 0; 0; 1; 0; 8; 0; 0;  0x06; 0; 0; 0; 64; 0; 0; 0;  0x06; 0; 0; 0; 0; 0; 0; 0].
Definition ip_frame : list Z := [1; 2; 3; 4; 5; 6; 7; 8; 9; 10; 11; 12; 8; 0; 69; 0].
Lemma validated_runs_witness : ∃ r, evals ip_frame (prog_ (Bpf_new ip_filter)) 0 0 r ∧ run (Bpf_new ip_filter) ip_frame = outcome_of r ∧ r = Accept 64.
Proof.
  destruct (validated_runs (Bpf_new ip_filter) ip_frame) as (r & Hev & _ & Hrun & _).
  - apply to_prog_ok. repeat constructor; lia.
  - unfold word. cbn. lia.
  - unfold word. cbn. lia.
  - repeat constructor; lia.
  - by vm_compute.
  - exists r. split; [done|]. split; [done|]. destruct r; vm_compute in Hrun; congruence.
Defined.
Definition ip_socket : RawSocket := MkRaw false false (Some ip_filter) [] 0 0.
Lemma ip_socket_reachable : raw_reachable ip_socket.
Proof.
  apply (raw_next (RawSocket_new 0 0) (RawOption (SO_ATTACH_FILTER ip_filter))); [apply raw_init| |by vm_compute].
  cbn. repeat constructor; lia.
Qed.
Lemma filtered_delivery_witness : ∃ r, verdict_on ip_socket ip_frame r ∧
  feed_socket ip_socket ip_frame = match r with Accept v => Ret (if v =? 0 then ip_socket else enqueue ip_socket ip_frame v) | BadLoad => Stop AssertionFailed end.
Proof. apply (filtered_delivery ip_socket ip_frame); [apply ip_socket_reachable|repeat constructor; lia]. Defined.

(** A packet that is shorter than what the filter reads stops the server. *)
Lemma short_packet_stops : validate (Bpf_new ip_filter) = true ∧ run (Bpf_new ip_filter) [1; 2; 3] = Stop AssertionFailed ∧
  feed_socket ip_socket [1; 2; 3] = Stop AssertionFailed.
Proof. by vm_compute. Qed.
(** Asking to unlock an unlocked filter locks it. *)
Lemma unlock_locks : setSocketOption (RawSocket_new 0 0) (SO_LOCK_FILTER 0) = Ret (raw_none, MkRaw true false None [] 0 0).
Proof. done. Qed.
