(* ===== verification/Checksum.v ===== *)
(** * The internet checksum

    [Checksum] of servers/netserver/src/ip/checksum.cpp, and integers as big-endian bytes.
    The checksum is the ones' complement sum of the 16-bit words of a message; a message
    that contains its own checksum sums up to zero. *)
From Stdlib Require Import ZArith Lia ZifyBool.
From stdpp Require Import base list numbers option.
From S2P Require Import Prelude.
Open Scope Z_scope.

Definition byte (b : Z) : Prop := 0 ≤ b < 2 ^ 8.
Definition bytes_ok (l : list Z) : Prop := Forall byte l.

(** ** The code *)

(** [while (state_ >> 16 != 0)]; the state has 32 bits, so that three rounds are enough. *)
Fixpoint fold_carries (fuel : nat) (state : Z) : Z :=
  match fuel with
  | O => state
  | S fuel => if Z.shiftr state 16 =? 0 then state else fold_carries fuel (Z.shiftr state 16 + Z.land state 0xffff)
  end.
Definition update_word (state word : Z) : Z := fold_carries 3 (u32 (state + word)).
Fixpoint update_words (state : Z) (data : list Z) : Z :=
  match data with
  | b0 :: b1 :: data => update_words (update_word state (Z.lor (Z.shiftl b0 8) b1)) data
  | _ => state
  end.
(** The last byte of a message of odd size goes first. *)
Definition update (state : Z) (data : list Z) : Z :=
  if Z.of_nat (length data) mod 2 =? 0 then update_words state data
  else
    let size := (length data - 1)%nat in
    update_words (update_word state (u16 (Z.shiftl (nth size data 0) 8))) (take size data).
Definition finalize (state : Z) : Z := u16 (Z.lnot state).

(** ** The sum of the words of a message, the last one padded with zero *)
Fixpoint word_sum (data : list Z) : Z :=
  match data with
  | b0 :: b1 :: data => b0 * 256 + b1 + word_sum data
  | [b0] => b0 * 256
  | [] => 0
  end.
(** Ones' complement representative of a sum: zero only for zero. *)
Definition ones_complement (s : Z) : Z := if s =? 0 then 0 else (s - 1) mod 65535 + 1.

Lemma ones_complement_range s : 0 ≤ s → 0 ≤ ones_complement s < 2 ^ 16.
Proof. intros. unfold ones_complement. case_Z; [lia|]. pose proof (Z.mod_pos_bound (s - 1) 65535 ltac:(lia)). lia. Qed.
Lemma ones_complement_small s : 0 ≤ s ≤ 65535 → ones_complement s = s.
Proof. intros. unfold ones_complement. case_Z; [lia|]. rewrite Z.mod_small by lia. lia. Qed.
Lemma ones_complement_fold s : 0 ≤ s → ones_complement (s / 65536 + s mod 65536) = ones_complement s.
Proof.
  intros. pose proof (Z.div_mod s 65536 ltac:(lia)) as Hd. pose proof (Z.mod_pos_bound s 65536 ltac:(lia)).
  assert (0 ≤ s / 65536) by (apply Z.div_pos; lia). unfold ones_complement.
  destruct (decide (s = 0)) as [->|Hs]; [done|].
  rewrite !(proj2 (Z.eqb_neq _ _)) by lia. f_equal.
  replace (s - 1) with (s / 65536 + s mod 65536 - 1 + s / 65536 * 65535) by lia. by rewrite Z.mod_add.
Qed.
Lemma ones_complement_add s t : 0 ≤ s → 0 ≤ t → ones_complement (ones_complement s + t) = ones_complement (s + t).
Proof.
  intros Hs Ht. unfold ones_complement at 2. destruct (Z.eqb_spec s 0) as [->|Hn]; [done|].
  pose proof (Z.mod_pos_bound (s - 1) 65535 ltac:(lia)). unfold ones_complement. rewrite !(proj2 (Z.eqb_neq _ _)) by lia. f_equal.
  replace ((s - 1) mod 65535 + 1 + t - 1) with ((s - 1) mod 65535 + t) by lia. rewrite Z.add_mod_idemp_l by lia. f_equal. lia.
Qed.

Lemma fold_carries_step s : 0 ≤ s → Z.shiftr s 16 + Z.land s 0xffff = s / 65536 + s mod 65536.
Proof. intros. rewrite shiftr_pow2 by lia. change 0xffff with (Z.ones 16). by rewrite Z.land_ones by lia. Qed.
Lemma fold_carries_spec fuel : ∀ s, 0 ≤ s → ones_complement (fold_carries fuel s) = ones_complement s ∧ 0 ≤ fold_carries fuel s.
Proof.
  induction fuel as [|fuel IH]; intros s Hs; cbn; [done|]. case_Z; [done|]. rewrite fold_carries_step by done.
  assert (0 ≤ s / 65536 + s mod 65536) by (pose proof (Z.mod_pos_bound s 65536); pose proof (Z.div_pos s 65536); lia).
  destruct (IH (s / 65536 + s mod 65536)) as [-> ?]; [done|]. split; [by apply ones_complement_fold|done].
Qed.
(** Three rounds are enough: the loop has ended. *)
Lemma fold_carries_done s : 0 ≤ s < 2 ^ 32 → fold_carries 3 s < 2 ^ 16.
Proof.
  intros Hs. pose proof (Z.mod_pos_bound s 65536 ltac:(lia)). pose proof (Z.div_pos s 65536 ltac:(lia) ltac:(lia)).
  assert (s / 65536 < 65536) by (apply Z.div_lt_upper_bound; lia).
  cbn [fold_carries]. rewrite fold_carries_step by lia. set (s1 := s / 65536 + s mod 65536).
  pose proof (Z.mod_pos_bound s1 65536 ltac:(lia)). pose proof (Z.div_pos s1 65536 ltac:(lia) ltac:(lia)).
  assert (s1 / 65536 < 2) by (apply Z.div_lt_upper_bound; lia). pose proof (Z.div_mod s1 65536 ltac:(lia)).
  rewrite fold_carries_step by lia. set (s2 := s1 / 65536 + s1 mod 65536).
  rewrite !shiftr_pow2 by lia. change (2 ^ 16) with 65536.
  destruct (Z.eqb_spec (s / 65536) 0) as [E|_]; [apply Z.div_small_iff in E; lia|].
  destruct (Z.eqb_spec (s1 / 65536) 0) as [E|E1]; [apply Z.div_small_iff in E; lia|].
  destruct (Z.eqb_spec (s2 / 65536) 0) as [E|E2]; [apply Z.div_small_iff in E; lia|]. exfalso. apply E2, Z.div_small. lia.
Qed.

Lemma update_word_spec s w : 0 ≤ s < 2 ^ 16 → 0 ≤ w < 2 ^ 16 → update_word s w = ones_complement (s + w).
Proof.
  intros Hs Hw. unfold update_word. rewrite u32_small by lia. destruct (fold_carries_spec 3 (s + w)) as [E H0]; [lia|].
  rewrite <- E. symmetry. apply ones_complement_small. pose proof (fold_carries_done (s + w)). lia.
Qed.
Lemma lor_shiftl_add a b n : 0 ≤ n → 0 ≤ b < 2 ^ n → Z.lor (Z.shiftl a n) b = a * 2 ^ n + b.
Proof.
  intros Hn Hb. assert (Z.land (Z.shiftl a n) b = 0) as Hl.
  { rewrite <- (Z.mod_small b (2 ^ n)), <- Z.land_ones, (Z.land_comm b), Z.land_assoc by lia.
    rewrite Z.land_ones, shiftl_pow2, Z.mod_mul by (pose proof (pow2_pos n); lia). apply Z.land_0_l. }
  rewrite <- Z.lxor_lor, <- Z.add_nocarry_lxor by done. by rewrite shiftl_pow2.
Qed.
Lemma word_bytes b0 b1 : byte b0 → byte b1 → Z.lor (Z.shiftl b0 8) b1 = b0 * 256 + b1.
Proof. intros _ H1. by apply lor_shiftl_add. Qed.

Lemma word_sum_nonneg data : bytes_ok data → 0 ≤ word_sum data.
Proof.
  revert data. fix IH 1. intros [|b0 [|b1 data]] H; cbn; [lia|..].
  - apply list.Forall_cons in H as [[H _] _]. lia.
  - apply list.Forall_cons in H as [[H0 _] H]. apply list.Forall_cons in H as [[H1 _] H]. specialize (IH data H). lia.
Qed.
Lemma update_words_spec data : bytes_ok data → Nat.Even (length data) → ∀ s, 0 ≤ s → update_words (ones_complement s) data = ones_complement (s + word_sum data).
Proof.
  revert data. fix IH 1. intros [|b0 [|b1 data]] H He s Hs; cbn [update_words word_sum].
  - by rewrite Z.add_0_r.
  - destruct He as [n He]. cbn in He. lia.
  - apply list.Forall_cons in H as [H0 H]. apply list.Forall_cons in H as [H1 H]. rewrite word_bytes by done. unfold byte in *.
    rewrite update_word_spec, ones_complement_add by (apply ones_complement_range || lia; lia).
    rewrite IH; [f_equal; lia|done| |lia]. destruct He as [n He]. exists (n - 1)%nat. cbn in He. lia.
Qed.
Lemma word_sum_app l l' : Nat.Even (length l) → word_sum (l ++ l') = word_sum l + word_sum l'.
Proof.
  revert l. fix IH 1. intros [|b0 [|b1 l]] He; cbn; [done|..].
  - destruct He as [n He]. cbn in He. lia.
  - rewrite IH; [lia|]. destruct He as [n He]. exists (n - 1)%nat. cbn in He. lia.
Qed.
(** [update] adds the words of the message in ones' complement. *)
Lemma update_spec data : bytes_ok data → ∀ s, 0 ≤ s → update (ones_complement s) data = ones_complement (s + word_sum data).
Proof.
  intros H s Hs. unfold update. destruct (Z.eqb_spec (Z.of_nat (length data) mod 2) 0) as [E|E].
  - apply update_words_spec; [done| |done]. exists (Z.to_nat (Z.of_nat (length data) / 2)).
    pose proof (Z.div_mod (Z.of_nat (length data)) 2 ltac:(lia)). lia.
  - destruct data as [|x data _] using rev_ind; [done|]. rewrite length_app in *. cbn [length] in *.
    replace (length data + 1 - 1)%nat with (length data) by lia. rewrite take_app_length, app_nth2, Nat.sub_diag by lia. cbn [nth].
    apply Forall_app in H as [H Hx]. apply list.Forall_cons in Hx as [Hx _]. unfold byte in Hx.
    assert (Nat.Even (length data)) as He.
    { exists (Z.to_nat (Z.of_nat (length data) / 2)). pose proof (Z.div_mod (Z.of_nat (length data)) 2 ltac:(lia)).
      pose proof (Z.mod_pos_bound (Z.of_nat (length data)) 2 ltac:(lia)).
      pose proof (Z.add_mod (Z.of_nat (length data)) 1 2 ltac:(lia)) as Hm. rewrite Nat2Z.inj_add in E. change (Z.of_nat 1) with 1 in E.
      rewrite Hm in E. destruct (Z.eq_dec (Z.of_nat (length data) mod 2) 1) as [E1|]; [rewrite E1 in E; done|lia]. }
    rewrite shiftl_pow2 by lia. change (2 ^ 8) with 256. unfold u16. rewrite wrap_small by lia.
    rewrite update_word_spec, ones_complement_add by (apply ones_complement_range || lia; lia).
    rewrite update_words_spec by (done || lia). rewrite word_sum_app by done. cbn. f_equal. lia.
Qed.
Lemma finalize_spec s : 0 ≤ s < 2 ^ 16 → finalize s = 65535 - s.
Proof. intros Hs. unfold finalize, Z.lnot. unfold u16, wrap. replace (Z.pred (- s)) with (65535 - s + (-1) * 2 ^ 16) by lia. rewrite Z.mod_add by lia. apply Z.mod_small. lia. Qed.

(** ** Buffers *)

(** [memcpy] to an offset of a buffer. *)
Definition write_at (d : list Z) (offset : Z) (chunk : list Z) : list Z :=
  take (Z.to_nat offset) d ++ chunk ++ drop (Z.to_nat offset + length chunk) d.
Lemma write_at_lookup (x : list Z) off chunk (j : nat) : 0 ≤ off → off + Z.of_nat (length chunk) ≤ Z.of_nat (length x) →
  write_at x off chunk !! j = if decide (off ≤ Z.of_nat j < off + Z.of_nat (length chunk)) then chunk !! (j - Z.to_nat off)%nat else x !! j.
Proof.
  intros H0 H1. unfold write_at. case_decide as Hd.
  - rewrite lookup_app_r by (rewrite length_take; lia). rewrite length_take, lookup_app_l by lia. f_equal. lia.
  - destruct (decide (Z.of_nat j < off)); [rewrite lookup_app_l by (rewrite length_take; lia); by rewrite lookup_take_lt by lia|].
    rewrite lookup_app_r by (rewrite length_take; lia). rewrite length_take, lookup_app_r by lia. rewrite lookup_drop. f_equal. lia.
Qed.
Lemma write_at_length (x : list Z) off chunk : 0 ≤ off → off + Z.of_nat (length chunk) ≤ Z.of_nat (length x) →
  length (write_at x off chunk) = length x.
Proof. intros. unfold write_at. rewrite !length_app, length_take, length_drop. lia. Qed.

(** ** Big-endian integers *)
Fixpoint be_bytes (n : nat) (v : Z) : list Z :=
  match n with O => [] | S n => be_bytes n (v / 256) ++ [v mod 256] end.
Definition be_value (data : list Z) : Z := foldl (λ v b, v * 256 + b) 0 data.

Lemma be_bytes_length n : ∀ v, length (be_bytes n v) = n.
Proof. induction n as [|n IH]; intros v; cbn; [done|]. rewrite length_app, IH. cbn. lia. Qed.
Lemma be_bytes_ok n : ∀ v, bytes_ok (be_bytes n v).
Proof.
  induction n as [|n IH]; intros v; cbn; [by constructor|]. apply Forall_app. split; [apply IH|]. constructor; [|done].
  apply Z.mod_pos_bound. lia.
Qed.
Lemma be_value_snoc data b : be_value (data ++ [b]) = be_value data * 256 + b.
Proof. unfold be_value. by rewrite foldl_snoc. Qed.
Lemma be_value_bytes n : ∀ v, 0 ≤ v < 256 ^ Z.of_nat n → be_value (be_bytes n v) = v.
Proof.
  induction n as [|n IH]; intros v Hv; cbn [be_bytes]; [cbn in *; lia|]. rewrite be_value_snoc, IH.
  - pose proof (Z.div_mod v 256 ltac:(lia)). lia.
  - rewrite Nat2Z.inj_succ, Z.pow_succ_r in Hv by lia. split; [apply Z.div_pos; lia|]. apply Z.div_lt_upper_bound; lia.
Qed.
Lemma be_bytes_value data : bytes_ok data → be_bytes (length data) (be_value data) = data.
Proof.
  induction data as [|b data IH] using rev_ind; intros H; [done|]. apply Forall_app in H as [H Hb]. apply list.Forall_cons in Hb as [Hb _].
  rewrite length_app, Nat.add_comm, be_value_snoc. cbn [length be_bytes Nat.add]. unfold byte in Hb.
  rewrite Z.div_add_l, (Z.div_small b 256), Z.add_0_r, IH by (done || lia). f_equal. f_equal.
  rewrite Z.add_comm, Z.mod_add by lia. apply Z.mod_small. lia.
Qed.
Lemma be_value_range data : bytes_ok data → 0 ≤ be_value data < 256 ^ Z.of_nat (length data).
Proof.
  induction data as [|b data IH] using rev_ind; intros H; [cbn; lia|]. apply Forall_app in H as [H Hb]. apply list.Forall_cons in Hb as [Hb _].
  rewrite length_app, be_value_snoc, Nat2Z.inj_add, Z.pow_add_r by lia. cbn [length]. unfold byte in Hb. specialize (IH H). lia.
Qed.

(** A message with its checksum in place of a zero word sums up to zero. *)
Lemma checksum_sums_up pre post s : Nat.Even (length pre) → bytes_ok pre → bytes_ok post → 0 ≤ s →
  let sum := finalize (update (ones_complement s) (pre ++ [0; 0] ++ post)) in
  0 ≤ sum < 2 ^ 16 ∧ finalize (update (ones_complement s) (pre ++ be_bytes 2 sum ++ post)) = 0.
Proof.
  intros He Hp Hq Hs sum. assert (bytes_ok (pre ++ [0; 0] ++ post)) as Hz by (apply Forall_app; split; [done|]; repeat constructor; done).
  pose proof (word_sum_nonneg _ Hp). pose proof (word_sum_nonneg _ Hq). set (t := s + word_sum pre + word_sum post) in *.
  assert (sum = 65535 - ones_complement t) as Esum.
  { unfold sum. rewrite update_spec, finalize_spec by (done || apply ones_complement_range; rewrite word_sum_app by done; cbn; lia).
    rewrite word_sum_app by done. cbn. f_equal. f_equal. lia. }
  pose proof (ones_complement_range t ltac:(lia)) as Hr. split; [lia|].
  assert (bytes_ok (pre ++ be_bytes 2 sum ++ post)) as Hb by (apply Forall_app; split; [done|]; apply Forall_app; split; [apply be_bytes_ok|done]).
  rewrite update_spec, word_sum_app by done.
  assert (word_sum (be_bytes 2 sum ++ post) = sum + word_sum post) as ->.
  { cbn. rewrite (Z.mod_small (sum / 256)) by (split; [apply Z.div_pos; lia|apply Z.div_lt_upper_bound; lia]).
    pose proof (Z.div_mod sum 256 ltac:(lia)). lia. }
  replace (s + (word_sum pre + (sum + word_sum post))) with (t + sum) by lia.
  rewrite <- ones_complement_add, Esum by lia. replace (ones_complement t + (65535 - ones_complement t)) with 65535 by lia. done.
Qed.
