(* ===== verification/Ip4.v ===== *)
(** * IPv4: fragmentation and reassembly

    [Ip4Packet::parse], [Ip4::sendFrame], [Ip4::feedPacket] and the timer of the fragments
    of servers/netserver/src/ip/ip4.cpp.  The link layer (allocating and sending frames,
    resolving MAC addresses) is left out: [sendFrame] returns the IP packets that it sends.
    What a view of a DMA buffer does when it is asked for a part that reaches behind its
    end is a parameter. *)
From Stdlib Require Import ZArith Lia ZifyBool.
From stdpp Require Import base list numbers option gmap fin_maps.
From S2P Require Import Prelude Checksum.
Open Scope Z_scope.

Record Ip4Header := MkHeader {
  ihl : Z; tos : Z; hlength : Z; ident : Z; flags_offset : Z; ttl : Z; protocol : Z; checksum : Z; source : Z; destination : Z;
}.
Definition sizeof_header : Z := 20.
(** The bytes of a header in network order. *)
Definition header_bytes (h : Ip4Header) : list Z :=
  [ihl h; tos h] ++ be_bytes 2 (hlength h) ++ be_bytes 2 (ident h) ++ be_bytes 2 (flags_offset h) ++ [ttl h; protocol h] ++
  be_bytes 2 (checksum h) ++ be_bytes 4 (source h) ++ be_bytes 4 (destination h).
Definition field (data : list Z) (offset size : nat) : Z := be_value (take size (drop offset data)).
Definition read_header (data : list Z) : Ip4Header :=
  MkHeader (field data 0 1) (field data 1 1) (field data 2 2) (field data 4 2) (field data 6 2) (field data 8 1) (field data 9 1)
    (field data 10 2) (field data 12 4) (field data 16 4).
Definition set_ihl (h : Ip4Header) (v : Z) : Ip4Header :=
  MkHeader v (tos h) (hlength h) (ident h) (flags_offset h) (ttl h) (protocol h) (checksum h) (source h) (destination h).
Definition set_checksum (h : Ip4Header) (v : Z) : Ip4Header :=
  MkHeader (ihl h) (tos h) (hlength h) (ident h) (flags_offset h) (ttl h) (protocol h) v (source h) (destination h).
(** A header with its checksum filled in. *)
Definition sealed (h : Ip4Header) : list Z := header_bytes (set_checksum h (finalize (update 0 (header_bytes (set_checksum h 0))))).

Record Ip4Packet := MkPacket { header : Ip4Header; data : list Z }.
Definition payload (p : Ip4Packet) : list Z := drop (Z.to_nat (ihl (header p) * 4)) (data p).

Section ip4.
Context (badView : list Z → Z → outcome (list Z)).

(** [data.subview(0, size)] *)
Definition subview (d : list Z) (size : Z) : outcome (list Z) :=
  if size <=? Z.of_nat (length d) then Ret (take (Z.to_nat size) d) else badView d size.

Definition parse (frame : list Z) (resizeData : bool) : outcome (option Ip4Packet) :=
  if Z.of_nat (length frame) <? sizeof_header then Ret None
  else
    let h := read_header frame in
    if negb (Z.land (ihl h) 0xf0 =? 0x40) then Ret None
    else
      let h := set_ihl h (Z.land (ihl h) 0x0f) in
      d ← (if resizeData then subview frame (hlength h) else Ret frame);
      if Z.of_nat (length d) <? ihl h * 4 then Ret None
      else
        let sum := finalize (update 0 (take (Z.to_nat (ihl h * 4)) d)) in
        if negb (sum =? 0) && negb (sum =? 0xFFFF) then Ret None
        else Ret (Some (MkPacket h d)).

(** ** Fragments *)
Record FragmentedPacket := MkFragmented {
  fp_data : list Z;
  fragments : gmap Z Z;
  packetReceivedTimerTick : Z;
  lastReceived : bool;
}.
Definition RouteId : Type := Z * Z * Z.
Record FragmentRouteInfo := MkRoute {
  receivedPackets : gmap Z FragmentedPacket;
  sendIdent : Z;
  lastAccessedTimerTick : Z;
}.
(** [sockets] are the protocols of the raw sockets. *)
Record Ip4 := MkIp4 {
  fragmentRoutes : gmap RouteId FragmentRouteInfo;
  fragmentTimerTick : Z;
  sockets : list Z;
}.
Definition set_route (s : Ip4) (id : RouteId) (r : FragmentRouteInfo) : Ip4 :=
  MkIp4 (<[id := r]> (fragmentRoutes s)) (fragmentTimerTick s) (sockets s).
Definition set_packets (r : FragmentRouteInfo) (ps : gmap Z FragmentedPacket) : FragmentRouteInfo :=
  MkRoute ps (sendIdent r) (lastAccessedTimerTick r).

(** [getOrCreateFragmentRoute_]; a new route starts with a random identifier. *)
Definition getOrCreateFragmentRoute_ (s : Ip4) (id : RouteId) (random : Z) : FragmentRouteInfo * Ip4 :=
  let r := match fragmentRoutes s !! id with
           | Some r => MkRoute (receivedPackets r) (sendIdent r) (fragmentTimerTick s)
           | None => MkRoute ∅ random (fragmentTimerTick s)
           end in
  (r, set_route s id r).

(** ** Sending *)
Record Ip4TargetInfo := MkTarget { remote : Z; ti_source : Z; route_mtu : Z; link_mtu : Z; rawIp : bool }.
Inductive sendError := send_none | hostUnreachable | messageSize.
Definition ip4FlagMoreFragments : Z := 1.

Fixpoint send_loop (fuel : nat) (originalHdr : Ip4Header) (fragment8Bytes : Z) (d : list Z) (progress : Z) : outcome (list (list Z)) :=
  match fuel with
  | O => Stop OutOfFuel
  | S fuel =>
      let len := Z.of_nat (length d) in
      let fragmentLength := Z.min (len - progress) (fragment8Bytes * 8) in
      let last := fragmentLength =? len - progress in
      let flags := if last then flags_offset originalHdr else u16 (Z.lor (flags_offset originalHdr) (Z.shiftl ip4FlagMoreFragments 13)) in
      let hdr := MkHeader (ihl originalHdr) (tos originalHdr) (u16 (fragmentLength + sizeof_header)) (ident originalHdr)
                   (u16 (Z.lor flags (progress / 8))) (ttl originalHdr) (protocol originalHdr) 0 (source originalHdr) (destination originalHdr) in
      let frame := sealed hdr ++ take (Z.to_nat fragmentLength) (drop (Z.to_nat progress) d) in
      let progress := progress + fragmentLength in
      if progress <? len then frames ← send_loop fuel originalHdr fragment8Bytes d progress; Ret (frame :: frames)
      else Ret [frame]
  end.

Definition fragment_mtu (ti : Ip4TargetInfo) (len : Z) : Z :=
  let mtu := len + sizeof_header in
  let mtu := if negb (route_mtu ti =? 0) && (route_mtu ti <? mtu) then route_mtu ti else mtu in
  if link_mtu ti <? mtu then link_mtu ti else mtu.
Definition send_header (ti : Ip4TargetInfo) (proto n : Z) : Ip4Header := MkHeader 0x45 0 0 n 0 64 (u8 proto) 0 (ti_source ti) (remote ti).

(** [resolved]: the MAC address of the target is known. *)
Definition sendFrame (s : Ip4) (ti : Ip4TargetInfo) (resolved : bool) (random : Z) (d : list Z) (proto : Z) :
    outcome (sendError * list (list Z) * Ip4) :=
  let len := Z.of_nat (length d) in
  let fragmentMtu := fragment_mtu ti len in
  if negb (rawIp ti) && negb resolved then Ret (hostUnreachable, [], s)
  else if fragmentMtu <? sizeof_header + 8 then Ret (messageSize, [], s)
  else
    let fragment8Bytes := (fragmentMtu - sizeof_header) / 8 in
    if len <=? fragmentMtu - sizeof_header then
      frames ← send_loop (S (length d)) (send_header ti proto 0) (fragment8Bytes + 1) d 0;
      Ret (send_none, frames, s)
    else
      let id := (ti_source ti, remote ti, u8 proto) in
      let '(r, s) := getOrCreateFragmentRoute_ s id random in
      let s := set_route s id (MkRoute (receivedPackets r) (u16 (sendIdent r + 1)) (lastAccessedTimerTick r)) in
      frames ← send_loop (S (length d)) (send_header ti proto (sendIdent r)) fragment8Bytes d 0;
      Ret (send_none, frames, s).

(** ** Receiving *)
Definition overlaps (offset size : Z) (existing : Z * Z) : bool :=
  (offset <? existing.1 + existing.2) && (existing.1 <? offset + size).
Fixpoint complete_loop (fuel : nat) (p : FragmentedPacket) (progress : Z) : outcome bool :=
  match fuel with
  | O => Stop OutOfFuel
  | S fuel =>
      if progress <? Z.of_nat (length (fp_data p)) then
        match fragments p !! progress with
        | None => Ret false
        | Some size => complete_loop fuel p (u32 (progress + size))
        end
      else Ret true
  end.
(** The fragment goes to the packet; the result is the whole payload once it is complete. *)
Inductive fragment_result := Rejected (p : FragmentedPacket) | Incomplete (p : FragmentedPacket) | Complete (d : list Z).
Definition add_fragment (p : FragmentedPacket) (offset : Z) (chunk : list Z) (more : bool) : outcome fragment_result :=
  let size := Z.of_nat (length chunk) in
  if negb (size =? 0) && existsb (overlaps offset size) (map_to_list (fragments p)) then Ret (Rejected p)
  else
    fs ← (if size =? 0 then Ret (fragments p)
          else assert! bool_decide (fragments p !! offset = None); Ret (<[offset := size]> (fragments p)));
    let p := MkFragmented (fp_data p) fs (packetReceivedTimerTick p) (lastReceived p) in
    let finish := u32 (offset + size) in
    if (Z.of_nat (length (fp_data p)) <? finish) && lastReceived p then Ret (Rejected p)
    else
      let d := if Z.of_nat (length (fp_data p)) <? finish
               then fp_data p ++ replicate (Z.to_nat finish - length (fp_data p)) 0 else fp_data p in
      let p := MkFragmented (write_at d offset chunk) fs (packetReceivedTimerTick p) (lastReceived p) in
      if negb more && lastReceived p then Ret (Rejected p)
      else
        let p := MkFragmented (fp_data p) fs (packetReceivedTimerTick p) (lastReceived p || negb more) in
        if lastReceived p then
          complete ← complete_loop (S (length (fp_data p))) p 0;
          Ret (if complete : bool then Complete (fp_data p) else Incomplete p)
        else Ret (Incomplete p).

Definition more_fragments (h : Ip4Header) : bool := negb (Z.land (u8 (Z.shiftr (flags_offset h) 13)) ip4FlagMoreFragments =? 0).
Definition fragment_offset (h : Ip4Header) : Z := Z.land (flags_offset h) 0x1fff.
Definition is_fragment (h : Ip4Header) : bool := negb (fragment_offset h =? 0) || more_fragments h.
Definition route_id (h : Ip4Header) : RouteId := (source h, destination h, protocol h).
Definition new_fragmented (tick : Z) : FragmentedPacket := MkFragmented [] ∅ tick false.
Definition IpProto_tcp : Z := 6.
Definition IpProto_udp : Z := 17.
Definition assembled_header (h : Ip4Header) (d : list Z) : Ip4Header :=
  MkHeader 0x45 (tos h) (Z.min (Z.of_nat (length d) + sizeof_header) 65535) (ident h) 0 (ttl h) (protocol h) 0 (source h) (destination h).

(** The packet that goes to the protocols and to the raw sockets, if there is one. *)
Definition feedPacket (s : Ip4) (frame : list Z) (random : Z) : outcome (option Ip4Packet * Ip4) :=
  parsed ← parse frame true;
  match parsed with
  | None => Ret (None, s)
  | Some hdr =>
      let h := header hdr in
      if negb (existsb (λ proto, protocol h <=? proto) (sockets s)) && negb (protocol h =? IpProto_udp) && negb (protocol h =? IpProto_tcp)
      then Ret (None, s)
      else if is_fragment h then
        let '(route, s) := getOrCreateFragmentRoute_ s (route_id h) random in
        let p := default (new_fragmented (fragmentTimerTick s)) (receivedPackets route !! ident h) in
        r ← add_fragment p (fragment_offset h * 8) (payload hdr) (more_fragments h);
        match r with
        | Rejected p | Incomplete p => Ret (None, set_route s (route_id h) (set_packets route (<[ident h := p]> (receivedPackets route))))
        | Complete d =>
            parsed ← parse (sealed (assembled_header h d) ++ d) false;
            assert! bool_decide (is_Some parsed);
            Ret (parsed, set_route s (route_id h) (set_packets route (delete (ident h) (receivedPackets route))))
        end
      else Ret (Some hdr, s)
  end.

(** One round of [fragmentTimer_]. *)
Definition fragmentRouteExpiryTimeoutTicks : Z := 4.
Definition tick_route (tick : Z) (r : FragmentRouteInfo) : option FragmentRouteInfo :=
  if lastAccessedTimerTick r + fragmentRouteExpiryTimeoutTicks <? tick then None
  else Some (set_packets r (filter (λ kp, packetReceivedTimerTick kp.2 = tick) (receivedPackets r))).
Definition fragmentTimer_ (s : Ip4) : Ip4 :=
  MkIp4 (omap (tick_route (fragmentTimerTick s)) (fragmentRoutes s)) (u64 (fragmentTimerTick s + 1)) (sockets s).
End ip4.

(** ** Headers *)
Record header_ok (h : Ip4Header) : Prop := {
  hk_ihl : byte (ihl h); hk_tos : byte (tos h); hk_length : 0 ≤ hlength h < 2 ^ 16; hk_ident : 0 ≤ ident h < 2 ^ 16;
  hk_flags : 0 ≤ flags_offset h < 2 ^ 16; hk_ttl : byte (ttl h); hk_protocol : byte (protocol h); hk_checksum : 0 ≤ checksum h < 2 ^ 16;
  hk_source : 0 ≤ source h < 2 ^ 32; hk_destination : 0 ≤ destination h < 2 ^ 32;
}.
Lemma header_bytes_length h : length (header_bytes h) = 20%nat.
Proof. done. Qed.
Lemma bytes_ok_pair a b : byte a → byte b → bytes_ok [a; b].
Proof. intros Ha Hb. apply list.Forall_cons. split; [done|]. apply list.Forall_cons. split; [done|]. by apply Forall_nil. Qed.
Lemma header_bytes_ok h : header_ok h → bytes_ok (header_bytes h).
Proof.
  intros []. unfold header_bytes. apply Forall_app; split; [by apply bytes_ok_pair|]. do 3 (apply Forall_app; split; [apply be_bytes_ok|]).
  apply Forall_app; split; [by apply bytes_ok_pair|]. do 2 (apply Forall_app; split; [apply be_bytes_ok|]). apply be_bytes_ok.
Qed.
Lemma field_at pre n v post : 0 ≤ v < 256 ^ Z.of_nat n → field (pre ++ be_bytes n v ++ post) (length pre) n = v.
Proof. intros Hv. unfold field. rewrite drop_app_length, take_app_le, take_ge by (rewrite be_bytes_length; lia). by apply be_value_bytes. Qed.
Lemma field_byte pre v post : field (pre ++ [v] ++ post) (length pre) 1 = v.
Proof. unfold field. by rewrite drop_app_length. Qed.
Lemma read_header_bytes h rest : header_ok h → read_header (header_bytes h ++ rest) = h.
Proof.
  intros []. unfold read_header. set (b := header_bytes h ++ rest).
  set (p1 := [ihl h; tos h] ++ be_bytes 2 (hlength h)). set (p2 := p1 ++ be_bytes 2 (ident h)).
  set (p3 := p2 ++ be_bytes 2 (flags_offset h)). set (p4 := p3 ++ [ttl h; protocol h]). set (p5 := p4 ++ be_bytes 2 (checksum h)).
  rewrite (field_byte [] (ihl h) _ : field b 0 1 = _), (field_byte [ihl h] (tos h) _ : field b 1 1 = _),
    (field_at [ihl h; tos h] 2 (hlength h) _ ltac:(done) : field b 2 2 = _), (field_at p1 2 (ident h) _ ltac:(done) : field b 4 2 = _),
    (field_at p2 2 (flags_offset h) _ ltac:(done) : field b 6 2 = _), (field_byte p3 (ttl h) _ : field b 8 1 = _),
    (field_byte (p3 ++ [ttl h]) (protocol h) _ : field b 9 1 = _), (field_at p4 2 (checksum h) _ ltac:(done) : field b 10 2 = _),
    (field_at p5 4 (source h) _ ltac:(done) : field b 12 4 = _),
    (field_at (p5 ++ be_bytes 4 (source h)) 4 (destination h) rest ltac:(done) : field b 16 4 = _).
  by destruct h.
Qed.

(** A sealed header is accepted, with its fields. *)
Lemma sealed_split h : ∃ pre post, Nat.Even (length pre) ∧ length pre = 10%nat ∧
  ∀ c, header_bytes (set_checksum h c) = pre ++ be_bytes 2 c ++ post.
Proof.
  exists ([ihl h; tos h] ++ be_bytes 2 (hlength h) ++ be_bytes 2 (ident h) ++ be_bytes 2 (flags_offset h) ++ [ttl h; protocol h]),
    (be_bytes 4 (source h) ++ be_bytes 4 (destination h)). split; [by exists 5%nat|]. split; [done|]. intros c. done.
Qed.
Lemma sealed_sum h : header_ok h → 0 ≤ finalize (update 0 (header_bytes (set_checksum h 0))) < 2 ^ 16 ∧ finalize (update 0 (sealed h)) = 0.
Proof.
  intros H. destruct (sealed_split h) as (pre & post & He & _ & Ec). unfold sealed. rewrite !Ec.
  assert (bytes_ok (pre ++ be_bytes 2 0 ++ post)) as Hb by (rewrite <- Ec; apply header_bytes_ok; destruct H; by split).
  apply Forall_app in Hb as [Hp Hb]. apply Forall_app in Hb as [_ Hq]. by apply (checksum_sums_up pre post 0).
Qed.
Lemma sealed_ok h : header_ok h → header_ok (set_checksum h (finalize (update 0 (header_bytes (set_checksum h 0))))).
Proof. intros H. destruct (sealed_sum h H) as [Hs _]. by destruct H; split. Qed.
Definition received_header (h : Ip4Header) : Ip4Header :=
  set_ihl (set_checksum h (finalize (update 0 (header_bytes (set_checksum h 0))))) 5.
Lemma sealed_length h : length (sealed h) = 20%nat.
Proof. done. Qed.
Opaque sealed.
Lemma parse_sealed badView h chunk resize : header_ok h → ihl h = 0x45 →
  (resize = true → hlength h = 20 + Z.of_nat (length chunk)) →
  parse badView (sealed h ++ chunk) resize = Ret (Some (MkPacket (received_header h) (sealed h ++ chunk))).
Proof.
  intros H Hi Hl. unfold parse. rewrite length_app, sealed_length, (proj2 (Z.ltb_ge _ _)) by (unfold sizeof_header; lia).
  assert (read_header (sealed h ++ chunk) = set_checksum h (finalize (update 0 (header_bytes (set_checksum h 0))))) as ->
    by (apply read_header_bytes; by apply sealed_ok).
  set (sum := finalize (update 0 (header_bytes (set_checksum h 0)))). unfold received_header. fold sum.
  assert (ihl (set_checksum h sum) = 0x45) as -> by done. change (negb (Z.land 0x45 0xf0 =? 0x40)) with false. change (Z.land 0x45 0x0f) with 5.
  cbv zeta iota beta. set (h' := set_ihl (set_checksum h sum) 5).
  assert ((if resize then subview badView (sealed h ++ chunk) (hlength h') else Ret (sealed h ++ chunk)) = Ret (sealed h ++ chunk)) as ->.
  { destruct resize; [|done]. unfold subview. change (hlength h') with (hlength h). rewrite length_app, sealed_length, Hl by done.
    rewrite (proj2 (Z.leb_le _ _)) by lia. by rewrite take_ge by (rewrite length_app, sealed_length; lia). }
  cbn [mbind outcome_bind]. rewrite length_app, sealed_length. change (ihl h' * 4) with 20. rewrite (proj2 (Z.ltb_ge _ _)) by lia.
  change (Z.to_nat 20) with 20%nat. rewrite <- (sealed_length h) at 1. rewrite take_app_length. by rewrite (proj2 (sealed_sum h H)).
Qed.
Lemma payload_sealed h chunk : payload (MkPacket (received_header h) (sealed h ++ chunk)) = chunk.
Proof. unfold payload. cbn [header data]. change (Z.to_nat (ihl (received_header h) * 4)) with 20%nat. rewrite <- (sealed_length h). apply drop_app_length. Qed.

(** ** The fragments of a payload *)
Section fragmented.
Context (h0 : Ip4Header) (d : list Z) (unit8 : Z).
Hypothesis Hh : header_ok h0.
Hypothesis Hihl : ihl h0 = 0x45.
Hypothesis Hflags : flags_offset h0 = 0.
Hypothesis Hunit : 0 < unit8.
Hypothesis Hsize : unit8 * 8 + 20 < 2 ^ 16.
Hypothesis Hlen : 0 < Z.of_nat (length d) < 2 ^ 16.
Let len : Z := Z.of_nat (length d).
Let F : Z := unit8 * 8.

Definition frag_start (i : Z) : Z := i * (unit8 * 8).
Definition frag_size (i : Z) : Z := Z.min (Z.of_nat (length d) - i * (unit8 * 8)) (unit8 * 8).
Definition frag_last (i : Z) : bool := frag_size i =? Z.of_nat (length d) - i * (unit8 * 8).
Definition frag_chunk (i : Z) : list Z := take (Z.to_nat (frag_size i)) (drop (Z.to_nat (frag_start i)) d).
Definition frag_header (i : Z) : Ip4Header :=
  MkHeader (ihl h0) (tos h0) (frag_size i + 20) (ident h0) ((if frag_last i then 0 else 2 ^ 13) + i * unit8) (ttl h0) (protocol h0) 0
    (source h0) (destination h0).
Definition frag_frame (i : Z) : list Z := sealed (frag_header i) ++ frag_chunk i.
Definition frag_count : Z := (Z.of_nat (length d) + unit8 * 8 - 1) / (unit8 * 8).
Definition frag_index (i : Z) : Prop := 0 ≤ i < frag_count.

Lemma frag_index_iff i : frag_index i ↔ 0 ≤ i ∧ frag_start i < len.
Proof.
  unfold frag_index, frag_count, frag_start, len. split; intros [H0 H1]; (split; [done|]).
  - assert (i + 1 ≤ (Z.of_nat (length d) + unit8 * 8 - 1) / (unit8 * 8)) as H by lia.
    apply (Z.mul_le_mono_nonneg_l _ _ (unit8 * 8)) in H; [|lia].
    pose proof (Z.mul_div_le (Z.of_nat (length d) + unit8 * 8 - 1) (unit8 * 8) ltac:(lia)). lia.
  - assert (i + 1 ≤ (Z.of_nat (length d) + unit8 * 8 - 1) / (unit8 * 8)); [|lia]. apply Z.div_le_lower_bound; lia.
Qed.
Lemma frag_size_pos i : frag_index i → 0 < frag_size i ≤ F ∧ frag_start i + frag_size i ≤ len.
Proof. rewrite frag_index_iff. unfold frag_size, frag_start, len, F. lia. Qed.
Lemma frag_chunk_length i : frag_index i → Z.of_nat (length (frag_chunk i)) = frag_size i.
Proof.
  intros H. pose proof (frag_size_pos i H). apply frag_index_iff in H. unfold frag_chunk. rewrite length_take, length_drop. unfold len, frag_start in *. lia.
Qed.
Lemma frag_last_iff i : frag_index i → frag_last i = true ↔ i + 1 = frag_count.
Proof.
  intros H. unfold frag_last. rewrite Z.eqb_eq. pose proof (frag_size_pos i H) as [Hs _]. pose proof H as [_ Hi].
  split; intros E.
  - destruct (decide (i + 1 < frag_count)) as [Hlt|]; [|lia]. assert (frag_index (i + 1)) as [_ H1]%frag_index_iff by (split; destruct H; lia).
    unfold frag_start, frag_size, len, F in *. lia.
  - assert (¬ frag_index (i + 1)) as Hn by (unfold frag_index; lia). rewrite frag_index_iff in Hn. destruct H as [H0 _].
    unfold frag_start, frag_size, len, F in *. lia.
Qed.
Lemma frag_offset_small i : frag_index i → 0 ≤ i * unit8 < 2 ^ 13.
Proof. intros [H0 H1]%frag_index_iff. unfold frag_start, len in *. lia. Qed.
Lemma frag_header_ok i : frag_index i → header_ok (frag_header i).
Proof.
  intros H. pose proof (frag_size_pos i H). pose proof (frag_offset_small i H). unfold F in *. destruct Hh.
  split; cbn [frag_header ihl tos hlength ident flags_offset ttl protocol checksum source destination]; try done; try lia.
  destruct (frag_last i); lia.
Qed.
Lemma lor_flag x : 0 ≤ x < 2 ^ 13 → Z.lor (2 ^ 13) x = 2 ^ 13 + x.
Proof. intros Hx. change (2 ^ 13) with (Z.shiftl 1 13) at 1. by rewrite lor_shiftl_add. Qed.

Lemma send_loop_frames fuel : ∀ i, frag_index i → len - frag_start i < Z.of_nat fuel →
  send_loop fuel h0 unit8 d (frag_start i) = Ret (frag_frame <$> seqZ i (frag_count - i)).
Proof.
  induction fuel as [|fuel IH]; intros i Hi Hf; [apply frag_index_iff in Hi; lia|]. cbn [send_loop].
  pose proof (frag_size_pos i Hi) as [Hs Hend]. pose proof (frag_offset_small i Hi) as Ho.
  change (Z.min (Z.of_nat (length d) - frag_start i) (unit8 * 8)) with (frag_size i).
  assert (frag_start i / 8 = i * unit8) as -> by (unfold frag_start; rewrite Z.mul_assoc; by apply Z.div_mul).
  rewrite Hflags. change (u16 (Z.lor 0 (Z.shiftl ip4FlagMoreFragments 13))) with (2 ^ 13).
  change (frag_size i =? Z.of_nat (length d) - frag_start i) with (frag_last i).
  assert (u16 (Z.lor (if frag_last i then 0 else 2 ^ 13) (i * unit8)) = (if frag_last i then 0 else 2 ^ 13) + i * unit8) as ->.
  { unfold u16. destruct (frag_last i); [rewrite Z.lor_0_l|rewrite lor_flag by done]; rewrite wrap_small by lia; lia. }
  assert (u16 (frag_size i + sizeof_header) = frag_size i + 20) as -> by (unfold u16, sizeof_header; rewrite wrap_small; unfold F in *; lia).
  fold (frag_header i). fold (frag_chunk i). fold (frag_frame i). fold len.
  destruct (frag_last i) eqn:El.
  - pose proof El as El'. apply frag_last_iff in El'; [|done]. unfold frag_last in El. apply Z.eqb_eq in El.
    rewrite (proj2 (Z.ltb_ge _ _)) by (unfold frag_start, len in *; lia). replace (frag_count - i) with (Z.succ 0) by lia.
    by rewrite seqZ_cons by lia.
  - assert (i + 1 < frag_count) as Hlt.
    { destruct (decide (i + 1 = frag_count)) as [E|]; [apply frag_last_iff in E; [congruence|done]|destruct Hi; lia]. }
    assert (frag_index (i + 1)) as Hi' by (split; destruct Hi; lia).
    assert (frag_size i = F) as Es by (unfold frag_last in El; apply Z.eqb_neq in El; unfold frag_size, F in *; lia).
    assert (frag_start i + frag_size i = frag_start (i + 1)) as -> by (rewrite Es; unfold frag_start, F; lia).
    pose proof Hi' as [_ H1]%frag_index_iff. rewrite (proj2 (Z.ltb_lt _ _)) by lia. rewrite IH; [|done|unfold frag_start in *; lia].
    cbn [mbind outcome_bind]. rewrite (seqZ_cons i) by lia. cbn [fmap list_fmap]. by replace (Z.pred (frag_count - i)) with (frag_count - (i + 1)) by lia.
Qed.

(** ** Reassembly *)
Lemma frag_start_inj i j : frag_start i = frag_start j → i = j.
Proof. unfold frag_start. nia. Qed.
Lemma frag_disjoint i j : frag_index i → frag_index j → i ≠ j →
  overlaps (frag_start i) (frag_size i) (frag_start j, frag_size j) = false.
Proof.
  intros Hi Hj Hn. pose proof (frag_size_pos i Hi). pose proof (frag_size_pos j Hj). unfold overlaps. cbn. apply andb_false_iff.
  unfold frag_start, F in *. destruct (decide (i < j)); [right|left]; apply Z.ltb_ge; nia.
Qed.
Lemma frag_chunk_lookup i (j : nat) : frag_index i → frag_start i ≤ Z.of_nat j < frag_start i + frag_size i →
  frag_chunk i !! (j - Z.to_nat (frag_start i))%nat = d !! j.
Proof.
  intros Hi Hj. assert (0 ≤ frag_start i) by (destruct Hi; unfold frag_start; nia). unfold frag_chunk.
  rewrite lookup_take_lt, lookup_drop by lia. f_equal. lia.
Qed.
(** The packet holds the fragments [got]. *)
Record partial (got : gset Z) (p : FragmentedPacket) : Prop := {
  pt_index i : i ∈ got → frag_index i;
  pt_fragments off size : fragments p !! off = Some size ↔ ∃ i, i ∈ got ∧ off = frag_start i ∧ size = frag_size i;
  pt_last : lastReceived p = bool_decide (frag_count - 1 ∈ got);
  pt_bound i : i ∈ got → frag_start i + frag_size i ≤ Z.of_nat (length (fp_data p));
  pt_size : Z.of_nat (length (fp_data p)) ≤ Z.of_nat (length d);
  pt_data i (j : nat) : i ∈ got → frag_start i ≤ Z.of_nat j < frag_start i + frag_size i → fp_data p !! j = d !! j;
}.
Lemma partial_empty tick : partial ∅ (new_fragmented tick).
Proof.
  split; cbn; [set_solver| | |set_solver|lia|set_solver].
  - intros off size. split; [intros E; by rewrite lookup_empty in E|set_solver].
  - symmetry. apply bool_decide_eq_false_2. set_solver.
Qed.
Lemma frag_ends i : frag_index i → frag_last i = true → frag_start i + frag_size i = len.
Proof. intros Hi El. unfold frag_last in El. apply Z.eqb_eq in El. unfold frag_start, len. lia. Qed.
Lemma partial_full got p : partial got p → frag_count - 1 ∈ got → Z.of_nat (length (fp_data p)) = len.
Proof.
  intros P Hin. pose proof (pt_index _ _ P _ Hin) as Hi. pose proof (pt_bound _ _ P _ Hin). pose proof (pt_size _ _ P).
  assert (frag_last (frag_count - 1) = true) as El by (apply frag_last_iff; [done|lia]). pose proof (frag_ends _ Hi El). lia.
Qed.

(** The loop over the fragments of a packet whose last one has arrived. *)
Lemma complete_loop_spec got p fuel : partial got p → frag_count - 1 ∈ got →
  ∀ i, 0 ≤ i ≤ frag_count → Z.max 0 (len - frag_start i) < Z.of_nat fuel →
  ∃ b, complete_loop fuel p (Z.min (frag_start i) len) = Ret b ∧ (b = true ↔ ∀ j, i ≤ j < frag_count → j ∈ got).
Proof.
  intros P Hlast. pose proof (partial_full got p P Hlast) as Hfull.
  induction fuel as [|fuel IH]; intros i Hi Hf; [lia|]. cbn [complete_loop]. rewrite Hfull.
  destruct (decide (i = frag_count)) as [Ei|Hn].
  { exists true. assert (¬ frag_index i) as Hx by (unfold frag_index; lia). rewrite frag_index_iff in Hx.
    rewrite (proj2 (Z.ltb_ge _ _)) by lia. split; [done|]. split; [lia|done]. }
  assert (frag_index i) as Hix by (split; lia). pose proof Hix as [_ Hlt]%frag_index_iff. rewrite (Z.min_l (frag_start i)) by lia.
  rewrite (proj2 (Z.ltb_lt _ _)) by lia. destruct (fragments p !! frag_start i) as [size|] eqn:Ef.
  - apply (pt_fragments _ _ P) in Ef as (k & Hk & Es%frag_start_inj & ->). subst k. pose proof (frag_size_pos i Hix) as [Hs He].
    assert (0 ≤ frag_start i) by (unfold frag_start; nia).
    assert (u32 (frag_start i + frag_size i) = Z.min (frag_start (i + 1)) len) as ->.
    { rewrite u32_small by (unfold len in *; lia). unfold frag_start, frag_size, len in *. lia. }
    destruct (IH (i + 1)) as (b & -> & Hb); [lia|unfold frag_start in *; lia|]. exists b. split; [done|]. rewrite Hb. split; intros Hj j Hij.
    + destruct (decide (j = i)) as [->|]; [done|]. apply Hj. lia.
    + apply Hj. lia.
  - exists false. split; [done|]. split; [done|]. intros Hj. exfalso.
    assert (fragments p !! frag_start i = Some (frag_size i)) as E by (apply (pt_fragments _ _ P); exists i; split; [apply Hj; lia|done]). congruence.
Qed.
Lemma partial_complete got p : partial got p → (∀ j, 0 ≤ j < frag_count → j ∈ got) → fp_data p = d.
Proof.
  intros P Hall. assert (0 < frag_count) as Hc by (assert (frag_index 0) as [_ ?]; [apply frag_index_iff; unfold frag_start; lia|done]).
  pose proof (partial_full got p P (Hall (frag_count - 1) ltac:(lia))) as Hfull. apply list_eq. intros j.
  destruct (decide (j < length d)%nat) as [Hj|Hj]; [|rewrite !lookup_ge_None_2; [done|lia|unfold len in *; lia]].
  set (i := Z.of_nat j / (unit8 * 8)). pose proof (Z.div_mod (Z.of_nat j) (unit8 * 8) ltac:(lia)) as Hd. fold i in Hd.
  pose proof (Z.mod_pos_bound (Z.of_nat j) (unit8 * 8) ltac:(lia)). assert (0 ≤ i) by (apply Z.div_pos; lia).
  assert (frag_index i) as Hi by (apply frag_index_iff; unfold frag_start, len; lia).
  apply (pt_data _ _ P i); [by apply Hall|]. unfold frag_start, frag_size. lia.
Qed.

(** A fragment that is already there is rejected. *)
Lemma add_known got p i : partial got p → i ∈ got → add_fragment p (frag_start i) (frag_chunk i) (negb (frag_last i)) = Ret (Rejected p).
Proof.
  intros P Hi. pose proof (pt_index _ _ P i Hi) as Hix. pose proof (frag_size_pos i Hix) as [Hs _]. unfold add_fragment.
  rewrite frag_chunk_length by done. rewrite (proj2 (Z.eqb_neq _ _)) by lia. cbn [negb andb].
  assert (existsb (overlaps (frag_start i) (frag_size i)) (map_to_list (fragments p)) = true) as ->; [|done].
  apply existsb_exists. exists (frag_start i, frag_size i). split; [|unfold overlaps; cbn; lia].
  apply list_elem_of_In, elem_of_map_to_list. apply (pt_fragments _ _ P). by exists i.
Qed.
(** The packet after a new fragment. *)
Definition with_fragment (p : FragmentedPacket) (i : Z) : FragmentedPacket :=
  let finish := frag_start i + frag_size i in
  let x := if Z.of_nat (length (fp_data p)) <? finish then fp_data p ++ replicate (Z.to_nat finish - length (fp_data p)) 0 else fp_data p in
  MkFragmented (write_at x (frag_start i) (frag_chunk i)) (<[frag_start i := frag_size i]> (fragments p)) (packetReceivedTimerTick p)
    (lastReceived p || frag_last i).
Lemma with_fragment_partial got p i : partial got p → frag_index i → i ∉ got → partial (got ∪ {[i]}) (with_fragment p i).
Proof.
  intros P Hix Hi. pose proof (frag_size_pos i Hix) as [Hs He]. assert (0 ≤ frag_start i) by (destruct Hix; unfold frag_start; nia).
  pose proof (frag_chunk_length i Hix) as Hcl. pose proof (pt_size _ _ P) as Hsz.
  set (finish := frag_start i + frag_size i). set (x := if Z.of_nat (length (fp_data p)) <? finish then
    fp_data p ++ replicate (Z.to_nat finish - length (fp_data p)) 0 else fp_data p).
  assert (Z.of_nat (length x) = Z.max (Z.of_nat (length (fp_data p))) finish) as Hx.
  { unfold x. destruct (Z.ltb_spec (Z.of_nat (length (fp_data p))) finish); [rewrite length_app, length_replicate|]; lia. }
  assert (∀ j y, fp_data p !! j = Some y → x !! j = Some y) as Hpre.
  { intros j y Hy. unfold x. destruct (_ <? _); [|done]. by apply lookup_app_l_Some. }
  split; unfold with_fragment; cbn [fragments lastReceived fp_data]; fold finish; fold x.
  - intros k. rewrite elem_of_union, elem_of_singleton. intros [Hk|Hk]; [by apply (pt_index _ _ P)|by subst k].
  - intros off size. rewrite lookup_insert. case_decide as Hd.
    + subst off. split; [intros [= <-]; exists i; split; [set_solver|done]|]. intros (k & _ & Ek%frag_start_inj & ->). by subst k.
    + rewrite (pt_fragments _ _ P). split; intros (k & Hk & -> & ->); exists k; (split; [set_solver + Hk Hd|done]).
  - rewrite (pt_last _ _ P). destruct (frag_last i) eqn:El.
    + rewrite orb_true_r. symmetry. apply bool_decide_eq_true_2. apply frag_last_iff in El; [|done]. replace (frag_count - 1) with i by lia. set_solver.
    + rewrite orb_false_r. apply bool_decide_ext. rewrite elem_of_union, elem_of_singleton. split; [by left|]. intros [?|Hc]; [done|].
      assert (frag_last i = true) by (apply frag_last_iff; [done|lia]). congruence.
  - intros k. rewrite write_at_length by (done || unfold finish in *; lia). rewrite elem_of_union, elem_of_singleton.
    intros [Hk|Hk]; [pose proof (pt_bound _ _ P k Hk); lia|]. subst k. unfold finish in *. lia.
  - rewrite write_at_length by (done || unfold finish in *; lia). unfold finish, len in *. lia.
  - intros k j. rewrite elem_of_union, elem_of_singleton. intros Hk Hj. rewrite write_at_lookup by (done || unfold finish in *; lia). rewrite Hcl.
    case_decide as Hd; [by apply frag_chunk_lookup|]. destruct Hk as [Hk|Hk]; [|subst k; done].
    pose proof (pt_bound _ _ P k Hk). destruct (lookup_lt_is_Some_2 (fp_data p) j) as [y Ey]; [lia|].
    rewrite (Hpre j y Ey), <- Ey. by apply (pt_data _ _ P k).
Qed.

Lemma no_overlap got p i : partial got p → frag_index i → i ∉ got → existsb (overlaps (frag_start i) (frag_size i)) (map_to_list (fragments p)) = false.
Proof.
  intros P Hix Hi. apply not_true_iff_false. intros E. apply existsb_exists in E as ([off size] & Hin & Ho).
  apply list_elem_of_In, elem_of_map_to_list, (pt_fragments _ _ P) in Hin as (k & Hk & -> & ->).
  rewrite frag_disjoint in Ho; [done|done|by apply (pt_index _ _ P)|congruence].
Qed.
Lemma no_key got p i : partial got p → i ∉ got → fragments p !! frag_start i = None.
Proof.
  intros P Hi. destruct (fragments p !! frag_start i) as [size|] eqn:E; [|done].
  apply (pt_fragments _ _ P) in E as (k & Hk & Ek%frag_start_inj & _). congruence.
Qed.
(** A new fragment completes the packet if it is the last one that was missing. *)
Lemma add_new got p i : partial got p → frag_index i → i ∉ got →
  ∃ r, add_fragment p (frag_start i) (frag_chunk i) (negb (frag_last i)) = Ret r ∧
    ((∀ j, 0 ≤ j < frag_count → j ∈ got ∪ {[i]}) → r = Complete d) ∧
    (∀ j, 0 ≤ j < frag_count → j ∉ got ∪ {[i]} → r = Incomplete (with_fragment p i)).
Proof.
  intros P Hix Hi. pose proof (with_fragment_partial got p i P Hix Hi) as P'. pose proof (frag_size_pos i Hix) as [Hs He].
  assert (0 ≤ frag_start i) by (destruct Hix; unfold frag_start; nia).
  unfold add_fragment. rewrite frag_chunk_length by done. rewrite (no_overlap got p i), andb_false_r by done.
  rewrite (proj2 (Z.eqb_neq (frag_size i) 0)) by lia. rewrite (no_key got p i) by done. rewrite bool_decide_eq_true_2 by done.
  rewrite assert_bind by done. cbn [mbind outcome_bind fp_data lastReceived packetReceivedTimerTick]. rewrite u32_small by (unfold len in *; lia).
  assert (lastReceived p = true → Z.of_nat (length (fp_data p)) = len ∧ frag_last i = false) as Hlr.
  { intros El. rewrite (pt_last _ _ P) in El. apply bool_decide_eq_true in El. split; [by apply (partial_full got)|].
    apply not_true_iff_false. intros E%frag_last_iff; [|done]. replace (frag_count - 1) with i in El by lia. done. }
  assert ((Z.of_nat (length (fp_data p)) <? frag_start i + frag_size i) && lastReceived p = false) as ->.
  { destruct (lastReceived p); [|apply andb_false_r]. destruct (Hlr eq_refl) as [-> _]. rewrite andb_true_r. lia. }
  assert (negb (negb (frag_last i)) && lastReceived p = false) as ->.
  { rewrite negb_involutive. destruct (lastReceived p); [|apply andb_false_r]. destruct (Hlr eq_refl) as [_ ->]. done. }
  rewrite negb_involutive. fold (with_fragment p i).
  change (lastReceived p || frag_last i) with (lastReceived (with_fragment p i)). destruct (lastReceived (with_fragment p i)) eqn:El.
  - rewrite (pt_last _ _ P') in El. apply bool_decide_eq_true in El.
    destruct (complete_loop_spec _ _ (S (length (fp_data (with_fragment p i)))) P' El 0) as (b & Eb & Hb).
    { assert (frag_index 0) as [? ?]; [apply frag_index_iff; unfold frag_start, len; lia|lia]. }
    { pose proof (partial_full _ _ P' El). unfold frag_start. lia. }
    change (Z.min (frag_start 0) len) with (Z.min 0 len) in Eb. rewrite Z.min_l in Eb by (unfold len; lia).
    eexists. split; [unfold with_fragment in Eb |- *; cbn [fp_data] in *; rewrite Eb; done|].
    split; [intros Hall; destruct Hb as [_ Hb]; rewrite Hb by done; f_equal; apply (partial_complete (got ∪ {[i]}) (with_fragment p i) P' Hall)|].
    intros j Hj Hn. destruct b; [|done]. destruct Hn. by apply Hb.
  - eexists. split; [done|]. split; [|done]. intros Hall. exfalso. rewrite (pt_last _ _ P') in El.
    apply bool_decide_eq_false in El. apply El, Hall. destruct Hix. lia.
Qed.

(** *** Packets *)
Lemma frag_flags i : frag_index i → fragment_offset (received_header (frag_header i)) = i * unit8 ∧
  more_fragments (received_header (frag_header i)) = negb (frag_last i).
Proof.
  intros Hi. pose proof (frag_offset_small i Hi) as Ho. unfold fragment_offset, more_fragments.
  change (flags_offset (received_header (frag_header i))) with ((if frag_last i then 0 else 2 ^ 13) + i * unit8).
  change 0x1fff with (Z.ones 13). rewrite Z.land_ones, shiftr_pow2 by lia. unfold ip4FlagMoreFragments. destruct (frag_last i).
  - rewrite Z.add_0_l, Z.mod_small, Z.div_small by lia. done.
  - replace (2 ^ 13 + i * unit8) with (i * unit8 + 1 * 2 ^ 13) by lia. rewrite Z.mod_add, Z.div_add, Z.mod_small, Z.div_small by lia. done.
Qed.
Lemma frag_is_fragment i : frag_index i → 1 < frag_count → is_fragment (received_header (frag_header i)) = true.
Proof.
  intros Hi Hc. destruct (frag_flags i Hi) as [E1 E2]. unfold is_fragment. rewrite E1, E2. destruct (decide (i = 0)) as [->|].
  - destruct (frag_last 0) eqn:El; [apply frag_last_iff in El; [lia|done]|done].
  - rewrite (proj2 (Z.eqb_neq _ _)); [done|]. nia.
Qed.
Definition our_route : RouteId := (source h0, destination h0, protocol h0).
(** What the receiver has of the packet. *)
Definition entry (s : Ip4) : option FragmentedPacket := r ← fragmentRoutes s !! our_route; receivedPackets r !! ident h0.
Definition holds (s : Ip4) (got : gset Z) : Prop := match entry s with Some p => partial got p | None => got = ∅ end.
Definition accepted (s : Ip4) : bool :=
  existsb (λ proto, protocol h0 <=? proto) (sockets s) || (protocol h0 =? IpProto_udp) || (protocol h0 =? IpProto_tcp).
Definition delivered (pkt : Ip4Packet) : Prop :=
  payload pkt = d ∧ source (header pkt) = source h0 ∧ destination (header pkt) = destination h0 ∧ protocol (header pkt) = protocol h0.

Lemma feed_fragment badView s i random : frag_index i → 1 < frag_count → accepted s = true →
  feedPacket badView s (frag_frame i) random =
    let '(route, s) := getOrCreateFragmentRoute_ s our_route random in
    r ← add_fragment (default (new_fragmented (fragmentTimerTick s)) (receivedPackets route !! ident h0)) (frag_start i) (frag_chunk i) (negb (frag_last i));
    match r with
    | Rejected p | Incomplete p => Ret (None, set_route s our_route (set_packets route (<[ident h0 := p]> (receivedPackets route))))
    | Complete x =>
        parsed ← parse badView (sealed (assembled_header (received_header (frag_header i)) x) ++ x) false;
        assert! bool_decide (is_Some parsed);
        Ret (parsed, set_route s our_route (set_packets route (delete (ident h0) (receivedPackets route))))
    end.
Proof.
  intros Hi Hc Ha. unfold feedPacket, frag_frame.
  rewrite parse_sealed; [|by apply frag_header_ok|done|intros _; rewrite frag_chunk_length by done; cbn; lia].
  cbn [mbind outcome_bind header]. change (protocol (received_header (frag_header i))) with (protocol h0).
  assert (negb (existsb (λ proto, protocol h0 <=? proto) (sockets s)) && negb (protocol h0 =? IpProto_udp) && negb (protocol h0 =? IpProto_tcp) = false) as ->.
  { rewrite <- !negb_orb. unfold accepted in Ha. by rewrite Ha. }
  rewrite frag_is_fragment, payload_sealed by done. destruct (frag_flags i Hi) as [-> ->].
  change (route_id (received_header (frag_header i))) with our_route. change (ident (received_header (frag_header i))) with (ident h0).
  replace (i * unit8 * 8) with (frag_start i) by (unfold frag_start; lia). done.
Qed.
Lemma entry_set s r : entry (set_route s our_route r) = receivedPackets r !! ident h0.
Proof. unfold entry, set_route. cbn. by rewrite lookup_insert, decide_True. Qed.
Lemma route_entry s random : receivedPackets (getOrCreateFragmentRoute_ s our_route random).1 !! ident h0 = entry s.
Proof. unfold getOrCreateFragmentRoute_, entry. cbn. destruct (fragmentRoutes s !! our_route); [done|]. cbn. by rewrite lookup_empty. Qed.

Lemma assembled_ok i : header_ok (assembled_header (received_header (frag_header i)) d).
Proof. destruct Hh. split; cbn; try done; unfold sizeof_header; lia. Qed.

(** The fragments that have come survive the next round of the timer. *)
Definition fresh (s : Ip4) : Prop :=
  ∀ r p, fragmentRoutes s !! our_route = Some r → receivedPackets r !! ident h0 = Some p →
    packetReceivedTimerTick p = fragmentTimerTick s ∧ lastAccessedTimerTick r = fragmentTimerTick s.
Lemma fresh_empty s : entry s = None → fresh s.
Proof. intros He r p Hr Hp. unfold entry in He. rewrite Hr in He. cbn in He. congruence. Qed.
Lemma fresh_packet s p random : fresh s →
  default (new_fragmented (fragmentTimerTick s)) (receivedPackets (getOrCreateFragmentRoute_ s our_route random).1 !! ident h0) = p →
  packetReceivedTimerTick p = fragmentTimerTick s.
Proof.
  intros Hf <-. unfold getOrCreateFragmentRoute_. cbn. destruct (fragmentRoutes s !! our_route) as [r|] eqn:Er; cbn; [|done].
  destruct (receivedPackets r !! ident h0) as [p|] eqn:Ep; cbn; [|done]. by destruct (Hf r p).
Qed.
Lemma fresh_set s r p : receivedPackets r !! ident h0 = Some p → packetReceivedTimerTick p = fragmentTimerTick s →
  lastAccessedTimerTick r = fragmentTimerTick s → fresh (set_route s our_route r).
Proof. intros Hp H1 H2 r' p'. cbn. rewrite lookup_insert, decide_True by done. intros ? ?. simplify_eq. done. Qed.
Lemma timer_keeps s : fresh s → entry (fragmentTimer_ s) = entry s.
Proof.
  intros Hf. unfold entry, fragmentTimer_. cbn. rewrite lookup_omap. destruct (fragmentRoutes s !! our_route) as [r|] eqn:Er; [|done].
  cbn. unfold tick_route, fragmentRouteExpiryTimeoutTicks. destruct (receivedPackets r !! ident h0) as [p|] eqn:Ep.
  - destruct (Hf r p Er Ep) as [Hp Hr]. rewrite (proj2 (Z.ltb_ge _ _)) by lia. cbn. by apply map_lookup_filter_Some.
  - destruct (_ <? _); [done|]. cbn. apply map_lookup_filter_None. by left.
Qed.

(** One of the fragments arrives. *)
Lemma feed_ours badView s got i random : frag_index i → 1 < frag_count → accepted s = true → holds s got →
  (∃ j, 0 ≤ j < frag_count ∧ j ∉ got) →
  ∃ out s', feedPacket badView s (frag_frame i) random = Ret (out, s') ∧ sockets s' = sockets s ∧
    ((∃ j, 0 ≤ j < frag_count ∧ j ∉ got ∪ {[i]}) → out = None ∧ holds s' (got ∪ {[i]}) ∧ (fresh s → fresh s')) ∧
    ((∀ j, 0 ≤ j < frag_count → j ∈ got ∪ {[i]}) → ∃ pkt, out = Some pkt ∧ delivered pkt ∧ entry s' = None).
Proof.
  intros Hi Hc Ha Hh' (j0 & Hj0 & Hn0). rewrite feed_fragment by done.
  pose proof (route_entry s random) as He. pose proof (λ p, fresh_packet s p random) as Hfp.
  destruct (getOrCreateFragmentRoute_ s our_route random) as [route s1] eqn:Er.
  assert (sockets s1 = sockets s ∧ fragmentTimerTick s1 = fragmentTimerTick s ∧ lastAccessedTimerTick route = fragmentTimerTick s) as (Hs & Ht & Hla).
  { unfold getOrCreateFragmentRoute_ in Er. injection Er as <- <-. by destruct (fragmentRoutes s !! our_route). } cbn in He, Hfp.
  set (p := default (new_fragmented (fragmentTimerTick s1)) (receivedPackets route !! ident h0)).
  assert (partial got p) as P.
  { unfold p. rewrite He. unfold holds in Hh'. destruct (entry s); [done|]. subst got. apply partial_empty. }
  assert (∀ p', entry (set_route s1 our_route (set_packets route (<[ident h0 := p']> (receivedPackets route)))) = Some p') as Hent
    by (intros p'; rewrite entry_set; cbn; by rewrite lookup_insert, decide_True).
  assert (∀ p', packetReceivedTimerTick p' = packetReceivedTimerTick p → fresh s →
    fresh (set_route s1 our_route (set_packets route (<[ident h0 := p']> (receivedPackets route))))) as Hfr.
  { intros p' Hp' Hf. apply (fresh_set _ _ p'); [cbn; by rewrite lookup_insert, decide_True| |by rewrite Ht].
    rewrite Hp', Ht. apply (Hfp p); [done|]. unfold p. by rewrite Ht. }
  destruct (decide (i ∈ got)) as [Hin|Hin].
  - rewrite (add_known got p i) by done. eexists _, _. split; [done|]. split; [done|].
    assert (got ∪ {[i]} = got) as -> by set_solver. split; [|intros Hall; destruct Hn0; by apply Hall].
    intros _. split; [done|]. split; [unfold holds; by rewrite Hent|by apply Hfr].
  - destruct (add_new got p i P Hi Hin) as (r & -> & Hfull & Hpart). cbn [mbind outcome_bind].
    destruct (decide (set_Forall (λ j, j ∈ got ∪ {[i]}) (list_to_set (seqZ 0 frag_count) : gset Z))) as [Hall|Hnot].
    + assert (∀ j, 0 ≤ j < frag_count → j ∈ got ∪ {[i]}) as Hall' by (intros j Hj; apply Hall, elem_of_list_to_set, elem_of_seqZ; lia).
      rewrite Hfull by done. rewrite parse_sealed by (done || apply assembled_ok).
      cbn [mbind outcome_bind]. rewrite bool_decide_eq_true_2 by done. rewrite assert_bind by done. eexists _, _. split; [done|]. split; [done|].
      split; [intros (j & Hj & Hnj); by destruct Hnj; apply Hall'|]. intros _. eexists. split; [done|]. split; [split; [apply payload_sealed|done]|].
      rewrite entry_set. cbn. by rewrite lookup_delete, decide_True.
    + apply not_set_Forall_Exists in Hnot as (j & Hj & Hnj); [|solve_decision]. apply elem_of_list_to_set, elem_of_seqZ in Hj.
      rewrite (Hpart j) by (done || lia). eexists _, _. split; [done|]. split; [done|].
      split; [intros _; split; [done|]; split; [unfold holds; rewrite Hent; by apply with_fragment_partial|by apply Hfr]|].
      intros Hall. destruct Hnj. apply Hall. lia.
Qed.

(** Any other packet leaves the fragments alone. *)
Definition foreign badView (frame : list Z) : Prop :=
  ∀ pkt, parse badView frame true = Ret (Some pkt) → is_fragment (header pkt) = true →
    (route_id (header pkt), ident (header pkt)) ≠ (our_route, ident h0).
Lemma entry_other s id n r' : (id, n) ≠ (our_route, ident h0) →
  (∀ m, m ≠ n → receivedPackets r' !! m = r ← fragmentRoutes s !! id; receivedPackets r !! m) → entry (set_route s id r') = entry s.
Proof.
  intros Hne Hr. unfold entry, set_route. cbn. rewrite lookup_insert. case_decide as Hd; [|done]. subst id. cbn.
  rewrite Hr by congruence. done.
Qed.
(** An update of a fragment route that does not touch our fragments. *)
Lemma foreign_route s h' r0 ps : (route_id h', ident h') ≠ (our_route, ident h0) →
  lastAccessedTimerTick r0 = fragmentTimerTick s →
  (∀ m, receivedPackets r0 !! m = r ← fragmentRoutes s !! route_id h'; receivedPackets r !! m) →
  (∀ m, m ≠ ident h' → ps !! m = receivedPackets r0 !! m) →
  let s' := set_route (set_route s (route_id h') r0) (route_id h') (set_packets r0 ps) in
  entry s' = entry s ∧ sockets s' = sockets s ∧ (fresh s → fresh s').
Proof.
  intros Hne Hla Hr0 Hm s'. split; [|split; [done|]].
  - unfold s'. rewrite (entry_other _ _ (ident h')); [apply (entry_other _ _ (ident h'))|..]; try done.
    intros m Hme. unfold set_route. cbn. rewrite lookup_insert, decide_True by done. cbn. by apply Hm.
  - intros Hfr r p Hr Hp. unfold s' in *. cbn in Hr |- *. rewrite lookup_insert in Hr. case_decide as Hd.
    + simplify_eq. cbn in Hp |- *. split; [|done]. rewrite Hm, Hr0, Hd in Hp by congruence.
      destruct (fragmentRoutes s !! our_route) as [r|] eqn:Er; [|done]. by destruct (Hfr r p).
    + rewrite lookup_insert_ne in Hr by done. by apply (Hfr r p).
Qed.
Lemma feed_foreign badView s frame random out s' : foreign badView frame → feedPacket badView s frame random = Ret (out, s') →
  entry s' = entry s ∧ sockets s' = sockets s ∧ (fresh s → fresh s').
Proof.
  intros Hf E. unfold feedPacket in E. apply bind_Ret in E as (parsed & Ep & E). destruct parsed as [hdr|]; [|by simplify_eq].
  destruct (_ && _); [by simplify_eq|]. destruct (is_fragment (header hdr)) eqn:Ei; [|by simplify_eq].
  specialize (Hf hdr Ep Ei). unfold getOrCreateFragmentRoute_ in E.
  set (r0 := match fragmentRoutes s !! route_id (header hdr) with Some r => _ | None => _ end) in E.
  assert (lastAccessedTimerTick r0 = fragmentTimerTick s ∧
    ∀ m, receivedPackets r0 !! m = r ← fragmentRoutes s !! route_id (header hdr); receivedPackets r !! m) as [Hla Hr0].
  { unfold r0. destruct (fragmentRoutes s !! route_id (header hdr)); by split. }
  apply bind_Ret in E as (r & _ & E). destruct r as [p|p|x]; [| |apply bind_Ret in E as (pk & _ & E); inv_outcome]; simplify_eq;
    apply (foreign_route s _ r0); try done; intros m Hne.
  - by rewrite lookup_insert_ne by congruence.
  - by rewrite lookup_insert_ne by congruence.
  - by rewrite lookup_delete_ne by congruence.
Qed.

(** What happens to a receiver: packets arrive, and the timer goes off. *)
Inductive ip_event :=
  | Receive (frame : list Z) (random : Z)
  | Tick.
Definition ip_exec badView (s : Ip4) (ev : ip_event) : outcome (option Ip4Packet * Ip4) :=
  match ev with
  | Receive frame random => feedPacket badView s frame random
  | Tick => Ret (None, fragmentTimer_ s)
  end.
Fixpoint feeds badView (s : Ip4) (l : list ip_event) : outcome (list (option Ip4Packet) * Ip4) :=
  match l with
  | [] => Ret ([], s)
  | ev :: l =>
      '(out, s) ← ip_exec badView s ev;
      '(outs, s) ← feeds badView s l;
      Ret (out :: outs, s)
  end.
(** The frames that arrive, and the rounds of the timer. *)
Fixpoint arrived (l : list ip_event) : list (list Z) :=
  match l with [] => [] | Receive frame _ :: l => frame :: arrived l | Tick :: l => arrived l end.
Definition rounds (l : list ip_event) : nat := length l - length (arrived l).
Definition arrives (P : list Z → Prop) (ev : ip_event) : Prop :=
  match ev with Receive frame _ => P frame | Tick => True end.
Lemma arrived_length l : (length (arrived l) ≤ length l)%nat.
Proof. induction l as [|[] l IH]; cbn in *; lia. Qed.
Definition ours (frame : list Z) : Prop := ∃ i, frag_index i ∧ frame = frag_frame i.
Lemma frag_frame_inj i j : frag_index i → frag_index j → frag_frame i = frag_frame j → i = j.
Proof.
  intros Hi Hj E. assert (parse (λ _ _, Stop OutOfBounds) (frag_frame i) false = parse (λ _ _, Stop OutOfBounds) (frag_frame j) false) as Ep by congruence.
  unfold frag_frame in Ep. rewrite !parse_sealed in Ep by (first [by apply frag_header_ok | exact Hihl | discriminate]).
  pose proof (f_equal (λ o, match o with Ret (Some pkt) => fragment_offset (header pkt) | _ => 0 end) Ep) as Eo. cbv beta iota in Eo.
  change (fragment_offset (received_header (frag_header i)) = fragment_offset (received_header (frag_header j))) in Eo.
  rewrite (proj1 (frag_flags i Hi)), (proj1 (frag_flags j Hj)) in Eo. nia.
Qed.
Lemma accepted_sockets s s' : sockets s' = sockets s → accepted s' = accepted s.
Proof. unfold accepted. by intros ->. Qed.
Lemma ours_not_foreign badView frame : 1 < frag_count → ours frame → ¬ foreign badView frame.
Proof.
  intros Hc (i & Hi & ->) Hf. apply (Hf (MkPacket (received_header (frag_header i)) (frag_frame i))); [|by apply frag_is_fragment|done].
  unfold frag_frame. rewrite parse_sealed; [done|by apply frag_header_ok|exact Hihl|].
  intros _. rewrite frag_chunk_length by done. cbn. lia.
Qed.
(** The timer may go off once while fragments are missing. *)
Definition timely (s : Ip4) (l : list ip_event) : Prop := rounds l = 0%nat ∨ (rounds l ≤ 1)%nat ∧ fresh s.
Lemma timely_receive s s' frame random l : (fresh s → fresh s') → timely s (Receive frame random :: l) → timely s' l.
Proof. unfold timely, rounds. cbn. tauto. Qed.
Lemma timely_tick s l : timely s (Tick :: l) → fresh s ∧ timely (fragmentTimer_ s) l.
Proof. unfold timely, rounds. cbn. pose proof (arrived_length l). intros [?|[? ?]]; [lia|]. split; [done|left; lia]. Qed.

Lemma feeds_partial badView l : 1 < frag_count → ∀ s got outs s', accepted s = true → holds s got → timely s l →
  Forall (arrives (λ x, ours x ∨ foreign badView x)) l → (∃ j, frag_index j ∧ (j ∉ got) ∧ frag_frame j ∉ arrived l) →
  feeds badView s l = Ret (outs, s') →
  Forall2 (λ ev out, arrives (λ x, ours x → out = None) ev) l outs ∧ accepted s' = true ∧
  ∃ got', holds s' got' ∧ ∀ i, frag_index i → (i ∈ got' ↔ i ∈ got ∨ frag_frame i ∈ arrived l).
Proof.
  intros Hc. induction l as [|ev l IH]; intros s got outs s' Ha Hg Ht Hl (j & Hj & Hjg & Hjl) E; cbn in E.
  { simplify_eq. split; [constructor|]. split; [done|]. exists got. split; [done|]. intros i _. split; [by left|]. intros [?|H]; [done|by apply elem_of_nil in H]. }
  apply bind_Ret in E as ([out s1] & E1 & E). apply bind_Ret in E as ([outs2 s2] & E2 & E). simplify_eq.
  apply list.Forall_cons in Hl as [Hx Hl]. destruct ev as [frame random|]; cbn [ip_exec arrives arrived] in *.
  2: { apply timely_tick in Ht as [Hf Ht]. simplify_eq.
    destruct (IH (fragmentTimer_ s) got outs2 s') as (HF & Ha' & got' & Hg' & Hgot); try done; [unfold holds; by rewrite timer_keeps|by exists j|].
    split; [by constructor|]. split; [done|]. by exists got'. }
  apply not_elem_of_cons in Hjl as [Hjf Hjl]. destruct Hx as [(i & Hi & ->)|Hx].
  - destruct (feed_ours badView s got i random) as (out' & s1' & E1' & Hs & Hpart & _); [done..|by exists j|].
    rewrite E1 in E1'. simplify_eq. assert (j ≠ i) by congruence.
    destruct Hpart as (-> & Hg1 & Hf1); [exists j; split; [done|]; set_solver|].
    destruct (IH s1' (got ∪ {[i]}) outs2 s') as (HF & Ha' & got' & Hg' & Hgot); [by rewrite (accepted_sockets s)|done|by eapply timely_receive|done|..].
    { exists j. split; [done|]. split; [set_solver|done]. } { done. }
    split; [by constructor|]. split; [done|]. exists got'. split; [done|]. intros k Hk. rewrite Hgot by done.
    rewrite elem_of_union, elem_of_singleton, elem_of_cons. split.
    + intros [[?| ->]|?]; [by left|right; by left|right; by right].
    + intros [?|[Ek|?]]; [left; by left| |by right]. left. right. by apply frag_frame_inj.
  - destruct (feed_foreign badView s frame random out s1 Hx E1) as (He & Hs & Hf1).
    destruct (IH s1 got outs2 s') as (HF & Ha' & got' & Hg' & Hgot); [by rewrite (accepted_sockets s)| |by eapply timely_receive|done|by exists j|done|].
    { unfold holds. by rewrite He. }
    split; [constructor; [intros Ho; by apply (ours_not_foreign badView) in Ho|done]|]. split; [done|]. exists got'. split; [done|].
    intros k Hk. rewrite Hgot by done. rewrite elem_of_cons. split; [intros [?|?]; [by left|right; by right]|].
    intros [?|[Ek|?]]; [by left| |by right]. exfalso. apply (ours_not_foreign badView frame); [done|by exists k|done].
Qed.

(** The fragments in any order, some of them several times, between any other packets:
    the last missing one delivers the payload, and none before does. *)
Lemma feeds_complete badView l s outs s' frame random : 1 < frag_count → accepted s = true → entry s = None → (rounds l ≤ 1)%nat →
  Forall (arrives (λ x, ours x ∨ foreign badView x)) l → ours frame →
  (∃ j, frag_index j ∧ frag_frame j ∉ arrived l) → (∀ j, frag_index j → frag_frame j ∈ arrived l ∨ frag_frame j = frame) →
  feeds badView s l = Ret (outs, s') →
  Forall2 (λ ev out, arrives (λ x, ours x → out = None) ev) l outs ∧
  ∃ pkt s2, feedPacket badView s' frame random = Ret (Some pkt, s2) ∧ delivered pkt ∧ entry s2 = None.
Proof.
  intros Hc Ha He Hr Hl (i & Hi & ->) (j & Hj & Hjl) Hall E.
  destruct (feeds_partial badView l Hc s ∅ outs s') as (HF & Ha' & got & Hg & Hgot);
    [done|unfold holds; by rewrite He|right; split; [done|by apply fresh_empty]|done| |done|].
  { exists j. split; [done|]. split; [set_solver|done]. }
  split; [done|]. destruct (feed_ours badView s' got i random) as (out & s2 & E2 & _ & _ & Hfull); [done..| |].
  { exists j. split; [done|]. rewrite Hgot by done. intros [H|H]; [set_solver|done]. }
  destruct Hfull as (pkt & -> & Hp).
  - intros k Hk. rewrite elem_of_union, elem_of_singleton, Hgot by done. destruct (Hall k Hk) as [?|Ek]; [left; by right|right].
    by apply frag_frame_inj.
  - by exists pkt, s2.
Qed.
End fragmented.

(** ** From the sender to the receiver *)
(** The identifier that the sender uses for its next packet. *)
Definition next_ident (s : Ip4) (ti : Ip4TargetInfo) (proto random : Z) : Z :=
  sendIdent (getOrCreateFragmentRoute_ s (ti_source ti, remote ti, u8 proto) random).1.
Record target_ok (ti : Ip4TargetInfo) : Prop := {
  tg_remote : 0 ≤ remote ti < 2 ^ 32;
  tg_source : 0 ≤ ti_source ti < 2 ^ 32;
  tg_route : 0 ≤ route_mtu ti;
  tg_link : link_mtu ti < 2 ^ 16;
}.
Lemma send_header_ok ti proto n : target_ok ti → 0 ≤ n < 2 ^ 16 → header_ok (send_header ti proto n).
Proof. intros [] Hn. split; cbn; try done; unfold byte; try lia. apply wrap_bound. lia. Qed.

Lemma send_one h d unit8 : Z.of_nat (length d) ≤ unit8 * 8 → ∃ frame, send_loop (S (length d)) h unit8 d 0 = Ret [frame].
Proof.
  intros Hl. cbn [send_loop]. rewrite Z.sub_0_r, Z.min_l by done. rewrite Z.add_0_l, Z.ltb_irrefl. by eexists.
Qed.
(** A payload that is sent in several packets is sent as its fragments. *)
Lemma sendFrame_fragments s ti resolved random d proto frames s1 : target_ok ti → Z.of_nat (length d) < 2 ^ 16 →
  sendFrame s ti resolved random d proto = Ret (send_none, frames, s1) → (1 < length frames)%nat →
  ∃ unit8, let h := send_header ti proto (next_ident s ti proto random) in
    0 < unit8 ∧ unit8 * 8 + 20 < 2 ^ 16 ∧ 0 < Z.of_nat (length d) ∧ 1 < frag_count d unit8 ∧
    frames = frag_frame h d unit8 <$> seqZ 0 (frag_count d unit8).
Proof.
  intros Ht Hd E Hn. destruct Ht as [Hr Hs Hm Hl]. unfold sendFrame in E. unfold sizeof_header in *.
  set (mtu := fragment_mtu ti (Z.of_nat (length d))) in E. destruct (_ && _); [simplify_eq|]. destruct (mtu <? 20 + 8) eqn:Em; [simplify_eq|].
  destruct (Z.of_nat (length d) <=? mtu - 20) eqn:El.
  - destruct (send_one (send_header ti proto 0) d ((mtu - 20) / 8 + 1)) as [frame Ef].
    { pose proof (Z.div_mod (mtu - 20) 8 ltac:(lia)). pose proof (Z.mod_pos_bound (mtu - 20) 8 ltac:(lia)). lia. }
    rewrite Ef in E. cbn [mbind outcome_bind] in E. simplify_eq. cbn in Hn. lia.
  - set (unit8 := (mtu - 20) / 8) in *. assert (1 ≤ unit8) by (apply Z.div_le_lower_bound; lia).
    pose proof (Z.mul_div_le (mtu - 20) 8 ltac:(lia)) as Hmul. fold unit8 in Hmul.
    assert (mtu < 2 ^ 16) by (unfold mtu, fragment_mtu in *; destruct (link_mtu ti <? _) eqn:?; lia).
    exists unit8. cbn zeta. split; [lia|]. split; [lia|]. split; [lia|]. unfold next_ident.
    destruct (getOrCreateFragmentRoute_ s (ti_source ti, remote ti, u8 proto) random) as [r s0]. cbn [fst] in *.
    assert (frag_index d unit8 0) as Hi0 by (apply frag_index_iff; unfold frag_start; lia).
    change 0 with (frag_start unit8 0) in E at 1. rewrite send_loop_frames in E; [|done|lia|lia|lia|done|unfold frag_start; lia].
    cbn [mbind outcome_bind] in E. rewrite Z.sub_0_r in E. simplify_eq. rewrite length_fmap, length_seqZ in Hn. split; [lia|done].
Qed.


(** Three fragments that come in the order last, first, last, middle, with a round of the
    timer after the first two. *)
Definition demoTarget : Ip4TargetInfo := MkTarget 0x0a000002 0x0a000001 0 28 true.
Definition demoIp : Ip4 := MkIp4 ∅ 0 [].
Definition demoPayload : list Z := seqZ 1 20.
Definition demoBad (d : list Z) (size : Z) : outcome (list Z) := Stop OutOfBounds.
Definition demoFrames : list (list Z) :=
  Eval vm_compute in match sendFrame demoIp demoTarget true 7 demoPayload 17 with Ret (_, frames, _) => frames | Stop _ => [] end.
Definition demoFrame (i : nat) : list Z := nth i demoFrames [].
Definition demoTraffic : list ip_event := [Receive (demoFrame 2) 0; Receive (demoFrame 0) 0; Tick; Receive (demoFrame 2) 0].
Definition demoReceiver : Ip4 := match feeds demoBad demoIp demoTraffic with Ret (_, s) => s | Stop _ => demoIp end.

(** ** Packets that should be rejected *)

(** A fragment that reaches behind the end of the packet is rejected but counts as received:
    the packet is complete afterwards, with bytes that no fragment had. *)
Lemma rejected_fragment_counts :
  ∃ p1 p2, add_fragment (new_fragmented 0) 16 [] false = Ret (Incomplete p1) ∧
    add_fragment p1 8 (replicate 16 7) true = Ret (Rejected p2) ∧
    add_fragment p2 0 (replicate 8 7) true = Ret (Complete (replicate 8 7 ++ replicate 8 0)).
Proof. eexists _, _. split; [vm_compute; reflexivity|]. split; [vm_compute; reflexivity|]. vm_compute. reflexivity. Qed.
(** A second round of the timer discards the fragments that have come: the last missing
    fragment then delivers nothing. *)
Lemma second_round_discards : ∃ s',
  feeds demoBad demoIp [Receive (demoFrame 0) 0; Receive (demoFrame 1) 0; Tick; Tick; Receive (demoFrame 2) 0] =
    Ret ([None; None; None; None; None], s').
Proof. eexists. vm_compute. reflexivity. Qed.
(** A header with a header length of zero is accepted, whatever its checksum is. *)
Definition empty_header_frame : list Z := [64; 0; 0; 24] ++ replicate 20 1.
Lemma empty_header_accepted badView : parse badView empty_header_frame true = Ret (Some (MkPacket (set_ihl (read_header empty_header_frame) 0) empty_header_frame)).
Proof. vm_compute. reflexivity. Qed.
