(* ===== verification/Routing.v ===== *)
(** * IPv4 routing

    [CidrAddress], [Ip4Router] and [Ip4::targetByRemote] of servers/netserver/src/ip/ip4.cpp
    and ip4.hpp.

    A [std::set] or [std::map] is the list of its elements in its order.  A link is named by
    its index; a weak pointer to a link is the index together with the predicate [alive],
    which says which links still exist. *)
From Stdlib Require Import ZArith Lia ZifyBool Sorted.
From stdpp Require Import base list numbers option.
From S2P Require Import Prelude.
Open Scope Z_scope.

Record CidrAddress := MkCidr { ip : Z; prefix : Z }.
Definition mask (c : CidrAddress) : Z := Z.land (u64 (Z.shiftl 0xFFFFFFFF (32 - prefix c))) 0xFFFFFFFF.
Definition sameNet (c : CidrAddress) (other : Z) : bool := Z.land other (mask c) =? Z.land (ip c) (mask c).
Definition cidr_lt (l r : CidrAddress) : bool := (prefix r <? prefix l) || (prefix r =? prefix l) && (ip l <? ip r).

Record Route := MkRoute {
  network : CidrAddress; link : Z; mtu : Z; gateway : Z; metric : Z; rt_source : Z; scope : Z; rt_type : Z; rt_protocol : Z; rt_flags : Z; family : Z;
}.
(** The comparison of two tuples. *)
Fixpoint compare_tie (l : list (Z * Z)) : comparison :=
  match l with
  | [] => Eq
  | (a, b) :: l => match a ?= b with Eq => compare_tie l | c => c end
  end.
Definition route_compare (lhs rhs : Route) : comparison :=
  if cidr_lt (network lhs) (network rhs) then Lt
  else if cidr_lt (network rhs) (network lhs) then Gt
  else compare_tie [(metric lhs, metric rhs); (scope rhs, scope lhs); (mtu rhs, mtu lhs); (rt_type lhs, rt_type rhs); (family lhs, family rhs);
         (gateway lhs, gateway rhs); (rt_source lhs, rt_source rhs); (rt_flags lhs, rt_flags rhs)].

Fixpoint addRoute (routes : list Route) (r : Route) : bool * list Route :=
  match routes with
  | [] => (true, [r])
  | r' :: rest =>
      match route_compare r r' with
      | Lt => (true, r :: routes)
      | Eq => (false, routes)
      | Gt => let '(b, rest) := addRoute rest r in (b, r' :: rest)
      end
  end.

Section links.
Context (alive : Z → bool).

(** [r.link.lock()->index()] *)
Definition link_index (l : Z) : outcome Z := if alive l then Ret l else Stop NullDereference.
(** The loop of [resolveRoute] over the rest of the routes.  An expired route is erased, the
    iterator goes on behind the route that follows it. *)
Fixpoint resolve_loop (routes : list Route) (addr : Z) (wanted : option Z) : outcome (option Route * list Route) :=
  match routes with
  | [] => Ret (None, [])
  | r :: rest =>
      let next := res ← resolve_loop rest addr wanted; Ret (res.1, r :: res.2) in
      if sameNet (network r) addr then
        other ← match wanted with
                | Some l => i ← link_index (link r); Ret (negb (i =? l))
                | None => Ret false
                end;
        if other : bool then next
        else if negb (alive (link r)) then
          match rest with
          | [] => Stop OutOfBounds
          | skipped :: rest => res ← resolve_loop rest addr wanted; Ret (res.1, skipped :: res.2)
          end
        else Ret (Some r, routes)
      else next
  end.
Definition resolveRoute (routes : list Route) (addr : Z) (wanted : option Z) : outcome (option Route * list Route) := resolve_loop routes addr wanted.

(** The addresses of the links. *)
Definition Ips : Type := list (CidrAddress * Z).
Fixpoint setLink (ips : Ips) (addr : CidrAddress) (l : Z) : Ips :=
  match ips with
  | [] => [(addr, l)]
  | e :: rest =>
      if cidr_lt addr e.1 then (addr, l) :: ips
      else if cidr_lt e.1 addr then e :: setLink rest addr l
      else ips
  end.
Definition hasIp (ips : Ips) (addr : Z) : bool := existsb (λ e, ip e.1 =? addr) ips.
Fixpoint deleteLink (ips : Ips) (addr : CidrAddress) : bool * Ips :=
  match ips with
  | [] => (false, [])
  | e :: rest =>
      if cidr_lt addr e.1 || cidr_lt e.1 addr then let '(b, rest) := deleteLink rest addr in (b, e :: rest)
      else (true, rest)
  end.
Fixpoint getLink (ips : Ips) (addr : Z) : option Z * Ips :=
  match ips with
  | [] => (None, [])
  | e :: rest =>
      if ip e.1 =? addr then if alive e.2 then (Some e.2, ips) else (None, rest)
      else let '(r, rest) := getLink rest addr in (r, e :: rest)
  end.
Fixpoint findLinkIp (ips : Ips) (ipOnNet l : Z) : option Z :=
  match ips with
  | [] => None
  | e :: rest => if alive e.2 && sameNet e.1 ipOnNet && (e.2 =? l) then Some (ip e.1) else findLinkIp rest ipOnNet l
  end.

Record Target := MkTarget { t_remote : Z; t_source : Z; t_route : Route; t_link : Z }.
Definition set_route_link (r : Route) (l : Z) : Route :=
  MkRoute (network r) l (mtu r) (gateway r) (metric r) (rt_source r) (scope r) (rt_type r) (rt_protocol r) (rt_flags r) (family r).
(** [rtnLocal] is the number of [RTN_LOCAL]. *)
Definition targetByRemote (rtnLocal loopback : Z) (routes : list Route) (ips : Ips) (remote : Z) (wanted : option Z) : outcome (option Target * list Route) :=
  res ← resolveRoute routes remote wanted;
  let '(oroute, routes) := res in
  match oroute with
  | None => Ret (None, routes)
  | Some r =>
      let r := if rt_type r =? rtnLocal then set_route_link r loopback else r in
      if negb (alive (link r)) then Ret (None, routes)
      else
        let source := if rt_source r =? 0 then default 0 (findLinkIp ips (if negb (gateway r =? 0) then gateway r else remote) (link r)) else rt_source r in
        if source =? 0 then Ret (None, routes) else Ret (Some (MkTarget remote source r (link r)), routes)
  end.
End links.

(** ** The order of the routes *)
Definition route_key (r : Route) : list Z :=
  [- prefix (network r); ip (network r); metric r; - scope r; - mtu r; rt_type r; family r; gateway r; rt_source r; rt_flags r].
Lemma compare_opp a b : (a ?= b) = (- b ?= - a).
Proof. by rewrite Z.compare_opp. Qed.
Lemma route_compare_key l r : route_compare l r = compare_tie (zip (route_key l) (route_key r)).
Proof.
  unfold route_compare, cidr_lt, route_key. cbn [zip_with compare_tie]. rewrite (compare_opp (scope r)), (compare_opp (mtu r)).
  rewrite <- (compare_opp (prefix (network r)) (prefix (network l))).
  destruct (Z.compare_spec (prefix (network r)) (prefix (network l))) as [E|E|E].
  - rewrite E, Z.ltb_irrefl, Z.eqb_refl. cbn [orb andb]. destruct (Z.compare_spec (ip (network l)) (ip (network r))) as [F|F|F].
    + by rewrite F, Z.ltb_irrefl.
    + by rewrite (proj2 (Z.ltb_lt _ _) F).
    + rewrite (proj2 (Z.ltb_ge _ _)) by lia. by rewrite (proj2 (Z.ltb_lt _ _) F).
  - by rewrite (proj2 (Z.ltb_lt _ _) E).
  - rewrite (proj2 (Z.ltb_ge (prefix (network r)) _)) by lia. rewrite (proj2 (Z.eqb_neq _ _)) by lia. cbn. by rewrite (proj2 (Z.ltb_lt _ _) E).
Qed.
Lemma compare_tie_eq l : ∀ r, length l = length r → compare_tie (zip l r) = Eq → l = r.
Proof.
  induction l as [|a l IH]; intros [|b r] Hl E; try done. cbn in E. destruct (Z.compare_spec a b); [|done..]. subst. f_equal. apply IH; [by injection Hl|done].
Qed.
Lemma compare_tie_opp l : ∀ r, compare_tie (zip r l) = CompOpp (compare_tie (zip l r)).
Proof.
  induction l as [|a l IH]; intros [|b r]; try done. cbn. rewrite Z.compare_antisym. destruct (a ?= b); cbn; [apply IH|done..].
Qed.
Lemma compare_tie_trans l : ∀ r s, length l = length r → length r = length s → compare_tie (zip l r) = Lt → compare_tie (zip r s) = Lt → compare_tie (zip l s) = Lt.
Proof.
  induction l as [|a l IH]; intros [|b r] [|c s] H1 H2 E1 E2; try done. cbn in *.
  destruct (Z.compare_spec a b) as [Ea|Ea|Ea], (Z.compare_spec b c) as [Eb|Eb|Eb], (Z.compare_spec a c) as [Ec|Ec|Ec]; try done; try lia.
  subst. apply (IH r s); done || lia.
Qed.
Lemma route_compare_opp l r : route_compare r l = CompOpp (route_compare l r).
Proof. rewrite !route_compare_key. apply compare_tie_opp. Qed.
Lemma route_compare_trans l r s : route_compare l r = Lt → route_compare r s = Lt → route_compare l s = Lt.
Proof. rewrite !route_compare_key. by apply compare_tie_trans. Qed.
Definition route_lt (l r : Route) : Prop := route_compare l r = Lt.
Lemma route_eq_key l r : route_compare l r = Eq → route_key l = route_key r.
Proof. rewrite route_compare_key. by apply compare_tie_eq. Qed.
Lemma route_compare_eq_l l l' r : route_compare l l' = Eq → route_compare l r = route_compare l' r.
Proof. intros E%route_eq_key. by rewrite !route_compare_key, E. Qed.

Lemma addRoute_spec r routes : StronglySorted route_lt routes →
  StronglySorted route_lt (addRoute routes r).2 ∧
  (∀ x, x ∈ (addRoute routes r).2 → x = r ∨ x ∈ routes) ∧ (∀ x, x ∈ routes → x ∈ (addRoute routes r).2) ∧
  ∃ x, x ∈ (addRoute routes r).2 ∧ route_compare r x = Eq.
Proof.
  induction 1 as [|r' routes Hs IH Hf]; cbn [addRoute].
  - split; [constructor; [constructor|by apply Forall_nil]|]. split; [intros x Hx; left; by apply list_elem_of_singleton in Hx|]. split; [intros x Hx; by apply elem_of_nil in Hx|].
    exists r. split; [by apply list_elem_of_singleton|]. pose proof (route_compare_opp r r). by destruct (route_compare r r).
  - destruct (route_compare r r') eqn:E.
    + split; [by constructor|]. split; [by right|]. split; [done|]. exists r'. split; [by left|done].
    + split.
      { constructor; [by constructor|]. constructor; [done|]. eapply list.Forall_impl; [exact Hf|]. intros x Hx. by eapply route_compare_trans. }
      split; [intros x [->|Hx]%elem_of_cons; [by left|by right]|]. split; [intros x Hx; by right|].
      exists r. split; [by left|]. pose proof (route_compare_opp r r). by destruct (route_compare r r).
    + destruct IH as (I1 & I2 & I3 & x & Hx & Ex). destruct (addRoute routes r) as [b routes'] eqn:Ea. cbn in *. split; [|split; [|split]].
      * constructor; [done|]. apply list.Forall_forall. intros y Hy. destruct (I2 y Hy) as [->|Hy']; [unfold route_lt; by rewrite route_compare_opp, E|].
        by eapply list.Forall_forall in Hf.
      * intros y [->|Hy]%elem_of_cons; [right; by left|]. destruct (I2 y Hy); [by left|right; by right].
      * intros y [->|Hy]%elem_of_cons; [by left|right; by apply I3].
      * exists x. split; [by right|done].
Qed.
Definition addRoutes (routes rs : list Route) : list Route := foldl (λ l r, (addRoute l r).2) routes rs.
Lemma addRoutes_spec rs : ∀ routes, StronglySorted route_lt routes →
  StronglySorted route_lt (addRoutes routes rs) ∧ (∀ x, x ∈ addRoutes routes rs → x ∈ routes ∨ x ∈ rs) ∧
  (∀ x, x ∈ routes → x ∈ addRoutes routes rs) ∧ ∀ r, r ∈ rs → ∃ x, x ∈ addRoutes routes rs ∧ route_compare r x = Eq.
Proof.
  induction rs as [|r rs IH]; intros routes Hs; cbn.
  - split; [done|]. split; [by left|]. split; [done|]. intros r Hr. by apply elem_of_nil in Hr.
  - destruct (addRoute_spec r routes Hs) as (S1 & S2 & S3 & y & Hy & Ey). destruct (IH _ S1) as (T1 & T2 & T3 & T4). split; [done|]. split; [|split].
    + intros x Hx. destruct (T2 x Hx) as [Hx'|]; [destruct (S2 x Hx') as [->|]; [right; by left|by left]|right; by right].
    + intros x Hx. by apply T3, S3.
    + intros x [->|Hx]%elem_of_cons; [exists y; split; [by apply T3|done]|by apply T4].
Qed.

(** ** Networks *)
Definition cidr_ok (c : CidrAddress) : Prop := 0 ≤ prefix c ≤ 32 ∧ 0 ≤ ip c < 2 ^ 32.
(** The first [prefix c] bits agree. *)
Definition in_network (c : CidrAddress) (addr : Z) : Prop := ∀ i, 32 - prefix c ≤ i < 32 → Z.testbit addr i = Z.testbit (ip c) i.
Lemma mask_bits c i : cidr_ok c → 0 ≤ i → Z.testbit (mask c) i = (32 - prefix c <=? i) && (i <? 32).
Proof.
  intros [Hp _] Hi. unfold mask, u64, wrap. change 0xFFFFFFFF with (Z.ones 32). rewrite Z.land_spec, <- Z.land_ones, Z.land_spec by lia.
  rewrite Z.shiftl_spec, !Z.testbit_ones by lia. destruct (Z.leb_spec (32 - prefix c) i), (Z.ltb_spec i 32); lia.
Qed.
Lemma sameNet_iff c addr : cidr_ok c → sameNet c addr = true ↔ in_network c addr.
Proof.
  intros Hc. unfold sameNet. rewrite Z.eqb_eq. split.
  - intros E i Hi. destruct Hc as [Hp Hr]. assert (Z.testbit (Z.land addr (mask c)) i = Z.testbit (Z.land (ip c) (mask c)) i) as F by (by rewrite E).
    rewrite !Z.land_spec, mask_bits in F by (done || lia). rewrite (proj2 (Z.leb_le _ _)), (proj2 (Z.ltb_lt _ _)) in F by lia. by rewrite !andb_true_r in F.
  - intros H. apply Z.bits_inj'. intros i Hi. rewrite !Z.land_spec, mask_bits by done.
    destruct ((32 - prefix c <=? i) && (i <? 32)) eqn:E; [|by rewrite !andb_false_r]. rewrite !andb_true_r. apply H. lia.
Qed.

(** ** Looking up a route *)
Definition applies (addr : Z) (wanted : option Z) (r : Route) : Prop := in_network (network r) addr ∧ ∀ l, wanted = Some l → link r = l.
(** [r] comes before [r'], or in the same place, in the order of the table. *)
Definition preferred (r r' : Route) : Prop :=
  prefix (network r') ≤ prefix (network r) ∧
  (prefix (network r') = prefix (network r) → ip (network r) ≤ ip (network r') ∧
  (ip (network r) = ip (network r') → metric r ≤ metric r' ∧
  (metric r = metric r' → scope r' ≤ scope r ∧
  (scope r = scope r' → mtu r' ≤ mtu r)))).
Lemma route_lt_preferred r r' : route_lt r r' → preferred r r'.
Proof.
  unfold route_lt, preferred. rewrite route_compare_key. cbn. intros H.
  destruct (Z.compare_spec (- prefix (network r)) (- prefix (network r'))); try done; [|lia].
  destruct (Z.compare_spec (ip (network r)) (ip (network r'))); try done; [|lia].
  destruct (Z.compare_spec (metric r) (metric r')); try done; [|lia].
  destruct (Z.compare_spec (- scope r) (- scope r')); try done; [|lia].
  destruct (Z.compare_spec (- mtu r) (- mtu r')); try done; lia.
Qed.
Lemma resolve_first alive addr wanted routes : Forall (λ r, cidr_ok (network r) ∧ (in_network (network r) addr → alive (link r) = true)) routes →
  ∃ o, resolve_loop alive routes addr wanted = Ret (o, routes) ∧
    match o with
    | Some r => ∃ pre post, routes = pre ++ r :: post ∧ applies addr wanted r ∧ Forall (λ r', ¬ applies addr wanted r') pre
    | None => Forall (λ r', ¬ applies addr wanted r') routes
    end.
Proof.
  induction 1 as [|r routes [Hc Ha] Hf IH]; [exists None; split; [done|by apply Forall_nil]|]. cbn [resolve_loop].
  assert (∀ o : option Route, match o with Some r0 => ∃ pre post, routes = pre ++ r0 :: post ∧ applies addr wanted r0 ∧ Forall (λ r', ¬ applies addr wanted r') pre
    | None => Forall (λ r', ¬ applies addr wanted r') routes end → ¬ applies addr wanted r →
    match o with Some r0 => ∃ pre post, r :: routes = pre ++ r0 :: post ∧ applies addr wanted r0 ∧ Forall (λ r', ¬ applies addr wanted r') pre
    | None => Forall (λ r', ¬ applies addr wanted r') (r :: routes) end) as Hskip.
  { intros [r0|] Ho Hn; [|by constructor]. destruct Ho as (pre & post & -> & Hr & Hpre). exists (r :: pre), post. split; [done|]. split; [done|by constructor]. }
  destruct IH as (o & Eo & Ho). rewrite Eo. cbn [mbind outcome_bind fst snd].
  destruct (sameNet (network r) addr) eqn:En.
  2: { exists o. split; [done|]. apply Hskip; [done|]. intros [Hi _]. apply sameNet_iff in Hi; [congruence|done]. }
  apply sameNet_iff in En; [|done]. specialize (Ha En).
  assert (∃ other, match wanted with Some l => i ← link_index alive (link r); Ret (negb (i =? l)) | None => Ret false end = Ret other ∧
    (other = false ↔ ∀ l, wanted = Some l → link r = l)) as (other & -> & Hother).
  { destruct wanted as [l|]; [|exists false; split; [done|]; by split]. unfold link_index. rewrite Ha. cbn. exists (negb (link r =? l)). split; [done|].
    rewrite negb_false_iff, Z.eqb_eq. split; [intros E l' [= <-]; done|]. intros H. by apply H. }
  cbn [mbind outcome_bind]. destruct other.
  - exists o. split; [done|]. apply Hskip; [done|]. intros [_ Hl]. apply Hother in Hl. done.
  - rewrite Ha. cbn. exists (Some r). split; [done|]. exists [], routes. split; [done|]. split; [split; [done|by apply Hother]|by apply Forall_nil].
Qed.

(** A default route and two routes to networks of which one contains the other. *)
Definition demo_route (addr len l : Z) : Route := MkRoute (MkCidr addr len) l 0 0 0 0 0 0 0 0 0.
Definition demo_routes : list Route := [demo_route 0x0a000000 8 1; demo_route 0 0 2; demo_route 0x0a010000 16 3].

(** ** Routes that are lost *)

(** The link of a route is not part of the comparison: of two default routes over different links the second is dropped. *)
Lemma other_link_dropped r l : addRoute [r] (set_route_link r l) = (false, [r]).
Proof.
  cbn [addRoute]. assert (route_compare (set_route_link r l) r = Eq) as ->; [|done]. rewrite route_compare_key. unfold route_key. cbn.
  by rewrite !Z.compare_refl.
Qed.
(** Behind an expired route the next route is passed over, and at the end of the table the loop runs past the end. *)
Lemma expired_route_skips alive r r' addr : alive (link r) = false → sameNet (network r) addr = true → resolveRoute alive [r; r'] addr None = Ret (None, [r']).
Proof. intros Ha Hs. unfold resolveRoute. cbn. by rewrite Hs, Ha. Qed.
Lemma expired_route_last alive r addr : alive (link r) = false → sameNet (network r) addr = true → resolveRoute alive [r] addr None = Stop OutOfBounds.
Proof. intros Ha Hs. unfold resolveRoute. cbn. by rewrite Hs, Ha. Qed.
