(* ===== verification/Tcp.v ===== *)
(** * TCP sockets

    [RingBuffer], [TcpPacket], [Tcp4Socket] and [Tcp4] of servers/netserver/src/ip/tcp4.cpp.

    A socket is a record; [handleInPacket_], one round of [flushOutPackets_] and the
    sections of the calls of a client between two suspension points are functions on it.
    The IP layer is left out: the result of a round of [flushOutPackets_] is the TCP packet
    that it sends, and the route to the remote host is an argument.  Random numbers are
    arguments as well.  Sockets are not bound to an interface. *)
From Stdlib Require Import ZArith Lia ZifyBool.
From stdpp Require Import base list numbers option.
From S2P Require Import Prelude Checksum.
Open Scope Z_scope.

(** ** Ring buffers *)
Record RingBuffer := MkRing { storage_ : list Z; shift_ : Z; enqPtr_ : Z; deqPtr_ : Z }.
Definition ring_new (shift : Z) : RingBuffer := MkRing (replicate (Z.to_nat (2 ^ shift)) 0) shift 0 0.
Definition ringSize (r : RingBuffer) : Z := Z.shiftl 1 (shift_ r).
Definition availableToDequeue (r : RingBuffer) : Z := u64 (enqPtr_ r - deqPtr_ r).
Definition spaceForEnqueue (r : RingBuffer) : Z := u64 (ringSize r - u64 (enqPtr_ r - deqPtr_ r)).
Definition enqueue (r : RingBuffer) (data : list Z) : outcome RingBuffer :=
  let size := Z.of_nat (length data) in
  assert! size <=? spaceForEnqueue r;
  let wrappedPtr := Z.land (enqPtr_ r) (ringSize r - 1) in
  let bytesUntilEnd := Z.min size (ringSize r - wrappedPtr) in
  let storage := write_at (storage_ r) wrappedPtr (take (Z.to_nat bytesUntilEnd) data) in
  let storage := write_at storage 0 (drop (Z.to_nat bytesUntilEnd) data) in
  Ret (MkRing storage (shift_ r) (u64 (enqPtr_ r + size)) (deqPtr_ r)).
Definition dequeueLookahead (r : RingBuffer) (offset size : Z) : outcome (list Z) :=
  assert! u64 (offset + size) <=? availableToDequeue r;
  let wrappedPtr := Z.land (u64 (deqPtr_ r + offset)) (ringSize r - 1) in
  let bytesUntilEnd := Z.min size (ringSize r - wrappedPtr) in
  Ret (take (Z.to_nat bytesUntilEnd) (drop (Z.to_nat wrappedPtr) (storage_ r)) ++ take (Z.to_nat (size - bytesUntilEnd)) (storage_ r)).
Definition dequeueAdvance (r : RingBuffer) (size : Z) : RingBuffer :=
  MkRing (storage_ r) (shift_ r) (enqPtr_ r) (u64 (deqPtr_ r + size)).

(** ** Packets *)
Record TcpHeader := MkTcpHeader {
  srcPort : Z; destPort : Z; seqNumber : Z; ackNumber : Z; flags : Z; window : Z; tcp_checksum : Z; urgentPointer : Z;
}.
Definition sizeof_TcpHeader : Z := 20.
Definition finFlag (f : bool) : Z := Z.b2z f.
Definition synFlag (f : bool) : Z := Z.shiftl (Z.b2z f) 1.
Definition ackFlag (f : bool) : Z := Z.shiftl (Z.b2z f) 4.
Definition headerWords (n : Z) : Z := Z.shiftl n 12.
Definition is_fin (h : TcpHeader) : bool := Z.testbit (flags h) 0.
Definition is_syn (h : TcpHeader) : bool := Z.testbit (flags h) 1.
Definition is_ack (h : TcpHeader) : bool := Z.testbit (flags h) 4.
Definition words (h : TcpHeader) : Z := Z.land (Z.shiftr (flags h) 12) 15.
Definition tcp_header_bytes (h : TcpHeader) : list Z :=
  be_bytes 2 (srcPort h) ++ be_bytes 2 (destPort h) ++ be_bytes 4 (seqNumber h) ++ be_bytes 4 (ackNumber h) ++ be_bytes 2 (flags h) ++
  be_bytes 2 (window h) ++ be_bytes 2 (tcp_checksum h) ++ be_bytes 2 (urgentPointer h).
Definition tcp_field (data : list Z) (offset size : nat) : Z := be_value (take size (drop offset data)).
Definition read_tcp_header (data : list Z) : TcpHeader :=
  MkTcpHeader (tcp_field data 0 2) (tcp_field data 2 2) (tcp_field data 4 4) (tcp_field data 8 4) (tcp_field data 12 2)
    (tcp_field data 14 2) (tcp_field data 16 2) (tcp_field data 18 2).
Definition set_tcp_checksum (h : TcpHeader) (v : Z) : TcpHeader :=
  MkTcpHeader (srcPort h) (destPort h) (seqNumber h) (ackNumber h) (flags h) (window h) v (urgentPointer h).

Definition IpProto_tcp : Z := 6.
Definition pseudo_bytes (src dst proto len : Z) : list Z := be_bytes 4 src ++ be_bytes 4 dst ++ [0; proto] ++ be_bytes 2 len.

Record TcpPacket := MkTcpPacket { tcp_header : TcpHeader; tcp_payload : list Z; from_ip : Z; to_ip : Z }.
(** [TcpPacket::parse] on the payload of an IP packet. *)
Definition parse_tcp (src dst proto : Z) (ipPayload : list Z) : option TcpPacket :=
  let size := Z.of_nat (length ipPayload) in
  if size <? sizeof_TcpHeader then None
  else
    let h := read_tcp_header ipPayload in
    if words h * 4 <? sizeof_TcpHeader then None
    else if size <? words h * 4 then None
    else
      let result := finalize (update (update 0 (pseudo_bytes src dst proto (u16 size))) ipPayload) in
      if negb (tcp_checksum h =? 0) && (negb (result =? 0) && negb (Z.lnot result =? 0)) then None
      else Some (MkTcpPacket h (drop (Z.to_nat (words h * 4)) ipPayload) src dst).
(** A packet to send, with its checksum. *)
Definition build_tcp (src dst : Z) (h : TcpHeader) (payload : list Z) : list Z :=
  let buf := tcp_header_bytes (set_tcp_checksum h 0) ++ payload in
  let sum := finalize (update (update 0 (pseudo_bytes src dst IpProto_tcp (u16 (Z.of_nat (length buf))))) buf) in
  tcp_header_bytes (set_tcp_checksum h sum) ++ payload.

(** ** Sockets *)
Inductive ConnectState := cs_none | sendSyn | sendSynAck | connected | sendFin | finAcked.
#[export] Instance ConnectState_eq_dec : EqDecision ConnectState.
Proof. solve_decision. Defined.
Record TcpEndpoint := MkEndpoint { ipAddress : Z; port : Z }.
#[export] Instance TcpEndpoint_eq_dec : EqDecision TcpEndpoint.
Proof. solve_decision. Defined.
Record PendingConnection := MkPending { localIp : Z; remoteIp : Z; remotePort : Z; sequence : Z }.

Record Tcp4Socket := MkSocket {
  nonBlock_ : bool;
  remoteEp_ : TcpEndpoint;
  localEp_ : TcpEndpoint;
  pendingConnections_ : list nat;
  connectState_ : ConnectState;
  remoteClosed_ : bool;
  localClosed_ : bool;
  listening_ : bool;
  localSettledSn_ : Z;
  localFlushedSn_ : Z;
  localWindowSn_ : Z;
  remoteAckedSn_ : Z;
  remoteKnownSn_ : Z;
  announcedWindow_ : Z;
  recvRing_ : RingBuffer;
  sendRing_ : RingBuffer;
  currentSeq_ : Z;
  inSeq_ : Z;
  outSeq_ : Z;
  hupSeq_ : Z;
  listenSeq_ : Z;
}.
Definition no_endpoint : TcpEndpoint := MkEndpoint 0 0.
Definition Tcp4Socket_new (nonBlock : bool) : Tcp4Socket :=
  MkSocket nonBlock no_endpoint no_endpoint [] cs_none false false false 0 0 0 0 0 0 (ring_new 14) (ring_new 14) 1 1 0 1 1.

Definition set_state (s : Tcp4Socket) (st : ConnectState) : Tcp4Socket :=
  MkSocket (nonBlock_ s) (remoteEp_ s) (localEp_ s) (pendingConnections_ s) st (remoteClosed_ s) (localClosed_ s) (listening_ s)
    (localSettledSn_ s) (localFlushedSn_ s) (localWindowSn_ s) (remoteAckedSn_ s) (remoteKnownSn_ s) (announcedWindow_ s) (recvRing_ s)
    (sendRing_ s) (currentSeq_ s) (inSeq_ s) (outSeq_ s) (hupSeq_ s) (listenSeq_ s).
Definition set_endpoints (s : Tcp4Socket) (remote loc : TcpEndpoint) : Tcp4Socket :=
  MkSocket (nonBlock_ s) remote loc (pendingConnections_ s) (connectState_ s) (remoteClosed_ s) (localClosed_ s) (listening_ s)
    (localSettledSn_ s) (localFlushedSn_ s) (localWindowSn_ s) (remoteAckedSn_ s) (remoteKnownSn_ s) (announcedWindow_ s) (recvRing_ s)
    (sendRing_ s) (currentSeq_ s) (inSeq_ s) (outSeq_ s) (hupSeq_ s) (listenSeq_ s).
Definition set_closed (s : Tcp4Socket) (remote loc : bool) : Tcp4Socket :=
  MkSocket (nonBlock_ s) (remoteEp_ s) (localEp_ s) (pendingConnections_ s) (connectState_ s) remote loc (listening_ s)
    (localSettledSn_ s) (localFlushedSn_ s) (localWindowSn_ s) (remoteAckedSn_ s) (remoteKnownSn_ s) (announcedWindow_ s) (recvRing_ s)
    (sendRing_ s) (currentSeq_ s) (inSeq_ s) (outSeq_ s) (hupSeq_ s) (listenSeq_ s).
Definition set_listening (s : Tcp4Socket) (l : bool) : Tcp4Socket :=
  MkSocket (nonBlock_ s) (remoteEp_ s) (localEp_ s) (pendingConnections_ s) (connectState_ s) (remoteClosed_ s) (localClosed_ s) l
    (localSettledSn_ s) (localFlushedSn_ s) (localWindowSn_ s) (remoteAckedSn_ s) (remoteKnownSn_ s) (announcedWindow_ s) (recvRing_ s)
    (sendRing_ s) (currentSeq_ s) (inSeq_ s) (outSeq_ s) (hupSeq_ s) (listenSeq_ s).
Definition set_local (s : Tcp4Socket) (settled flushed win : Z) : Tcp4Socket :=
  MkSocket (nonBlock_ s) (remoteEp_ s) (localEp_ s) (pendingConnections_ s) (connectState_ s) (remoteClosed_ s) (localClosed_ s) (listening_ s)
    settled flushed win (remoteAckedSn_ s) (remoteKnownSn_ s) (announcedWindow_ s) (recvRing_ s)
    (sendRing_ s) (currentSeq_ s) (inSeq_ s) (outSeq_ s) (hupSeq_ s) (listenSeq_ s).
Definition set_remote (s : Tcp4Socket) (acked known announced : Z) : Tcp4Socket :=
  MkSocket (nonBlock_ s) (remoteEp_ s) (localEp_ s) (pendingConnections_ s) (connectState_ s) (remoteClosed_ s) (localClosed_ s) (listening_ s)
    (localSettledSn_ s) (localFlushedSn_ s) (localWindowSn_ s) acked known announced (recvRing_ s)
    (sendRing_ s) (currentSeq_ s) (inSeq_ s) (outSeq_ s) (hupSeq_ s) (listenSeq_ s).
Definition set_rings (s : Tcp4Socket) (recv send : RingBuffer) : Tcp4Socket :=
  MkSocket (nonBlock_ s) (remoteEp_ s) (localEp_ s) (pendingConnections_ s) (connectState_ s) (remoteClosed_ s) (localClosed_ s) (listening_ s)
    (localSettledSn_ s) (localFlushedSn_ s) (localWindowSn_ s) (remoteAckedSn_ s) (remoteKnownSn_ s) (announcedWindow_ s) recv
    send (currentSeq_ s) (inSeq_ s) (outSeq_ s) (hupSeq_ s) (listenSeq_ s).
Definition set_pending (s : Tcp4Socket) (l : list nat) : Tcp4Socket :=
  MkSocket (nonBlock_ s) (remoteEp_ s) (localEp_ s) l (connectState_ s) (remoteClosed_ s) (localClosed_ s) (listening_ s)
    (localSettledSn_ s) (localFlushedSn_ s) (localWindowSn_ s) (remoteAckedSn_ s) (remoteKnownSn_ s) (announcedWindow_ s) (recvRing_ s)
    (sendRing_ s) (currentSeq_ s) (inSeq_ s) (outSeq_ s) (hupSeq_ s) (listenSeq_ s).
(** The sequence numbers for [poll]. *)
Definition set_polls (s : Tcp4Socket) (cur inn out hup listen : Z) : Tcp4Socket :=
  MkSocket (nonBlock_ s) (remoteEp_ s) (localEp_ s) (pendingConnections_ s) (connectState_ s) (remoteClosed_ s) (localClosed_ s) (listening_ s)
    (localSettledSn_ s) (localFlushedSn_ s) (localWindowSn_ s) (remoteAckedSn_ s) (remoteKnownSn_ s) (announcedWindow_ s) (recvRing_ s)
    (sendRing_ s) cur inn out hup listen.
Definition bump_in (s : Tcp4Socket) : Tcp4Socket :=
  let n := u64 (currentSeq_ s + 1) in set_polls s n n (outSeq_ s) (hupSeq_ s) (listenSeq_ s).
Definition bump_hup (s : Tcp4Socket) : Tcp4Socket :=
  let n := u64 (currentSeq_ s + 1) in set_polls s n (inSeq_ s) (outSeq_ s) n (listenSeq_ s).
Definition bump_out (s : Tcp4Socket) : Tcp4Socket :=
  let n := u64 (currentSeq_ s + 1) in set_polls s n (inSeq_ s) n (hupSeq_ s) (listenSeq_ s).
Definition bump_listen (s : Tcp4Socket) : Tcp4Socket :=
  let n := u64 (currentSeq_ s + 1) in set_polls s n (inSeq_ s) (outSeq_ s) (hupSeq_ s) n.

(** *** Sending *)
Inductive flush_result := FlushWait | FlushStopped | FlushSent (buf : list Z).
Definition syn_header (s : Tcp4Socket) (ackn : Z) (ack : bool) : TcpHeader :=
  MkTcpHeader (port (localEp_ s)) (port (remoteEp_ s)) (localFlushedSn_ s) ackn
    (Z.lor (Z.lor (headerWords 5) (synFlag true)) (ackFlag ack)) 0 0 0.
Definition data_header (s : Tcp4Socket) (fin : bool) : TcpHeader :=
  MkTcpHeader (port (localEp_ s)) (port (remoteEp_ s)) (localFlushedSn_ s) (remoteKnownSn_ s)
    (Z.lor (Z.lor (headerWords 5) (ackFlag true)) (finFlag fin)) (Z.min (spaceForEnqueue (recvRing_ s)) 0xFFFF) 0 0.
(** The first packet of a connection, with a random sequence number. *)
Definition flush_syn (s : Tcp4Socket) (target : option Z) (random : Z) (ackn : Z) (ack : bool) : flush_result * Tcp4Socket :=
  if negb (localSettledSn_ s =? localFlushedSn_ s) then (FlushWait, s)
  else
    let s := set_local s random random (localWindowSn_ s) in
    match target with
    | None => (FlushStopped, s)
    | Some src =>
        let buf := build_tcp src (ipAddress (remoteEp_ s)) (syn_header s ackn ack) [] in
        (FlushSent buf, set_local s (localSettledSn_ s) (u32 (localFlushedSn_ s + 1)) (localWindowSn_ s))
    end.
Definition flush_chunk (s : Tcp4Socket) : outcome Z :=
  let flushPointer := u32 (localFlushedSn_ s - localSettledSn_ s) in
  let windowPointer := u32 (localWindowSn_ s - localSettledSn_ s) in
  if bool_decide (connectState_ s = connected) then
    let bytesAvailable := availableToDequeue (sendRing_ s) in
    assert! flushPointer <=? bytesAvailable;
    Ret (if (flushPointer <? bytesAvailable) && (flushPointer <? windowPointer)
         then Z.min (Z.min (bytesAvailable - flushPointer) (windowPointer - flushPointer)) 1280 else 0)
  else Ret 0.
Definition flush_data (s : Tcp4Socket) (target : option Z) : outcome (flush_result * Tcp4Socket) :=
  match target with
  | None => Ret (FlushStopped, s)
  | Some src =>
      let flushPointer := u32 (localFlushedSn_ s - localSettledSn_ s) in
      chunk ← flush_chunk s;
      let fin := bool_decide (connectState_ s = sendFin) && (flushPointer =? 0) in
      let wantAck := negb (remoteAckedSn_ s =? remoteKnownSn_ s) in
      let wantWindowUpdate := announcedWindow_ s <? spaceForEnqueue (recvRing_ s) in
      if (chunk =? 0) && negb fin && negb wantAck && negb wantWindowUpdate then Ret (FlushWait, s)
      else
        data ← (if chunk =? 0 then Ret [] else dequeueLookahead (sendRing_ s) flushPointer chunk);
        let buf := build_tcp src (ipAddress (remoteEp_ s)) (data_header s fin) data in
        let flushed := u32 (u32 (localFlushedSn_ s + chunk) + Z.b2z fin) in
        let s' := set_local s (localSettledSn_ s) flushed (localWindowSn_ s) in
        Ret (FlushSent buf, set_remote s' (remoteKnownSn_ s) (remoteKnownSn_ s) (u32 (spaceForEnqueue (recvRing_ s))))
  end.
(** One round of [flushOutPackets_]. *)
Definition flush_round (s : Tcp4Socket) (target : option Z) (random : Z) : outcome (flush_result * Tcp4Socket) :=
  match connectState_ s with
  | cs_none => Ret (FlushWait, s)
  | sendSyn => Ret (flush_syn s target random 0 false)
  | sendSynAck => Ret (flush_syn s target random (remoteKnownSn_ s) true)
  | _ => flush_data s target
  end.

(** *** Receiving *)
(** The first part of [handleInPacket_], for a socket that listens; [sockets] are the sockets by their numbers. *)
Definition in_listening (sockets : nat → option Tcp4Socket) (s : Tcp4Socket) (pkt : TcpPacket) : option PendingConnection :=
  let h := tcp_header pkt in
  let same id :=
    match sockets id with
    | Some pending => (ipAddress (remoteEp_ pending) =? from_ip pkt) && (port (remoteEp_ pending) =? srcPort h)
    | None => false
    end in
  if is_syn h then
    if existsb same (pendingConnections_ s) then None
    else Some (MkPending (to_ip pkt) (from_ip pkt) (srcPort h) (seqNumber h))
  else None.
Definition in_sendSyn (s : Tcp4Socket) (h : TcpHeader) : Tcp4Socket :=
  if localSettledSn_ s =? localFlushedSn_ s then s
  else if negb (is_syn h) then s
  else if negb (is_ack h) then s
  else if negb (ackNumber h =? u32 (localSettledSn_ s + 1)) then s
  else
    let settled := u32 (localSettledSn_ s + 1) in
    let s := set_local s settled (localFlushedSn_ s) (u32 (settled + window h)) in
    let s := set_remote s (seqNumber h) (u32 (seqNumber h + 1)) (announcedWindow_ s) in
    set_state s connected.
Definition in_sendSynAck (s : Tcp4Socket) (h : TcpHeader) : Tcp4Socket :=
  if localSettledSn_ s =? localFlushedSn_ s then s
  else if negb (is_ack h) then s
  else if negb (ackNumber h =? u32 (localSettledSn_ s + 1)) then s
  else if negb (seqNumber h =? remoteKnownSn_ s) then s
  else
    let settled := u32 (localSettledSn_ s + 1) in
    set_state (set_local s settled (localFlushedSn_ s) (u32 (settled + window h))) connected.
Definition in_data (s : Tcp4Socket) (pkt : TcpPacket) : outcome Tcp4Socket :=
  let h := tcp_header pkt in
  if seqNumber h =? remoteKnownSn_ s then
    let chunk := Z.min (Z.of_nat (length (tcp_payload pkt))) (spaceForEnqueue (recvRing_ s)) in
    s ← (if chunk =? 0 then Ret s
         else
           ring ← enqueue (recvRing_ s) (take (Z.to_nat chunk) (tcp_payload pkt));
           let announced := if announcedWindow_ s <? chunk then 0 else announcedWindow_ s - chunk in
           let s := set_rings s ring (sendRing_ s) in
           Ret (bump_in (set_remote s (remoteAckedSn_ s) (u32 (remoteKnownSn_ s + chunk)) announced)));
    if is_fin h then
      let s := set_remote s (remoteAckedSn_ s) (u32 (remoteKnownSn_ s + 1)) (announcedWindow_ s) in
      Ret (bump_hup (set_closed s true (localClosed_ s)))
    else Ret s
  else Ret s.
Definition in_ack (s : Tcp4Socket) (h : TcpHeader) : Tcp4Socket :=
  if is_ack h then
    match connectState_ s with
    | connected =>
        let validWindow := u32 (localFlushedSn_ s - localSettledSn_ s) in
        let ackPointer := u32 (ackNumber h - localSettledSn_ s) in
        if ackPointer <=? validWindow then
          let settled := u32 (localSettledSn_ s + ackPointer) in
          let s := set_local s settled (localFlushedSn_ s) (u32 (settled + window h)) in
          bump_out (set_rings s (recvRing_ s) (dequeueAdvance (sendRing_ s) ackPointer))
        else s
    | sendFin =>
        if ackNumber h =? u32 (localSettledSn_ s + 1) then
          let settled := u32 (localSettledSn_ s + 1) in
          set_local (set_state s finAcked) settled (localFlushedSn_ s) (u32 (settled + window h))
        else s
    | _ => s
    end
  else s.
(** The rest of [handleInPacket_]. *)
Definition handleInPacket_ (s : Tcp4Socket) (pkt : TcpPacket) : outcome Tcp4Socket :=
  match connectState_ s with
  | cs_none => Ret s
  | sendSyn => Ret (in_sendSyn s (tcp_header pkt))
  | sendSynAck => Ret (in_sendSynAck s (tcp_header pkt))
  | _ => s ← in_data s pkt; Ret (in_ack s (tcp_header pkt))
  end.
(** ** The table of bound sockets

    A multimap, in the order of port and address; sockets are named by numbers. *)
Definition Binds : Type := list (TcpEndpoint * nat).
Definition ep_lt (a b : TcpEndpoint) : bool := (port a <? port b) || (port a =? port b) && (ipAddress a <? ipAddress b).
Fixpoint lower_bound (b : Binds) (e : TcpEndpoint) : Binds :=
  match b with
  | [] => []
  | x :: b' => if ep_lt x.1 e then lower_bound b' e else b
  end.
Fixpoint emplace (b : Binds) (e : TcpEndpoint) (id : nat) : Binds :=
  match b with
  | [] => [(e, id)]
  | x :: b' => if ep_lt e x.1 then (e, id) :: b else x :: emplace b' e id
  end.
Definition INADDR_ANY : Z := 0.
Fixpoint bind_conflict (b : Binds) (wanted : TcpEndpoint) : bool :=
  match b with
  | [] => false
  | (existing, _) :: b =>
      if port existing =? port wanted then
        if (ipAddress existing =? INADDR_ANY) || (ipAddress wanted =? INADDR_ANY) || (ipAddress existing =? ipAddress wanted) then true
        else bind_conflict b wanted
      else false
  end.
Definition tryBind (b : Binds) (id : nat) (s : Tcp4Socket) (unique : bool) (wanted : TcpEndpoint) : option (Tcp4Socket * Binds) :=
  if unique && bind_conflict (lower_bound b wanted) wanted then None
  else Some (set_endpoints s (remoteEp_ s) wanted, emplace b wanted id).
Definition unbind (b : Binds) (e : TcpEndpoint) : bool * Binds :=
  let kept := filter (λ x, x.1 ≠ e) b in (negb (length kept =? length b)%nat, kept).
(** [bindAvailable] tries the ports from 32768 on, beginning at a random one. *)
Fixpoint bind_from (n : nat) (b : Binds) (id : nat) (s : Tcp4Socket) (ip : Z) (unique : bool) (number i : Z) : option (Tcp4Socket * Binds) :=
  match n with
  | O => None
  | S n =>
      match tryBind b id s unique (MkEndpoint ip (u16 (32768 + (number + i) mod (60999 - 32768)))) with
      | Some r => Some r
      | None => bind_from n b id s ip unique number (i + 1)
      end
  end.
Definition bindAvailable (b : Binds) (id : nat) (s : Tcp4Socket) (ip : Z) (unique : bool) (number : Z) : option (Tcp4Socket * Binds) :=
  bind_from (Z.to_nat (60999 - 32768)) b id s ip unique number 0.
(** The socket that [feedDatagram] gives a packet to; [sockets] are the sockets. *)
Fixpoint demux (b : Binds) (sockets : nat → option Tcp4Socket) (wantListening : bool) (pkt : TcpPacket) : option nat :=
  match b with
  | [] => None
  | (existing, id) :: b =>
      if port existing =? destPort (tcp_header pkt) then
        match sockets id with
        | Some s =>
            if negb (eqb (listening_ s) wantListening) then demux b sockets wantListening pkt
            else if negb wantListening &&
                    (negb (from_ip pkt =? ipAddress (remoteEp_ s)) || negb (srcPort (tcp_header pkt) =? port (remoteEp_ s)))
            then demux b sockets wantListening pkt
            else if (ipAddress existing =? to_ip pkt) || (ipAddress existing =? INADDR_ANY) then Some id
            else demux b sockets wantListening pkt
        | None => demux b sockets wantListening pkt
        end
      else None
  end.
Definition feed_target (b : Binds) (sockets : nat → option Tcp4Socket) (pkt : TcpPacket) : option nat :=
  let start := lower_bound b (MkEndpoint 0 (destPort (tcp_header pkt))) in
  match demux start sockets false pkt with
  | Some id => Some id
  | None => demux start sockets true pkt
  end.

(** ** Calls *)
Inductive Error := err_none | illegalArguments | afNotSupported | accessDenied | addressNotAvailable | addressInUse | notConnected.
(** A socket address with its fields in host order; [None] is an address that is too short. *)
Record sockaddr_in := MkSockaddr { sin_is_inet : bool; sin_port : Z; sin_addr : Z }.
Definition checkAddress (addr : option sockaddr_in) : Error * TcpEndpoint :=
  match addr with
  | None => (illegalArguments, no_endpoint)
  | Some sa => if sin_is_inet sa then (err_none, MkEndpoint (sin_addr sa) (sin_port sa)) else (afNotSupported, no_endpoint)
  end.
Definition INADDR_BROADCAST : Z := 0xffffffff.
Definition bind (b : Binds) (id : nat) (s : Tcp4Socket) (hasIp : Z → bool) (number : Z) (addr : option sockaddr_in) : Error * Tcp4Socket * Binds :=
  if negb (port (localEp_ s) =? 0) then (illegalArguments, s, b)
  else
    match checkAddress addr with
    | (err_none, bindEp) =>
        if ipAddress bindEp =? INADDR_BROADCAST then (accessDenied, s, b)
        else if negb (ipAddress bindEp =? INADDR_ANY) && negb (hasIp (ipAddress bindEp)) then (addressNotAvailable, s, b)
        else
          match (if port bindEp =? 0 then bindAvailable b id s (ipAddress bindEp) true number else tryBind b id s true bindEp) with
          | Some (s, b) => (err_none, s, b)
          | None => (addressInUse, s, b)
          end
    | (e, _) => (e, s, b)
    end.
(** [connect] up to the wait for the end of the handshake, which it begins when there is no error. *)
Definition connect_begin (b : Binds) (id : nat) (s : Tcp4Socket) (number : Z) (addr : option sockaddr_in) : Error * Tcp4Socket * Binds :=
  if negb (bool_decide (connectState_ s = cs_none)) then (illegalArguments, s, b)
  else
    match checkAddress addr with
    | (err_none, connectEp) =>
        if ipAddress connectEp =? INADDR_BROADCAST then (accessDenied, s, b)
        else
          match (if port (localEp_ s) =? 0 then bindAvailable b id s INADDR_ANY true number else Some (s, b)) with
          | Some (s, b) => (err_none, set_endpoints (set_state s sendSyn) connectEp (localEp_ s), b)
          | None => (addressNotAvailable, s, b)
          end
    | (e, _) => (e, s, b)
    end.
Definition connect_waits (s : Tcp4Socket) : bool := bool_decide (connectState_ s = sendSyn).
Definition listen (s : Tcp4Socket) : Tcp4Socket := set_listening s true.
(** [handleIncomingConnection] creates the socket [id]; after the handshake it becomes a pending connection. *)
Definition incoming_begin (b : Binds) (id : nat) (listener : Tcp4Socket) (c : PendingConnection) : option (Tcp4Socket * Binds) :=
  let sock := set_endpoints (Tcp4Socket_new false) (MkEndpoint (remoteIp c) (remotePort c)) no_endpoint in
  match tryBind b id sock false (MkEndpoint (localIp c) (port (localEp_ listener))) with
  | None => None
  | Some (sock, b) => Some (set_remote (set_state sock sendSynAck) (u32 (sequence c + 1)) (u32 (sequence c + 1)) (announcedWindow_ sock), b)
  end.
Definition incoming_waits (sock : Tcp4Socket) : bool := bool_decide (connectState_ sock = sendSynAck).
Definition incoming_finish (listener : Tcp4Socket) (id : nat) : Tcp4Socket := bump_listen (set_pending listener (pendingConnections_ listener ++ [id])).
Inductive accept_result := AcceptWouldBlock | AcceptWait | Accepted (id : nat).
Definition accept (s : Tcp4Socket) : accept_result * Tcp4Socket :=
  match pendingConnections_ s with
  | [] => (if nonBlock_ s then AcceptWouldBlock else AcceptWait, s)
  | id :: rest => (Accepted id, set_pending s rest)
  end.
Definition has_peer (s : Tcp4Socket) : bool := bool_decide (connectState_ s = connected ∨ connectState_ s = sendFin ∨ connectState_ s = finAcked).
Definition peername (s : Tcp4Socket) : option TcpEndpoint := if has_peer s then Some (remoteEp_ s) else None.
Definition fionread (s : Tcp4Socket) : option Z := if has_peer s then Some (availableToDequeue (recvRing_ s)) else None.

Inductive recv_result := RecvData (data : list Z) | RecvWouldBlock | RecvWait.
(** The loop of [recvMsg]; [RecvWait] waits for data and continues with the loop. *)
Fixpoint recv_loop (fuel : nat) (s : Tcp4Socket) (peek dontwait : bool) (size : Z) (data : list Z) : outcome (recv_result * Tcp4Socket) :=
  match fuel with
  | O => Stop OutOfFuel
  | S fuel =>
      if Z.of_nat (length data) <? size then
        let available := availableToDequeue (recvRing_ s) in
        if available =? 0 then
          if negb (bool_decide (data = [])) || remoteClosed_ s then Ret (RecvData data, s)
          else if nonBlock_ s || dontwait then Ret (RecvWouldBlock, s)
          else Ret (RecvWait, s)
        else
          let chunk := Z.min available (size - Z.of_nat (length data)) in
          bytes ← dequeueLookahead (recvRing_ s) 0 chunk;
          let data := data ++ bytes in
          if peek then Ret (RecvData data, s)
          else recv_loop fuel (set_rings s (dequeueAdvance (recvRing_ s) chunk) (sendRing_ s)) peek dontwait size data
      else Ret (RecvData data, s)
  end.
Definition recvMsg (s : Tcp4Socket) (peek dontwait : bool) (size : Z) : outcome (recv_result * Tcp4Socket) :=
  if remoteClosed_ s then Ret (RecvData [], s)
  else recv_loop 3 s peek dontwait size [].

Inductive send_result := SendDone (progress : Z) | SendBrokenPipe | SendWouldBlock | SendWait (progress : Z).
(** The loop of [sendMsg] over the rest of the data; [SendWait] waits for space. *)
Fixpoint send_msg_loop (fuel : nat) (s : Tcp4Socket) (data : list Z) (progress : Z) : outcome (send_result * Tcp4Socket) :=
  match fuel with
  | O => Stop OutOfFuel
  | S fuel =>
      if progress <? Z.of_nat (length data) then
        let space := spaceForEnqueue (sendRing_ s) in
        if space =? 0 then
          Ret (if nonBlock_ s then if negb (progress =? 0) then SendDone progress else SendWouldBlock else SendWait progress, s)
        else
          let chunk := Z.min space (Z.of_nat (length data) - progress) in
          ring ← enqueue (sendRing_ s) (take (Z.to_nat chunk) (drop (Z.to_nat progress) data));
          send_msg_loop fuel (set_rings s (recvRing_ s) ring) data (progress + chunk)
      else Ret (SendDone progress, s)
  end.
Definition sendMsg (s : Tcp4Socket) (data : list Z) : outcome (send_result * Tcp4Socket) :=
  if localClosed_ s then Ret (SendBrokenPipe, s) else send_msg_loop 3 s data 0.

(** The sections of [disconnect]. *)
Definition disconnect_begin (s : Tcp4Socket) : bool * Tcp4Socket :=
  if localClosed_ s then (false, s)
  else if negb (bool_decide (connectState_ s = connected)) then (false, s)
  else (true, set_closed s (remoteClosed_ s) true).
Definition disconnect_waits (s : Tcp4Socket) : bool := localSettledSn_ s <? localFlushedSn_ s.
Definition disconnect_fin (s : Tcp4Socket) : Tcp4Socket := set_state s sendFin.

(** [pollWait] and [pollStatus]; the events are input, output and hangup. *)
Record PollEvents := MkEvents { ev_in : bool; ev_out : bool; ev_hup : bool }.
Definition poll_edges (s : Tcp4Socket) (pastSeq : Z) : PollEvents :=
  let pastSeq := if currentSeq_ s <? pastSeq then currentSeq_ s else pastSeq in
  MkEvents ((pastSeq <? inSeq_ s) || (pastSeq <? listenSeq_ s)) (pastSeq <? outSeq_ s) (pastSeq <? hupSeq_ s).
Definition pollStatus (s : Tcp4Socket) : Z * PollEvents :=
  (currentSeq_ s, MkEvents (negb (availableToDequeue (recvRing_ s) =? 0) || negb (bool_decide (pendingConnections_ s = [])))
     (negb (spaceForEnqueue (sendRing_ s) =? 0)) (remoteClosed_ s)).
