(* ===== verification/TcpProofs.v ===== *)
(** * TCP: ring buffers and packets

    A ring buffer is a queue of bytes; a packet that a socket builds is parsed as the
    packet with its header and its payload. *)
From Stdlib Require Import ZArith Lia ZifyBool.
From stdpp Require Import base list numbers option.
From S2P Require Import Prelude Checksum Tcp.
Open Scope Z_scope.

(** ** Ring buffers *)
Definition ring_at (r : RingBuffer) (k : Z) : Z := nth (Z.to_nat ((deqPtr_ r + k) mod 2 ^ shift_ r)) (storage_ r) 0.
Definition ring_list (r : RingBuffer) : list Z := ring_at r <$> seqZ 0 (availableToDequeue r).
Record ring_ok (r : RingBuffer) : Prop := {
  ro_shift : 0 ≤ shift_ r < 64;
  ro_length : Z.of_nat (length (storage_ r)) = 2 ^ shift_ r;
  ro_enq : 0 ≤ enqPtr_ r < 2 ^ 64;
  ro_deq : 0 ≤ deqPtr_ r < 2 ^ 64;
  ro_full : availableToDequeue r ≤ 2 ^ shift_ r;
}.

Lemma ring_size r : 0 ≤ shift_ r → ringSize r = 2 ^ shift_ r.
Proof. intros. unfold ringSize. rewrite shiftl_pow2; lia. Qed.
Lemma available_nonneg r : 0 ≤ availableToDequeue r < 2 ^ 64.
Proof. apply u64_bound. Qed.
Lemma ring_list_length r : Z.of_nat (length (ring_list r)) = availableToDequeue r.
Proof. unfold ring_list. rewrite length_fmap, length_seqZ. pose proof (available_nonneg r). lia. Qed.
Lemma pow_shift_lt n : 0 ≤ n < 64 → 0 < 2 ^ n < 2 ^ 64.
Proof. intros. split; [apply pow2_pos; lia|apply Z.pow_lt_mono_r; lia]. Qed.
Lemma ring_space r : ring_ok r → spaceForEnqueue r = 2 ^ shift_ r - availableToDequeue r.
Proof.
  intros [Hs _ _ _ Hf]. unfold spaceForEnqueue. rewrite ring_size by lia. fold (availableToDequeue r).
  pose proof (available_nonneg r). pose proof (pow_shift_lt _ Hs). apply u64_small. lia.
Qed.
Lemma land_pred x n : 0 ≤ n → Z.land x (2 ^ n - 1) = x mod 2 ^ n.
Proof. intros. rewrite <- Z.land_ones by lia. f_equal. rewrite Z.ones_equiv. lia. Qed.
(** Positions in the ring do not see the wrap-around of the pointers. *)
Lemma u64_mod_pow x n : 0 ≤ n < 64 → u64 x mod 2 ^ n = x mod 2 ^ n.
Proof.
  intros Hn. pose proof (pow_shift_lt n Hn). unfold u64, wrap. rewrite (Z.div_mod x (2 ^ 64)) at 2 by lia.
  replace (2 ^ 64) with (2 ^ (64 - n) * 2 ^ n) at 2 by (rewrite <- Z.pow_add_r by lia; f_equal; lia).
  replace (2 ^ (64 - n) * 2 ^ n * (x / 2 ^ 64) + x mod 2 ^ 64) with (x mod 2 ^ 64 + 2 ^ (64 - n) * (x / 2 ^ 64) * 2 ^ n) by lia.
  by rewrite Z.mod_add by lia.
Qed.
Lemma ring_list_lookup r (k : nat) : ring_list r !! k = if decide (Z.of_nat k < availableToDequeue r) then Some (ring_at r (Z.of_nat k)) else None.
Proof.
  unfold ring_list. rewrite list_lookup_fmap. case_decide.
  - rewrite lookup_seqZ_lt by lia. cbn. f_equal.
  - by rewrite lookup_seqZ_ge by lia.
Qed.
Lemma enq_mod r : ring_ok r → enqPtr_ r mod 2 ^ shift_ r = (deqPtr_ r + availableToDequeue r) mod 2 ^ shift_ r.
Proof.
  intros [Hs _ _ _ _]. unfold availableToDequeue. rewrite <- Z.add_mod_idemp_r by (pose proof (pow_shift_lt _ Hs); lia).
  rewrite u64_mod_pow, Z.add_mod_idemp_r by (pose proof (pow_shift_lt _ Hs); lia). f_equal. lia.
Qed.

Lemma ring_new_ok shift : 0 ≤ shift < 64 → ring_ok (ring_new shift).
Proof.
  intros Hs. pose proof (pow_shift_lt _ Hs). split; cbn [ring_new shift_ storage_ enqPtr_ deqPtr_]; try lia.
  - rewrite length_replicate. lia.
  - change (availableToDequeue (ring_new shift)) with 0. lia.
Qed.
Lemma ring_new_list shift : ring_list (ring_new shift) = [].
Proof. done. Qed.

Lemma mod_close x y n : x mod n = y mod n → - n < x - y < n → 0 < n → x = y.
Proof.
  intros E H Hn. pose proof (Z.div_mod x n ltac:(lia)). pose proof (Z.div_mod y n ltac:(lia)).
  assert (x - y = n * (x / n - y / n)) as D by lia. assert (x / n - y / n = 0); nia.
Qed.
Lemma mod_wrap w i n : 0 ≤ w < n → 0 ≤ i ≤ n → (w + i) mod n = if decide (w + i < n) then w + i else w + i - n.
Proof.
  intros. case_decide; [apply Z.mod_small; lia|]. replace (w + i) with (w + i - n + 1 * n) at 1 by lia.
  rewrite Z.mod_add by lia. apply Z.mod_small. lia.
Qed.

(** What the two copies of [enqueue] do to the storage. *)
Lemma ring_copy (storage data : list Z) n w (p : nat) : Z.of_nat (length storage) = n → 0 ≤ w < n → Z.of_nat (length data) ≤ n →
  let B := Z.min (Z.of_nat (length data)) (n - w) in
  let storage' := write_at (write_at storage w (take (Z.to_nat B) data)) 0 (drop (Z.to_nat B) data) in
  length storage' = length storage ∧
  storage' !! p =
    if decide (Z.of_nat p < Z.of_nat (length data) - B) then data !! (p + Z.to_nat B)%nat
    else if decide (w ≤ Z.of_nat p < w + B) then data !! (p - Z.to_nat w)%nat else storage !! p.
Proof.
  intros Hn Hw Hd B storage'. unfold storage'.
  assert (length (write_at storage w (take (Z.to_nat B) data)) = length storage) as Hl by (apply write_at_length; rewrite ?length_take; lia).
  split; [rewrite write_at_length; rewrite ?length_drop; lia|].
  rewrite write_at_lookup by (rewrite ?length_drop; lia). rewrite length_drop. case_decide as D1.
  - rewrite decide_True, lookup_drop by lia. f_equal. lia.
  - rewrite decide_False by lia. rewrite write_at_lookup by (rewrite ?length_take; lia). rewrite length_take. case_decide as D2.
    + rewrite decide_True, lookup_take_lt by lia. done.
    + by rewrite decide_False by lia.
Qed.

Lemma enqueue_spec r data : ring_ok r → Z.of_nat (length data) ≤ spaceForEnqueue r →
  ∃ r', enqueue r data = Ret r' ∧ ring_ok r' ∧ ring_list r' = ring_list r ++ data ∧ shift_ r' = shift_ r.
Proof.
  intros Hr Hd. pose proof Hr as [Hs Hl He Hq Hf]. pose proof (ring_space r Hr) as Hsp. pose proof (available_nonneg r) as Ha.
  pose proof (pow_shift_lt _ Hs) as Hn. unfold enqueue. rewrite (proj2 (Z.leb_le _ _) Hd). eexists; split; [reflexivity|].
  rewrite ring_size, land_pred, enq_mod by (done || lia). set (n := 2 ^ shift_ r) in *. set (w := (deqPtr_ r + availableToDequeue r) mod n).
  assert (0 ≤ w < n) as Hw by (apply Z.mod_pos_bound; lia).
  set (st := write_at _ _ _). assert (∀ p, length st = length (storage_ r) ∧ _) as Hst by (intros p; exact (ring_copy (storage_ r) data n w p Hl Hw ltac:(lia))).
  set (r' := MkRing _ _ _ _).
  assert (availableToDequeue r' = availableToDequeue r + Z.of_nat (length data)) as Ha'.
  { unfold availableToDequeue, r'. cbn. unfold u64, wrap. rewrite Zminus_mod_idemp_l. replace (enqPtr_ r + Z.of_nat (length data) - deqPtr_ r) with (enqPtr_ r - deqPtr_ r + Z.of_nat (length data)) by lia.
    rewrite <- Z.add_mod_idemp_l by lia. change ((enqPtr_ r - deqPtr_ r) mod 2 ^ 64) with (availableToDequeue r). apply Z.mod_small. lia. }
  split; [|split; [|done]].
  { split; cbn; [done|rewrite (proj1 (Hst 0%nat)); done|apply u64_bound|done|rewrite Ha'; fold n; lia]. }
  apply list_eq. intros k. rewrite ring_list_lookup, Ha'. destruct (decide (Z.of_nat k < availableToDequeue r)) as [Hk|Hk].
  - rewrite lookup_app_l by (pose proof (ring_list_length r); lia). rewrite ring_list_lookup, !decide_True by lia. f_equal.
    unfold ring_at. cbn. fold n. rewrite !nth_lookup. f_equal. set (q := (deqPtr_ r + Z.of_nat k) mod n).
    assert (0 ≤ q < n) as Hqq by (apply Z.mod_pos_bound; lia).
    rewrite (proj2 (Hst _)).
    assert (∀ i, 0 ≤ i < Z.of_nat (length data) → q ≠ (w + i) mod n) as Hne.
    { intros i Hi E. unfold q, w in E. rewrite Z.add_mod_idemp_l in E by lia. apply mod_close in E; lia. }
    rewrite decide_False; [rewrite decide_False; [done|]|].
    + intros D. apply (Hne (q - w)); [lia|]. rewrite mod_wrap by lia. rewrite decide_True; lia.
    + intros D. apply (Hne (q + n - w)); [lia|]. rewrite mod_wrap by lia. rewrite decide_False; lia.
  - rewrite lookup_app_r by (pose proof (ring_list_length r); lia).
    replace (k - length (ring_list r))%nat with (Z.to_nat (Z.of_nat k - availableToDequeue r)) by (pose proof (ring_list_length r); lia).
    set (i := Z.of_nat k - availableToDequeue r). case_decide as D; [|symmetry; apply lookup_ge_None; lia].
    unfold ring_at. cbn. fold n. rewrite nth_lookup. replace (deqPtr_ r + Z.of_nat k) with (deqPtr_ r + availableToDequeue r + i) by lia.
    rewrite <- Z.add_mod_idemp_l by lia. fold w. rewrite mod_wrap by lia. rewrite (proj2 (Hst _)).
    assert (is_Some (data !! Z.to_nat i)) as [b Hb] by (apply lookup_lt_is_Some; lia). rewrite Hb.
    destruct (decide (w + i < n)) as [D1|D1]; [rewrite decide_False, decide_True by lia|rewrite decide_True by lia];
      (match goal with |- context [data !! ?j] => replace j with (Z.to_nat i) by lia end); by rewrite Hb.
Qed.

Lemma lookahead_spec r offset size : ring_ok r → 0 ≤ offset → 0 ≤ size → offset + size ≤ availableToDequeue r →
  dequeueLookahead r offset size = Ret (take (Z.to_nat size) (drop (Z.to_nat offset) (ring_list r))).
Proof.
  intros Hr Ho Hz Ha. pose proof Hr as [Hs Hl He Hq Hf]. pose proof (available_nonneg r) as Hav. pose proof (pow_shift_lt _ Hs) as Hn.
  unfold dequeueLookahead. rewrite (u64_small (offset + size)) by lia. rewrite (proj2 (Z.leb_le _ _) Ha). rewrite ring_size, land_pred, u64_mod_pow by lia.
  set (n := 2 ^ shift_ r) in *. set (w := (deqPtr_ r + offset) mod n). assert (0 ≤ w < n) as Hw by (apply Z.mod_pos_bound; lia).
  set (B := Z.min size (n - w)). cbn. f_equal. apply list_eq. intros k.
  assert (length (take (Z.to_nat B) (drop (Z.to_nat w) (storage_ r))) = Z.to_nat B) as Hlen by (rewrite length_take, length_drop; lia).
  assert (∀ j, 0 ≤ j < n → storage_ r !! Z.to_nat j = Some (nth (Z.to_nat j) (storage_ r) 0)) as Hget.
  { intros j Hj. rewrite nth_lookup. destruct (storage_ r !! Z.to_nat j) eqn:E; [done|]. apply lookup_ge_None in E. lia. }
  destruct (decide (Z.of_nat k < size)) as [Hk|Hk].
  - rewrite lookup_take_lt, lookup_drop, ring_list_lookup, decide_True by lia. unfold ring_at. fold n.
    replace (deqPtr_ r + Z.of_nat (Z.to_nat offset + k)) with (deqPtr_ r + offset + Z.of_nat k) by lia.
    rewrite <- Z.add_mod_idemp_l by lia. fold w. rewrite mod_wrap by lia. destruct (decide (Z.of_nat k < B)) as [Hb|Hb].
    + rewrite lookup_app_l, lookup_take_lt, lookup_drop, decide_True by lia. rewrite <- Hget by lia. f_equal. lia.
    + rewrite lookup_app_r, Hlen, lookup_take_lt, decide_False by lia. rewrite <- Hget by lia. f_equal. lia.
  - rewrite lookup_app_r, Hlen by lia. rewrite !lookup_take_ge by lia. done.
Qed.
Lemma advance_spec r size : ring_ok r → 0 ≤ size ≤ availableToDequeue r →
  ring_ok (dequeueAdvance r size) ∧ ring_list (dequeueAdvance r size) = drop (Z.to_nat size) (ring_list r).
Proof.
  intros Hr Hz. pose proof Hr as [Hs Hl He Hq Hf]. pose proof (available_nonneg r) as Hav. pose proof (pow_shift_lt _ Hs) as Hn.
  assert (availableToDequeue (dequeueAdvance r size) = availableToDequeue r - size) as Ha.
  { unfold availableToDequeue, dequeueAdvance. cbn. unfold u64, wrap. rewrite Zminus_mod_idemp_r.
    replace (enqPtr_ r - (deqPtr_ r + size)) with (enqPtr_ r - deqPtr_ r - size) by lia. rewrite <- Zminus_mod_idemp_l.
    change ((enqPtr_ r - deqPtr_ r) mod 2 ^ 64) with (availableToDequeue r). apply Z.mod_small. lia. }
  split; [split; cbn; [done..|apply u64_bound|rewrite Ha; lia]|].
  apply list_eq. intros k. rewrite lookup_drop, !ring_list_lookup, Ha.
  destruct (decide (Z.of_nat k < availableToDequeue r - size)); [rewrite !decide_True by lia|by rewrite !decide_False by lia].
  f_equal. unfold ring_at. cbn. f_equal. f_equal. rewrite <- Z.add_mod_idemp_l, u64_mod_pow, Z.add_mod_idemp_l by lia. f_equal. lia.
Qed.

(** ** Packets *)
Record tcp_header_ok (h : TcpHeader) : Prop := {
  th_src : 0 ≤ srcPort h < 2 ^ 16; th_dest : 0 ≤ destPort h < 2 ^ 16; th_seq : 0 ≤ seqNumber h < 2 ^ 32; th_ack : 0 ≤ ackNumber h < 2 ^ 32;
  th_flags : 0 ≤ flags h < 2 ^ 16; th_window : 0 ≤ window h < 2 ^ 16; th_sum : 0 ≤ tcp_checksum h < 2 ^ 16; th_urgent : 0 ≤ urgentPointer h < 2 ^ 16;
}.
Lemma tcp_header_length h : length (tcp_header_bytes h) = 20%nat.
Proof. done. Qed.
Lemma tcp_header_bytes_ok h : bytes_ok (tcp_header_bytes h).
Proof. unfold tcp_header_bytes. do 7 (apply Forall_app; split; [apply be_bytes_ok|]). apply be_bytes_ok. Qed.
Lemma tcp_field_at pre n v post : 0 ≤ v < 256 ^ Z.of_nat n → tcp_field (pre ++ be_bytes n v ++ post) (length pre) n = v.
Proof. intros Hv. unfold tcp_field. rewrite drop_app_length, take_app_le, take_ge by (rewrite be_bytes_length; lia). by apply be_value_bytes. Qed.
Lemma read_tcp_header_bytes h rest : tcp_header_ok h → read_tcp_header (tcp_header_bytes h ++ rest) = h.
Proof.
  intros []. unfold read_tcp_header. set (b := tcp_header_bytes h ++ rest).
  set (p1 := be_bytes 2 (srcPort h)). set (p2 := p1 ++ be_bytes 2 (destPort h)). set (p3 := p2 ++ be_bytes 4 (seqNumber h)).
  set (p4 := p3 ++ be_bytes 4 (ackNumber h)). set (p5 := p4 ++ be_bytes 2 (flags h)). set (p6 := p5 ++ be_bytes 2 (window h)).
  rewrite (tcp_field_at [] 2 (srcPort h) _ ltac:(done) : tcp_field b 0 2 = _), (tcp_field_at p1 2 (destPort h) _ ltac:(done) : tcp_field b 2 2 = _),
    (tcp_field_at p2 4 (seqNumber h) _ ltac:(done) : tcp_field b 4 4 = _), (tcp_field_at p3 4 (ackNumber h) _ ltac:(done) : tcp_field b 8 4 = _),
    (tcp_field_at p4 2 (flags h) _ ltac:(done) : tcp_field b 12 2 = _), (tcp_field_at p5 2 (window h) _ ltac:(done) : tcp_field b 14 2 = _),
    (tcp_field_at p6 2 (tcp_checksum h) _ ltac:(done) : tcp_field b 16 2 = _),
    (tcp_field_at (p6 ++ be_bytes 2 (tcp_checksum h)) 2 (urgentPointer h) rest ltac:(done) : tcp_field b 18 2 = _).
  by destruct h.
Qed.
Lemma tcp_header_split h : ∃ pre post, Nat.Even (length pre) ∧ bytes_ok pre ∧ bytes_ok post ∧
  ∀ c, tcp_header_bytes (set_tcp_checksum h c) = pre ++ be_bytes 2 c ++ post.
Proof.
  exists (be_bytes 2 (srcPort h) ++ be_bytes 2 (destPort h) ++ be_bytes 4 (seqNumber h) ++ be_bytes 4 (ackNumber h) ++ be_bytes 2 (flags h) ++
    be_bytes 2 (window h)), (be_bytes 2 (urgentPointer h)). split; [by exists 8%nat|].
  split; [do 5 (apply Forall_app; split; [apply be_bytes_ok|]); apply be_bytes_ok|]. split; [apply be_bytes_ok|]. intros c. done.
Qed.
Lemma pseudo_sum src dst proto len : byte proto → ∃ s, 0 ≤ s ∧ update 0 (pseudo_bytes src dst proto len) = ones_complement s.
Proof.
  intros Hp. assert (bytes_ok (pseudo_bytes src dst proto len)) as Hb.
  { unfold pseudo_bytes. do 2 (apply Forall_app; split; [apply be_bytes_ok|]). apply Forall_app; split; [|apply be_bytes_ok].
    apply list.Forall_cons; split; [done|]. apply list.Forall_cons; split; [done|]. by apply Forall_nil. }
  exists (word_sum (pseudo_bytes src dst proto len)). split; [by apply word_sum_nonneg|].
  exact (update_spec _ Hb 0 ltac:(lia)).
Qed.
(** The checksum of a packet. *)
Definition tcp_sum (src dst : Z) (h : TcpHeader) (payload : list Z) : Z :=
  let buf := tcp_header_bytes (set_tcp_checksum h 0) ++ payload in
  finalize (update (update 0 (pseudo_bytes src dst IpProto_tcp (u16 (Z.of_nat (length buf))))) buf).
Lemma build_tcp_length src dst h payload : Z.of_nat (length (build_tcp src dst h payload)) = 20 + Z.of_nat (length payload).
Proof. unfold build_tcp. rewrite length_app, tcp_header_length. lia. Qed.
Lemma build_tcp_sum src dst h payload : bytes_ok payload →
  0 ≤ tcp_sum src dst h payload < 2 ^ 16 ∧
  finalize (update (update 0 (pseudo_bytes src dst IpProto_tcp (u16 (Z.of_nat (length (build_tcp src dst h payload)))))) (build_tcp src dst h payload)) = 0.
Proof.
  intros Hp. destruct (tcp_header_split h) as (pre & post & He & Hpre & Hpost & Ec).
  assert (length (build_tcp src dst h payload) = length (tcp_header_bytes (set_tcp_checksum h 0) ++ payload)) as -> by (unfold build_tcp; rewrite !length_app, !tcp_header_length; done).
  unfold build_tcp, tcp_sum. cbv zeta. set (len := u16 _). destruct (pseudo_sum src dst IpProto_tcp len) as (s & Hs & E); [done|].
  rewrite E, !Ec, <- !app_assoc. apply (checksum_sums_up pre (post ++ payload) s); try done. by apply Forall_app.
Qed.
Lemma parse_build src dst h payload : tcp_header_ok h → words h = 5 → bytes_ok payload →
  parse_tcp src dst IpProto_tcp (build_tcp src dst h payload) =
    Some (MkTcpPacket (set_tcp_checksum h (tcp_sum src dst h payload)) payload src dst).
Proof.
  intros Hh Hw Hp. destruct (build_tcp_sum src dst h payload Hp) as [Hr Hz]. pose proof (build_tcp_length src dst h payload) as Hl.
  unfold parse_tcp. rewrite Hz, Hl, (proj2 (Z.ltb_ge _ _)) by (unfold sizeof_TcpHeader; lia).
  assert (read_tcp_header (build_tcp src dst h payload) = set_tcp_checksum h (tcp_sum src dst h payload)) as ->.
  { unfold build_tcp. apply read_tcp_header_bytes. by destruct Hh; split. }
  replace (words (set_tcp_checksum h _)) with 5 by (symmetry; exact Hw). cbn [Z.mul Pos.mul].
  rewrite (proj2 (Z.ltb_ge (20 + _) 20)) by lia. rewrite andb_false_r. reflexivity.
Qed.
