(* ===== verification/TcpSystem.v ===== *)
(** * TCP: the two ends of a connection

    A client and a server of [Tcp4Socket]s with a network between them that loses,
    duplicates and reorders packets.  The ends take the steps of [flushOutPackets_],
    [handleInPacket_] and of the calls of their clients in any order.  The bytes that one
    end reads are a prefix of the bytes that the other end writes. *)
From Stdlib Require Import ZArith Lia ZifyBool.
From stdpp Require Import base list numbers option.
From S2P Require Import Prelude Checksum Tcp TcpProofs.
Open Scope Z_scope.

(** ** The system *)

(** Sequence numbers without wrap-around: the initial sequence number is position 0, the
    first byte of the data is at position 1. *)
Record History := MkHistory {
  isn : Z;
  settled : Z;
  flushed : Z;
  windowEnd : Z;
  known : Z;
  finSent : bool;
}.
(** An end of the connection, with the bytes that its client has written and read. *)
Record Side := MkSide { sock : Tcp4Socket; written : list Z; readBytes : list Z; hist : History }.
(** A packet in the network, with the positions of its sequence number and of its acknowledgement. *)
Record Segment := MkSegment { seg_from : bool; seg_src : Z; seg_dst : Z; seg_bytes : list Z; seg_pos : Z; seg_ack : Z }.
(** The server's socket exists from the time on when the listening socket receives the first packet. *)
Record Conn := MkConn { client : Side; server : option Side; listener : Tcp4Socket; net : list Segment }.

Definition side (c : Conn) (who : bool) : option Side := if who then Some (client c) else server c.
Definition set_side (c : Conn) (who : bool) (x : Side) : Conn :=
  if who then MkConn x (server c) (listener c) (net c) else MkConn (client c) (Some x) (listener c) (net c).

Definition new_history : History := MkHistory 0 0 0 0 0 false.
Definition new_side (s : Tcp4Socket) : Side := MkSide s [] [] new_history.

(** The positions after a step from [s] to [s']. *)
Definition moved (pos old new : Z) : Z := pos + u32 (new - old).
Definition flush_history (h : History) (s s' : Tcp4Socket) : History :=
  match connectState_ s with
  | sendSyn | sendSynAck =>
      MkHistory (localSettledSn_ s') 0 (u32 (localFlushedSn_ s' - localSettledSn_ s')) (windowEnd h) (known h) (finSent h)
  | _ =>
      let flushed' := moved (flushed h) (localFlushedSn_ s) (localFlushedSn_ s') in
      MkHistory (isn h) (settled h) flushed' (windowEnd h) (known h)
        (finSent h || (bool_decide (connectState_ s = sendFin) && negb (flushed' =? flushed h)))
  end.
Definition receive_history (h : History) (s s' : Tcp4Socket) : History :=
  let settled' := moved (settled h) (localSettledSn_ s) (localSettledSn_ s') in
  let known' :=
    match connectState_ s, connectState_ s' with
    | sendSyn, connected => 1
    | sendSyn, _ => known h
    | _, _ => moved (known h) (remoteKnownSn_ s) (remoteKnownSn_ s')
    end in
  MkHistory (isn h) settled' (flushed h) (settled' + u32 (localWindowSn_ s' - localSettledSn_ s')) known' (finSent h).

Definition flush_side (x : Side) (target : option Z) (random : Z) : outcome (Side * option (list Z)) :=
  r ← flush_round (sock x) target random;
  let '(res, s') := r in
  match res with
  | FlushWait => Ret (x, None)
  | FlushStopped => Ret (MkSide s' (written x) (readBytes x) (flush_history (hist x) (sock x) s'), None)
  | FlushSent buf => Ret (MkSide s' (written x) (readBytes x) (flush_history (hist x) (sock x) s'), Some buf)
  end.
Definition receive_side (x : Side) (pkt : TcpPacket) : outcome Side :=
  s' ← handleInPacket_ (sock x) pkt;
  Ret (MkSide s' (written x) (readBytes x) (receive_history (hist x) (sock x) s')).
(** The bytes that a call of [sendMsg] has taken. *)
Definition taken (res : send_result) (old : Z) : Z :=
  match res with SendDone p | SendWait p => p | _ => old end.
Definition send_side (x : Side) (r : outcome (send_result * Tcp4Socket)) (data : list Z) (progress : Z) : outcome Side :=
  r ← r;
  let n := taken r.1 progress in
  Ret (MkSide r.2 (written x ++ take (Z.to_nat (n - progress)) (drop (Z.to_nat progress) data)) (readBytes x) (hist x)).
(** The bytes that a call of [recvMsg] has removed from the ring buffer. *)
Definition removed (res : recv_result) (peek : bool) : list Z :=
  match res with RecvData d => if peek then [] else d | _ => [] end.
Definition recv_side (x : Side) (r : outcome (recv_result * Tcp4Socket)) (peek : bool) : outcome Side :=
  r ← r;
  Ret (MkSide r.2 (written x) (readBytes x ++ removed r.1 peek) (hist x)).
Definition on_sock (x : Side) (s : Tcp4Socket) : Side := MkSide s (written x) (readBytes x) (hist x).

Inductive event :=
| EvConnect (b : Binds) (number : Z) (addr : option sockaddr_in)
| EvFlush (who : bool) (target : option Z) (random : Z)
| EvDeliver (i : nat)
| EvSend (who : bool) (data : list Z)
| EvSendResume (who : bool) (data : list Z) (progress : Z)
| EvRecv (who peek dontwait : bool) (size : Z)
| EvRecvResume (who peek dontwait : bool) (size : Z)
| EvDisconnect (who : bool)
| EvDisconnectFin (who : bool).

(** A packet arrives before the connection has moved on by half of the sequence numbers. *)
Definition fresh (x : Side) (seg : Segment) : bool :=
  (known (hist x) - seg_pos seg <? 2 ^ 31) && (settled (hist x) - seg_ack seg <? 2 ^ 31).
Definition byte_list (l : list Z) : bool := forallb (λ b, (0 <=? b) && (b <? 256)) l.
Definition addr_in_range (addr : option sockaddr_in) : bool :=
  match addr with Some a => (0 <=? sin_port a) && (sin_port a <? 2 ^ 16) | None => true end.
Definition enabled (c : Conn) (ev : event) : bool :=
  match ev with
  | EvConnect _ _ addr => addr_in_range addr
  | EvFlush who _ random => bool_decide (is_Some (side c who)) && ((0 <=? random) && (random <? 2 ^ 32))
  | EvDeliver i =>
      match net c !! i with
      | Some seg => match side c (negb (seg_from seg)) with Some x => fresh x seg | None => true end
      | None => false
      end
  | EvSend who data => bool_decide (is_Some (side c who)) && byte_list data
  | EvSendResume who data progress => bool_decide (is_Some (side c who)) && byte_list data && (0 <=? progress)
  | EvRecv who _ _ size | EvRecvResume who _ _ size => bool_decide (is_Some (side c who)) && (0 <=? size)
  | EvDisconnect who => bool_decide (is_Some (side c who))
  | EvDisconnectFin who =>
      match side c who with
      | Some x => localClosed_ (sock x) && bool_decide (connectState_ (sock x) = connected) && negb (disconnect_waits (sock x))
      | None => false
      end
  end.

Definition on_side (c : Conn) (who : bool) (f : Side → outcome Side) : outcome Conn :=
  match side c who with
  | Some x => x' ← f x; Ret (set_side c who x')
  | None => Ret c
  end.
Definition flush_conn (c : Conn) (who : bool) (target : option Z) (random : Z) : outcome Conn :=
  match side c who with
  | Some x =>
      r ← flush_side x target random;
      let '(x', buf) := r in
      let c' := set_side c who x' in
      match buf, target with
      | Some buf, Some src =>
          let isSyn := bool_decide (connectState_ (sock x) = sendSyn ∨ connectState_ (sock x) = sendSynAck) in
          let pos := if isSyn then 0 else flushed (hist x) in
          let seg := MkSegment who src (ipAddress (remoteEp_ (sock x))) buf pos (known (hist x)) in
          Ret (MkConn (client c') (server c') (listener c') (net c' ++ [seg]))
      | _, _ => Ret c'
      end
  | None => Ret c
  end.
(** A packet for a server that does not exist yet goes to the listening socket. *)
Definition deliver (c : Conn) (seg : Segment) : outcome Conn :=
  match parse_tcp (seg_src seg) (seg_dst seg) IpProto_tcp (seg_bytes seg) with
  | None => Ret c
  | Some pkt =>
      match side c (negb (seg_from seg)) with
      | Some x => x' ← receive_side x pkt; Ret (set_side c (negb (seg_from seg)) x')
      | None =>
          match in_listening (λ _, None) (listener c) pkt with
          | None => Ret c
          | Some p =>
              match incoming_begin [] 0 (listener c) p with
              | None => Ret c
              | Some (s, _) => Ret (set_side c false (MkSide s [] [] (MkHistory 0 0 0 0 1 false)))
              end
          end
      end
  end.
Definition exec (c : Conn) (ev : event) : outcome Conn :=
  match ev with
  | EvConnect b number addr => on_side c true (λ x, Ret (on_sock x (connect_begin b 0 (sock x) number addr).1.2))
  | EvFlush who target random => flush_conn c who target random
  | EvDeliver i => match net c !! i with Some seg => deliver c seg | None => Ret c end
  | EvSend who data => on_side c who (λ x, send_side x (sendMsg (sock x) data) data 0)
  | EvSendResume who data progress => on_side c who (λ x, send_side x (send_msg_loop 3 (sock x) data progress) data progress)
  | EvRecv who peek dontwait size => on_side c who (λ x, recv_side x (recvMsg (sock x) peek dontwait size) peek)
  | EvRecvResume who peek dontwait size => on_side c who (λ x, recv_side x (recv_loop 3 (sock x) peek dontwait size []) peek)
  | EvDisconnect who => on_side c who (λ x, Ret (on_sock x (disconnect_begin (sock x)).2))
  | EvDisconnectFin who => on_side c who (λ x, Ret (on_sock x (disconnect_fin (sock x))))
  end.

(** A client with a socket that is or is not bound, and a listening socket. *)
Definition port_ok (e : TcpEndpoint) : Prop := 0 ≤ port e < 2 ^ 16.
Definition initial (c : Conn) : Prop :=
  ∃ nonBlock loc lis, port_ok loc ∧ port_ok (localEp_ lis) ∧ pendingConnections_ lis = [] ∧
    c = MkConn (new_side (set_endpoints (Tcp4Socket_new nonBlock) no_endpoint loc)) None lis [].
Inductive reachable : Conn → Prop :=
| reach_init c : initial c → reachable c
| reach_step c ev c' : reachable c → enabled c ev = true → exec c ev = Ret c' → reachable c'.

(** ** Sequence numbers *)
Lemma u32_moved i a b : u32 (u32 (i + a) - u32 (i + b)) = u32 (a - b).
Proof. unfold u32, wrap. rewrite <- Zminus_mod. f_equal. lia. Qed.
Lemma u32_plus i a n : u32 (u32 (i + a) + n) = u32 (i + (a + n)).
Proof. unfold u32, wrap. rewrite Z.add_mod_idemp_l by lia. f_equal. lia. Qed.
Lemma u32_close i a b : u32 (i + a) = u32 (i + b) → - 2 ^ 32 < a - b < 2 ^ 32 → a = b.
Proof. intros E H. apply mod_close in E; lia. Qed.
Lemma u32_neg a : - 2 ^ 32 ≤ a < 0 → u32 a = a + 2 ^ 32.
Proof. intros H. unfold u32, wrap. rewrite <- (Z.mod_add a 1) by lia. apply Z.mod_small. lia. Qed.

(** ** The invariant *)
Definition space (x : Side) : Z := spaceForEnqueue (recvRing_ (sock x)).
(** The end of the receive window, and of the data that was sent. *)
Definition edge (x : Side) : Z := known (hist x) + space x.
Definition dataEnd (x : Side) : Z := flushed (hist x) - Z.b2z (finSent (hist x)).
Definition state (x : Side) : ConnectState := connectState_ (sock x).
Definition established (st : ConnectState) : bool := match st with connected | sendFin | finAcked => true | _ => false end.
Definition open (st : ConnectState) : bool := match st with sendFin | finAcked => false | _ => true end.
Definition ring14 (r : RingBuffer) : Prop := ring_ok r ∧ shift_ r = 14.

Record own (x : Side) : Prop := {
  ow_recv : ring14 (recvRing_ (sock x));
  ow_send : ring14 (sendRing_ (sock x));
  ow_bytes : bytes_ok (written x);
  ow_local : port_ok (localEp_ (sock x));
  ow_remote : port_ok (remoteEp_ (sock x));
  ow_known_range : 0 ≤ remoteKnownSn_ (sock x) < 2 ^ 32;
  ow_settled : localSettledSn_ (sock x) = u32 (isn (hist x) + settled (hist x));
  ow_flushed : localFlushedSn_ (sock x) = u32 (isn (hist x) + flushed (hist x));
  ow_order : 0 ≤ settled (hist x) ≤ flushed (hist x);
  ow_flight : flushed (hist x) - settled (hist x) ≤ 2 ^ 14 + 1;
  ow_none : state x = cs_none → flushed (hist x) = 0 ∧ known (hist x) = 0;
  ow_syn : state x = sendSyn → settled (hist x) = 0 ∧ flushed (hist x) ≤ 1 ∧ known (hist x) = 0;
  ow_synack : state x = sendSynAck → settled (hist x) = 0 ∧ flushed (hist x) ≤ 1 ∧ known (hist x) = 1;
  ow_est : established (state x) = true → 1 ≤ settled (hist x) ∧ 1 ≤ known (hist x);
  ow_open : open (state x) = true → finSent (hist x) = false ∧ ring_list (sendRing_ (sock x)) = drop (Z.to_nat (settled (hist x) - 1)) (written x);
  ow_sent : dataEnd x - 1 ≤ Z.of_nat (length (written x));
  ow_avail : state x = connected → flushed (hist x) - settled (hist x) ≤ availableToDequeue (sendRing_ (sock x));
  ow_win : state x = connected → localWindowSn_ (sock x) = u32 (isn (hist x) + windowEnd (hist x)) ∧
    settled (hist x) ≤ windowEnd (hist x) < settled (hist x) + 2 ^ 16;
  ow_fin : state x = sendFin → finSent (hist x) = true → flushed (hist x) = settled (hist x) + 1;
  ow_closed : open (state x) = false → localClosed_ (sock x) = true;
  ow_end : finSent (hist x) = true → 2 ≤ flushed (hist x);
}.
(** What [y] has received of the data that [x] sends. *)
Record link (x y : Side) : Prop := {
  li_settled : settled (hist x) ≤ known (hist y);
  li_known : known (hist y) ≤ flushed (hist x);
  li_number : 1 ≤ known (hist y) → remoteKnownSn_ (sock y) = u32 (isn (hist x) + known (hist y));
  li_open : remoteClosed_ (sock y) = false → known (hist y) ≤ dataEnd x;
  li_closed : remoteClosed_ (sock y) = true → finSent (hist x) = true ∧ known (hist y) = flushed (hist x);
  li_data : readBytes y ++ ring_list (recvRing_ (sock y)) =
    take (Z.to_nat (known (hist y) - Z.b2z (remoteClosed_ (sock y)) - 1)) (written x);
  li_window : state x = connected → windowEnd (hist x) ≤ edge y;
}.
(** A packet from [x] to [y]. *)
Record seg_ok (x y : Side) (seg : Segment) (h : TcpHeader) (payload : list Z) : Prop := {
  sg_bytes : seg_bytes seg = build_tcp (seg_src seg) (seg_dst seg) h payload;
  sg_header : tcp_header_ok h;
  sg_words : words h = 5;
  sg_payload : bytes_ok payload;
  sg_seq : seqNumber h = u32 (isn (hist x) + seg_pos seg);
  sg_pos : 0 ≤ seg_pos seg ≤ flushed (hist x);
  sg_started : 1 ≤ flushed (hist x);
  sg_syn : is_syn h = true → seg_pos seg = 0 ∧ payload = [] ∧ is_fin h = false;
  sg_nosyn : is_syn h = false → 1 ≤ seg_pos seg;
  sg_data : payload ≠ [] → seg_pos seg + Z.of_nat (length payload) ≤ dataEnd x ∧
    payload = take (length payload) (drop (Z.to_nat (seg_pos seg - 1)) (written x)) ∧
    seg_pos seg + Z.of_nat (length payload) ≤ edge y;
  sg_fin : is_fin h = true → finSent (hist x) = true ∧ seg_pos seg = dataEnd x ∧ payload = [];
  sg_ack : is_ack h = true → ackNumber h = u32 (isn (hist y) + seg_ack seg) ∧ 1 ≤ seg_ack seg ≤ known (hist x) ∧
    seg_ack seg + window h ≤ edge x;
}.
(** How an end of the connection changes. *)
Record grows (x x' : Side) : Prop := {
  gr_isn : 1 ≤ flushed (hist x) → isn (hist x') = isn (hist x);
  gr_flushed : flushed (hist x) ≤ flushed (hist x');
  gr_end : dataEnd x ≤ dataEnd x';
  gr_fin : finSent (hist x) = true → finSent (hist x') = true ∧ dataEnd x' = dataEnd x;
  gr_written : written x `prefix_of` written x';
  gr_known : known (hist x) ≤ known (hist x');
  gr_edge : edge x ≤ edge x';
}.
Lemma grows_refl x : grows x x.
Proof. by split. Qed.
Lemma take_drop_prefix (l l' : list Z) n m : l `prefix_of` l' → (m + n ≤ length l)%nat → take n (drop m l') = take n (drop m l).
Proof. intros [k ->] H. rewrite drop_app_le, take_app_le by (rewrite ?length_drop; lia). done. Qed.
Lemma seg_ok_mono x y x' y' seg h payload : grows x x' → grows y y' → (1 ≤ known (hist x) → 1 ≤ flushed (hist y)) →
  dataEnd x - 1 ≤ Z.of_nat (length (written x)) → seg_ok x y seg h payload → seg_ok x' y' seg h payload.
Proof.
  intros Gx Gy Hk Hd []. pose proof (gr_flushed _ _ Gx). pose proof (gr_end _ _ Gx). pose proof (gr_edge _ _ Gx). pose proof (gr_known _ _ Gx).
  pose proof (gr_edge _ _ Gy). split; try done; try lia.
  - by rewrite (gr_isn _ _ Gx).
  - intros Hp. destruct (sg_data0 Hp) as (Q1 & Q2 & Q3). split; [lia|]. split; [|lia]. rewrite Q2 at 1. symmetry.
    destruct (is_syn h) eqn:Es; [by destruct (sg_syn0 eq_refl) as (_ & -> & _)|]. specialize (sg_nosyn0 eq_refl).
    apply take_drop_prefix; [apply Gx|lia].
  - intros Hf. destruct (sg_fin0 Hf) as (Q1 & Q2 & Q3). destruct (gr_fin _ _ Gx Q1) as [? ?]. split; [done|]. split; [lia|done].
  - intros Ha. destruct (sg_ack0 Ha) as (Q1 & Q2 & Q3). rewrite (gr_isn _ _ Gy) by (apply Hk; lia). split; [done|]. lia.
Qed.

(** ** Calls on the ring buffers *)
Lemma ring14_avail r : availableToDequeue r = Z.of_nat (length (ring_list r)).
Proof. by rewrite ring_list_length. Qed.
Lemma ring14_space r : ring14 r → spaceForEnqueue r = 2 ^ 14 - Z.of_nat (length (ring_list r)) ∧ 0 ≤ spaceForEnqueue r.
Proof. intros [Hr E]. rewrite (ring_space r Hr), E, ring14_avail. pose proof (ro_full r Hr). rewrite E, ring14_avail in *. lia. Qed.
Lemma ring14_enqueue r data : ring14 r → Z.of_nat (length data) ≤ spaceForEnqueue r →
  ∃ r', enqueue r data = Ret r' ∧ ring14 r' ∧ ring_list r' = ring_list r ++ data.
Proof. intros [Hr E] Hd. destruct (enqueue_spec r data Hr Hd) as (r' & ? & ? & ? & ?). exists r'. split_and!; try done. split; congruence. Qed.
Lemma ring14_advance r n : ring14 r → 0 ≤ n ≤ availableToDequeue r →
  ring14 (dequeueAdvance r n) ∧ ring_list (dequeueAdvance r n) = drop (Z.to_nat n) (ring_list r).
Proof. intros [Hr E] Hn. destruct (advance_spec r n Hr Hn) as [H1 H2]. split; [by split|done]. Qed.
Lemma set_rings_same s : set_rings s (recvRing_ s) (sendRing_ s) = s.
Proof. by destruct s. Qed.

Lemma send_msg_loop_stop fuel s data progress : (Z.of_nat (length data) ≤ progress ∨ spaceForEnqueue (sendRing_ s) = 0) →
  ∃ res, send_msg_loop (S fuel) s data progress = Ret (res, s) ∧ ∀ old, old = progress ∨ progress ≠ 0 → taken res old = progress.
Proof.
  intros H. cbn [send_msg_loop]. destruct (Z.ltb_spec progress (Z.of_nat (length data))) as [Hl|Hl]; [|by eexists].
  destruct H as [H|H]; [lia|]. rewrite H. cbn. eexists; split; [reflexivity|]. intros old Ho.
  destruct (nonBlock_ s), (Z.eqb_spec progress 0); cbn; lia.
Qed.
Lemma send_msg_loop_spec s data progress : ring14 (sendRing_ s) → 0 ≤ progress →
  ∃ res ring, send_msg_loop 3 s data progress = Ret (res, set_rings s (recvRing_ s) ring) ∧ ring14 ring ∧
    ring_list ring = ring_list (sendRing_ s) ++ take (Z.to_nat (taken res progress - progress)) (drop (Z.to_nat progress) data).
Proof.
  intros Hr Hp. destruct (decide (Z.of_nat (length data) ≤ progress ∨ spaceForEnqueue (sendRing_ s) = 0)) as [Hd|Hd].
  { destruct (send_msg_loop_stop 2 s data progress Hd) as (res & E & T). exists res, (sendRing_ s). rewrite E, (T progress (or_introl eq_refl)), set_rings_same, Z.sub_diag, take_0, app_nil_r. done. }
  apply Decidable.not_or in Hd as [Hl Hs]. destruct (ring14_space _ Hr) as [_ Hs0].
  cbn [send_msg_loop]. rewrite (proj2 (Z.ltb_lt _ _)) by lia. rewrite (proj2 (Z.eqb_neq _ _) Hs).
  set (chunk := Z.min _ _). destruct (ring14_enqueue (sendRing_ s) (take (Z.to_nat chunk) (drop (Z.to_nat progress) data)) Hr) as (ring & E & Hr' & Hl');
    [rewrite length_take, length_drop; lia|]. rewrite E. cbn [mbind outcome_bind]. set (s' := set_rings s _ ring).
  destruct (send_msg_loop_stop 1 s' data (progress + chunk)) as (res & E' & T).
  { destruct (decide (Z.of_nat (length data) ≤ progress + chunk)) as [|Hn]; [by left|right]. unfold s'. cbn.
    destruct (ring14_space _ Hr') as [-> _]. destruct (ring14_space _ Hr) as [E2 _]. rewrite Hl', length_app, length_take, length_drop. lia. }
  cbn [send_msg_loop] in E'. rewrite E'. exists res, ring. split; [done|]. split; [done|]. rewrite Hl'. f_equal. f_equal.
  rewrite T by (right; lia). lia.
Qed.
Lemma recv_loop_stop fuel s peek dontwait size data : data ≠ [] → (size ≤ Z.of_nat (length data) ∨ availableToDequeue (recvRing_ s) = 0) →
  recv_loop (S fuel) s peek dontwait size data = Ret (RecvData data, s).
Proof.
  intros Hn H. cbn [recv_loop]. destruct (Z.ltb_spec (Z.of_nat (length data)) size) as [Hl|Hl]; [|done].
  destruct H as [H|H]; [lia|]. rewrite H. cbn. by rewrite bool_decide_eq_false_2.
Qed.
Lemma recv_loop_spec s peek dontwait size : ring14 (recvRing_ s) → 0 ≤ size →
  ∃ res ring, recv_loop 3 s peek dontwait size [] = Ret (res, set_rings s ring (sendRing_ s)) ∧ ring14 ring ∧
    removed res peek ++ ring_list ring = ring_list (recvRing_ s).
Proof.
  intros Hr Hs. pose proof Hr as [Hok _]. pose proof (available_nonneg (recvRing_ s)) as Ha.
  assert (∀ d, ring14 (recvRing_ s) ∧ removed d true ++ ring_list (recvRing_ s) = ring_list (recvRing_ s)) as Hkeep by (intros []; done).
  cbn [recv_loop length]. destruct (Z.ltb_spec (Z.of_nat 0) size) as [Hl|Hl].
  2: { exists (RecvData []), (recvRing_ s). rewrite set_rings_same. destruct peek; done. }
  destruct (Z.eqb_spec (availableToDequeue (recvRing_ s)) 0) as [E0|E0].
  { cbn [negb orb]. rewrite bool_decide_eq_true_2 by done. cbn [negb orb].
    destruct (remoteClosed_ s); [exists (RecvData []), (recvRing_ s); rewrite set_rings_same; destruct peek; done|].
    destruct (nonBlock_ s || dontwait); eexists _, (recvRing_ s); rewrite set_rings_same; done. }
  set (chunk := Z.min _ _). rewrite lookahead_spec by (done || lia). cbn [mbind outcome_bind app]. rewrite drop_0. set (d := take _ _).
  destruct peek; [exists (RecvData d), (recvRing_ s); by rewrite set_rings_same|].
  destruct (ring14_advance (recvRing_ s) chunk Hr ltac:(lia)) as [Hr' Hl'].
  assert (Z.of_nat (length d) = chunk) as Hd by (unfold d; rewrite length_take; pose proof (ring_list_length (recvRing_ s)); lia).
  set (s' := set_rings s (dequeueAdvance (recvRing_ s) chunk) (sendRing_ s)).
  exists (RecvData d), (dequeueAdvance (recvRing_ s) chunk). split; [|split; [done|]].
  - pose proof (recv_loop_stop 1 s' false dontwait size d) as Hst. cbn [recv_loop] in Hst. apply Hst.
    + intros ->. cbn in Hd. lia.
    + unfold s'. cbn. rewrite ring14_avail, Hl', length_drop. pose proof (ring_list_length (recvRing_ s)). lia.
  - cbn. rewrite Hl'. apply take_drop.
Qed.

(** ** Calls *)
Definition stays (x x' y : Side) : Prop := own x' ∧ link x' y ∧ link y x' ∧ grows x x'.
Lemma take_prefix_app (l l' : list Z) n : (n ≤ length l)%nat → take n (l ++ l') = take n l.
Proof. intros. by rewrite take_app_le. Qed.
Lemma link_data_bound x y : own x → link x y → known (hist y) - Z.b2z (remoteClosed_ (sock y)) - 1 ≤ Z.of_nat (length (written x)).
Proof.
  intros Ho Hl. pose proof (ow_sent _ Ho). destruct (remoteClosed_ (sock y)) eqn:E; cbn [Z.b2z].
  - destruct (li_closed _ _ Hl E) as [F K]. unfold dataEnd in *. rewrite F in *. cbn in *. lia.
  - pose proof (li_open _ _ Hl E). lia.
Qed.
Lemma send_stays x y ring more : own x → link x y → link y x → ring14 ring → ring_list ring = ring_list (sendRing_ (sock x)) ++ more → bytes_ok more →
  stays x (MkSide (set_rings (sock x) (recvRing_ (sock x)) ring) (written x ++ more) (readBytes x) (hist x)) y.
Proof.
  intros Ho L1 L2 Hr Hl Hm. pose proof (link_data_bound x y Ho L1) as Hb. pose proof (ow_order _ Ho) as Hord.
  split_and!.
  - pose proof Ho as []. split; cbn; try done.
    + by apply Forall_app.
    + intros Hst. destruct (ow_open0 Hst) as [F E]. split; [done|]. rewrite Hl, E. rewrite drop_app_le; [done|].
      unfold dataEnd in *. rewrite F in *. cbn in *.
      assert (settled (hist x) - 1 ≤ Z.of_nat (length (written x))) by lia. lia.
    + unfold dataEnd in *. cbn. rewrite length_app. lia.
    + intros Hst. specialize (ow_avail0 Hst). rewrite ring14_avail in *. rewrite Hl, length_app. lia.
  - destruct L1. split; cbn; try done. rewrite li_data0, take_prefix_app by lia. done.
  - by destruct L2.
  - split; cbn; try done. by apply prefix_app_r.
Qed.
Lemma recv_stays x y ring got : own x → link x y → link y x → ring14 ring → got ++ ring_list ring = ring_list (recvRing_ (sock x)) →
  stays x (MkSide (set_rings (sock x) ring (sendRing_ (sock x))) (written x) (readBytes x ++ got) (hist x)) y.
Proof.
  intros Ho L1 L2 Hr Hl. assert (edge x ≤ known (hist x) + spaceForEnqueue ring) as He.
  { unfold edge, space. destruct (ring14_space _ Hr) as [-> _]. destruct (ring14_space _ (ow_recv _ Ho)) as [-> _]. rewrite <- Hl, length_app. lia. }
  split_and!.
  - by destruct Ho; split.
  - by destruct L1; split.
  - destruct L2. split; cbn; try done.
    + rewrite <- app_assoc, Hl. done.
    + intros Hst. specialize (li_window0 Hst). unfold edge, space in *. cbn. lia.
  - split; cbn; done.
Qed.
Lemma bind_from_spec n b id s ip unique number : ∀ i s' b', bind_from n b id s ip unique number i = Some (s', b') →
  ∃ e, port_ok e ∧ s' = set_endpoints s (remoteEp_ s) e.
Proof.
  induction n as [|n IH]; intros i s' b' E; [done|]. cbn [bind_from] in E.
  destruct (tryBind _ _ _ _ _) as [[s1 b1]|] eqn:T; [|by eapply IH]. simplify_eq. unfold tryBind in T. case_match; [done|]. simplify_eq.
  eexists; split; [|reflexivity]. unfold port_ok. cbn. unfold u16. apply wrap_bound. lia.
Qed.
Lemma connect_begin_spec b id s number addr : addr_in_range addr = true → port_ok (localEp_ s) →
  (connect_begin b id s number addr).1.2 = s ∨
  connectState_ s = cs_none ∧ ∃ r l, port_ok r ∧ port_ok l ∧ (connect_begin b id s number addr).1.2 = set_endpoints (set_state s sendSyn) r l.
Proof.
  intros Ha Hl. unfold connect_begin. case_bool_decide as Hst; cbn [negb]; [|by left]. destruct (checkAddress addr) as [e ep] eqn:C.
  destruct e; try by left. case_Z; [by left|].
  assert (port_ok ep) as Hep.
  { unfold checkAddress in C. destruct addr as [a|]; [|done]. destruct (sin_is_inet a); simplify_eq. cbn in Ha. unfold port_ok. cbn. lia. }
  case_Z.
  - destruct (bindAvailable _ _ _ _ _ _) as [[s' b']|] eqn:B; [|by left]. apply bind_from_spec in B as (l & Hlo & ->).
    right. split; [done|]. exists ep, l. done.
  - right. split; [done|]. exists ep, (localEp_ s). done.
Qed.
Lemma connect_stays x y r l : own x → link x y → link y x → connectState_ (sock x) = cs_none → port_ok r → port_ok l →
  stays x (on_sock x (set_endpoints (set_state (sock x) sendSyn) r l)) y.
Proof.
  intros Ho L1 L2 Hst Hr Hl. destruct (ow_none _ Ho Hst) as [F K]. pose proof (ow_order _ Ho). split_and!.
  - destruct Ho. unfold state in *. rewrite Hst in *. split; cbn; try done. intros _. lia.
  - by destruct L1; split.
  - by destruct L2; split.
  - by split.
Qed.
Lemma disconnect_stays x y : own x → link x y → link y x → stays x (on_sock x (disconnect_begin (sock x)).2) y.
Proof.
  intros Ho L1 L2. assert (stays x x y) as Hsame by (split_and!; done || apply grows_refl).
  assert (∀ s, s = sock x → stays x (on_sock x s) y) as Hid by (intros ? ->; by destruct x).
  unfold disconnect_begin. destruct (localClosed_ (sock x)); [by apply Hid|]. case_bool_decide as Hst; cbn [negb]; [|by apply Hid].
  split_and!; [by destruct Ho; split|by destruct L1; split|by destruct L2; split|by split].
Qed.
Lemma disconnect_fin_stays x y : own x → link x y → link y x → connectState_ (sock x) = connected → localClosed_ (sock x) = true →
  stays x (on_sock x (disconnect_fin (sock x))) y.
Proof.
  intros Ho L1 L2 Hst Hc. split_and!.
  - destruct (ow_open _ Ho) as [F _]; [unfold state; by rewrite Hst|].
    destruct Ho. unfold state in *. rewrite Hst in *. split; cbn; try done. intros _ F'. congruence.
  - by destruct L1; split.
  - by destruct L2; split.
  - by split.
Qed.

(** ** Sending packets *)
Opaque build_tcp.
Definition syn_state (st : ConnectState) : bool := match st with sendSyn | sendSynAck => true | _ => false end.
Definition next_segment (x : Side) (who : bool) (src : Z) (buf : list Z) : Segment :=
  MkSegment who src (ipAddress (remoteEp_ (sock x))) buf (if syn_state (state x) then 0 else flushed (hist x)) (known (hist x)).
(** The result of a round that does not fail. *)
Definition flushes (x y : Side) (who : bool) (target : option Z) (random : Z) : Prop :=
  ∃ x' buf, flush_side x target random = Ret (x', buf) ∧ stays x x' y ∧
    ∀ b, buf = Some b → ∃ src h payload, target = Some src ∧ seg_ok x' y (next_segment x who src b) h payload.

(** The first packet of an end with the initial sequence number [random]. *)
Definition started (x : Side) (random sent : Z) : Side :=
  MkSide (set_local (sock x) random (u32 (random + sent)) (localWindowSn_ (sock x))) (written x) (readBytes x)
    (MkHistory random 0 sent (windowEnd (hist x)) (known (hist x)) (finSent (hist x))).
Lemma started_stays x y random sent : own x → link x y → link y x → syn_state (state x) = true → flushed (hist x) = 0 → settled (hist x) = 0 →
  0 ≤ random < 2 ^ 32 → 0 ≤ sent ≤ 1 → stays x (started x random sent) y.
Proof.
  intros Ho L1 L2 Hst F0 S0 Hr Hs. pose proof (li_known _ _ L1) as Hk. pose proof (li_settled _ _ L1) as Hk0.
  assert (finSent (hist x) = false) as Ff by (apply (ow_open _ Ho); destruct (state x); done). unfold dataEnd in *. split_and!.
  - destruct Ho. unfold state, dataEnd in *. split; unfold state, dataEnd; cbn; try done; try lia; try (intros E; rewrite E in Hst; discriminate).
    + by rewrite Z.add_0_r, u32_small.
    + intros E. destruct (ow_syn0 E) as (? & ? & ?). lia.
    + intros E. destruct (ow_synack0 E) as (? & ? & ?). lia.
    + by rewrite S0 in ow_open0.
  - destruct L1. unfold state, dataEnd in *. split; unfold state, dataEnd; cbn; try done; try lia; try (intros E; rewrite E in Hst; discriminate).
  - by destruct L2; split.
  - split; cbn; unfold dataEnd; cbn; try done; try lia.
Qed.
Lemma started_seg x y who random src ackn ack : own x → own y → link x y → link y x → syn_state (state x) = true → flushed (hist x) = 0 →
  0 ≤ random < 2 ^ 32 → 0 ≤ ackn < 2 ^ 32 → (ack = true → ackn = remoteKnownSn_ (sock x) ∧ known (hist x) = 1) →
  seg_ok (started x random 1) y
    (next_segment x who src (build_tcp src (ipAddress (remoteEp_ (sock x))) (syn_header (set_local (sock x) random random (localWindowSn_ (sock x))) ackn ack) []))
    (syn_header (set_local (sock x) random random (localWindowSn_ (sock x))) ackn ack) [].
Proof.
  intros Ho Hoy L1 L2 Hst F0 Hr Hn Ha. pose proof (ow_local _ Ho). pose proof (ow_remote _ Ho). unfold port_ok in *.
  unfold next_segment. rewrite Hst. split; cbn; try done; try lia.
  - split; cbn; try lia; destruct ack; split; vm_compute; congruence.
  - by destruct ack.
  - by apply Forall_nil.
  - by rewrite Z.add_0_r, u32_small.
  - intros _. by destruct ack.
  - by destruct ack.
  - by destruct ack.
  - intros E. destruct ack; [|done]. destruct (Ha eq_refl) as [-> K]. rewrite (li_number _ _ L2) by lia.
    destruct (ring14_space _ (ow_recv _ Ho)) as [_ ?]. unfold edge, space. cbn. split; [done|]. lia.
Qed.
Lemma flush_syn_flushes x y who target random : own x → own y → link x y → link y x → syn_state (state x) = true → 0 ≤ random < 2 ^ 32 →
  flushes x y who target random.
Proof.
  intros Ho Hoy L1 L2 Hst Hr. assert (stays x x y) as Hsame by (split_and!; done || apply grows_refl).
  assert (settled (hist x) = 0 ∧ flushed (hist x) ≤ 1) as [S0 F1] by (destruct (state x) eqn:E; try done; [destruct (ow_syn _ Ho E)|destruct (ow_synack _ Ho E)]; lia).
  pose proof (ow_order _ Ho) as Hord. unfold flushes, flush_side, flush_round.
  assert (∃ ackn ack, 0 ≤ ackn < 2 ^ 32 ∧ (ack = true → ackn = remoteKnownSn_ (sock x) ∧ known (hist x) = 1) ∧
    match connectState_ (sock x) with
    | cs_none => Ret (FlushWait, sock x)
    | sendSyn => Ret (flush_syn (sock x) target random 0 false)
    | sendSynAck => Ret (flush_syn (sock x) target random (remoteKnownSn_ (sock x)) true)
    | _ => flush_data (sock x) target
    end = Ret (flush_syn (sock x) target random ackn ack)) as (ackn & ack & Hn & Ha & ->).
  { unfold state in *. destruct (connectState_ (sock x)) eqn:E; try done.
    - exists 0, false. done.
    - exists (remoteKnownSn_ (sock x)), true. split; [apply Ho|]. split; [intros _; split; [done|]; by apply (ow_synack _ Ho)|done]. }
  cbn [mbind outcome_bind]. unfold flush_syn. rewrite (ow_settled _ Ho), (ow_flushed _ Ho).
  destruct (Z.eqb_spec (u32 (isn (hist x) + settled (hist x))) (u32 (isn (hist x) + flushed (hist x)))) as [E|E]; cbn [negb].
  2: { exists x, None. done. }
  assert (flushed (hist x) = 0) as F0 by (apply u32_close in E; lia).
  assert (∀ s', connectState_ s' = connectState_ (sock x) → flush_history (hist x) (sock x) s' =
    MkHistory (localSettledSn_ s') 0 (u32 (localFlushedSn_ s' - localSettledSn_ s')) (windowEnd (hist x)) (known (hist x)) (finSent (hist x))) as Hh.
  { intros s' _. unfold flush_history. unfold state in Hst. by destruct (connectState_ (sock x)). }
  destruct target as [src|]; cbn.
  - rewrite Hh by done. exists (started x random 1). eexists. split.
    { cbn. unfold started. repeat f_equal.
      transitivity (u32 (u32 (random + 1) - u32 (random + 0))); [by rewrite (u32_small (random + 0)), Z.add_0_r by lia|]. rewrite u32_moved. done. }
    split; [by apply started_stays|]. intros b Eb. simplify_eq. exists src, (syn_header (set_local (sock x) random random (localWindowSn_ (sock x))) ackn ack), [].
    split; [done|]. exact (started_seg x y who random src ackn ack Ho Hoy L1 L2 Hst F0 Hr Hn Ha).
  - rewrite Hh by done. exists (started x random 0), None. split.
    { cbn. unfold started. rewrite Z.add_0_r, (u32_small random) by done. by rewrite Z.sub_diag. }
    split; [by apply started_stays|done].
Qed.

(** A round of an established connection. *)
Lemma flush_chunk_spec x : own x → established (state x) = true →
  ∃ chunk, flush_chunk (sock x) = Ret chunk ∧ 0 ≤ chunk ≤ 1280 ∧
    (chunk = 0 ∨ state x = connected ∧ flushed (hist x) - settled (hist x) + chunk ≤ availableToDequeue (sendRing_ (sock x)) ∧
      flushed (hist x) + chunk ≤ windowEnd (hist x)).
Proof.
  intros Ho Hst. unfold flush_chunk. pose proof (ow_order _ Ho). pose proof (ow_flight _ Ho). case_bool_decide as Hc; [|exists 0; split; [done|]; split; [lia|by left]].
  pose proof (ow_avail _ Ho Hc) as Ha. destruct (ow_win _ Ho Hc) as [Ew Hw]. pose proof (available_nonneg (sendRing_ (sock x))).
  rewrite Ew, (ow_settled _ Ho), (ow_flushed _ Ho), !u32_moved. rewrite !u32_small by lia. rewrite (proj2 (Z.leb_le _ _)) by lia.
  eexists; split; [reflexivity|]. destruct (_ && _) eqn:E; [apply andb_true_iff in E as [E1 E2]|by split; [lia|left]].
  split; [lia|]. right. split; [done|]. lia.
Qed.
(** The state after a packet with [chunk] bytes of data or with a FIN. *)
Definition continued (x : Side) (chunk : Z) (fin : bool) : Side :=
  MkSide
    (set_remote (set_local (sock x) (localSettledSn_ (sock x)) (u32 (u32 (localFlushedSn_ (sock x) + chunk) + Z.b2z fin)) (localWindowSn_ (sock x)))
       (remoteKnownSn_ (sock x)) (remoteKnownSn_ (sock x)) (u32 (space x)))
    (written x) (readBytes x)
    (MkHistory (isn (hist x)) (settled (hist x)) (flushed (hist x) + chunk + Z.b2z fin) (windowEnd (hist x)) (known (hist x)) (finSent (hist x) || fin)).
(** A chunk that fits, or a FIN of an end all of whose data is settled. *)
Definition may_send (x : Side) (chunk : Z) (fin : bool) : Prop :=
  0 ≤ chunk ≤ 1280 ∧
  (chunk = 0 ∨ state x = connected ∧ flushed (hist x) - settled (hist x) + chunk ≤ availableToDequeue (sendRing_ (sock x)) ∧
      flushed (hist x) + chunk ≤ windowEnd (hist x)) ∧
  (fin = true → chunk = 0 ∧ state x = sendFin ∧ flushed (hist x) = settled (hist x)).
Lemma may_send_fin x chunk fin : own x → may_send x chunk fin → finSent (hist x) = true → chunk = 0 ∧ fin = false.
Proof.
  intros Ho (_ & Hc & Hf) F. destruct fin.
  - destruct (Hf eq_refl) as (_ & E & E'). pose proof (ow_fin _ Ho E F). lia.
  - split; [|done]. destruct Hc as [|(E & _)]; [done|]. destruct (ow_open _ Ho) as [? _]; [by rewrite E|congruence].
Qed.
Lemma continued_end x chunk fin : own x → may_send x chunk fin → dataEnd (continued x chunk fin) = dataEnd x + chunk.
Proof.
  intros Ho Hm. unfold dataEnd. cbn. destruct (finSent (hist x)) eqn:F; [|destruct fin; cbn; lia].
  destruct (may_send_fin x chunk fin Ho Hm F) as [-> ->]. cbn. lia.
Qed.
Lemma continued_stays x y chunk fin : own x → link x y → link y x → established (state x) = true → may_send x chunk fin → stays x (continued x chunk fin) y.
Proof.
  intros Ho L1 L2 Hst Hm. pose proof (continued_end x chunk fin Ho Hm) as De. pose proof Hm as (H0 & Hc & Hf). pose proof (ow_order _ Ho) as Hord.
  assert (∀ b, Z.b2z b = 0 ∨ Z.b2z b = 1) as Hb by (intros []; cbn; lia). pose proof (Hb fin). split_and!.
  - pose proof Ho as []. unfold state in *. split; unfold state; rewrite ?De; cbn; try done; try lia.
    + rewrite ow_flushed0, !u32_plus. f_equal. lia.
    + destruct Hc as [->|(E & Ha & _)]; [destruct fin; cbn; [destruct (Hf eq_refl) as (_ & _ & ?)|]; lia|].
      pose proof (ro_full _ (proj1 ow_send0)) as Hfull. rewrite (proj2 ow_send0) in Hfull. destruct fin; [destruct (Hf eq_refl); lia|]. cbn. lia.
    + intros E. by rewrite E in Hst.
    + intros E. by rewrite E in Hst.
    + intros E. by rewrite E in Hst.
    + intros E. destruct (ow_open0 E) as [F R]. rewrite F, R. split; [|done]. destruct fin; [|done]. destruct (Hf eq_refl) as (_ & E' & _). by rewrite E' in E.
    + destruct Hc as [->|(E & Ha & _)]; [lia|]. destruct (ow_open0 ltac:(by rewrite E)) as [F R]. specialize (ow_est0 Hst). rewrite ring14_avail, R, length_drop in Ha.
      unfold dataEnd in *. rewrite F in *. cbn in *. lia.
    + intros E. destruct fin; [destruct (Hf eq_refl) as (_ & E' & _); congruence|]. cbn. destruct Hc as [->|(_ & Ha & _)]; [|lia]. specialize (ow_avail0 E). lia.
    + intros E F. destruct (finSent (hist x)) eqn:F0.
      * destruct (may_send_fin x chunk fin Ho Hm F0) as [-> ->]. specialize (ow_fin0 E eq_refl). cbn. lia.
      * cbn in F. subst fin. destruct (Hf eq_refl) as (-> & _ & ?). cbn. lia.
  - pose proof L1 as []. unfold state in *. split; unfold state; rewrite ?De; cbn; try done; try lia.
    intros E. destruct (li_closed0 E) as [F K]. rewrite F. split; [done|]. destruct (may_send_fin x chunk fin Ho Hm F) as [-> ->]. cbn. lia.
  - by destruct L2; split.
  - split; rewrite ?De; cbn; try done; try lia. intros F. rewrite F. split; [done|]. destruct (may_send_fin x chunk fin Ho Hm F). lia.
Qed.
Lemma continued_seg x y who src chunk fin data : own x → own y → link x y → link y x → established (state x) = true → may_send x chunk fin →
  (chunk = 0 ∧ data = [] ∨ 0 < chunk ∧ data = take (Z.to_nat chunk) (drop (Z.to_nat (flushed (hist x) - settled (hist x))) (ring_list (sendRing_ (sock x))))) →
  seg_ok (continued x chunk fin) y (next_segment x who src (build_tcp src (ipAddress (remoteEp_ (sock x))) (data_header (sock x) fin) data)) (data_header (sock x) fin) data.
Proof.
  intros Ho Hoy L1 L2 Hst Hm Hd. pose proof (continued_end x chunk fin Ho Hm) as De. pose proof Hm as (H0 & Hc & Hf). pose proof (ow_order _ Ho) as Hord.
  destruct (ow_est _ Ho Hst) as [S1 K1]. destruct (ring14_space _ (ow_recv _ Ho)) as [_ Hsp]. fold (space x) in Hsp.
  assert (0 ≤ Z.b2z fin) by (destruct fin; cbn; lia).
  assert (is_syn (data_header (sock x) fin) = false ∧ is_ack (data_header (sock x) fin) = true ∧ is_fin (data_header (sock x) fin) = fin ∧
    words (data_header (sock x) fin) = 5 ∧ 0 ≤ flags (data_header (sock x) fin) < 2 ^ 16) as (Bs & Ba & Bf & Bw & Bg) by (destruct fin; done).
  assert (data ≠ [] → Z.of_nat (length data) = chunk ∧ data = take (length data) (drop (Z.to_nat (flushed (hist x) - 1)) (written x)) ∧
    state x = connected ∧ flushed (hist x) + chunk ≤ windowEnd (hist x)) as Hdata.
  { intros Hn. destruct Hd as [[_ ->]|[Hp ->]]; [done|]. destruct Hc as [|(E & Ha & Hw)]; [lia|].
    destruct (ow_open _ Ho) as [_ R]; [by rewrite E|]. rewrite length_take, length_drop. rewrite ring14_avail in Ha.
    rewrite Nat.min_l by lia. split; [lia|]. split; [|done]. rewrite R, drop_drop. f_equal. f_equal. lia. }
  unfold next_segment. destruct (syn_state (state x)) eqn:Es; [by destruct (state x)|].
  split; rewrite ?Bs, ?Ba, ?Bf, ?De; try done.
  - pose proof (ow_local _ Ho). pose proof (ow_remote _ Ho). pose proof (ow_known_range _ Ho). unfold port_ok in *.
    split; cbn; try done. + rewrite (ow_flushed _ Ho). apply u32_bound. + fold (space x). lia.
  - destruct Hd as [[_ ->]|[Hp ->]]; [by apply Forall_nil|]. apply Forall_take, Forall_drop. destruct Hc as [->|(E & _)]; [lia|].
    destruct (ow_open _ Ho) as [_ ->]; [by rewrite E|]. apply Forall_drop, Ho.
  - cbn. by rewrite (ow_flushed _ Ho).
  - cbn. lia.
  - cbn. lia.
  - intros _. cbn. lia.
  - intros Hn. destruct (Hdata Hn) as (El & Ed & E & Hw). cbn [seg_pos]. destruct (ow_open _ Ho) as [F _]; [by rewrite E|].
    pose proof (li_window _ _ L1 E). unfold dataEnd. rewrite F. cbn [Z.b2z]. split; [lia|]. split; [done|]. lia.
  - intros ->. destruct (Hf eq_refl) as (-> & E & E'). cbn. rewrite orb_true_r. split; [done|]. split; [|destruct Hd as [[_ ->]|[? _]]; [done|lia]].
    unfold dataEnd. destruct (finSent (hist x)) eqn:F; [|cbn; lia]. destruct (may_send_fin x 0 true Ho Hm F). done.
  - intros _. cbn. rewrite (li_number _ _ L2) by lia. split; [done|]. fold (space x). unfold edge, space in *. cbn. lia.
Qed.
Lemma continued_history x chunk fin : own x → may_send x chunk fin → established (state x) = true →
  flush_history (hist x) (sock x) (sock (continued x chunk fin)) = hist (continued x chunk fin).
Proof.
  intros Ho Hm Hst. pose proof Hm as (H0 & Hc & Hf). assert (0 ≤ Z.b2z fin ≤ 1) by (destruct fin; cbn; lia).
  assert (moved (flushed (hist x)) (localFlushedSn_ (sock x)) (u32 (u32 (localFlushedSn_ (sock x) + chunk) + Z.b2z fin)) = flushed (hist x) + chunk + Z.b2z fin) as E.
  { unfold moved. rewrite (ow_flushed _ Ho), !u32_plus, u32_moved, u32_small; lia. }
  unfold flush_history. unfold state in *. cbn. rewrite E. destruct (connectState_ (sock x)) eqn:S; try done; f_equal; f_equal.
  - destruct fin; [|done]. destruct (Hf eq_refl) as (_ & ? & _). congruence.
  - destruct Hc as [->|(? & _)]; [|congruence]. rewrite bool_decide_eq_true_2 by done. destruct fin; cbn; [|by rewrite !Z.add_0_r, Z.eqb_refl].
    rewrite (proj2 (Z.eqb_neq _ _)); [done|lia].
  - destruct fin; [|done]. destruct (Hf eq_refl) as (_ & ? & _). congruence.
Qed.
Lemma flush_data_flushes x y who target random : own x → own y → link x y → link y x → established (state x) = true → flushes x y who target random.
Proof.
  intros Ho Hoy L1 L2 Hst. assert (stays x x y) as Hsame by (split_and!; done || apply grows_refl).
  pose proof (ow_order _ Ho). pose proof (ow_flight _ Ho). pose proof (ow_recv _ Ho) as Hrecv.
  assert (flush_round (sock x) target random = flush_data (sock x) target) as Er by (unfold flush_round, state in *; by destruct (connectState_ (sock x))).
  unfold flushes, flush_side. rewrite Er. destruct target as [src|]; cbn [flush_data].
  2: { eexists _, None. split; [reflexivity|]. split; [|done].
       replace (MkSide _ _ _ _) with x; [done|]. destruct x as [s w r h]. cbn. f_equal. unfold flush_history, moved, state in *. cbn in *. rewrite Z.sub_diag.
       destruct (connectState_ s); try done; cbn; rewrite Z.add_0_r, ?Z.eqb_refl, ?andb_false_r, ?orb_false_r; by destruct h. }
  destruct (flush_chunk_spec x Ho Hst) as (chunk & -> & Hch & Hc). cbn [mbind outcome_bind].
  rewrite (ow_settled _ Ho), (ow_flushed _ Ho), u32_moved, u32_small by lia. fold (space x).
  set (fin := bool_decide (connectState_ (sock x) = sendFin) && _).
  assert (may_send x chunk fin) as Hm.
  { split; [done|]. split; [done|]. intros F. unfold fin in F. apply andb_true_iff in F as [F1 F2]. apply bool_decide_eq_true in F1.
    destruct Hc as [->|(E & _)]; [|unfold state in E; congruence]. split; [done|]. split; [done|]. lia. }
  destruct (_ && _ && _ && _) eqn:Ewait; [exists x, None; done|].
  assert (∃ data, (if chunk =? 0 then Ret [] else dequeueLookahead (sendRing_ (sock x)) (flushed (hist x) - settled (hist x)) chunk) = Ret data ∧
    (chunk = 0 ∧ data = [] ∨ 0 < chunk ∧ data = take (Z.to_nat chunk) (drop (Z.to_nat (flushed (hist x) - settled (hist x))) (ring_list (sendRing_ (sock x)))))) as (data & -> & Hd).
  { case_Z; [exists []; by split; [|left]|]. destruct Hc as [|(_ & Ha & _)]; [done|]. rewrite lookahead_spec by (apply Ho || lia). eexists; split; [done|]. right. split; [lia|done]. }
  cbn [mbind outcome_bind]. rewrite <- (ow_flushed _ Ho), <- (ow_settled _ Ho).
  exists (continued x chunk fin), (Some (build_tcp src (ipAddress (remoteEp_ (sock x))) (data_header (sock x) fin) data)).
  split; [|split].
  - pose proof (continued_history x chunk fin Ho Hm Hst) as Eh. unfold continued in Eh |- *. cbn [sock hist] in Eh. rewrite Eh. reflexivity.
  - by apply continued_stays.
  - intros b Eb. injection Eb as <-. exists src, (data_header (sock x) fin), data. split; [done|]. by apply (continued_seg x y who src chunk fin data).
Qed.
