(* ===== verification/TcpStream.v ===== *)
(** * TCP: the bytes of a connection

    The receiving side of the invariant of a connection, and what follows from it for the
    bytes that the two ends read and write. *)
From Stdlib Require Import ZArith Lia ZifyBool.
From stdpp Require Import base list numbers option.
From S2P Require Import Prelude Checksum Tcp TcpProofs TcpSystem.
Open Scope Z_scope.

(** ** Receiving packets *)
Definition set_known (h : History) (k : Z) : History := MkHistory (isn h) (settled h) (flushed h) (windowEnd h) k (finSent h).
Definition set_settled (h : History) (n w : Z) : History := MkHistory (isn h) n (flushed h) w (known h) (finSent h).
Definition known_side (x : Side) (s : Tcp4Socket) (k : Z) : Side := MkSide s (written x) (readBytes x) (set_known (hist x) k).
Definition settled_side (x : Side) (s : Tcp4Socket) (n w : Z) : Side := MkSide s (written x) (readBytes x) (set_settled (hist x) n w).

Lemma grows_trans x y z : grows x y → grows y z → grows x z.
Proof.
  intros [] []. split; try lia. by etrans.
Qed.
Lemma stays_trans x y z p : stays x y p → stays y z p → stays x z p.
Proof. intros (_ & _ & _ & G1) (? & ? & ? & G2). split_and!; try done. by eapply grows_trans. Qed.
Lemma stays_refl x y : own x → link x y → link y x → stays x x y.
Proof. intros. split_and!; done || apply grows_refl. Qed.
(** The end of the send window matters to a connected end only. *)
Lemma stays_window x x1 x2 y : stays x x1 y → sock x2 = sock x1 → written x2 = written x1 → readBytes x2 = readBytes x1 →
  hist x2 = set_settled (hist x1) (settled (hist x1)) (windowEnd (hist x2)) → (state x1 = connected → windowEnd (hist x2) = windowEnd (hist x1)) →
  stays x x2 y.
Proof.
  intros (Ho & L1 & L2 & G) E1 E2 E3 E4 Hw. destruct x1 as [s w r h], x2 as [s2 w2 r2 h2]. cbn in *. subst s2 w2 r2. rewrite E4. clear E4.
  set (n := windowEnd h2) in *. clearbody n. unfold state in Hw. cbn in Hw. split_and!.
  - destruct Ho. split; try done. unfold state. cbn. intros E. rewrite (Hw E). by apply ow_win.
  - destruct L1. split; try done. unfold state. cbn. intros E. rewrite (Hw E). by apply li_window.
  - by destruct L2.
  - by destruct G.
Qed.

Lemma b2z_range b : 0 ≤ Z.b2z b ≤ 1.
Proof. destruct b; cbn; lia. Qed.
(** The position of a packet with the sequence number that is expected. *)
Lemma expected_position x y seg h payload : own y → link y x → seg_ok y x seg h payload → fresh x seg = true → 1 ≤ known (hist x) →
  seqNumber h = remoteKnownSn_ (sock x) → seg_pos seg = known (hist x).
Proof.
  intros Ho L S F K E. unfold fresh in F. pose proof (sg_pos _ _ _ _ _ S). pose proof (ow_order _ Ho). pose proof (ow_flight _ Ho). pose proof (li_settled _ _ L).
  rewrite (sg_seq _ _ _ _ _ S), (li_number _ _ L K) in E. apply u32_close in E; lia.
Qed.
Lemma open_at_data_end x y : own y → link y x → known (hist x) ≤ dataEnd y → remoteClosed_ (sock x) = false.
Proof.
  intros Ho L K. destruct (remoteClosed_ (sock x)) eqn:E; [|done]. destruct (li_closed _ _ L E) as [F K']. unfold dataEnd in K. rewrite F in K. cbn in K. lia.
Qed.
(** Data at the expected position, that fits. *)
Definition data_sock (s : Tcp4Socket) (ring : RingBuffer) (n announced : Z) : Tcp4Socket :=
  bump_in (set_remote (set_rings s ring (sendRing_ s)) (remoteAckedSn_ s) (u32 (remoteKnownSn_ s + n)) announced).
Lemma data_stays x y ring data announced : own x → own y → link x y → link y x → established (state x) = true →
  known (hist x) + Z.of_nat (length data) ≤ dataEnd y →
  data = take (length data) (drop (Z.to_nat (known (hist x) - 1)) (written y)) → ring14 ring → ring_list ring = ring_list (recvRing_ (sock x)) ++ data →
  stays x (known_side x (data_sock (sock x) ring (Z.of_nat (length data)) announced) (known (hist x) + Z.of_nat (length data))) y.
Proof.
  intros Ho Hoy L1 L2 Hst Hd Ed Hr Hl. set (n := Z.of_nat (length data)) in *. destruct (ow_est _ Ho Hst) as [_ K].
  assert (remoteClosed_ (sock x) = false) as Hc by (apply (open_at_data_end x y); done || lia).
  assert (spaceForEnqueue ring = space x - n) as Hs.
  { unfold space. destruct (ring14_space _ Hr) as [-> _]. destruct (ring14_space _ (ow_recv _ Ho)) as [-> _]. rewrite Hl, length_app. lia. }
  split_and!.
  - destruct Ho. unfold state in *. split; try done; unfold state; cbn; try (intros E; rewrite E in Hst; discriminate).
    + apply u32_bound.
    + intros E. specialize (ow_est E). lia.
  - destruct L1. split; try done.
  - pose proof L2 as []. split; try done; cbn.
    + lia.
    + unfold dataEnd in Hd. pose proof (b2z_range (finSent (hist y))). lia.
    + intros _. rewrite li_number, u32_plus by lia. done.
    + intros E. congruence.
    + rewrite Hl, app_assoc, li_data, Hc. cbn [Z.b2z]. rewrite Ed, Z.sub_0_r at 1. unfold n. rewrite take_take_drop. f_equal. lia.
    + intros E. specialize (li_window E). unfold edge, space in *. cbn. rewrite Hs. lia.
  - split; try done; cbn; [lia|]. unfold edge. cbn. unfold space. cbn. rewrite Hs. unfold space. lia.
Qed.
(** The end of the data. *)
Definition fin_sock (s : Tcp4Socket) : Tcp4Socket :=
  bump_hup (set_closed (set_remote s (remoteAckedSn_ s) (u32 (remoteKnownSn_ s + 1)) (announcedWindow_ s)) true (localClosed_ s)).
Lemma fin_stays x y : own x → own y → link x y → link y x → established (state x) = true → finSent (hist y) = true → known (hist x) = dataEnd y →
  stays x (known_side x (fin_sock (sock x)) (known (hist x) + 1)) y.
Proof.
  intros Ho Hoy L1 L2 Hst F Ek. destruct (ow_est _ Ho Hst) as [_ K].
  assert (remoteClosed_ (sock x) = false) as Hc by (apply (open_at_data_end x y); done || lia).
  assert (flushed (hist y) = known (hist x) + 1) as Ef by (unfold dataEnd in Ek; rewrite F in Ek; cbn in Ek; lia).
  split_and!.
  - destruct Ho. unfold state in *. split; try done; unfold state; cbn; try (intros E; rewrite E in Hst; discriminate).
    + apply u32_bound.
    + intros E. specialize (ow_est E). lia.
  - destruct L1. split; try done.
  - pose proof L2 as []. split; try done; cbn.
    + lia.
    + lia.
    + intros _. rewrite li_number, u32_plus by lia. done.
    + rewrite li_data, Hc. cbn [Z.b2z]. f_equal. lia.
    + intros E. specialize (li_window E). unfold edge, space in *. cbn. lia.
  - split; try done; cbn; [lia|]. unfold edge, space. cbn. lia.
Qed.
Definition same_local (s s' : Tcp4Socket) : Prop :=
  connectState_ s' = connectState_ s ∧ localSettledSn_ s' = localSettledSn_ s ∧ localWindowSn_ s' = localWindowSn_ s.
Lemma known_side_same x : known_side x (sock x) (known (hist x) + 0) = x.
Proof. destruct x as [s w r []]. unfold known_side, set_known. cbn. by rewrite Z.add_0_r. Qed.
Lemma in_data_stays x y seg h payload src dst c : own x → own y → link x y → link y x → established (state x) = true →
  seg_ok y x seg h payload → fresh x seg = true →
  ∃ s k, in_data (sock x) (MkTcpPacket (set_tcp_checksum h c) payload src dst) = Ret s ∧ 0 ≤ k < 2 ^ 32 ∧
    stays x (known_side x s (known (hist x) + k)) y ∧ remoteKnownSn_ s = u32 (remoteKnownSn_ (sock x) + k) ∧ same_local (sock x) s.
Proof.
  intros Ho Hoy L1 L2 Hst S F. destruct (ow_est _ Ho Hst) as [_ K]. unfold in_data. cbn [tcp_header tcp_payload set_tcp_checksum seqNumber].
  change (is_fin (set_tcp_checksum h c)) with (is_fin h).
  assert (∃ s k, Ret (sock x) = Ret s ∧ 0 ≤ k < 2 ^ 32 ∧ stays x (known_side x s (known (hist x) + k)) y ∧
    remoteKnownSn_ s = u32 (remoteKnownSn_ (sock x) + k) ∧ same_local (sock x) s) as Hkeep.
  { exists (sock x), 0. rewrite known_side_same, Z.add_0_r, u32_small by apply Ho. split_and!; done. }
  destruct (Z.eqb_spec (seqNumber h) (remoteKnownSn_ (sock x))) as [E|_]; [|done].
  pose proof (expected_position x y seg h payload Hoy L2 S F K E) as Ep. pose proof (ring14_space _ (ow_recv _ Ho)) as [Hsp Hsp0].
  destruct (decide (payload = [])) as [->|Hn].
  - cbn [length Z.of_nat]. rewrite Z.min_l by lia. cbn [Z.eqb mbind outcome_bind]. destruct (is_fin h) eqn:Ef; [|done].
    destruct (sg_fin _ _ _ _ _ S Ef) as (Fy & Ed & _). exists (fin_sock (sock x)), 1. split; [done|]. split; [lia|].
    split; [apply fin_stays; done || lia|done].
  - destruct (sg_data _ _ _ _ _ S Hn) as (H1 & H2 & H3). rewrite Ep in *. unfold edge, space in H3. rewrite Z.min_l by lia.
    assert (0 < Z.of_nat (length payload)) by (destruct payload; [done|cbn; lia]). rewrite (proj2 (Z.eqb_neq _ _)) by lia.
    rewrite Nat2Z.id, take_ge by lia. destruct (ring14_enqueue (recvRing_ (sock x)) payload (ow_recv _ Ho)) as (ring & -> & Hr & Hl); [lia|].
    cbn [mbind outcome_bind]. destruct (is_fin h) eqn:Ef; [by destruct (sg_fin _ _ _ _ _ S Ef) as (_ & _ & ?)|].
    eexists (data_sock (sock x) ring (Z.of_nat (length payload)) _), (Z.of_nat (length payload)). split; [reflexivity|]. split; [lia|].
    split; [by apply (data_stays x y)|done].
Qed.

(** Acknowledgements *)
Lemma ack_stays x y n win : own x → link x y → link y x → state x = connected → settled (hist x) ≤ n ≤ known (hist y) →
  0 ≤ win < 2 ^ 16 → n + win ≤ edge y →
  stays x (settled_side x (bump_out (set_rings
      (set_local (sock x) (u32 (localSettledSn_ (sock x) + (n - settled (hist x)))) (localFlushedSn_ (sock x)) (u32 (u32 (localSettledSn_ (sock x) + (n - settled (hist x))) + win)))
      (recvRing_ (sock x)) (dequeueAdvance (sendRing_ (sock x)) (n - settled (hist x))))) n (n + win)) y.
Proof.
  intros Ho L1 L2 Hst Hn Hw He. pose proof (li_known _ _ L1) as Hk. pose proof (ow_avail _ Ho Hst) as Ha. pose proof (ow_order _ Ho) as Hord.
  destruct (ring14_advance (sendRing_ (sock x)) (n - settled (hist x)) (ow_send _ Ho) ltac:(lia)) as [Hr Hl].
  destruct (ow_open _ Ho ltac:(by rewrite Hst)) as [F R]. destruct (ow_est _ Ho ltac:(by rewrite Hst)) as [S1 K1].
  assert (u32 (localSettledSn_ (sock x) + (n - settled (hist x))) = u32 (isn (hist x) + n)) as En by (rewrite (ow_settled _ Ho), u32_plus; f_equal; lia).
  rewrite En. split_and!.
  - pose proof (ow_flight _ Ho). destruct Ho. unfold state in *. rewrite Hst in *. split; try done; unfold state; cbn; rewrite ?Hst; try done; try lia.
    + intros _. split; [done|]. rewrite Hl, R, drop_drop. f_equal. lia.
    + intros _. rewrite ring14_avail in *. rewrite Hl, length_drop. lia.
    + intros _. rewrite u32_plus. split; [done|]. lia.
  - destruct L1. split; try done; cbn. lia.
  - by destruct L2; split.
  - by split.
Qed.
Lemma finack_stays x y win : own x → link x y → link y x → state x = sendFin → settled (hist x) + 1 ≤ known (hist y) →
  stays x (settled_side x (set_local (set_state (sock x) finAcked) (u32 (localSettledSn_ (sock x) + 1)) (localFlushedSn_ (sock x)) win) (settled (hist x) + 1) (windowEnd (hist x))) y.
Proof.
  intros Ho L1 L2 Hst Hn. pose proof (li_known _ _ L1) as Hk. pose proof (ow_order _ Ho) as Hord. split_and!.
  - pose proof (ow_flight _ Ho). destruct Ho. unfold state in *. rewrite Hst in *. split; try done; unfold state; cbn; try done; try lia.
    + rewrite ow_settled, u32_plus. done.
    + intros _. destruct (ow_est eq_refl). lia.
  - destruct L1. split; done.
  - by destruct L2; split.
  - by split.
Qed.
Lemma settled_side_same x : settled_side x (sock x) (settled (hist x)) (windowEnd (hist x)) = x.
Proof. by destruct x as [s w r []]. Qed.
Lemma in_ack_stays x y seg h payload c : own x → link x y → link y x → established (state x) = true → seg_ok y x seg h payload →
  settled (hist x) - seg_ack seg < 2 ^ 31 →
  ∃ n w, let s := in_ack (sock x) (set_tcp_checksum h c) in
    stays x (settled_side x s n w) y ∧ 0 ≤ n - settled (hist x) < 2 ^ 32 ∧ localSettledSn_ s = u32 (localSettledSn_ (sock x) + (n - settled (hist x))) ∧
    remoteKnownSn_ s = remoteKnownSn_ (sock x) ∧ (connectState_ s = connected → w = n + u32 (localWindowSn_ s - localSettledSn_ s)).
Proof.
  intros Ho L1 L2 Hst S F. pose proof (ow_order _ Ho) as Hord. pose proof (ow_flight _ Ho) as Hfl. pose proof (li_known _ _ L1) as Hk.
  assert (∃ n w, stays x (settled_side x (sock x) n w) y ∧ 0 ≤ n - settled (hist x) < 2 ^ 32 ∧
    localSettledSn_ (sock x) = u32 (localSettledSn_ (sock x) + (n - settled (hist x))) ∧ remoteKnownSn_ (sock x) = remoteKnownSn_ (sock x) ∧
    (connectState_ (sock x) = connected → w = n + u32 (localWindowSn_ (sock x) - localSettledSn_ (sock x)))) as Hkeep.
  { exists (settled (hist x)), (windowEnd (hist x)). rewrite settled_side_same, Z.sub_diag, Z.add_0_r. split; [by apply stays_refl|]. split; [lia|].
    split; [rewrite u32_small; [done|rewrite (ow_settled _ Ho); apply u32_bound]|]. split; [done|]. intros E. destruct (ow_win _ Ho E) as [-> Hw].
    rewrite (ow_settled _ Ho), u32_moved, u32_small; lia. }
  unfold in_ack. cbn [set_tcp_checksum ackNumber window]. change (is_ack (set_tcp_checksum h c)) with (is_ack h).
  destruct (is_ack h) eqn:Ea; [|done]. destruct (sg_ack _ _ _ _ _ S Ea) as (En & Hn & Hw). pose proof (th_window _ (sg_header _ _ _ _ _ S)) as Hwr.
  unfold state in Hst. destruct (connectState_ (sock x)) eqn:Ec; try done; rewrite ?En.
  - assert (u32 (localFlushedSn_ (sock x) - localSettledSn_ (sock x)) = flushed (hist x) - settled (hist x)) as ->
      by (rewrite (ow_flushed _ Ho), (ow_settled _ Ho), u32_moved, u32_small; lia).
    assert (u32 (u32 (isn (hist x) + seg_ack seg) - localSettledSn_ (sock x)) = u32 (seg_ack seg - settled (hist x))) as ->
      by (rewrite (ow_settled _ Ho); apply u32_moved).
    destruct (decide (settled (hist x) ≤ seg_ack seg)) as [Hle|Hlt].
    2: { rewrite u32_neg by lia. rewrite (proj2 (Z.leb_gt _ _)) by lia. destruct Hkeep as (n & w & ?). exists n, w. by rewrite Ec. }
    rewrite (u32_small (seg_ack seg - _)) by lia. rewrite (proj2 (Z.leb_le _ _)) by lia. exists (seg_ack seg), (seg_ack seg + window h).
    split; [apply ack_stays; done || lia|]. split; [lia|]. split; [done|]. split; [done|]. cbn. intros _.
    rewrite (ow_settled _ Ho), !u32_plus, u32_moved, u32_small by lia. lia.
  - rewrite (ow_settled _ Ho), u32_plus.
    destruct (Z.eqb_spec (u32 (isn (hist x) + seg_ack seg)) (u32 (isn (hist x) + (settled (hist x) + 1)))) as [E|_].
    2: { destruct Hkeep as (n & w & Hs). exists n, w. by rewrite Ec, <- (ow_settled _ Ho). }
    apply u32_close in E; [|lia]. exists (settled (hist x) + 1), (windowEnd (hist x)). rewrite <- u32_plus, <- (ow_settled _ Ho).
    split; [apply finack_stays; done || lia|]. split; [lia|]. split; [cbn; f_equal; lia|]. done.
  - destruct Hkeep as (n & w & Hs). exists n, w. by rewrite Ec.
Qed.

(** The handshake *)
Lemma syn_stays x y seq win : own x → own y → link x y → link y x → state x = sendSyn → flushed (hist x) = 1 → known (hist y) = 1 → 1 ≤ flushed (hist y) →
  seq = u32 (isn (hist y) + 0) → 0 ≤ win < 2 ^ 16 → 1 + win ≤ edge y →
  stays x (MkSide (set_state (set_remote (set_local (sock x) (u32 (localSettledSn_ (sock x) + 1)) (localFlushedSn_ (sock x))
      (u32 (u32 (localSettledSn_ (sock x) + 1) + win))) seq (u32 (seq + 1)) (announcedWindow_ (sock x))) connected)
    (written x) (readBytes x) (MkHistory (isn (hist x)) 1 1 (1 + win) 1 (finSent (hist x)))) y.
Proof.
  intros Ho Hoy L1 L2 Hst Fx Ky Fy -> Hw He. destruct (ow_syn _ Ho Hst) as (S0 & _ & K0). destruct (ow_open _ Ho ltac:(by rewrite Hst)) as [F R].
  assert (remoteClosed_ (sock x) = false) as Hc.
  { destruct (remoteClosed_ (sock x)) eqn:E; [|done]. destruct (li_closed _ _ L2 E). lia. }
  assert (u32 (localSettledSn_ (sock x) + 1) = u32 (isn (hist x) + 1)) as En by (rewrite (ow_settled _ Ho), u32_plus, S0; done). rewrite En.
  assert (1 ≤ dataEnd y) as Hd.
  { unfold dataEnd. destruct (finSent (hist y)) eqn:E; cbn; [|lia]. pose proof (ow_end _ Hoy E). lia. }
  split_and!.
  - destruct Ho. unfold state, dataEnd in *. rewrite Hst in *. rewrite F, S0, Fx in *. split; unfold state, dataEnd; cbn; rewrite ?F; try done; try lia.
    + apply u32_bound.
    + pose proof (available_nonneg (sendRing_ (sock x))). lia.
    + intros _. rewrite u32_plus. split; [done|]. lia.
  - destruct L1. unfold dataEnd in *. rewrite Fx in *. split; unfold dataEnd; cbn; try done; try lia.
  - destruct L2. unfold edge, space in *. split; unfold edge, space; cbn; try done; try lia.
    + intros _. apply u32_plus.
    + rewrite li_data, K0, Hc. done.
    + intros E. specialize (li_window E). lia.
  - destruct L2. split; unfold dataEnd, edge, space; cbn; try done; try lia.
Qed.
Lemma synack_stays x y win : own x → link x y → link y x → state x = sendSynAck → flushed (hist x) = 1 → known (hist y) = 1 →
  0 ≤ win < 2 ^ 16 → 1 + win ≤ edge y →
  stays x (MkSide (set_state (set_local (sock x) (u32 (localSettledSn_ (sock x) + 1)) (localFlushedSn_ (sock x))
      (u32 (u32 (localSettledSn_ (sock x) + 1) + win))) connected)
    (written x) (readBytes x) (MkHistory (isn (hist x)) 1 1 (1 + win) (known (hist x)) (finSent (hist x)))) y.
Proof.
  intros Ho L1 L2 Hst Fx Ky Hw He. destruct (ow_synack _ Ho Hst) as (S0 & _ & K0). destruct (ow_open _ Ho ltac:(by rewrite Hst)) as [F R].
  assert (u32 (localSettledSn_ (sock x) + 1) = u32 (isn (hist x) + 1)) as En by (rewrite (ow_settled _ Ho), u32_plus, S0; done). rewrite En.
  split_and!.
  - destruct Ho. unfold state, dataEnd in *. rewrite Hst in *. rewrite F, S0, Fx in *. split; unfold state, dataEnd; cbn; rewrite ?F; try done; try lia.
    + pose proof (available_nonneg (sendRing_ (sock x))). lia.
    + intros _. rewrite u32_plus. split; [done|]. lia.
  - destruct L1. unfold dataEnd in *. rewrite Fx in *. split; unfold dataEnd; cbn; try done; try lia.
  - by destruct L2; split.
  - split; unfold dataEnd; cbn; try done; try lia.
Qed.

Lemma moved_same pos a : moved pos a a = pos.
Proof. unfold moved. rewrite Z.sub_diag. apply Z.add_0_r. Qed.
Lemma moved_by pos i a n : 0 ≤ n < 2 ^ 32 → moved pos (u32 (i + a)) (u32 (u32 (i + a) + n)) = pos + n.
Proof. intros. unfold moved. rewrite u32_plus, u32_moved, u32_small; lia. Qed.
(** A packet that is rejected. *)
Lemma rejected_stays x y : own x → link x y → link y x → stays x (MkSide (sock x) (written x) (readBytes x) (receive_history (hist x) (sock x) (sock x))) y.
Proof.
  intros Ho L1 L2. apply (stays_window x x); [by apply stays_refl|done..| |].
  - unfold receive_history, set_settled. cbn. rewrite !moved_same. destruct (connectState_ (sock x)) eqn:E; try done.
  - intros E. cbn. rewrite moved_same. destruct (ow_win _ Ho E) as [-> Hw]. rewrite (ow_settled _ Ho), u32_moved, u32_small; lia.
Qed.
Lemma syn_ack_number x y seg h payload : own x → link x y → seg_ok y x seg h payload → is_ack h = true → flushed (hist x) ≤ 1 →
  flushed (hist x) = 1 ∧ known (hist y) = 1 ∧ 0 ≤ window h < 2 ^ 16 ∧ 1 + window h ≤ edge y.
Proof.
  intros Ho L S Ea F. destruct (sg_ack _ _ _ _ _ S Ea) as (_ & Hn & Hw). pose proof (li_known _ _ L). split; [lia|]. split; [lia|].
  split; [apply S|]. lia.
Qed.
Lemma receive_syn x y seg h payload c : own x → own y → link x y → link y x → state x = sendSyn → seg_ok y x seg h payload →
  stays x (MkSide (in_sendSyn (sock x) (set_tcp_checksum h c)) (written x) (readBytes x)
    (receive_history (hist x) (sock x) (in_sendSyn (sock x) (set_tcp_checksum h c)))) y.
Proof.
  intros Ho Hoy L1 L2 Hst S. pose proof (rejected_stays x y Ho L1 L2) as Hrej. destruct (ow_syn _ Ho Hst) as (S0 & F1 & K0).
  unfold in_sendSyn. cbn [set_tcp_checksum ackNumber window seqNumber]. change (is_syn (set_tcp_checksum h c)) with (is_syn h).
  change (is_ack (set_tcp_checksum h c)) with (is_ack h). case_match; [done|]. destruct (is_syn h) eqn:Es; [|done]. destruct (is_ack h) eqn:Ea; [|done].
  cbn [negb]. case_match; [done|]. destruct (syn_ack_number x y seg h payload Ho L1 S Ea F1) as (Fx & Ky & Hw & He).
  destruct (sg_syn _ _ _ _ _ S Es) as (P0 & _ & _). pose proof (sg_seq _ _ _ _ _ S) as Eq. rewrite P0 in Eq.
  pose proof (syn_stays x y (seqNumber h) (window h) Ho Hoy L1 L2 Hst Fx Ky (sg_started _ _ _ _ _ S) Eq Hw He) as Hs.
  replace (receive_history _ _ _) with (MkHistory (isn (hist x)) 1 1 (1 + window h) 1 (finSent (hist x))); [exact Hs|].
  unfold receive_history. cbn. unfold state in Hst. rewrite Hst. rewrite (ow_settled _ Ho), moved_by, S0, Fx by lia.
  f_equal. rewrite !u32_plus, u32_moved, u32_small; lia.
Qed.
Lemma receive_synack x y seg h payload c : own x → own y → link x y → link y x → state x = sendSynAck → seg_ok y x seg h payload →
  stays x (MkSide (in_sendSynAck (sock x) (set_tcp_checksum h c)) (written x) (readBytes x)
    (receive_history (hist x) (sock x) (in_sendSynAck (sock x) (set_tcp_checksum h c)))) y.
Proof.
  intros Ho Hoy L1 L2 Hst S. pose proof (rejected_stays x y Ho L1 L2) as Hrej. destruct (ow_synack _ Ho Hst) as (S0 & F1 & K0).
  unfold in_sendSynAck. cbn [set_tcp_checksum ackNumber window seqNumber].
  change (is_ack (set_tcp_checksum h c)) with (is_ack h). case_match; [done|]. destruct (is_ack h) eqn:Ea; [|done].
  cbn [negb]. case_match; [done|]. case_match; [done|]. destruct (syn_ack_number x y seg h payload Ho L1 S Ea F1) as (Fx & Ky & Hw & He).
  pose proof (synack_stays x y (window h) Ho L1 L2 Hst Fx Ky Hw He) as Hs.
  replace (receive_history _ _ _) with (MkHistory (isn (hist x)) 1 1 (1 + window h) (known (hist x)) (finSent (hist x))); [exact Hs|].
  unfold receive_history. cbn. unfold state in Hst. rewrite Hst, moved_same. rewrite (ow_settled _ Ho), moved_by, S0, Fx by lia.
  f_equal. rewrite !u32_plus, u32_moved, u32_small; lia.
Qed.
Lemma receive_established x y seg h payload c src dst : own x → own y → link x y → link y x → established (state x) = true → seg_ok y x seg h payload →
  fresh x seg = true →
  ∃ s, (s ← in_data (sock x) (MkTcpPacket (set_tcp_checksum h c) payload src dst); Ret (in_ack s (set_tcp_checksum h c))) = Ret s ∧
    stays x (MkSide s (written x) (readBytes x) (receive_history (hist x) (sock x) s)) y.
Proof.
  intros Ho Hoy L1 L2 Hst S F. destruct (ow_est _ Ho Hst) as [_ K].
  destruct (in_data_stays x y seg h payload src dst c Ho Hoy L1 L2 Hst S F) as (s1 & k & -> & Hk & St1 & Ek & Es & Ese & Ewi).
  cbn [mbind outcome_bind]. set (x1 := known_side x s1 (known (hist x) + k)) in *. pose proof St1 as (Ho1 & L11 & L21 & G1).
  assert (seg_ok y x1 seg h payload) as S1.
  { apply (seg_ok_mono y x); [apply grows_refl|done|pose proof (li_known _ _ L1); lia|apply Hoy|done]. }
  assert (established (state x1) = true) as Hst1 by (unfold state in *; cbn; by rewrite Es).
  destruct (in_ack_stays x1 y seg h payload c Ho1 L11 L21 Hst1 S1) as (n & w & St2 & Hn & En & Ekn & Ew).
  { unfold fresh in F. cbn. lia. }
  cbn [sock known_side x1] in En, Ekn, Ew, St2. eexists. split; [reflexivity|]. cbn [hist known_side set_known settled x1] in Hn, En.
  eapply stays_window; [exact (stays_trans _ _ _ _ St1 St2)|done..| |].
  - unfold receive_history, set_settled. cbn. rewrite Ekn, Ek, (li_number _ _ L2 K), moved_by by done.
    rewrite En, Ese, (ow_settled _ Ho), moved_by by done. unfold state in Hst.
    replace (settled (hist x) + (n - settled (hist x))) with n by lia. by destruct (connectState_ (sock x)).
  - intros E. cbn. rewrite (Ew E), En, Ese, (ow_settled _ Ho), moved_by by done. lia.
Qed.
Lemma receive_stays x y seg h payload c src dst : own x → own y → link x y → link y x → seg_ok y x seg h payload → fresh x seg = true →
  ∃ x', receive_side x (MkTcpPacket (set_tcp_checksum h c) payload src dst) = Ret x' ∧ stays x x' y.
Proof.
  intros Ho Hoy L1 L2 S F. unfold receive_side, handleInPacket_. cbn [tcp_header]. destruct (connectState_ (sock x)) eqn:E.
  - eexists. split; [reflexivity|]. by apply rejected_stays.
  - eexists. split; [reflexivity|]. by apply (receive_syn x y seg h payload).
  - eexists. split; [reflexivity|]. by apply (receive_synack x y seg h payload).
  - destruct (receive_established x y seg h payload c src dst Ho Hoy L1 L2 ltac:(unfold state; by rewrite E) S F) as (s & -> & Hs). by eexists.
  - destruct (receive_established x y seg h payload c src dst Ho Hoy L1 L2 ltac:(unfold state; by rewrite E) S F) as (s & -> & Hs). by eexists.
  - destruct (receive_established x y seg h payload c src dst Ho Hoy L1 L2 ltac:(unfold state; by rewrite E) S F) as (s & -> & Hs). by eexists.
Qed.

(** ** The invariant of a connection *)
Definition blank : Side := new_side (Tcp4Socket_new false).
Definition end_of (c : Conn) (who : bool) : Side := default blank (side c who).
Record inv (c : Conn) : Prop := {
  in_own : ∀ who, own (end_of c who);
  in_link : ∀ who, link (end_of c who) (end_of c (negb who));
  in_net : ∀ seg, seg ∈ net c → ∃ h payload, seg_ok (end_of c (seg_from seg)) (end_of c (negb (seg_from seg))) seg h payload;
  in_listener : port_ok (localEp_ (listener c));
}.
Lemma end_set_same c who x : end_of (set_side c who x) who = x.
Proof. by destruct who. Qed.
Lemma end_set_other c who x : end_of (set_side c who x) (negb who) = end_of c (negb who).
Proof. by destruct who. Qed.
Lemma inv_side c who x' : inv c → stays (end_of c who) x' (end_of c (negb who)) → inv (set_side c who x').
Proof.
  intros I (Ho & L1 & L2 & G). assert (net (set_side c who x') = net c ∧ listener (set_side c who x') = listener c) as [En El] by (by destruct who).
  split.
  - intros w. destruct (decide (w = who)) as [->|Hn]; [by rewrite end_set_same|]. replace w with (negb who) by (by destruct w, who).
    rewrite end_set_other. apply I.
  - intros w. destruct (decide (w = who)) as [->|Hn]; [by rewrite end_set_same, end_set_other|]. replace w with (negb who) by (by destruct w, who).
    by rewrite negb_involutive, end_set_same, end_set_other.
  - intros seg Hs. rewrite En in Hs. destruct (in_net _ I seg Hs) as (h & p & S). exists h, p. pose proof (in_link _ I (negb (seg_from seg))) as Lk.
    rewrite negb_involutive in Lk. pose proof (li_known _ _ Lk). pose proof (ow_sent _ (in_own _ I (seg_from seg))).
    assert (∀ w, grows (end_of c w) (end_of (set_side c who x') w)) as Hg.
    { intros w. destruct (decide (w = who)) as [->|Hn]; [by rewrite end_set_same|]. replace w with (negb who) by (by destruct w, who).
      rewrite end_set_other. apply grows_refl. }
    eapply seg_ok_mono; [apply Hg|apply Hg| | |exact S]; lia.
  - rewrite El. apply I.
Qed.
Lemma inv_add c seg h payload : inv c → seg_ok (end_of c (seg_from seg)) (end_of c (negb (seg_from seg))) seg h payload →
  inv (MkConn (client c) (server c) (listener c) (net c ++ [seg])).
Proof.
  intros [] S. split; try done. cbn. intros seg' [Hs|Hs%list_elem_of_singleton]%elem_of_app; [by apply in_net0|]. subst. by exists h, payload.
Qed.
Lemma side_end c who x : side c who = Some x → end_of c who = x.
Proof. unfold end_of. by intros ->. Qed.

(** The system under the two kinds of events of an end. *)
Lemma on_side_inv c who f : inv c → (∀ x, side c who = Some x → ∃ x', f x = Ret x' ∧ stays x x' (end_of c (negb who))) →
  ∃ c', on_side c who f = Ret c' ∧ inv c'.
Proof.
  intros I Hf. unfold on_side. destruct (side c who) as [x|] eqn:E; [|by exists c]. destruct (Hf x eq_refl) as (x' & -> & Hs).
  eexists. split; [reflexivity|]. apply inv_side; [done|]. by rewrite (side_end _ _ _ E).
Qed.
Lemma flush_conn_inv c who target random : inv c → 0 ≤ random < 2 ^ 32 → ∃ c', flush_conn c who target random = Ret c' ∧ inv c'.
Proof.
  intros I Hr. unfold flush_conn. destruct (side c who) as [x|] eqn:E; [|by exists c]. pose proof (side_end _ _ _ E) as Ee.
  pose proof (in_own _ I who) as Ho. pose proof (in_own _ I (negb who)) as Hoy. pose proof (in_link _ I who) as L1. pose proof (in_link _ I (negb who)) as L2.
  rewrite negb_involutive in L2. rewrite Ee in *.
  assert (flushes x (end_of c (negb who)) who target random) as (x' & buf & -> & St & Hseg).
  { destruct (connectState_ (sock x)) eqn:Ec.
    - exists x, None. unfold flush_side, flush_round. rewrite Ec. split; [done|]. split; [by apply stays_refl|done].
    - by apply flush_syn_flushes; try done; unfold state; rewrite Ec.
    - by apply flush_syn_flushes; try done; unfold state; rewrite Ec.
    - by apply flush_data_flushes; try done; unfold state; rewrite Ec.
    - by apply flush_data_flushes; try done; unfold state; rewrite Ec.
    - by apply flush_data_flushes; try done; unfold state; rewrite Ec. }
  cbn [mbind outcome_bind]. rewrite <- Ee in St. pose proof (inv_side c who x' I St) as I'. destruct buf as [b|]; [|by eexists].
  destruct (Hseg b eq_refl) as (src & h & p & -> & S). eexists. split; [reflexivity|]. eapply inv_add; [done|]. cbn [seg_from].
  rewrite end_set_same, end_set_other. unfold next_segment, state in S.
  assert (bool_decide (connectState_ (sock x) = sendSyn ∨ connectState_ (sock x) = sendSynAck) = syn_state (connectState_ (sock x))) as ->.
  { destruct (connectState_ (sock x)); [apply bool_decide_eq_false_2|apply bool_decide_eq_true_2|apply bool_decide_eq_true_2|apply bool_decide_eq_false_2..]; intuition congruence. }
  exact S.
Qed.

(** The socket that the listening socket creates for the first packet of the client. *)
Definition accepted_sock (lis : Tcp4Socket) (pkt : TcpPacket) : Tcp4Socket :=
  set_remote (set_state (set_endpoints (Tcp4Socket_new false) (MkEndpoint (from_ip pkt) (srcPort (tcp_header pkt))) (MkEndpoint (to_ip pkt) (port (localEp_ lis)))) sendSynAck)
    (u32 (seqNumber (tcp_header pkt) + 1)) (u32 (seqNumber (tcp_header pkt) + 1)) 0.
Lemma new_ring14 : ring14 (ring_new 14).
Proof. split; [apply ring_new_ok; lia|done]. Qed.
(** A socket that has not sent or received anything. *)
Lemma idle_own s k : ring14 (recvRing_ s) → ring14 (sendRing_ s) → ring_list (sendRing_ s) = [] → port_ok (localEp_ s) → port_ok (remoteEp_ s) →
  0 ≤ remoteKnownSn_ s < 2 ^ 32 → localSettledSn_ s = 0 → localFlushedSn_ s = 0 →
  connectState_ s = cs_none ∧ k = 0 ∨ connectState_ s = sendSynAck ∧ k = 1 → own (MkSide s [] [] (MkHistory 0 0 0 0 k false)).
Proof.
  intros Hr Hs Hl Hlo Hre Hk Es Ef Hst. assert (open (connectState_ s) = true ∧ established (connectState_ s) = false) as [Ho He] by (destruct Hst as [[-> _]|[-> _]]; done).
  split; unfold state, dataEnd; cbn; try done; try lia; try (intros E; rewrite E in *; done || lia).
  1: by apply Forall_nil.
  all: intros E; destruct Hst as [[E' ?]|[E' ?]]; rewrite E' in *; done || lia || congruence.
Qed.
Lemma accept_stays x lis seg h payload pkt : own x → link x blank → link blank x → port_ok (localEp_ lis) → seg_ok x blank seg h payload → is_syn h = true →
  seqNumber (tcp_header pkt) = seqNumber h → srcPort (tcp_header pkt) = srcPort h →
  stays blank (MkSide (accepted_sock lis pkt) [] [] (MkHistory 0 0 0 0 1 false)) x.
Proof.
  intros Ho L1 L2 Hp S Es Eq Ep. destruct (sg_syn _ _ _ _ _ S Es) as (P0 & _ & _). pose proof (sg_started _ _ _ _ _ S) as F1.
  pose proof (sg_seq _ _ _ _ _ S) as Esq. rewrite P0 in Esq. pose proof (th_src _ (sg_header _ _ _ _ _ S)) as Hsrc.
  pose proof (li_settled _ _ L1) as S0. pose proof (li_known _ _ L2) as K0. cbn in S0, K0. unfold accepted_sock. rewrite Eq, Ep, Esq, u32_plus.
  pose proof (ow_order _ Ho) as Hord. assert (1 ≤ dataEnd x) as Hd.
  { unfold dataEnd. destruct (finSent (hist x)) eqn:E; cbn; [|lia]. pose proof (ow_end _ Ho E). lia. }
  split_and!.
  - apply idle_own; cbn; try apply new_ring14; try apply u32_bound; try done. by right.
  - destruct L2. split; try done; cbn; try lia.
  - destruct L1. split; try done; cbn; try lia. intros E. destruct (ow_est _ Ho) as [? _]; [by rewrite E|]. lia.
  - by split.
Qed.
Lemma deliver_inv c seg : inv c → seg ∈ net c → (∀ x, side c (negb (seg_from seg)) = Some x → fresh x seg = true) → ∃ c', deliver c seg = Ret c' ∧ inv c'.
Proof.
  intros I Hin F. destruct (in_net _ I seg Hin) as (h & p & S). unfold deliver. rewrite (sg_bytes _ _ _ _ _ S), parse_build by apply S.
  set (from := seg_from seg) in *. set (pkt := MkTcpPacket _ _ _ _).
  pose proof (in_own _ I from) as Hof. pose proof (in_own _ I (negb from)) as Hot. pose proof (in_link _ I from) as L1. pose proof (in_link _ I (negb from)) as L2.
  rewrite negb_involutive in L2. destruct (side c (negb from)) as [x|] eqn:E.
  - pose proof (side_end _ _ _ E) as Ee. rewrite Ee in *.
    destruct (receive_stays x (end_of c from) seg h p (tcp_sum (seg_src seg) (seg_dst seg) h p) (seg_src seg) (seg_dst seg) Hot Hof L2 L1 S (F x eq_refl)) as (x' & Er & St).
    unfold pkt. rewrite Er. eexists. split; [reflexivity|]. apply inv_side; [done|]. rewrite Ee. by rewrite negb_involutive.
  - assert (from = true) as Hfrom by (destruct from; done). assert (end_of c (negb from) = blank) as Eb by (unfold end_of; by rewrite E).
    unfold in_listening. change (is_syn (tcp_header pkt)) with (is_syn h). destruct (is_syn h) eqn:Es; [|by exists c].
    destruct (existsb _ _); [by exists c|]. eexists. split; [reflexivity|].
    change (inv (set_side c false (MkSide (accepted_sock (listener c) pkt) [] [] (MkHistory 0 0 0 0 1 false)))).
    rewrite Eb, Hfrom in *. apply inv_side; [done|]. cbn [negb] in *. rewrite Eb. apply (accept_stays _ _ seg h p); try done. apply I.
Qed.

Lemma byte_list_ok l : byte_list l = true → bytes_ok l.
Proof.
  intros H. apply Forall_forall. intros b Hb. unfold byte_list in H. rewrite forallb_forall in H. specialize (H b Hb). unfold byte. lia.
Qed.
Lemma send_side_stays x y r data progress : own x → link x y → link y x → bytes_ok data →
  (∃ res ring, r = Ret (res, set_rings (sock x) (recvRing_ (sock x)) ring) ∧ ring14 ring ∧
    ring_list ring = ring_list (sendRing_ (sock x)) ++ take (Z.to_nat (taken res progress - progress)) (drop (Z.to_nat progress) data)) →
  ∃ x', send_side x r data progress = Ret x' ∧ stays x x' y.
Proof.
  intros Ho L1 L2 Hb (res & ring & -> & Hr & Hl). eexists. split; [reflexivity|]. apply send_stays; try done. apply Forall_take, Forall_drop, Hb.
Qed.
Lemma recv_side_stays x y r peek : own x → link x y → link y x →
  (∃ res ring, r = Ret (res, set_rings (sock x) ring (sendRing_ (sock x))) ∧ ring14 ring ∧ removed res peek ++ ring_list ring = ring_list (recvRing_ (sock x))) →
  ∃ x', recv_side x r peek = Ret x' ∧ stays x x' y.
Proof. intros Ho L1 L2 (res & ring & -> & Hr & Hl). eexists. split; [reflexivity|]. by apply recv_stays. Qed.
Lemma exec_inv c ev : inv c → enabled c ev = true → ∃ c', exec c ev = Ret c' ∧ inv c'.
Proof.
  intros I He.
  assert (∀ who x, side c who = Some x → own x ∧ link x (end_of c (negb who)) ∧ link (end_of c (negb who)) x) as Hx.
  { intros who x E. pose proof (in_own _ I who) as Ho. pose proof (in_link _ I who) as L1. pose proof (in_link _ I (negb who)) as L2.
    rewrite negb_involutive in L2. by rewrite (side_end _ _ _ E) in *. }
  destruct ev; cbn [exec enabled] in *.
  - apply on_side_inv; [done|]. intros x E. destruct (Hx _ _ E) as (Ho & L1 & L2). eexists. split; [reflexivity|].
    destruct (connect_begin_spec b 0 (sock x) number addr He (ow_local _ Ho)) as [->|(Hs & r & l & Hr & Hl & ->)]; [|by apply connect_stays].
    destruct x. by apply stays_refl.
  - apply flush_conn_inv; [done|]. lia.
  - destruct (net c !! i) as [seg|] eqn:E; [|done]. apply deliver_inv; [done|by eapply list_elem_of_lookup_2|]. intros x Es. by rewrite Es in He.
  - apply on_side_inv; [done|]. intros x E. destruct (Hx _ _ E) as (Ho & L1 & L2). apply andb_true_iff in He as [_ Hb].
    apply send_side_stays; try done; [by apply byte_list_ok|]. unfold sendMsg. destruct (localClosed_ (sock x)).
    + exists SendBrokenPipe, (sendRing_ (sock x)). rewrite set_rings_same. cbn. rewrite app_nil_r. split; [done|]. split; [apply Ho|done].
    + apply send_msg_loop_spec; [apply Ho|lia].
  - apply on_side_inv; [done|]. intros x E. destruct (Hx _ _ E) as (Ho & L1 & L2). apply andb_true_iff in He as [He Hp]. apply andb_true_iff in He as [_ Hb].
    apply send_side_stays; try done; [by apply byte_list_ok|]. apply send_msg_loop_spec; [apply Ho|lia].
  - apply on_side_inv; [done|]. intros x E. destruct (Hx _ _ E) as (Ho & L1 & L2). apply andb_true_iff in He as [_ Hs].
    apply recv_side_stays; try done. unfold recvMsg. destruct (remoteClosed_ (sock x)).
    + exists (RecvData []), (recvRing_ (sock x)). rewrite set_rings_same. split; [done|]. split; [apply Ho|]. by destruct peek.
    + apply recv_loop_spec; [apply Ho|lia].
  - apply on_side_inv; [done|]. intros x E. destruct (Hx _ _ E) as (Ho & L1 & L2). apply andb_true_iff in He as [_ Hs].
    apply recv_side_stays; try done. apply recv_loop_spec; [apply Ho|lia].
  - apply on_side_inv; [done|]. intros x E. destruct (Hx _ _ E) as (Ho & L1 & L2). eexists. split; [reflexivity|]. by apply disconnect_stays.
  - apply on_side_inv; [done|]. intros x E. destruct (Hx _ _ E) as (Ho & L1 & L2). rewrite E in He. eexists. split; [reflexivity|].
    apply andb_true_iff in He as [He _]. apply andb_true_iff in He as [Hc Hs]. apply bool_decide_eq_true in Hs. by apply disconnect_fin_stays.
Qed.
Lemma blank_own : own blank.
Proof. apply idle_own; cbn; try apply new_ring14; try done. by left. Qed.
Lemma initial_inv c : initial c → inv c.
Proof.
  intros (nb & loc & lis & Hl & Hi & Hp & ->). set (x := new_side _). assert (own x) as Ho by (pose proof blank_own as []; by split).
  assert (link x blank ∧ link blank x) as [L1 L2] by (split; split; done).
  split; [by intros []; [|apply blank_own]|by intros []|by intros seg Hs%elem_of_nil|done].
Qed.
Lemma reachable_inv c : reachable c → inv c.
Proof. induction 1 as [c Hi|c ev c' _ IH He Ex]; [by apply initial_inv|]. destruct (exec_inv c ev IH He) as (c2 & E2 & I2). congruence. Qed.

(** ** What the ends read *)

(** C4: In a connection over a network that loses, duplicates and reorders packets, no
    assertion of the code fails, whatever the two ends and the network do next.  The bytes
    that an end has read, followed by the bytes in its receive buffer, are a prefix of the
    bytes that the other end has written.  Of an end that is connected this prefix contains
    everything but the bytes still in the send buffer.  An end sees the connection closed
    only after the other end has closed it. *)
Theorem stream_integrity c : reachable c →
  (∀ ev, enabled c ev = true → ∃ c', exec c ev = Ret c') ∧
  ∀ who x y, side c who = Some x → side c (negb who) = Some y →
    (remoteClosed_ (sock y) = true → localClosed_ (sock x) = true) ∧
    ∃ n : nat, readBytes y ++ ring_list (recvRing_ (sock y)) = take n (written x) ∧
      (connectState_ (sock x) = connected → Z.of_nat (length (written x)) - availableToDequeue (sendRing_ (sock x)) ≤ Z.of_nat n).
Proof.
  intros I%reachable_inv. split; [intros ev He; destruct (exec_inv c ev I He) as (c' & ? & _); by exists c'|].
  intros who x y Ex Ey. pose proof (in_own _ I who) as Ho. pose proof (in_link _ I who) as L. rewrite (side_end _ _ _ Ex), (side_end _ _ _ Ey) in *. split.
  - intros Hc. destruct (li_closed _ _ L Hc) as [F _]. apply (ow_closed _ Ho). destruct (open (state x)) eqn:E; [|done]. destruct (ow_open _ Ho E). congruence.
  - eexists. split; [apply L|]. intros Hst. destruct (ow_open _ Ho ltac:(unfold state; by rewrite Hst)) as [F R]. rewrite ring14_avail, R, length_drop.
    pose proof (li_settled _ _ L). destruct (remoteClosed_ (sock y)) eqn:Hc; [destruct (li_closed _ _ L Hc); congruence|]. cbn [Z.b2z]. lia.
Qed.

(** A client that writes five bytes, which the server reads. *)
Fixpoint run_events (c : Conn) (evs : list event) : outcome Conn :=
  match evs with
  | [] => Ret c
  | ev :: evs => if enabled c ev then c' ← exec c ev; run_events c' evs else Ret c
  end.
Lemma run_reachable evs : ∀ c c', reachable c → run_events c evs = Ret c' → reachable c'.
Proof.
  induction evs as [|ev evs IH]; intros c c' Hr E; cbn in E; [by simplify_eq|]. destruct (enabled c ev) eqn:En; [|by simplify_eq].
  apply bind_Ret in E as (c1 & E1 & E2). eapply IH; [|exact E2]. by eapply reach_step.
Qed.
Definition demo_listener : Tcp4Socket := set_endpoints (listen (Tcp4Socket_new false)) no_endpoint (MkEndpoint 0 80).
Definition demo_start : Conn := MkConn (new_side (set_endpoints (Tcp4Socket_new false) no_endpoint no_endpoint)) None demo_listener [].
Definition demo_events : list event := [
  EvConnect [] 7 (Some (MkSockaddr true 80 0x0a000002));
  EvFlush true (Some 0x0a000001) 0xfffffffe; EvDeliver 0;
  EvFlush false (Some 0x0a000002) 5; EvDeliver 1;
  EvFlush true (Some 0x0a000001) 0; EvDeliver 2;
  EvFlush false (Some 0x0a000002) 0; EvDeliver 3;
  EvSend true [104; 101; 108; 108; 111]; EvFlush true (Some 0x0a000001) 0; EvDeliver 4; EvDeliver 0; EvDeliver 4;
  EvRecv false false false 3; EvFlush false (Some 0x0a000002) 0; EvDeliver 5].
Definition demo_conn : Conn := match run_events demo_start demo_events with Ret c => c | Stop _ => demo_start end.
Definition demo_reads (c : Conn) : option (list Z * list Z * Z) :=
  match server c with
  | Some y => Some (readBytes y, ring_list (recvRing_ (sock y)), availableToDequeue (sendRing_ (sock (client c))))
  | None => None
  end.
Lemma demo_reads_server c r : demo_reads c = Some r → ∃ y, side c (negb true) = Some y.
Proof. unfold demo_reads. cbn. destruct (server c) as [y|]; [by exists y|done]. Qed.
Lemma side_client c : side c true = Some (client c).
Proof. done. Qed.
Lemma run_returns c evs : (match run_events c evs with Ret _ => true | Stop _ => false end) = true →
  run_events c evs = Ret (match run_events c evs with Ret c' => c' | Stop _ => c end).
Proof. by destruct (run_events c evs). Qed.
Lemma demo_reachable : reachable demo_conn.
Proof.
  apply (run_reachable demo_events demo_start); [|apply run_returns; vm_compute; reflexivity].
  apply reach_init. exists false, no_endpoint, demo_listener. split_and!; try reflexivity; unfold port_ok; cbn; lia.
Qed.
Lemma stream_integrity_witness :
  demo_reads demo_conn = Some ([104; 101; 108], [108; 111], 0) ∧
  ∃ y n, side demo_conn (negb true) = Some y ∧ readBytes y ++ ring_list (recvRing_ (sock y)) = take n (written (client demo_conn)) ∧
    (connectState_ (sock (client demo_conn)) = connected →
      Z.of_nat (length (written (client demo_conn))) - availableToDequeue (sendRing_ (sock (client demo_conn))) ≤ Z.of_nat n).
Proof.
  assert (demo_reads demo_conn = Some ([104; 101; 108], [108; 111], 0)) as E by (vm_compute; reflexivity). split; [exact E|].
  destruct (demo_reads_server _ _ E) as [y Ey].
  destruct (proj2 (stream_integrity demo_conn demo_reachable) true (client demo_conn) y (side_client _) Ey) as [_ [n Hn]].
  exists y, n. split; [exact Ey|exact Hn].
Defined.

(** ** Data that is lost at the end of a connection *)

(** A server that receives data and the end of the connection before it reads: [recvMsg] returns no data. *)
Definition closing_events : list event := take 12 demo_events ++ [
  EvFlush false (Some 0x0a000002) 0; EvDeliver 5; EvDisconnect true; EvDisconnectFin true; EvFlush true (Some 0x0a000001) 0; EvDeliver 6].
Definition unread (c : Conn) : bool :=
  match server c with
  | Some y => remoteClosed_ (sock y) && (availableToDequeue (recvRing_ (sock y)) =? 5) && bool_decide (readBytes y = [])
  | None => false
  end.
Lemma run_start evs c : run_events demo_start evs = Ret c → reachable c.
Proof.
  apply run_reachable, reach_init. exists false, no_endpoint, demo_listener. split_and!; try reflexivity; unfold port_ok; cbn; lia.
Qed.
Lemma outcome_check {A} (r : outcome A) (f : A → bool) : match r with Ret c => f c | Stop _ => false end = true → ∃ c, r = Ret c ∧ f c = true.
Proof. destruct r as [c|]; [by exists c|done]. Qed.
Lemma closed_hides_data : ∃ c y, reachable c ∧ side c false = Some y ∧ availableToDequeue (recvRing_ (sock y)) = 5 ∧
  ∀ peek dontwait size, recvMsg (sock y) peek dontwait size = Ret (RecvData [], sock y).
Proof.
  destruct (outcome_check (run_events demo_start closing_events) unread) as (c & E & U); [vm_compute; reflexivity|].
  unfold unread in U. destruct (server c) as [y|] eqn:Ey; [|done]. apply andb_true_iff in U as [U _]. apply andb_true_iff in U as [Hc Ha].
  exists c, y. split; [by eapply run_start|]. split; [done|]. split; [lia|]. intros. unfold recvMsg. by rewrite Hc.
Qed.
(** An end that closes the connection before its data is sent ends it without the data. *)
Definition unsent_events : list event := take 7 demo_events ++ [
  EvSend true [104; 101; 108; 108; 111]; EvDisconnect true; EvDisconnectFin true; EvFlush true (Some 0x0a000001) 0; EvDeliver 3].
Definition unsent (c : Conn) : bool :=
  match server c with
  | Some y => remoteClosed_ (sock y) && bool_decide (ring_list (recvRing_ (sock y)) = []) && bool_decide (readBytes y = []) &&
              bool_decide (written (client c) = [104; 101; 108; 108; 111])
  | None => false
  end.
Lemma close_loses_unsent_data : ∃ c y, reachable c ∧ side c false = Some y ∧ written (client c) = [104; 101; 108; 108; 111] ∧
  remoteClosed_ (sock y) = true ∧ readBytes y ++ ring_list (recvRing_ (sock y)) = [].
Proof.
  destruct (outcome_check (run_events demo_start unsent_events) unsent) as (c & E & U); [vm_compute; reflexivity|].
  unfold unsent in U. destruct (server c) as [y|] eqn:Ey; [|done]. repeat (apply andb_true_iff in U as [U ?]).
  repeat match goal with H : bool_decide _ = true |- _ => apply bool_decide_eq_true in H end.
  exists c, y. split; [by eapply run_start|]. split; [done|]. split; [done|]. split; [done|].
  by repeat match goal with H : _ = [] |- _ => rewrite H end.
Qed.

(** ** The table of bound sockets *)

(** A socket that is bound to any address does not keep another one from its port. *)
Lemma bind_misses_any s1 s2 : ∃ s1' s2' b1 b2, tryBind [] 1 s1 true (MkEndpoint INADDR_ANY 80) = Some (s1', b1) ∧
  tryBind b1 2 s2 true (MkEndpoint 0x0a000001 80) = Some (s2', b2).
Proof. by eexists _, _, _, _. Qed.
