(* ===== verification/IpcQueue.v ===== *)
(** * Completion queues between the kernel and user space

    [IpcQueue] of kernel/thor/generic/ipc-queue.cpp and the [Dispatcher] of
    hel/include/helix/ipc.hpp, which share the memory of a queue.

    The kernel and the owner of the dispatcher are two threads.  Each is a program counter
    with local variables, and each step does at most one access to the words of the shared
    memory; steps interleave in any order.  The contents of an element are written in one
    step, since nobody reads them before their publication.  The bits of the two
    notification words that belong to the submission queue and to [helAlertQueue] are set
    and cleared by the environment.  Of the events of libasync the model uses that a wait
    for which the condition holds sleeps until the event is raised. *)
From Stdlib Require Import ZArith Lia ZifyBool.
From stdpp Require Import base list numbers option.
From S2P Require Import Prelude Checksum.
Open Scope Z_scope.

(** ** The shared memory *)
Definition kUserNotifyCqProgress : Z := Z.shiftl 1 0.
Definition kUserNotifySupplySqChunks : Z := Z.shiftl 1 1.
Definition kUserNotifyError : Z := Z.shiftl 1 14.
Definition kUserNotifyAlert : Z := Z.shiftl 1 15.
Definition kKernelNotifySqProgress : Z := Z.shiftl 1 0.
Definition kKernelNotifySupplyCqChunks : Z := Z.shiftl 1 1.
Definition kNextPresent : Z := Z.shiftl 1 24.
Definition kProgressMask : Z := 0xFFFFFF.
Definition kProgressDone : Z := Z.shiftl 1 25.
Definition kProgressFull : Z := Z.shiftl 1 26.
(** [w & bits] and [w & ~bits] *)
Definition has (w bits : Z) : bool := negb (Z.land w bits =? 0).
Definition without (w bits : Z) : Z := Z.ldiff w bits.

Record ChunkStruct := MkChunk { next : Z; progressFutex : Z; buffer : list Z }.
Record Memory := MkMemory { userNotify : Z; kernelNotify : Z; cqFirst : Z; chunks : list ChunkStruct }.
Definition sizeof_ChunkStruct : Z := 8.
Definition sizeof_ElementStruct : Z := 16.
Definition reservedPerChunk (chunkSize : Z) : Z := Z.ldiff (sizeof_ChunkStruct + chunkSize + 63) 63.

Definition set_userNotify (m : Memory) (v : Z) : Memory := MkMemory v (kernelNotify m) (cqFirst m) (chunks m).
Definition set_kernelNotify (m : Memory) (v : Z) : Memory := MkMemory (userNotify m) v (cqFirst m) (chunks m).
Definition set_cqFirst (m : Memory) (v : Z) : Memory := MkMemory (userNotify m) (kernelNotify m) v (chunks m).
Definition set_chunk (m : Memory) (c : nat) (x : ChunkStruct) : Memory := MkMemory (userNotify m) (kernelNotify m) (cqFirst m) (<[c := x]> (chunks m)).
Definition get_chunk (m : Memory) (c : Z) : outcome ChunkStruct :=
  if 0 <=? c then match chunks m !! Z.to_nat c with Some x => Ret x | None => Stop OutOfBounds end else Stop OutOfBounds.
Definition on_chunk (m : Memory) (c : Z) (f : ChunkStruct → outcome ChunkStruct) : outcome Memory :=
  x ← get_chunk m c; x' ← f x; Ret (set_chunk m (Z.to_nat c) x').
Definition set_next (x : ChunkStruct) (v : Z) : ChunkStruct := MkChunk v (progressFutex x) (buffer x).
Definition set_progress (x : ChunkStruct) (v : Z) : ChunkStruct := MkChunk (next x) v (buffer x).
Definition set_buffer (x : ChunkStruct) (b : list Z) : ChunkStruct := MkChunk (next x) (progressFutex x) b.

(** ** The kernel *)
Definition padded (size : Z) : Z := Z.ldiff (size + 7) 7.
Definition submit_length (sources : list (list Z)) : Z := foldr (λ s n, padded (Z.of_nat (length s)) + n) 0 sources.
Fixpoint le_bytes (n : nat) (v : Z) : list Z := match n with O => [] | S n => v mod 256 :: le_bytes n (v / 256) end.
Definition element_bytes (length opcode context : Z) : list Z := le_bytes 4 length ++ le_bytes 4 opcode ++ le_bytes 8 context.
(** [memcpy] to a chunk; a copy behind the memory of the chunk is a fault. *)
Definition put (b : list Z) (offset : Z) (bytes : list Z) : outcome (list Z) :=
  if (0 <=? offset) && (offset + Z.of_nat (length bytes) <=? Z.of_nat (length b)) then Ret (write_at b offset bytes) else Stop OutOfBounds.
Fixpoint put_sources (b : list Z) (offset : Z) (sources : list (list Z)) : outcome (list Z) :=
  match sources with
  | [] => Ret b
  | s :: sources => b ← put b offset s; put_sources b (offset + padded (Z.of_nat (length s))) sources
  end.

(** The program counter of [submit]. *)
Inductive kpc :=
| KIdle
| KFirstLoad | KFirstNotify | KFirstWait | KFirstAsleep | KFirstClear
| KFull | KFullNotify | KNextLoad | KNextNotify | KNextWait | KNextAsleep | KNextClear
| KDone (nextWord : Z) | KDoneNotify (nextWord : Z)
| KWrite | KPublish | KNotify.
Record Kernel := MkKernel {
  k_pc : kpc;
  k_sources : list (list Z);
  k_context : Z;
  haveCqChunk : bool;
  currentChunk : Z;
  currentProgress : Z;
}.
Definition set_kpc (k : Kernel) (pc : kpc) : Kernel := MkKernel pc (k_sources k) (k_context k) (haveCqChunk k) (currentChunk k) (currentProgress k).
Definition set_current (k : Kernel) (have : bool) (chunk progress : Z) : Kernel := MkKernel (k_pc k) (k_sources k) (k_context k) have chunk progress.
Definition new_kernel : Kernel := MkKernel KIdle [] 0 false 0 0.

(** ** The dispatcher *)

(** A handle of an element: its chunk, the offset of its data and their length. *)
Record ElementHandle := MkHandle { h_chunk : Z; h_offset : Z; h_length : Z }.
#[export] Instance ElementHandle_eq_dec : EqDecision ElementHandle.
Proof. solve_decision. Defined.
(** What follows the release of a chunk. *)
Inductive ucont := ThenWait (nextChunk : Z) | ThenIdle.
Inductive upc :=
| UIdle
| UStart | UNotifyLoad | UCheck (notify : Z) | UClear (bits : Z) | URunQueue | UDrive | UDriveCheck | UWaitIf | UAsleep
| UDone | USurrender (cn : Z) (k : ucont) | UResetNext (cn : Z) (k : ucont) | UResetProgress (cn : Z) (k : ucont)
| USupply (cn : Z) (k : ucont) | UWake (k : ucont) | UWakeDrive (k : ucont)
| UDequeue.
Record Dispatcher := MkDispatcher {
  u_pc : upc;
  pendingNotify : Z;
  retrieveChunk : Z;
  tailChunk : Z;
  lastProgress : Z;
  refCounts : list Z;
  handles : list ElementHandle;
}.
Definition set_upc (u : Dispatcher) (pc : upc) : Dispatcher :=
  MkDispatcher pc (pendingNotify u) (retrieveChunk u) (tailChunk u) (lastProgress u) (refCounts u) (handles u).
Definition set_pending (u : Dispatcher) (v : Z) : Dispatcher :=
  MkDispatcher (u_pc u) v (retrieveChunk u) (tailChunk u) (lastProgress u) (refCounts u) (handles u).
Definition set_retrieve (u : Dispatcher) (chunk progress : Z) : Dispatcher :=
  MkDispatcher (u_pc u) (pendingNotify u) chunk (tailChunk u) progress (refCounts u) (handles u).
Definition set_tail (u : Dispatcher) (chunk : Z) : Dispatcher :=
  MkDispatcher (u_pc u) (pendingNotify u) (retrieveChunk u) chunk (lastProgress u) (refCounts u) (handles u).
Definition set_refs (u : Dispatcher) (refs : list Z) : Dispatcher :=
  MkDispatcher (u_pc u) (pendingNotify u) (retrieveChunk u) (tailChunk u) (lastProgress u) refs (handles u).
Definition set_handles (u : Dispatcher) (hs : list ElementHandle) : Dispatcher :=
  MkDispatcher (u_pc u) (pendingNotify u) (retrieveChunk u) (tailChunk u) (lastProgress u) (refCounts u) hs.

(** ** The system

    [submitted] are the elements that the kernel has published, [delivered] the contexts
    and the data that the dispatcher has handed out. *)
Record Queue := MkQueue {
  mem : Memory;
  kern : Kernel;
  disp : Dispatcher;
  submitted : list (list (list Z) * Z);
  delivered : list (Z * list Z);
}.
Definition with_mem (q : Queue) (m : Memory) : Queue := MkQueue m (kern q) (disp q) (submitted q) (delivered q).
Definition with_kern (q : Queue) (k : Kernel) : Queue := MkQueue (mem q) k (disp q) (submitted q) (delivered q).
Definition with_disp (q : Queue) (u : Dispatcher) : Queue := MkQueue (mem q) (kern q) u (submitted q) (delivered q).
Definition k_goto (q : Queue) (pc : kpc) : Queue := with_kern q (set_kpc (kern q) pc).
Definition u_goto (q : Queue) (pc : upc) : Queue := with_disp q (set_upc (disp q) pc).

(** [_userEvent.raise] and [_cqEvent.raise] *)
Definition raise_user (q : Queue) : Queue := match u_pc (disp q) with UAsleep => u_goto q UNotifyLoad | _ => q end.
Definition raiseCqEvent (q : Queue) : Queue :=
  match k_pc (kern q) with KFirstAsleep => k_goto q KFirstLoad | KNextAsleep => k_goto q KNextLoad | _ => q end.
(** [__atomic_fetch_or(&head->userNotify, ...)] and the event *)
Definition notify_user (q : Queue) (bit : Z) : Queue :=
  let old := userNotify (mem q) in
  let q := with_mem q (set_userNotify (mem q) (Z.lor old bit)) in
  if has old bit then q else raise_user q.

Section queue.
Context (chunkSize numCqChunks : Z).

Definition isValidCqChunk (idx : Z) : bool := (0 <=? idx) && (idx <? numCqChunks).
Definition k_length (k : Kernel) : Z := submit_length (k_sources k).
(** The check whether the element goes to the next chunk. *)
Definition k_enter (k : Kernel) : kpc := if chunkSize <? currentProgress k + k_length k then KFull else KWrite.

Definition submit_begin (q : Queue) (sources : list (list Z)) (context : Z) : outcome Queue :=
  assert! submit_length sources <=? chunkSize;
  let k := MkKernel KIdle sources context (haveCqChunk (kern q)) (currentChunk (kern q)) (currentProgress (kern q)) in
  Ret (with_kern q (set_kpc k (if haveCqChunk k then k_enter k else KFirstLoad))).
Definition store_progress (q : Queue) (v : Z) : outcome Queue :=
  m ← on_chunk (mem q) (currentChunk (kern q)) (λ x, Ret (set_progress x v)); Ret (with_mem q m).
Definition kstep (q : Queue) : outcome Queue :=
  let k := kern q in
  match k_pc k with
  | KIdle | KFirstAsleep | KNextAsleep => Ret q
  | KFirstLoad =>
      let w := cqFirst (mem q) in
      if has w kNextPresent then
        if isValidCqChunk (without w kNextPresent) then
          let k := set_current k true (without w kNextPresent) (currentProgress k) in
          Ret (with_kern q (set_kpc k (k_enter k)))
        else Ret (k_goto (notify_user q kUserNotifyError) KIdle)
      else Ret (k_goto q KFirstNotify)
  | KFirstNotify => Ret (k_goto q (if has (kernelNotify (mem q)) kKernelNotifySupplyCqChunks then KFirstClear else KFirstWait))
  | KFirstWait => Ret (k_goto q (if has (kernelNotify (mem q)) kKernelNotifySupplyCqChunks then KFirstLoad else KFirstAsleep))
  | KFirstClear => Ret (k_goto (with_mem q (set_kernelNotify (mem q) (without (kernelNotify (mem q)) kKernelNotifySupplyCqChunks))) KFirstLoad)
  | KFull => q ← store_progress q (Z.lor (currentProgress k) kProgressFull); Ret (k_goto q KFullNotify)
  | KFullNotify => Ret (k_goto (notify_user q kUserNotifyCqProgress) KNextLoad)
  | KNextLoad =>
      x ← get_chunk (mem q) (currentChunk k);
      Ret (k_goto q (if has (next x) kNextPresent then KDone (next x) else KNextNotify))
  | KNextNotify => Ret (k_goto q (if has (kernelNotify (mem q)) kKernelNotifySupplyCqChunks then KNextClear else KNextWait))
  | KNextWait => Ret (k_goto q (if has (kernelNotify (mem q)) kKernelNotifySupplyCqChunks then KNextLoad else KNextAsleep))
  | KNextClear => Ret (k_goto (with_mem q (set_kernelNotify (mem q) (without (kernelNotify (mem q)) kKernelNotifySupplyCqChunks))) KNextLoad)
  | KDone w => q ← store_progress q (Z.lor (Z.lor (currentProgress k) kProgressFull) kProgressDone); Ret (k_goto q (KDoneNotify w))
  | KDoneNotify w =>
      let q := notify_user q kUserNotifyCqProgress in
      if isValidCqChunk (without w kNextPresent) then
        Ret (with_kern q (set_kpc (set_current (kern q) true (without w kNextPresent) 0) KWrite))
      else Ret (k_goto (notify_user (with_kern q (set_current (kern q) false (currentChunk k) (currentProgress k))) kUserNotifyError) KIdle)
  | KWrite =>
      m ← on_chunk (mem q) (currentChunk k) (λ x,
        b ← put (buffer x) (currentProgress k) (element_bytes (k_length k) 0 (k_context k));
        b ← put_sources b (currentProgress k + sizeof_ElementStruct) (k_sources k);
        Ret (set_buffer x b));
      Ret (k_goto (with_mem q m) KPublish)
  | KPublish =>
      q ← store_progress q (currentProgress k + sizeof_ElementStruct + k_length k);
      Ret (MkQueue (mem q) (set_kpc k KNotify) (disp q) (submitted q ++ [(k_sources k, k_context k)]) (delivered q))
  | KNotify =>
      let q := notify_user q kUserNotifyCqProgress in
      Ret (with_kern q (set_kpc (set_current k (haveCqChunk k) (currentChunk k) (currentProgress k + sizeof_ElementStruct + k_length k)) KIdle))
  end.

(** *** The dispatcher *)
Definition relevantNotify : Z := Z.lor kUserNotifyCqProgress kUserNotifyAlert.
Definition maskedNotify : Z := kUserNotifySupplySqChunks.
Definition resume (u : Dispatcher) (k : ucont) : Dispatcher :=
  match k with ThenWait c => set_upc (set_retrieve u c 0) UStart | ThenIdle => set_upc u UIdle end.
Definition get_ref (u : Dispatcher) (c : Z) : outcome Z :=
  if 0 <=? c then match refCounts u !! Z.to_nat c with Some r => Ret r | None => Stop OutOfBounds end else Stop OutOfBounds.
Definition set_ref (u : Dispatcher) (c r : Z) : Dispatcher := set_refs u (<[Z.to_nat c := r]> (refCounts u)).
Definition le_value (bytes : list Z) : Z := foldr (λ b v, b + 256 * v) 0 bytes.
Definition get (b : list Z) (offset size : Z) : outcome (list Z) :=
  if (0 <=? offset) && (0 <=? size) && (offset + size <=? Z.of_nat (length b)) then Ret (take (Z.to_nat size) (drop (Z.to_nat offset) b)) else Stop OutOfBounds.
(** The checks of [_waitProgressFutex] with the bits [notify]. *)
Definition check_progress (q : Queue) (notify : Z) : outcome Queue :=
  let u := set_pending (disp q) (Z.lor (pendingNotify (disp q)) notify) in
  let nothing :=
    let clear := Z.land notify relevantNotify in
    let u := set_pending u (without (pendingNotify u) relevantNotify) in
    if clear =? 0 then assert! without (pendingNotify u) maskedNotify =? 0; Ret (with_disp q (set_upc u URunQueue))
    else Ret (with_disp q (set_upc u (UClear clear))) in
  if has (pendingNotify u) kUserNotifyCqProgress then
    x ← get_chunk (mem q) (retrieveChunk u);
    let p := progressFutex x in
    assert! without p (Z.lor (Z.lor kProgressMask kProgressFull) kProgressDone) =? 0;
    assert! negb (has p kProgressFull) || negb (retrieveChunk u =? tailChunk u);
    if negb (lastProgress u =? Z.land p kProgressMask) then Ret (with_disp q (set_upc u UDequeue))
    else if has p kProgressDone then assert! has p kProgressFull; Ret (with_disp q (set_upc u UDone))
    else nothing
  else nothing.
(** [rq]: the run queue has work to do. *)
Definition ustep (q : Queue) (rq : bool) : outcome Queue :=
  let u := disp q in
  match u_pc u with
  | UIdle | UAsleep => Ret q
  | UStart => Ret (u_goto q (if rq then UIdle else UNotifyLoad))
  | UNotifyLoad => Ret (u_goto q (UCheck (userNotify (mem q))))
  | UCheck notify => check_progress q notify
  | UClear bits =>
      let old := userNotify (mem q) in
      Ret (u_goto (with_mem q (set_userNotify (mem q) (without old bits))) (UCheck old))
  | URunQueue => Ret (u_goto q (if rq then UStart else UDrive))
  | UDrive => Ret (u_goto (raiseCqEvent q) UDriveCheck)
  | UDriveCheck => Ret (u_goto q (if without (userNotify (mem q)) maskedNotify =? 0 then UWaitIf else UNotifyLoad))
  | UWaitIf => Ret (u_goto q (if without (userNotify (mem q)) maskedNotify =? 0 then UAsleep else UNotifyLoad))
  | UDone =>
      x ← get_chunk (mem q) (retrieveChunk u);
      Ret (u_goto q (USurrender (retrieveChunk u) (ThenWait (without (next x) kNextPresent))))
  | USurrender cn k =>
      r ← get_ref u cn;
      assert! 0 <? r;
      let u := set_ref u cn (r - 1) in
      Ret (with_disp q (if 1 <? r then resume u k else set_upc u (UResetNext cn k)))
  | UResetNext cn k =>
      m ← on_chunk (mem q) cn (λ x, Ret (set_next x 0)); Ret (u_goto (with_mem q m) (UResetProgress cn k))
  | UResetProgress cn k =>
      m ← on_chunk (mem q) cn (λ x, Ret (set_progress x 0)); Ret (with_disp (with_mem q m) (set_upc (set_ref u cn 1) (USupply cn k)))
  | USupply cn k =>
      m ← on_chunk (mem q) (tailChunk u) (λ x, Ret (set_next x (Z.lor cn kNextPresent)));
      Ret (with_disp (with_mem q m) (set_upc (set_tail u cn) (UWake k)))
  | UWake k =>
      let old := kernelNotify (mem q) in
      let q := with_mem q (set_kernelNotify (mem q) (Z.lor old kKernelNotifySupplyCqChunks)) in
      Ret (with_disp q (if has old kKernelNotifySupplyCqChunks then resume u k else set_upc u (UWakeDrive k)))
  | UWakeDrive k => Ret (with_disp (raiseCqEvent q) (resume u k))
  | UDequeue =>
      x ← get_chunk (mem q) (retrieveChunk u);
      header ← get (buffer x) (lastProgress u) sizeof_ElementStruct;
      let length := le_value (take 4 header) in
      let context := le_value (drop 8 header) in
      data ← get (buffer x) (lastProgress u + sizeof_ElementStruct) length;
      r ← get_ref u (retrieveChunk u);
      let h := MkHandle (retrieveChunk u) (lastProgress u + sizeof_ElementStruct) length in
      let u' := set_ref (set_retrieve u (retrieveChunk u) (lastProgress u + sizeof_ElementStruct + length)) (retrieveChunk u) (r + 1) in
      Ret (MkQueue (mem q) (kern q) (set_upc (set_handles u' (handles u ++ [h])) UIdle) (submitted q) (delivered q ++ [(context, data)]))
  end.
(** The copy constructor and the destructor of an [ElementHandle]. *)
Definition copy_handle (q : Queue) (i : nat) : outcome Queue :=
  match handles (disp q) !! i with
  | None => Ret q
  | Some h => r ← get_ref (disp q) (h_chunk h); Ret (with_disp q (set_handles (set_ref (disp q) (h_chunk h) (r + 1)) (handles (disp q) ++ [h])))
  end.
Definition drop_handle (q : Queue) (i : nat) : Queue :=
  match handles (disp q) !! i with
  | None => q
  | Some h => with_disp q (set_upc (set_handles (disp q) (delete i (handles (disp q)))) (USurrender (h_chunk h) ThenIdle))
  end.

(** *** Creation *)
Definition new_chunk : ChunkStruct := MkChunk 0 0 (replicate (Z.to_nat (reservedPerChunk chunkSize - sizeof_ChunkStruct)) 0).
(** [IpcQueue::create], without the submission queue *)
Definition create : Memory := MkMemory 0 0 0 (replicate (Z.to_nat numCqChunks) new_chunk).
(** The constructor of [Dispatcher]: reset all chunks and supply them; nobody waits for them yet. *)
Fixpoint supply_all (n : nat) (m : Memory) (tail : Z) : outcome (Memory * Z) :=
  match n with
  | O => Ret (m, tail)
  | S n =>
      r ← supply_all n m tail;
      let '(m, tail) := r in
      m ← on_chunk m tail (λ x, Ret (set_next x (Z.lor (Z.of_nat n + 1) kNextPresent)));
      Ret (set_kernelNotify m (Z.lor (kernelNotify m) kKernelNotifySupplyCqChunks), Z.of_nat n + 1)
  end.
Definition Dispatcher_new (m : Memory) : outcome (Memory * Dispatcher) :=
  let m := MkMemory (userNotify m) (kernelNotify m) (cqFirst m) ((λ x, set_progress (set_next x 0) 0) <$> chunks m) in
  let m := set_cqFirst m (Z.lor 0 kNextPresent) in
  r ← supply_all (Z.to_nat (numCqChunks - 1)) m 0;
  let '(m, tail) := r in
  let m := set_kernelNotify m (Z.lor (kernelNotify m) kKernelNotifySupplyCqChunks) in
  Ret (m, MkDispatcher UIdle 0 0 tail 0 (replicate (Z.to_nat numCqChunks) 1) []).
Definition start : outcome Queue :=
  r ← Dispatcher_new create; Ret (MkQueue r.1 new_kernel r.2 [] []).

(** *** Events *)
Inductive event :=
| EvSubmit (sources : list (list Z)) (context : Z)
| EvKernel
| EvWait
| EvUser (rq : bool)
| EvCopy (i : nat)
| EvDrop (i : nat)
| EvInterrupt
| EvAlert
| EvUserSq (set : bool)
| EvKernelSq (set : bool).
Definition is_uidle (u : Dispatcher) : bool := match u_pc u with UIdle => true | _ => false end.
Definition is_kidle (k : Kernel) : bool := match k_pc k with KIdle => true | _ => false end.
Definition byte_list (l : list Z) : bool := forallb (λ b, (0 <=? b) && (b <? 256)) l.
(** [validSize] holds for what is submitted. *)
Definition validSize (size : Z) : bool := sizeof_ElementStruct + size <=? chunkSize.
Definition enabled (q : Queue) (ev : event) : bool :=
  match ev with
  | EvSubmit sources context =>
      is_kidle (kern q) && validSize (submit_length sources) && forallb byte_list sources && ((0 <=? context) && (context <? 2 ^ 64))
  | EvWait => is_uidle (disp q)
  | EvCopy i | EvDrop i => is_uidle (disp q) && bool_decide (is_Some (handles (disp q) !! i))
  | _ => true
  end.
Definition exec (q : Queue) (ev : event) : outcome Queue :=
  match ev with
  | EvSubmit sources context => submit_begin q sources context
  | EvKernel => kstep q
  | EvWait => Ret (u_goto q UStart)
  | EvUser rq => ustep q rq
  | EvCopy i => copy_handle q i
  | EvDrop i => Ret (drop_handle q i)
  | EvInterrupt => Ret (raise_user q)
  | EvAlert => Ret (notify_user q kUserNotifyAlert)
  | EvUserSq true => Ret (notify_user q kUserNotifySupplySqChunks)
  | EvUserSq false => Ret (with_mem q (set_userNotify (mem q) (without (userNotify (mem q)) kUserNotifySupplySqChunks)))
  | EvKernelSq true => Ret (with_mem q (set_kernelNotify (mem q) (Z.lor (kernelNotify (mem q)) kKernelNotifySqProgress)))
  | EvKernelSq false => Ret (with_mem q (set_kernelNotify (mem q) (without (kernelNotify (mem q)) kKernelNotifySqProgress)))
  end.
Inductive reachable : Queue → Prop :=
| reach_start q : start = Ret q → reachable q
| reach_step q ev q' : reachable q → enabled q ev = true → exec q ev = Ret q' → reachable q'.
End queue.
