(* ===== verification/IpcQueueInv.v ===== *)
(** * Completion queues: the invariant

    The chunks form a sequence in the order in which the dispatcher has supplied them.  The
    kernel fills them and the dispatcher empties them in this order; a chunk that is
    released is appended to the sequence again. *)
From Stdlib Require Import ZArith Lia ZifyBool.
From stdpp Require Import base list numbers option.
From S2P Require Import Prelude Checksum IpcQueue.
Open Scope Z_scope.

(** ** Bits *)
Lemma has_testbit w k : 0 ≤ k → has w (Z.shiftl 1 k) = Z.testbit w k.
Proof.
  intros Hk. unfold has. rewrite Z.shiftl_1_l. destruct (Z.testbit w k) eqn:E.
  - rewrite (proj2 (Z.eqb_neq _ _)); [done|]. intros H. assert (Z.testbit (Z.land w (2 ^ k)) k = false) as F by (rewrite H; apply Z.bits_0).
    rewrite Z.land_spec, E, Z.pow2_bits_true in F by lia. done.
  - rewrite (proj2 (Z.eqb_eq _ _)); [done|]. apply Z.bits_inj'. intros i Hi. rewrite Z.land_spec, Z.bits_0.
    destruct (decide (i = k)) as [->|Hn]; [by rewrite E|]. by rewrite Z.pow2_bits_false, andb_false_r by lia.
Qed.
Lemma bit_one k i : 0 ≤ k → Z.testbit (Z.shiftl 1 k) i = (i =? k).
Proof.
  intros Hk. rewrite Z.shiftl_1_l. destruct (Z.eqb_spec i k) as [->|]; [by apply Z.pow2_bits_true|by apply Z.pow2_bits_false].
Qed.
Lemma has_lor a b k : 0 ≤ k → has (Z.lor a b) (Z.shiftl 1 k) = has a (Z.shiftl 1 k) || has b (Z.shiftl 1 k).
Proof. intros. by rewrite !has_testbit, Z.lor_spec. Qed.
Lemma has_without a b k : 0 ≤ k → has (without a b) (Z.shiftl 1 k) = has a (Z.shiftl 1 k) && negb (has b (Z.shiftl 1 k)).
Proof. intros. unfold without. by rewrite !has_testbit, Z.ldiff_spec. Qed.
Lemma has_one j k : 0 ≤ j → 0 ≤ k → has (Z.shiftl 1 j) (Z.shiftl 1 k) = (k =? j).
Proof. intros. rewrite has_testbit by done. by apply bit_one. Qed.
Lemma small_bits s k : 0 ≤ s < 2 ^ 24 → 24 ≤ k → Z.testbit s k = false.
Proof.
  intros Hs Hk. destruct (decide (s = 0)) as [->|]; [apply Z.bits_0|]. apply Z.bits_above_log2; [lia|].
  apply Z.log2_lt_pow2; [lia|]. pose proof (Z.pow_le_mono_r 2 24 k). lia.
Qed.
(** All bits of [a] are among those of [b]. *)
Definition subbits (a b : Z) : Prop := without a b = 0.
Lemma subbits_spec a b : subbits a b ↔ ∀ i, 0 ≤ i → Z.testbit a i = true → Z.testbit b i = true.
Proof.
  unfold subbits, without. split.
  - intros H i Hi Ha. assert (Z.testbit (Z.ldiff a b) i = false) as F by (rewrite H; apply Z.bits_0). rewrite Z.ldiff_spec, Ha in F. by destruct (Z.testbit b i).
  - intros H. apply Z.bits_inj'. intros i Hi. rewrite Z.ldiff_spec, Z.bits_0. destruct (Z.testbit a i) eqn:E; [|done]. by rewrite (H i Hi E).
Qed.
Lemma subbits_lor a b c : subbits a c → subbits b c → subbits (Z.lor a b) c.
Proof. rewrite !subbits_spec. intros Ha Hb i Hi. rewrite Z.lor_spec. intros [E|E]%orb_true_iff; auto. Qed.
Lemma subbits_without a b c : subbits a c → subbits (without a b) c.
Proof. rewrite !subbits_spec. intros Ha i Hi. unfold without. rewrite Z.ldiff_spec. intros [E _]%andb_true_iff. auto. Qed.
Lemma subbits_land_r a b c : subbits a c → subbits (Z.land a b) c.
Proof. rewrite !subbits_spec. intros Ha i Hi. rewrite Z.land_spec. intros [E _]%andb_true_iff. auto. Qed.

(** The words of a chunk *)
Definition link_word (c : Z) : Z := Z.lor c kNextPresent.
Lemma link_present c : has (link_word c) kNextPresent = true.
Proof. unfold link_word, kNextPresent. rewrite has_lor, has_one by lia. by rewrite orb_true_r. Qed.
Lemma link_index c : 0 ≤ c < 2 ^ 24 → without (link_word c) kNextPresent = c.
Proof.
  intros Hc. unfold without, link_word, kNextPresent. apply Z.bits_inj'. intros i Hi. rewrite Z.ldiff_spec, Z.lor_spec, bit_one by lia.
  destruct (Z.eqb_spec i 24) as [->|]; [by rewrite small_bits|]. by rewrite orb_false_r, andb_true_r.
Qed.
Definition full_word (s : Z) : Z := Z.lor s kProgressFull.
Definition done_word (s : Z) : Z := Z.lor (Z.lor s kProgressFull) kProgressDone.
Definition progress_bits : Z := Z.lor (Z.lor kProgressMask kProgressFull) kProgressDone.
Lemma mask_small s : 0 ≤ s < 2 ^ 24 → Z.land s kProgressMask = s.
Proof. intros. change kProgressMask with (Z.ones 24). rewrite Z.land_ones by lia. by apply Z.mod_small. Qed.
Lemma plain_word s : 0 ≤ s < 2 ^ 24 →
  Z.land s kProgressMask = s ∧ has s kProgressFull = false ∧ has s kProgressDone = false ∧ subbits s progress_bits.
Proof.
  intros Hs. split; [by apply mask_small|]. unfold kProgressFull, kProgressDone. rewrite !has_testbit, !small_bits by lia. split; [done|]. split; [done|].
  apply subbits_spec. intros i Hi E. assert (i < 24) by (destruct (Z.lt_ge_cases i 24); [done|by rewrite small_bits in E by lia]).
  unfold progress_bits. rewrite !Z.lor_spec. change kProgressMask with (Z.ones 24). by rewrite Z.ones_spec_low by lia.
Qed.
Lemma full_word_spec s : 0 ≤ s < 2 ^ 24 →
  Z.land (full_word s) kProgressMask = s ∧ has (full_word s) kProgressFull = true ∧ has (full_word s) kProgressDone = false ∧ subbits (full_word s) progress_bits.
Proof.
  intros Hs. destruct (plain_word s Hs) as (H1 & H2 & H3 & H4). unfold full_word. rewrite Z.land_lor_distr_l, H1. split; [apply Z.lor_0_r|].
  unfold kProgressFull, kProgressDone in *. rewrite !has_lor, !has_one, H2, H3 by lia. split; [done|]. split; [done|]. apply subbits_lor; [done|].
  apply subbits_spec. intros i Hi. unfold progress_bits, kProgressFull. rewrite !Z.lor_spec. intros ->. by rewrite orb_true_r.
Qed.
Lemma done_word_spec s : 0 ≤ s < 2 ^ 24 →
  Z.land (done_word s) kProgressMask = s ∧ has (done_word s) kProgressFull = true ∧ has (done_word s) kProgressDone = true ∧ subbits (done_word s) progress_bits.
Proof.
  intros Hs. destruct (full_word_spec s Hs) as (H1 & H2 & H3 & H4). unfold done_word. fold (full_word s). rewrite Z.land_lor_distr_l, H1. split; [apply Z.lor_0_r|].
  unfold kProgressFull, kProgressDone in *. rewrite !has_lor, !has_one, H2, H3 by lia. split; [done|]. split; [done|]. apply subbits_lor; [done|].
  apply subbits_spec. intros i Hi. unfold progress_bits, kProgressDone. rewrite !Z.lor_spec. intros ->. by rewrite orb_true_r.
Qed.

(** ** Elements *)
Record Elem := MkElem { e_sources : list (list Z); e_context : Z; e_data : list Z }.
(** The data consist of the sources, each with less than eight bytes behind it. *)
Fixpoint carries (data : list Z) (sources : list (list Z)) : Prop :=
  match sources with
  | [] => data = []
  | s :: sources => ∃ pad rest, data = s ++ pad ++ rest ∧ (length pad < 8)%nat ∧ carries rest sources
  end.
Record elem_ok (e : Elem) : Prop := {
  eo_context : 0 ≤ e_context e < 2 ^ 64;
  eo_length : Z.of_nat (length (e_data e)) = submit_length (e_sources e);
  eo_carries : carries (e_data e) (e_sources e);
}.
Definition encode (e : Elem) : list Z := element_bytes (Z.of_nat (length (e_data e))) 0 (e_context e) ++ e_data e.
Definition enc (es : list Elem) : list Z := es ≫= encode.
Definition size (es : list Elem) : Z := Z.of_nat (length (enc es)).

Lemma le_bytes_length n : ∀ v, length (le_bytes n v) = n.
Proof. induction n; intros; cbn; [done|]. by rewrite IHn. Qed.
Lemma le_value_bytes n : ∀ v, 0 ≤ v < 256 ^ Z.of_nat n → le_value (le_bytes n v) = v.
Proof.
  induction n as [|n IH]; intros v Hv; [cbn in *; lia|]. cbn [le_bytes]. unfold le_value in *. cbn [foldr]. rewrite IH.
  - pose proof (Z.div_mod v 256 ltac:(lia)). lia.
  - rewrite Nat2Z.inj_succ, Z.pow_succ_r in Hv by lia. split; [apply Z.div_pos; lia|apply Z.div_lt_upper_bound; lia].
Qed.
Lemma element_bytes_length a b c : length (element_bytes a b c) = 16%nat.
Proof. done. Qed.
Lemma encode_length e : Z.of_nat (length (encode e)) = 16 + Z.of_nat (length (e_data e)).
Proof. unfold encode. rewrite length_app, element_bytes_length. lia. Qed.
Lemma size_app l l' : size (l ++ l') = size l + size l'.
Proof. unfold size, enc. rewrite bind_app, length_app. lia. Qed.
Lemma size_nil : size [] = 0.
Proof. done. Qed.
Lemma size_one e : size [e] = 16 + Z.of_nat (length (e_data e)).
Proof. unfold size, enc. cbn. rewrite app_nil_r. apply encode_length. Qed.
Lemma size_nonneg l : 0 ≤ size l.
Proof. unfold size. lia. Qed.
Lemma size_take j l : size (take j l) ≤ size l.
Proof. rewrite <- (take_drop j l) at 2. rewrite size_app. pose proof (size_nonneg (drop j l)). lia. Qed.

Lemma padded_spec n : 0 ≤ n → n ≤ padded n < n + 8.
Proof.
  intros Hn. unfold padded. change 7 with (Z.ones 3). rewrite Z.ldiff_ones_r, Z.shiftl_mul_pow2, Z.shiftr_div_pow2 by lia. change (Z.ones 3) with 7.
  pose proof (Z.div_mod (n + 7) (2 ^ 3) ltac:(lia)). pose proof (Z.mod_pos_bound (n + 7) (2 ^ 3) ltac:(lia)). lia.
Qed.
Lemma submit_length_nonneg l : 0 ≤ submit_length l.
Proof. induction l as [|s l IH]; cbn; [lia|]. pose proof (padded_spec (Z.of_nat (length s))). unfold submit_length in IH. lia. Qed.

(** Reading behind, in and before what was written *)
Lemma write_at_take (b chunk : list Z) o n : 0 ≤ o → o + Z.of_nat (length chunk) ≤ Z.of_nat (length b) → (n ≤ Z.to_nat o)%nat →
  take n (write_at b o chunk) = take n b.
Proof. intros H0 H1 Hn. unfold write_at. rewrite take_app_le, take_take by (rewrite length_take; lia). f_equal. lia. Qed.
Lemma write_at_in (b chunk : list Z) o : 0 ≤ o → o + Z.of_nat (length chunk) ≤ Z.of_nat (length b) →
  take (length chunk) (drop (Z.to_nat o) (write_at b o chunk)) = chunk.
Proof.
  intros H0 H1. unfold write_at. assert (length (take (Z.to_nat o) b) = Z.to_nat o) as Hl by (rewrite length_take; lia).
  rewrite <- Hl at 1. rewrite drop_app_length. by rewrite take_app_length.
Qed.
Lemma take_shorter (b b' : list Z) m n : take m b' = take m b → (n ≤ m)%nat → take n b' = take n b.
Proof. intros E Hn. rewrite <- (Nat.min_l n m) by done. rewrite <- !(take_take _ n m). by rewrite E. Qed.
Lemma put_spec b o bytes : 0 ≤ o → o + Z.of_nat (length bytes) ≤ Z.of_nat (length b) →
  put b o bytes = Ret (write_at b o bytes) ∧ length (write_at b o bytes) = length b.
Proof.
  intros H0 H1. unfold put. rewrite (proj2 (andb_true_iff _ _)) by lia. split; [done|]. apply write_at_length; lia.
Qed.
Lemma slice_app (b : list Z) m n o : (o = m + n)%nat → take o b = take m b ++ take n (drop m b).
Proof. intros ->. rewrite <- take_take_drop. done. Qed.
(** The sources are copied behind each other, and nothing before them changes. *)
Lemma put_sources_spec sources : ∀ b o, 0 ≤ o → o + submit_length sources ≤ Z.of_nat (length b) →
  ∃ b' data, put_sources b o sources = Ret b' ∧ length b' = length b ∧ take (Z.to_nat o) b' = take (Z.to_nat o) b ∧
    take (Z.to_nat (submit_length sources)) (drop (Z.to_nat o) b') = data ∧ Z.of_nat (length data) = submit_length sources ∧ carries data sources.
Proof.
  induction sources as [|s sources IH]; intros b o Ho Hfit.
  - exists b, []. cbn. done.
  - cbn [submit_length foldr] in *. fold (submit_length sources) in *. pose proof (submit_length_nonneg sources) as Hn.
    destruct (padded_spec (Z.of_nat (length s)) ltac:(lia)) as [Hp1 Hp2]. set (P := padded (Z.of_nat (length s))) in *.
    cbn [put_sources]. destruct (put_spec b o s Ho ltac:(lia)) as [-> Hl]. cbn [mbind outcome_bind]. fold P.
    set (b1 := write_at b o s) in *. destruct (IH b1 (o + P) ltac:(lia) ltac:(rewrite Hl; lia)) as (b' & data & -> & Hl' & Ht & Hd & Hld & Hc).
    exists b', (take (Z.to_nat (P + submit_length sources)) (drop (Z.to_nat o) b')). split; [done|]. split; [lia|].
    split. { rewrite (take_shorter b1 b' _ (Z.to_nat o) Ht ltac:(lia)). apply write_at_take; lia. }
    split; [done|]. split. { rewrite length_take, length_drop. lia. }
    exists (take (Z.to_nat P - length s) (drop (length s) (drop (Z.to_nat o) b'))), data.
    assert (take (length s) (drop (Z.to_nat o) b') = s) as Es.
    { etrans; [|apply (write_at_in b s o); lia]. fold b1. rewrite !take_drop_commute. f_equal. apply (take_shorter b1 b' _ _ Ht). lia. }
    split; [|split; [rewrite length_take; lia|done]]. rewrite app_assoc. rewrite <- Es at 1.
    rewrite <- (slice_app _ _ _ (Z.to_nat P)) by lia. rewrite <- Hd. replace (Z.to_nat (o + P)) with (Z.to_nat o + Z.to_nat P)%nat by lia. rewrite <- drop_drop.
    apply slice_app. lia.
Qed.
(** The whole element *)
Lemma put_element b o sources ctx : 0 ≤ o → o + 16 + submit_length sources ≤ Z.of_nat (length b) → 0 ≤ ctx < 2 ^ 64 →
  ∃ b1 b2 e, put b o (element_bytes (submit_length sources) 0 ctx) = Ret b1 ∧ put_sources b1 (o + 16) sources = Ret b2 ∧ length b2 = length b ∧
    elem_ok e ∧ e_sources e = sources ∧ e_context e = ctx ∧ take (Z.to_nat o) b2 = take (Z.to_nat o) b ∧
    take (Z.to_nat (16 + submit_length sources)) (drop (Z.to_nat o) b2) = encode e.
Proof.
  intros Ho Hfit Hctx. pose proof (submit_length_nonneg sources) as Hn.
  set (hd := element_bytes (submit_length sources) 0 ctx). assert (length hd = 16%nat) as Hhd by done.
  destruct (put_spec b o hd Ho ltac:(lia)) as [-> Hl]. set (b1 := write_at b o hd) in *.
  destruct (put_sources_spec sources b1 (o + 16) ltac:(lia) ltac:(rewrite Hl; lia)) as (b2 & data & Hb2 & Hl2 & Ht & Hd & Hld & Hc).
  exists b1, b2, (MkElem sources ctx data). split; [done|]. split; [done|]. split; [lia|]. split; [by split|]. split; [done|]. split; [done|].
  split. { rewrite (take_shorter b1 b2 _ (Z.to_nat o) Ht ltac:(lia)). apply write_at_take; lia. }
  rewrite (slice_app _ 16 (Z.to_nat (submit_length sources))) by lia. unfold encode. cbn [e_data e_context]. rewrite Hld. fold hd. f_equal.
  - etrans; [|apply (write_at_in b hd o); lia]. fold b1. rewrite Hhd, !take_drop_commute. f_equal. apply (take_shorter b1 b2 _ _ Ht). lia.
  - rewrite drop_drop. replace (Z.to_nat o + 16)%nat with (Z.to_nat (o + 16)) by lia. done.
Qed.

(** ** The invariant

    [g_live] are the chunks from the one that the dispatcher reads to the last one that it
    has supplied.  The kernel has finished those of [g_front] and writes the one with the
    elements [g_cur].  [g_hist] was read from earlier chunks, and of the chunk that is read
    now, [g_taken] elements were handed out. *)
Record Ghost := MkGhost { g_live : list Z; g_front : list (list Elem); g_cur : list Elem; g_hist : list Elem; g_taken : nat }.
Definition user_sent (g : Ghost) : list Elem := default (g_cur g) (head (g_front g)).
Definition next_word (live : list Z) (i : nat) : Z := match live !! S i with Some c => link_word c | None => 0 end.
Definition progress_word (front : list (list Elem)) (cur : list Elem) (full : bool) (i : nat) : Z :=
  match front !! i with
  | Some es => done_word (size es)
  | None => if (i =? length front)%nat then if full then full_word (size cur) else size cur else 0
  end.
Record cell_ok (live : list Z) (front : list (list Elem)) (cur : list Elem) (full : bool) (i : nat) (x : ChunkStruct) : Prop := {
  ce_next : next x = next_word live i;
  ce_progress : progressFutex x = progress_word front cur full i;
  ce_data : ∀ es, (front ++ [cur]) !! i = Some es → take (length (enc es)) (buffer x) = enc es;
}.
(** The kernel has marked the chunk that it leaves. *)
Definition kfull (pc : kpc) : bool :=
  match pc with KFullNotify | KNextLoad | KNextNotify | KNextWait | KNextAsleep | KNextClear | KDone _ => true | _ => false end.
(** The chunk behind the one that is being released, which the dispatcher reads next. *)
Definition moving (pc : upc) : option Z :=
  match pc with
  | USurrender _ (ThenWait c) | UResetNext _ (ThenWait c) | UResetProgress _ (ThenWait c) | USupply _ (ThenWait c) | UWake (ThenWait c) | UWakeDrive (ThenWait c) => Some c
  | _ => None
  end.
(** The chunk for which the program counter stands for a reference, and the one that is reset. *)
Definition releasing (pc : upc) : option Z := match pc with USurrender c _ | USupply c _ => Some c | _ => None end.
Definition resetting (pc : upc) : option Z := match pc with UResetNext c _ | UResetProgress c _ => Some c | _ => None end.
Definition on_list (c : Z) (live : list Z) : Z := if decide (c ∈ live) then 1 else 0.
Definition held (c : Z) (hs : list ElementHandle) : Z := Z.of_nat (length (filter (λ h, h_chunk h = c) hs)).
Definition at_pc (c : Z) (pc : upc) : Z := if decide (releasing pc = Some c) then 1 else 0.
Definition refs (live : list Z) (hs : list ElementHandle) (pc : upc) (c : Z) : Z := on_list c live + held c hs + at_pc c pc.
Definition notify_bits : Z := Z.lor (Z.lor kUserNotifyCqProgress kUserNotifySupplySqChunks) kUserNotifyAlert.

Section invariant.
Context (chunkSize numCqChunks : Z).
Notation capacity := (reservedPerChunk chunkSize - sizeof_ChunkStruct).

Record ghost_ok (g : Ghost) : Prop := {
  go_nodup : NoDup (g_live g);
  go_range : Forall (λ c, 0 ≤ c < numCqChunks) (g_live g);
  go_front : (length (g_front g) < length (g_live g))%nat;
  go_elems : Forall (Forall elem_ok) (g_front g ++ [g_cur g]);
  go_size : Forall (λ es, size es ≤ chunkSize + 16) (g_front g ++ [g_cur g]);
}.
Record chunks_ok (g : Ghost) (full : bool) (cs : list ChunkStruct) : Prop := {
  co_length : length cs = Z.to_nat numCqChunks;
  co_buffer : ∀ i x, cs !! i = Some x → Z.of_nat (length (buffer x)) = capacity;
  co_live : ∀ i c, g_live g !! i = Some c → ∃ x, cs !! Z.to_nat c = Some x ∧ cell_ok (g_live g) (g_front g) (g_cur g) full i x;
}.
Definition job_ok (k : Kernel) : Prop := 16 + k_length k ≤ chunkSize ∧ 0 ≤ k_context k < 2 ^ 64.
Record at_cursor (g : Ghost) (k : Kernel) (progress : Z) : Prop := {
  ac_have : haveCqChunk k = true;
  ac_chunk : g_live g !! length (g_front g) = Some (currentChunk k);
  ac_progress : currentProgress k = progress;
}.
Record unstarted (m : Memory) (g : Ghost) (k : Kernel) : Prop := {
  un_have : haveCqChunk k = false;
  un_progress : currentProgress k = 0;
  un_front : g_front g = [];
  un_cur : g_cur g = [];
  un_live : g_live g !! 0%nat = Some 0;
  un_first : cqFirst m = link_word 0;
}.
Definition written (cs : list ChunkStruct) (g : Ghost) (k : Kernel) : Prop :=
  ∃ x e, cs !! Z.to_nat (currentChunk k) = Some x ∧ elem_ok e ∧ e_sources e = k_sources k ∧ e_context e = k_context k ∧
    take (length (enc (g_cur g ++ [e]))) (buffer x) = enc (g_cur g ++ [e]).
Definition kernel_ok (m : Memory) (g : Ghost) (k : Kernel) : Prop :=
  match k_pc k with
  | KIdle => at_cursor g k (size (g_cur g)) ∨ unstarted m g k
  | KFirstLoad => job_ok k ∧ unstarted m g k
  | KFirstNotify | KFirstWait | KFirstAsleep | KFirstClear => False
  | KFull | KFullNotify | KNextLoad | KNextNotify | KNextWait | KNextAsleep | KNextClear => job_ok k ∧ at_cursor g k (size (g_cur g))
  | KDone w => job_ok k ∧ at_cursor g k (size (g_cur g)) ∧ ∃ c, g_live g !! S (length (g_front g)) = Some c ∧ w = link_word c
  | KDoneNotify w => job_ok k ∧ g_cur g = [] ∧ ∃ c, g_live g !! length (g_front g) = Some c ∧ w = link_word c
  | KWrite => job_ok k ∧ at_cursor g k (size (g_cur g)) ∧ size (g_cur g) + k_length k ≤ chunkSize
  | KPublish => job_ok k ∧ at_cursor g k (size (g_cur g)) ∧ size (g_cur g) + k_length k ≤ chunkSize ∧ written (chunks m) g k
  | KNotify => job_ok k ∧ at_cursor g k (size (g_cur g) - 16 - k_length k)
  end.
(** A handle to a chunk of the list is one to an element that was taken from the first one. *)
Definition handle_ok (g : Ghost) (h : ElementHandle) : Prop :=
  0 ≤ h_chunk h < numCqChunks ∧ 0 ≤ h_offset h ∧ 0 ≤ h_length h ∧
  (h_chunk h ∈ g_live g → head (g_live g) = Some (h_chunk h) ∧ h_offset h + h_length h ≤ size (take (g_taken g) (user_sent g))).
Record user_ok (g : Ghost) (u : Dispatcher) : Prop := {
  uo_taken : (g_taken g ≤ length (user_sent g))%nat;
  uo_cursor : match moving (u_pc u) with
    | Some c => head (g_live g) = Some c ∧ g_taken g = 0%nat
    | None => head (g_live g) = Some (retrieveChunk u) ∧ lastProgress u = size (take (g_taken g) (user_sent g))
    end;
  uo_tail : list.last (g_live g) = Some (tailChunk u);
  uo_refs : ∀ c, 0 ≤ c < numCqChunks → refCounts u !! Z.to_nat c = Some (refs (g_live g) (handles u) (u_pc u) c);
  uo_used : ∀ c, 0 ≤ c < numCqChunks → 0 < refs (g_live g) (handles u) (u_pc u) c ∨ resetting (u_pc u) = Some c;
  uo_handles : Forall (handle_ok g) (handles u);
  uo_pc : match u_pc u with
    | UDone => g_front g ≠ [] ∧ g_taken g = length (user_sent g)
    | UDequeue => (g_taken g < length (user_sent g))%nat
    | USurrender c _ => 0 ≤ c < numCqChunks
    | UResetNext c _ | UResetProgress c _ => 0 ≤ c < numCqChunks ∧ refs (g_live g) (handles u) (u_pc u) c = 0
    | USupply c _ => 0 ≤ c < numCqChunks ∧ refs (g_live g) (handles u) (u_pc u) c = 1
    | _ => True
    end;
}.
Definition reset_ok (cs : list ChunkStruct) (pc : upc) : Prop :=
  match pc with
  | UResetProgress c _ => ∀ x, cs !! Z.to_nat c = Some x → next x = 0
  | USupply c _ => ∀ x, cs !! Z.to_nat c = Some x → next x = 0 ∧ progressFutex x = 0
  | _ => True
  end.
Definition bits_ok (q : Queue) : Prop :=
  subbits (userNotify (mem q)) notify_bits ∧ subbits (pendingNotify (disp q)) notify_bits ∧
  match u_pc (disp q) with UCheck n => subbits n notify_bits | _ => True end.
Definition trace_ok (g : Ghost) (q : Queue) : Prop :=
  submitted q = (λ e, (e_sources e, e_context e)) <$> (g_hist g ++ concat (g_front g ++ [g_cur g])) ∧
  delivered q = (λ e, (e_context e, e_data e)) <$> (g_hist g ++ take (g_taken g) (user_sent g)) ∧
  Forall elem_ok (g_hist g).
Record inv_at (g : Ghost) (q : Queue) : Prop := {
  in_ghost : ghost_ok g;
  in_chunks : chunks_ok g (kfull (k_pc (kern q))) (chunks (mem q));
  in_kernel : kernel_ok (mem q) g (kern q);
  in_user : user_ok g (disp q);
  in_reset : reset_ok (chunks (mem q)) (u_pc (disp q));
  in_bits : bits_ok q;
  in_trace : trace_ok g q;
}.
End invariant.
