(* ===== verification/IpcQueueSteps.v ===== *)
(** * Completion queues: every step preserves the invariant *)
From Stdlib Require Import ZArith Lia ZifyBool.
From stdpp Require Import base list numbers option.
From S2P Require Import Prelude Checksum IpcQueue IpcQueueInv.
Open Scope Z_scope.

(** The parameters of a queue.  The last condition is that the memory behind a chunk's
    [chunkSize] bytes has room for the header of an element: the check of [submit] does not
    count it. *)
Record config_ok (chunkSize numCqChunks : Z) : Prop := {
  cf_chunks : 1 ≤ numCqChunks < 2 ^ 24;
  cf_size : 0 ≤ chunkSize ∧ chunkSize + 16 < 2 ^ 24;
  cf_slack : chunkSize + 16 ≤ reservedPerChunk chunkSize - sizeof_ChunkStruct;
}.

Lemma get_chunk_Ret m c x : 0 ≤ c → chunks m !! Z.to_nat c = Some x → get_chunk m c = Ret x.
Proof. intros Hc Hx. unfold get_chunk. rewrite (proj2 (Z.leb_le _ _) Hc). by rewrite Hx. Qed.
Lemma on_chunk_Ret m c f x x' : 0 ≤ c → chunks m !! Z.to_nat c = Some x → f x = Ret x' → on_chunk m c f = Ret (set_chunk m (Z.to_nat c) x').
Proof. intros Hc Hx Hf. unfold on_chunk. rewrite (get_chunk_Ret m c x Hc Hx). cbn [mbind outcome_bind]. by rewrite Hf. Qed.
Lemma on_chunk_inv m c f m' : on_chunk m c f = Ret m' → ∃ x x', chunks m !! Z.to_nat c = Some x ∧ 0 ≤ c ∧ f x = Ret x' ∧ m' = set_chunk m (Z.to_nat c) x'.
Proof.
  unfold on_chunk, get_chunk. destruct (Z.leb_spec 0 c); [|done]. destruct (chunks m !! Z.to_nat c) as [x|]; [|done]. cbn [mbind outcome_bind].
  destruct (f x) as [x'|] eqn:Ef; [|done]. cbn [mbind outcome_bind]. intros [= <-]. exists x, x'. done.
Qed.
Lemma get_ref_Ret u c r : 0 ≤ c → refCounts u !! Z.to_nat c = Some r → get_ref u c = Ret r.
Proof. intros Hc Hr. unfold get_ref. rewrite (proj2 (Z.leb_le _ _) Hc). by rewrite Hr. Qed.

#[local] Arguments submit_length _ : simpl never.

Section steps.
Context (chunkSize numCqChunks : Z) (Hcfg : config_ok chunkSize numCqChunks).
Notation ghost_ok := (ghost_ok chunkSize numCqChunks).
Notation chunks_ok := (chunks_ok chunkSize numCqChunks).
Notation kernel_ok := (kernel_ok chunkSize).
Notation user_ok := (user_ok numCqChunks).
Notation inv_at := (inv_at chunkSize numCqChunks).

Lemma live_range g i c : ghost_ok g → g_live g !! i = Some c → 0 ≤ c < numCqChunks.
Proof. intros [_ Hr _ _ _] Hi. exact (Forall_lookup_1 _ _ _ _ Hr Hi). Qed.
Lemma live_small g i c : ghost_ok g → g_live g !! i = Some c → 0 ≤ c < 2 ^ 24.
Proof using Hcfg. intros Hg Hi. pose proof (live_range g i c Hg Hi). destruct Hcfg. lia. Qed.
Lemma live_inj g i i' c c' : ghost_ok g → g_live g !! i = Some c → g_live g !! i' = Some c' → Z.to_nat c = Z.to_nat c' → i = i'.
Proof.
  intros Hg Hi Hi' E. pose proof (live_range g i c Hg Hi). pose proof (live_range g i' c' Hg Hi'). assert (c = c') by lia. subst.
  exact (NoDup_lookup _ _ _ _ (go_nodup _ _ _ Hg) Hi Hi').
Qed.
Lemma cursor_chunk g : ghost_ok g → is_Some (g_live g !! length (g_front g)).
Proof. intros Hg. apply lookup_lt_is_Some. apply Hg. Qed.
Lemma cur_size g : ghost_ok g → 0 ≤ size (g_cur g) ≤ chunkSize + 16.
Proof. intros Hg. split; [apply size_nonneg|]. pose proof (go_size _ _ _ Hg) as H. rewrite Forall_app, Forall_singleton in H. tauto. Qed.

(** *** Chunks *)
Lemma chunks_write g full cs g' full' i c x x' :
  ghost_ok g → chunks_ok g full cs → g_live g' = g_live g → g_live g !! i = Some c → cs !! Z.to_nat c = Some x → length (buffer x') = length (buffer x) →
  cell_ok (g_live g) (g_front g') (g_cur g') full' i x' →
  (∀ j y, j ≠ i → cell_ok (g_live g) (g_front g) (g_cur g) full j y → cell_ok (g_live g) (g_front g') (g_cur g') full' j y) →
  chunks_ok g' full' (<[Z.to_nat c := x']> cs).
Proof.
  intros Hg [Hl Hb Hc] El Hi Hx Hlen Hcell Hother. split.
  - by rewrite length_insert.
  - intros k y. destruct (decide (k = Z.to_nat c)) as [->|Hn].
    + rewrite list_lookup_insert_eq by (by eapply lookup_lt_Some). intros [= <-]. rewrite Hlen. exact (Hb _ _ Hx).
    + rewrite list_lookup_insert_ne by done. apply Hb.
  - rewrite El. intros j d Hj. destruct (decide (j = i)) as [->|Hn].
    + rewrite Hi in Hj. injection Hj as <-. exists x'. by rewrite list_lookup_insert_eq by (by eapply lookup_lt_Some).
    + destruct (Hc j d Hj) as (y & Hy & Hok). exists y. rewrite list_lookup_insert_ne; [by auto|].
      intros E. by pose proof (live_inj g i j c d Hg Hi Hj E).
Qed.
Lemma chunks_other g full cs c x x' : 0 ≤ c → c ∉ g_live g → ghost_ok g → chunks_ok g full cs → cs !! Z.to_nat c = Some x → length (buffer x') = length (buffer x) →
  chunks_ok g full (<[Z.to_nat c := x']> cs).
Proof.
  intros Hc0 Hnot Hg [Hl Hb Hc] Hx Hlen. split.
  - by rewrite length_insert.
  - intros k y. destruct (decide (k = Z.to_nat c)) as [->|Hn].
    + rewrite list_lookup_insert_eq by (by eapply lookup_lt_Some). intros [= <-]. rewrite Hlen. exact (Hb _ _ Hx).
    + rewrite list_lookup_insert_ne by done. apply Hb.
  - intros j d Hj. destruct (Hc j d Hj) as (y & Hy & Hok). exists y. rewrite list_lookup_insert_ne; [done|].
    intros E. pose proof (live_range g j d Hg Hj). assert (c = d) by lia. subst. by apply Hnot, (list_elem_of_lookup_2 _ j).
Qed.
(** The words of the other chunks depend neither on the mark nor on the elements of the kernel's chunk. *)
Lemma cell_other_full live front cur cur' full full' j y :
  j ≠ length front → cell_ok live front cur full j y → cell_ok live front cur' full' j y.
Proof.
  intros Hj [Hn Hp Hd]. split; [done| |].
  - rewrite Hp. unfold progress_word. destruct (front !! j); [done|]. by rewrite (proj2 (Nat.eqb_neq _ _) Hj).
  - intros es Hes. apply Hd. apply lookup_app_Some in Hes as [Hes|[Hle Hes]]; [by rewrite lookup_app_l by (by eapply lookup_lt_Some)|].
    apply list_lookup_singleton_Some in Hes as [? _]. lia.
Qed.
Lemma cell_other_done live front cur full j y :
  j ≠ length front → cell_ok live front cur full j y → cell_ok live (front ++ [cur]) [] false j y.
Proof.
  intros Hj [Hn Hp Hd]. split; [done| |].
  - rewrite Hp. unfold progress_word. destruct (decide (j < length front)%nat) as [Hlt|Hge].
    + rewrite lookup_app_l by done. destruct (lookup_lt_is_Some_2 front j Hlt) as [es ->]. done.
    + rewrite (lookup_ge_None_2 front j), (lookup_ge_None_2 (front ++ [cur]) j) by (rewrite ?length_app; cbn; lia).
      rewrite (proj2 (Nat.eqb_neq _ _) Hj). by destruct (j =? _)%nat.
  - intros es Hes. apply lookup_app_Some in Hes as [Hes|[Hle Hes]]; [|by apply list_lookup_singleton_Some in Hes as [_ <-]].
    by apply Hd.
Qed.

(** *** The dispatcher during a step of the kernel *)
Definition grows (g g' : Ghost) : Prop :=
  g_live g' = g_live g ∧ g_taken g' = g_taken g ∧ g_hist g' = g_hist g ∧ user_sent g `prefix_of` user_sent g' ∧
  (g_front g ≠ [] → g_front g' ≠ [] ∧ user_sent g' = user_sent g).
Lemma grows_self g : grows g g.
Proof. done. Qed.
Lemma grows_take g g' n : grows g g' → (n ≤ length (user_sent g))%nat → take n (user_sent g') = take n (user_sent g).
Proof. intros (_ & _ & _ & [l ->] & _) Hn. by rewrite take_app_le. Qed.
Lemma user_grow g g' u : grows g g' → user_ok g u → user_ok g' u.
Proof.
  intros Hgr [Ht Hc Htl Hr Hu Hh Hp]. pose proof (grows_take g g' _ Hgr Ht) as Etake. destruct Hgr as (El & Et & _ & Hpre & Hfr).
  pose proof (prefix_length _ _ Hpre). split.
  - rewrite Et. lia.
  - rewrite El, Et, Etake. done.
  - by rewrite El.
  - by rewrite El.
  - by rewrite El.
  - eapply list.Forall_impl; [exact Hh|]. intros h (H1 & H2 & H3 & H4). unfold handle_ok. rewrite El, Et, Etake. done.
  - rewrite El, Et. destruct (u_pc u); try done; [|lia]. destruct Hp as [Hp1 Hp2]. destruct (Hfr Hp1) as [? ->]. done.
Qed.
Lemma held_nonneg c hs : 0 ≤ held c hs.
Proof. unfold held. lia. Qed.
Lemma on_list_cases c live : (c ∈ live ∧ on_list c live = 1) ∨ (c ∉ live ∧ on_list c live = 0).
Proof. unfold on_list. destruct (decide _); auto. Qed.
Lemma at_pc_cases c pc : (releasing pc = Some c ∧ at_pc c pc = 1) ∨ (releasing pc ≠ Some c ∧ at_pc c pc = 0).
Proof. unfold at_pc. destruct (decide _); auto. Qed.
(** The chunk that is reset or supplied again is neither in the list nor referenced. *)
Definition recycling (pc : upc) : option Z := match pc with UResetNext c _ | UResetProgress c _ | USupply c _ => Some c | _ => None end.
Lemma recycling_free g u c : user_ok g u → recycling (u_pc u) = Some c → 0 ≤ c < numCqChunks ∧ c ∉ g_live g ∧ held c (handles u) = 0.
Proof.
  intros [_ _ _ _ _ _ Hp] Hc. unfold refs in Hp. destruct (u_pc u) eqn:E; try done; injection Hc as ->; destruct Hp as [Hr Hp].
  all: pose proof (held_nonneg c (handles u)); destruct (on_list_cases c (g_live g)) as [[? ?]|[? ?]];
    unfold at_pc in Hp; cbn [releasing] in Hp; try rewrite decide_False in Hp by done; try rewrite decide_True in Hp by done.
  all: split; [done|]; split; [|lia]; first [done|lia].
Qed.
Lemma reset_live g u cs i c x' : ghost_ok g → user_ok g u → g_live g !! i = Some c → reset_ok cs (u_pc u) → reset_ok (<[Z.to_nat c := x']> cs) (u_pc u).
Proof.
  intros Hg Hu Hi Hr. pose proof (live_range g i c Hg Hi) as Hc.
  assert (∀ d, recycling (u_pc u) = Some d → Z.to_nat c ≠ Z.to_nat d) as Hne.
  { intros d Hd E. destruct (recycling_free g u d Hu Hd) as (Hd1 & Hd2 & _). assert (c = d) by lia. subst. by apply Hd2, (list_elem_of_lookup_2 _ i). }
  destruct (u_pc u); try done; cbn in *; intros x; rewrite list_lookup_insert_ne by (by apply Hne); apply Hr.
Qed.

(** *** Changes of single parts *)
Lemma inv_kern g q k : inv_at g q → chunks_ok g (kfull (k_pc k)) (chunks (mem q)) → kernel_ok (mem q) g k → inv_at g (with_kern q k).
Proof. intros [] Hc Hk. by split. Qed.
(** A jump of the kernel that does not change the mark of the chunk *)
Lemma inv_kpc g q k : inv_at g q → kfull (k_pc k) = kfull (k_pc (kern q)) → kernel_ok (mem q) g k → inv_at g (with_kern q k).
Proof. intros Hi E Hk. apply inv_kern; [done| |done]. rewrite E. apply Hi. Qed.
Lemma inv_kmem g q g' m k sub :
  inv_at g q → grows g g' → ghost_ok g' → chunks_ok g' (kfull (k_pc k)) (chunks m) → kernel_ok m g' k →
  userNotify m = userNotify (mem q) → reset_ok (chunks m) (u_pc (disp q)) →
  sub = (λ e, (e_sources e, e_context e)) <$> (g_hist g ++ concat (g_front g' ++ [g_cur g'])) →
  inv_at g' (MkQueue m k (disp q) sub (delivered q)).
Proof.
  intros [Hg Hc Hk Hu Hr (Hb1 & Hb2 & Hb3) (Ht1 & Ht2 & Ht3)] Hgr Hg' Hc' Hk' En Hr' Hsub. split; try done.
  - by apply (user_grow g g').
  - split; [|done]. cbn. by rewrite En.
  - pose proof (grows_take g g' _ Hgr (uo_taken _ _ _ Hu)) as E. destruct Hgr as (El & Et & Eh & _). split; [|split]; cbn.
    + by rewrite Eh.
    + by rewrite Eh, Et, E.
    + by rewrite Eh.
Qed.
Lemma kern_notify q bit : kern (notify_user q bit) = kern q.
Proof. unfold notify_user, raise_user. destruct (has _ _); [done|]. by destruct (u_pc (disp _)). Qed.
Lemma chunks_notify q bit : chunks (mem (notify_user q bit)) = chunks (mem q).
Proof. unfold notify_user, raise_user. destruct (has _ _); [done|]. by destruct (u_pc (disp _)). Qed.
Lemma first_notify q bit : cqFirst (mem (notify_user q bit)) = cqFirst (mem q).
Proof. unfold notify_user, raise_user. destruct (has _ _); [done|]. by destruct (u_pc (disp _)). Qed.
Lemma user_wake g u pc : user_ok g u → u_pc u = UAsleep → pc = UNotifyLoad → user_ok g (set_upc u pc).
Proof. intros [] E ->. unfold refs, at_pc in *. rewrite E in *. by split. Qed.
Lemma inv_raise g q : inv_at g q → inv_at g (raise_user q).
Proof.
  intros Hi. unfold raise_user. destruct (u_pc (disp q)) eqn:E; try done. destruct Hi as [? ? ? Hu ? (Hb1 & Hb2 & Hb3) ?]. split; try done.
  by apply user_wake.
Qed.
Lemma kernel_ok_words m m' g k : chunks m' = chunks m → cqFirst m' = cqFirst m → kernel_ok m g k → kernel_ok m' g k.
Proof.
  intros E1 E2. unfold kernel_ok. rewrite E1. assert (unstarted m g k → unstarted m' g k) as Hun by (intros []; split; by rewrite ?E2).
  destruct (k_pc k); tauto.
Qed.
(** The notification words *)
Lemma inv_words g q m' : inv_at g q → chunks m' = chunks (mem q) → cqFirst m' = cqFirst (mem q) → subbits (userNotify m') notify_bits → inv_at g (with_mem q m').
Proof.
  intros [? Hc Hk ? Hr (Hb1 & Hb2 & Hb3) ?] E1 E2 Hv. split; try done; cbn; rewrite ?E1; try done. by apply (kernel_ok_words (mem q)).
Qed.
Lemma inv_notify g q bit : subbits bit notify_bits → inv_at g q → inv_at g (notify_user q bit).
Proof.
  intros Hbit Hi. unfold notify_user.
  assert (inv_at g (with_mem q (set_userNotify (mem q) (Z.lor (userNotify (mem q)) bit)))) as H.
  { apply inv_words; try done. apply subbits_lor; [|done]. apply (in_bits _ _ _ _ Hi). }
  destruct (has _ _); [done|]. by apply inv_raise.
Qed.
Lemma bits_cq : subbits kUserNotifyCqProgress notify_bits.
Proof. done. Qed.
Lemma bits_sq : subbits kUserNotifySupplySqChunks notify_bits.
Proof. done. Qed.
Lemma bits_alert : subbits kUserNotifyAlert notify_bits.
Proof. done. Qed.

(** *** The kernel *)
Lemma valid_live g i c : ghost_ok g → g_live g !! i = Some c →
  isValidCqChunk numCqChunks (without (link_word c) kNextPresent) = true ∧ without (link_word c) kNextPresent = c.
Proof using Hcfg.
  intros Hg Hi. rewrite link_index by (by eapply live_small). split; [|done]. pose proof (live_range g i c Hg Hi). unfold isValidCqChunk. lia.
Qed.
(** The chunk at the cursor of the kernel *)
Lemma cursor_cell g q p : inv_at g q → at_cursor g (kern q) p →
  ∃ x, 0 ≤ currentChunk (kern q) ∧ chunks (mem q) !! Z.to_nat (currentChunk (kern q)) = Some x ∧ Z.of_nat (length (buffer x)) = reservedPerChunk chunkSize - sizeof_ChunkStruct ∧
    cell_ok (g_live g) (g_front g) (g_cur g) (kfull (k_pc (kern q))) (length (g_front g)) x.
Proof.
  intros Hi [_ Hc _]. destruct (co_live _ _ _ _ _ (in_chunks _ _ _ _ Hi) _ _ Hc) as (x & Hx & Hcell). exists x.
  split; [by apply (live_range g _ _ (in_ghost _ _ _ _ Hi) Hc)|]. split; [done|]. split; [|done]. exact (co_buffer _ _ _ _ _ (in_chunks _ _ _ _ Hi) _ _ Hx).
Qed.
Lemma progress_cur front cur full : progress_word front cur full (length front) = if full then full_word (size cur) else size cur.
Proof. unfold progress_word. rewrite lookup_ge_None_2 by done. by rewrite Nat.eqb_refl. Qed.
(** The kernel stores a progress word, with or without new elements in its chunk. *)
Lemma store_cursor g q w p : inv_at g q → at_cursor g (kern q) p →
  ∃ x, chunks (mem q) !! Z.to_nat (currentChunk (kern q)) = Some x ∧
    store_progress q w = Ret (with_mem q (set_chunk (mem q) (Z.to_nat (currentChunk (kern q))) (set_progress x w))).
Proof.
  intros Hi Hc. destruct (cursor_cell g q p Hi Hc) as (x & H0 & Hx & _). exists x. split; [done|]. unfold store_progress.
  by rewrite (on_chunk_Ret _ _ _ x (set_progress x w)).
Qed.
Lemma step_full g q : inv_at g q → k_pc (kern q) = KFull → ∃ q', kstep chunkSize numCqChunks q = Ret q' ∧ inv_at g q'.
Proof.
  intros Hi E. pose proof (in_kernel _ _ _ _ Hi) as Hk. unfold kernel_ok in Hk. rewrite E in Hk. destruct Hk as [Hj Hc].
  destruct (cursor_cell g q _ Hi Hc) as (x & H0 & Hx & Hb & Hcell). unfold kstep. rewrite E.
  destruct (store_cursor g q (Z.lor (currentProgress (kern q)) kProgressFull) _ Hi Hc) as (x' & Hx' & ->). rewrite Hx in Hx'. injection Hx' as <-.
  cbn [mbind outcome_bind]. eexists. split; [done|]. rewrite E in Hcell. destruct Hi as [Hg Hch _ Hu Hr Hbits Htr]. rewrite E in Hch. split; try done.
  - cbn. eapply (chunks_write g false _ g true); [exact Hg|exact Hch|done|apply Hc|exact Hx|done| |].
    + destruct Hcell as [Hn Hp Hd]. split; [done| |done]. cbn. rewrite progress_cur. by rewrite (ac_progress _ _ _ Hc).
    + intros j y Hne. by apply cell_other_full.
  - split; [done|]. by destruct Hc.
  - cbn. eapply reset_live; [exact Hg|done|apply Hc|done].
Qed.
Definition finish (g : Ghost) : Ghost := MkGhost (g_live g) (g_front g ++ [g_cur g]) [] (g_hist g) (g_taken g).
Definition append (g : Ghost) (e : Elem) : Ghost := MkGhost (g_live g) (g_front g) (g_cur g ++ [e]) (g_hist g) (g_taken g).
Lemma grows_finish g : grows g (finish g).
Proof.
  assert (user_sent (finish g) = user_sent g) as E by (unfold user_sent, finish; cbn; by destruct (g_front g)).
  unfold grows. rewrite E. do 4 (split; [done|]). intros. split; [|done]. cbn. by destruct (g_front g).
Qed.
Lemma grows_append g e : grows g (append g e).
Proof.
  unfold grows, user_sent, append. cbn. destruct (g_front g) as [|s f]; cbn; [|done]. do 3 (split; [done|]). split; [by eexists|done].
Qed.
Lemma ghost_finish g c : ghost_ok g → g_live g !! S (length (g_front g)) = Some c → ghost_ok (finish g).
Proof using Hcfg.
  intros [Hn Hr Hf He Hs] Hc. apply lookup_lt_Some in Hc. split; cbn; try done.
  - rewrite length_app. cbn. lia.
  - rewrite list.Forall_app. split; [done|]. by repeat constructor.
  - rewrite list.Forall_app. split; [done|]. constructor; [|done]. rewrite size_nil. destruct Hcfg. lia.
Qed.
Lemma step_done g q w : inv_at g q → k_pc (kern q) = KDone w → ∃ q', kstep chunkSize numCqChunks q = Ret q' ∧ inv_at (finish g) q'.
Proof using Hcfg.
  intros Hi E. pose proof (in_kernel _ _ _ _ Hi) as Hk. unfold kernel_ok in Hk. rewrite E in Hk. destruct Hk as (Hj & Hc & c & Hnext & Hw).
  destruct (cursor_cell g q _ Hi Hc) as (x & H0 & Hx & Hb & Hcell). unfold kstep. rewrite E.
  destruct (store_cursor g q (Z.lor (Z.lor (currentProgress (kern q)) kProgressFull) kProgressDone) _ Hi Hc) as (x' & Hx' & ->).
  rewrite Hx in Hx'. injection Hx' as <-. cbn [mbind outcome_bind]. eexists. split; [done|]. rewrite E in Hcell.
  pose proof (in_chunks _ _ _ _ Hi) as Hch. rewrite E in Hch. pose proof (in_ghost _ _ _ _ Hi) as Hg.
  apply (inv_kmem g q); try done.
  - apply grows_finish.
  - by eapply ghost_finish.
  - cbn. eapply (chunks_write g true); [exact Hg|exact Hch|done|apply Hc|exact Hx|done| |].
    + destruct Hcell as [Hn Hp Hd]. split; [done| |].
      * cbn. unfold progress_word. rewrite lookup_app_r, Nat.sub_diag by done. cbn. by rewrite (ac_progress _ _ _ Hc).
      * cbn. intros es Hes. apply Hd. by rewrite lookup_app_l in Hes by (rewrite length_app; cbn; lia).
    + cbn. intros j y Hne. by apply cell_other_done.
  - split; [done|]. split; [done|]. exists c. cbn. split; [|done]. rewrite length_app, Nat.add_1_r. done.
  - cbn. eapply reset_live; [exact Hg|apply Hi|apply Hc|apply Hi].
  - cbn. rewrite (proj1 (in_trace _ _ _ _ Hi)). f_equal. f_equal. rewrite !concat_app. cbn. by rewrite !app_nil_r.
Qed.
Lemma enc_app l l' : enc (l ++ l') = enc l ++ enc l'.
Proof. unfold enc. by rewrite bind_app. Qed.
Lemma enc_one e : enc [e] = encode e.
Proof. unfold enc. cbn. by rewrite app_nil_r. Qed.
Lemma step_write g q : inv_at g q → k_pc (kern q) = KWrite → ∃ q', kstep chunkSize numCqChunks q = Ret q' ∧ inv_at g q'.
Proof using Hcfg.
  intros Hi E. pose proof (in_kernel _ _ _ _ Hi) as Hk. unfold kernel_ok in Hk. rewrite E in Hk. destruct Hk as (Hj & Hc & Hfit).
  destruct (cursor_cell g q _ Hi Hc) as (x & H0 & Hx & Hb & Hcell). unfold kstep. rewrite E in Hcell |- *. pose proof (in_ghost _ _ _ _ Hi) as Hg.
  pose proof (ac_progress _ _ _ Hc) as Hp. pose proof (size_nonneg (g_cur g)) as Hs. rewrite Hp.
  destruct (put_element (buffer x) (size (g_cur g)) (k_sources (kern q)) (k_context (kern q)) ltac:(lia)) as (b1 & b2 & e & E1 & E2 & Hl & He & Es & Ec & Ht & Hd).
  { unfold k_length in Hfit. destruct Hcfg. lia. } { apply Hj. }
  rewrite (on_chunk_Ret _ _ _ x (set_buffer x b2) H0 Hx); [|unfold k_length; rewrite E1; cbn [mbind outcome_bind]; unfold sizeof_ElementStruct; by rewrite E2].
  cbn [mbind outcome_bind]. eexists. split; [done|]. pose proof (in_chunks _ _ _ _ Hi) as Hch. rewrite E in Hch.
  assert (take (length (enc (g_cur g))) b2 = enc (g_cur g)) as Hold.
  { pose proof (ce_data _ _ _ _ _ _ Hcell (g_cur g)) as Hdat. rewrite lookup_app_r, Nat.sub_diag in Hdat by done. rewrite <- (Hdat eq_refl) at 2.
    unfold size in Ht. by rewrite Nat2Z.id in Ht. }
  apply (inv_kmem g q); try done.
  - cbn. eapply (chunks_write g false _ g false); [exact Hg|exact Hch|done|apply Hc|exact Hx|done| |done].
    destruct Hcell as [Hn Hpr Hdat]. split; [done|done|]. intros es Hes. rewrite lookup_app_r, Nat.sub_diag in Hes by done. cbn in Hes. by injection Hes as <-.
  - split; [done|]. split; [by destruct Hc|]. split; [done|]. exists (set_buffer x b2), e. cbn.
    rewrite list_lookup_insert_eq by (by eapply lookup_lt_Some). do 4 (split; [done|]).
    rewrite enc_app, enc_one, length_app, (slice_app _ (length (enc (g_cur g))) (length (encode e)) _ eq_refl).
    f_equal; [done|]. etrans; [|exact Hd]. unfold size. rewrite Nat2Z.id. f_equal. pose proof (encode_length e). rewrite (eo_length _ He), Es in H. lia.
  - cbn. eapply reset_live; [exact Hg|apply Hi|apply Hc|apply Hi].
  - apply (proj1 (in_trace _ _ _ _ Hi)).
Qed.
Lemma ghost_append g e : ghost_ok g → elem_ok e → size (g_cur g ++ [e]) ≤ chunkSize + 16 → ghost_ok (append g e).
Proof.
  intros [Hn Hr Hf He Hs] Hok Hsz. split; cbn; try done.
  - rewrite list.Forall_app in He |- *. destruct He as [? He]. split; [done|]. constructor; [|done]. rewrite list.Forall_app. split; [by inversion_clear He|by apply list.Forall_singleton].
  - rewrite list.Forall_app in Hs |- *. destruct Hs as [? Hs]. split; [done|]. by repeat constructor.
Qed.
Lemma step_publish g q : inv_at g q → k_pc (kern q) = KPublish → ∃ q' e, kstep chunkSize numCqChunks q = Ret q' ∧ inv_at (append g e) q'.
Proof using Hcfg.
  intros Hi E. pose proof (in_kernel _ _ _ _ Hi) as Hk. unfold kernel_ok in Hk. rewrite E in Hk. destruct Hk as (Hj & Hc & Hfit & Hw).
  destruct (cursor_cell g q _ Hi Hc) as (x & H0 & Hx & Hb & Hcell). unfold kstep. rewrite E in Hcell |- *. pose proof (in_ghost _ _ _ _ Hi) as Hg.
  destruct (store_cursor g q (currentProgress (kern q) + sizeof_ElementStruct + k_length (kern q)) _ Hi Hc) as (x' & Hx' & ->).
  destruct Hw as (x'' & e & Hx'' & He & Es & Ec & Hd). rewrite Hx in Hx', Hx''. injection Hx' as <-. injection Hx'' as <-.
  cbn [mbind outcome_bind]. eexists. exists e. split; [done|]. pose proof (in_chunks _ _ _ _ Hi) as Hch. rewrite E in Hch.
  pose proof (ac_progress _ _ _ Hc) as Hp. assert (size (g_cur g ++ [e]) = size (g_cur g) + 16 + k_length (kern q)) as Hsz.
  { rewrite size_app, size_one, (eo_length _ He), Es. unfold k_length. lia. }
  apply (inv_kmem g q); try done.
  - apply grows_append.
  - apply ghost_append; [done|done|]. lia.
  - cbn. eapply (chunks_write g false); [exact Hg|exact Hch|done|apply Hc|exact Hx|done| |].
    + destruct Hcell as [Hn Hpr Hdat]. split; [done| |].
      * cbn. rewrite progress_cur, Hsz, Hp. done.
      * cbn. intros es Hes. rewrite lookup_app_r, Nat.sub_diag in Hes by done. cbn in Hes. by injection Hes as <-.
    + cbn. intros j y Hne. by apply cell_other_full.
  - split; [done|]. destruct Hc as [Hc1 Hc2 Hc3]. split; cbn; [done|done|]. unfold k_length in *. cbn. lia.
  - cbn. eapply reset_live; [exact Hg|apply Hi|apply Hc|apply Hi].
  - cbn. rewrite (proj1 (in_trace _ _ _ _ Hi)). rewrite !concat_app. cbn. rewrite !app_nil_r, !app_assoc, (fmap_app _ _ [e]). cbn. by rewrite Es, Ec.
Qed.
Lemma next_present g q : inv_at g q → at_cursor g (kern q) (size (g_cur g)) →
  ∃ x, get_chunk (mem q) (currentChunk (kern q)) = Ret x ∧ next x = next_word (g_live g) (length (g_front g)).
Proof.
  intros Hi Hc. destruct (cursor_cell g q _ Hi Hc) as (x & H0 & Hx & Hb & Hcell). exists x. split; [by apply get_chunk_Ret|]. apply Hcell.
Qed.
Lemma k_enter_spec k g : at_cursor g k (size (g_cur g)) → job_ok chunkSize k →
  let pc := k_enter chunkSize k in
  kfull pc = false ∧ ∀ m, kernel_ok m g (set_kpc k pc).
Proof.
  intros Hc Hj. cbn zeta. unfold k_enter. pose proof (ac_progress _ _ _ Hc) as Hp. destruct (Z.ltb_spec chunkSize (currentProgress k + k_length k)).
  - split; [done|]. intros m. split; [done|]. by destruct Hc.
  - split; [done|]. intros m. split; [done|]. split; [by destruct Hc|]. cbn. unfold k_length in *. cbn. lia.
Qed.
(** Every step of the kernel succeeds. *)
Lemma kernel_step g q : inv_at g q → ∃ g' q', kstep chunkSize numCqChunks q = Ret q' ∧ inv_at g' q'.
Proof using Hcfg.
  intros Hi. pose proof (in_kernel _ _ _ _ Hi) as Hk. pose proof (in_ghost _ _ _ _ Hi) as Hg. destruct (k_pc (kern q)) eqn:E.
  all: unfold kernel_ok in Hk; rewrite E in Hk; try done.
  - exists g, q. split; [|done]. unfold kstep. by rewrite E.
  - destruct Hk as [Hj [Hh Hp Hf Hcur Hl Hfirst]]. unfold kstep. rewrite E, Hfirst, link_present.
    destruct (valid_live g 0 0 Hg Hl) as [-> ->].
    eexists g, _. split; [done|].
    assert (at_cursor g (set_current (kern q) true 0 (currentProgress (kern q))) (size (g_cur g))) as Hc.
    { split; cbn; [done|by rewrite Hf|]. by rewrite Hp, Hcur. }
    destruct (k_enter_spec _ g Hc Hj) as [Hfull Hok]. apply inv_kpc; [done|by rewrite E|apply Hok].
  - destruct (step_full g q Hi E) as (q' & H1 & H2). eauto.
  - unfold kstep. rewrite E. eexists g, _. split; [done|]. pose proof (inv_notify g q _ bits_cq Hi) as Hi'.
    apply inv_kpc; rewrite ?kern_notify; [done|by rewrite E|]. split; [apply Hk|]. by destruct Hk as [_ []].
  - destruct Hk as [Hj Hc]. unfold kstep. rewrite E. destruct (next_present g q Hi Hc) as (x & -> & Hx). cbn [mbind outcome_bind].
    eexists g, _. split; [done|]. rewrite Hx. unfold next_word. destruct (g_live g !! S (length (g_front g))) as [c|] eqn:Hn.
    + rewrite link_present. apply inv_kpc; [done|by rewrite E|]. split; [done|]. split; [by destruct Hc|]. eauto.
    + apply inv_kpc; [done|by rewrite E|]. split; [done|]. by destruct Hc.
  - unfold kstep. rewrite E. eexists g, _. split; [done|]. apply inv_kpc; [done|destruct (has _ _); by rewrite E|].
    destruct (has _ _); (split; [apply Hk|]); by destruct Hk as [_ []].
  - unfold kstep. rewrite E. eexists g, _. split; [done|]. apply inv_kpc; [done|destruct (has _ _); by rewrite E|].
    destruct (has _ _); (split; [apply Hk|]); by destruct Hk as [_ []].
  - exists g, q. split; [|done]. unfold kstep. by rewrite E.
  - unfold kstep. rewrite E. eexists g, _. split; [done|].
    apply inv_kpc; [apply inv_words; try done; apply (in_bits _ _ _ _ Hi)|by cbn; rewrite E|]. split; [apply Hk|]. by destruct Hk as [_ []].
  - destruct (step_done g q _ Hi E) as (q' & H1 & H2). eauto.
  - destruct Hk as (Hj & Hcur & c & Hc & ->). unfold kstep. rewrite E. destruct (valid_live g _ c Hg Hc) as [-> ->].
    eexists g, _. split; [done|]. pose proof (inv_notify g q _ bits_cq Hi) as Hi'. rewrite kern_notify.
    apply inv_kpc; rewrite ?kern_notify; [done|by rewrite E|]. split; [done|]. split; [split; cbn; [done|done|by rewrite Hcur]|].
    rewrite Hcur, size_nil. unfold job_ok, k_length in *. cbn. lia.
  - destruct (step_write g q Hi E) as (q' & H1 & H2). eauto.
  - destruct (step_publish g q Hi E) as (q' & e & H1 & H2). eauto.
  - destruct Hk as (Hj & [Hc1 Hc2 Hc3]). unfold kstep. rewrite E. eexists g, _. split; [done|]. pose proof (inv_notify g q _ bits_cq Hi) as Hi'.
    apply inv_kpc; rewrite ?kern_notify; [done|by rewrite E|]. left. split; cbn; [done|done|]. unfold sizeof_ElementStruct. lia.
Qed.
Lemma submit_step g q sources ctx : inv_at g q → enabled chunkSize q (EvSubmit sources ctx) = true →
  ∃ q', submit_begin chunkSize q sources ctx = Ret q' ∧ inv_at g q'.
Proof.
  intros Hi He. cbn in He. rewrite !andb_true_iff in He. destruct He as [[[Hidle Hv] _] [Hc1 Hc2]]. unfold is_kidle in Hidle.
  destruct (k_pc (kern q)) eqn:E; try done. pose proof (in_kernel _ _ _ _ Hi) as Hk. unfold kernel_ok in Hk. rewrite E in Hk.
  unfold validSize, sizeof_ElementStruct in Hv. unfold submit_begin. rewrite (proj2 (Z.leb_le _ _)) by lia. cbn zeta iota. eexists. split; [done|].
  set (k := MkKernel _ _ _ _ _ _). assert (job_ok chunkSize k) as Hj by (unfold job_ok, k_length; cbn; lia). destruct Hk as [Hc|Hun].
  - assert (at_cursor g k (size (g_cur g))) as Hc' by (by destruct Hc). rewrite (ac_have _ _ _ Hc'). destruct (k_enter_spec k g Hc' Hj) as [Hf Hok].
    apply inv_kpc; [done|by rewrite E|apply Hok].
  - assert (unstarted (mem q) g k) as Hun' by (by destruct Hun). rewrite (un_have _ _ _ Hun'). apply inv_kpc; [done|by rewrite E|]. split; [done|]. by destruct Hun'.
Qed.
End steps.
