(* ===== verification/IpcQueueUser.v ===== *)
(** * Completion queues: the dispatcher preserves the invariant

    The only step that can fail is the assertion of [_waitProgressFutex] that a full chunk
    is not the last one: it fails when every other chunk is held by a handle. *)
From Stdlib Require Import ZArith Lia ZifyBool.
From stdpp Require Import base list numbers option.
From S2P Require Import Prelude Checksum IpcQueue IpcQueueInv IpcQueueSteps.
Open Scope Z_scope.

#[local] Arguments submit_length _ : simpl never.
#[local] Arguments size _ : simpl never.

Section user.
Context (chunkSize numCqChunks : Z) (Hcfg : config_ok chunkSize numCqChunks).
Notation ghost_ok := (ghost_ok chunkSize numCqChunks).
Notation chunks_ok := (chunks_ok chunkSize numCqChunks).
Notation kernel_ok := (kernel_ok chunkSize).
Notation user_ok := (user_ok numCqChunks).
Notation inv_at := (inv_at chunkSize numCqChunks).

(** *** Changes of single parts *)
Lemma inv_disp g q u : inv_at g q → user_ok g u → reset_ok (chunks (mem q)) (u_pc u) → subbits (pendingNotify u) notify_bits →
  match u_pc u with UCheck n => subbits n notify_bits | _ => True end → inv_at g (with_disp q u).
Proof. intros [? ? ? ? ? (Hb1 & Hb2 & Hb3) ?] Hu Hr Hp Hn. by split. Qed.
(** Program counters that stand for nothing *)
Definition plain (pc : upc) : bool :=
  match pc with
  | UIdle | UStart | UNotifyLoad | UCheck _ | UClear _ | URunQueue | UDrive | UDriveCheck | UWaitIf | UAsleep => true
  | _ => false
  end.
Definition cont_ok (g : Ghost) (u : Dispatcher) (k : ucont) : Prop :=
  match k with
  | ThenWait c => head (g_live g) = Some c ∧ g_taken g = 0%nat
  | ThenIdle => head (g_live g) = Some (retrieveChunk u) ∧ lastProgress u = size (take (g_taken g) (user_sent g))
  end.
Lemma refs_pc live hs pc pc' c : releasing pc = None → releasing pc' = None → refs live hs pc c = refs live hs pc' c.
Proof. intros E E'. unfold refs, at_pc. by rewrite E, E'. Qed.
Lemma plain_releasing pc : plain pc = true → releasing pc = None ∧ resetting pc = None ∧ moving pc = None.
Proof. by destruct pc. Qed.
Lemma user_jump g u pc : plain (u_pc u) = true → plain pc = true → user_ok g u → user_ok g (set_upc u pc).
Proof.
  intros Hp Hp' [Ht Hc Htl Hr Hu Hh _]. destruct (plain_releasing _ Hp) as (E1 & E2 & E3). destruct (plain_releasing _ Hp') as (E1' & E2' & E3').
  rewrite E3 in Hc. split; cbn; rewrite ?E3'; try done.
  - intros c Hrange. rewrite (Hr c Hrange). f_equal. by apply refs_pc.
  - intros c Hrange. rewrite (refs_pc _ _ pc (u_pc u)) by done. rewrite E2'. rewrite <- E2. by apply Hu.
  - by destruct pc.
Qed.
Lemma reset_plain cs pc : plain pc = true → reset_ok cs pc.
Proof. by destruct pc. Qed.
Lemma inv_jump g q pc : plain (u_pc (disp q)) = true → plain pc = true → match pc with UCheck n => subbits n notify_bits | _ => True end → inv_at g q → inv_at g (u_goto q pc).
Proof.
  intros Hp Hp' Hn Hi. apply inv_disp; try done; [by apply user_jump; [..|apply Hi]|by apply reset_plain|apply (in_bits _ _ _ _ Hi)].
Qed.
Lemma inv_raiseCq g q : inv_at g q → inv_at g (raiseCqEvent q).
Proof.
  intros Hi. unfold raiseCqEvent. pose proof (in_kernel _ _ _ _ Hi) as Hk. unfold kernel_ok in Hk. destruct (k_pc (kern q)) eqn:E; try done.
  apply inv_kpc; [done|by rewrite E|]. split; [apply Hk|]. by destruct Hk as [_ []].
Qed.
Lemma disp_raiseCq q : disp (raiseCqEvent q) = disp q.
Proof. unfold raiseCqEvent. by destruct (k_pc (kern q)). Qed.

(** *** The word that the dispatcher looks at *)
Lemma sent_size g : ghost_ok g → 0 ≤ size (user_sent g) < 2 ^ 24.
Proof using Hcfg.
  intros Hg. split; [apply size_nonneg|]. pose proof (go_size _ _ _ Hg) as Hs. unfold user_sent. destruct Hcfg as [_ Hsz _].
  destruct (g_front g) as [|s f]; cbn in *; apply list.Forall_cons in Hs as [Hs _]; lia.
Qed.
(** The kernel has finished the chunk that the dispatcher reads. *)
Definition finished (g : Ghost) : bool := match g_front g with [] => false | _ => true end.
Lemma user_word g full : ghost_ok g → let p := progress_word (g_front g) (g_cur g) full 0 in
  Z.land p kProgressMask = size (user_sent g) ∧ has p kProgressFull = full || finished g ∧
  has p kProgressDone = finished g ∧ subbits p progress_bits.
Proof using Hcfg.
  intros Hg. pose proof (sent_size g Hg) as Hs. cbn zeta. unfold progress_word, user_sent, finished in *. destruct (g_front g) as [|s f]; cbn in *.
  - rewrite orb_false_r. destruct full.
    + by apply full_word_spec.
    + by apply plain_word.
  - rewrite orb_true_r. by apply done_word_spec.
Qed.
Lemma user_cell g q : inv_at g q → moving (u_pc (disp q)) = None →
  ∃ x, 0 ≤ retrieveChunk (disp q) < numCqChunks ∧ g_live g !! 0%nat = Some (retrieveChunk (disp q)) ∧ chunks (mem q) !! Z.to_nat (retrieveChunk (disp q)) = Some x ∧
    cell_ok (g_live g) (g_front g) (g_cur g) (kfull (k_pc (kern q))) 0 x.
Proof.
  intros Hi Hm. pose proof (uo_cursor _ _ _ (in_user _ _ _ _ Hi)) as Hc. rewrite Hm in Hc. destruct Hc as [Hhd _]. rewrite head_lookup in Hhd.
  destruct (co_live _ _ _ _ _ (in_chunks _ _ _ _ Hi) _ _ Hhd) as (x & Hx & Hcell). exists x.
  split; [by apply (live_range chunkSize numCqChunks g 0); [apply Hi|]|]. done.
Qed.
Lemma head_not_tail g a b : ghost_ok g → head (g_live g) = Some a → list.last (g_live g) = Some b → a = b → g_live g = [a].
Proof.
  intros Hg Ha Hb ->. rewrite head_lookup in Ha. rewrite last_lookup in Hb. pose proof (NoDup_lookup _ _ _ _ (go_nodup _ _ _ Hg) Ha Hb) as E.
  destruct (g_live g) as [|a [|a' l]]; cbn in *; [done|congruence|done].
Qed.
(** Every chunk but the one that is read is held by a handle. *)
Definition exhausted (q : Queue) : Prop :=
  ∀ c, 0 ≤ c < numCqChunks → c ≠ retrieveChunk (disp q) → ∃ h, h ∈ handles (disp q) ∧ h_chunk h = c.
Lemma held_pos c hs : 0 < held c hs → ∃ h, h ∈ hs ∧ h_chunk h = c.
Proof.
  unfold held. intros H. destruct (filter _ hs) as [|h l] eqn:E; [cbn in H; lia|]. exists h.
  assert (h ∈ filter (λ h, h_chunk h = c) hs) as Hin by (rewrite E; left). apply list_elem_of_filter in Hin. tauto.
Qed.
Lemma single_exhausted g q : inv_at g q → plain (u_pc (disp q)) = true → g_live g = [retrieveChunk (disp q)] → exhausted q.
Proof.
  intros Hi Hp El c Hc Hne. destruct (plain_releasing _ Hp) as (E1 & E2 & E3). apply held_pos.
  destruct (uo_used _ _ _ (in_user _ _ _ _ Hi) c Hc) as [Hu|Hu]; [|by rewrite E2 in Hu]. unfold refs in Hu. rewrite El in Hu.
  destruct (on_list_cases c [retrieveChunk (disp q)]) as [[Hin _]|[_ Hz]]; [by apply list_elem_of_singleton in Hin|].
  destruct (at_pc_cases c (u_pc (disp q))) as [[? _]|[_ Hz']]; [congruence|]. lia.
Qed.

(** *** The check of the progress word *)
Lemma size_take_lt n l : (n < length l)%nat → size (take n l) < size l.
Proof.
  intros Hn. rewrite <- (take_drop n l) at 2. rewrite size_app. destruct (drop n l) as [|e r] eqn:E.
  - apply (f_equal length) in E. rewrite length_drop in E. cbn in E. lia.
  - change (e :: r) with ([e] ++ r). rewrite size_app, size_one. pose proof (size_nonneg r). lia.
Qed.
Lemma size_take_eq n l : (n ≤ length l)%nat → size (take n l) = size l ↔ n = length l.
Proof.
  intros Hn. split; [|intros ->; by rewrite take_ge].
  intros E. destruct (decide (n = length l)); [done|]. pose proof (size_take_lt n l ltac:(lia)). lia.
Qed.
Definition fresh (g : Ghost) : bool := (g_taken g <? length (user_sent g))%nat.
(** The last chunk is full, and nothing can be released any more. *)
Definition overrun (g : Ghost) (q : Queue) : Prop :=
  kfull (k_pc (kern q)) = true ∧ finished g = false ∧ g_live g = [retrieveChunk (disp q)].
Lemma masked_pending p : subbits p notify_bits → without (without p relevantNotify) maskedNotify =? 0 = true.
Proof.
  intros Hp. apply Z.eqb_eq. apply subbits_spec. intros i Hi. unfold without. rewrite Z.ldiff_spec. intros [H1 H2]%andb_true_iff.
  pose proof (proj1 (subbits_spec _ _) Hp i Hi H1) as H. unfold notify_bits in H. rewrite !Z.lor_spec in H. unfold relevantNotify in H2. rewrite Z.lor_spec in H2.
  unfold maskedNotify. destruct (Z.testbit kUserNotifyCqProgress i), (Z.testbit kUserNotifySupplySqChunks i), (Z.testbit kUserNotifyAlert i); done.
Qed.
Inductive checked (g : Ghost) (q : Queue) (n : Z) : outcome Queue → Prop :=
| checked_element : let pend := Z.lor (pendingNotify (disp q)) n in
    has pend kUserNotifyCqProgress = true → fresh g = true → ¬ overrun g q → checked g q n (Ret (with_disp q (set_upc (set_pending (disp q) pend) UDequeue)))
| checked_done : let pend := Z.lor (pendingNotify (disp q)) n in
    has pend kUserNotifyCqProgress = true → fresh g = false → finished g = true → checked g q n (Ret (with_disp q (set_upc (set_pending (disp q) pend) UDone)))
| checked_nothing : let pend := Z.lor (pendingNotify (disp q)) n in
    (has pend kUserNotifyCqProgress = true → fresh g = false ∧ finished g = false ∧ ¬ overrun g q) →
    checked g q n (Ret (with_disp q (set_upc (set_pending (disp q) (without pend relevantNotify))
      (if Z.land n relevantNotify =? 0 then URunQueue else UClear (Z.land n relevantNotify)))))
| checked_overrun : has (Z.lor (pendingNotify (disp q)) n) kUserNotifyCqProgress = true → overrun g q → checked g q n (Stop AssertionFailed).
Lemma check_spec g q n : inv_at g q → u_pc (disp q) = UCheck n → checked g q n (check_progress q n).
Proof using Hcfg.
  intros Hi E. pose proof (in_user _ _ _ _ Hi) as Hu. destruct (in_bits _ _ _ _ Hi) as (_ & Hb2 & Hb3). rewrite E in Hb3. pose proof (in_ghost _ _ _ _ Hi) as Hg.
  assert (subbits (Z.lor (pendingNotify (disp q)) n) notify_bits) as Hpend by (by apply subbits_lor).
  unfold check_progress. cbn zeta. cbn [set_pending pendingNotify retrieveChunk tailChunk lastProgress]. rewrite (masked_pending _ Hpend).
  set (nothing := if Z.land n relevantNotify =? 0 then _ else _).
  assert (nothing = Ret (with_disp q (set_upc (set_pending (disp q) (without (Z.lor (pendingNotify (disp q)) n) relevantNotify))
      (if Z.land n relevantNotify =? 0 then URunQueue else UClear (Z.land n relevantNotify))))) as Hno by (unfold nothing; by destruct (_ =? 0)).
  rewrite Hno. clear nothing Hno. destruct (has _ kUserNotifyCqProgress) eqn:Hcq; [|constructor 3; congruence].
  destruct (user_cell g q Hi ltac:(by rewrite E)) as (x & Hr & Hl & Hx & Hcell). rewrite (get_chunk_Ret _ _ x) by (lia || done). cbn [mbind outcome_bind].
  rewrite (ce_progress _ _ _ _ _ _ Hcell). set (full := kfull (k_pc (kern q))) in *. destruct (user_word g full Hg) as (Hw1 & Hw2 & Hw3 & Hw4).
  cbn zeta in *. set (p := progress_word _ _ _ _) in *. pose proof Hw4 as Hw5. unfold subbits, progress_bits in Hw5. rewrite Hw5. cbn [Z.eqb]. rewrite Hw2, Hw1, Hw3.
  pose proof (uo_cursor _ _ _ Hu) as Hc. rewrite E in Hc. cbn in Hc. destruct Hc as [Hhd Hlast]. pose proof (uo_tail _ _ _ Hu) as Htl.
  pose proof (size_take_eq _ _ (uo_taken _ _ _ Hu)) as Heq. pose proof (uo_taken _ _ _ Hu) as Htk.
  assert (finished g = true → retrieveChunk (disp q) =? tailChunk (disp q) = false) as Hfin.
  { intros Hf. apply Z.eqb_neq. intros Eq. pose proof (head_not_tail g _ _ Hg Hhd Htl Eq) as El. pose proof (go_front _ _ _ Hg) as Hlen. rewrite El in Hlen.
    unfold finished in Hf. destruct (g_front g); [done|]. cbn in Hlen. lia. }
  assert (negb (full || finished g) || negb (retrieveChunk (disp q) =? tailChunk (disp q)) = false → overrun g q) as Hov.
  { intros H. apply orb_false_iff in H as [H1 H2]. destruct (finished g) eqn:Ef; [by rewrite (Hfin eq_refl) in H2|]. rewrite orb_false_r, negb_false_iff in *.
    split; [done|]. split; [done|]. apply (head_not_tail g _ _ Hg Hhd Htl). by apply Z.eqb_eq. }
  assert (negb (full || finished g) || negb (retrieveChunk (disp q) =? tailChunk (disp q)) = true → ¬ overrun g q) as Hnov.
  { intros H (H1 & H2 & H3). rewrite H3 in Htl. cbn in Htl. injection Htl as Htl. fold full in H1. rewrite H1, <- Htl, Z.eqb_refl in H. done. }
  destruct (negb (full || finished g) || _) eqn:Hass; [|constructor 4; auto]. specialize (Hnov eq_refl).
  assert (fresh g = negb (lastProgress (disp q) =? size (user_sent g))) as Hfr by (unfold fresh; lia). rewrite <- Hfr.
  destruct (fresh g) eqn:Ef; [by constructor 1|]. destruct (finished g) eqn:Ed; [rewrite orb_true_r; by constructor 2|]. by constructor 3.
Qed.
(** The new program counters *)
Lemma user_checked g u v pc : plain (u_pc u) = true → user_ok g u →
  match pc with UDone => g_front g ≠ [] ∧ g_taken g = length (user_sent g) | UDequeue => (g_taken g < length (user_sent g))%nat | _ => plain pc = true end →
  user_ok g (set_upc (set_pending u v) pc).
Proof.
  intros Hp Hu Hpc. pose proof (user_jump g u UIdle Hp eq_refl Hu) as [Ht Hc Htl Hr Hus Hh _]. assert (releasing pc = None ∧ moving pc = None ∧ resetting pc = None) as (E1 & E2 & E3) by (by destruct pc).
  split; cbn; rewrite ?E2; try done.
  - intros c Hrange. cbn in Hr. rewrite (Hr c Hrange). f_equal. by apply refs_pc.
  - intros c Hrange. destruct (Hus c Hrange) as [H|H]; [|done]. left. by rewrite (refs_pc _ _ _ UIdle).
  - by destruct pc.
Qed.
Lemma check_inv g q n r : inv_at g q → u_pc (disp q) = UCheck n → checked g q n r →
  match r with Ret q' => inv_at g q' | Stop f => f = AssertionFailed ∧ exhausted q ∧ kfull (k_pc (kern q)) = true end.
Proof.
  intros Hi E Hch. pose proof (in_user _ _ _ _ Hi) as Hu. destruct (in_bits _ _ _ _ Hi) as (_ & Hb2 & Hb3). rewrite E in Hb3.
  pose proof (uo_taken _ _ _ Hu) as Htk. assert (plain (u_pc (disp q)) = true) as Hp by (by rewrite E). unfold fresh, finished in *.
  assert (subbits (Z.lor (pendingNotify (disp q)) n) notify_bits) as Hpend by (by apply subbits_lor). destruct Hch as [pend Hcq Hf Hov|pend Hcq Hf Hfin|pend H|Hcq Hov].
  - apply inv_disp; try done. apply user_checked; try done. unfold fresh in Hf. lia.
  - apply inv_disp; try done. apply user_checked; try done. unfold fresh in Hf. unfold finished in Hfin. split; [by destruct (g_front g)|lia].
  - apply inv_disp; try done.
    + apply user_checked; try done. by destruct (_ =? 0).
    + apply reset_plain. cbn. by destruct (_ =? 0).
    + cbn. by apply subbits_without.
    + cbn. by destruct (_ =? 0).
  - split; [done|]. destruct Hov as (H1 & H2 & H3). split; [|done]. by apply (single_exhausted g).
Qed.

(** *** Moving to the next chunk *)
Definition pop (g : Ghost) : Ghost := MkGhost (tail (g_live g)) (tail (g_front g)) (g_cur g) (g_hist g ++ user_sent g) 0.
Lemma kernel_pop m g k c s : kernel_ok m g k → g_live g = c :: tail (g_live g) → g_front g = s :: tail (g_front g) → kernel_ok m (pop g) k.
Proof.
  intros Hk El Ef. assert (∀ p, at_cursor g k p → at_cursor (pop g) k p) as Hac.
  { intros p [H1 H2 H3]. split; [done| |done]. cbn. rewrite El, Ef in H2. done. }
  assert (¬ unstarted m g k) as Hun. { intros []. congruence. }
  unfold kernel_ok in *. cbn [g_live g_front g_cur pop]. rewrite El, Ef in Hk. cbn in Hk. destruct (k_pc k); try done; try (destruct Hk as [? Hk]; split; [done|]); naive_solver.
Qed.
Lemma ghost_pop g c c' s l f : ghost_ok g → g_live g = c :: c' :: l → g_front g = s :: f → ghost_ok (pop g).
Proof.
  intros [Hn Hr Hf He Hs] El Ef. rewrite El, Ef in *. split; cbn; rewrite ?El, ?Ef; cbn in *.
  - by apply list.NoDup_cons in Hn as [_ Hn].
  - by apply list.Forall_cons in Hr as [_ Hr].
  - lia.
  - by apply list.Forall_cons in He as [_ He].
  - by apply list.Forall_cons in Hs as [_ Hs].
Qed.
Lemma chunks_pop g full cs c l s f : chunks_ok g full cs → g_live g = c :: l → g_front g = s :: f → chunks_ok (pop g) full cs.
Proof.
  intros [Hl Hb Hc] El Ef. split; [done|done|]. cbn. rewrite El, Ef. cbn. intros i d Hi. destruct (Hc (S i) d) as (x & Hx & [Hn Hp Hd]); [by rewrite El|].
  exists x. split; [done|]. rewrite El, Ef in *. split; [done|done|]. intros es Hes. by apply Hd.
Qed.
Lemma step_udone g q : inv_at g q → u_pc (disp q) = UDone → ∃ q', (∀ rq, ustep q rq = Ret q') ∧ inv_at (pop g) q'.
Proof using Hcfg.
  intros Hi E. pose proof (in_user _ _ _ _ Hi) as Hu. pose proof (in_ghost _ _ _ _ Hi) as Hg. pose proof (uo_pc _ _ _ Hu) as Hpc. rewrite E in Hpc. destruct Hpc as [Hf Htk].
  destruct (user_cell g q Hi ltac:(by rewrite E)) as (x & Hr & Hl & Hx & Hcell). destruct (g_front g) as [|s f] eqn:Ef; [done|].
  pose proof (go_front _ _ _ Hg) as Hlen. destruct (g_live g) as [|c [|c' l]] eqn:El; rewrite Ef in Hlen; cbn in Hlen; [lia|lia|]. cbn in Hl. injection Hl as ->.
  assert (next x = link_word c') as Hnx. { rewrite (ce_next _ _ _ _ _ _ Hcell). done. }
  exists (u_goto q (USurrender (retrieveChunk (disp q)) (ThenWait c'))). split.
  { intros rq. unfold ustep. rewrite E, (get_chunk_Ret _ _ x) by (lia || done). cbn [mbind outcome_bind]. rewrite Hnx, link_index; [done|].
    apply (live_small chunkSize numCqChunks Hcfg g 1); [done|]. by rewrite El. }
  pose proof (go_nodup _ _ _ Hg) as Hnd. rewrite El in Hnd. apply list.NoDup_cons in Hnd as [Hnin Hnd]. set (c := retrieveChunk (disp q)) in *.
  assert (user_sent g = s) as Eus by (unfold user_sent; by rewrite Ef).
  assert (∀ d, 0 ≤ d < numCqChunks → refs (c' :: l) (handles (disp q)) (USurrender c (ThenWait c')) d = refs (c :: c' :: l) (handles (disp q)) UDone d) as Hrefs.
  { intros d _. unfold refs, at_pc, on_list. cbn [releasing]. destruct (decide (c = d)) as [->|Hne].
    - rewrite (decide_False (P:=d ∈ c' :: l)), (decide_True (P:=d ∈ d :: c' :: l)), (decide_True (P:=Some d = Some d)), decide_False by (done || left || idtac). lia.
    - rewrite (decide_False (P:=Some c = Some d)), (decide_False (P:=None = Some d)) by congruence.
      destruct (decide (d ∈ c' :: l)) as [H|H]; [by rewrite decide_True by (by right)|]. rewrite decide_False; [lia|]. by intros [->|?]%elem_of_cons. }
  destruct Hi as [_ Hch Hk _ _ (Hb1 & Hb2 & _) (Ht1 & Ht2 & Ht3)]. destruct Hu as [_ _ Htl Hrf Hus Hh _]. split; try done.
  - by eapply ghost_pop.
  - by eapply chunks_pop.
  - cbn. apply (kernel_pop _ _ _ c s); [done|by rewrite El|by rewrite Ef].
  - split; cbn; rewrite ?El; cbn.
    + lia.
    + done.
    + rewrite El in Htl. done.
    + intros d Hd. rewrite (Hrf d Hd), E, El. f_equal. symmetry. by apply Hrefs.
    + intros d Hd. destruct (Hus d Hd) as [H|H]; [|by rewrite E in H]. left. rewrite E, El in H. by rewrite Hrefs.
    + eapply list.Forall_impl; [exact Hh|]. intros h (H1 & H2 & H3 & H4). unfold handle_ok. cbn. rewrite El. cbn. do 3 (split; [done|]).
      intros Hin. rewrite El in H4. destruct H4 as [H4 _]; [by right|]. cbn in H4. injection H4 as H4. by rewrite <- H4 in Hin.
    + done.
  - split; [|split]; cbn.
    + rewrite Ht1, Eus, Ef. cbn. by rewrite !app_assoc.
    + rewrite Ht2, Htk, firstn_all. by rewrite app_nil_r.
    + rewrite list.Forall_app. split; [done|]. pose proof (go_elems _ _ _ Hg) as He. rewrite Ef in He. rewrite Eus. by apply list.Forall_cons in He as [He _].
Qed.

(** *** Releasing a chunk *)
Lemma refs_insert (rc : list Z) f f' c r : (∀ d, 0 ≤ d < numCqChunks → rc !! Z.to_nat d = Some (f d)) → 0 ≤ c < numCqChunks → f' c = r →
  (∀ d, d ≠ c → f' d = f d) → ∀ d, 0 ≤ d < numCqChunks → <[Z.to_nat c := r]> rc !! Z.to_nat d = Some (f' d).
Proof.
  intros Hrc Hc Er Hf d Hd. destruct (decide (d = c)) as [->|Hne].
  - rewrite list_lookup_insert_eq by (apply lookup_lt_is_Some; rewrite (Hrc c Hc); by eexists). by rewrite Er.
  - rewrite list_lookup_insert_ne by lia. rewrite (Hf d Hne). by apply Hrc.
Qed.
Lemma refs_at live hs pc c d : releasing pc = Some c → refs live hs pc d = refs live hs UIdle d + (if decide (d = c) then 1 else 0).
Proof.
  intros E. unfold refs, at_pc. rewrite E. cbn [releasing]. rewrite (decide_False (P:=None = Some d)) by done.
  destruct (decide (d = c)) as [->|Hne]; [rewrite decide_True by done|rewrite decide_False by congruence]; lia.
Qed.
Lemma refs_none live hs pc d : releasing pc = None → refs live hs pc d = refs live hs UIdle d.
Proof. intros E. by apply refs_pc. Qed.
Lemma cursor_cont g u k : user_ok g u →
  match u_pc u with USurrender _ k' | UResetNext _ k' | UResetProgress _ k' | USupply _ k' | UWake k' | UWakeDrive k' => k' = k | _ => False end → cont_ok g u k.
Proof. intros [_ Hc _ _ _ _ _] H. destruct (u_pc u); try done; subst k; by destruct k0. Qed.
Lemma resume_plain u k : plain (u_pc (resume u k)) = true ∧ pendingNotify (resume u k) = pendingNotify u ∧ handles (resume u k) = handles u.
Proof. by destruct k. Qed.
Lemma user_resume g u k rc : user_ok g u → cont_ok g u k →
  (∀ d, 0 ≤ d < numCqChunks → rc !! Z.to_nat d = Some (refs (g_live g) (handles u) UIdle d)) → (∀ d, 0 ≤ d < numCqChunks → 0 < refs (g_live g) (handles u) UIdle d) →
  user_ok g (resume (set_refs u rc) k).
Proof.
  intros [Ht _ Htl _ _ Hh _] Hk Hrc Hpos. destruct k as [c|]; cbn in Hk |- *; split; try done; cbn.
  - destruct Hk as [? ->]. done.
  - intros d Hd. left. by apply Hpos.
  - intros d Hd. left. by apply Hpos.
Qed.
Lemma inv_resume g q k rc : inv_at g q → cont_ok g (disp q) k →
  (∀ d, 0 ≤ d < numCqChunks → rc !! Z.to_nat d = Some (refs (g_live g) (handles (disp q)) UIdle d)) → (∀ d, 0 ≤ d < numCqChunks → 0 < refs (g_live g) (handles (disp q)) UIdle d) →
  inv_at g (with_disp q (resume (set_refs (disp q) rc) k)).
Proof.
  intros Hi Hk H1 H2. destruct (resume_plain (set_refs (disp q) rc) k) as (Hp & Hpe & _). apply inv_disp; [done|..].
  - by apply user_resume; [apply Hi|..].
  - by apply reset_plain.
  - rewrite Hpe. apply (in_bits _ _ _ _ Hi).
  - by destruct k.
Qed.
Lemma set_refs_id u : set_refs u (refCounts u) = u.
Proof. by destruct u. Qed.
Lemma step_surrender g q cn k : inv_at g q → u_pc (disp q) = USurrender cn k → ∃ q', (∀ rq, ustep q rq = Ret q') ∧ inv_at g q'.
Proof.
  intros Hi E. pose proof (in_user _ _ _ _ Hi) as Hu. pose proof (uo_pc _ _ _ Hu) as Hcn. rewrite E in Hcn. cbn in Hcn.
  pose proof (uo_refs _ _ _ Hu) as Hr. pose proof (uo_used _ _ _ Hu) as Hus. rewrite E in Hr, Hus.
  assert (∀ d, refs (g_live g) (handles (disp q)) (USurrender cn k) d = refs (g_live g) (handles (disp q)) UIdle d + (if decide (d = cn) then 1 else 0)) as Hat by (intros; by apply refs_at).
  set (f := refs (g_live g) (handles (disp q)) (USurrender cn k)) in *. destruct (Hus cn Hcn) as [Hpos|Hpos]; [|done].
  pose proof (cursor_cont g (disp q) k Hu ltac:(by rewrite E)) as Hk. pose proof (Hat cn) as Hatc. rewrite decide_True in Hatc by done.
  assert (∀ d, 0 ≤ d < numCqChunks → <[Z.to_nat cn := f cn - 1]> (refCounts (disp q)) !! Z.to_nat d = Some (refs (g_live g) (handles (disp q)) UIdle d)) as Hnew.
  { apply (refs_insert _ f); [done|done|lia|]. intros d Hd. rewrite Hat, decide_False by done. lia. }
  unfold ustep. rewrite E, (get_ref_Ret _ cn (f cn)) by (lia || by apply Hr). cbn [mbind outcome_bind]. rewrite (proj2 (Z.ltb_lt 0 (f cn))) by lia.
  eexists. split; [done|]. destruct (Z.ltb_spec 1 (f cn)) as [Hgt|Hle].
  - apply inv_resume; [done|done|done|]. intros d Hd. destruct (decide (d = cn)) as [->|Hne]; [lia|]. specialize (Hat d). rewrite decide_False in Hat by done.
    destruct (Hus d Hd) as [H|H]; [lia|done].
  - apply inv_disp; try done; [|apply (in_bits _ _ _ _ Hi)]. destruct Hu as [Ht Hc Htl _ _ Hh _]. rewrite E in Hc. split; cbn; try done.
    + intros d Hd. destruct (decide (d = cn)) as [->|Hne]; [by right|]. left. rewrite (refs_none _ _ (UResetNext cn k)) by done. specialize (Hat d). rewrite decide_False in Hat by done.
      destruct (Hus d Hd) as [H|H]; [lia|done].
    + split; [done|]. rewrite (refs_none _ _ (UResetNext cn k)) by done. lia.
Qed.
Lemma kernel_frame m m' g k : chunks m' = chunks m ∨ (∃ c x x', c ∉ g_live g ∧ 0 ≤ c ∧ chunks m !! Z.to_nat c = Some x ∧ chunks m' = <[Z.to_nat c := x']> (chunks m)) →
  ghost_ok g → cqFirst m' = cqFirst m → kernel_ok m g k → kernel_ok m' g k.
Proof.
  intros [Hc|(c & x & x' & Hnot & Hc0 & Hx & Hc)] Hg Hf Hk; [by apply (kernel_ok_words chunkSize m)|].
  assert (unstarted m g k → unstarted m' g k) as Hun by (intros []; split; by rewrite ?Hf).
  assert (at_cursor g k (size (g_cur g)) → written (chunks m) g k → written (chunks m') g k) as Hw.
  { intros Hac (y & e & Hy & H). exists y, e. split; [|done]. rewrite Hc. rewrite list_lookup_insert_ne; [done|].
    pose proof (ac_chunk _ _ _ Hac) as Hl. pose proof (live_range _ _ _ _ _ Hg Hl). intros Ed. assert (c = currentChunk k) by lia. subst. by apply Hnot, (list_elem_of_lookup_2 _ _ _ Hl). }
  unfold kernel_ok in *. destruct (k_pc k); tauto.
Qed.
(** A store to the chunk that is reset *)
Lemma inv_reset g q cn f pc rc : inv_at g q → recycling (u_pc (disp q)) = Some cn →
  (∀ x, buffer (f x) = buffer x) → user_ok g (set_upc (set_refs (disp q) rc) pc) → (∀ cs x, cs !! Z.to_nat cn = Some x → reset_ok cs (u_pc (disp q)) → reset_ok (<[Z.to_nat cn := f x]> cs) pc) →
  match pc with UCheck n => False | _ => True end →
  ∃ m, on_chunk (mem q) cn (λ x, Ret (f x)) = Ret m ∧ inv_at g (with_disp (with_mem q m) (set_upc (set_refs (disp q) rc) pc)).
Proof.
  intros Hi Hrec Hf Hu' Hrs Hpc. destruct (recycling_free numCqChunks g (disp q) cn (in_user _ _ _ _ Hi) Hrec) as (Hcn & Hnot & _).
  destruct (lookup_lt_is_Some_2 (chunks (mem q)) (Z.to_nat cn)) as [x Hx]. { rewrite (co_length _ _ _ _ _ (in_chunks _ _ _ _ Hi)). lia. }
  rewrite (on_chunk_Ret _ _ _ x (f x)) by (lia || done). eexists. split; [done|].
  destruct Hi as [Hg Hch Hk Hu Hr (Hb1 & Hb2 & Hb3) Ht]. split; try done; cbn.
  - apply chunks_other with (x := x); try done; [lia|]. by rewrite Hf.
  - apply (kernel_frame (mem q)); try done. right. exists cn, x, (f x). split; [done|]. split; [lia|]. done.
  - by apply Hrs.
  - by destruct pc.
Qed.
Lemma step_resetNext g q cn k : inv_at g q → u_pc (disp q) = UResetNext cn k → ∃ q', (∀ rq, ustep q rq = Ret q') ∧ inv_at g q'.
Proof.
  intros Hi E. pose proof (in_user _ _ _ _ Hi) as Hu.
  destruct (inv_reset g q cn (λ x, set_next x 0) (UResetProgress cn k) (refCounts (disp q)) Hi ltac:(by rewrite E) ltac:(done)) as (m & Hm & Hi').
  - destruct Hu as [Ht Hc Htl Hr Hus Hh Hp]. rewrite E in *. by split.
  - intros cs x Hx _ y. rewrite list_lookup_insert_eq by (by eapply lookup_lt_Some). by intros [= <-].
  - done.
  - unfold ustep. rewrite E, Hm. cbn [mbind outcome_bind]. eexists. split; [done|]. by rewrite set_refs_id in Hi'.
Qed.
Lemma step_resetProgress g q cn k : inv_at g q → u_pc (disp q) = UResetProgress cn k → ∃ q', (∀ rq, ustep q rq = Ret q') ∧ inv_at g q'.
Proof.
  intros Hi E. pose proof (in_user _ _ _ _ Hi) as Hu. pose proof (uo_pc _ _ _ Hu) as Hcn. rewrite E in Hcn. destruct Hcn as [Hcn H0].
  rewrite (refs_none _ _ (UResetProgress cn k)) in H0 by done.
  assert (∀ d, refs (g_live g) (handles (disp q)) (USupply cn k) d = refs (g_live g) (handles (disp q)) UIdle d + (if decide (d = cn) then 1 else 0)) as Hat by (intros; by apply refs_at).
  pose proof (Hat cn) as Hatc. rewrite decide_True in Hatc by done.
  destruct (inv_reset g q cn (λ x, set_progress x 0) (USupply cn k) (<[Z.to_nat cn := 1]> (refCounts (disp q))) Hi ltac:(by rewrite E) ltac:(done)) as (m & Hm & Hi').
  - destruct Hu as [Ht Hc Htl Hr Hus Hh Hp]. rewrite E in *. split; try done; cbn.
    + apply (refs_insert _ (refs (g_live g) (handles (disp q)) (UResetProgress cn k))); [done|done|lia|].
      intros d Hd. rewrite Hat, decide_False, (refs_none _ _ (UResetProgress cn k)) by done. lia.
    + intros d Hd. left. rewrite Hat. destruct (decide (d = cn)) as [->|Hne]; [lia|]. destruct (Hus d Hd) as [H|H]; [|by injection H as ->].
      rewrite (refs_none _ _ (UResetProgress cn k)) in H by done. lia.
    + split; [done|]. lia.
  - intros cs x Hx Hr. rewrite E in Hr. intros y. rewrite list_lookup_insert_eq by (by eapply lookup_lt_Some). intros [= <-]. split; [|done]. exact (Hr x Hx).
  - done.
  - unfold ustep. rewrite E, Hm. cbn [mbind outcome_bind]. eexists. split; [done|]. done.
Qed.

(** *** Supplying a chunk *)
Definition supply (g : Ghost) (cn : Z) : Ghost := MkGhost (g_live g ++ [cn]) (g_front g) (g_cur g) (g_hist g) (g_taken g).
Lemma ghost_supply g cn : ghost_ok g → 0 ≤ cn < numCqChunks → cn ∉ g_live g → ghost_ok (supply g cn).
Proof.
  intros [Hn Hr Hf He Hs] Hc Hnot. split; cbn; try done.
  - apply list.NoDup_app. split; [done|]. split; [|apply NoDup_singleton]. intros x Hx Hin. apply list_elem_of_singleton in Hin. by subst.
  - rewrite list.Forall_app. split; [done|]. by apply list.Forall_singleton.
  - rewrite length_app. cbn. lia.
Qed.
Lemma next_word_supply live cn i : (S i < length live)%nat → next_word (live ++ [cn]) i = next_word live i.
Proof. intros Hi. unfold next_word. by rewrite lookup_app_l. Qed.
Lemma next_word_tail live cn i : S i = length live → next_word (live ++ [cn]) i = link_word cn.
Proof. intros Hi. unfold next_word. by rewrite lookup_app_r, Hi, Nat.sub_diag by lia. Qed.
Lemma chunks_supply g full cs cn tl x y : ghost_ok g → chunks_ok g full cs → 0 ≤ cn → cn ∉ g_live g → list.last (g_live g) = Some tl →
  cs !! Z.to_nat tl = Some x → cs !! Z.to_nat cn = Some y → next y = 0 → progressFutex y = 0 → chunks_ok (supply g cn) full (<[Z.to_nat tl := set_next x (link_word cn)]> cs).
Proof.
  intros Hg [Hl Hb Hc] Hcn0 Hnot Htl Hx Hy Hn0 Hp0. rewrite last_lookup in Htl. pose proof (lookup_lt_Some _ _ _ Htl) as Hlt. pose proof (go_front _ _ _ Hg) as Hfr.
  pose proof (live_range _ _ _ _ _ Hg Htl) as Htl0.
  assert (Z.to_nat tl ≠ Z.to_nat cn) as Hne. { intros H. assert (tl = cn) by lia. subst. by apply Hnot, (list_elem_of_lookup_2 _ _ _ Htl). }
  split.
  - by rewrite length_insert.
  - intros k z. destruct (decide (k = Z.to_nat tl)) as [->|Hn].
    + rewrite list_lookup_insert_eq by (by eapply lookup_lt_Some). intros [= <-]. exact (Hb _ _ Hx).
    + rewrite list_lookup_insert_ne by done. apply Hb.
  - cbn. intros i d Hi. apply lookup_app_Some in Hi as [Hi|[Hge Hi]].
    + destruct (Hc i d Hi) as (z & Hz & [Hzn Hzp Hzd]). destruct (decide (S i = length (g_live g))) as [Hlast|Hlast].
      * assert (d = tl) as ->. { replace (pred (length (g_live g))) with i in Htl by lia. congruence. } rewrite Hx in Hz. injection Hz as <-.
        exists (set_next x (link_word cn)). rewrite list_lookup_insert_eq by (by eapply lookup_lt_Some). split; [done|]. split; [|done|done]. by rewrite next_word_tail.
      * exists z. rewrite list_lookup_insert_ne. { split; [done|]. split; [|done|done]. apply lookup_lt_Some in Hi. by rewrite next_word_supply by lia. }
        intros H. pose proof (live_inj _ _ g _ _ _ _ Hg Htl Hi H). lia.
    + apply list_lookup_singleton_Some in Hi as [Hi <-]. exists y. rewrite list_lookup_insert_ne by done. split; [done|]. split.
      * rewrite Hn0. unfold next_word. by rewrite lookup_ge_None_2 by (rewrite length_app; cbn; lia).
      * rewrite Hp0. unfold progress_word. rewrite lookup_ge_None_2 by lia. by rewrite (proj2 (Nat.eqb_neq _ _)) by lia.
      * intros es Hes. apply lookup_lt_Some in Hes. rewrite length_app in Hes. cbn in Hes. lia.
Qed.
Lemma kernel_supply m m' g k cn tl x w : chunks m !! Z.to_nat tl = Some x → chunks m' = <[Z.to_nat tl := set_next x w]> (chunks m) → cqFirst m' = cqFirst m →
  kernel_ok m g k → kernel_ok m' (supply g cn) k.
Proof.
  intros Hx Hc Hf Hk. assert (∀ i c, g_live g !! i = Some c → g_live (supply g cn) !! i = Some c) as Hl.
  { intros i c Hi. cbn. rewrite lookup_app_l; [done|]. by eapply lookup_lt_Some. }
  assert (∀ p, at_cursor g k p → at_cursor (supply g cn) k p) as Hac by (intros p []; split; auto).
  assert (unstarted m g k → unstarted m' (supply g cn) k) as Hun by (intros []; split; auto; by rewrite Hf).
  assert (written (chunks m) g k → written (chunks m') (supply g cn) k) as Hw.
  { intros (y & e & Hy & H). rewrite Hc. destruct (decide (Z.to_nat tl = Z.to_nat (currentChunk k))) as [Ed|Ed].
    - rewrite <- Ed in Hy. rewrite Hx in Hy. injection Hy as <-. exists (set_next x w), e. rewrite <- Ed. by rewrite list_lookup_insert_eq by (by eapply lookup_lt_Some).
    - exists y, e. by rewrite list_lookup_insert_ne. }
  unfold kernel_ok in *. cbn [g_front g_cur supply]. destruct (k_pc k); naive_solver.
Qed.
Lemma held_none c hs h : held c hs = 0 → h ∈ hs → h_chunk h ≠ c.
Proof.
  unfold held. intros H0 Hin E. assert (h ∈ filter (λ h, h_chunk h = c) hs) as H by (by apply list_elem_of_filter). destruct (filter _ hs); [by apply not_elem_of_nil in H|done].
Qed.
Lemma step_supply g q cn k : inv_at g q → u_pc (disp q) = USupply cn k → ∃ q', (∀ rq, ustep q rq = Ret q') ∧ inv_at (supply g cn) q'.
Proof.
  intros Hi E. pose proof (in_user _ _ _ _ Hi) as Hu. destruct (recycling_free _ g (disp q) cn Hu ltac:(by rewrite E)) as (Hcn & Hnot & Hheld).
  pose proof (uo_tail _ _ _ Hu) as Htl. pose proof Htl as Htl'. rewrite last_lookup in Htl'. pose proof (in_ghost _ _ _ _ Hi) as Hg.
  destruct (co_live _ _ _ _ _ (in_chunks _ _ _ _ Hi) _ _ Htl') as (x & Hx & _). pose proof (live_range _ _ _ _ _ Hg Htl') as Hrange.
  destruct (lookup_lt_is_Some_2 (chunks (mem q)) (Z.to_nat cn)) as [y Hy]. { rewrite (co_length _ _ _ _ _ (in_chunks _ _ _ _ Hi)). lia. }
  pose proof (in_reset _ _ _ _ Hi) as Hr. rewrite E in Hr. destruct (Hr y Hy) as [Hy1 Hy2].
  unfold ustep. rewrite E, (on_chunk_Ret _ _ _ x (set_next x (link_word cn))) by (lia || done). cbn [mbind outcome_bind]. eexists. split; [done|].
  assert (∀ d, refs (g_live g ++ [cn]) (handles (disp q)) (UWake k) d = refs (g_live g) (handles (disp q)) (USupply cn k) d) as Hrefs.
  { intros d. rewrite (refs_none _ _ (UWake k)), (refs_at _ _ (USupply cn k) cn) by done. unfold refs, on_list. destruct (decide (d = cn)) as [->|Hne].
    - rewrite decide_True, decide_False by (done || (apply elem_of_app; right; by left)). lia.
    - destruct (decide (d ∈ g_live g)) as [H|H]; [rewrite decide_True by (apply elem_of_app; by left); lia|].
      rewrite decide_False; [lia|]. intros [H'|H']%elem_of_app; [done|]. by apply list_elem_of_singleton in H'. }
  assert (head (g_live g ++ [cn]) = head (g_live g)) as Ehd. { pose proof (go_front _ _ _ Hg). destruct (g_live g); [cbn in *; lia|done]. }
  destruct Hi as [_ Hch Hk _ _ (Hb1 & Hb2 & _) Ht]. destruct Hu as [Htk Hc _ Hrf Hus Hh _]. split; try done.
  - by apply ghost_supply.
  - eapply chunks_supply; try done; lia.
  - exact (kernel_supply (mem q) (set_chunk (mem q) (Z.to_nat (tailChunk (disp q))) (set_next x (link_word cn))) g _ cn _ x (link_word cn) Hx eq_refl eq_refl Hk).
  - rewrite E in Hc, Hrf, Hus. split; cbn; try done.
    + rewrite Ehd. by destruct k.
    + by rewrite last_snoc.
    + intros d Hd. rewrite Hrefs. by apply Hrf.
    + intros d Hd. rewrite Hrefs. by apply Hus.
    + apply list.Forall_forall. intros h Hin. pose proof (proj1 (list.Forall_forall _ _) Hh h Hin) as (H1 & H2 & H3 & H4). do 3 (split; [done|]). cbn. rewrite Ehd.
      intros [H|H]%elem_of_app; [by apply H4|]. apply list_elem_of_singleton in H. by destruct (held_none cn (handles (disp q)) h Hheld Hin).
Qed.
Lemma refs_idle g u : user_ok g u → releasing (u_pc u) = None → resetting (u_pc u) = None →
  (∀ d, 0 ≤ d < numCqChunks → refCounts u !! Z.to_nat d = Some (refs (g_live g) (handles u) UIdle d)) ∧ (∀ d, 0 ≤ d < numCqChunks → 0 < refs (g_live g) (handles u) UIdle d).
Proof.
  intros [_ _ _ Hr Hus _ _] E1 E2. split; intros d Hd; rewrite <- (refs_none _ _ (u_pc u)) by done; [by apply Hr|]. destruct (Hus d Hd) as [H|H]; [done|by rewrite E2 in H].
Qed.
Lemma step_wake g q k : inv_at g q → u_pc (disp q) = UWake k → ∃ q', (∀ rq, ustep q rq = Ret q') ∧ inv_at g q'.
Proof.
  intros Hi E. pose proof (in_user _ _ _ _ Hi) as Hu. unfold ustep. rewrite E. eexists. split; [done|]. cbn zeta.
  set (q1 := with_mem q _). assert (inv_at g q1) as Hi1 by (apply inv_words; try done; apply (in_bits _ _ _ _ Hi)).
  destruct (refs_idle g (disp q) Hu ltac:(by rewrite E) ltac:(by rewrite E)) as [Hr Hp]. destruct (has _ _).
  - rewrite <- (set_refs_id (disp q)). apply (inv_resume g q1); try done. apply cursor_cont; [done|]. cbn. by rewrite E.
  - apply inv_disp; try done; [|apply (in_bits _ _ _ _ Hi)]. destruct Hu as [Ht Hc Htl Hrf Hus Hh _]. rewrite E in Hc, Hrf, Hus. by split.
Qed.
Lemma step_wakeDrive g q k : inv_at g q → u_pc (disp q) = UWakeDrive k → ∃ q', (∀ rq, ustep q rq = Ret q') ∧ inv_at g q'.
Proof.
  intros Hi E. pose proof (in_user _ _ _ _ Hi) as Hu. unfold ustep. rewrite E. eexists. split; [done|]. pose proof (inv_raiseCq g q Hi) as Hi1.
  destruct (refs_idle g (disp q) Hu ltac:(by rewrite E) ltac:(by rewrite E)) as [Hr Hp]. rewrite <- (set_refs_id (disp q)), <- (disp_raiseCq q).
  apply inv_resume; rewrite ?disp_raiseCq; try done. apply cursor_cont; [done|]. by rewrite E.
Qed.

(** *** Elements *)
Lemma take_app_drop_slice (b pre mid suf : list Z) n : take n b = pre ++ mid ++ suf → take (length mid) (drop (length pre) b) = mid.
Proof.
  intros H. rewrite <- (take_drop n b), H. rewrite <- !app_assoc. rewrite drop_app_length. by rewrite take_app_length.
Qed.
(** What [wait] reads is the next element of the chunk. *)
Lemma dequeue_reads (b : list Z) es j e : take (length (enc es)) b = enc es → Forall elem_ok es → es !! j = Some e →
  Z.of_nat (length (e_data e)) < 2 ^ 32 → let o := size (take j es) in
  ∃ header, get b o 16 = Ret header ∧ le_value (take 4 header) = Z.of_nat (length (e_data e)) ∧ le_value (drop 8 header) = e_context e ∧
    get b (o + 16) (Z.of_nat (length (e_data e))) = Ret (e_data e) ∧ size (take (S j) es) = o + 16 + Z.of_nat (length (e_data e)).
Proof.
  intros Hb Hok Hj Hlen. cbn zeta. pose proof (Forall_lookup_1 _ _ _ _ Hok Hj) as [He1 He2 He3].
  pose proof (take_drop_middle es j e Hj) as Hsplit. set (pre := take j es) in *. set (post := drop (S j) es) in *.
  assert (enc es = enc pre ++ element_bytes (Z.of_nat (length (e_data e))) 0 (e_context e) ++ e_data e ++ enc post) as Henc.
  { rewrite <- Hsplit at 1. change (e :: post) with ([e] ++ post). rewrite !enc_app, enc_one. unfold encode. by rewrite <- !app_assoc. }
  set (hd := element_bytes _ 0 (e_context e)) in *. assert (length hd = 16%nat) as Hhd by done.
  assert (length (enc es) ≤ length b)%nat as Hle. { rewrite <- Hb at 1. rewrite length_take. lia. }
  pose proof (f_equal length Henc) as Hl. rewrite !length_app in Hl. exists hd. rewrite Henc in Hb at 2. unfold get, size.
  rewrite (proj2 (andb_true_iff _ _)) by (rewrite ?andb_true_iff; lia). rewrite Nat2Z.id. split.
  { f_equal. change (Z.to_nat 16) with (length hd). by eapply take_app_drop_slice. }
  split; [unfold hd, element_bytes; rewrite take_app_length'; [apply le_value_bytes; lia|done]|].
  split. { unfold hd, element_bytes. rewrite app_assoc, drop_app_length' by done. apply le_value_bytes. lia. }
  split.
  - rewrite (proj2 (andb_true_iff _ _)) by (rewrite ?andb_true_iff; lia). f_equal. rewrite Nat2Z.id.
    replace (Z.to_nat (Z.of_nat (length (enc pre)) + 16)) with (length (enc pre ++ hd)) by (rewrite length_app; lia).
    rewrite app_assoc in Hb. by eapply take_app_drop_slice.
  - rewrite (take_S_r es j e Hj). fold pre. rewrite enc_app, enc_one, length_app. pose proof (encode_length e). lia.
Qed.
Definition taken_to (g : Ghost) (n : nat) : Ghost := MkGhost (g_live g) (g_front g) (g_cur g) (g_hist g) n.
Lemma ghost_taken g n : ghost_ok g → ghost_ok (taken_to g n).
Proof. by intros []; split. Qed.
Lemma chunks_taken g n full cs : chunks_ok g full cs → chunks_ok (taken_to g n) full cs.
Proof. by intros []; split. Qed.
Lemma kernel_taken m g n k : kernel_ok m g k → kernel_ok m (taken_to g n) k.
Proof.
  assert (∀ p, at_cursor g k p → at_cursor (taken_to g n) k p) as Hac by (by intros p []; split).
  assert (unstarted m g k → unstarted m (taken_to g n) k) as Hun by (by intros []; split).
  unfold kernel_ok, written. cbn [g_front g_cur g_live taken_to]. destruct (k_pc k); naive_solver.
Qed.
Lemma held_snoc c hs h : held c (hs ++ [h]) = held c hs + (if decide (c = h_chunk h) then 1 else 0).
Proof.
  unfold held. rewrite list.filter_app, length_app, Nat2Z.inj_add. f_equal. destruct (decide (c = h_chunk h)) as [->|Hne].
  - by rewrite filter_cons_True.
  - by rewrite filter_cons_False.
Qed.
(** Another handle of a chunk that is in use *)
Lemma user_hold g u h pc : user_ok g u → handle_ok numCqChunks g h → releasing (u_pc u) = None → resetting (u_pc u) = None → releasing pc = None →
  let hs := handles u ++ [h] in
  get_ref u (h_chunk h) = Ret (refs (g_live g) (handles u) (u_pc u) (h_chunk h)) ∧
  (∀ c, 0 ≤ c < numCqChunks → <[Z.to_nat (h_chunk h) := refs (g_live g) (handles u) (u_pc u) (h_chunk h) + 1]> (refCounts u) !! Z.to_nat c = Some (refs (g_live g) hs pc c)) ∧
  (∀ c, 0 ≤ c < numCqChunks → 0 < refs (g_live g) hs pc c) ∧ Forall (handle_ok numCqChunks g) hs.
Proof.
  intros Hu Hh E1 E2 E3. cbn zeta. destruct (refs_idle g u Hu E1 E2) as [Hr Hp]. destruct Hh as (Hc & Hh). rewrite !(refs_none _ _ (u_pc u)) by done.
  assert (∀ d, refs (g_live g) (handles u ++ [h]) pc d = refs (g_live g) (handles u) UIdle d + (if decide (d = h_chunk h) then 1 else 0)) as Hn.
  { intros d. rewrite (refs_none _ _ pc) by done. unfold refs. rewrite held_snoc. lia. }
  split; [apply get_ref_Ret; [lia|by apply Hr]|]. split.
  - apply (refs_insert _ (refs (g_live g) (handles u) UIdle)); [done|done|by rewrite Hn, decide_True|]. intros d Hd. rewrite Hn, decide_False by done. lia.
  - split; [intros c Hc'; rewrite Hn; specialize (Hp c Hc'); destruct (decide _); lia|]. rewrite list.Forall_app. split; [apply Hu|]. by apply list.Forall_singleton.
Qed.
Lemma step_dequeue g q : inv_at g q → u_pc (disp q) = UDequeue → ∃ q' e, (∀ rq, ustep q rq = Ret q') ∧ inv_at (taken_to g (S (g_taken g))) q' ∧
  user_sent g !! g_taken g = Some e ∧ delivered q' = delivered q ++ [(e_context e, e_data e)].
Proof using Hcfg.
  intros Hi E. pose proof (in_user _ _ _ _ Hi) as Hu. pose proof (in_ghost _ _ _ _ Hi) as Hg. pose proof (uo_pc _ _ _ Hu) as Hlt. rewrite E in Hlt.
  destruct (lookup_lt_is_Some_2 _ _ Hlt) as [e He]. destruct (user_cell g q Hi ltac:(by rewrite E)) as (x & Hr & Hl & Hx & Hcell).
  pose proof (uo_cursor _ _ _ Hu) as Hc. rewrite E in Hc. cbn in Hc. destruct Hc as [Hhd Hlast].
  assert ((g_front g ++ [g_cur g]) !! 0%nat = Some (user_sent g)) as Hus by (unfold user_sent; by destruct (g_front g)).
  pose proof (Forall_lookup_1 _ _ _ _ (go_elems _ _ _ Hg) Hus) as Hok. pose proof (sent_size g Hg) as Hsz.
  pose proof (take_S_r _ _ _ He) as HtS. assert (size (take (S (g_taken g)) (user_sent g)) ≤ size (user_sent g)) as Hle by apply size_take.
  assert (Z.of_nat (length (e_data e)) < 2 ^ 32) as Hlen. { rewrite HtS, size_app, size_one in Hle. pose proof (size_nonneg (take (g_taken g) (user_sent g))). lia. }
  destruct (dequeue_reads (buffer x) (user_sent g) _ e (ce_data _ _ _ _ _ _ Hcell _ Hus) Hok He Hlen) as (hd & H1 & H2 & H3 & H4 & H5). rewrite <- Hlast in *.
  set (h := MkHandle (retrieveChunk (disp q)) (lastProgress (disp q) + 16) (Z.of_nat (length (e_data e)))).
  assert (handle_ok numCqChunks (taken_to g (S (g_taken g))) h) as Hh.
  { split; [done|]. cbn. pose proof (size_nonneg (take (g_taken g) (user_sent g))). split; [lia|]. split; [lia|]. intros _. split; [done|]. cbn [h_offset h_length h g_taken taken_to]. change (user_sent (taken_to g (S (g_taken g)))) with (user_sent g). lia. }
  assert (user_ok (taken_to g (S (g_taken g))) (set_upc (set_retrieve (disp q) (retrieveChunk (disp q)) (lastProgress (disp q) + 16 + Z.of_nat (length (e_data e)))) UIdle)) as Hu1.
  { destruct Hu as [Ht _ Htl Hrf Hu Hhs _]. rewrite E in Hrf, Hu. split; cbn [g_taken g_live taken_to set_upc set_retrieve u_pc handles]; try done.
    - eapply list.Forall_impl; [exact Hhs|]. intros h' (A & B & C & D). do 3 (split; [done|]). intros Hin. destruct (D Hin) as [D1 D2]. split; [done|]. cbn [g_taken taken_to]. change (user_sent (taken_to g (S (g_taken g)))) with (user_sent g). lia. }
  destruct (user_hold _ _ h UIdle Hu1 Hh eq_refl eq_refl eq_refl) as (G1 & G2 & G3 & G4). cbn in G1, G2, G3, G4.
  unfold ustep. rewrite E, (get_chunk_Ret _ _ x) by (lia || done). cbn [mbind outcome_bind]. unfold sizeof_ElementStruct. rewrite H1. cbn [mbind outcome_bind]. rewrite H2, H3, H4.
  cbn [mbind outcome_bind]. unfold get_ref in G1 |- *. cbn in G1. rewrite G1. cbn [mbind outcome_bind]. eexists. exists e. split; [done|]. split; [|done].
  destruct Hi as [_ Hch Hk _ _ (Hb1 & Hb2 & _) (Ht1 & Ht2 & Ht3)]. destruct Hu1 as [Q1 Q2 Q3 Q4 Q5 Q6 Q7]. split; try done.
  - by apply ghost_taken.
  - by apply chunks_taken.
  - by apply kernel_taken.
  - split; cbn; try done. intros c Hc'. left. by apply G3.
  - split; [done|]. split; [|done]. cbn. rewrite Ht2. change (user_sent (taken_to g (S (g_taken g)))) with (user_sent g). rewrite HtS, app_assoc, (fmap_app _ _ [e]). done.
Qed.
Lemma step_copy g q i : inv_at g q → u_pc (disp q) = UIdle → ∃ q', copy_handle q i = Ret q' ∧ inv_at g q'.
Proof.
  intros Hi E. unfold copy_handle. destruct (handles (disp q) !! i) as [h|] eqn:Hh; [|by exists q]. pose proof (in_user _ _ _ _ Hi) as Hu.
  pose proof (Forall_lookup_1 _ _ _ _ (uo_handles _ _ _ Hu) Hh) as Hok. destruct (user_hold g (disp q) h UIdle Hu Hok ltac:(by rewrite E) ltac:(by rewrite E) eq_refl) as (-> & G2 & G3 & G4).
  cbn [mbind outcome_bind]. eexists. split; [done|]. apply inv_disp; try done; cbn; rewrite ?E; try done; [|apply (in_bits _ _ _ _ Hi)].
  destruct Hu as [Q1 Q2 Q3 Q4 Q5 Q6 Q7]. rewrite E in *. split; cbn; rewrite ?E; try done. intros c Hc. left. by apply G3.
Qed.
Lemma held_delete c hs i h : hs !! i = Some h → held c hs = held c (delete i hs) + (if decide (c = h_chunk h) then 1 else 0).
Proof.
  intros Hi. rewrite <- (take_drop_middle hs i h Hi) at 1. rewrite delete_take_drop. unfold held. rewrite !list.filter_app, !length_app. destruct (decide (c = h_chunk h)) as [->|Hne].
  - rewrite filter_cons_True by done. cbn. lia.
  - rewrite filter_cons_False by done. lia.
Qed.
Lemma step_drop g q i : inv_at g q → u_pc (disp q) = UIdle → inv_at g (drop_handle q i).
Proof.
  intros Hi E. unfold drop_handle. destruct (handles (disp q) !! i) as [h|] eqn:Hh; [|done]. pose proof (in_user _ _ _ _ Hi) as Hu.
  pose proof (Forall_lookup_1 _ _ _ _ (uo_handles _ _ _ Hu) Hh) as Hok. destruct (refs_idle g (disp q) Hu ltac:(by rewrite E) ltac:(by rewrite E)) as [Hr Hp].
  assert (∀ d, refs (g_live g) (delete i (handles (disp q))) (USurrender (h_chunk h) ThenIdle) d = refs (g_live g) (handles (disp q)) UIdle d) as Hrefs.
  { intros d. rewrite (refs_at _ _ _ (h_chunk h)) by done. unfold refs. rewrite (held_delete d (handles (disp q)) i h Hh). lia. }
  apply inv_disp; try done; [|apply (in_bits _ _ _ _ Hi)]. destruct Hu as [Q1 Q2 Q3 Q4 Q5 Q6 Q7]. rewrite E in *. split; cbn; try done.
  - intros c Hc. rewrite Hrefs. by apply Hr.
  - intros c Hc. left. rewrite Hrefs. by apply Hp.
  - by apply Forall_delete.
  - apply Hok.
Qed.
End user.
