(* ===== verification/IpcQueueSystem.v ===== *)
(** * Completion queues: the system *)
From Stdlib Require Import ZArith Lia ZifyBool.
From stdpp Require Import base list numbers option.
From S2P Require Import Prelude Checksum IpcQueue IpcQueueInv IpcQueueSteps IpcQueueUser.
Open Scope Z_scope.

#[local] Arguments submit_length _ : simpl never.
#[local] Arguments size _ : simpl never.

Section system.
Context (chunkSize numCqChunks : Z) (Hcfg : config_ok chunkSize numCqChunks).
Notation inv_at := (inv_at chunkSize numCqChunks).

(** *** Every event *)
Definition fails (q : Queue) : Prop := exhausted numCqChunks q ∧ kfull (k_pc (kern q)) = true.
Lemma user_step g q rq : inv_at g q →
  (∃ g' q', ustep q rq = Ret q' ∧ inv_at g' q') ∨ (ustep q rq = Stop AssertionFailed ∧ fails q).
Proof using Hcfg.
  intros Hi. destruct (in_bits _ _ _ _ Hi) as (Hb1 & Hb2 & Hb3). destruct (u_pc (disp q)) eqn:E.
  all: try (left; exists g, q; unfold ustep; rewrite E; done).
  - left. exists g. unfold ustep. rewrite E. eexists. split; [done|]. apply inv_jump; try done; rewrite ?E; by destruct rq.
  - left. exists g. unfold ustep. rewrite E. eexists. split; [done|]. by apply inv_jump; rewrite ?E.
  - unfold ustep. rewrite E. pose proof (check_inv _ _ g q _ _ Hi E (check_spec _ _ Hcfg g q _ Hi E)) as H. destruct (check_progress q notify) as [q'|f]; [eauto|].
    right. destruct H as (-> & H1 & H2). done.
  - left. exists g. unfold ustep. rewrite E. eexists. split; [done|]. apply inv_jump; [by cbn; rewrite E|done|done|]. apply inv_words; try done. by apply subbits_without.
  - left. exists g. unfold ustep. rewrite E. eexists. split; [done|]. apply inv_jump; try done; rewrite ?E; by destruct rq.
  - left. exists g. unfold ustep. rewrite E. eexists. split; [done|]. apply inv_jump; rewrite ?disp_raiseCq, ?E; try done. by apply inv_raiseCq.
  - left. exists g. unfold ustep. rewrite E. eexists. split; [done|]. apply inv_jump; try done; rewrite ?E; by destruct (without (userNotify (mem q)) maskedNotify =? 0).
  - left. exists g. unfold ustep. rewrite E. eexists. split; [done|]. apply inv_jump; try done; rewrite ?E; by destruct (without (userNotify (mem q)) maskedNotify =? 0).
  - destruct (step_udone _ _ Hcfg g q Hi E) as (q' & H & H'). left. eauto.
  - destruct (step_surrender _ _ g q _ _ Hi E) as (q' & H & H'). left. eauto.
  - destruct (step_resetNext _ _ g q _ _ Hi E) as (q' & H & H'). left. eauto.
  - destruct (step_resetProgress _ _ g q _ _ Hi E) as (q' & H & H'). left. eauto.
  - destruct (step_supply _ _ g q _ _ Hi E) as (q' & H & H'). left. eauto.
  - destruct (step_wake _ _ g q _ Hi E) as (q' & H & H'). left. eauto.
  - destruct (step_wakeDrive _ _ g q _ Hi E) as (q' & H & H'). left. eauto.
  - destruct (step_dequeue _ _ Hcfg g q Hi E) as (q' & e & H & H' & _). left. eauto.
Qed.
Lemma idle_user q : is_uidle (disp q) = true → u_pc (disp q) = UIdle.
Proof. unfold is_uidle. by destruct (u_pc (disp q)). Qed.
Lemma event_step g q ev : inv_at g q → enabled chunkSize q ev = true →
  (∃ g' q', exec chunkSize numCqChunks q ev = Ret q' ∧ inv_at g' q') ∨
  (exec chunkSize numCqChunks q ev = Stop AssertionFailed ∧ ∃ rq, ev = EvUser rq ∧ fails q).
Proof using Hcfg.
  intros Hi He. destruct (in_bits _ _ _ _ Hi) as (Hb1 & _). destruct ev as [sources ctx| | |rq|i|i| | |set|set]; cbn [exec] in *.
  - left. destruct (submit_step _ _ g q sources ctx Hi He) as (q' & H & H'). eauto.
  - left. by apply (kernel_step _ _ Hcfg g).
  - left. cbn in He. apply idle_user in He. exists g. eexists. split; [done|]. by apply inv_jump; rewrite ?He.
  - destruct (user_step g q rq Hi) as [H|[H H']]; [by left|]. right. eauto.
  - left. cbn in He. apply andb_true_iff in He as [He _]. apply idle_user in He. destruct (step_copy _ _ g q i Hi He) as (q' & H & H'). eauto.
  - left. cbn in He. apply andb_true_iff in He as [He _]. apply idle_user in He. exists g. eexists. split; [done|]. by apply step_drop.
  - left. exists g. eexists. split; [done|]. by apply inv_raise.
  - left. exists g. eexists. split; [done|]. by apply inv_notify.
  - left. exists g. destruct set; eexists; (split; [done|]); [by apply inv_notify|]. apply inv_words; try done. by apply subbits_without.
  - left. exists g. destruct set; eexists; (split; [done|]); by apply inv_words.
Qed.

(** *** The start *)
Lemma supply_all_spec cs0 n m : length (chunks m) = cs0 → Z.of_nat n < Z.of_nat cs0 → ∃ m',
  supply_all n m 0 = Ret (m', Z.of_nat n) ∧ length (chunks m') = cs0 ∧ userNotify m' = userNotify m ∧ cqFirst m' = cqFirst m ∧
  (∀ i x, chunks m !! i = Some x → next x = 0 → chunks m' !! i = Some (set_next x (if (i <? n)%nat then link_word (Z.of_nat i + 1) else 0))).
Proof.
  intros Hlen. induction n as [|n IH]; intros Hn.
  - exists m. split; [done|]. do 3 (split; [done|]). intros i x Hx H0. rewrite Hx. destruct x. cbn in *. by subst.
  - cbn [supply_all]. destruct IH as (m1 & -> & Hl & Hu & Hf & Hc); [lia|]. cbn [mbind outcome_bind].
    destruct (lookup_lt_is_Some_2 (chunks m1) n ltac:(lia)) as [x1 Hx1].
    rewrite (on_chunk_Ret _ _ _ x1 (set_next x1 (link_word (Z.of_nat n + 1)))); [|lia|by rewrite Nat2Z.id|done]. cbn [mbind outcome_bind]. eexists.
    split; [repeat f_equal; lia|]. cbn [chunks userNotify cqFirst kernelNotify set_kernelNotify set_chunk]. rewrite Nat2Z.id, length_insert. do 3 (split; [done|]). intros i x Hx H0. specialize (Hc i x Hx H0).
    destruct (decide (i = n)) as [->|Hne].
    + rewrite list_lookup_insert_eq by lia. rewrite Hx1 in Hc. injection Hc as ->. by rewrite (proj2 (Nat.ltb_lt n (S n))) by lia.
    + rewrite list_lookup_insert_ne, Hc by done. f_equal. f_equal. destruct (Nat.ltb_spec i n), (Nat.ltb_spec i (S n)); try done; lia.
Qed.
Definition start_ghost : Ghost := MkGhost (seqZ 0 numCqChunks) [] [] [] 0.
Lemma start_inv : ∃ q, start chunkSize numCqChunks = Ret q ∧ inv_at start_ghost q ∧ kern q = new_kernel ∧ pendingNotify (disp q) = 0 ∧ u_pc (disp q) = UIdle.
Proof using Hcfg.
  pose proof (cf_chunks _ _ Hcfg) as HN. unfold start, Dispatcher_new. set (m := set_cqFirst _ _).
  assert (∀ i, (i < Z.to_nat numCqChunks)%nat → chunks m !! i = Some (new_chunk chunkSize)) as Hm.
  { intros i Hi. cbn. rewrite list_lookup_fmap. unfold new_chunk. by rewrite lookup_replicate_2. }
  assert (length (chunks m) = Z.to_nat numCqChunks) as Hl by (cbn; by rewrite length_fmap, length_replicate).
  destruct (supply_all_spec _ (Z.to_nat (numCqChunks - 1)) m Hl ltac:(lia)) as (m' & -> & Hl' & Hu & Hf & Hc). cbn [mbind outcome_bind fst snd].
  eexists. split; [done|]. split; [|done].
  assert (∀ i, (i < Z.to_nat numCqChunks)%nat → chunks m' !! i = Some (set_next (new_chunk chunkSize) (next_word (seqZ 0 numCqChunks) i))) as Hm'.
  { intros i Hi. rewrite (Hc i _ (Hm i Hi) eq_refl). do 2 f_equal. unfold next_word. destruct (Nat.ltb_spec i (Z.to_nat (numCqChunks - 1))).
    - rewrite (lookup_seqZ_lt 0 numCqChunks (S i)) by lia. f_equal. lia.
    - by rewrite (lookup_seqZ_ge 0 numCqChunks (S i)) by lia. }
  assert (∀ i x, chunks m' !! i = Some x → ∃ w, x = set_next (new_chunk chunkSize) w) as Hall.
  { intros i x Hx. pose proof (lookup_lt_Some _ _ _ Hx). rewrite Hm' in Hx by lia. injection Hx as <-. eauto. }
  split.
  - split; cbn.
    + apply NoDup_seqZ.
    + apply Forall_seqZ. intros; lia.
    + rewrite length_seqZ. lia.
    + by repeat constructor.
    + constructor; [|done]. rewrite size_nil. pose proof (cf_size _ _ Hcfg). lia.
  - split; cbn.
    + done.
    + intros i x Hx. destruct (Hall i x Hx) as [w ->]. cbn. rewrite length_replicate. pose proof (cf_slack _ _ Hcfg). pose proof (cf_size _ _ Hcfg). lia.
    + intros i c Hi. apply lookup_seqZ in Hi as [-> Hi]. eexists. split; [apply Hm'; lia|]. split; [cbn; do 2 f_equal; lia|by rewrite Z.add_0_l, Nat2Z.id by lia; destruct i|].
      intros es Hes. apply list_lookup_singleton_Some in Hes as [_ <-]. done.
  - right. split; try done. cbn. rewrite lookup_seqZ_lt by lia. done.
  - split; cbn; try done.
    + rewrite head_lookup, lookup_seqZ_lt by lia. done.
    + rewrite last_lookup, length_seqZ, lookup_seqZ_lt by lia. f_equal. lia.
    + intros c Hcc. rewrite lookup_replicate_2 by lia. f_equal. unfold refs, on_list, held, at_pc. cbn. rewrite decide_True; [done|]. apply elem_of_seqZ. lia.
    + intros c Hcc. left. unfold refs, on_list, held, at_pc. cbn. rewrite decide_True; [done|]. apply elem_of_seqZ. lia.
  - done.
  - split; [|done]. cbn. by rewrite Hu.
  - done.
Qed.
Lemma reachable_state q : reachable chunkSize numCqChunks q → ∃ g, inv_at g q.
Proof using Hcfg.
  induction 1 as [q Hs|q ev q' _ [g Hi] He Hx].
  - destruct start_inv as (q' & Hs' & Hi & _). rewrite Hs in Hs'. injection Hs' as ->. eauto.
  - destruct (event_step g q ev Hi He) as [(g' & q'' & H & H')|[H _]]; [|congruence]. rewrite Hx in H. injection H as ->. eauto.
Qed.
End system.
