(* ===== verification/IpcQueueNotify.v ===== *)
(** * Completion queues: notifications

    What the dispatcher has not looked at yet is announced by a bit that it will see before
    it sleeps, and the kernel sleeps only while no chunk was supplied to it. *)
From Stdlib Require Import ZArith Lia ZifyBool.
From stdpp Require Import base list numbers option.
From S2P Require Import Prelude Checksum IpcQueue IpcQueueInv IpcQueueSteps IpcQueueUser IpcQueueSystem.
Open Scope Z_scope.

#[local] Arguments submit_length _ : simpl never.
#[local] Arguments size _ : simpl never.
#[local] Arguments has _ _ : simpl never.
#[local] Arguments without _ _ : simpl never.

(** The progress word calls for an action of the dispatcher. *)
Definition calls (u : Dispatcher) (p : Z) : bool :=
  negb (lastProgress u =? Z.land p kProgressMask) || has p kProgressDone || (has p kProgressFull && (retrieveChunk u =? tailChunk u)).
Definition attention (q : Queue) : bool :=
  match get_chunk (mem q) (retrieveChunk (disp q)) with Ret x => calls (disp q) (progressFutex x) | Stop _ => false end.
Definition announces (pc : kpc) : bool := match pc with KFullNotify | KDoneNotify _ | KNotify => true | _ => false end.
Definition raised (q : Queue) : bool :=
  has (userNotify (mem q)) kUserNotifyCqProgress || has (pendingNotify (disp q)) kUserNotifyCqProgress ||
  match u_pc (disp q) with UCheck n => has n kUserNotifyCqProgress | _ => false end || announces (k_pc (kern q)).
(** Program counters with the bit in [_pendingNotify], and those without it *)
Definition pends (pc : upc) : bool := match pc with UDone | UDequeue => true | _ => match moving pc with Some _ => true | None => false end end.
Definition settles (pc : upc) : bool := match pc with URunQueue | UDrive | UDriveCheck | UWaitIf | UAsleep => true | _ => false end.
Definition awaits (pc : kpc) : bool := match pc with KNextNotify | KNextWait | KNextAsleep => true | _ => false end.
Definition supplied (q : Queue) : bool := match get_chunk (mem q) (currentChunk (kern q)) with Ret x => has (next x) kNextPresent | Stop _ => false end.
Definition is_wake (pc : upc) : bool := match pc with UWake _ => true | _ => false end.
Definition is_drive (pc : upc) : bool := match pc with UWakeDrive _ => true | _ => false end.
Definition supply_bit (q : Queue) : bool := has (kernelNotify (mem q)) kKernelNotifySupplyCqChunks.
Record note_ok (q : Queue) : Prop := {
  no_raised : moving (u_pc (disp q)) = None → attention q = true → raised q = true;
  no_pends : pends (u_pc (disp q)) = true → has (pendingNotify (disp q)) kUserNotifyCqProgress = true;
  no_settles : settles (u_pc (disp q)) = true → has (pendingNotify (disp q)) kUserNotifyCqProgress = false;
  no_sleep : u_pc (disp q) = UAsleep → without (userNotify (mem q)) maskedNotify = 0;
  no_supplied : awaits (k_pc (kern q)) = true → supplied q = true → supply_bit q = true ∨ is_wake (u_pc (disp q)) = true;
  no_kasleep : k_pc (kern q) = KNextAsleep → supply_bit q = true → is_drive (u_pc (disp q)) = true;
}.

(** ** Bits *)
Lemma cq_of_lor a b : has (Z.lor a b) kUserNotifyCqProgress = has a kUserNotifyCqProgress || has b kUserNotifyCqProgress.
Proof. apply (has_lor _ _ 0). lia. Qed.
Lemma masked_no_cq w : without w maskedNotify = 0 → has w kUserNotifyCqProgress = false.
Proof.
  intros H. unfold kUserNotifyCqProgress. rewrite has_testbit by lia. assert (Z.testbit (without w maskedNotify) 0 = false) as F by (rewrite H; apply Z.bits_0).
  unfold without in F. rewrite Z.ldiff_spec in F. change (Z.testbit maskedNotify 0) with false in F. by rewrite andb_true_r in F.
Qed.
Lemma without_lor a b m : without (Z.lor a b) m = Z.lor (without a m) (without b m).
Proof. unfold without. apply Z.bits_inj'. intros i Hi. rewrite !Z.ldiff_spec, !Z.lor_spec, !Z.ldiff_spec. by destruct (Z.testbit a i), (Z.testbit b i), (Z.testbit m i). Qed.
Lemma has_lor_mono a b c : has a c = true → has (Z.lor a b) c = true.
Proof.
  unfold has. rewrite !negb_true_iff, !Z.eqb_neq. intros H E. apply H. apply Z.bits_inj'. intros i Hi. rewrite Z.land_spec, Z.bits_0.
  assert (Z.testbit (Z.land (Z.lor a b) c) i = false) as F by (rewrite E; apply Z.bits_0). rewrite Z.land_spec, Z.lor_spec in F. by destruct (Z.testbit a i), (Z.testbit b i), (Z.testbit c i).
Qed.
Lemma lor_absorbed w bit k : 0 ≤ k → bit = Z.shiftl 1 k → has w bit = true → Z.lor w bit = w.
Proof.
  intros Hk -> H. rewrite has_testbit in H by done. apply Z.bits_inj'. intros i Hi. rewrite Z.lor_spec, bit_one by done.
  destruct (Z.eqb_spec i k) as [->|]; [by rewrite H|by rewrite orb_false_r].
Qed.
Lemma cq_without w b : has b kUserNotifyCqProgress = false → has (without w b) kUserNotifyCqProgress = has w kUserNotifyCqProgress.
Proof. intros H. unfold kUserNotifyCqProgress in *. rewrite has_without by lia. by rewrite H, andb_true_r. Qed.
Lemma supply_lor a b : has (Z.lor a b) kKernelNotifySupplyCqChunks = has a kKernelNotifySupplyCqChunks || has b kKernelNotifySupplyCqChunks.
Proof. apply (has_lor _ _ 1). lia. Qed.

(** ** Frames *)
Definition raised_words (q : Queue) : bool := has (userNotify (mem q)) kUserNotifyCqProgress || has (pendingNotify (disp q)) kUserNotifyCqProgress.
(** A step of the kernel without accesses to the memory *)
Lemma note_kern q k : note_ok q → (announces (k_pc (kern q)) = true → announces (k_pc k) = true ∨ raised_words q = true) →
  (awaits (k_pc k) = true → currentChunk k = currentChunk (kern q) ∧ (awaits (k_pc (kern q)) = true ∨ supplied q = false)) →
  (k_pc k = KNextAsleep → k_pc (kern q) = KNextAsleep ∨ supply_bit q = false) → note_ok (with_kern q k).
Proof.
  intros [H1 H2 H3 H4 H5 H6] Ha Hw Hs. split; try done; cbn.
  - intros Hm Hat. specialize (H1 Hm Hat). unfold raised in *. cbn. unfold raised_words in Ha. destruct (announces (k_pc (kern q))) eqn:E; [|rewrite orb_false_r in H1; by rewrite H1].
    destruct (Ha eq_refl) as [->| ->]; [by rewrite orb_true_r|done].
  - intros Haw Hsu. destruct (Hw Haw) as [Ec [Ho|Hn]]; unfold supplied in *; cbn in Hsu; rewrite Ec in Hsu; [by apply H5|congruence].
  - intros E Hb. destruct (Hs E) as [Ho|Hn]; [by apply H6|]. unfold supply_bit in *. cbn in Hb. congruence.
Qed.
Lemma note_raise q : note_ok q → note_ok (raise_user q).
Proof.
  intros Hn. unfold raise_user. destruct (u_pc (disp q)) eqn:E; try done. destruct Hn as [H1 H2 H3 H4 H5 H6]. rewrite E in *. split; cbn; try done.
  - intros _ Hat. specialize (H1 eq_refl Hat). unfold raised in *. rewrite E in H1. done.
Qed.
Lemma note_userNotify q v : note_ok q → (has (userNotify (mem q)) kUserNotifyCqProgress = true → has v kUserNotifyCqProgress = true) →
  (u_pc (disp q) = UAsleep → without v maskedNotify = 0) → note_ok (with_mem q (set_userNotify (mem q) v)).
Proof.
  intros [H1 H2 H3 H4 H5 H6] Hv Hs. split; cbn; try done. intros Hm Hat. specialize (H1 Hm Hat). unfold raised in *. cbn.
  destruct (has (userNotify (mem q)) kUserNotifyCqProgress) eqn:E; [by rewrite Hv|]. destruct (has v kUserNotifyCqProgress); [done|exact H1].
Qed.
Lemma note_notify q bit k : 0 ≤ k → bit = Z.shiftl 1 k → note_ok q → note_ok (notify_user q bit).
Proof.
  intros Hk Eb Hn. unfold notify_user. destruct (has (userNotify (mem q)) bit) eqn:E.
  - rewrite (lor_absorbed _ _ k) by done. apply note_userNotify; [done|done|apply Hn].
  - unfold raise_user. cbn [disp with_mem]. destruct (u_pc (disp q)) eqn:Epc.
    all: try (apply note_userNotify; [done|intros; by apply has_lor_mono|by rewrite Epc]).
    destruct Hn as [H1 H2 H3 H4 H5 H6]. rewrite Epc in *. split; cbn; try done. intros _ Hat. specialize (H1 eq_refl Hat). unfold raised in *. cbn in *. rewrite Epc in H1.
    rewrite cq_of_lor. destruct (has (userNotify (mem q)) kUserNotifyCqProgress), (has (pendingNotify (disp q)) kUserNotifyCqProgress); cbn in *; rewrite ?H1, ?orb_true_r; done.
Qed.

(** ** The kernel *)
Lemma notify_sets q : has (userNotify (mem (notify_user q kUserNotifyCqProgress))) kUserNotifyCqProgress = true.
Proof.
  assert (has (Z.lor (userNotify (mem q)) kUserNotifyCqProgress) kUserNotifyCqProgress = true) as H by (rewrite cq_of_lor; apply orb_true_r).
  unfold notify_user, raise_user. destruct (has (userNotify (mem q)) _); [done|]. cbn [disp with_mem]. by destruct (u_pc (disp q)).
Qed.
Lemma note_notified q k : note_ok q → announces (k_pc k) = false → awaits (k_pc k) = false → note_ok (with_kern (notify_user q kUserNotifyCqProgress) k).
Proof.
  intros Hn Ha Hw. apply note_kern.
  - by apply (note_notify _ _ 0).
  - intros _. right. unfold raised_words. by rewrite notify_sets.
  - congruence.
  - intros E. by rewrite E in Hw.
Qed.
(** A store to a chunk that the kernel announces afterwards *)
Lemma note_store q m k sub : note_ok q → (∃ c x, m = set_chunk (mem q) c x) → announces (k_pc k) = true → note_ok (MkQueue m k (disp q) sub (delivered q)).
Proof.
  intros [H1 H2 H3 H4 H5 H6] (c & x & ->) Ha. split; cbn; try done.
  - intros _ _. unfold raised. cbn. rewrite Ha. apply orb_true_r.
  - intros Hw. by destruct (k_pc k).
  - intros E. by rewrite E in Ha.
Qed.
Lemma get_chunk_set m c x d : get_chunk (set_chunk m c x) d = if 0 <=? d then if decide (Z.to_nat d = c) then (if decide (c < length (chunks m))%nat then Ret x else get_chunk m d) else get_chunk m d else get_chunk m d.
Proof.
  unfold get_chunk. cbn. destruct (0 <=? d); [|done]. destruct (decide (Z.to_nat d = c)) as [->|Hne]; [|by rewrite list_lookup_insert_ne].
  destruct (decide _) as [Hlt|Hge]; [by rewrite list_lookup_insert_eq|]. by rewrite list_insert_ge by lia.
Qed.
(** A store to a field that nobody waits for *)
Lemma get_chunk_field {A} (p : ChunkStruct → A) m c x x' d : chunks m !! c = Some x → p x' = p x →
  match get_chunk (set_chunk m c x') d with Ret y => Some (p y) | Stop _ => None end = match get_chunk m d with Ret y => Some (p y) | Stop _ => None end.
Proof.
  intros Hx Hp. rewrite get_chunk_set. unfold get_chunk. destruct (0 <=? d); [|done]. destruct (decide (Z.to_nat d = c)) as [->|]; [|done].
  destruct (decide _) as [|Hge]; [by rewrite Hx, Hp|done].
Qed.
Definition word_at {A} (p : ChunkStruct → A) (m : Memory) (d : Z) : option A := match get_chunk m d with Ret y => Some (p y) | Stop _ => None end.
Lemma attention_word q : attention q = match word_at progressFutex (mem q) (retrieveChunk (disp q)) with Some p => calls (disp q) p | None => false end.
Proof. unfold attention, word_at. by destruct (get_chunk _ _). Qed.
Lemma supplied_word q : supplied q = match word_at next (mem q) (currentChunk (kern q)) with Some w => has w kNextPresent | None => false end.
Proof. unfold supplied, word_at. by destruct (get_chunk _ _). Qed.
Lemma note_kclear q v k : note_ok q → announces (k_pc (kern q)) = false → awaits (k_pc k) = false → note_ok (with_kern (with_mem q (set_kernelNotify (mem q) v)) k).
Proof.
  intros [H1 H2 H3 H4 H5 H6] Ha Hw. split; cbn; try done.
  - intros Hm Hat. specialize (H1 Hm Hat). unfold raised in *. cbn. rewrite Ha, orb_false_r in H1. by rewrite H1.
  - intros Hx. congruence.
  - intros E. by rewrite E in Hw.
Qed.
(** A jump to where the kernel neither announces nor waits *)
Lemma note_kjump q k : note_ok q → announces (k_pc (kern q)) = false → awaits (k_pc k) = false → note_ok (with_kern q k).
Proof. intros Hn Ha Hw. apply note_kern; [done|congruence|congruence|]. intros E. by rewrite E in Hw. Qed.
Lemma notify_keeps q bit : has (userNotify (mem q)) kUserNotifyCqProgress = true → has (userNotify (mem (notify_user q bit))) kUserNotifyCqProgress = true.
Proof.
  intros H. unfold notify_user, raise_user. destruct (has (userNotify (mem q)) bit); [by apply has_lor_mono|]. cbn [disp with_mem]. destruct (u_pc (disp q)); by apply has_lor_mono.
Qed.
(** A store to the contents of a chunk *)
Lemma note_words q c x x' : note_ok q → chunks (mem q) !! c = Some x → next x' = next x → progressFutex x' = progressFutex x → note_ok (with_mem q (set_chunk (mem q) c x')).
Proof.
  intros [H1 H2 H3 H4 H5 H6] Hx En Ep. split; try done.
  - intros Hm Hat. rewrite attention_word in *. apply H1; [done|]. cbn in Hat. unfold word_at in *. by rewrite (get_chunk_field progressFutex _ _ x) in Hat.
  - intros Hw Hs. rewrite supplied_word in *. apply H5; [done|]. cbn in Hs. unfold word_at in *. by rewrite (get_chunk_field next _ _ x) in Hs.
Qed.
Lemma note_kstep chunkSize numCqChunks q q' : note_ok q → kstep chunkSize numCqChunks q = Ret q' → note_ok q'.
Proof.
  intros Hn. unfold kstep. destruct (k_pc (kern q)) eqn:E.
  all: try (by intros [= <-]).
  - destruct (has _ _); [destruct (isValidCqChunk _ _)|]; intros [= <-].
    + apply note_kjump; [done|by rewrite E|]. cbn. unfold k_enter. by destruct (_ <? _).
    + apply note_kjump; rewrite ?kern_notify, ?E; [by apply (note_notify _ _ 14)|done|done].
    + apply note_kjump; by rewrite ?E.
  - intros [= <-]. apply note_kjump; rewrite ?E; try done. cbn. by destruct (has _ _).
  - intros [= <-]. apply note_kjump; rewrite ?E; try done. cbn. by destruct (has _ _).
  - intros [= <-]. apply note_kclear; by rewrite ?E.
  - intros (q1 & H & [= <-])%bind_Ret. unfold store_progress in H. apply bind_Ret in H as (m & (x & x' & Hx & _ & _ & ->)%on_chunk_inv & [= <-]). apply (note_store q); [done|eauto|done].
  - intros [= <-]. by apply note_notified.
  - intros (x & Hx & [= <-])%bind_Ret. destruct (has (next x) kNextPresent) eqn:Hp.
    + apply note_kjump; by rewrite ?E.
    + apply note_kern; cbn; rewrite ?E; try done. intros _. split; [done|]. right. unfold supplied. by rewrite Hx.
  - intros [= <-]. destruct (has _ _).
    + apply note_kjump; by rewrite ?E.
    + apply note_kern; cbn; rewrite ?E; try done. by auto.
  - intros [= <-]. destruct (has (kernelNotify (mem q)) kKernelNotifySupplyCqChunks) eqn:Hb.
    + apply note_kjump; by rewrite ?E.
    + apply note_kern; cbn; rewrite ?E; try done; by auto.
  - intros [= <-]. apply note_kclear; by rewrite ?E.
  - intros (q1 & H & [= <-])%bind_Ret. unfold store_progress in H. apply bind_Ret in H as (m & (x & x' & Hx & _ & _ & ->)%on_chunk_inv & [= <-]). apply (note_store q); [done|eauto|done].
  - destruct (isValidCqChunk _ _); intros [= <-].
    + by apply note_notified.
    + apply note_kern; try done.
      * apply (note_notify _ _ 14); [done|done|]. apply note_kern; [by apply (note_notify _ _ 0)|by left|..]; cbn; by rewrite !kern_notify, E.
      * intros _. right. unfold raised_words. by rewrite notify_keeps by apply notify_sets.
  - intros (m & (x & x' & Hx & Hc & Hf & ->)%on_chunk_inv & [= <-])%bind_Ret. apply bind_Ret in Hf as (b1 & _ & (b2 & _ & [= <-])%bind_Ret).
    apply (note_kjump (with_mem q _)); [|by cbn; rewrite E|done]. by apply (note_words q _ x).
  - intros (q1 & H & [= <-])%bind_Ret. unfold store_progress in H. apply bind_Ret in H as (m & (x & x' & Hx & _ & _ & ->)%on_chunk_inv & [= <-]). apply (note_store q); [done|eauto|done].
  - intros [= <-]. by apply note_notified.
Qed.

(** ** The dispatcher *)
Lemma note_disp q u : note_ok q → is_wake (u_pc (disp q)) = false → is_drive (u_pc (disp q)) = false →
  (moving (u_pc u) = None → attention (with_disp q u) = true → raised (with_disp q u) = true) →
  (pends (u_pc u) = true → has (pendingNotify u) kUserNotifyCqProgress = true) → (settles (u_pc u) = true → has (pendingNotify u) kUserNotifyCqProgress = false) →
  (u_pc u = UAsleep → without (userNotify (mem q)) maskedNotify = 0) → note_ok (with_disp q u).
Proof.
  intros [H1 H2 H3 H4 H5 H6] Hw Hd Hr Hp Hs Hz. split; try done; cbn.
  - intros Ha Hsu. destruct (H5 Ha Hsu) as [H|H]; [by left|congruence].
  - intros Ha Hsu. specialize (H6 Ha Hsu). congruence.
Qed.
(** The dispatcher keeps its position and its pending bits. *)
Record same_view (u u' : Dispatcher) : Prop := {
  sv_retrieve : retrieveChunk u' = retrieveChunk u;
  sv_tail : tailChunk u' = tailChunk u;
  sv_last : lastProgress u' = lastProgress u;
  sv_pending : pendingNotify u' = pendingNotify u;
}.
Lemma attention_view q u : same_view (disp q) u → attention (with_disp q u) = attention q.
Proof. intros [H1 H2 H3 H4]. unfold attention, calls. cbn. by rewrite H1, H2, H3. Qed.
Lemma raised_view q u : same_view (disp q) u → raised q = true →
  match u_pc (disp q) with UCheck n => has n kUserNotifyCqProgress = false ∨ has (userNotify (mem q)) kUserNotifyCqProgress = true ∨ has (pendingNotify u) kUserNotifyCqProgress = true | _ => True end →
  raised (with_disp q u) = true.
Proof.
  intros [_ _ _ H4] Hr Hpc. unfold raised in *. cbn. rewrite H4 in *. destruct (has (userNotify (mem q)) _), (has (pendingNotify (disp q)) _); try done. cbn in *.
  destruct (announces _); [by rewrite orb_true_r|]. rewrite orb_false_r in *. destruct (u_pc (disp q)); try done. destruct Hpc as [H|[H|H]]; congruence.
Qed.
Definition is_check (pc : upc) : bool := match pc with UCheck _ => true | _ => false end.
(** A jump without an effect on what is announced *)
Lemma note_view q u : note_ok q → same_view (disp q) u → is_wake (u_pc (disp q)) = false → is_drive (u_pc (disp q)) = false → is_check (u_pc (disp q)) = false →
  (moving (u_pc u) = None → moving (u_pc (disp q)) = None) → (pends (u_pc u) = true → pends (u_pc (disp q)) = true) →
  (settles (u_pc u) = true → settles (u_pc (disp q)) = true) → (u_pc u = UAsleep → without (userNotify (mem q)) maskedNotify = 0) → note_ok (with_disp q u).
Proof.
  intros Hn Hv Hw Hd Hc Hm Hp Hs Hz. apply note_disp; [done|done|done|..|done].
  - intros Hmu. rewrite (attention_view _ _ Hv). intros Ha. apply raised_view; [done|apply (no_raised _ Hn); auto|]. by destruct (u_pc (disp q)).
  - rewrite (sv_pending _ _ Hv). intros H. apply (no_pends _ Hn). auto.
  - rewrite (sv_pending _ _ Hv). intros H. apply (no_settles _ Hn). auto.
Qed.
(** The end of a release *)
Lemma note_resume q u k : note_ok q → same_view (disp q) u → is_wake (u_pc (disp q)) = false → is_drive (u_pc (disp q)) = false → is_check (u_pc (disp q)) = false →
  moving (u_pc (disp q)) = match k with ThenWait c => Some c | ThenIdle => None end → note_ok (with_disp q (resume u k)).
Proof.
  intros Hn Hv Hw Hd Hc Hm. destruct k as [c|].
  - assert (has (pendingNotify u) kUserNotifyCqProgress = true) as Hp.
    { rewrite (sv_pending _ _ Hv). apply (no_pends _ Hn). unfold pends. rewrite Hm. by destruct (u_pc (disp q)). }
    apply note_disp; try done. intros _ _. unfold raised. cbn. rewrite Hp. by rewrite !orb_true_r.
  - apply note_view; try done. by destruct Hv.
Qed.
Lemma note_pending q u : note_ok q → is_wake (u_pc (disp q)) = false → is_drive (u_pc (disp q)) = false →
  has (pendingNotify u) kUserNotifyCqProgress = true → settles (u_pc u) = false → note_ok (with_disp q u).
Proof.
  intros Hn Hw Hd Hp Hs. apply note_disp; try done.
  - intros _ _. unfold raised. cbn. rewrite Hp. by rewrite !orb_true_r.
  - congruence.
  - intros E. by rewrite E in Hs.
Qed.

Section notify.
Context (chunkSize numCqChunks : Z) (Hcfg : config_ok chunkSize numCqChunks).
Notation inv_at := (inv_at chunkSize numCqChunks).
Lemma attention_ghost g q : inv_at g q → moving (u_pc (disp q)) = None → attention q = true ↔ fresh g = true ∨ finished g = true ∨ overrun g q.
Proof using Hcfg.
  intros Hi Hm. destruct (user_cell _ _ g q Hi Hm) as (x & Hr & Hl & Hx & Hcell). pose proof (in_user _ _ _ _ Hi) as Hu. pose proof (in_ghost _ _ _ _ Hi) as Hg.
  unfold attention. rewrite (get_chunk_Ret _ _ x) by (lia || done). unfold calls. rewrite (ce_progress _ _ _ _ _ _ Hcell).
  destruct (user_word _ _ Hcfg g (kfull (k_pc (kern q))) Hg) as (Hw1 & Hw2 & Hw3 & _). cbn zeta in *. rewrite Hw1, Hw2, Hw3.
  pose proof (uo_cursor _ _ _ Hu) as Hc. rewrite Hm in Hc. destruct Hc as [Hhd Hlast]. pose proof (size_take_eq _ _ (uo_taken _ _ _ Hu)) as Heq. pose proof (uo_taken _ _ _ Hu) as Htk.
  assert (fresh g = negb (lastProgress (disp q) =? size (user_sent g))) as -> by (unfold fresh; lia). rewrite !orb_true_iff, andb_true_iff.
  assert (full_tail : (kfull (k_pc (kern q)) || finished g = true ∧ retrieveChunk (disp q) =? tailChunk (disp q) = true) ↔ (finished g = true ∧ g_live g = [retrieveChunk (disp q)]) ∨ overrun g q).
  { assert ((retrieveChunk (disp q) =? tailChunk (disp q)) = true ↔ g_live g = [retrieveChunk (disp q)]) as ->.
    { rewrite Z.eqb_eq. split; [apply (head_not_tail _ _ g _ _ Hg Hhd (uo_tail _ _ _ Hu))|]. intros El. pose proof (uo_tail _ _ _ Hu) as Htl. rewrite El in Htl. by injection Htl. }
    unfold overrun. destruct (kfull _), (finished g); cbn; naive_solver. }
  rewrite full_tail. tauto.
Qed.
Lemma note_check g q n q' : inv_at g q → note_ok q → u_pc (disp q) = UCheck n → checked g q n (Ret q') → note_ok q'.
Proof using Hcfg.
  intros Hi Hn E Hch. inversion Hch as [pend Hcq Hf Hov Eq|pend Hcq Hf Hfin Eq|pend Hno Eq|]; subst q'.
  - apply note_pending; rewrite ?E; done.
  - apply note_pending; rewrite ?E; done.
  - assert (has (without pend relevantNotify) kUserNotifyCqProgress = false) as Hcl.
    { unfold kUserNotifyCqProgress. rewrite has_without by lia. change (has relevantNotify (Z.shiftl 1 0)) with true. by rewrite andb_false_r. }
    apply note_disp; rewrite ?E; try done; cbn.
    + intros _ Ha. assert (attention q = true) as Ha' by exact Ha. destruct (has pend kUserNotifyCqProgress) eqn:Hp.
      * destruct (Hno eq_refl) as (H1 & H2 & H3). destruct (proj1 (attention_ghost g q Hi ltac:(by rewrite E)) Ha') as [H|[H|H]]; [congruence|congruence|done].
      * pose proof (no_raised _ Hn ltac:(by rewrite E) Ha') as Hr. unfold raised in Hr |- *. cbn. rewrite E in Hr. unfold pend in Hp. rewrite cq_of_lor in Hp. apply orb_false_iff in Hp as [Hp1 Hp2].
        rewrite Hp1, Hp2, !orb_false_r in Hr. apply orb_true_iff in Hr as [->| ->]; [done|by rewrite !orb_true_r].
    + by destruct (_ =? 0).
    + by destruct (_ =? 0).
Qed.
Lemma note_raiseCq q : note_ok q → note_ok (raiseCqEvent q).
Proof. intros Hn. unfold raiseCqEvent. destruct (k_pc (kern q)) eqn:E; try done; apply note_kjump; by rewrite ?E. Qed.
Lemma same_view_refl u pc : same_view u (set_upc u pc).
Proof. done. Qed.
Lemma recycled_not_read g q cn : inv_at g q → recycling (u_pc (disp q)) = Some cn → moving (u_pc (disp q)) = None → 0 ≤ cn ∧ 0 ≤ retrieveChunk (disp q) ∧ cn ≠ retrieveChunk (disp q).
Proof.
  intros Hi Hr Hm. destruct (recycling_free _ g (disp q) cn (in_user _ _ _ _ Hi) Hr) as (H1 & H2 & _). destruct (user_cell _ _ g q Hi Hm) as (x & H3 & H4 & _).
  split; [lia|]. split; [lia|]. intros ->. by apply H2, (list_elem_of_lookup_2 _ _ _ H4).
Qed.
Lemma note_resetNext q c x : note_ok q → is_wake (u_pc (disp q)) = false → chunks (mem q) !! c = Some x → note_ok (with_mem q (set_chunk (mem q) c (set_next x 0))).
Proof.
  intros [H1 H2 H3 H4 H5 H6] Hw Hx. split; try done.
  - intros Hm Hat. rewrite attention_word in *. apply H1; [done|]. cbn in Hat. unfold word_at in *. by rewrite (get_chunk_field progressFutex _ _ x) in Hat.
  - intros Haw Hs. apply H5; [done|]. unfold supplied in *. cbn in Hs. rewrite get_chunk_set in Hs. destruct (0 <=? _); [|done]. destruct (decide _); [|done]. by destruct (decide _).
Qed.
Lemma note_resetProgress q c x : note_ok q → (moving (u_pc (disp q)) = None → 0 ≤ retrieveChunk (disp q) ∧ Z.to_nat (retrieveChunk (disp q)) ≠ c) → chunks (mem q) !! c = Some x →
  note_ok (with_mem q (set_chunk (mem q) c (set_progress x 0))).
Proof.
  intros [H1 H2 H3 H4 H5 H6] Hne Hx. split; try done.
  - intros Hm Hat. destruct (Hne Hm) as [_ Hne']. apply H1; [done|]. unfold attention in *. cbn in Hat. rewrite get_chunk_set in Hat. rewrite decide_False in Hat by done. by destruct (0 <=? _).
  - intros Haw Hs. apply H5; [done|]. rewrite supplied_word in *. cbn in Hs. unfold word_at in *. by rewrite (get_chunk_field next _ _ x) in Hs.
Qed.
Lemma note_supply q c x w cn k : note_ok q → u_pc (disp q) = USupply cn k → (moving (u_pc (disp q)) = None → cn ≠ retrieveChunk (disp q)) → chunks (mem q) !! c = Some x →
  note_ok (with_disp (with_mem q (set_chunk (mem q) c (set_next x w))) (set_upc (set_tail (disp q) cn) (UWake k))).
Proof.
  intros [H1 H2 H3 H4 H5 H6] E Hne Hx. rewrite E in *. split; cbn; try done.
  - intros Hm Hat. assert (moving (USupply cn k) = None) as Hm' by (by destruct k). specialize (Hne Hm').
    assert (attention q = true) as Ha.
    { rewrite attention_word in *. cbn in Hat. unfold word_at in *. rewrite (get_chunk_field progressFutex _ _ x) in Hat by done. destruct (get_chunk _ _) as [y|]; [|done].
      unfold calls in *. cbn in Hat. rewrite (proj2 (Z.eqb_neq (retrieveChunk (disp q)) cn)), andb_false_r, orb_false_r in Hat by done. by rewrite Hat. }
    specialize (H1 Hm' Ha). unfold raised in *. cbn in *. by rewrite E in H1.
  - by right.
Qed.
Lemma note_wake q k : note_ok q → u_pc (disp q) = UWake k →
  let q1 := with_mem q (set_kernelNotify (mem q) (Z.lor (kernelNotify (mem q)) kKernelNotifySupplyCqChunks)) in
  note_ok (with_disp q1 (if supply_bit q then resume (disp q) k else set_upc (disp q) (UWakeDrive k))).
Proof.
  intros [H1 H2 H3 H4 H5 H6] E. cbn zeta. rewrite E in *. set (m := set_kernelNotify _ _).
  assert (∀ pc, is_drive pc = true ∨ supply_bit q = true → moving pc = moving (UWake k) → settles pc = false → (pends pc = true → moving pc ≠ None) →
    note_ok (with_disp (with_mem q m) (set_upc (disp q) pc))) as Hgen.
  { intros pc Hdr Hm Hs Hp. split; cbn; try done.
    - intros Hm' Ha. rewrite Hm in Hm'. specialize (H1 Hm' Ha). unfold raised in *. cbn. rewrite E in H1. rewrite orb_false_r in H1. destruct (has (userNotify (mem q)) _), (has (pendingNotify (disp q)) _); try done. cbn in H1. rewrite H1. apply orb_true_r.
    - intros H. apply H2. specialize (Hp H). rewrite Hm in Hp. unfold pends. by destruct (moving (UWake k)).
    - congruence.
    - intros ->. done.
    - intros _ _. left. unfold supply_bit. cbn. rewrite supply_lor. apply orb_true_r.
    - intros Ek Hb. destruct Hdr as [H|H]; [done|]. by specialize (H6 Ek H). }
  destruct (supply_bit q) eqn:Eb.
  - destruct k as [c|]; cbn [resume]; [|apply Hgen; auto].
    assert (has (pendingNotify (disp q)) kUserNotifyCqProgress = true) as Hp by (by apply H2). split; cbn; try done.
    + intros _ _. unfold raised. cbn. rewrite Hp. by rewrite !orb_true_r.
    + intros _ _. left. unfold supply_bit. cbn. rewrite supply_lor. apply orb_true_r.
    + intros Ek Hb. by specialize (H6 Ek eq_refl).
  - apply Hgen; [by left|by destruct k|done|]. unfold pends. cbn. by destruct k.
Qed.
Lemma note_wakeDrive q k : note_ok q → u_pc (disp q) = UWakeDrive k → note_ok (with_disp (raiseCqEvent q) (resume (disp q) k)).
Proof.
  intros Hn E. pose proof (note_raiseCq q Hn) as [H1 H2 H3 H4 H5 H6]. assert (k_pc (kern (raiseCqEvent q)) ≠ KNextAsleep) as Hk by (unfold raiseCqEvent; destruct (k_pc (kern q)) eqn:Ek; cbn; congruence).
  assert (mem (raiseCqEvent q) = mem q) as Em by (unfold raiseCqEvent; by destruct (k_pc (kern q))).
  rewrite disp_raiseCq, E in *. split; cbn.
  - destruct k as [c|]; cbn.
    + intros _ _. unfold raised. cbn. rewrite (H2 eq_refl). by rewrite !orb_true_r.
    + intros _ Ha. assert (attention (raiseCqEvent q) = true) as Ha'. { unfold attention in *. cbn in Ha. by rewrite disp_raiseCq. }
      specialize (H1 eq_refl Ha'). unfold raised in *. rewrite disp_raiseCq, E in H1. done.
  - by destruct k.
  - by destruct k.
  - by destruct k.
  - intros Ha Hs. left. destruct (H5 Ha Hs) as [H|H]; [|done]. done.
  - done.
Qed.
Lemma note_clear q bits : note_ok q → u_pc (disp q) = UClear bits →
  note_ok (u_goto (with_mem q (set_userNotify (mem q) (without (userNotify (mem q)) bits))) (UCheck (userNotify (mem q)))).
Proof.
  intros [H1 H2 H3 H4 H5 H6] E. rewrite E in *. split; cbn; try done. intros _ Ha. specialize (H1 eq_refl Ha). unfold raised in *. cbn. rewrite E, orb_false_r in H1.
  destruct (has (userNotify (mem q)) kUserNotifyCqProgress); [by rewrite !orb_true_r|]. cbn in H1. destruct (has (pendingNotify (disp q)) _); [by rewrite orb_true_r|]. cbn in H1. rewrite H1. by rewrite !orb_true_r.
Qed.
Lemma note_ustep g q rq q' : inv_at g q → note_ok q → ustep q rq = Ret q' → note_ok q'.
Proof using Hcfg.
  intros Hi Hn. unfold ustep. destruct (u_pc (disp q)) eqn:E.
  all: try (by intros [= <-]).
  - intros [= <-]. apply note_view; rewrite ?E; try done; cbn; by destruct rq.
  - intros [= <-]. apply note_disp; rewrite ?E; try done. cbn. intros _ Ha. pose proof (no_raised _ Hn ltac:(by rewrite E) Ha) as Hr. unfold raised in *. cbn. rewrite E, orb_false_r in Hr.
    destruct (has (userNotify (mem q)) _), (has (pendingNotify (disp q)) _); done.
  - intros Hq. apply (note_check g q notify); try done. rewrite <- Hq. by apply (check_spec chunkSize numCqChunks).
  - intros [= <-]. apply (note_clear q bits); done.
  - intros [= <-]. apply note_view; rewrite ?E; try done; cbn; by destruct rq.
  - intros [= <-]. apply note_view; rewrite ?disp_raiseCq, ?E; try done. by apply note_raiseCq.
  - intros [= <-]. apply note_view; rewrite ?E; try done; cbn; by destruct (_ =? _).
  - intros [= <-]. apply note_view; rewrite ?E; try done; cbn; destruct (Z.eqb_spec (without (userNotify (mem q)) maskedNotify) 0); done.
  - intros (x & _ & [= <-])%bind_Ret. apply note_pending; rewrite ?E; try done. cbn. by apply (no_pends _ Hn); rewrite E.
  - intros (r & _ & H)%bind_Ret. destruct (0 <? r); [|done]. injection H as <-. destruct (1 <? r).
    + apply note_resume; rewrite ?E; done.
    + apply note_view; rewrite ?E; done.
  - intros (m & (x & x' & Hx & _ & [= <-] & ->)%on_chunk_inv & [= <-])%bind_Ret. apply (note_view (with_mem q _)); cbn; rewrite ?E; try done. apply note_resetNext; by rewrite ?E.
  - intros (m & (x & x' & Hx & _ & [= <-] & ->)%on_chunk_inv & [= <-])%bind_Ret. apply (note_view (with_mem q _)); cbn; rewrite ?E; try done. apply note_resetProgress; [done| |done].
    intros Hm. destruct (recycled_not_read g q cn Hi ltac:(by rewrite E) Hm) as (H1 & H2 & H3). lia.
  - intros (m & (x & x' & Hx & _ & [= <-] & ->)%on_chunk_inv & [= <-])%bind_Ret. apply note_supply; try done.
    intros Hm. destruct (recycled_not_read g q cn Hi ltac:(by rewrite E) Hm) as (H1 & H2 & H3). lia.
  - intros [= <-]. by apply note_wake.
  - intros [= <-]. by apply note_wakeDrive.
  - intros (x & _ & H)%bind_Ret. apply bind_Ret in H as (hd & _ & H). apply bind_Ret in H as (data & _ & H). apply bind_Ret in H as (r & _ & [= <-]).
    match goal with |- note_ok (MkQueue _ _ ?u _ _) => assert (note_ok (with_disp q u)) as Hn' end.
    { apply note_pending; rewrite ?E; try done. cbn. by apply (no_pends _ Hn); rewrite E. }
    destruct Hn'. by split.
Qed.
End notify.
