(* ===== verification/IpcQueueThms.v ===== *)
(** * Completion queues: the theorems

    Elements arrive in the order of their submission with the data that was submitted, the
    data of an element stays in place while a handle to it exists, nobody sleeps while there
    is something to do, and [Dispatcher::wait] returns with the next element. *)
From Stdlib Require Import ZArith Lia ZifyBool.
From stdpp Require Import base list numbers option.
From S2P Require Import Prelude Checksum IpcQueue IpcQueueInv IpcQueueSteps IpcQueueUser IpcQueueSystem IpcQueueNotify.
Open Scope Z_scope.

#[local] Arguments submit_length _ : simpl never.
#[local] Arguments size _ : simpl never.
#[local] Arguments has _ _ : simpl never.
#[local] Arguments without _ _ : simpl never.

(** What a handle gives access to *)
Definition handle_data (m : Memory) (h : ElementHandle) : outcome (list Z) := x ← get_chunk m (h_chunk h); get (buffer x) (h_offset h) (h_length h).
(** An element arrives as it was submitted. *)
Definition arrives (sub : list (list Z) * Z) (del : Z * list Z) : Prop := del.1 = sub.2 ∧ carries del.2 sub.1.

Section theorems.
Context (chunkSize numCqChunks : Z).
Notation inv_at := (inv_at chunkSize numCqChunks).
Fixpoint run (q : Queue) (evs : list event) : outcome Queue :=
  match evs with [] => Ret q | ev :: evs => q ← exec chunkSize numCqChunks q ev; run q evs end.
(** Executions during which a handle exists *)
Inductive holding (h : ElementHandle) (q : Queue) : Queue → Prop :=
| holding_refl : holding h q q
| holding_step q1 ev q2 : holding h q q1 → h ∈ handles (disp q1) → enabled chunkSize q1 ev = true → exec chunkSize numCqChunks q1 ev = Ret q2 → holding h q q2.

Section config.
Context (Hcfg : config_ok chunkSize numCqChunks).

(** ** Notifications *)
Lemma note_kernelNotify q v : note_ok q → has v kKernelNotifySupplyCqChunks = supply_bit q → note_ok (with_mem q (set_kernelNotify (mem q) v)).
Proof. intros [H1 H2 H3 H4 H5 H6] E. split; try done; unfold supply_bit in *; cbn; by rewrite E. Qed.
Lemma note_exec g q ev q' : inv_at g q → note_ok q → enabled chunkSize q ev = true → exec chunkSize numCqChunks q ev = Ret q' → note_ok q'.
Proof using Hcfg.
  intros Hi Hn He. destruct ev as [sources ctx| | |rq|i|i| | |set|set]; cbn [exec enabled] in *.
  - unfold submit_begin. destruct (submit_length _ <=? _); [|done]. intros [= <-]. rewrite !andb_true_iff in He. destruct He as [[[He _] _] _]. unfold is_kidle in He. destruct (k_pc (kern q)) eqn:E; try done.
    apply note_kjump; [done|by rewrite E|]. cbn. destruct (haveCqChunk _); [|done]. unfold k_enter. by destruct (_ <? _).
  - by apply note_kstep.
  - intros [= <-]. apply idle_user in He. by apply note_view; rewrite ?He.
  - by apply (note_ustep _ _ Hcfg g).
  - apply andb_true_iff in He as [He _]. apply idle_user in He. unfold copy_handle. destruct (handles (disp q) !! i) as [h|]; [|by intros [= <-]].
    intros (r & _ & [= <-])%bind_Ret. apply note_view; cbn; rewrite ?He; done.
  - apply andb_true_iff in He as [He _]. apply idle_user in He. intros [= <-]. unfold drop_handle. destruct (handles (disp q) !! i) as [h|]; [|done].
    apply note_view; cbn; rewrite ?He; done.
  - intros [= <-]. by apply note_raise.
  - intros [= <-]. by apply (note_notify _ _ 15).
  - destruct set; intros [= <-]; [by apply (note_notify _ _ 1)|]. apply note_userNotify; [done|by rewrite cq_without|]. intros E.
    pose proof (no_sleep _ Hn E) as H. apply subbits_spec. unfold without. intros i Hi0. rewrite Z.ldiff_spec. intros [Hb _]%andb_true_iff. by apply (proj1 (subbits_spec _ _) H).
  - destruct set; intros [= <-]; apply note_kernelNotify; try done; unfold supply_bit.
    + rewrite supply_lor. apply orb_false_r.
    + unfold kKernelNotifySupplyCqChunks. rewrite has_without by lia. change (has kKernelNotifySqProgress (Z.shiftl 1 1)) with false. apply andb_true_r.
Qed.
Lemma reachable_note q : reachable chunkSize numCqChunks q → ∃ g, inv_at g q ∧ note_ok q.
Proof using Hcfg.
  induction 1 as [q Hs|q ev q' _ (g & Hi & Hn) He Hx].
  - destruct (start_inv _ _ Hcfg) as (q' & Hs' & Hi & Ek & Ep & Eu). rewrite Hs in Hs'. injection Hs' as <-. exists (start_ghost numCqChunks). split; [done|].
    split; rewrite ?Eu, ?Ek; try done. intros Hm Ha. apply (attention_ghost _ _ Hcfg (start_ghost numCqChunks) q Hi) in Ha as [H|[H|H]]; [done|done| |by rewrite Eu].
    destruct H as [H _]. by rewrite Ek in H.
  - destruct (event_step _ _ Hcfg g q ev Hi He) as [(g' & q'' & H & H')|[H _]]; [|congruence]. rewrite Hx in H. injection H as <-. exists g'. split; [done|]. by apply (note_exec g q ev).
Qed.
(** Without a bit that announces something there is nothing to look at. *)
Lemma asleep_quiet g q : inv_at g q → note_ok q → u_pc (disp q) = UAsleep → announces (k_pc (kern q)) = false → fresh g = false ∧ finished g = false ∧ ¬ overrun g q.
Proof using Hcfg.
  intros Hi Hn E Ha. pose proof (attention_ghost _ _ Hcfg g q Hi ltac:(by rewrite E)) as Hat.
  assert (attention q = false) as Hf.
  { destruct (attention q) eqn:Eat; [|done]. pose proof (no_raised _ Hn ltac:(by rewrite E) Eat) as Hr. unfold raised in Hr.
    rewrite (masked_no_cq _ (no_sleep _ Hn E)), (no_settles _ Hn), E, Ha in Hr by (by rewrite E). done. }
  rewrite Hf in Hat. destruct (fresh g), (finished g); try (exfalso; by discriminate (proj2 Hat ltac:(auto))). split; [done|]. split; [done|].
  intros Hov. by discriminate (proj2 Hat ltac:(auto)).
Qed.
Lemma all_delivered g q : inv_at g q → fresh g = false → finished g = false → length (delivered q) = length (submitted q).
Proof.
  intros Hi Hf Hd. destruct (in_trace _ _ _ _ Hi) as (-> & -> & _). pose proof (uo_taken _ _ _ (in_user _ _ _ _ Hi)) as Ht. rewrite !length_fmap, !length_app, length_take.
  unfold finished, user_sent in *. unfold fresh, user_sent in Hf. destruct (g_front g); [|done]. apply Nat.ltb_ge in Hf. cbn in *. rewrite app_nil_r. lia.
Qed.
Lemma kernel_supplied g q : inv_at g q → kfull (k_pc (kern q)) = true → finished g = false → ¬ overrun g q → moving (u_pc (disp q)) = None → supplied q = true.
Proof.
  intros Hi Hf Hd Hov Hm. assert (at_cursor g (kern q) (size (g_cur g))) as Hc.
  { pose proof (in_kernel _ _ _ _ Hi) as Hk. unfold kernel_ok in Hk. destruct (k_pc (kern q)); try done; tauto. }
  destruct (next_present _ _ g q Hi Hc) as (x & Hx & Hn). unfold supplied. rewrite Hx, Hn. unfold next_word. unfold finished in Hd. destruct (g_front g) eqn:Ef; [|done]. cbn.
  destruct (user_cell _ _ g q Hi Hm) as (y & _ & Hl & _). destruct (g_live g) as [|a [|b l]] eqn:El; [done| |apply link_present].
  destruct Hov. split; [done|]. split; [unfold finished; by rewrite Ef|]. cbn in Hl. injection Hl as <-. done.
Qed.

(** ** Held elements *)
Lemma on_chunk_buffers m c f m' : on_chunk m c f = Ret m' → (∀ x x', f x = Ret x' → buffer x' = buffer x) → buffer <$> chunks m' = buffer <$> chunks m.
Proof.
  intros (x & x' & Hx & _ & Hf & ->)%on_chunk_inv Hb. cbn. rewrite list_fmap_insert, (Hb _ _ Hf). apply list_insert_id. by rewrite list_lookup_fmap, Hx.
Qed.
Lemma store_buffers q w q' : store_progress q w = Ret q' → buffer <$> chunks (mem q') = buffer <$> chunks (mem q).
Proof. intros (m & Hm & [= <-])%bind_Ret. cbn. eapply on_chunk_buffers; [done|]. by intros x x' [= <-]. Qed.
Lemma buffers_notify q bit : buffer <$> chunks (mem (notify_user q bit)) = buffer <$> chunks (mem q).
Proof. by rewrite chunks_notify. Qed.
Lemma buffers_raiseCq q : chunks (mem (raiseCqEvent q)) = chunks (mem q).
Proof. unfold raiseCqEvent. by destruct (k_pc (kern q)). Qed.
Lemma buffers_kstep q q' : k_pc (kern q) ≠ KWrite → kstep chunkSize numCqChunks q = Ret q' → buffer <$> chunks (mem q') = buffer <$> chunks (mem q).
Proof.
  intros Hw. unfold kstep. destruct (k_pc (kern q)) eqn:E; try done.
  all: try (by intros [= <-]); try (intros [= <-]; cbn; by rewrite ?chunks_notify).
  - destruct (has _ _); [destruct (isValidCqChunk _ _)|]; intros [= <-]; try done. apply buffers_notify.
  - intros (q1 & H & [= <-])%bind_Ret. exact (store_buffers _ _ _ H).
  - by intros (x & _ & [= <-])%bind_Ret.
  - intros (q1 & H & [= <-])%bind_Ret. exact (store_buffers _ _ _ H).
  - destruct (isValidCqChunk _ _); intros [= <-]; cbn; by rewrite ?chunks_notify; cbn; rewrite ?chunks_notify.
  - intros (q1 & H & [= <-])%bind_Ret. cbn. exact (store_buffers _ _ _ H).
Qed.
Lemma buffers_ustep q rq q' : ustep q rq = Ret q' → buffer <$> chunks (mem q') = buffer <$> chunks (mem q).
Proof.
  unfold ustep. destruct (u_pc (disp q)) eqn:E; try (by intros [= <-]).
  - unfold check_progress. cbn zeta. intros H. repeat (first [case_match|apply bind_Ret in H as (? & ? & H)]; simplify_eq/=; try done).
  - intros [= <-]. cbn. by rewrite buffers_raiseCq.
  - by intros (x & _ & [= <-])%bind_Ret.
  - intros (r & _ & H)%bind_Ret. destruct (0 <? r); [|done]. by injection H as <-.
  - intros (m & Hm & [= <-])%bind_Ret. eapply (on_chunk_buffers (mem q)); [exact Hm|]. by intros x x' [= <-].
  - intros (m & Hm & [= <-])%bind_Ret. eapply (on_chunk_buffers (mem q)); [exact Hm|]. by intros x x' [= <-].
  - intros (m & Hm & [= <-])%bind_Ret. eapply (on_chunk_buffers (mem q)); [exact Hm|]. by intros x x' [= <-].
  - intros [= <-]. cbn. by rewrite buffers_raiseCq.
  - intros (x & _ & H)%bind_Ret. apply bind_Ret in H as (hd & _ & H). apply bind_Ret in H as (data & _ & H). by apply bind_Ret in H as (r & _ & [= <-]).
Qed.
Lemma buffers_exec q ev q' : (ev = EvKernel → k_pc (kern q) ≠ KWrite) → exec chunkSize numCqChunks q ev = Ret q' → buffer <$> chunks (mem q') = buffer <$> chunks (mem q).
Proof.
  intros Hw. destruct ev as [sources ctx| | |rq|i|i| | |set|set]; cbn [exec].
  - unfold submit_begin. destruct (submit_length _ <=? _); [|done]. by intros [= <-].
  - apply buffers_kstep. by apply Hw.
  - by intros [= <-].
  - apply buffers_ustep.
  - unfold copy_handle. destruct (handles (disp q) !! i); [|by intros [= <-]]. by intros (r & _ & [= <-])%bind_Ret.
  - intros [= <-]. unfold drop_handle. by destruct (handles (disp q) !! i).
  - intros [= <-]. unfold raise_user. by destruct (u_pc (disp q)).
  - intros [= <-]. apply buffers_notify.
  - destruct set; intros [= <-]; [apply buffers_notify|done].
  - by destruct set; intros [= <-].
Qed.
Lemma handle_data_buffers m m' h : buffer <$> chunks m' = buffer <$> chunks m → handle_data m' h = handle_data m h.
Proof.
  intros E. unfold handle_data, get_chunk. destruct (0 <=? h_chunk h); [|done]. apply (f_equal (.!! Z.to_nat (h_chunk h))) in E. rewrite !list_lookup_fmap in E.
  destruct (chunks m' !! _), (chunks m !! _); cbn in *; by simplify_eq/=; rewrite ?E.
Qed.
(** The kernel writes behind the elements that were taken. *)
Lemma write_keeps g q q' h : inv_at g q → k_pc (kern q) = KWrite → kstep chunkSize numCqChunks q = Ret q' → h ∈ handles (disp q) → handle_data (mem q') h = handle_data (mem q) h.
Proof using Hcfg.
  intros Hi E Hq Hin. pose proof (in_kernel _ _ _ _ Hi) as Hk. unfold kernel_ok in Hk. rewrite E in Hk. destruct Hk as (Hj & Hc & Hfit).
  destruct (cursor_cell _ _ g q _ Hi Hc) as (x & H0 & Hx & Hb & Hcell). unfold kstep in Hq. rewrite E in Hq. pose proof (in_ghost _ _ _ _ Hi) as Hg.
  apply bind_Ret in Hq as (m & Hm & [= <-]). rewrite (ac_progress _ _ _ Hc) in Hm. pose proof (size_nonneg (g_cur g)) as Hs.
  destruct (put_element (buffer x) (size (g_cur g)) (k_sources (kern q)) (k_context (kern q)) ltac:(lia)) as (b1 & b2 & e & E1 & E2 & Hl & He & Es & Ec & Ht & Hd).
  { unfold k_length in Hfit. destruct Hcfg. lia. } { apply Hj. }
  rewrite (on_chunk_Ret _ _ _ x (set_buffer x b2) H0 Hx) in Hm; [|unfold k_length; rewrite E1; cbn [mbind outcome_bind]; unfold sizeof_ElementStruct; by rewrite E2].
  injection Hm as <-. pose proof (proj1 (list.Forall_forall _ _) (uo_handles _ _ _ (in_user _ _ _ _ Hi)) h Hin) as (Hr & Ho & Hn & Hlive).
  unfold handle_data. cbn [mem k_goto with_kern with_mem]. rewrite get_chunk_set, (proj2 (Z.leb_le _ _)) by lia. destruct (decide _) as [Eq|]; [|done].
  assert (h_chunk h = currentChunk (kern q)) as Eh by lia. rewrite Eh in *. rewrite decide_True by (by eapply lookup_lt_Some). rewrite (get_chunk_Ret _ _ x) by done.
  cbn [mbind outcome_bind set_buffer buffer]. pose proof (ac_chunk _ _ _ Hc) as Hlc. destruct (Hlive (list_elem_of_lookup_2 _ _ _ Hlc)) as [Hhd Hsz]. rewrite head_lookup in Hhd.
  pose proof (NoDup_lookup _ _ _ _ (go_nodup _ _ _ Hg) Hhd Hlc) as Ef. assert (user_sent g = g_cur g) as Eus by (unfold user_sent; by destruct (g_front g)).
  rewrite Eus in Hsz. pose proof (size_take (g_taken g) (g_cur g)). unfold get. rewrite Hl. destruct (_ && _); [|done]. f_equal. rewrite !take_drop_commute. f_equal.
  apply (take_shorter _ _ _ _ Ht). lia.
Qed.
Lemma held_stable g q ev q' h : inv_at g q → h ∈ handles (disp q) → exec chunkSize numCqChunks q ev = Ret q' → handle_data (mem q') h = handle_data (mem q) h.
Proof using Hcfg.
  intros Hi Hin Hx. assert ((ev = EvKernel ∧ k_pc (kern q) = KWrite) ∨ (ev = EvKernel → k_pc (kern q) ≠ KWrite)) as [[-> E]|Hw].
  { destruct ev; try (by right). destruct (k_pc (kern q)); try (by right). by left. }
  - by apply (write_keeps g).
  - apply handle_data_buffers. by apply (buffers_exec q ev).
Qed.

Lemma dequeue_handle q rq q1 : u_pc (disp q) = UDequeue → exec chunkSize numCqChunks q (EvUser rq) = Ret q1 →
  ∃ h ctx data, handles (disp q1) = handles (disp q) ++ [h] ∧ delivered q1 = delivered q ++ [(ctx, data)] ∧ handle_data (mem q1) h = Ret data.
Proof.
  intros E Hx. cbn in Hx. unfold ustep in Hx. rewrite E in Hx. apply bind_Ret in Hx as (x & Hx & H). apply bind_Ret in H as (hd & _ & H). apply bind_Ret in H as (data & Hd & H).
  apply bind_Ret in H as (r & _ & [= <-]). eexists _, _, data. split; [done|]. split; [done|]. unfold handle_data. cbn [mem h_chunk h_offset h_length]. by rewrite Hx.
Qed.
Lemma holding_data h q q' data : reachable chunkSize numCqChunks q → holding h q q' → handle_data (mem q) h = Ret data → handle_data (mem q') h = Ret data.
Proof using Hcfg.
  intros Hq Hh Hd. enough (reachable chunkSize numCqChunks q' ∧ handle_data (mem q') h = Ret data) by tauto. induction Hh as [|q1 ev q2 _ [Hr IH] Hin He Hx]; [done|].
  split; [by apply (reach_step _ _ q1 ev)|]. destruct (reachable_state _ _ Hcfg q1 Hr) as [g Hi]. rewrite <- IH. by apply (held_stable g q1 ev).
Qed.
Lemma live_bound g : ghost_ok chunkSize numCqChunks g → Z.of_nat (length (g_live g)) ≤ numCqChunks.
Proof using Hcfg.
  intros [Hn Hr _ _ _]. pose proof (cf_chunks _ _ Hcfg). assert (length (g_live g) ≤ length (seqZ 0 numCqChunks))%nat as Hle.
  { apply submseteq_length, NoDup_submseteq; [done|]. intros c Hc. apply elem_of_seqZ. pose proof (proj1 (list.Forall_forall _ _) Hr c Hc). cbn in *. lia. }
  rewrite length_seqZ in Hle. lia.
Qed.

(** ** A call of [wait]

    While the kernel is idle, every step of the dispatcher brings it closer to the next element. *)
(** The steps of the dispatcher with the answers of the run queue *)
Definition answers (b : nat → bool) (n : nat) : list event := (λ i, EvUser (b i)) <$> seq 0 n.
Definition waiting (pc : upc) : bool :=
  match pc with
  | UStart | UNotifyLoad | UCheck _ | UDone | UDequeue => true
  | _ => match moving pc with Some _ => true | None => false end
  end.
Definition rank (pc : upc) : nat :=
  match pc with
  | USurrender _ _ => 12 | UResetNext _ _ => 11 | UResetProgress _ _ => 10 | USupply _ _ => 9 | UWake _ => 8 | UWakeDrive _ => 7
  | UStart => 5 | UNotifyLoad => 4 | UCheck _ => 3 | UDone => 2 | UDequeue => 1 | _ => 0
  end.
Definition measure (g : Ghost) (pc : upc) : nat := 20 * length (g_front g) + rank pc.
Record wait_at (n : nat) (q0 : Queue) (g : Ghost) (q : Queue) : Prop := {
  wa_inv : inv_at g q;
  wa_note : note_ok q;
  wa_kernel : k_pc (kern q) = KIdle;
  wa_user : waiting (u_pc (disp q)) = true;
  wa_bound : (measure g (u_pc (disp q)) ≤ n)%nat;
  wa_check : match u_pc (disp q) with UCheck n => n = userNotify (mem q) | _ => True end;
  wa_submitted : submitted q = submitted q0;
  wa_delivered : delivered q = delivered q0;
}.
(** The state at the return *)
Record returned (q0 q : Queue) : Prop := {
  rt_user : u_pc (disp q) = UIdle;
  rt_submitted : submitted q = submitted q0;
  rt_element : ∃ sub del, submitted q0 !! length (delivered q0) = Some sub ∧ delivered q = delivered q0 ++ [del] ∧ arrives sub del;
}.
(** The state at a return without an element *)
Record interrupted (q0 q : Queue) : Prop := {
  ir_user : u_pc (disp q) = UIdle;
  ir_submitted : submitted q = submitted q0;
  ir_delivered : delivered q = delivered q0;
}.
Lemma pending_seen g q : inv_at g q → note_ok q → k_pc (kern q) = KIdle → moving (u_pc (disp q)) = None → (length (delivered q) < length (submitted q))%nat → raised q = true.
Proof using Hcfg.
  intros Hi Hn Hk Hm Hlt. apply (no_raised _ Hn Hm). apply (attention_ghost _ _ Hcfg g q Hi Hm).
  destruct (fresh g) eqn:Ef; [by left|]. destruct (finished g) eqn:Ed; [by right; left|]. pose proof (all_delivered g q Hi Ef Ed). lia.
Qed.
(** The next element is the next one of the submitted ones. *)
Lemma taken_next g q e : inv_at g q → user_sent g !! g_taken g = Some e →
  submitted q !! length (delivered q) = Some (e_sources e, e_context e) ∧ arrives (e_sources e, e_context e) (e_context e, e_data e).
Proof.
  intros Hi He. destruct (in_trace _ _ _ _ Hi) as (-> & -> & _). pose proof (lookup_lt_Some _ _ _ He) as Hlt. split.
  - rewrite list_lookup_fmap, length_fmap, length_app, length_take, Nat.min_l by lia. rewrite lookup_app_r, Nat.add_comm, Nat.add_sub by lia.
    assert (concat (g_front g ++ [g_cur g]) !! g_taken g = Some e) as ->; [|done].
    unfold user_sent in *. destruct (g_front g) as [|s f]; cbn in *; [by rewrite app_nil_r|]. by rewrite lookup_app_l.
  - split; [done|]. cbn. pose proof (go_elems _ _ _ (in_ghost _ _ _ _ Hi)) as Hel.
    assert (Forall elem_ok (user_sent g)) as Hu by (unfold user_sent; destruct (g_front g); cbn in *; by apply list.Forall_cons in Hel as [Hel _]).
    apply (Forall_lookup_1 _ _ _ _ Hu He).
Qed.
Lemma delivered_prefix g q : inv_at g q → ∃ took rest, submitted q = took ++ rest ∧ Forall2 arrives took (delivered q).
Proof.
  intros Hi. destruct (in_trace _ _ _ _ Hi) as (-> & -> & Hh). set (es := g_hist g ++ take (g_taken g) (user_sent g)). set (sub := λ e, (e_sources e, e_context e)).
  assert (∃ rest, g_hist g ++ concat (g_front g ++ [g_cur g]) = es ++ rest) as [rest ->].
  { unfold es. assert (∃ r, concat (g_front g ++ [g_cur g]) = user_sent g ++ r) as [r ->] by (unfold user_sent; destruct (g_front g); cbn; eauto).
    exists (drop (g_taken g) (user_sent g) ++ r). rewrite <- (take_drop (g_taken g) (user_sent g)) at 1. by rewrite <- !app_assoc. }
  exists (sub <$> es), (sub <$> rest). split; [apply fmap_app|]. apply Forall2_fmap. apply Forall_Forall2_diag. unfold es. rewrite list.Forall_app.
  pose proof (go_elems _ _ _ (in_ghost _ _ _ _ Hi)) as Hel.
  assert (Forall elem_ok (user_sent g)) as Hu by (unfold user_sent; destruct (g_front g); cbn in *; by apply list.Forall_cons in Hel as [Hel _]).
  split; [|apply Forall_take]; eapply list.Forall_impl; try done; intros e He; (split; [done|apply He]).
Qed.
Lemma idle_raiseCq q : k_pc (kern q) = KIdle → raiseCqEvent q = q.
Proof. intros E. unfold raiseCqEvent. by rewrite E. Qed.
(** What the steps leave alone, and where they lead *)
Lemma wait_frame q q' : k_pc (kern q) = KIdle → waiting (u_pc (disp q)) = true → is_check (u_pc (disp q)) = false → u_pc (disp q) ≠ UDequeue → ustep q false = Ret q' →
  k_pc (kern q') = KIdle ∧ submitted q' = submitted q ∧ delivered q' = delivered q ∧ waiting (u_pc (disp q')) = true ∧
  (u_pc (disp q) ≠ UDone → (rank (u_pc (disp q')) < rank (u_pc (disp q)))%nat) ∧ (rank (u_pc (disp q')) ≤ 12)%nat ∧
  match u_pc (disp q') with UCheck n => n = userNotify (mem q') | _ => True end.
Proof.
  intros Hk Hw Hc Hd. unfold ustep. destruct (u_pc (disp q)) as [| | | | | | | | | | |cn [c|]|cn [c|]|cn [c|]|cn [c|]|[c|]|[c|]|] eqn:E; try done.
  all: cbn [rank]; rewrite ?(idle_raiseCq q Hk).
  all: try (intros [= <-]; cbn; repeat split; done || lia).
  - intros (x & _ & [= <-])%bind_Ret. cbn. repeat split; done || lia.
  - intros (r & _ & H)%bind_Ret. destruct (0 <? r); [|done]. injection H as <-. destruct (1 <? r); cbn; repeat split; done || lia.
  - intros (m & _ & [= <-])%bind_Ret. cbn. repeat split; done || lia.
  - intros (m & _ & [= <-])%bind_Ret. cbn. repeat split; done || lia.
  - intros (m & _ & [= <-])%bind_Ret. cbn. repeat split; done || lia.
  - intros [= <-]. cbn. destruct (has _ _); cbn; repeat split; done || lia.
Qed.
Lemma wait_inv g q : inv_at g q → waiting (u_pc (disp q)) = true → is_check (u_pc (disp q)) = false → u_pc (disp q) ≠ UDequeue →
  ∃ g' q', ustep q false = Ret q' ∧ inv_at g' q' ∧ (length (g_front g') ≤ length (g_front g) ∧ (u_pc (disp q) = UDone → length (g_front g') < length (g_front g)))%nat.
Proof using Hcfg.
  intros Hi Hw Hc Hd. destruct (u_pc (disp q)) as [| | | | | | | | | | |cn k|cn k|cn k|cn k|k|k|] eqn:E; try done.
  - exists g. unfold ustep. rewrite E. eexists. split; [done|]. split; [by apply inv_jump; rewrite ?E|]. done.
  - exists g. unfold ustep. rewrite E. eexists. split; [done|]. split; [|done]. apply inv_jump; rewrite ?E; try done. apply (in_bits _ _ _ _ Hi).
  - destruct (step_udone _ _ Hcfg g q Hi E) as (q' & H & H'). exists (pop g), q'. split; [done|]. split; [done|]. pose proof (uo_pc _ _ _ (in_user _ _ _ _ Hi)) as Hpc. rewrite E in Hpc.
    destruct Hpc as [Hf _]. cbn. destruct (g_front g); [done|]. cbn. lia.
  - destruct (step_surrender _ _ g q _ _ Hi E) as (q' & H & H'). by exists g, q'.
  - destruct (step_resetNext _ _ g q _ _ Hi E) as (q' & H & H'). by exists g, q'.
  - destruct (step_resetProgress _ _ g q _ _ Hi E) as (q' & H & H'). by exists g, q'.
  - destruct (step_supply _ _ g q _ _ Hi E) as (q' & H & H'). by exists (supply g cn), q'.
  - destruct (step_wake _ _ g q _ Hi E) as (q' & H & H'). by exists g, q'.
  - destruct (step_wakeDrive _ _ g q _ Hi E) as (q' & H & H'). by exists g, q'.
Qed.
Lemma wait_step n q0 g q : wait_at n q0 g q → (length (delivered q0) < length (submitted q0))%nat →
  ∃ q', ustep q false = Ret q' ∧ (returned q0 q' ∨ ∃ g' n', (n' < n)%nat ∧ wait_at n' q0 g' q').
Proof using Hcfg.
  intros [Hi Hn Hk Hw Hb Hck Hs Hd] Hlt. rewrite <- Hs, <- Hd in Hlt. unfold measure in Hb.
  assert (∀ rq q', ustep q rq = Ret q' → note_ok q') as Hnote by (intros rq q'; by apply (note_ustep _ _ Hcfg g)).
  destruct (u_pc (disp q)) as [| | |w| | | | | | | |cn k|cn k|cn k|cn k|k|k|] eqn:E; try done.
  3: { (* the check *)
    subst w. pose proof (check_spec _ _ Hcfg g q _ Hi E) as Hch. assert (ustep q false = check_progress q (userNotify (mem q))) as Eu by (unfold ustep; by rewrite E).
    assert (has (Z.lor (pendingNotify (disp q)) (userNotify (mem q))) kUserNotifyCqProgress = true) as Hcq.
    { pose proof (pending_seen g q Hi Hn Hk ltac:(by rewrite E) Hlt) as Hr. unfold raised in Hr. rewrite E, Hk in Hr. rewrite cq_of_lor. by destruct (has (userNotify _) _), (has (pendingNotify _) _). }
    pose proof (check_inv _ _ g q _ _ Hi E Hch) as Hinv. specialize (Hnote false). rewrite Eu in Hnote |- *.
    destruct Hch as [pend H1 H2 H3|pend H1 H2 H3|pend H1|H1 H2].
    - eexists. split; [done|]. right. exists g, (measure g UDequeue). split; [unfold measure; cbn in *; lia|]. split; try done. by apply Hnote.
    - eexists. split; [done|]. right. exists g, (measure g UDone). split; [unfold measure; cbn in *; lia|]. split; try done. by apply Hnote.
    - destruct (H1 Hcq) as (Hf & Hfin & _). pose proof (all_delivered g q Hi Hf Hfin). lia.
    - destruct H2 as [H2 _]. by rewrite Hk in H2. }
  10: { (* the element *)
    destruct (step_dequeue _ _ Hcfg g q Hi E) as (q' & e & Hst & _ & He & Hdel). exists q'. split; [done|]. left. destruct (taken_next g q e Hi He) as [H1 H2].
    specialize (Hst false). unfold ustep in Hst. rewrite E in Hst. apply bind_Ret in Hst as (x & _ & Hst). apply bind_Ret in Hst as (hd & _ & Hst). apply bind_Ret in Hst as (data & _ & Hst).
    apply bind_Ret in Hst as (r & _ & [= <-]). split; [done|done|]. rewrite <- Hs, <- Hd. eauto. }
  all: rewrite <- E in Hw, Hb.
  all: destruct (wait_inv g q Hi Hw ltac:(by rewrite E) ltac:(by rewrite E)) as (g' & q' & Hst & Hi' & Hlen & Hdone).
  all: destruct (wait_frame q q' Hk Hw ltac:(by rewrite E) ltac:(by rewrite E) Hst) as (F1 & F2 & F3 & F4 & F5 & F6 & F7).
  all: exists q'; (split; [done|]); right; exists g', (measure g' (u_pc (disp q'))); rewrite E in Hb, F5, Hdone.
  all: (split; [unfold measure; first [specialize (F5 ltac:(done)); lia|specialize (Hdone eq_refl); cbn in Hb; lia]|split; eauto; congruence]).
Qed.
(** The answers of the run queue only matter where [wait] starts over. *)
Lemma ustep_answer q rq : waiting (u_pc (disp q)) = true → ustep q rq = ustep q false ∨ rq = true ∧ ustep q rq = Ret (u_goto q UIdle).
Proof. unfold ustep. destruct (u_pc (disp q)), rq; try done; auto. Qed.
Lemma answers_S b k : answers b (S k) = EvUser (b 0%nat) :: answers (b ∘ S) k.
Proof. unfold answers. cbn [seq]. rewrite fmap_cons. f_equal. rewrite <- fmap_S_seq, <- list_fmap_compose. done. Qed.
Lemma wait_runs n : ∀ b q0 g q, wait_at n q0 g q → (length (delivered q0) < length (submitted q0))%nat →
  ∃ k q', (k ≤ S n)%nat ∧ run q (answers b k) = Ret q' ∧ (returned q0 q' ∨ (∃ i, (i < k)%nat ∧ b i = true) ∧ interrupted q0 q').
Proof using Hcfg.
  induction n as [n IH] using lt_wf_ind. intros b q0 g q Hw Hlt. destruct (wait_step n q0 g q Hw Hlt) as (q1 & Hst & Hnext).
  destruct (ustep_answer q (b 0%nat) (wa_user _ _ _ _ Hw)) as [Eq|[Eb Eq]].
  2: { exists 1%nat, (u_goto q UIdle). split; [lia|]. split; [rewrite answers_S; cbn; by rewrite Eq|]. right. split; [by exists 0%nat; split; [lia|]|].
    split; [done|apply Hw|apply Hw]. }
  destruct Hnext as [Hr|(g' & n' & Hn' & Hw')].
  - exists 1%nat, q1. split; [lia|]. split; [rewrite answers_S; cbn; by rewrite Eq, Hst|by left].
  - destruct (IH n' Hn' (b ∘ S) q0 g' q1 Hw' Hlt) as (k & q' & Hk & Hrun & Hret). exists (S k), q'. split; [lia|].
    split; [rewrite answers_S; cbn; by rewrite Eq, Hst|]. destruct Hret as [?|[(i & Hi & Hb) ?]]; [by left|].
    right. split; [exists (S i); split; [lia|done]|done].
Qed.
End config.
End theorems.

(** ** Runs of concrete events *)
Fixpoint trace (chunkSize numCqChunks : Z) (q : Queue) (evs : list event) : outcome Queue :=
  match evs with
  | [] => Ret q
  | ev :: evs => assert! enabled chunkSize q ev; q ← exec chunkSize numCqChunks q ev; trace chunkSize numCqChunks q evs
  end.
Lemma trace_reachable chunkSize numCqChunks evs : ∀ q q', reachable chunkSize numCqChunks q → trace chunkSize numCqChunks q evs = Ret q' → reachable chunkSize numCqChunks q'.
Proof.
  induction evs as [|ev evs IH]; intros q q' Hq; cbn; [by intros [= <-]|]. destruct (enabled chunkSize q ev) eqn:He; [|done].
  intros (? & _ & (q1 & Hx & Ht)%bind_Ret)%bind_Ret. apply (IH q1 q'); [|done]. by apply (reach_step _ _ q ev).
Qed.
Definition after (chunkSize numCqChunks : Z) (evs : list event) : Queue :=
  match q ← start chunkSize numCqChunks; trace chunkSize numCqChunks q evs with
  | Ret q => q
  | Stop _ => MkQueue (create chunkSize numCqChunks) new_kernel (MkDispatcher UIdle 0 0 0 0 [] []) [] []
  end.
Definition runs_well (chunkSize numCqChunks : Z) (evs : list event) : bool :=
  match q ← start chunkSize numCqChunks; trace chunkSize numCqChunks q evs with Ret _ => true | Stop _ => false end.
Lemma after_reachable chunkSize numCqChunks evs : runs_well chunkSize numCqChunks evs = true → reachable chunkSize numCqChunks (after chunkSize numCqChunks evs).
Proof.
  unfold runs_well, after. destruct (start chunkSize numCqChunks) as [q0|] eqn:E; [|done]. cbn [mbind outcome_bind].
  destruct (trace chunkSize numCqChunks q0 evs) as [q|] eqn:Et; [|done]. intros _. apply (trace_reachable _ _ evs q0); [|done]. by apply reach_start.
Qed.
Lemma config_small : config_ok 64 2.
Proof. split; vm_compute; repeat split; congruence. Qed.
(** One element is submitted, then another one that goes to the next chunk. *)
Definition demo_submit : list event := EvSubmit [[1; 2; 3]; [4]] 7 :: replicate 4 EvKernel.
Definition demo_second : list event := EvSubmit [replicate 48 9] 8 :: replicate 8 EvKernel.
Definition demo_wait : list event := EvWait :: replicate 4 (EvUser false).

(** ** The theorems *)

(** C5: In every reachable state of a completion queue, what the dispatcher has handed out
    is a prefix of what the kernel has submitted: the same contexts in the same order, each
    with the sources one behind the other.  Every event succeeds, with one exception: the
    dispatcher stops at its assertion when the kernel waits for a chunk and a handle is held
    to an element of every chunk but the one that it reads. *)
Theorem completions_delivered chunkSize numCqChunks q (Hcfg : config_ok chunkSize numCqChunks) (Hq : reachable chunkSize numCqChunks q) :
  (∃ took rest, submitted q = took ++ rest ∧ Forall2 arrives took (delivered q)) ∧
  ∀ ev, enabled chunkSize q ev = true →
    (∃ q', exec chunkSize numCqChunks q ev = Ret q') ∨
    (exec chunkSize numCqChunks q ev = Stop AssertionFailed ∧ (∃ rq, ev = EvUser rq) ∧ kfull (k_pc (kern q)) = true ∧ exhausted numCqChunks q).
Proof.
  destruct (reachable_state _ _ Hcfg q Hq) as [g Hi]. split.
  - by apply (delivered_prefix chunkSize numCqChunks g).
  - intros ev He. destruct (event_step _ _ Hcfg g q ev Hi He) as [(g' & q' & H & _)|(H & rq & -> & H1 & H2)]; [by left; exists q'|]. right. eauto 10.
Qed.
Lemma completions_delivered_witness :
  let q := after 64 2 (demo_submit ++ demo_wait) in
  delivered q = [(7, [1; 2; 3; 0; 0; 0; 0; 0; 4; 0; 0; 0; 0; 0; 0; 0])] ∧
  (∃ took rest, submitted q = took ++ rest ∧ Forall2 arrives took (delivered q)).
Proof.
  split; [vm_compute; reflexivity|]. apply (completions_delivered 64 2); [exact config_small|]. apply after_reachable. vm_compute. reflexivity.
Defined.

(** C20: The data behind a handle stays as it was delivered for as long as the handle exists,
    whatever the kernel writes and whichever chunks are released and supplied again in the
    meantime. *)
Theorem held_data_intact chunkSize numCqChunks q rq q1 (Hcfg : config_ok chunkSize numCqChunks) (Hq : reachable chunkSize numCqChunks q)
    (Hpc : u_pc (disp q) = UDequeue) (Hx : exec chunkSize numCqChunks q (EvUser rq) = Ret q1) :
  ∃ h context data, handles (disp q1) = handles (disp q) ++ [h] ∧ delivered q1 = delivered q ++ [(context, data)] ∧
    ∀ q2, holding chunkSize numCqChunks h q1 q2 → handle_data (mem q2) h = Ret data.
Proof.
  destruct (dequeue_handle _ _ q rq q1 Hpc Hx) as (h & ctx & data & H1 & H2 & H3). exists h, ctx, data. split; [done|]. split; [done|].
  intros q2 Hh. apply (holding_data _ _ Hcfg h q1 q2 data (reach_step _ _ q (EvUser rq) q1 Hq eq_refl Hx) Hh H3).
Qed.
Lemma held_data_intact_witness :
  let q := after 64 2 (demo_submit ++ EvWait :: replicate 3 (EvUser false)) in
  u_pc (disp q) = UDequeue ∧ ∃ h context data q1, exec 64 2 q (EvUser false) = Ret q1 ∧ delivered q1 = [(context, data)] ∧
    ∀ q2, holding 64 2 h q1 q2 → handle_data (mem q2) h = Ret data.
Proof.
  split; [vm_compute; reflexivity|].
  destruct (held_data_intact 64 2 (after 64 2 (demo_submit ++ EvWait :: replicate 3 (EvUser false))) false
    (after 64 2 (demo_submit ++ demo_wait))) as (h & ctx & data & _ & H2 & H3).
  - exact config_small.
  - apply after_reachable. vm_compute. reflexivity.
  - vm_compute. reflexivity.
  - vm_compute. reflexivity.
  - exists h, ctx, data, (after 64 2 (demo_submit ++ demo_wait)). split; [vm_compute; reflexivity|]. split; [|exact H3]. rewrite H2. vm_compute. reflexivity.
Defined.

(** C8: No wake-up is lost.  While the dispatcher sleeps in the kernel, the kernel does not
    sleep itself, and if it has nothing to submit, everything has been handed out.  While
    the kernel sleeps although a chunk follows the full one, the dispatcher is about to wake
    it up. *)
Theorem no_lost_wakeup chunkSize numCqChunks q (Hcfg : config_ok chunkSize numCqChunks) (Hq : reachable chunkSize numCqChunks q) :
  k_pc (kern q) ≠ KFirstAsleep ∧
  (u_pc (disp q) = UAsleep → k_pc (kern q) ≠ KNextAsleep ∧ (k_pc (kern q) = KIdle → length (delivered q) = length (submitted q))) ∧
  (k_pc (kern q) = KNextAsleep → supplied q = true → is_wake (u_pc (disp q)) || is_drive (u_pc (disp q)) = true).
Proof.
  destruct (reachable_note _ _ Hcfg q Hq) as (g & Hi & Hn). split; [|split].
  - intros E. pose proof (in_kernel _ _ _ _ Hi) as Hk. unfold kernel_ok in Hk. by rewrite E in Hk.
  - intros Hu. split; intros Hk; destruct (asleep_quiet _ _ Hcfg g q Hi Hn Hu ltac:(by rewrite Hk)) as (Hf & Hd & Hov); [|by apply (all_delivered chunkSize numCqChunks g)].
    assert (supplied q = true) as Hs by (apply (kernel_supplied chunkSize numCqChunks g); try done; [by rewrite Hk|by rewrite Hu]).
    destruct (no_supplied _ Hn ltac:(by rewrite Hk) Hs) as [H|H]; [|by rewrite Hu in H]. pose proof (no_kasleep _ Hn Hk H) as H'. by rewrite Hu in H'.
  - intros Hk Hs. destruct (no_supplied _ Hn ltac:(by rewrite Hk) Hs) as [H|H]; [|by rewrite H]. rewrite (no_kasleep _ Hn Hk H). apply orb_true_r.
Qed.
Lemma no_lost_wakeup_witness :
  let q := after 64 2 (demo_submit ++ demo_wait ++ EvWait :: replicate 12 (EvUser false)) in
  u_pc (disp q) = UAsleep ∧ k_pc (kern q) = KIdle ∧ length (delivered q) = length (submitted q).
Proof.
  split; [vm_compute; reflexivity|]. split; [vm_compute; reflexivity|].
  destruct (no_lost_wakeup 64 2 (after 64 2 (demo_submit ++ demo_wait ++ EvWait :: replicate 12 (EvUser false)))) as (_ & H & _).
  - exact config_small.
  - apply after_reachable. vm_compute. reflexivity.
  - apply H; vm_compute; reflexivity.
Defined.

(** C19: [Dispatcher::wait] returns: if the kernel has finished its submissions and an element
    was not handed out yet, a call of [wait] ends after a bounded number of steps, whatever
    the checks of the run queue find.  It hands out the next element, unless a check found
    the run queue non-empty: then it may return without one, after running an iteration of
    the run queue.  With an empty run queue it always hands out the element. *)
Theorem wait_returns chunkSize numCqChunks q (b : nat → bool) (Hcfg : config_ok chunkSize numCqChunks) (Hq : reachable chunkSize numCqChunks q)
    (Hk : k_pc (kern q) = KIdle) (Hu : u_pc (disp q) = UIdle) (Hlt : (length (delivered q) < length (submitted q))%nat) :
  ∃ n q', Z.of_nat n ≤ 20 * numCqChunks ∧ run chunkSize numCqChunks q (EvWait :: answers b n) = Ret q' ∧ u_pc (disp q') = UIdle ∧
    submitted q' = submitted q ∧
    ((∃ sub del, submitted q !! length (delivered q) = Some sub ∧ delivered q' = delivered q ++ [del] ∧ arrives sub del) ∨
     (∃ i, (i < n)%nat ∧ b i = true) ∧ delivered q' = delivered q).
Proof.
  destruct (reachable_note _ _ Hcfg q Hq) as (g & Hi & Hn). pose proof (go_front _ _ _ (in_ghost _ _ _ _ Hi)) as Hfr. pose proof (live_bound _ _ Hcfg g (in_ghost _ _ _ _ Hi)) as Hlen.
  destruct (wait_runs _ _ Hcfg (measure g UStart) b q g (u_goto q UStart)) as (n & q' & Hb & Hr & Hret); [|done|].
  - split; try done; [by apply inv_jump; rewrite ?Hu|]. by apply (note_exec _ _ Hcfg g q EvWait); try done; cbn; unfold is_uidle; rewrite ?Hu.
  - exists n, q'. unfold measure in Hb. cbn in Hb. split; [lia|]. split; [done|].
    destruct Hret as [[R1 R2 (sub & del & R3 & R4 & R5)]|[Hb' [R1 R2 R3]]]; eauto 8.
Qed.
Lemma wait_returns_witness :
  let q := after 64 2 (demo_submit ++ demo_wait ++ demo_second) in
  (length (delivered q) < length (submitted q))%nat ∧
  ∃ n q' del, run 64 2 q (EvWait :: answers (λ _, false) n) = Ret q' ∧ delivered q' = delivered q ++ [del].
Proof.
  split; [vm_compute; lia|].
  destruct (wait_returns 64 2 (after 64 2 (demo_submit ++ demo_wait ++ demo_second)) (λ _, false)) as (n & q' & _ & H1 & _ & _ & [(sub & del & _ & H2 & _)|[(i & _ & Hb) _]]).
  - exact config_small.
  - apply after_reachable. vm_compute. reflexivity.
  - vm_compute. reflexivity.
  - vm_compute. reflexivity.
  - vm_compute. lia.
  - exists n, q', del. split; [exact H1|exact H2].
  - discriminate Hb.
Defined.

(** The exception of the delivery: with two chunks, a handle to the element of the first one
    is enough to stop the dispatcher once the second one is full. *)
Lemma held_chunk_stops :
  let q := after 64 2 (demo_submit ++ demo_wait ++ demo_second ++ EvWait :: replicate 9 (EvUser false) ++ EvSubmit [[5]] 9 :: replicate 3 EvKernel ++ EvWait :: replicate 2 (EvUser false)) in
  length (handles (disp q)) = 2%nat ∧ exec 64 2 q (EvUser false) = Stop AssertionFailed.
Proof. split; vm_compute; reflexivity. Qed.
(** The header of an element is not counted: in a chunk without room behind it, an element
    without data goes behind the end of a full chunk. *)
Lemma header_not_counted :
  exec 120 2 (after 120 2 (EvSubmit [replicate 104 1] 7 :: replicate 4 EvKernel ++ EvSubmit [] 8 :: [])) EvKernel = Stop OutOfBounds.
Proof. vm_compute. reflexivity. Qed.
