(* ===== verification/SubmissionQueue.v ===== *)
(** * Submission queues between user space and the kernel

    The other direction of the queues of [IpcQueue]: [Dispatcher::pushSq] of
    hel/include/helix/ipc.hpp writes elements into chunks that [IpcQueue::processSq] of
    kernel/thor/generic/ipc-queue.cpp reads, dispatches and gives back.

    Each step does at most one access to the words of the shared memory.  Any thread may
    call [helDriveQueue]; the callers that have found the notification bit set and wait for
    the mutex are counted.  The call from [pushSq] itself may still run when [pushSq] looks
    at the chunk again, which the code does not do: the model has more interleavings.
    [submitFromSq] starts the operation of an element; here it appends to a list. *)
From Stdlib Require Import ZArith Lia ZifyBool.
From stdpp Require Import base list numbers option.
From S2P Require Import Prelude Checksum IpcQueue.
Open Scope Z_scope.

(** ** Kernel *)

(** The program counter of [processSq]; the arguments are its local variables. *)
Inductive spc :=
| SIdle
| SProgress
| SElements (progressWord : Z)
| SNext
| SResetNext (nextWord : Z) | SResetProgress (nextWord : Z) | STail (nextWord : Z) | SNotify (nextWord : Z)
| SCheck | SClear.
Record SqKernel := MkSqKernel {
  s_pc : spc;
  s_waiting : nat;
  sqCurrentChunk : Z;
  sqCurrentProgress : Z;
  sqTailChunk : Z;
}.
Definition set_spc (k : SqKernel) (pc : spc) : SqKernel := MkSqKernel pc (s_waiting k) (sqCurrentChunk k) (sqCurrentProgress k) (sqTailChunk k).
Definition set_waiting (k : SqKernel) (n : nat) : SqKernel := MkSqKernel (s_pc k) n (sqCurrentChunk k) (sqCurrentProgress k) (sqTailChunk k).
Definition set_sqCurrent (k : SqKernel) (chunk progress : Z) : SqKernel := MkSqKernel (s_pc k) (s_waiting k) chunk progress (sqTailChunk k).
Definition set_sqTail (k : SqKernel) (chunk : Z) : SqKernel := MkSqKernel (s_pc k) (s_waiting k) (sqCurrentChunk k) (sqCurrentProgress k) chunk.

(** ** User space *)

(** The program counter of [pushSq]. *)
Inductive ppc :=
| PIdle
| PNextLoad | PNotifyLoad | PDrive | PClear | PDone (nextWord : Z) | PDoneSignal (nextWord : Z)
| PWrite | PPublish | PSignal.
(** An element: its opcode, its context and the data of its segments *)
Record SqElem := MkSqElem { se_opcode : Z; se_context : Z; se_data : list Z }.
Record SqUser := MkSqUser {
  p_pc : ppc;
  p_opcode : Z;
  p_context : Z;
  p_segments : list (list Z);
  sqWriteChunk : Z;
  sqProgress : Z;
}.
Definition set_ppc (u : SqUser) (pc : ppc) : SqUser := MkSqUser pc (p_opcode u) (p_context u) (p_segments u) (sqWriteChunk u) (sqProgress u).
Definition set_write (u : SqUser) (chunk progress : Z) : SqUser := MkSqUser (p_pc u) (p_opcode u) (p_context u) (p_segments u) chunk progress.

(** ** The system

    [pushed] are the elements that were published, [dispatched] the calls of [submitFromSq]. *)
Record SqQueue := MkSqQueue {
  smem : Memory;
  skern : SqKernel;
  suser : SqUser;
  pushed : list SqElem;
  dispatched : list SqElem;
}.
Definition with_smem (q : SqQueue) (m : Memory) : SqQueue := MkSqQueue m (skern q) (suser q) (pushed q) (dispatched q).
Definition with_skern (q : SqQueue) (k : SqKernel) : SqQueue := MkSqQueue (smem q) k (suser q) (pushed q) (dispatched q).
Definition with_suser (q : SqQueue) (u : SqUser) : SqQueue := MkSqQueue (smem q) (skern q) u (pushed q) (dispatched q).
Definition s_goto (q : SqQueue) (pc : spc) : SqQueue := with_skern q (set_spc (skern q) pc).
Definition p_goto (q : SqQueue) (pc : ppc) : SqQueue := with_suser q (set_ppc (suser q) pc).
Definition user_bit (q : SqQueue) (bit : Z) : SqQueue := with_smem q (set_userNotify (smem q) (Z.lor (userNotify (smem q)) bit)).
(** [notifyError] and the return from [processSq] *)
Definition sq_error (q : SqQueue) : SqQueue := s_goto (user_bit q kUserNotifyError) SIdle.

Section queue.
Context (chunkSize numCqChunks numSqChunks : Z).

Definition isValidSqChunk (idx : Z) : bool := (numCqChunks <=? idx) && (idx <? numCqChunks + numSqChunks).
Definition store_word (q : SqQueue) (c : Z) (f : ChunkStruct → ChunkStruct) : outcome SqQueue :=
  m ← on_chunk (smem q) c (λ x, Ret (f x)); Ret (with_smem q m).
(** One round of the loop over the elements of a chunk *)
Definition dispatch (q : SqQueue) : outcome SqQueue :=
  let k := skern q in
  let at_ := sqCurrentProgress k in
  if chunkSize <? at_ + sizeof_ElementStruct then Ret (sq_error q)
  else
    x ← get_chunk (smem q) (sqCurrentChunk k);
    header ← get (buffer x) at_ sizeof_ElementStruct;
    let length := le_value (take 4 header) in
    let opcode := le_value (take 4 (drop 4 header)) in
    let context := le_value (drop 8 header) in
    if chunkSize <? at_ + sizeof_ElementStruct + length then Ret (sq_error q)
    else
      data ← get (buffer x) (at_ + sizeof_ElementStruct) length;
      Ret (MkSqQueue (smem q) (set_sqCurrent k (sqCurrentChunk k) (at_ + sizeof_ElementStruct + length)) (suser q) (pushed q)
        (dispatched q ++ [MkSqElem opcode context data])).
Definition sstep (q : SqQueue) : outcome SqQueue :=
  let k := skern q in
  match s_pc k with
  | SIdle => Ret (match s_waiting k with O => q | S n => with_skern q (set_spc (set_waiting k n) SProgress) end)
  | SProgress =>
      x ← get_chunk (smem q) (sqCurrentChunk k); Ret (s_goto q (SElements (progressFutex x)))
  | SElements w =>
      if sqCurrentProgress k <? Z.land w kProgressMask then dispatch q
      else Ret (s_goto q (if has w kProgressDone then SNext else SCheck))
  | SNext =>
      x ← get_chunk (smem q) (sqCurrentChunk k);
      if has (next x) kNextPresent then
        Ret (if isValidSqChunk (without (next x) kNextPresent) then s_goto q (SResetNext (next x)) else sq_error q)
      else Ret (s_goto q SIdle)
  | SResetNext w => q ← store_word q (sqCurrentChunk k) (λ x, set_next x 0); Ret (s_goto q (SResetProgress w))
  | SResetProgress w => q ← store_word q (sqCurrentChunk k) (λ x, set_progress x 0); Ret (s_goto q (STail w))
  | STail w =>
      q ← store_word q (sqTailChunk k) (λ x, set_next x (Z.lor (sqCurrentChunk k) kNextPresent));
      Ret (with_skern q (set_spc (set_sqTail k (sqCurrentChunk k)) (SNotify w)))
  | SNotify w =>
      Ret (with_skern (user_bit q kUserNotifySupplySqChunks) (set_spc (set_sqCurrent k (without w kNextPresent) 0) SProgress))
  | SCheck => Ret (s_goto q (if has (kernelNotify (smem q)) kKernelNotifySqProgress then SClear else SIdle))
  | SClear => Ret (s_goto (with_smem q (set_kernelNotify (smem q) (without (kernelNotify (smem q)) kKernelNotifySqProgress))) SProgress)
  end.
(** [helDriveQueue]: the part of [processSq] before the mutex *)
Definition drive (q : SqQueue) : SqQueue :=
  let old := kernelNotify (smem q) in
  let q := with_smem q (set_kernelNotify (smem q) (without old kKernelNotifySqProgress)) in
  if has old kKernelNotifySqProgress && negb (numSqChunks =? 0) then with_skern q (set_waiting (skern q) (S (s_waiting (skern q)))) else q.

Definition segments_length (segments : list (list Z)) : Z := Z.of_nat (length (concat segments)).
Fixpoint put_segments (b : list Z) (offset : Z) (segments : list (list Z)) : outcome (list Z) :=
  match segments with
  | [] => Ret b
  | s :: segments => b ← put b offset s; put_segments b (offset + Z.of_nat (length s)) segments
  end.
Definition elementSize (u : SqUser) : Z := sizeof_ElementStruct + segments_length (p_segments u).
Definition push_begin (q : SqQueue) (opcode context : Z) (segments : list (list Z)) : SqQueue :=
  let u := MkSqUser PIdle opcode context segments (sqWriteChunk (suser q)) (sqProgress (suser q)) in
  with_suser q (set_ppc u (if chunkSize <? sqProgress u + elementSize u then PNextLoad else PWrite)).
Definition signal (q : SqQueue) : SqQueue := with_smem q (set_kernelNotify (smem q) (Z.lor (kernelNotify (smem q)) kKernelNotifySqProgress)).
Definition pstep (q : SqQueue) : outcome SqQueue :=
  let u := suser q in
  match p_pc u with
  | PIdle => Ret q
  | PNextLoad =>
      x ← get_chunk (smem q) (sqWriteChunk u);
      Ret (p_goto q (if has (next x) kNextPresent then PDone (next x) else PNotifyLoad))
  | PNotifyLoad => Ret (p_goto q (if has (userNotify (smem q)) kUserNotifySupplySqChunks then PClear else PDrive))
  | PDrive => Ret (p_goto (drive q) PNextLoad)
  | PClear => Ret (p_goto (with_smem q (set_userNotify (smem q) (without (userNotify (smem q)) kUserNotifySupplySqChunks))) PNextLoad)
  | PDone w => q ← store_word q (sqWriteChunk u) (λ x, set_progress x (Z.lor (sqProgress u) kProgressDone)); Ret (p_goto q (PDoneSignal w))
  | PDoneSignal w => Ret (with_suser (signal q) (set_ppc (set_write u (without w kNextPresent) 0) PWrite))
  | PWrite =>
      m ← on_chunk (smem q) (sqWriteChunk u) (λ x,
        b ← put (buffer x) (sqProgress u) (element_bytes (segments_length (p_segments u)) (p_opcode u) (p_context u));
        b ← put_segments b (sqProgress u + sizeof_ElementStruct) (p_segments u);
        Ret (set_buffer x b));
      Ret (with_suser (with_smem q m) (set_ppc (set_write u (sqWriteChunk u) (sqProgress u + elementSize u)) PPublish))
  | PPublish =>
      q ← store_word q (sqWriteChunk u) (λ x, set_progress x (sqProgress u));
      Ret (MkSqQueue (smem q) (skern q) (set_ppc u PSignal) (pushed q ++ [MkSqElem (p_opcode u) (p_context u) (concat (p_segments u))]) (dispatched q))
  | PSignal => Ret (p_goto (signal q) PIdle)
  end.

(** ** Creation

    [IpcQueue::create] links the chunks from [numCqChunks] on; the dispatcher starts with the first one. *)
Definition sq_chunk (i : nat) : ChunkStruct :=
  let i := Z.of_nat i in
  let n := new_chunk chunkSize in
  if (numCqChunks <=? i) && (i <? numCqChunks + numSqChunks - 1) then set_next n (Z.lor (i + 1) kNextPresent) else n.
Definition sq_start : SqQueue :=
  MkSqQueue (MkMemory 0 0 0 (sq_chunk <$> seq 0 (Z.to_nat (numCqChunks + numSqChunks))))
    (MkSqKernel SIdle 0 numCqChunks 0 (numCqChunks + numSqChunks - 1)) (MkSqUser PIdle 0 0 [] numCqChunks 0) [] [].

(** ** Events *)
Inductive sq_event :=
| SqPush (opcode context : Z) (segments : list (list Z))
| SqUserStep
| SqDrive
| SqKernelStep
| SqEnvUser (bit : Z) (set : bool)
| SqEnvKernel (set : bool).
Definition is_pidle (u : SqUser) : bool := match p_pc u with PIdle => true | _ => false end.
Definition fits (segments : list (list Z)) : bool := sizeof_ElementStruct + segments_length segments <=? chunkSize.
(** The environment changes the other bits of the notification words. *)
Definition sq_enabled (q : SqQueue) (ev : sq_event) : bool :=
  match ev with
  | SqPush opcode context segments =>
      is_pidle (suser q) && fits segments && ((0 <=? opcode) && (opcode <? 2 ^ 32)) && ((0 <=? context) && (context <? 2 ^ 64))
  | SqEnvUser bit _ => (bit =? kUserNotifyCqProgress) || (bit =? kUserNotifyAlert)
  | _ => true
  end.
Definition sq_exec (q : SqQueue) (ev : sq_event) : outcome SqQueue :=
  match ev with
  | SqPush opcode context segments => Ret (push_begin q opcode context segments)
  | SqUserStep => pstep q
  | SqDrive => Ret (drive q)
  | SqKernelStep => sstep q
  | SqEnvUser bit true => Ret (user_bit q bit)
  | SqEnvUser bit false => Ret (with_smem q (set_userNotify (smem q) (without (userNotify (smem q)) bit)))
  | SqEnvKernel true => Ret (with_smem q (set_kernelNotify (smem q) (Z.lor (kernelNotify (smem q)) kKernelNotifySupplyCqChunks)))
  | SqEnvKernel false => Ret (with_smem q (set_kernelNotify (smem q) (without (kernelNotify (smem q)) kKernelNotifySupplyCqChunks)))
  end.
Inductive sq_reachable : SqQueue → Prop :=
| sq_reach_start : sq_reachable sq_start
| sq_reach_step q ev q' : sq_reachable q → sq_enabled q ev = true → sq_exec q ev = Ret q' → sq_reachable q'.
End queue.
