(* ===== verification/SubmissionQueueInv.v ===== *)
(** * Submission queues: the invariant and the steps of user space

    As in the other direction, the chunks are a list from the one that is read to the last
    one that was supplied; here the kernel reads and supplies, and user space writes. *)
From Stdlib Require Import ZArith Lia ZifyBool.
From stdpp Require Import base list numbers option.
From S2P Require Import Prelude Checksum IpcQueue IpcQueueInv IpcQueueSteps IpcQueueUser SubmissionQueue.
Open Scope Z_scope.

(** ** Elements *)
Definition se_encode (e : SqElem) : list Z := element_bytes (Z.of_nat (length (se_data e))) (se_opcode e) (se_context e) ++ se_data e.
Definition se_ok (e : SqElem) : Prop := 0 ≤ se_opcode e < 2 ^ 32 ∧ 0 ≤ se_context e < 2 ^ 64.
Definition se_enc (es : list SqElem) : list Z := es ≫= se_encode.
Definition se_size (es : list SqElem) : Z := Z.of_nat (length (se_enc es)).
#[local] Arguments se_size _ : simpl never.
#[local] Arguments segments_length _ : simpl never.
Lemma se_encode_length e : Z.of_nat (length (se_encode e)) = 16 + Z.of_nat (length (se_data e)).
Proof. unfold se_encode. rewrite length_app, element_bytes_length. lia. Qed.
Lemma se_enc_app l l' : se_enc (l ++ l') = se_enc l ++ se_enc l'.
Proof. unfold se_enc. by rewrite bind_app. Qed.
Lemma se_enc_one e : se_enc [e] = se_encode e.
Proof. unfold se_enc. cbn. by rewrite app_nil_r. Qed.
Lemma se_size_app l l' : se_size (l ++ l') = se_size l + se_size l'.
Proof. unfold se_size. rewrite se_enc_app, length_app. lia. Qed.
Lemma se_size_one e : se_size [e] = 16 + Z.of_nat (length (se_data e)).
Proof. unfold se_size. rewrite se_enc_one. apply se_encode_length. Qed.
Lemma se_size_nonneg l : 0 ≤ se_size l.
Proof. unfold se_size. lia. Qed.
Lemma se_size_take n l : se_size (take n l) ≤ se_size l.
Proof. rewrite <- (take_drop n l) at 2. rewrite se_size_app. pose proof (se_size_nonneg (drop n l)). lia. Qed.
Lemma se_size_take_lt n l : (n < length l)%nat → se_size (take n l) < se_size l.
Proof.
  intros Hn. rewrite <- (take_drop n l) at 2. rewrite se_size_app. destruct (drop n l) as [|e r] eqn:E.
  - apply (f_equal length) in E. rewrite length_drop in E. cbn in E. lia.
  - change (e :: r) with ([e] ++ r). rewrite se_size_app, se_size_one. pose proof (se_size_nonneg r). lia.
Qed.
Lemma se_size_mono m n l : (m < n)%nat → (n ≤ length l)%nat → se_size (take m l) < se_size (take n l).
Proof. intros Hm Hn. rewrite <- (Nat.min_l m n) at 1 by lia. rewrite <- take_take. apply se_size_take_lt. rewrite length_take. lia. Qed.
(** The segments are copied behind each other. *)
Lemma put_segments_spec segments : ∀ b o, 0 ≤ o → o + segments_length segments ≤ Z.of_nat (length b) →
  ∃ b', put_segments b o segments = Ret b' ∧ length b' = length b ∧ take (Z.to_nat o) b' = take (Z.to_nat o) b ∧
    take (length (concat segments)) (drop (Z.to_nat o) b') = concat segments.
Proof.
  induction segments as [|s segments IH]; intros b o Ho Hfit; [by exists b|]. unfold segments_length in *. cbn [concat put_segments] in *. rewrite length_app in *.
  destruct (put_spec b o s Ho ltac:(lia)) as [-> Hl]. cbn [mbind outcome_bind]. set (b1 := write_at b o s) in *.
  destruct (IH b1 (o + Z.of_nat (length s)) ltac:(lia) ltac:(rewrite Hl; lia)) as (b' & -> & Hl' & Ht & Hd). exists b'. split; [done|]. split; [lia|].
  split. { rewrite (take_shorter b1 b' _ (Z.to_nat o) Ht ltac:(lia)). apply write_at_take; lia. }
  rewrite (slice_app _ (length s) (length (concat segments))) by done. f_equal.
  - etrans; [|apply (write_at_in b s o); lia]. fold b1. rewrite !take_drop_commute. f_equal. apply (take_shorter b1 b' _ _ Ht). lia.
  - rewrite drop_drop. etrans; [|exact Hd]. do 2 f_equal. lia.
Qed.
Lemma put_sq_element b o opcode ctx segments : 0 ≤ o → o + 16 + segments_length segments ≤ Z.of_nat (length b) →
  ∃ b1 b2, put b o (element_bytes (segments_length segments) opcode ctx) = Ret b1 ∧ put_segments b1 (o + 16) segments = Ret b2 ∧ length b2 = length b ∧
    take (Z.to_nat o) b2 = take (Z.to_nat o) b ∧ let e := MkSqElem opcode ctx (concat segments) in take (length (se_encode e)) (drop (Z.to_nat o) b2) = se_encode e.
Proof.
  intros Ho Hfit. set (hd := element_bytes (segments_length segments) opcode ctx). assert (length hd = 16%nat) as Hhd by done.
  assert (0 ≤ segments_length segments) by (unfold segments_length; lia). destruct (put_spec b o hd Ho ltac:(lia)) as [-> Hl]. set (b1 := write_at b o hd) in *.
  destruct (put_segments_spec segments b1 (o + 16) ltac:(lia) ltac:(rewrite Hl; lia)) as (b2 & Hb2 & Hl2 & Ht & Hd).
  exists b1, b2. split; [done|]. split; [done|]. split; [lia|]. split. { rewrite (take_shorter b1 b2 _ (Z.to_nat o) Ht ltac:(lia)). apply write_at_take; lia. }
  cbn zeta. unfold se_encode. cbn [se_data se_opcode se_context]. fold (segments_length segments). fold hd. rewrite length_app.
  rewrite (slice_app _ (length hd) (length (concat segments))) by done. f_equal.
  - etrans; [|apply (write_at_in b hd o); lia]. fold b1. rewrite !take_drop_commute. f_equal. apply (take_shorter b1 b2 _ _ Ht). lia.
  - rewrite drop_drop. etrans; [|exact Hd]. do 2 f_equal. lia.
Qed.
(** What [processSq] reads is the next element of the chunk. *)
Lemma dispatch_reads (b : list Z) es j e : take (length (se_enc es)) b = se_enc es → Forall se_ok es → es !! j = Some e → Z.of_nat (length (se_data e)) < 2 ^ 32 →
  let o := se_size (take j es) in
  ∃ header, get b o 16 = Ret header ∧ le_value (take 4 header) = Z.of_nat (length (se_data e)) ∧ le_value (take 4 (drop 4 header)) = se_opcode e ∧
    le_value (drop 8 header) = se_context e ∧ get b (o + 16) (Z.of_nat (length (se_data e))) = Ret (se_data e) ∧ se_size (take (S j) es) = o + 16 + Z.of_nat (length (se_data e)).
Proof.
  intros Hb Hok Hj Hlen. cbn zeta. pose proof (Forall_lookup_1 _ _ _ _ Hok Hj) as [He1 He2].
  pose proof (take_drop_middle es j e Hj) as Hsplit. set (pre := take j es) in *. set (post := drop (S j) es) in *.
  assert (se_enc es = se_enc pre ++ element_bytes (Z.of_nat (length (se_data e))) (se_opcode e) (se_context e) ++ se_data e ++ se_enc post) as Henc.
  { rewrite <- Hsplit at 1. change (e :: post) with ([e] ++ post). rewrite !se_enc_app, se_enc_one. unfold se_encode. by rewrite <- !app_assoc. }
  set (hd := element_bytes _ (se_opcode e) (se_context e)) in *. assert (length hd = 16%nat) as Hhd by done.
  assert (length (se_enc es) ≤ length b)%nat as Hle. { rewrite <- Hb at 1. rewrite length_take. lia. }
  pose proof (f_equal length Henc) as Hl. rewrite !length_app in Hl. exists hd. rewrite Henc in Hb at 2. unfold get, se_size.
  rewrite (proj2 (andb_true_iff _ _)) by (rewrite ?andb_true_iff; lia). rewrite Nat2Z.id. split.
  { f_equal. change (Z.to_nat 16) with (length hd). by eapply take_app_drop_slice. }
  split; [unfold hd, element_bytes; rewrite take_app_length'; [apply le_value_bytes; lia|done]|].
  split. { unfold hd, element_bytes. rewrite drop_app_length', take_app_length' by done. apply le_value_bytes. lia. }
  split. { unfold hd, element_bytes. rewrite app_assoc, drop_app_length' by done. apply le_value_bytes. lia. }
  split.
  - rewrite (proj2 (andb_true_iff _ _)) by (rewrite ?andb_true_iff; lia). f_equal. rewrite Nat2Z.id.
    replace (Z.to_nat (Z.of_nat (length (se_enc pre)) + 16)) with (length (se_enc pre ++ hd)) by (rewrite length_app; lia).
    rewrite app_assoc in Hb. by eapply take_app_drop_slice.
  - rewrite (take_S_r es j e Hj). fold pre. rewrite se_enc_app, se_enc_one, length_app. pose proof (se_encode_length e). lia.
Qed.

(** ** The invariant *)
Record sq_config (chunkSize numCqChunks numSqChunks : Z) : Prop := {
  sf_chunks : 0 ≤ numCqChunks ∧ 1 ≤ numSqChunks ∧ numCqChunks + numSqChunks < 2 ^ 24;
  sf_size : 0 ≤ chunkSize < 2 ^ 24;
}.
(** The chunks from the one that the kernel reads, the elements of the chunks that user space has
    finished and of the one that it writes, the elements of earlier chunks, and how many elements
    of the chunk that is read were dispatched *)
Record SGhost := MkSGhost { sg_live : list Z; sg_front : list (list SqElem); sg_cur : list SqElem; sg_hist : list SqElem; sg_taken : nat }.
Definition read_sent (g : SGhost) : list SqElem := default (sg_cur g) (head (sg_front g)).
Definition sq_done_word (s : Z) : Z := Z.lor s kProgressDone.
Definition sq_word (front : list (list SqElem)) (cur : list SqElem) (i : nat) : Z :=
  match front !! i with Some es => sq_done_word (se_size es) | None => if (i =? length front)%nat then se_size cur else 0 end.
Record sq_cell (live : list Z) (front : list (list SqElem)) (cur : list SqElem) (i : nat) (x : ChunkStruct) : Prop := {
  sc_next : next x = next_word live i;
  sc_progress : progressFutex x = sq_word front cur i;
  sc_data : ∀ es, (front ++ [cur]) !! i = Some es → take (length (se_enc es)) (buffer x) = se_enc es;
}.
(** The next word while a chunk is given back, and whether the chunk is in the list again *)
Definition turning (pc : spc) : option Z := match pc with SResetNext w | SResetProgress w | STail w | SNotify w => Some w | _ => None end.
Definition away (pc : spc) : bool := match pc with SResetNext _ | SResetProgress _ | STail _ => true | _ => false end.
Definition signals (pc : ppc) : bool := match pc with PDoneSignal _ | PSignal => true | _ => false end.
Definition sq_bit (q : SqQueue) : bool := has (kernelNotify (smem q)) kKernelNotifySqProgress.

Lemma store_word_Ret q c f x : 0 ≤ c → chunks (smem q) !! Z.to_nat c = Some x → store_word q c f = Ret (with_smem q (set_chunk (smem q) (Z.to_nat c) (f x))).
Proof. intros Hc Hx. unfold store_word. by rewrite (on_chunk_Ret _ _ _ x (f x)). Qed.

Section invariant.
Context (chunkSize numCqChunks numSqChunks : Z) (Hcfg : sq_config chunkSize numCqChunks numSqChunks).
Notation total := (numCqChunks + numSqChunks).

Record sghost_ok (g : SGhost) : Prop := {
  sgo_nodup : NoDup (sg_live g);
  sgo_range : Forall (λ c, numCqChunks ≤ c < total) (sg_live g);
  sgo_front : (length (sg_front g) < length (sg_live g))%nat;
  sgo_elems : Forall (Forall se_ok) (sg_front g ++ [sg_cur g]);
  sgo_size : Forall (λ es, se_size es ≤ chunkSize) (sg_front g ++ [sg_cur g]);
}.
Record schunks_ok (g : SGhost) (cs : list ChunkStruct) : Prop := {
  sco_length : length cs = Z.to_nat total;
  sco_buffer : ∀ i x, cs !! i = Some x → chunkSize ≤ Z.of_nat (length (buffer x));
  sco_live : ∀ i c, sg_live g !! i = Some c → ∃ x, cs !! Z.to_nat c = Some x ∧ sq_cell (sg_live g) (sg_front g) (sg_cur g) i x;
}.
Definition push_ok (u : SqUser) : Prop := elementSize u ≤ chunkSize ∧ 0 ≤ p_opcode u < 2 ^ 32 ∧ 0 ≤ p_context u < 2 ^ 64.
Definition job (u : SqUser) : SqElem := MkSqElem (p_opcode u) (p_context u) (concat (p_segments u)).
Definition at_write (g : SGhost) (u : SqUser) (progress : Z) : Prop := sg_live g !! length (sg_front g) = Some (sqWriteChunk u) ∧ sqProgress u = progress.
Definition swritten (cs : list ChunkStruct) (g : SGhost) (u : SqUser) : Prop :=
  ∃ x, cs !! Z.to_nat (sqWriteChunk u) = Some x ∧ take (length (se_enc (sg_cur g ++ [job u]))) (buffer x) = se_enc (sg_cur g ++ [job u]).
Definition push_at (cs : list ChunkStruct) (g : SGhost) (u : SqUser) : Prop :=
  match p_pc u with
  | PIdle => at_write g u (se_size (sg_cur g))
  | PNextLoad | PNotifyLoad | PDrive | PClear => push_ok u ∧ at_write g u (se_size (sg_cur g))
  | PDone w => push_ok u ∧ at_write g u (se_size (sg_cur g)) ∧ ∃ c, sg_live g !! S (length (sg_front g)) = Some c ∧ w = link_word c
  | PDoneSignal w => push_ok u ∧ sg_cur g = [] ∧ ∃ c, sg_live g !! length (sg_front g) = Some c ∧ w = link_word c
  | PWrite => push_ok u ∧ at_write g u (se_size (sg_cur g)) ∧ se_size (sg_cur g) + elementSize u ≤ chunkSize
  | PPublish => push_ok u ∧ at_write g u (se_size (sg_cur g) + elementSize u) ∧ se_size (sg_cur g) + elementSize u ≤ chunkSize ∧ swritten cs g u
  | PSignal => push_ok u ∧ at_write g u (se_size (sg_cur g))
  end.
Record read_ok (cs : list ChunkStruct) (g : SGhost) (k : SqKernel) : Prop := {
  ro_taken : (sg_taken g ≤ length (read_sent g))%nat;
  ro_cursor : match turning (s_pc k) with
    | Some w => (∃ c, head (sg_live g) = Some c ∧ w = link_word c) ∧ sg_taken g = 0%nat
    | None => head (sg_live g) = Some (sqCurrentChunk k) ∧ sqCurrentProgress k = se_size (take (sg_taken g) (read_sent g))
    end;
  ro_tail : list.last (sg_live g) = Some (sqTailChunk k);
  ro_count : Z.of_nat (length (sg_live g)) + (if away (s_pc k) then 1 else 0) = numSqChunks;
  ro_away : away (s_pc k) = true → numCqChunks ≤ sqCurrentChunk k < total ∧ sqCurrentChunk k ∉ sg_live g;
  ro_pc : match s_pc k with
    | SNext => sg_front g ≠ [] ∧ sg_taken g = length (read_sent g)
    | SResetProgress _ => ∀ x, cs !! Z.to_nat (sqCurrentChunk k) = Some x → next x = 0
    | STail _ => ∀ x, cs !! Z.to_nat (sqCurrentChunk k) = Some x → next x = 0 ∧ progressFutex x = 0
    | _ => True
    end;
}.
(** What [SElements] has read, and what the reader will look at again *)
Definition seen_ok (g : SGhost) (w : Z) (looks : bool) : Prop :=
  ∃ m, (sg_taken g ≤ m ≤ length (read_sent g))%nat ∧ Z.land w kProgressMask = se_size (take m (read_sent g)) ∧
    (has w kProgressDone = true → sg_front g ≠ [] ∧ m = length (read_sent g)) ∧
    ((m < length (read_sent g))%nat ∨ (sg_front g ≠ [] ∧ has w kProgressDone = false) → looks = true).
Definition looks_again (q : SqQueue) : bool := sq_bit q || negb (s_waiting (skern q) =? 0)%nat || signals (p_pc (suser q)).
Definition look_ok (g : SGhost) (q : SqQueue) : Prop :=
  match s_pc (skern q) with
  | SIdle | SCheck => (sg_taken g < length (read_sent g))%nat ∨ sg_front g ≠ [] → looks_again q = true
  | SElements w => seen_ok g w (looks_again q)
  | _ => True
  end.
Definition strace_ok (g : SGhost) (q : SqQueue) : Prop :=
  pushed q = sg_hist g ++ concat (sg_front g ++ [sg_cur g]) ∧ dispatched q = sg_hist g ++ take (sg_taken g) (read_sent g).
Record sinv (g : SGhost) (q : SqQueue) : Prop := {
  si_ghost : sghost_ok g;
  si_chunks : schunks_ok g (chunks (smem q));
  si_push : push_at (chunks (smem q)) g (suser q);
  si_read : read_ok (chunks (smem q)) g (skern q);
  si_look : look_ok g q;
  si_trace : strace_ok g q;
  si_error : has (userNotify (smem q)) kUserNotifyError = false;
}.

(** ** The list of chunks *)
Lemma slive_range g i c : sghost_ok g → sg_live g !! i = Some c → numCqChunks ≤ c < total.
Proof. intros [_ Hr _ _ _] Hi. exact (Forall_lookup_1 _ _ _ _ Hr Hi). Qed.
Lemma slive_small g i c : sghost_ok g → sg_live g !! i = Some c → 0 ≤ c < 2 ^ 24.
Proof using Hcfg. intros Hg Hi. pose proof (slive_range g i c Hg Hi). destruct Hcfg. lia. Qed.
Lemma slive_inj g i i' c c' : sghost_ok g → sg_live g !! i = Some c → sg_live g !! i' = Some c' → Z.to_nat c = Z.to_nat c' → i = i'.
Proof using Hcfg.
  intros Hg Hi Hi' E. pose proof (slive_small g i c Hg Hi). pose proof (slive_small g i' c' Hg Hi'). assert (c = c') by lia. subst.
  exact (NoDup_lookup _ _ _ _ (sgo_nodup _ Hg) Hi Hi').
Qed.
Lemma slive_not g i c d : sghost_ok g → numCqChunks ≤ d < total → d ∉ sg_live g → sg_live g !! i = Some c → Z.to_nat c ≠ Z.to_nat d.
Proof using Hcfg.
  intros Hg Hd Hnot Hi E. pose proof (slive_small g i c Hg Hi). assert (c = d) by (destruct Hcfg; lia). subst. by apply Hnot, (list_elem_of_lookup_2 _ i).
Qed.
Lemma schunks_write g cs g' i c x x' :
  sghost_ok g → schunks_ok g cs → sg_live g' = sg_live g → sg_live g !! i = Some c → cs !! Z.to_nat c = Some x → length (buffer x') = length (buffer x) →
  sq_cell (sg_live g) (sg_front g') (sg_cur g') i x' →
  (∀ j y, j ≠ i → sq_cell (sg_live g) (sg_front g) (sg_cur g) j y → sq_cell (sg_live g) (sg_front g') (sg_cur g') j y) →
  schunks_ok g' (<[Z.to_nat c := x']> cs).
Proof using Hcfg.
  intros Hg [Hl Hb Hc] El Hi Hx Hlen Hcell Hother. split.
  - by rewrite length_insert.
  - intros k y. destruct (decide (k = Z.to_nat c)) as [->|Hn].
    + rewrite list_lookup_insert_eq by (by eapply lookup_lt_Some). intros [= <-]. rewrite Hlen. exact (Hb _ _ Hx).
    + rewrite list_lookup_insert_ne by done. apply Hb.
  - rewrite El. intros j d Hj. destruct (decide (j = i)) as [->|Hn].
    + rewrite Hi in Hj. injection Hj as <-. exists x'. by rewrite list_lookup_insert_eq by (by eapply lookup_lt_Some).
    + destruct (Hc j d Hj) as (y & Hy & Hok). exists y. rewrite list_lookup_insert_ne; [by auto|].
      intros E. by pose proof (slive_inj g i j c d Hg Hi Hj E).
Qed.
Lemma schunks_away g cs c x x' : sghost_ok g → schunks_ok g cs → numCqChunks ≤ c < total → c ∉ sg_live g → cs !! Z.to_nat c = Some x → length (buffer x') = length (buffer x) →
  schunks_ok g (<[Z.to_nat c := x']> cs).
Proof using Hcfg.
  intros Hg [Hl Hb Hc] Hr Hnot Hx Hlen. split.
  - by rewrite length_insert.
  - intros k y. destruct (decide (k = Z.to_nat c)) as [->|Hn].
    + rewrite list_lookup_insert_eq by (by eapply lookup_lt_Some). intros [= <-]. rewrite Hlen. exact (Hb _ _ Hx).
    + rewrite list_lookup_insert_ne by done. apply Hb.
  - intros j d Hj. destruct (Hc j d Hj) as (y & Hy & Hok). exists y. rewrite list_lookup_insert_ne; [done|].
    intros E. by apply (slive_not g j d c Hg Hr Hnot Hj).
Qed.
Lemma sq_cell_other live front cur cur' j y : j ≠ length front → sq_cell live front cur j y → sq_cell live front cur' j y.
Proof.
  intros Hj [Hn Hp Hd]. split; [done| |].
  - rewrite Hp. unfold sq_word. destruct (front !! j); [done|]. by rewrite (proj2 (Nat.eqb_neq _ _) Hj).
  - intros es Hes. apply Hd. apply lookup_app_Some in Hes as [Hes|[Hle Hes]]; [by rewrite lookup_app_l by (by eapply lookup_lt_Some)|].
    apply list_lookup_singleton_Some in Hes as [? _]. lia.
Qed.
Lemma sq_cell_done live front cur j y : j ≠ length front → sq_cell live front cur j y → sq_cell live (front ++ [cur]) [] j y.
Proof.
  intros Hj [Hn Hp Hd]. split; [done| |].
  - rewrite Hp. unfold sq_word. destruct (decide (j < length front)%nat) as [Hlt|Hge].
    + rewrite lookup_app_l by done. destruct (lookup_lt_is_Some_2 front j Hlt) as [es ->]. done.
    + rewrite (lookup_ge_None_2 front j), (lookup_ge_None_2 (front ++ [cur]) j) by (rewrite ?length_app; cbn; lia).
      rewrite (proj2 (Nat.eqb_neq _ _) Hj). by destruct (j =? _)%nat.
  - intros es Hes. apply lookup_app_Some in Hes as [Hes|[Hle Hes]]; [|by apply list_lookup_singleton_Some in Hes as [_ <-]].
    by apply Hd.
Qed.

(** ** The reader during a step of user space *)
Definition sgrows (g g' : SGhost) : Prop :=
  sg_live g' = sg_live g ∧ sg_taken g' = sg_taken g ∧ sg_hist g' = sg_hist g ∧ (∃ l, read_sent g' = read_sent g ++ l) ∧
  (sg_front g ≠ [] → sg_front g' ≠ [] ∧ read_sent g' = read_sent g).
Lemma sgrows_self g : sgrows g g.
Proof. unfold sgrows. do 3 (split; [done|]). split; [|done]. exists []. by rewrite app_nil_r. Qed.
Lemma sgrows_take g g' n : sgrows g g' → (n ≤ length (read_sent g))%nat → take n (read_sent g') = take n (read_sent g).
Proof. intros (_ & _ & _ & [l ->] & _) Hn. by rewrite take_app_le. Qed.
Lemma sgrows_length g g' : sgrows g g' → (length (read_sent g) ≤ length (read_sent g'))%nat.
Proof. intros (_ & _ & _ & [l ->] & _). rewrite length_app. lia. Qed.
Lemma read_grow cs g g' k : sgrows g g' → read_ok cs g k → read_ok cs g' k.
Proof.
  intros Hgr [Ht Hc Htl Hn Ha Hp]. pose proof (sgrows_take g g' _ Hgr Ht) as Etake. pose proof (sgrows_length g g' Hgr). destruct Hgr as (El & Et & _ & _ & Hfr). split.
  - rewrite Et. lia.
  - rewrite El, Et, Etake. done.
  - by rewrite El.
  - by rewrite El.
  - by rewrite El.
  - rewrite Et. destruct (s_pc k); try done. destruct Hp as [Hp1 Hp2]. destruct (Hfr Hp1) as [? ->]. done.
Qed.
Lemma read_kept cs g k i c x' : sghost_ok g → read_ok cs g k → sg_live g !! i = Some c → read_ok (<[Z.to_nat c := x']> cs) g k.
Proof using Hcfg.
  intros Hg [Ht Hc Htl Hn Ha Hp] Hi. split; try done.
  destruct (s_pc k) eqn:E; try done; cbn in Ha; destruct (Ha eq_refl) as [Hr Hnot]; rewrite list_lookup_insert_ne by (by apply (slive_not g i c)); done.
Qed.
Lemma seen_grow g g' w l : sgrows g g' → seen_ok g w l → seen_ok g' w true.
Proof.
  intros Hgr (m & [Hm1 Hm2] & Hw & Hd & _). pose proof (sgrows_take g g' m Hgr Hm2) as Et. pose proof (sgrows_length g g' Hgr). destruct Hgr as (_ & Etk & _ & _ & Hfr).
  exists m. rewrite Etk, Et. split; [lia|]. split; [done|]. split; [|done]. intros H'. destruct (Hd H') as [Hf ->]. destruct (Hfr Hf) as [? ->]. done.
Qed.
Lemma look_signals g g' q q' : sgrows g g' → look_ok g q → s_pc (skern q') = s_pc (skern q) → looks_again q' = true → look_ok g' q'.
Proof. intros Hgr Hl E Hs. unfold look_ok in *. rewrite E, Hs. destruct (s_pc (skern q)); try done. by eapply seen_grow. Qed.
Lemma look_mono g q q' : look_ok g q → s_pc (skern q') = s_pc (skern q) → (looks_again q = true → looks_again q' = true) → look_ok g q'.
Proof.
  intros Hl E Hs. unfold look_ok in *. rewrite E. destruct (s_pc (skern q)); try done; try (intros H; by apply Hs, Hl).
  destruct Hl as (m & H1 & H2 & H3 & H4). exists m. do 3 (split; [done|]). intros H. by apply Hs, H4.
Qed.
(** *** Changes of single parts *)
Lemma sinv_suser g q u : sinv g q → push_at (chunks (smem q)) g u → (looks_again q = true → looks_again (with_suser q u) = true) → sinv g (with_suser q u).
Proof. intros [Hg Hc Hp Hr Hl Ht He] Hu Hs. split; try done. by apply (look_mono g q). Qed.
Lemma sinv_words g q m : sinv g q → chunks m = chunks (smem q) → has (userNotify m) kUserNotifyError = false →
  (looks_again q = true → looks_again (with_smem q m) = true) → sinv g (with_smem q m).
Proof.
  intros [Hg Hc Hp Hr Hl Ht He] E Herr Hlk. split; cbn; rewrite ?E; try done. by apply (look_mono g q).
Qed.
Lemma sinv_pmem g q g' m u p : sinv g q → sgrows g g' → sghost_ok g' → schunks_ok g' (chunks m) → push_at (chunks m) g' u → read_ok (chunks m) g (skern q) →
  userNotify m = userNotify (smem q) → kernelNotify m = kernelNotify (smem q) → (g' = g ∧ signals (p_pc (suser q)) = false) ∨ signals (p_pc u) = true →
  p = sg_hist g ++ concat (sg_front g' ++ [sg_cur g']) → sinv g' (MkSqQueue m (skern q) u p (dispatched q)).
Proof.
  intros [Hg Hc Hp Hr Hl [Ht1 Ht2] He] Hgr Hg' Hc' Hp' Hr' Eu Ek Hs Hpu. split; try done; cbn.
  - by apply (read_grow _ g).
  - destruct Hs as [[-> Hs]|Hs].
    + apply (look_mono g q); [done|done|]. unfold looks_again, sq_bit. cbn. rewrite Ek, Hs, orb_false_r. by intros ->.
    + apply (look_signals g g' q); [done|done|done|]. unfold looks_again. cbn. rewrite Hs. apply orb_true_r.
  - pose proof (sgrows_take g g' _ Hgr (ro_taken _ _ _ Hr)) as E. destruct Hgr as (El & Et & Eh & _). split; cbn.
    + by rewrite Eh.
    + by rewrite Eh, Et, E.
  - by rewrite Eu.
Qed.
(** The chunk that user space writes *)
Lemma write_cell g q p : sinv g q → at_write g (suser q) p →
  ∃ x, 0 ≤ sqWriteChunk (suser q) ∧ chunks (smem q) !! Z.to_nat (sqWriteChunk (suser q)) = Some x ∧ chunkSize ≤ Z.of_nat (length (buffer x)) ∧
    sq_cell (sg_live g) (sg_front g) (sg_cur g) (length (sg_front g)) x.
Proof using Hcfg.
  intros Hi [Hc _]. destruct (sco_live _ _ (si_chunks _ _ Hi) _ _ Hc) as (x & Hx & Hcell). exists x.
  split; [by apply (slive_small g _ _ (si_ghost _ _ Hi) Hc)|]. split; [done|]. split; [|done]. exact (sco_buffer _ _ (si_chunks _ _ Hi) _ _ Hx).
Qed.
Lemma sq_word_cur front cur : sq_word front cur (length front) = se_size cur.
Proof. unfold sq_word. rewrite lookup_ge_None_2 by done. by rewrite Nat.eqb_refl. Qed.
Definition sfinish (g : SGhost) : SGhost := MkSGhost (sg_live g) (sg_front g ++ [sg_cur g]) [] (sg_hist g) (sg_taken g).
Definition sappend (g : SGhost) (e : SqElem) : SGhost := MkSGhost (sg_live g) (sg_front g) (sg_cur g ++ [e]) (sg_hist g) (sg_taken g).
Lemma sgrows_finish g : sgrows g (sfinish g).
Proof.
  assert (read_sent (sfinish g) = read_sent g) as E by (unfold read_sent, sfinish; cbn; by destruct (sg_front g)).
  unfold sgrows. rewrite E. do 3 (split; [done|]). split; [exists []; by rewrite app_nil_r|]. intros. split; [|done]. cbn. by destruct (sg_front g).
Qed.
Lemma sgrows_append g e : sgrows g (sappend g e).
Proof.
  unfold sgrows, read_sent, sappend. cbn. destruct (sg_front g) as [|s f]; cbn; do 3 (split; [done|]); (split; [|done]); [by exists [e]|exists []; by rewrite app_nil_r].
Qed.
Lemma push_done g q w : sinv g q → p_pc (suser q) = PDone w → ∃ q', pstep numSqChunks q = Ret q' ∧ sinv (sfinish g) q'.
Proof using Hcfg.
  intros Hi E. pose proof (si_push _ _ Hi) as Hp. unfold push_at in Hp. rewrite E in Hp. destruct Hp as (Hj & Hw & c & Hnext & ->).
  destruct (write_cell g q _ Hi Hw) as (x & H0 & Hx & Hb & Hcell). unfold pstep. rewrite E. rewrite (store_word_Ret _ _ _ x H0 Hx).
  cbn [mbind outcome_bind]. eexists. split; [done|]. pose proof (si_ghost _ _ Hi) as Hg. destruct Hw as [Hl Hpr]. apply (sinv_pmem g q); try done; cbn.
  - apply sgrows_finish.
  - destruct Hg as [Hn Hr Hf He Hs]. apply lookup_lt_Some in Hnext. split; cbn; try done.
    + rewrite length_app. cbn. lia.
    + rewrite list.Forall_app. split; [done|]. by repeat constructor.
    + rewrite list.Forall_app. split; [done|]. constructor; [|done]. change (se_size []) with 0. destruct Hcfg. lia.
  - eapply (schunks_write g); [exact Hg|apply Hi|done|exact Hl|exact Hx|done| |].
    + destruct Hcell as [Hn Hpw Hd]. split; [done| |].
      * cbn. unfold sq_word. rewrite lookup_app_r, Nat.sub_diag by done. cbn. by rewrite Hpr.
      * cbn. intros es Hes. apply Hd. by rewrite lookup_app_l in Hes by (rewrite length_app; cbn; lia).
    + cbn. intros j y Hne. by apply sq_cell_done.
  - split; [done|]. split; [done|]. exists c. cbn. split; [|done]. rewrite length_app, Nat.add_1_r. done.
  - eapply read_kept; [done|apply Hi|exact Hl].
  - by right.
  - rewrite (proj1 (si_trace _ _ Hi)). rewrite !concat_app. cbn. by rewrite !app_nil_r.
Qed.
Lemma push_write g q : sinv g q → p_pc (suser q) = PWrite → ∃ q', pstep numSqChunks q = Ret q' ∧ sinv g q'.
Proof using Hcfg.
  intros Hi E. pose proof (si_push _ _ Hi) as Hp. unfold push_at in Hp. rewrite E in Hp. destruct Hp as (Hj & Hw & Hfit).
  destruct (write_cell g q _ Hi Hw) as (x & H0 & Hx & Hb & Hcell). unfold pstep. rewrite E. pose proof (si_ghost _ _ Hi) as Hg. destruct Hw as [Hl Hpr]. rewrite Hpr.
  pose proof (se_size_nonneg (sg_cur g)) as Hs. destruct (put_sq_element (buffer x) (se_size (sg_cur g)) (p_opcode (suser q)) (p_context (suser q)) (p_segments (suser q)) Hs) as (b1 & b2 & E1 & E2 & Hlen & Ht & Hd).
  { unfold elementSize, sizeof_ElementStruct in Hfit. lia. }
  rewrite (on_chunk_Ret _ _ _ x (set_buffer x b2) H0 Hx); [|rewrite E1; cbn [mbind outcome_bind]; unfold sizeof_ElementStruct; by rewrite E2].
  cbn [mbind outcome_bind]. eexists. split; [done|].
  assert (take (length (se_enc (sg_cur g))) b2 = se_enc (sg_cur g)) as Hold.
  { pose proof (sc_data _ _ _ _ _ Hcell (sg_cur g)) as Hdat. rewrite lookup_app_r, Nat.sub_diag in Hdat by done. rewrite <- (Hdat eq_refl) at 2.
    unfold se_size in Ht. by rewrite Nat2Z.id in Ht. }
  apply (sinv_pmem g q); try done; cbn.
  - apply sgrows_self.
  - eapply (schunks_write g _ g); [exact Hg|apply Hi|done|exact Hl|exact Hx|done| |done].
    destruct Hcell as [Hn Hpw Hdat]. split; [done|done|]. intros es Hes. rewrite lookup_app_r, Nat.sub_diag in Hes by done. cbn in Hes. by injection Hes as <-.
  - split; [done|]. split; [done|]. split; [done|]. exists (set_buffer x b2). cbn.
    rewrite list_lookup_insert_eq by (by eapply lookup_lt_Some). split; [done|]. unfold job. cbn.
    rewrite se_enc_app, se_enc_one, length_app, (slice_app _ (length (se_enc (sg_cur g))) (length (se_encode _)) _ eq_refl). f_equal; [done|].
    cbn zeta in Hd. unfold se_size in Hd. by rewrite Nat2Z.id in Hd.
  - eapply read_kept; [done|apply Hi|exact Hl].
  - left. by rewrite E.
  - apply (proj1 (si_trace _ _ Hi)).
Qed.
Lemma push_publish g q : sinv g q → p_pc (suser q) = PPublish → ∃ q', pstep numSqChunks q = Ret q' ∧ sinv (sappend g (job (suser q))) q'.
Proof using Hcfg.
  intros Hi E. pose proof (si_push _ _ Hi) as Hp. unfold push_at in Hp. rewrite E in Hp. destruct Hp as (Hj & Hw & Hfit & x' & Hx' & Hd).
  destruct (write_cell g q _ Hi Hw) as (x & H0 & Hx & Hb & Hcell). rewrite Hx in Hx'. injection Hx' as <-. unfold pstep. rewrite E. rewrite (store_word_Ret _ _ _ x H0 Hx).
  cbn [mbind outcome_bind]. eexists. split; [done|]. pose proof (si_ghost _ _ Hi) as Hg. destruct Hw as [Hl Hpr].
  assert (se_size (sg_cur g ++ [job (suser q)]) = se_size (sg_cur g) + elementSize (suser q)) as Hsz by (by rewrite se_size_app, se_size_one).
  apply (sinv_pmem g q); try done; cbn.
  - apply sgrows_append.
  - destruct Hg as [Hn Hr Hf He Hs]. split; cbn; try done.
    + rewrite list.Forall_app in He |- *. destruct He as [? He]. split; [done|]. constructor; [|done]. rewrite list.Forall_app. split; [by inversion_clear He|]. apply list.Forall_singleton. apply Hj.
    + rewrite list.Forall_app in Hs |- *. destruct Hs as [? Hs]. split; [done|]. apply list.Forall_singleton. lia.
  - eapply (schunks_write g); [exact Hg|apply Hi|done|exact Hl|exact Hx|done| |].
    + destruct Hcell as [Hn Hpw Hdat]. split; [done| |].
      * cbn. rewrite sq_word_cur, Hsz, Hpr. done.
      * cbn. intros es Hes. rewrite lookup_app_r, Nat.sub_diag in Hes by done. cbn in Hes. by injection Hes as <-.
    + cbn. intros j y Hne. by apply sq_cell_other.
  - split; [done|]. split; [done|]. cbn. by rewrite Hsz.
  - eapply read_kept; [done|apply Hi|exact Hl].
  - by right.
  - rewrite (proj1 (si_trace _ _ Hi)). rewrite !concat_app. cbn. by rewrite !app_nil_r, !app_assoc.
Qed.
End invariant.
