(* ===== verification/SubmissionQueueThms.v ===== *)
(** * Submission queues: all steps, and the theorems *)
From Stdlib Require Import ZArith Lia ZifyBool.
From stdpp Require Import base list numbers option.
From S2P Require Import Prelude Checksum IpcQueue IpcQueueInv IpcQueueSteps IpcQueueUser SubmissionQueue SubmissionQueueInv.
Open Scope Z_scope.

#[local] Arguments se_size _ : simpl never.
#[local] Arguments segments_length _ : simpl never.
#[local] Arguments has _ _ : simpl never.
#[local] Arguments without _ _ : simpl never.

Lemma error_lor w k : 0 ≤ k → k ≠ 14 → has (Z.lor w (Z.shiftl 1 k)) kUserNotifyError = has w kUserNotifyError.
Proof. intros H0 Hk. unfold kUserNotifyError. rewrite has_lor, has_one by lia. rewrite (proj2 (Z.eqb_neq _ _)) by lia. apply orb_false_r. Qed.
Lemma error_without w b : has w kUserNotifyError = false → has (without w b) kUserNotifyError = false.
Proof. intros H. unfold kUserNotifyError in *. rewrite has_without by lia. by rewrite H. Qed.
Lemma sq_word_done s : 0 ≤ s < 2 ^ 24 → Z.land (sq_done_word s) kProgressMask = s ∧ has (sq_done_word s) kProgressDone = true.
Proof.
  intros Hs. unfold sq_done_word. rewrite Z.land_lor_distr_l, mask_small by done. split; [apply Z.lor_0_r|]. unfold kProgressDone. rewrite has_lor, (has_one 25 25) by lia. apply orb_true_r.
Qed.

Section steps.
Context (chunkSize numCqChunks numSqChunks : Z) (Hcfg : sq_config chunkSize numCqChunks numSqChunks).
Notation sinv := (sinv chunkSize numCqChunks numSqChunks).
Notation sghost_ok := (sghost_ok chunkSize numCqChunks numSqChunks).

(** ** User space *)
Lemma looks_suser q u : signals (p_pc (suser q)) = false → looks_again q = true → looks_again (with_suser q u) = true.
Proof. intros Hs. unfold looks_again, sq_bit. cbn. rewrite Hs, orb_false_r. by intros ->. Qed.
Lemma signal_looks q u : looks_again (with_suser (signal q) u) = true.
Proof.
  unfold looks_again, sq_bit. cbn. unfold kKernelNotifySqProgress. rewrite has_lor, (has_one 0 0) by lia. by rewrite orb_true_r.
Qed.
Lemma sinv_signal g q : sinv g q → sinv g (signal q).
Proof. intros Hi. apply sinv_words; [done|done|apply Hi|]. intros _. exact (signal_looks q (suser q)). Qed.
Lemma sinv_drive g q : sinv g q → sinv g (drive numSqChunks q).
Proof using Hcfg.
  intros Hi. unfold drive. destruct (has (kernelNotify (smem q)) kKernelNotifySqProgress) eqn:Eb; cbn [andb].
  - rewrite (proj2 (Z.eqb_neq numSqChunks 0)) by (destruct Hcfg; lia). cbn [negb]. destruct Hi as [Hg Hc Hp Hr Hl Ht He]. split; try done.
    + by destruct Hr.
    + apply (look_mono g q); [done|done|]. intros _. unfold looks_again. cbn. by rewrite orb_true_r.
  - apply sinv_words; [done|done|apply Hi|]. unfold looks_again, sq_bit. cbn. rewrite Eb. unfold kKernelNotifySqProgress in *. rewrite has_without by lia. by rewrite Eb.
Qed.
Lemma push_step g q : sinv g q → ∃ g' q', pstep numSqChunks q = Ret q' ∧ sinv g' q'.
Proof using Hcfg.
  intros Hi. pose proof (si_push _ _ _ _ _ Hi) as Hp. unfold push_at in Hp. pose proof (si_ghost _ _ _ _ _ Hi) as Hg. destruct (p_pc (suser q)) eqn:E.
  - exists g, q. unfold pstep. by rewrite E.
  - destruct Hp as [Hj Hw]. destruct (write_cell _ _ _ Hcfg g q _ Hi Hw) as (x & H0 & Hx & Hb & Hcell). unfold pstep. rewrite E, (get_chunk_Ret _ _ x H0 Hx). cbn [mbind outcome_bind].
    exists g. eexists. split; [done|]. rewrite (sc_next _ _ _ _ _ Hcell). unfold next_word. destruct (sg_live g !! S (length (sg_front g))) as [c|] eqn:Hn.
    + rewrite link_present. apply sinv_suser; [done| |by apply looks_suser; rewrite E]. split; [done|]. split; [done|]. eauto.
    + apply sinv_suser; [done| |by apply looks_suser; rewrite E]. done.
  - unfold pstep. rewrite E. exists g. eexists. split; [done|]. destruct (has _ _); (apply sinv_suser; [done|done|by apply looks_suser; rewrite E]).
  - unfold pstep. rewrite E. exists g. eexists. split; [done|]. pose proof (sinv_drive g q Hi) as Hi'.
    assert (suser (drive numSqChunks q) = suser q) as Eu by (unfold drive; by destruct (_ && _)). assert (chunks (smem (drive numSqChunks q)) = chunks (smem q)) as Ec by (unfold drive; by destruct (_ && _)).
    apply sinv_suser; [done| |]; rewrite ?Eu, ?Ec; [done|]. apply looks_suser. by rewrite Eu, E.
  - unfold pstep. rewrite E. exists g. eexists. split; [done|].
    apply sinv_suser; [apply sinv_words; [done|done|apply error_without, Hi|done]|done|by apply looks_suser; cbn; rewrite E].
  - destruct (push_done _ _ _ Hcfg g q _ Hi E) as (q' & H1 & H2). eauto.
  - destruct Hp as (Hj & Hcur & c & Hc & ->). unfold pstep. rewrite E, link_index by (by eapply slive_small). exists g. eexists. split; [done|].
    apply sinv_suser; [by apply sinv_signal| |intros _; apply signal_looks]. split; [done|]. split; [by rewrite Hcur|]. rewrite Hcur. unfold elementSize in *. apply Hj.
  - destruct (push_write _ _ _ Hcfg g q Hi E) as (q' & H1 & H2). eauto.
  - destruct (push_publish _ _ _ Hcfg g q Hi E) as (q' & H1 & H2). eauto.
  - unfold pstep. rewrite E. exists g. eexists. split; [done|]. apply sinv_suser; [by apply sinv_signal| |intros _; apply signal_looks]. apply Hp.
Qed.
Lemma begin_step g q opcode ctx segments : sinv g q → sq_enabled chunkSize q (SqPush opcode ctx segments) = true → sinv g (push_begin chunkSize q opcode ctx segments).
Proof.
  intros Hi He. cbn in He. rewrite !andb_true_iff in He. destruct He as [[[Hidle Hf] [Ho1 Ho2]] [Hc1 Hc2]]. unfold is_pidle in Hidle. destruct (p_pc (suser q)) eqn:E; try done.
  pose proof (si_push _ _ _ _ _ Hi) as Hp. unfold push_at in Hp. rewrite E in Hp. unfold push_begin. set (u := MkSqUser _ _ _ _ _ _).
  assert (push_ok chunkSize u) as Hj by (unfold push_ok, elementSize, fits in *; cbn; lia). apply sinv_suser; [done| |by apply looks_suser; rewrite E].
  destruct Hp as [Hl Hpr]. destruct (Z.ltb_spec chunkSize (sqProgress u + elementSize u)) as [Hlt|Hle]; (split; [done|]); [done|]. split; [done|]. cbn in Hle. unfold elementSize in *. cbn in *. lia.
Qed.

(** ** Kernel *)
Lemma read_sent_head g : (sg_front g ++ [sg_cur g]) !! 0%nat = Some (read_sent g).
Proof. unfold read_sent. by destruct (sg_front g). Qed.
Lemma read_sent_size g : sghost_ok g → 0 ≤ se_size (read_sent g) ≤ chunkSize.
Proof. intros Hg. split; [apply se_size_nonneg|]. exact (Forall_lookup_1 _ _ _ _ (sgo_size _ _ _ _ Hg) (read_sent_head g)). Qed.
Lemma read_cell g q : sinv g q → turning (s_pc (skern q)) = None →
  ∃ x, 0 ≤ sqCurrentChunk (skern q) ∧ sg_live g !! 0%nat = Some (sqCurrentChunk (skern q)) ∧ get_chunk (smem q) (sqCurrentChunk (skern q)) = Ret x ∧ sq_cell (sg_live g) (sg_front g) (sg_cur g) 0 x.
Proof using Hcfg.
  intros Hi Ht. pose proof (ro_cursor _ _ _ _ _ (si_read _ _ _ _ _ Hi)) as Hc. rewrite Ht in Hc. destruct Hc as [Hhd _]. rewrite head_lookup in Hhd.
  destruct (sco_live _ _ _ _ _ (si_chunks _ _ _ _ _ Hi) _ _ Hhd) as (x & Hx & Hcell). exists x. pose proof (slive_small _ _ _ Hcfg g 0 _ (si_ghost _ _ _ _ _ Hi) Hhd).
  split; [lia|]. split; [done|]. split; [by apply get_chunk_Ret; [lia|]|done].
Qed.
(** A jump of the kernel *)
Lemma sinv_spc g q k : sinv g q → read_ok numCqChunks numSqChunks (chunks (smem q)) g k → look_ok g (with_skern q k) → sinv g (with_skern q k).
Proof. intros [Hg Hc Hp Hr Hl Ht He] Hk Hlo. by split. Qed.
Lemma read_jump cs g k pc : read_ok numCqChunks numSqChunks cs g k → turning (s_pc k) = None → turning pc = None → (pc = SNext → sg_front g ≠ [] ∧ sg_taken g = length (read_sent g)) →
  read_ok numCqChunks numSqChunks cs g (set_spc k pc).
Proof.
  intros [Ht Hc Htl Hn Ha Hp] E1 E2 Hpc. assert (away (s_pc k) = false ∧ away pc = false) as [A1 A2] by (split; by destruct (s_pc k), pc). rewrite E1 in Hc. rewrite A1 in *.
  split; cbn; rewrite ?E2, ?A2; try done. destruct pc; try done. by apply Hpc.
Qed.
Lemma looks_skern q k : s_waiting k = s_waiting (skern q) → looks_again (with_skern q k) = looks_again q.
Proof. intros E. unfold looks_again, sq_bit. cbn. by rewrite E. Qed.
Lemma step_progress g q : sinv g q → s_pc (skern q) = SProgress → ∃ q', sstep chunkSize numCqChunks numSqChunks q = Ret q' ∧ sinv g q'.
Proof using Hcfg.
  intros Hi E. destruct (read_cell g q Hi ltac:(by rewrite E)) as (x & H0 & Hl & Hx & Hcell). unfold sstep. rewrite E, Hx. cbn [mbind outcome_bind]. eexists. split; [done|].
  pose proof (si_read _ _ _ _ _ Hi) as Hr. pose proof (read_sent_size g (si_ghost _ _ _ _ _ Hi)) as Hs. pose proof (sf_size _ _ _ Hcfg) as Hcs.
  apply sinv_spc; [done|by apply read_jump; rewrite ?E|]. unfold look_ok. cbn. rewrite looks_skern by done. rewrite (sc_progress _ _ _ _ _ Hcell).
  exists (length (read_sent g)). split; [split; [apply Hr|done]|]. rewrite firstn_all. unfold sq_word, read_sent in *. destruct (sg_front g) as [|s f]; cbn in *.
  - split; [apply mask_small; lia|]. rewrite (proj1 (proj2 (proj2 (plain_word (se_size (sg_cur g)) ltac:(lia))))). split; [done|]. intros [H|[H _]]; [lia|done].
  - destruct (sq_word_done (se_size s) ltac:(lia)) as [H1 H2]. split; [done|]. split; [done|]. rewrite H2. intros [H|[_ H]]; [lia|done].
Qed.
Lemma taken_dispatch g q m w : sinv g q → s_pc (skern q) = SElements w → seen_ok g w (looks_again q) → Z.land w kProgressMask = m → sqCurrentProgress (skern q) < m →
  ∃ q' e, dispatch chunkSize q = Ret q' ∧ read_sent g !! sg_taken g = Some e ∧ sinv (MkSGhost (sg_live g) (sg_front g) (sg_cur g) (sg_hist g) (S (sg_taken g))) q' ∧ skern q' = set_sqCurrent (skern q) (sqCurrentChunk (skern q)) (sqCurrentProgress (skern q')) ∧
    suser q' = suser q ∧ smem q' = smem q ∧ pushed q' = pushed q ∧ dispatched q' = dispatched q ++ [e].
Proof using Hcfg.
  intros Hi E (n & [Hn1 Hn2] & Hw & Hd & Hlk) Hm Hlt. pose proof (si_read _ _ _ _ _ Hi) as Hr. pose proof (si_ghost _ _ _ _ _ Hi) as Hg. pose proof (ro_cursor _ _ _ _ _ Hr) as Hc. rewrite E in Hc. destruct Hc as [Hhd Hpr].
  assert (sg_taken g < n)%nat as Htn. { destruct (decide (sg_taken g = n)) as [Eq|]; [|lia]. rewrite <- Hm, Hw, Hpr, Eq in Hlt. lia. }
  destruct (lookup_lt_is_Some_2 (read_sent g) (sg_taken g) ltac:(lia)) as [e He]. destruct (read_cell g q Hi ltac:(by rewrite E)) as (x & H0 & Hl & Hx & Hcell).
  pose proof (Forall_lookup_1 _ _ _ _ (sgo_elems _ _ _ _ Hg) (read_sent_head g)) as Hok. pose proof (read_sent_size g Hg) as Hsz. pose proof (sf_size _ _ _ Hcfg) as Hcs.
  pose proof (take_S_r _ _ _ He) as HtS. assert (se_size (take (S (sg_taken g)) (read_sent g)) ≤ se_size (read_sent g)) as Hle by apply se_size_take.
  pose proof (se_size_nonneg (take (sg_taken g) (read_sent g))) as Hnn. pose proof HtS as HtS'. apply (f_equal se_size) in HtS'. rewrite se_size_app, se_size_one in HtS'.
  destruct (dispatch_reads (buffer x) (read_sent g) _ e (sc_data _ _ _ _ _ Hcell _ (read_sent_head g)) Hok He ltac:(lia)) as (hd & H1 & H2 & H3 & H4 & H5 & H6). rewrite <- Hpr in *.
  unfold dispatch. unfold sizeof_ElementStruct. rewrite (proj2 (Z.ltb_ge _ _)) by lia. rewrite Hx. cbn [mbind outcome_bind]. rewrite H1. cbn [mbind outcome_bind]. rewrite H2, H3, H4.
  rewrite (proj2 (Z.ltb_ge _ _)) by lia. rewrite H5. cbn [mbind outcome_bind]. eexists. exists e. split; [done|]. split; [done|].
  split; [|cbn; repeat split; by destruct e]. destruct Hi as [_ Hch Hp _ _ [Ht1 Ht2] Her]. set (g' := MkSGhost _ _ _ _ _). change (read_sent g) with (read_sent g') in *. split; try done.
  - by destruct Hg.
  - by destruct Hch.
  - destruct Hr as [R1 R2 R3 R4 R5 R6]. rewrite E in *. split; cbn; rewrite ?E; try done. lia.
  - unfold look_ok. cbn. rewrite E. exists n. split; [cbn; lia|]. split; [done|]. split; [done|]. done.
  - split; [done|]. cbn. rewrite Ht2, HtS, app_assoc. by destruct e.
Qed.
(** *** Giving a chunk back *)
Definition spop (g : SGhost) : SGhost := MkSGhost (tail (sg_live g)) (tail (sg_front g)) (sg_cur g) (sg_hist g ++ read_sent g) 0.
Lemma step_next g q : sinv g q → s_pc (skern q) = SNext → ∃ w, sstep chunkSize numCqChunks numSqChunks q = Ret (s_goto q (SResetNext w)) ∧ sinv (spop g) (s_goto q (SResetNext w)).
Proof using Hcfg.
  intros Hi E. pose proof (si_ghost _ _ _ _ _ Hi) as Hg. destruct (read_cell g q Hi ltac:(by rewrite E)) as (x & H0 & Hl & Hx & Hcell). pose proof (ro_pc _ _ _ _ _ (si_read _ _ _ _ _ Hi)) as Hpc. rewrite E in Hpc.
  destruct Hpc as [Hf Htk]. destruct (sg_front g) as [|s f] eqn:Ef; [done|]. pose proof (sgo_front _ _ _ _ Hg) as Hlen. rewrite Ef in Hlen.
  destruct (sg_live g) as [|c [|c' l]] eqn:El; cbn in Hlen; [lia|lia|]. cbn in Hl. injection Hl as ->.
  assert (sg_live g !! 1%nat = Some c') as Hc' by (by rewrite El). pose proof (slive_small _ _ _ Hcfg g 1 c' Hg Hc') as Hsm. pose proof (slive_range _ _ _ g 1 c' Hg Hc') as Hrng.
  exists (link_word c'). unfold sstep. rewrite E, Hx. cbn [mbind outcome_bind]. rewrite (sc_next _ _ _ _ _ Hcell). change (next_word _ 0) with (link_word c'). rewrite link_present, link_index by done.
  unfold isValidSqChunk. rewrite (proj2 (andb_true_iff _ _)) by lia. split; [done|].
  assert (read_sent g = s) as Eus by (unfold read_sent; by rewrite Ef). destruct Hi as [_ [Hc1 Hc2 Hc3] Hp Hr Hlo [Ht1 Ht2] He]. destruct Hg as [Hn Hrg Hfr Hel Hsz]. rewrite El, Ef in *.
  apply list.NoDup_cons in Hn as [Hnin Hn]. split; try done.
  - split; cbn; rewrite ?El, ?Ef; cbn in *; [done|by apply list.Forall_cons in Hrg as [_ ?]|lia|by apply list.Forall_cons in Hel as [_ ?]|by apply list.Forall_cons in Hsz as [_ ?]].
  - split; [done|done|]. cbn. rewrite El, Ef. cbn. intros i d Hi. destruct (Hc3 (S i) d Hi) as (y & Hy & [Hyn Hyp Hyd]). exists y. split; [done|]. split; [done|done|]. intros es Hes. by apply Hyd.
  - unfold push_at, at_write, swritten in *. cbn [s_goto with_skern suser smem sg_live sg_front sg_cur spop]. rewrite El, Ef in *. cbn [tail length] in *. destruct (p_pc (suser q)); exact Hp.
  - destruct Hr as [R1 R2 R3 R4 R5 R6]. rewrite E in *. rewrite El in *. split; cbn; rewrite ?El; cbn.
    + lia.
    + split; [by exists c'|done].
    + exact R3.
    + cbn in R4. lia.
    + intros _. split; [|done]. by apply list.Forall_cons in Hrg as [? _].
    + done.
  - split; cbn; [rewrite Ht1, Eus, Ef; cbn; by rewrite !app_assoc|]. rewrite Ht2, Htk, firstn_all. by rewrite app_nil_r.
Qed.
(** A store to the chunk that is away *)
Lemma sinv_away g q f pc : sinv g q → away (s_pc (skern q)) = true → (∀ x, buffer (f x) = buffer x) → turning pc = turning (s_pc (skern q)) → away pc = true →
  match pc with SResetProgress _ => ∀ x, next (f x) = 0 | STail _ => ∀ x, chunks (smem q) !! Z.to_nat (sqCurrentChunk (skern q)) = Some x → next (f x) = 0 ∧ progressFutex (f x) = 0 | _ => False end →
  ∃ q', store_word q (sqCurrentChunk (skern q)) f = Ret q' ∧ sinv g (s_goto q' pc) ∧ skern q' = skern q ∧ suser q' = suser q ∧ pushed q' = pushed q ∧ dispatched q' = dispatched q.
Proof using Hcfg.
  intros Hi Ha Hb Ht Hpc Hm. pose proof (si_read _ _ _ _ _ Hi) as Hr. destruct (ro_away _ _ _ _ _ Hr Ha) as [Hrange Hnot]. pose proof (si_ghost _ _ _ _ _ Hi) as Hg. pose proof (sf_chunks _ _ _ Hcfg) as Hcf.
  destruct (lookup_lt_is_Some_2 (chunks (smem q)) (Z.to_nat (sqCurrentChunk (skern q)))) as [x Hx]. { rewrite (sco_length _ _ _ _ _ (si_chunks _ _ _ _ _ Hi)). lia. }
  rewrite (store_word_Ret _ _ _ x) by (lia || done). eexists. split; [done|]. split; [|done]. destruct Hi as [_ Hch Hp _ Hlo Htr He]. split; try done; cbn.
  - apply schunks_away with (x := x); try done. by rewrite Hb.
  - unfold push_at in *. destruct (p_pc (suser q)) eqn:Ep; try done. destruct Hp as (Hj & [Hw1 Hw2] & Hfit & y & Hy & Hd). do 3 (split; [done|]). exists y. split; [|done].
    rewrite list_lookup_insert_ne; [done|]. apply not_eq_sym. by apply (slive_not _ _ _ Hcfg g (length (sg_front g))).
  - destruct Hr as [R1 R2 R3 R4 R5 R6]. rewrite Ha in R4. split; cbn; rewrite ?Ht, ?Hpc; try done.
    destruct pc; try done; intros y; rewrite list_lookup_insert_eq by (by eapply lookup_lt_Some); intros [= <-]; [by apply Hm|by apply Hm].
  - unfold look_ok in *. by destruct pc.
Qed.
Definition ssupply (g : SGhost) (c : Z) : SGhost := MkSGhost (sg_live g ++ [c]) (sg_front g) (sg_cur g) (sg_hist g) (sg_taken g).
Lemma push_supply cs cs' g u c : (∀ i d x, sg_live g !! i = Some d → cs !! Z.to_nat d = Some x → ∃ x', cs' !! Z.to_nat d = Some x' ∧ buffer x' = buffer x) →
  push_at chunkSize cs g u → push_at chunkSize cs' (ssupply g c) u.
Proof.
  intros Hcs. assert (∀ i d, sg_live g !! i = Some d → sg_live (ssupply g c) !! i = Some d) as Hl by (intros i d Hi; cbn; rewrite lookup_app_l; [done|by eapply lookup_lt_Some]).
  assert (∀ p, at_write g u p → at_write (ssupply g c) u p) as Hw by (intros p []; split; auto).
  assert (∀ p, at_write g u p → swritten cs g u → swritten cs' (ssupply g c) u) as Hwr.
  { intros p [Ha _] (x & Hx & Hd). destruct (Hcs _ _ x Ha Hx) as (x' & Hx' & Eb). exists x'. split; [done|]. by rewrite Eb. }
  unfold push_at. cbn [sg_front sg_cur ssupply]. destruct (p_pc u); naive_solver.
Qed.
Lemma schunks_supply g cs cn tl x y : sghost_ok g → schunks_ok chunkSize numCqChunks numSqChunks g cs → numCqChunks ≤ cn < numCqChunks + numSqChunks → cn ∉ sg_live g →
  sg_live g !! pred (length (sg_live g)) = Some tl → cs !! Z.to_nat tl = Some x → cs !! Z.to_nat cn = Some y → next y = 0 → progressFutex y = 0 →
  schunks_ok chunkSize numCqChunks numSqChunks (ssupply g cn) (<[Z.to_nat tl := set_next x (link_word cn)]> cs).
Proof using Hcfg.
  intros Hg [Hl Hb Hc] Hrange Hnot Htl Hx Hy Hn0 Hp0. pose proof (lookup_lt_Some _ _ _ Htl) as Hlt. pose proof (sgo_front _ _ _ _ Hg) as Hfr.
  assert (Z.to_nat tl ≠ Z.to_nat cn) as Hne by (by eapply slive_not). split.
  - by rewrite length_insert.
  - intros k z. destruct (decide (k = Z.to_nat tl)) as [->|Hn].
    + rewrite list_lookup_insert_eq by (by eapply lookup_lt_Some). intros [= <-]. exact (Hb _ _ Hx).
    + rewrite list_lookup_insert_ne by done. apply Hb.
  - cbn. intros i d Hi. apply lookup_app_Some in Hi as [Hi|[Hge Hi]].
    + destruct (Hc i d Hi) as (z & Hz & [Hzn Hzp Hzd]). destruct (decide (S i = length (sg_live g))) as [Hlast|Hlast].
      * assert (d = tl) as ->. { replace (pred (length (sg_live g))) with i in Htl by lia. congruence. } rewrite Hx in Hz. injection Hz as <-.
        exists (set_next x (link_word cn)). rewrite list_lookup_insert_eq by (by eapply lookup_lt_Some). split; [done|]. split; [|done|done]. by rewrite next_word_tail.
      * exists z. rewrite list_lookup_insert_ne. { split; [done|]. split; [|done|done]. apply lookup_lt_Some in Hi. by rewrite next_word_supply by lia. }
        intros H. pose proof (slive_inj _ _ _ Hcfg g _ _ _ _ Hg Htl Hi H). lia.
    + apply list_lookup_singleton_Some in Hi as [Hi <-]. exists y. rewrite list_lookup_insert_ne by done. split; [done|]. split.
      * rewrite Hn0. unfold next_word. by rewrite lookup_ge_None_2 by (rewrite length_app; cbn; lia).
      * rewrite Hp0. unfold sq_word. rewrite lookup_ge_None_2 by lia. by rewrite (proj2 (Nat.eqb_neq _ _)) by lia.
      * intros es Hes. apply lookup_lt_Some in Hes. rewrite length_app in Hes. cbn in Hes. lia.
Qed.
Lemma step_tail g q w : sinv g q → s_pc (skern q) = STail w → ∃ q', sstep chunkSize numCqChunks numSqChunks q = Ret q' ∧ sinv (ssupply g (sqCurrentChunk (skern q))) q' ∧
  skern q' = set_spc (set_sqTail (skern q) (sqCurrentChunk (skern q))) (SNotify w) ∧ suser q' = suser q ∧ pushed q' = pushed q ∧ dispatched q' = dispatched q.
Proof using Hcfg.
  intros Hi E. pose proof (si_read _ _ _ _ _ Hi) as Hr. destruct (ro_away _ _ _ _ _ Hr ltac:(by rewrite E)) as [Hrange Hnot]. pose proof (si_ghost _ _ _ _ _ Hi) as Hg. pose proof (sf_chunks _ _ _ Hcfg) as Hcf.
  destruct (lookup_lt_is_Some_2 (chunks (smem q)) (Z.to_nat (sqCurrentChunk (skern q)))) as [y Hy]. { rewrite (sco_length _ _ _ _ _ (si_chunks _ _ _ _ _ Hi)). lia. }
  pose proof (ro_pc _ _ _ _ _ Hr) as Hpc. rewrite E in Hpc. destruct (Hpc y Hy) as [Hy1 Hy2]. set (cn := sqCurrentChunk (skern q)) in *.
  pose proof (ro_tail _ _ _ _ _ Hr) as Htl. rewrite last_lookup in Htl. destruct (sco_live _ _ _ _ _ (si_chunks _ _ _ _ _ Hi) _ _ Htl) as (x & Hx & Hcell). pose proof (slive_small _ _ _ Hcfg _ _ _ Hg Htl) as Hts.
  unfold sstep. rewrite E, (store_word_Ret _ _ _ x) by (lia || done). cbn [mbind outcome_bind]. eexists. split; [done|]. split; [|done]. fold cn.
  assert (Z.to_nat (sqTailChunk (skern q)) ≠ Z.to_nat cn) as Hne by (by eapply slive_not). pose proof (sgo_front _ _ _ _ Hg) as Hfr. pose proof (lookup_lt_Some _ _ _ Htl) as Hlt.
  assert (head (sg_live g ++ [cn]) = head (sg_live g)) as Ehd by (destruct (sg_live g); [cbn in *; lia|done]).
  destruct Hi as [_ Hch Hp _ Hlo Htr He]. split; try done; cbn.
  - destruct Hg as [G1 G2 G3 G4 G5]. split; cbn; try done.
    + apply list.NoDup_app. split; [done|]. split; [|apply NoDup_singleton]. intros d Hd Hin. apply list_elem_of_singleton in Hin. by subst.
    + rewrite list.Forall_app. split; [done|]. by apply list.Forall_singleton.
    + rewrite length_app. cbn. lia.
  - by apply (schunks_supply g _ cn _ x y).
  - apply (push_supply (chunks (smem q))); [|done]. intros i d z Hi Hz. destruct (decide (Z.to_nat d = Z.to_nat (sqTailChunk (skern q)))) as [Ed|Ed].
    + rewrite Ed in *. exists (set_next x (link_word cn)). rewrite Hx in Hz. injection Hz as <-. by rewrite list_lookup_insert_eq by (by eapply lookup_lt_Some).
    + exists z. by rewrite list_lookup_insert_ne.
  - destruct Hr as [R1 R2 R3 R4 R5 R6]. rewrite E in *. split; cbn; rewrite ?Ehd; try done; [by rewrite last_snoc|]. rewrite length_app. cbn in *. lia.
Qed.

(** *** Every step, and how far the kernel is from the end of its work *)
Definition srank (pc : spc) : nat :=
  match pc with
  | SResetNext _ => 12 | SResetProgress _ => 11 | STail _ => 10 | SNotify _ => 9 | SProgress => 4 | SElements _ => 3 | SNext | SCheck => 2 | SClear => 1 | SIdle => 0
  end.
Definition bit_left (q : SqQueue) : bool := match s_pc (skern q) with SClear => true | _ => sq_bit q end.
Definition smeasure (g : SGhost) (q : SqQueue) : nat :=
  (length (pushed q) - length (dispatched q)) + 20 * length (sg_front g) + 10 * s_waiting (skern q) + (if bit_left q then 6 else 0) + srank (s_pc (skern q)).
Definition at_rest (q : SqQueue) : bool := match s_pc (skern q) with SIdle => (s_waiting (skern q) =? 0)%nat | _ => false end.
Definition ksteps (g : SGhost) (q : SqQueue) (g' : SGhost) (q' : SqQueue) : Prop :=
  sinv g' q' ∧ suser q' = suser q ∧ pushed q' = pushed q ∧ (at_rest q = false → (smeasure g' q' < smeasure g q)%nat).
Lemma dispatched_short g q : sinv g q → length (pushed q) = (length (dispatched q) + (length (read_sent g) - sg_taken g) + length (concat (tail (sg_front g ++ [sg_cur g]))))%nat.
Proof.
  intros Hi. destruct (si_trace _ _ _ _ _ Hi) as [-> ->]. pose proof (ro_taken _ _ _ _ _ (si_read _ _ _ _ _ Hi)). rewrite !length_app, length_take.
  unfold read_sent in *. destruct (sg_front g) as [|s f]; cbn in *; rewrite ?length_app; cbn; lia.
Qed.
Lemma kernel_jump g q k : sinv g q → read_ok numCqChunks numSqChunks (chunks (smem q)) g k → look_ok g (with_skern q k) → at_rest q = true ∨ (10 * s_waiting k + srank (s_pc k) < 10 * s_waiting (skern q) + srank (s_pc (skern q)) ∧ (s_pc k = SClear → sq_bit q = true))%nat →
  ksteps g q g (with_skern q k).
Proof.
  intros Hi Hr Hl Hm. split; [by apply sinv_spc|]. split; [done|]. split; [done|]. intros Hat. destruct Hm as [Hm|[Hm Hb]]; [congruence|]. unfold smeasure, bit_left. cbn.
  assert ((if match s_pc k with SClear => true | _ => sq_bit q end then 6 else 0) ≤ (if match s_pc (skern q) with SClear => true | _ => sq_bit q end then 6 else 0))%nat; [|unfold sq_bit in *; cbn in *; lia].
  destruct (sq_bit q); [by destruct (s_pc k), (s_pc (skern q))|]. destruct (s_pc k); try (destruct (s_pc (skern q)); cbn; lia). by specialize (Hb eq_refl).
Qed.
Lemma skernel_step g q : sinv g q → ∃ g' q', sstep chunkSize numCqChunks numSqChunks q = Ret q' ∧ ksteps g q g' q'.
Proof using Hcfg.
  intros Hi. pose proof (si_read _ _ _ _ _ Hi) as Hr. pose proof (si_look _ _ _ _ _ Hi) as Hl. unfold look_ok in Hl. pose proof (si_ghost _ _ _ _ _ Hi) as Hg. destruct (s_pc (skern q)) as [| |w| |w|w|w|w| |] eqn:E.
  - (* the mutex *)
    exists g. unfold sstep. rewrite E. destruct (s_waiting (skern q)) as [|n] eqn:En.
    + exists q. split; [done|]. split; [done|]. do 2 (split; [done|]). intros H. unfold at_rest in H. by rewrite E, En in H.
    + eexists. split; [done|]. apply kernel_jump; [done| |done|right; cbn; rewrite En, E; cbn; split; [lia|done]]. destruct Hr as [R1 R2 R3 R4 R5 R6]. rewrite E in *. by split.
  - destruct (step_progress g q Hi E) as (q' & Hq & Hi'). exists g, q'. split; [done|]. split; [done|]. unfold sstep in Hq. rewrite E in Hq. apply bind_Ret in Hq as (x & _ & [= <-]).
    do 2 (split; [done|]). intros _. unfold smeasure, bit_left, sq_bit. cbn. rewrite E. cbn. lia.
  - unfold sstep. rewrite E. destruct (Z.ltb_spec (sqCurrentProgress (skern q)) (Z.land w kProgressMask)) as [Hlt|Hge].
    + destruct (taken_dispatch g q _ w Hi E Hl eq_refl Hlt) as (q' & e & -> & He & Hi' & Ek & Eu & Em & Ep & Ed). eexists _, q'. split; [done|]. split; [exact Hi'|]. split; [done|]. split; [done|].
      intros _. unfold smeasure, bit_left, sq_bit. rewrite Ep, Ed, Em, Ek, length_app. cbn [s_pc set_sqCurrent s_waiting length]. rewrite E. pose proof (dispatched_short g q Hi). pose proof (lookup_lt_Some _ _ _ He). cbn. lia.
    + destruct Hl as (m & [Hm1 Hm2] & Hw & Hd & Hlk). pose proof (ro_cursor _ _ _ _ _ Hr) as Hc. rewrite E in Hc. destruct Hc as [_ Hpr].
      assert (m = sg_taken g) as ->. { destruct (decide (m = sg_taken g)); [done|]. pose proof (se_size_mono (sg_taken g) m (read_sent g) ltac:(lia) Hm2). lia. }
      exists g. eexists. split; [done|]. destruct (has w kProgressDone) eqn:Ed.
      * apply kernel_jump; [done|apply read_jump; rewrite ?E; try done; intros _; by apply Hd|done|right; cbn; rewrite E; cbn; split; [lia|done]].
      * apply kernel_jump; [done|by apply read_jump; rewrite ?E| |right; cbn; rewrite E; cbn; split; [lia|done]]. unfold look_ok. cbn. rewrite looks_skern by done. intros H. apply Hlk. tauto.
  - destruct (step_next g q Hi E) as (w & Hq & Hi'). eexists (spop g), _. split; [exact Hq|]. split; [done|]. do 2 (split; [done|]). intros _. unfold smeasure, bit_left, sq_bit. cbn. rewrite E.
    pose proof (ro_pc _ _ _ _ _ Hr) as Hpc. rewrite E in Hpc. destruct Hpc as [Hf _]. destruct (sg_front g); [done|]. cbn. lia.
  - destruct (sinv_away g q (λ x, set_next x 0) (SResetProgress w) Hi) as (q' & Hq & Hi' & Ek & Eu & Ep & Ed); rewrite ?E; try done.
    exists g, (s_goto q' (SResetProgress w)). unfold sstep. rewrite E, Hq. split; [done|]. split; [done|]. do 2 (split; [done|]). intros _. unfold smeasure, bit_left. cbn. rewrite Ep, Ed, Ek, E.
    assert (sq_bit (s_goto q' (SResetProgress w)) = sq_bit q) as ->; [|cbn; lia]. apply bind_Ret in Hq as (m & (x & x' & _ & _ & _ & ->)%on_chunk_inv & [= <-]). done.
  - destruct (sinv_away g q (λ x, set_progress x 0) (STail w) Hi) as (q' & Hq & Hi' & Ek & Eu & Ep & Ed); rewrite ?E; try done.
    { intros x Hx. pose proof (ro_pc _ _ _ _ _ Hr) as Hpc. rewrite E in Hpc. split; [exact (Hpc x Hx)|done]. }
    exists g, (s_goto q' (STail w)). unfold sstep. rewrite E, Hq. split; [done|]. split; [done|]. do 2 (split; [done|]). intros _. unfold smeasure, bit_left. cbn. rewrite Ep, Ed, Ek, E.
    assert (sq_bit (s_goto q' (STail w)) = sq_bit q) as ->; [|cbn; lia]. apply bind_Ret in Hq as (m & (x & x' & _ & _ & _ & ->)%on_chunk_inv & [= <-]). done.
  - destruct (step_tail g q w Hi E) as (q' & Hq & Hi' & Ek & Eu & Ep & Ed). eexists _, q'. split; [exact Hq|]. split; [exact Hi'|]. split; [done|]. split; [done|]. intros _. unfold smeasure, bit_left. rewrite Ep, Ed, Ek. cbn. rewrite E.
    assert (sq_bit q' = sq_bit q) as ->; [|cbn; lia]. unfold sstep in Hq. rewrite E in Hq. apply bind_Ret in Hq as (q1 & Hq1 & [= <-]). apply bind_Ret in Hq1 as (m & (x & x' & _ & _ & _ & ->)%on_chunk_inv & [= <-]). done.
  - (* the next chunk *)
    unfold sstep. rewrite E. eexists g, _. split; [done|]. assert (sinv g (user_bit q kUserNotifySupplySqChunks)) as Hi1.
    { apply sinv_words; [done|done| |done]. cbn. rewrite (error_lor _ 1) by lia. apply Hi. }
    pose proof (ro_cursor _ _ _ _ _ Hr) as Hc. rewrite E in Hc. destruct Hc as [(c & Hhd & ->) Htk]. pose proof Hhd as Hhd'. rewrite head_lookup in Hhd'.
    destruct (kernel_jump g (user_bit q kUserNotifySupplySqChunks) (set_spc (set_sqCurrent (skern q) (without (link_word c) kNextPresent) 0) SProgress)) as (K1 & K2 & K3 & K4); [done| |done|right; cbn; rewrite E; cbn; split; [lia|done]|by split; [|split; [|split]]].
    destruct Hr as [R1 R2 R3 R4 R5 R6]. rewrite E in *. rewrite link_index by (by eapply slive_small). split; cbn; try done. split; [done|]. by rewrite Htk.
  - (* the last look at the bit *)
    unfold sstep. rewrite E. exists g. eexists. split; [done|]. destruct (has (kernelNotify (smem q)) kKernelNotifySqProgress) eqn:Eb.
    + apply kernel_jump; [done|by apply read_jump; rewrite ?E|done|right; cbn; rewrite E; cbn; split; [lia|done]].
    + apply kernel_jump; [done|by apply read_jump; rewrite ?E| |right; cbn; rewrite E; cbn; split; [lia|done]]. unfold look_ok. cbn. by rewrite looks_skern.
  - unfold sstep. rewrite E. exists g. eexists. split; [done|]. split; [|split; [done|split; [done|]]].
    + destruct Hi as [_ Hch Hp _ _ Htr He]. split; try done. by apply (read_jump (chunks (smem q)) g (skern q)); rewrite ?E.
    + intros _. unfold smeasure, bit_left, sq_bit. cbn. rewrite E. unfold kKernelNotifySqProgress. rewrite has_without, (has_one 0 0) by lia. rewrite andb_false_r. cbn. lia.
Qed.

(** ** Every event *)
Lemma sq_event_step g q ev : sinv g q → sq_enabled chunkSize q ev = true → ∃ g' q', sq_exec chunkSize numCqChunks numSqChunks q ev = Ret q' ∧ sinv g' q'.
Proof using Hcfg.
  intros Hi He. destruct ev as [opcode ctx segments| | | |bit set|set]; cbn [sq_exec].
  - exists g. eexists. split; [done|]. by apply begin_step.
  - by apply (push_step g).
  - exists g. eexists. split; [done|]. by apply sinv_drive.
  - destruct (skernel_step g q Hi) as (g' & q' & Hq & Hi' & _). eauto.
  - exists g. cbn in He. pose proof (si_error _ _ _ _ _ Hi) as Her. destruct set; eexists; (split; [done|]); (apply sinv_words; [done|done| |done]); [|by apply error_without].
    apply orb_true_iff in He as [->%Z.eqb_eq| ->%Z.eqb_eq]; cbn; [by rewrite (error_lor _ 0) by lia|by rewrite (error_lor _ 15) by lia].
  - exists g. assert (∀ v, has v kKernelNotifySqProgress = sq_bit q → sinv g (with_smem q (set_kernelNotify (smem q) v))) as H.
    { intros v Hv. apply sinv_words; [done|done|apply Hi|]. unfold looks_again, sq_bit in *. cbn. by rewrite Hv. }
    destruct set; eexists; (split; [done|]); apply H; unfold sq_bit, kKernelNotifySqProgress; [rewrite has_lor by lia; apply orb_false_r|rewrite has_without by lia; apply andb_true_r].
Qed.
Lemma sq_start_inv : sinv (MkSGhost (seqZ numCqChunks numSqChunks) [] [] [] 0) (sq_start chunkSize numCqChunks numSqChunks).
Proof using Hcfg.
  pose proof (sf_chunks _ _ _ Hcfg) as Hc. pose proof (sf_size _ _ _ Hcfg) as Hs. split; try done.
  - split; cbn.
    + apply NoDup_seqZ.
    + apply Forall_seqZ. intros; lia.
    + rewrite length_seqZ. lia.
    + by repeat constructor.
    + constructor; [|done]. change (se_size []) with 0. lia.
  - assert (∀ i, buffer (sq_chunk chunkSize numCqChunks numSqChunks i) = replicate (Z.to_nat (reservedPerChunk chunkSize - sizeof_ChunkStruct)) 0) as Hb by (intros i; unfold sq_chunk; by destruct (_ && _)).
    split; cbn.
    + by rewrite length_fmap, length_seq.
    + intros i x Hx. apply list_lookup_fmap_Some in Hx as (j & -> & _). rewrite Hb, length_replicate. unfold reservedPerChunk, sizeof_ChunkStruct. change 63 with (Z.ones 6) at 2.
      rewrite Z.ldiff_ones_r, Z.shiftl_mul_pow2, Z.shiftr_div_pow2 by lia. pose proof (Z.div_mod (8 + chunkSize + 63) (2 ^ 6) ltac:(lia)). pose proof (Z.mod_pos_bound (8 + chunkSize + 63) (2 ^ 6) ltac:(lia)). lia.
    + intros i c Hi. apply lookup_seqZ in Hi as [-> Hi]. eexists. split; [rewrite list_lookup_fmap, lookup_seq_lt by lia; done|].
      split.
      * unfold sq_chunk, next_word. rewrite Nat.add_0_l, Z2Nat.id by lia. destruct (decide (Z.of_nat i + 1 < numSqChunks)) as [Hlt|Hge].
        -- rewrite (proj2 (andb_true_iff _ _)) by lia. rewrite lookup_seqZ_lt by lia. cbn. unfold link_word. f_equal. lia.
        -- rewrite (proj2 (andb_false_iff _ _)) by lia. by rewrite lookup_seqZ_ge by lia.
      * unfold sq_chunk. destruct (_ && _); cbn; by destruct i.
      * intros es Hes. apply list_lookup_singleton_Some in Hes as [_ <-]. done.
  - split; cbn; [|done]. rewrite lookup_seqZ_lt by lia. f_equal. lia.
  - split; cbn; try done.
    + rewrite head_lookup, lookup_seqZ_lt by lia. split; [f_equal; lia|done].
    + rewrite last_lookup, length_seqZ, lookup_seqZ_lt by lia. f_equal. lia.
    + rewrite length_seqZ. lia.
  - unfold look_ok. cbn. intros [H|H]; [lia|done].
Qed.
Lemma sq_reachable_inv q : sq_reachable chunkSize numCqChunks numSqChunks q → ∃ g, sinv g q.
Proof using Hcfg.
  induction 1 as [|q ev q' _ [g Hi] He Hx]; [eexists; apply sq_start_inv|]. destruct (sq_event_step g q ev Hi He) as (g' & q'' & H & H'). rewrite Hx in H. injection H as ->. eauto.
Qed.

Lemma dispatched_prefix g q : sinv g q → ∃ rest, pushed q = dispatched q ++ rest.
Proof.
  intros Hi. destruct (si_trace _ _ _ _ _ Hi) as [-> ->]. assert (∃ r, concat (sg_front g ++ [sg_cur g]) = read_sent g ++ r) as [r ->] by (unfold read_sent; destruct (sg_front g); cbn; eauto).
  exists (drop (sg_taken g) (read_sent g) ++ r). rewrite <- (take_drop (sg_taken g) (read_sent g)) at 1. by rewrite <- !app_assoc.
Qed.

(** ** The end of the work *)
Fixpoint sq_run (q : SqQueue) (evs : list sq_event) : outcome SqQueue :=
  match evs with [] => Ret q | ev :: evs => q ← sq_exec chunkSize numCqChunks numSqChunks q ev; sq_run q evs end.
Lemma store_bit q c f q' : store_word q c f = Ret q' → sq_bit q' = sq_bit q.
Proof. intros (m & (x & x' & _ & _ & _ & ->)%on_chunk_inv & [= <-])%bind_Ret. done. Qed.
Lemma sstep_bit q q' : sstep chunkSize numCqChunks numSqChunks q = Ret q' → sq_bit q = false → sq_bit q' = false.
Proof.
  unfold sstep. destruct (s_pc (skern q)).
  - destruct (s_waiting (skern q)); by intros [= <-].
  - by intros (x & _ & [= <-])%bind_Ret.
  - destruct (_ <? _); [|by intros [= <-]]. unfold dispatch. cbn zeta. destruct (_ <? _); [by intros [= <-]|]. intros (x & _ & H)%bind_Ret. apply bind_Ret in H as (hd & _ & H).
    destruct (_ <? _); [by injection H as <-|]. by apply bind_Ret in H as (data & _ & [= <-]).
  - intros (x & _ & H)%bind_Ret. destruct (has _ _); [|by injection H as <-]. destruct (isValidSqChunk _ _ _); by injection H as <-.
  - intros (q1 & Hq%store_bit & [= <-])%bind_Ret. unfold sq_bit in *. cbn. by rewrite Hq.
  - intros (q1 & Hq%store_bit & [= <-])%bind_Ret. unfold sq_bit in *. cbn. by rewrite Hq.
  - intros (q1 & Hq%store_bit & [= <-])%bind_Ret. unfold sq_bit in *. cbn. by rewrite Hq.
  - by intros [= <-].
  - by intros [= <-].
  - intros [= <-] Hb. unfold sq_bit, kKernelNotifySqProgress in *. cbn. rewrite has_without by lia. by rewrite Hb.
Qed.
Lemma drive_frame q : suser (drive numSqChunks q) = suser q ∧ pushed (drive numSqChunks q) = pushed q ∧ sq_bit (drive numSqChunks q) = false.
Proof.
  assert (has (without (kernelNotify (smem q)) kKernelNotifySqProgress) kKernelNotifySqProgress = false) as H.
  { unfold kKernelNotifySqProgress. rewrite has_without, (has_one 0 0) by lia. apply andb_false_r. }
  unfold drive, sq_bit. destruct (_ && _); done.
Qed.
Lemma kernel_rests n : ∀ g q, sinv g q → sq_bit q = false → (smeasure g q ≤ n)%nat →
  ∃ m g' q', sq_run q (replicate m SqKernelStep) = Ret q' ∧ (m ≤ n)%nat ∧ sinv g' q' ∧ at_rest q' = true ∧ sq_bit q' = false ∧ suser q' = suser q ∧ pushed q' = pushed q.
Proof using Hcfg.
  induction n as [n IH] using lt_wf_ind. intros g q Hi Hb Hn. destruct (at_rest q) eqn:Er; [by exists 0%nat, g, q; split; [|split; [lia|]]|].
  destruct (skernel_step g q Hi) as (g1 & q1 & Hq & Hi1 & Eu & Ep & Hm). specialize (Hm Er). pose proof (sstep_bit q q1 Hq Hb) as Hb1.
  destruct (IH (smeasure g1 q1) ltac:(lia) g1 q1 Hi1 Hb1 ltac:(lia)) as (m & g' & q' & Hrun & Hle & Hi' & Hr & Hb' & Eu' & Ep'). exists (S m), g', q'.
  split; [cbn; by rewrite Hq|]. split; [lia|]. by rewrite Eu', Ep'.
Qed.
Lemma rest_complete g q : sinv g q → at_rest q = true → sq_bit q = false → signals (p_pc (suser q)) = false → sg_front g = [] ∧ dispatched q = pushed q.
Proof.
  intros Hi Hr Hb Hs. unfold at_rest in Hr. destruct (s_pc (skern q)) eqn:E; try done. pose proof (si_look _ _ _ _ _ Hi) as Hl. unfold look_ok in Hl. rewrite E in Hl. unfold looks_again in Hl. rewrite Hb, Hr, Hs in Hl. cbn in Hl.
  assert (sg_front g = []) as Ef by (destruct (sg_front g) eqn:Ef; [done|]; discriminate Hl; by right). split; [done|]. destruct (si_trace _ _ _ _ _ Hi) as [-> ->].
  assert (¬ (sg_taken g < length (read_sent g))%nat) as Hge by (intros H; discriminate Hl; by left). unfold read_sent in *. rewrite Ef in *. cbn in *. rewrite app_nil_r. by rewrite take_ge by lia.
Qed.
Lemma rest_next g q : sinv g q → at_rest q = true → sg_front g = [] → signals (p_pc (suser q)) = false → 2 ≤ numSqChunks →
  ∃ x, get_chunk (smem q) (sqWriteChunk (suser q)) = Ret x ∧ has (next x) kNextPresent = true.
Proof using Hcfg.
  intros Hi Hr Ef Hs H2. unfold at_rest in Hr. destruct (s_pc (skern q)) eqn:E; try done. pose proof (ro_count _ _ _ _ _ (si_read _ _ _ _ _ Hi)) as Hn. rewrite E in Hn. cbn in Hn.
  assert (∃ p, at_write g (suser q) p) as [p Hw]. { pose proof (si_push _ _ _ _ _ Hi) as Hp. unfold push_at in Hp. destruct (p_pc (suser q)); try done; intuition eauto. }
  destruct (write_cell _ _ _ Hcfg g q p Hi Hw) as (x & H0 & Hx & _ & Hcell). exists x. split; [by apply get_chunk_Ret|]. rewrite (sc_next _ _ _ _ _ Hcell), Ef. unfold next_word. cbn.
  destruct (lookup_lt_is_Some_2 (sg_live g) 1 ltac:(lia)) as [c ->]. apply link_present.
Qed.
End steps.

(** ** Runs of concrete events *)
Fixpoint sq_trace (chunkSize numCqChunks numSqChunks : Z) (q : SqQueue) (evs : list sq_event) : outcome SqQueue :=
  match evs with
  | [] => Ret q
  | ev :: evs => assert! sq_enabled chunkSize q ev; q ← sq_exec chunkSize numCqChunks numSqChunks q ev; sq_trace chunkSize numCqChunks numSqChunks q evs
  end.
Lemma sq_trace_reachable a b c evs : ∀ q q', sq_reachable a b c q → sq_trace a b c q evs = Ret q' → sq_reachable a b c q'.
Proof.
  induction evs as [|ev evs IH]; intros q q' Hq; cbn; [by intros [= <-]|]. destruct (sq_enabled a q ev) eqn:He; [|done].
  intros (? & _ & (q1 & Hx & Ht)%bind_Ret)%bind_Ret. apply (IH q1 q'); [|done]. by apply (sq_reach_step _ _ _ q ev).
Qed.
Definition sq_after (a b c : Z) (evs : list sq_event) : SqQueue :=
  match sq_trace a b c (sq_start a b c) evs with Ret q => q | Stop _ => sq_start a b c end.
Lemma sq_after_reachable a b c evs : sq_reachable a b c (sq_after a b c evs).
Proof.
  unfold sq_after. destruct (sq_trace a b c (sq_start a b c) evs) as [q|] eqn:E; [|apply sq_reach_start]. apply (sq_trace_reachable a b c evs (sq_start a b c)); [apply sq_reach_start|done].
Qed.
Lemma sq_config_small : sq_config 64 2 2.
Proof. split; lia. Qed.
(** Two elements, the second one in the next chunk *)
Definition push_one : list sq_event := SqPush 3 7 [[1; 2]; [3]] :: replicate 3 SqUserStep.
Definition push_two : list sq_event := SqPush 4 8 [replicate 40 9] :: replicate 6 SqUserStep.

(** ** The theorems *)

(** C21: In every reachable state of a submission queue into which user space pushes only
    elements that fit into a chunk, one at a time, the operations that the kernel has
    started are a prefix of the elements that user space has pushed, with their opcodes,
    contexts and data; the kernel never reports an error to user space, and every event
    succeeds. *)
Theorem submissions_dispatched chunkSize numCqChunks numSqChunks q (Hcfg : sq_config chunkSize numCqChunks numSqChunks) (Hq : sq_reachable chunkSize numCqChunks numSqChunks q) :
  (∃ rest, pushed q = dispatched q ++ rest) ∧ has (userNotify (smem q)) kUserNotifyError = false ∧
  ∀ ev, sq_enabled chunkSize q ev = true → ∃ q', sq_exec chunkSize numCqChunks numSqChunks q ev = Ret q'.
Proof.
  destruct (sq_reachable_inv _ _ _ Hcfg q Hq) as [g Hi]. split; [by apply (dispatched_prefix chunkSize numCqChunks numSqChunks g)|]. split; [apply (si_error _ _ _ _ _ Hi)|].
  intros ev He. destruct (sq_event_step _ _ _ Hcfg g q ev Hi He) as (g' & q' & H & _). by exists q'.
Qed.
Lemma submissions_dispatched_witness :
  let q := sq_after 64 2 2 (push_one ++ push_two ++ SqDrive :: replicate 4 SqKernelStep) in
  dispatched q = [MkSqElem 3 7 [1; 2; 3]] ∧ length (pushed q) = 2%nat ∧ has (userNotify (smem q)) kUserNotifyError = false ∧ ∃ rest, pushed q = dispatched q ++ rest.
Proof.
  split; [vm_compute; reflexivity|]. split; [vm_compute; reflexivity|].
  destruct (submissions_dispatched 64 2 2 (sq_after 64 2 2 (push_one ++ push_two ++ SqDrive :: replicate 4 SqKernelStep)) sq_config_small (sq_after_reachable _ _ _ _)) as (H1 & H2 & _).
  split; [exact H2|exact H1].
Defined.

(** C22: [processSq] finishes: a call of [helDriveQueue] when user space is not in the middle
    of publishing ends after finitely many steps of the kernel, and then every pushed element
    has been dispatched.  With two or more chunks another one is then available, so that
    [pushSq] does not wait for a chunk for ever. *)
Theorem submissions_processed chunkSize numCqChunks numSqChunks q (Hcfg : sq_config chunkSize numCqChunks numSqChunks) (Hq : sq_reachable chunkSize numCqChunks numSqChunks q)
    (Hs : signals (p_pc (suser q)) = false) :
  ∃ n q', sq_run chunkSize numCqChunks numSqChunks q (SqDrive :: replicate n SqKernelStep) = Ret q' ∧ at_rest q' = true ∧ pushed q' = pushed q ∧ dispatched q' = pushed q ∧
    (2 ≤ numSqChunks → ∃ x, get_chunk (smem q') (sqWriteChunk (suser q)) = Ret x ∧ has (next x) kNextPresent = true).
Proof.
  destruct (sq_reachable_inv _ _ _ Hcfg q Hq) as [g Hi]. pose proof (sinv_drive _ _ _ Hcfg g q Hi) as Hi1. destruct (drive_frame numSqChunks q) as (Eu & Ep & Eb).
  destruct (kernel_rests _ _ _ Hcfg _ g _ Hi1 Eb (le_n _)) as (n & g' & q' & Hrun & _ & Hi' & Hr & Hb & Eu' & Ep'). exists n, q'. rewrite Eu in Eu'. rewrite Ep in Ep'. rewrite <- Eu' in Hs.
  destruct (rest_complete _ _ _ g' q' Hi' Hr Hb Hs) as [Hf Hd]. split; [done|]. split; [done|]. split; [done|]. split; [by rewrite Hd|].
  intros H2. rewrite <- Eu'. by apply (rest_next chunkSize numCqChunks numSqChunks Hcfg g').
Qed.
Lemma submissions_processed_witness :
  let q := sq_after 64 2 2 (push_one ++ push_two) in
  length (pushed q) = 2%nat ∧ dispatched q = [] ∧ ∃ n q', sq_run 64 2 2 q (SqDrive :: replicate n SqKernelStep) = Ret q' ∧ dispatched q' = pushed q.
Proof.
  split; [vm_compute; reflexivity|]. split; [vm_compute; reflexivity|].
  destruct (submissions_processed 64 2 2 (sq_after 64 2 2 (push_one ++ push_two)) sq_config_small (sq_after_reachable _ _ _ _)) as (n & q' & H1 & _ & _ & H2 & _).
  - vm_compute. reflexivity.
  - exists n, q'. split; [exact H1|exact H2].
Defined.

(** With a single chunk [pushSq] never gets another one: it is given back only after user
    space has finished it, and user space finishes it only when another one is there. *)
Lemma single_chunk_spins :
  let q := sq_after 64 2 1 (push_one ++ SqDrive :: replicate 4 SqKernelStep ++ [SqPush 4 8 [replicate 40 9]]) in
  p_pc (suser q) = PNextLoad ∧ dispatched q = pushed q ∧ sq_run 64 2 1 q (replicate 3 SqUserStep) = Ret q.
Proof. split; [|split]; vm_compute; reflexivity. Qed.
(** [pushSq] does not check that an element fits into a chunk at all. *)
Lemma large_element_overruns :
  sq_run 64 2 2 (sq_start 64 2 2) (SqPush 3 7 [replicate 200 1] :: replicate 4 SqUserStep) = Stop OutOfBounds.
Proof. vm_compute. reflexivity. Qed.
