(* ===== verification/Scheduler.v ===== *)
(** * The scheduler of a processor

    [Scheduler] of kernel/thor/generic/schedule.cpp with the sequences of its calls in
    thread.cpp and fiber.cpp.  Entities are numbers; their fields are a function.  Progress
    is a 128-bit number with 62 fractional bits of a nanosecond, which does not overflow
    within 2^64 nanoseconds; it is a [Z], like the clock.  Priorities are C++ [int]s, and
    their difference wraps.  A reading of the clock is an argument; the preemption deadline
    of timer.cpp and the ping interrupt in flight are fields of the state.

    The queue of waiting entities is a frg::pairing_heap, which is not part of the
    repository: a class with the contract that, for an ordering of its elements, all
    others come after the top.  The heap does not reorder when a field of an element
    changes, so the contract is about queues whose keys are fixed; [queue_keys_kept] of
    [SchedulerInv] shows that the scheduler never changes them.

    Interrupts are disabled in every operation, so the operations of one processor are
    atomic; another processor can only [resume], and with it add to the list of pending
    entities. *)
From Stdlib Require Import ZArith Lia ZifyBool.
From stdpp Require Import base list numbers option.
From S2P Require Import Prelude.
Open Scope Z_scope.

Class PairingHeap := {
  heap_top : (nat → nat → bool) → list nat → option nat;
  heap_top_nil greater : heap_top greater [] = None;
  heap_top_first greater q : q ≠ [] →
    (∀ a b, a ∈ q → b ∈ q → greater a b = true ∨ greater b a = true) →
    (∀ a b c, a ∈ q → b ∈ q → c ∈ q → greater a b = true → greater b c = true → greater a c = true) →
    ∃ t, heap_top greater q = Some t ∧ t ∈ q ∧ ∀ e, e ∈ q → e ≠ t → greater e t = true;
}.

(** ** Entities *)
Inductive ScheduleState := StateNull | StateAttached | StatePending | StateActive.
#[export] Instance ScheduleState_eq_dec : EqDecision ScheduleState.
Proof. solve_decision. Defined.
(** [_scheduler]: the entity is associated with this scheduler. *)
Record ScheduleEntity := MkEntity {
  scheduler_ : bool;
  state : ScheduleState;
  priority : Z;
  e_refClock : Z;
  runTime : Z;
  refProgress : Z;
  baseUnfairness : Z;
}.
Definition new_entity : ScheduleEntity := MkEntity false StateNull 0 0 0 0 0.
Definition set_state (e : ScheduleEntity) (s : ScheduleState) : ScheduleEntity := MkEntity (scheduler_ e) s (priority e) (e_refClock e) (runTime e) (refProgress e) (baseUnfairness e).
Definition set_scheduler (e : ScheduleEntity) (b : bool) : ScheduleEntity := MkEntity b (state e) (priority e) (e_refClock e) (runTime e) (refProgress e) (baseUnfairness e).
Definition set_priority (e : ScheduleEntity) (p : Z) : ScheduleEntity := MkEntity (scheduler_ e) (state e) p (e_refClock e) (runTime e) (refProgress e) (baseUnfairness e).
Definition set_clock (e : ScheduleEntity) (clock time : Z) : ScheduleEntity := MkEntity (scheduler_ e) (state e) (priority e) clock time (refProgress e) (baseUnfairness e).
Definition set_fairness (e : ScheduleEntity) (ref base : Z) : ScheduleEntity := MkEntity (scheduler_ e) (state e) (priority e) (e_refClock e) (runTime e) ref base.
Definition orderPriority (a b : ScheduleEntity) : Z := i32 (priority b - priority a).
Definition scheduleBefore (a b : ScheduleEntity) : bool := baseUnfairness b - refProgress b <? baseUnfairness a - refProgress a.
Definition ScheduleGreater (a b : ScheduleEntity) : bool :=
  let po := orderPriority a b in if negb (po =? 0) then 0 <? po else negb (scheduleBefore a b).

(** ** The scheduler *)
Definition progressShift : Z := 62.
Definition sliceGranularity : Z := 10000000.
Inductive Task := Idle | Regular (id : nat).
#[export] Instance Task_eq_dec : EqDecision Task.
Proof. solve_decision. Defined.
Record Scheduler := MkScheduler {
  entity : nat → ScheduleEntity;
  current : option Task;
  scheduled : option Task;
  waitQueue : list nat;
  numWaiting : Z;
  mustCallPreemption : bool;
  refClock : Z;
  sliceClock : Z;
  systemProgress : Z;
  pendingList : list nat;
  preemptionDeadline : option Z;
  pingSent : bool;
}.
Definition put_entity (s : Scheduler) (id : nat) (e : ScheduleEntity) : Scheduler :=
  MkScheduler (λ i, if (i =? id)%nat then e else entity s i) (current s) (scheduled s) (waitQueue s) (numWaiting s) (mustCallPreemption s) (refClock s) (sliceClock s) (systemProgress s) (pendingList s) (preemptionDeadline s) (pingSent s).
Definition set_tasks (s : Scheduler) (cur sched : option Task) : Scheduler :=
  MkScheduler (entity s) cur sched (waitQueue s) (numWaiting s) (mustCallPreemption s) (refClock s) (sliceClock s) (systemProgress s) (pendingList s) (preemptionDeadline s) (pingSent s).
Definition set_queue (s : Scheduler) (q : list nat) (n : Z) : Scheduler :=
  MkScheduler (entity s) (current s) (scheduled s) q n (mustCallPreemption s) (refClock s) (sliceClock s) (systemProgress s) (pendingList s) (preemptionDeadline s) (pingSent s).
Definition set_must (s : Scheduler) (b : bool) : Scheduler :=
  MkScheduler (entity s) (current s) (scheduled s) (waitQueue s) (numWaiting s) b (refClock s) (sliceClock s) (systemProgress s) (pendingList s) (preemptionDeadline s) (pingSent s).
Definition set_time (s : Scheduler) (clock progress : Z) : Scheduler :=
  MkScheduler (entity s) (current s) (scheduled s) (waitQueue s) (numWaiting s) (mustCallPreemption s) clock (sliceClock s) progress (pendingList s) (preemptionDeadline s) (pingSent s).
Definition set_slice (s : Scheduler) (clock : Z) : Scheduler :=
  MkScheduler (entity s) (current s) (scheduled s) (waitQueue s) (numWaiting s) (mustCallPreemption s) (refClock s) clock (systemProgress s) (pendingList s) (preemptionDeadline s) (pingSent s).
Definition set_pending_list (s : Scheduler) (l : list nat) : Scheduler :=
  MkScheduler (entity s) (current s) (scheduled s) (waitQueue s) (numWaiting s) (mustCallPreemption s) (refClock s) (sliceClock s) (systemProgress s) l (preemptionDeadline s) (pingSent s).
Definition set_deadline (s : Scheduler) (d : option Z) : Scheduler :=
  MkScheduler (entity s) (current s) (scheduled s) (waitQueue s) (numWaiting s) (mustCallPreemption s) (refClock s) (sliceClock s) (systemProgress s) (pendingList s) d (pingSent s).
Definition Scheduler_new : Scheduler := MkScheduler (λ _, new_entity) (Some Idle) None [] 0 false 0 0 0 [] None false.
Definition set_ping (s : Scheduler) (b : bool) : Scheduler :=
  MkScheduler (entity s) (current s) (scheduled s) (waitQueue s) (numWaiting s) (mustCallPreemption s) (refClock s) (sliceClock s) (systemProgress s) (pendingList s) (preemptionDeadline s) b.

Definition is_current (s : Scheduler) (id : nat) : bool := match current s with Some (Regular c) => (c =? id)%nat | _ => false end.
Definition is_state (s : Scheduler) (id : nat) (st : ScheduleState) : bool := bool_decide (state (entity s id) = st).

Section heap.
Context `{!PairingHeap}.
Definition queue_top (s : Scheduler) : option nat := heap_top (λ a b, ScheduleGreater (entity s a) (entity s b)) (waitQueue s).
Definition push_waiting (s : Scheduler) (id : nat) : Scheduler := set_queue s (waitQueue s ++ [id]) (numWaiting s + 1).
Definition pop_waiting (s : Scheduler) (id : nat) : Scheduler := set_queue s (filter (λ i, i ≠ id) (waitQueue s)) (numWaiting s - 1).

Definition associate (s : Scheduler) (id : nat) : outcome Scheduler :=
  assert! is_state s id StateNull; Ret (put_entity s id (set_state (set_scheduler (entity s id) true) StateAttached)).
Definition unassociate (s : Scheduler) (id : nat) : outcome Scheduler :=
  assert! scheduler_ (entity s id);
  assert! is_state s id StateAttached;
  assert! negb (is_current s id);
  Ret (put_entity s id (set_state (set_scheduler (entity s id) false) StateNull)).
Definition setPriority (s : Scheduler) (id : nat) (p : Z) : outcome Scheduler :=
  assert! scheduler_ (entity s id);
  assert! is_current s id;
  Ret (put_entity s id (set_priority (entity s id) p)).
(** [here]: the call comes from the processor of the scheduler; otherwise it sends a ping. *)
Definition resume (s : Scheduler) (id : nat) (here : bool) : outcome Scheduler :=
  assert! is_state s id StateAttached;
  assert! scheduler_ (entity s id);
  assert! negb (is_current s id);
  let wasEmpty := match pendingList s with [] => true | _ => false end in
  let s := put_entity s id (set_state (entity s id) StatePending) in
  let s := set_pending_list s (pendingList s ++ [id]) in
  Ret (if wasEmpty then if here then set_must s true else set_ping s true else s).

Definition liveUnfairness (s : Scheduler) (id : nat) : Z :=
  let e := entity s id in
  let delta := systemProgress s - refProgress e in
  if is_current s id then baseUnfairness e - numWaiting s * delta else baseUnfairness e + delta.
Definition liveRuntime (s : Scheduler) (id : nat) : Z :=
  let e := entity s id in
  if is_current s id then runTime e + (refClock s - e_refClock e) else runTime e.
Definition checked_unfairness (s : Scheduler) (id : nat) : outcome Z := assert! is_state s id StateActive; Ret (liveUnfairness s id).

Definition updateCurrentEntity (s : Scheduler) : outcome Scheduler :=
  match current s with
  | None => Stop AssertionFailed
  | Some Idle => Ret s
  | Some (Regular id) =>
      let e := entity s id in
      let delta := systemProgress s - refProgress e in
      Ret (put_entity s id (set_fairness e (systemProgress s) (baseUnfairness e - numWaiting s * delta)))
  end.
Definition updateWaitingEntity (s : Scheduler) (id : nat) : outcome Scheduler :=
  let e := entity s id in
  assert! is_state s id StateActive;
  assert! negb (is_current s id);
  Ret (put_entity s id (set_fairness e (systemProgress s) (baseUnfairness e + (systemProgress s - refProgress e)))).
Definition updateEntityStats (s : Scheduler) (t : Task) : outcome Scheduler :=
  match t with
  | Idle => Ret s
  | Regular id =>
      let e := entity s id in
      assert! is_state s id StateActive || is_current s id;
      Ret (put_entity s id (set_clock e (refClock s) (if is_current s id then runTime e + (refClock s - e_refClock e) else runTime e)))
  end.
Definition fixedInverse (x : Z) : Z := 2 ^ progressShift / x.
Definition updateState (s : Scheduler) (now : Z) : outcome Scheduler :=
  c ← (match current s with Some c => Ret c | None => Stop AssertionFailed end);
  let n := match c with Idle => numWaiting s | Regular _ => numWaiting s + 1 end in
  let deltaTime := now - refClock s in
  updateCurrentEntity (set_time s now (if n =? 0 then systemProgress s else systemProgress s + deltaTime * fixedInverse n)).
Fixpoint enqueue_all (s : Scheduler) (l : list nat) : outcome Scheduler :=
  match l with
  | [] => Ret s
  | id :: l =>
      let e := entity s id in
      assert! is_state s id StatePending;
      let e := set_state (set_clock (set_fairness e (systemProgress s) (baseUnfairness e)) (refClock s) (runTime e)) StateActive in
      enqueue_all (push_waiting (put_entity s id e) id) l
  end.
Definition updateQueue (s : Scheduler) : outcome Scheduler := enqueue_all (set_pending_list s []) (pendingList s).
Definition update (s : Scheduler) (now : Z) : outcome Scheduler := s ← updateState s now; updateQueue s.

Definition suspendCurrent (s : Scheduler) : outcome Scheduler :=
  match current s with
  | Some (Regular id) =>
      s ← updateEntityStats s (Regular id);
      Ret (set_tasks (put_entity s id (set_state (entity s id) StateAttached)) None (scheduled s))
  | _ => Stop AssertionFailed
  end.
Definition unschedule (s : Scheduler) : outcome Scheduler :=
  match current s with
  | None => Stop AssertionFailed
  | Some c =>
      s ← updateEntityStats s c;
      let s := match c with Regular id => push_waiting s id | Idle => s end in
      Ret (set_tasks s None (scheduled s))
  end.
Definition schedule (s : Scheduler) : outcome Scheduler :=
  assert! bool_decide (current s = None);
  assert! bool_decide (scheduled s = None);
  match queue_top s with
  | None => Ret (set_tasks s None (Some Idle))
  | Some id =>
      let s := pop_waiting s id in
      assert! is_state s id StateActive;
      s ← updateWaitingEntity s id;
      s ← updateEntityStats s (Regular id);
      Ret (set_tasks s None (Some (Regular id)))
  end.
Definition wantToSchedule (s : Scheduler) : outcome bool :=
  match queue_top s, current s with
  | None, _ => Ret false
  | Some _, None => Stop AssertionFailed
  | Some _, Some Idle => Ret true
  | Some t, Some (Regular c) =>
      assert! is_state s c StateActive;
      let po := orderPriority (entity s c) (entity s t) in
      if 0 <? po then Ret true
      else if po <? 0 then Ret false
      else
        uc ← checked_unfairness s c;
        ut ← checked_unfairness s t;
        Ret (uc + Z.shiftl sliceGranularity progressShift - ut <? 0)
  end.
Definition maybeReschedule (s : Scheduler) : outcome (Scheduler * bool) :=
  assert! bool_decide (current s ≠ None);
  w ← wantToSchedule s;
  if w : bool then s ← unschedule s; s ← schedule s; Ret (s, true) else Ret (s, false).
Definition forceReschedule (s : Scheduler) : outcome Scheduler :=
  s ← (match current s with Some _ => unschedule s | None => Ret s end); schedule s.
Definition updatePreemption (s : Scheduler) (now : Z) : outcome Scheduler :=
  match queue_top s with
  | None => Ret s
  | Some t =>
      match current s with
      | Some (Regular c) =>
          assert! is_state s c StateActive;
          let po := orderPriority (entity s c) (entity s t) in
          if po <? 0 then Ret s
          else assert! po =? 0; Ret (set_deadline s (Some (now + sliceGranularity)))
      | _ => Stop AssertionFailed
      end
  end.
Definition arm (s : Scheduler) (now : Z) : outcome Scheduler := match preemptionDeadline s with None => updatePreemption s now | Some _ => Ret s end.
Definition commitReschedule (s : Scheduler) (now : Z) : outcome Scheduler :=
  assert! bool_decide (current s = None);
  match scheduled s with
  | None => Stop AssertionFailed
  | Some t => arm (set_must (set_slice (set_tasks s (Some t) None) (refClock s)) false) now
  end.
Definition renewSchedule (s : Scheduler) (now : Z) : outcome Scheduler := arm (set_must s false) now.
Definition suppressRenewalUntilInterrupt (s : Scheduler) : Scheduler := match preemptionDeadline s with Some _ => set_must s false | None => s end.

(** ** The callers

    [now] is the clock that [updateState] reads and [later] the one that
    [_updatePreemption] reads. *)

(** [handlePreemption] of threads, of fibers and of the idle task *)
Definition handlePreemption (s : Scheduler) (now later : Z) : outcome Scheduler :=
  s ← update s now;
  r ← maybeReschedule s;
  if r.2 : bool then commitReschedule r.1 later else renewSchedule r.1 later.
Definition checkPreemption (s : Scheduler) (now later : Z) : outcome Scheduler :=
  if mustCallPreemption s then handlePreemption s now later else Ret s.
(** The exit of a system call *)
Definition checkThreadPreemption (s : Scheduler) (now later : Z) : outcome Scheduler :=
  checkPreemption (suppressRenewalUntilInterrupt s) now later.
(** The part of [handleTimerInterrupt] that is for the preemption deadline *)
Definition handleTimerInterrupt (s : Scheduler) (now : Z) : Scheduler :=
  match preemptionDeadline s with
  | Some d => if now <? d then s else set_must (set_deadline s None) true
  | None => s
  end.
(** The handler of the ping interrupt *)
Definition onPing (s : Scheduler) : Scheduler := set_must (set_ping s false) true.
(** [Thread::deferCurrent], and the first schedule of a processor *)
Definition deferCurrent (s : Scheduler) (now later : Z) : outcome Scheduler :=
  s ← update s now; s ← forceReschedule s; commitReschedule s later.
(** [Thread::blockCurrent] and [KernelFiber::blockCurrent], once they block *)
Definition blockCurrent (s : Scheduler) (now later : Z) : outcome Scheduler :=
  s ← update s now; s ← suspendCurrent s; s ← forceReschedule s; commitReschedule s later.
(** [Thread::terminateCurrent_]; its observers resume the entities [wakes]. *)
Fixpoint resume_all (s : Scheduler) (l : list nat) : outcome Scheduler :=
  match l with [] => Ret s | id :: l => s ← resume s id true; resume_all s l end.
Definition terminateCurrent (s : Scheduler) (id : nat) (wakes : list nat) (now later : Z) : outcome Scheduler :=
  s ← updateState s now;
  s ← suspendCurrent s;
  s ← unassociate s id;
  s ← resume_all s wakes;
  s ← updateQueue s;
  s ← forceReschedule s;
  commitReschedule s later.
(** [migrateCurrentToAssignedCpu], and [migrateCurrent] to another processor: what happens
    to the scheduler that the thread leaves *)
Definition migrateAway (s : Scheduler) (id : nat) (now later : Z) : outcome Scheduler :=
  s ← update s now; s ← suspendCurrent s; s ← unassociate s id; s ← forceReschedule s; commitReschedule s later.
(** [Thread::migrateCurrent] when the first processor of the affinity mask is this one *)
Definition migrateHere (s : Scheduler) (id : nat) (now later : Z) : outcome Scheduler :=
  s ← update s now;
  s ← suspendCurrent s;
  s ← unassociate s id;
  s ← associate s id;
  s ← resume s id true;
  s ← forceReschedule s;
  commitReschedule s later.

(** ** Events

    What can happen at a processor.  [EvAssociate] is a new entity or one that comes from
    another processor with its own statistics. *)
Inductive event :=
  | EvAssociate (id : nat) (e : ScheduleEntity)
  | EvResume (id : nat) (here : bool)
  | EvSetPriority (id : nat) (p : Z)
  | EvPing
  | EvTimer (now : Z)
  | EvCheck (now later : Z)
  | EvCheckThread (now later : Z)
  | EvDefer (now later : Z)
  | EvBlock (now later : Z)
  | EvTerminate (wakes : list nat) (now later : Z)
  | EvMigrate (now later : Z)
  | EvMigrateHere (now later : Z).
Definition with_current (s : Scheduler) (k : nat → outcome Scheduler) : outcome Scheduler :=
  match current s with Some (Regular id) => k id | _ => Stop NullDereference end.
Definition exec (s : Scheduler) (ev : event) : outcome Scheduler :=
  match ev with
  | EvAssociate id e => associate (put_entity s id e) id
  | EvResume id here => resume s id here
  | EvSetPriority id p => setPriority s id p
  | EvPing => Ret (onPing s)
  | EvTimer now => Ret (handleTimerInterrupt s now)
  | EvCheck now later => checkPreemption s now later
  | EvCheckThread now later => checkThreadPreemption s now later
  | EvDefer now later => deferCurrent s now later
  | EvBlock now later => blockCurrent s now later
  | EvTerminate wakes now later => with_current s (λ id, terminateCurrent s id wakes now later)
  | EvMigrate now later => with_current s (λ id, migrateAway s id now later)
  | EvMigrateHere now later => with_current s (λ id, migrateHere s id now later)
  end.

(** When the callers let an event happen, at a clock of [t] or later: an entity is resumed
    only when it is attached (thread.cpp and fiber.cpp keep its run state under a lock),
    only a running entity blocks, and priorities are half of the range of an [int].
    [setPriority] asserts that it is called for the running entity, so the priority of any
    other entity must not be set. *)
Definition prio_ok (p : Z) : Prop := - 2 ^ 30 ≤ p < 2 ^ 30.
Definition running (s : Scheduler) : Prop := match current s with Some (Regular _) => True | _ => False end.
Definition allowed (t : Z) (s : Scheduler) (ev : event) : Prop :=
  match ev with
  | EvAssociate id e => state (entity s id) = StateNull ∧ state e = StateNull ∧ prio_ok (priority e)
  | EvResume id _ => state (entity s id) = StateAttached
  | EvSetPriority id p => is_current s id = true ∧ prio_ok p
  | EvPing => True
  | EvTimer now => t ≤ now
  | EvCheck now later | EvDefer now later => t ≤ now ≤ later
  | EvCheckThread now later | EvBlock now later | EvMigrate now later | EvMigrateHere now later => running s ∧ t ≤ now ≤ later
  | EvTerminate wakes now later => running s ∧ NoDup wakes ∧ Forall (λ i, state (entity s i) = StateAttached) wakes ∧ t ≤ now ≤ later
  end.
Definition ends (t : Z) (ev : event) : Z :=
  match ev with
  | EvAssociate _ _ | EvResume _ _ | EvSetPriority _ _ | EvPing => t
  | EvTimer now => now
  | EvCheck _ later | EvCheckThread _ later | EvDefer _ later | EvBlock _ later | EvTerminate _ _ later | EvMigrate _ later | EvMigrateHere _ later => later
  end.
Inductive reachable : Z → Scheduler → Prop :=
  | reach_new : reachable 0 Scheduler_new
  | reach_event t s ev s' : reachable t s → allowed t s ev → exec s ev = Ret s' → reachable (ends t ev) s'.
(** A run in which no thread migrates to the processor that it is on *)
Definition migrates_here (ev : event) : bool := match ev with EvMigrateHere _ _ => true | _ => false end.
Inductive continues (t0 : Z) (s0 : Scheduler) : Z → Scheduler → Prop :=
  | continues_start : continues t0 s0 t0 s0
  | continues_event t s ev s' : continues t0 s0 t s → allowed t s ev → migrates_here ev = false → exec s ev = Ret s' → continues t0 s0 (ends t ev) s'.
End heap.
