(* ===== verification/SchedulerInv.v ===== *)
(** * The invariant of the scheduler

    Which entities run, wait and are pending, the key by which the queue is ordered, and
    the effect of each operation on unfairness and run time. *)
From Stdlib Require Import ZArith Lia ZifyBool.
From stdpp Require Import base list numbers option.
From S2P Require Import Prelude Scheduler.
Open Scope Z_scope.

Definition on_cpu (s : Scheduler) : list nat :=
  match current s, scheduled s with
  | Some (Regular c), _ => [c]
  | _, Some (Regular c) => [c]
  | _, _ => []
  end.
Definition runnable (s : Scheduler) : list nat := on_cpu s ++ waitQueue s.
Record wf (s : Scheduler) : Prop := MkWf {
  wf_nodup : NoDup (runnable s ++ pendingList s);
  wf_num : numWaiting s = Z.of_nat (length (waitQueue s));
  wf_active i : state (entity s i) = StateActive ↔ i ∈ runnable s;
  wf_pending i : state (entity s i) = StatePending ↔ i ∈ pendingList s;
  wf_sched i : state (entity s i) ≠ StateNull → scheduler_ (entity s i) = true;
  wf_prio i : prio_ok (priority (entity s i));
  wf_ref i : i ∈ on_cpu s → refProgress (entity s i) = systemProgress s;
  wf_one : current s = None ∨ scheduled s = None;
}.

(** Unfairness and run time at the last update, for running and waiting entities *)
Definition unf (s : Scheduler) (i : nat) : Z := baseUnfairness (entity s i) + (systemProgress s - refProgress (entity s i)).
Definition rtime (s : Scheduler) (i : nat) : Z :=
  if decide (i ∈ on_cpu s) then runTime (entity s i) + (refClock s - e_refClock (entity s i)) else runTime (entity s i).

Record quiet (s s' : Scheduler) : Prop := MkQuiet {
  q_sys : systemProgress s' = systemProgress s;
  q_clock : refClock s' = refClock s;
  q_prio i : priority (entity s' i) = priority (entity s i);
  q_unf i : unf s' i = unf s i;
  q_rtime i : rtime s' i = rtime s i;
  q_pending : pendingList s' = pendingList s;
  q_ping : pingSent s' = pingSent s;
}.
#[export] Instance quiet_preorder : PreOrder quiet.
Proof. split; [by constructor|]. intros x y z [] []. constructor; intros; congruence. Qed.

(** ** The queue *)
Lemma i32_small z : - 2 ^ 31 ≤ z < 2 ^ 31 → i32 z = z.
Proof. intros. apply sx_small; [done|]. simpl. lia. Qed.
Lemma orderPriority_ok a b : prio_ok (priority a) → prio_ok (priority b) → orderPriority a b = priority b - priority a.
Proof. unfold prio_ok, orderPriority. intros. apply i32_small. lia. Qed.
Lemma greater_spec a b : prio_ok (priority a) → prio_ok (priority b) →
  ScheduleGreater a b = true ↔ priority a < priority b ∨ (priority a = priority b ∧ baseUnfairness a - refProgress a ≤ baseUnfairness b - refProgress b).
Proof. intros. unfold ScheduleGreater, scheduleBefore. rewrite orderPriority_ok by done. destruct (Z.eqb_spec (priority b - priority a) 0); simpl; lia. Qed.

(** Case analysis on the entity that an operation writes *)
Ltac on_entity i id := destruct (Nat.eqb_spec i id) as [->|?]; simpl.

Section queue.
Context `{!PairingHeap}.
Lemma queue_top_nil s : waitQueue s = [] → queue_top s = None.
Proof. unfold queue_top. intros ->. apply heap_top_nil. Qed.
Lemma queue_top_first s : wf s → waitQueue s ≠ [] →
  ∃ t, queue_top s = Some t ∧ t ∈ waitQueue s ∧
    ∀ e, e ∈ waitQueue s → priority (entity s e) ≤ priority (entity s t) ∧ (priority (entity s e) = priority (entity s t) → unf s e ≤ unf s t).
Proof.
  intros W Hq. destruct (heap_top_first (λ a b, ScheduleGreater (entity s a) (entity s b)) (waitQueue s) Hq) as (t & E & Ht & Hmax).
  - intros a b _ _. rewrite !greater_spec by apply (wf_prio _ W). lia.
  - intros a b c _ _ _. rewrite !greater_spec by apply (wf_prio _ W). lia.
  - exists t. split_and!; [done..|]. intros e He. destruct (decide (e = t)) as [->|Hne]; [lia|].
    specialize (Hmax e He Hne). rewrite greater_spec in Hmax by apply (wf_prio _ W). unfold unf. lia.
Qed.
Lemma queue_top_None s : wf s → queue_top s = None → waitQueue s = [].
Proof. intros W E. destruct (waitQueue s) eqn:Q; [done|]. destruct (queue_top_first s W) as (? & ? & _); [by rewrite Q|congruence]. Qed.
Lemma live_unf s i : wf s → scheduled s = None → liveUnfairness s i = unf s i.
Proof.
  intros W Hs. unfold liveUnfairness, unf. destruct (is_current s i) eqn:E; [|done].
  unfold is_current in E. destruct (current s) as [[|c]|] eqn:C; try done. apply Nat.eqb_eq in E as ->.
  rewrite (wf_ref _ W i); [lia|]. unfold on_cpu. rewrite C. set_solver.
Qed.

(** ** Operations *)
Lemma is_state_true s i st : state (entity s i) = st → is_state s i st = true.
Proof. intros. by apply bool_decide_true. Qed.
Lemma current_active s c : wf s → current s = Some (Regular c) → state (entity s c) = StateActive.
Proof. intros W E. apply (wf_active _ W). unfold runnable, on_cpu. rewrite E. set_solver. Qed.
Lemma waiting_active s i : wf s → i ∈ waitQueue s → state (entity s i) = StateActive.
Proof. intros W E. apply (wf_active _ W). unfold runnable. set_solver. Qed.
Lemma current_not_waiting s c : wf s → current s = Some (Regular c) → c ∉ waitQueue s.
Proof.
  intros W E Hc. pose proof (wf_nodup _ W) as N. unfold runnable, on_cpu in N. rewrite E in N. simpl in N.
  apply list.NoDup_cons in N as [N _]. set_solver.
Qed.

Definition slice_progress (s : Scheduler) (now : Z) : Z :=
  let n := Z.of_nat (length (runnable s)) in if n =? 0 then 0 else (now - refClock s) * fixedInverse n.
Record ticked (s s' : Scheduler) (now : Z) : Prop := MkTicked {
  k_cur : current s' = current s;
  k_sched : scheduled s' = scheduled s;
  k_queue : waitQueue s' = waitQueue s;
  k_pending : pendingList s' = pendingList s;
  k_deadline : preemptionDeadline s' = preemptionDeadline s;
  k_ping : pingSent s' = pingSent s;
  k_clock : refClock s' = now;
  k_sys : systemProgress s' = systemProgress s + slice_progress s now;
  k_ent i : state (entity s' i) = state (entity s i) ∧ priority (entity s' i) = priority (entity s i);
  k_run i : i ∈ on_cpu s → unf s' i = unf s i - Z.of_nat (length (waitQueue s)) * slice_progress s now ∧ rtime s' i = rtime s i + (now - refClock s);
  k_wait i : i ∉ on_cpu s → unf s' i = unf s i + slice_progress s now ∧ rtime s' i = rtime s i;
}.
Lemma updateState_ok s now : wf s → current s ≠ None → ∃ s', updateState s now = Ret s' ∧ wf s' ∧ ticked s s' now.
Proof.
  intros W Hc. pose proof (wf_one _ W) as Ho. unfold updateState, updateCurrentEntity. destruct (current s) as [[|c]|] eqn:C; [| |done]; simpl; rewrite C.
  - destruct Ho as [?|Hs]; [done|]. eexists. split; [reflexivity|].
    assert (on_cpu s = []) as Ho by (unfold on_cpu; by rewrite C, Hs).
    assert (slice_progress s now = if numWaiting s =? 0 then 0 else (now - refClock s) * fixedInverse (numWaiting s)) as Hp.
    { unfold slice_progress, runnable. rewrite Ho, (wf_num _ W). done. }
    split.
    + destruct W. constructor; try done. intros i. unfold on_cpu. simpl. rewrite C, Hs. set_solver.
    + constructor; try done; simpl.
      * rewrite Hp. destruct (_ =? 0); lia.
      * intros i. rewrite Ho. set_solver.
      * intros i _. rewrite Hp. unfold unf, rtime, on_cpu. simpl. rewrite C, Hs. split; [|done]. destruct (_ =? 0); lia.
  - destruct Ho as [?|Hs]; [done|]. eexists. split; [reflexivity|].
    assert (on_cpu s = [c]) as Ho by (unfold on_cpu; by rewrite C).
    assert ((numWaiting s + 1 =? 0) = false) as Hz by (rewrite (wf_num _ W); lia).
    assert (slice_progress s now = (now - refClock s) * fixedInverse (numWaiting s + 1)) as Hp.
    { unfold slice_progress, runnable. rewrite Ho, (wf_num _ W). simpl length. rewrite Nat2Z.inj_succ, (proj2 (Z.eqb_neq _ _)) by lia. done. }
    assert (refProgress (entity s c) = systemProgress s) as Hr by (apply (wf_ref _ W); rewrite Ho; set_solver).
    split.
    + destruct W. constructor; try done; simpl; try (intros i; on_entity i c; by auto).
      intros i. unfold on_cpu. simpl. rewrite C. intros ->%list_elem_of_singleton. by rewrite Nat.eqb_refl.
    + constructor; try done; simpl.
      * rewrite Hp. by rewrite Hz.
      * intros i. by on_entity i c.
      * intros i. rewrite Ho. intros ->%list_elem_of_singleton. rewrite Hp. unfold unf, rtime, on_cpu. simpl. rewrite C, Nat.eqb_refl. simpl.
        rewrite !decide_True by set_solver. rewrite Hz, Hr, (wf_num _ W). lia.
      * intros i. rewrite Ho. intros Hi%not_elem_of_cons. destruct Hi as [Hi _]. rewrite Hp. unfold unf, rtime, on_cpu. simpl. rewrite C.
        rewrite !decide_False by set_solver. rewrite Hz. on_entity i c; [done|]. lia.
Qed.

Record queued (s s' : Scheduler) (l : list nat) : Prop := MkQueued {
  u_cur : current s' = current s;
  u_sched : scheduled s' = scheduled s;
  u_queue : waitQueue s' = waitQueue s ++ l;
  u_pending : pendingList s' = pendingList s;
  u_deadline : preemptionDeadline s' = preemptionDeadline s;
  u_ping : pingSent s' = pingSent s;
  u_clock : refClock s' = refClock s;
  u_sys : systemProgress s' = systemProgress s;
  u_prio i : priority (entity s' i) = priority (entity s i);
  u_old i : i ∉ l → entity s' i = entity s i;
  u_new i : i ∈ l → state (entity s' i) = StateActive ∧ refProgress (entity s' i) = systemProgress s;
  u_base i : baseUnfairness (entity s' i) = baseUnfairness (entity s i) ∧ runTime (entity s' i) = runTime (entity s i) ∧ scheduler_ (entity s' i) = scheduler_ (entity s i);
  u_num : numWaiting s' = numWaiting s + Z.of_nat (length l);
}.
Lemma enqueue_all_ok l : ∀ s, NoDup l → (∀ i, i ∈ l → state (entity s i) = StatePending) → ∃ s', enqueue_all s l = Ret s' ∧ queued s s' l.
Proof.
  induction l as [|x l IH]; intros s N Hp; simpl.
  - exists s. split; [done|]. constructor; try done; [by rewrite app_nil_r|set_solver|simpl; lia].
  - apply list.NoDup_cons in N as [Nx N]. rewrite assert_bind by (apply is_state_true, Hp; set_solver).
    edestruct IH as (s' & -> & Q); [exact N| |].
    + intros i Hi. simpl. on_entity i x; [done|]. apply Hp. set_solver.
    + exists s'. split; [done|]. destruct Q as [? ? Hq ? ? ? ? Hs Hpr Ho Hn Hb Hm]. simpl in *. constructor; try done.
      * rewrite Hq. simpl. by rewrite <-app_assoc.
      * intros i. rewrite Hpr. by on_entity i x.
      * intros i Hi. rewrite Ho by set_solver. on_entity i x; [set_solver|done].
      * intros i Hi. destruct (decide (i ∈ l)) as [Hil|Hil]; [by apply Hn|]. rewrite Ho by done. on_entity i x; [done|set_solver].
      * intros i. destruct (Hb i) as (-> & -> & ->). by on_entity i x.
      * rewrite Hm. simpl length. lia.
Qed.
Lemma updateQueue_ok s : wf s → ∃ s', updateQueue s = Ret s' ∧ wf s' ∧ queued (set_pending_list s []) s' (pendingList s).
Proof.
  intros W. destruct W as [N Hm Ha Hp Hsc Hpr Hr Ho] eqn:EW. clear EW.
  pose proof N as (_ & Hd & Np)%list.NoDup_app.
  destruct (enqueue_all_ok (pendingList s) (set_pending_list s [])) as (s' & E & Q); [done|intros i; apply Hp|].
  exists s'. split; [done|]. split; [|done]. destruct Q as [Q1 Q2 Q3 Q4 _ _ _ Q8 Q9 Qo Qn Qb Qm]; simpl in *.
  assert (on_cpu s' = on_cpu s) as Hc by (unfold on_cpu; by rewrite Q1, Q2).
  constructor.
  - unfold runnable in *. by rewrite Hc, Q3, Q4, app_nil_r, app_assoc.
  - rewrite Qm, Q3, Hm, length_app. lia.
  - intros i. unfold runnable in *. rewrite Hc, Q3. destruct (decide (i ∈ pendingList s)) as [Hi|Hi].
    + destruct (Qn i Hi) as [-> _]. set_solver.
    + rewrite Qo, Ha by done. set_solver.
  - intros i. rewrite Q4. destruct (decide (i ∈ pendingList s)) as [Hi|Hi].
    + destruct (Qn i Hi) as [-> _]. set_solver.
    + rewrite Qo, Hp by done. set_solver.
  - intros i. destruct (Qb i) as (_ & _ & ->). destruct (decide (i ∈ pendingList s)) as [Hi|Hi].
    + intros _. apply Hsc. rewrite (proj2 (Hp i) Hi). done.
    + rewrite Qo by done. apply Hsc.
  - intros i. rewrite Q9. apply Hpr.
  - intros i. rewrite Hc, Q8. intros Hi. rewrite Qo; [by apply Hr|]. apply Hd. unfold runnable. set_solver.
  - by rewrite Q1, Q2.
Qed.
(** A record that says which entity, queue and task fields a reschedule leaves. *)
Record step_off (s s' : Scheduler) : Prop := MkOff {
  o_cur : current s' = None;
  o_sched : scheduled s' = None;
  o_deadline : preemptionDeadline s' = preemptionDeadline s;
}.
Lemma updateEntityStats_ok s c : current s = Some (Regular c) →
  updateEntityStats s (Regular c) = Ret (put_entity s c (set_clock (entity s c) (refClock s) (runTime (entity s c) + (refClock s - e_refClock (entity s c))))).
Proof. intros C. unfold updateEntityStats, is_current. rewrite C, Nat.eqb_refl, orb_true_r. done. Qed.
Lemma suspendCurrent_ok s c : wf s → current s = Some (Regular c) →
  ∃ s', suspendCurrent s = Ret s' ∧ wf s' ∧ quiet s s' ∧ step_off s s' ∧ waitQueue s' = waitQueue s ∧ state (entity s' c) = StateAttached ∧ ∀ i, i ≠ c → entity s' i = entity s i.
Proof.
  intros W C. assert (scheduled s = None) as Hs by (destruct (wf_one _ W); congruence).
  unfold suspendCurrent. rewrite C, updateEntityStats_ok by done. simpl. eexists. split; [reflexivity|].
  assert (on_cpu s = [c]) as Ho by (unfold on_cpu; by rewrite C).
  destruct W as [N Hm Ha Hp Hsc Hpr Hr _]. unfold runnable in *. rewrite Ho in *. simpl in N. pose proof N as [Nc N']%list.NoDup_cons.
  assert (state (entity s c) = StateActive) as Hca by (apply Ha; set_solver).
  split_and!; simpl.
  - constructor; unfold runnable, on_cpu; simpl; rewrite ?Hs; simpl; try done.
    + intros i. on_entity i c; [rewrite ?Nat.eqb_refl; simpl; set_solver|]. rewrite Ha. set_solver.
    + intros i. on_entity i c; [rewrite ?Nat.eqb_refl; simpl; set_solver|]. apply Hp.
    + intros i. on_entity i c; [rewrite ?Nat.eqb_refl; simpl; intros; apply Hsc; by rewrite Hca|]. apply Hsc.
    + intros i. on_entity i c; [rewrite ?Nat.eqb_refl; simpl|]; apply Hpr.
    + intros i. set_solver.
    + by left.
  - constructor; unfold unf, rtime; try done; simpl.
    + intros i. by on_entity i c; rewrite ?Nat.eqb_refl.
    + intros i. by on_entity i c; rewrite ?Nat.eqb_refl.
    + intros i. rewrite Ho. unfold on_cpu. simpl. rewrite Hs. rewrite (decide_False (P := i ∈ [])) by set_solver.
      on_entity i c; rewrite ?Nat.eqb_refl; simpl; [by rewrite decide_True by set_solver|by rewrite decide_False by set_solver].
  - by constructor.
  - done.
  - by rewrite ?Nat.eqb_refl.
  - intros i Hi. by on_entity i c.
Qed.
Lemma unschedule_ok s : wf s → current s ≠ None →
  ∃ s', unschedule s = Ret s' ∧ wf s' ∧ quiet s s' ∧ step_off s s' ∧ waitQueue s' = waitQueue s ++ on_cpu s ∧ ∀ i, state (entity s' i) = state (entity s i).
Proof.
  intros W C. unfold unschedule. destruct (current s) as [[|c]|] eqn:Ec; [| |done].
  - simpl. assert (scheduled s = None) as Hs by (destruct (wf_one _ W); congruence).
    assert (on_cpu s = []) as Ho by (unfold on_cpu; by rewrite Ec, Hs).
    eexists. split; [reflexivity|]. assert (∀ s', s' = set_tasks s None (scheduled s) → on_cpu s' = []) as Ho' by (intros ? ->; unfold on_cpu; simpl; by rewrite Hs).
    destruct W as [N Hm Ha Hp Hsc Hpr Hr _]. unfold runnable in *. rewrite Ho in *. split_and!.
    + constructor; unfold runnable; rewrite ?(Ho' _ eq_refl); try done. by left.
    + constructor; try done. intros i. unfold rtime. rewrite (Ho' _ eq_refl), Ho. done.
    + by constructor.
    + simpl. by rewrite app_nil_r.
    + done.
  - assert (scheduled s = None) as Hs by (destruct (wf_one _ W); congruence).
    rewrite updateEntityStats_ok by done. simpl. eexists. split; [reflexivity|].
    assert (on_cpu s = [c]) as Ho by (unfold on_cpu; by rewrite Ec).
    destruct W as [N Hm Ha Hp Hsc Hpr Hr _]. unfold runnable in *. rewrite Ho in *. split_and!.
    + constructor; unfold runnable, on_cpu; simpl; rewrite ?Hs; simpl.
      * rewrite (Permutation_app_comm (waitQueue s) [c]). exact N.
      * rewrite Hm, length_app. simpl. lia.
      * intros i. transitivity (state (entity s i) = StateActive); [by on_entity i c|]. rewrite Ha. set_solver.
      * intros i. rewrite <-Hp. by on_entity i c.
      * intros i. on_entity i c; apply Hsc.
      * intros i. on_entity i c; apply Hpr.
      * set_solver.
      * by left.
    + constructor; unfold unf, rtime; try done; simpl.
      * intros i. by on_entity i c.
      * intros i. by on_entity i c.
      * intros i. rewrite Ho. unfold on_cpu. simpl. rewrite Hs. rewrite (decide_False (P := i ∈ [])) by set_solver.
        on_entity i c; [by rewrite decide_True by set_solver|by rewrite decide_False by set_solver].
    + by constructor.
    + done.
    + intros i. simpl. by on_entity i c.
Qed.
(** The entity on the processor has the greatest priority, and among these the greatest
    unfairness; the idle task runs only when nobody waits. *)
Definition first_of (s : Scheduler) (t : Task) : Prop :=
  match t with
  | Idle => waitQueue s = []
  | Regular c => ∀ e, e ∈ waitQueue s → priority (entity s e) ≤ priority (entity s c) ∧ (priority (entity s e) = priority (entity s c) → unf s e ≤ unf s c)
  end.
Lemma filter_out (q : list nat) t : t ∈ q → NoDup q → t :: filter (λ i, i ≠ t) q ≡ₚ q.
Proof.
  intros Ht N. apply NoDup_Permutation; [|done|].
  - apply list.NoDup_cons. split; [rewrite list_elem_of_filter; naive_solver|by apply list.NoDup_filter].
  - intros i. rewrite elem_of_cons, list_elem_of_filter. destruct (decide (i = t)); naive_solver.
Qed.
Lemma schedule_ok s : wf s → current s = None → scheduled s = None →
  ∃ s' t, schedule s = Ret s' ∧ wf s' ∧ quiet s s' ∧ current s' = None ∧ scheduled s' = Some t ∧ first_of s' t ∧ runnable s' ≡ₚ waitQueue s ∧ preemptionDeadline s' = preemptionDeadline s ∧ ∀ i, state (entity s' i) = state (entity s i).
Proof.
  intros W C Sc. unfold schedule. rewrite !assert_bind by (by apply bool_decide_true).
  assert (on_cpu s = []) as Ho by (unfold on_cpu; by rewrite C, Sc).
  destruct (decide (waitQueue s = [])) as [Q|Q].
  - rewrite queue_top_nil by done. exists (set_tasks s None (Some Idle)), Idle. destruct W as [N Hm Ha Hp Hsc Hpr Hr _]. unfold runnable in *. rewrite Ho in *. split_and!; try done.
    + constructor; try done. by left.
    + constructor; try done. intros i. unfold rtime. rewrite Ho. done.
  - destruct (queue_top_first s W Q) as (t & -> & Ht & Hmax).
    assert (state (entity s t) = StateActive) as Hta by (by apply waiting_active).
    cbv zeta. rewrite assert_bind by (by apply is_state_true).
    unfold updateWaitingEntity. rewrite assert_bind by (by apply is_state_true).
    rewrite assert_bind by (by unfold is_current; simpl; rewrite C). cbn [mbind outcome_bind].
    unfold updateEntityStats. rewrite assert_bind. 2: { apply orb_true_iff. left. apply is_state_true. simpl. by rewrite Nat.eqb_refl. }
    cbn [mbind outcome_bind]. eexists _, (Regular t). split; [reflexivity|].
    destruct W as [N Hm Ha Hp Hsc Hpr Hr _]. unfold runnable in *. rewrite Ho in *. simpl in N, Ha.
    assert (NoDup (waitQueue s)) as Nq by (by apply list.NoDup_app in N as [? _]).
    pose proof (filter_out _ _ Ht Nq) as P.
    unfold is_current. simpl. rewrite C. split_and!; simpl.
    + constructor; unfold runnable, on_cpu; simpl.
      * rewrite app_comm_cons, P. exact N.
      * rewrite Hm. apply Permutation_length in P. simpl in P. lia.
      * intros i. rewrite P, <-Ha. on_entity i t; by rewrite ?Nat.eqb_refl.
      * intros i. rewrite <-Hp. on_entity i t; by rewrite ?Nat.eqb_refl.
      * intros i. on_entity i t; rewrite ?Nat.eqb_refl; apply Hsc.
      * intros i. on_entity i t; rewrite ?Nat.eqb_refl; apply Hpr.
      * intros i ->%list_elem_of_singleton. by rewrite !Nat.eqb_refl.
      * by left.
    + constructor; unfold unf, rtime; try done; simpl.
      * intros i. on_entity i t; by rewrite ?Nat.eqb_refl.
      * intros i. on_entity i t; rewrite ?Nat.eqb_refl; simpl; lia.
      * intros i. rewrite Ho. unfold on_cpu. simpl. on_entity i t; rewrite ?Nat.eqb_refl; simpl; [rewrite decide_True by set_solver; lia|by rewrite decide_False by set_solver].
    + done.
    + done.
    + intros e [Het He]%list_elem_of_filter. destruct (Hmax e He) as [H1 H2]. unfold unf in *. simpl. rewrite !Nat.eqb_refl.
      rewrite (proj2 (Nat.eqb_neq e t)) by done. simpl. split; [done|]. intros E. specialize (H2 E). lia.
    + exact P.
    + done.
    + intros i. simpl. on_entity i t; by rewrite ?Nat.eqb_refl.
Qed.
Definition armed (s : Scheduler) : Prop := ∀ c e, current s = Some (Regular c) → e ∈ waitQueue s → priority (entity s e) = priority (entity s c) → preemptionDeadline s ≠ None.
(** The priorities are as [_updatePreemption] expects them. *)
Definition ranked (s : Scheduler) : Prop :=
  match current s with
  | None => False
  | Some Idle => waitQueue s = []
  | Some (Regular c) => ∀ e, e ∈ waitQueue s → priority (entity s e) ≤ priority (entity s c)
  end.
Lemma arm_ok s later : wf s → ranked s →
  ∃ d, arm s later = Ret (set_deadline s d) ∧ (d = preemptionDeadline s ∨ d = Some (later + sliceGranularity)) ∧ armed (set_deadline s d).
Proof.
  intros W R. unfold arm. destruct (preemptionDeadline s) as [d|] eqn:D.
  { exists (Some d). split_and!; [by destruct s; simpl in *; subst|by left|by intros ???]. }
  unfold updatePreemption. destruct (decide (waitQueue s = [])) as [Q|Q].
  { rewrite queue_top_nil by done. exists None. split_and!; [by destruct s; simpl in *; subst|by left|]. intros c e _. simpl. rewrite Q. set_solver. }
  destruct (queue_top_first s W Q) as (t & -> & Ht & Hmax). unfold ranked in R. destruct (current s) as [[|c]|] eqn:C; [done| |done].
  rewrite assert_bind by (apply is_state_true; by apply current_active). rewrite orderPriority_ok by apply (wf_prio _ W).
  specialize (R t Ht). destruct (Z.ltb_spec (priority (entity s t) - priority (entity s c)) 0).
  - exists None. split_and!; [by destruct s; simpl in *; subst|by left|]. intros c' e. simpl. rewrite C. intros [= <-] He. specialize (Hmax e He). lia.
  - rewrite assert_bind by lia. exists (Some (later + sliceGranularity)). split_and!; [done|by right|by intros ???].
Qed.
End queue.
