(* ===== verification/SchedulerSteps.v ===== *)
(** * The events of the scheduler

    What an update, a reschedule and a commit achieve together, and that every event keeps
    the invariant. *)
From Stdlib Require Import ZArith Lia ZifyBool.
From stdpp Require Import base list numbers option.
From S2P Require Import Prelude Scheduler SchedulerInv.
Open Scope Z_scope.

(** The unfairness that the scheduler tolerates before it switches *)
Definition slack : Z := Z.shiftl sliceGranularity progressShift.
Definition near (s : Scheduler) : Prop :=
  ∀ c e, current s = Some (Regular c) → e ∈ waitQueue s → priority (entity s e) = priority (entity s c) → unf s e ≤ unf s c + slack.
(** After a reschedule: [l] are the entities that it chose from. *)
Record decided (s s' : Scheduler) (later : Z) (l : list nat) : Prop := MkDecided {
  d_wf : wf s';
  d_quiet : quiet s s';
  d_runnable : runnable s' ≡ₚ l;
  d_ranked : ranked s';
  d_near : near s';
  d_armed : armed s';
  d_must : mustCallPreemption s' = false;
  d_state i : state (entity s' i) = state (entity s i);
  d_deadline : preemptionDeadline s' = preemptionDeadline s ∨ preemptionDeadline s' = Some (later + sliceGranularity);
}.
(** After an update *)
Record updated (s s' : Scheduler) (now : Z) : Prop := MkUpdated {
  up_wf : wf s';
  up_cur : current s' = current s;
  up_queue : waitQueue s' = waitQueue s ++ pendingList s;
  up_pending : pendingList s' = [];
  up_deadline : preemptionDeadline s' = preemptionDeadline s;
  up_clock : refClock s' = now;
  up_sys : systemProgress s' = systemProgress s + slice_progress s now;
  up_prio i : priority (entity s' i) = priority (entity s i);
  up_state i : state (entity s' i) = if decide (i ∈ pendingList s) then StateActive else state (entity s i);
  up_run i : i ∈ on_cpu s → unf s' i = unf s i - Z.of_nat (length (waitQueue s)) * slice_progress s now ∧ rtime s' i = rtime s i + (now - refClock s);
  up_wait i : i ∈ waitQueue s → unf s' i = unf s i + slice_progress s now ∧ rtime s' i = rtime s i;
}.


Section steps.
Context `{!PairingHeap}.
Lemma queued_same s s' i : queued (set_pending_list s []) s' (pendingList s) → i ∉ pendingList s → unf s' i = unf s i ∧ rtime s' i = rtime s i.
Proof.
  intros [Q1 Q2 _ _ _ _ Q7 Q8 _ Qo _ _ _] Hi. unfold unf, rtime, on_cpu. rewrite Qo by done. simpl in *. rewrite Q1, Q2, Q7, Q8. done.
Qed.
Lemma runnable_not_pending s i : wf s → i ∈ runnable s → i ∉ pendingList s.
Proof. intros W. pose proof (wf_nodup _ W) as (_ & Hd & _)%list.NoDup_app. apply Hd. Qed.
Lemma update_ok s now : wf s → current s ≠ None → ∃ s', update s now = Ret s' ∧ updated s s' now.
Proof.
  intros W C. destruct (updateState_ok s now W C) as (s1 & E1 & W1 & T). destruct (updateQueue_ok s1 W1) as (s2 & E2 & W2 & Q).
  exists s2. unfold update. rewrite E1. simpl. split; [exact E2|]. pose proof (λ i, queued_same _ _ i Q) as Qs.
  destruct T as [T1 T2 T3 T4 T5 T6 T7 Ts T8 T9 T10]. destruct Q as [Q1 Q2 Q3 Q4 Q5 Q6 Q7 Q8 Q9 Qo Qn Qb Qm]. simpl in *.
  constructor; try congruence.
  - intros i. rewrite Q9. apply T8.
  - intros i. rewrite T4 in Qo, Qn. destruct (decide (i ∈ pendingList s)) as [Hi|Hi]; [by apply Qn|]. rewrite Qo by done. apply T8.
  - intros i Hi. destruct (T9 i Hi) as [<- <-]. apply Qs. rewrite T4. apply runnable_not_pending; [done|]. unfold runnable. set_solver.
  - intros i Hi. assert (i ∉ on_cpu s) as Ho.
    { pose proof (wf_nodup _ W) as N. unfold runnable in N. rewrite <-app_assoc in N. apply list.NoDup_app in N as (_ & N & _). intros Hc. apply (N i Hc). set_solver. }
    destruct (T10 i Ho) as [<- <-]. apply Qs. rewrite T4. apply runnable_not_pending; [done|]. unfold runnable. set_solver.
Qed.

Lemma first_ranked s t : current s = Some t → first_of s t → ranked s.
Proof. unfold ranked. intros ->. destruct t; [done|]. intros Hf e He. by apply Hf. Qed.
Lemma slack_pos : 0 ≤ slack.
Proof. by vm_compute. Qed.
Lemma first_near s t : current s = Some t → first_of s t → near s.
Proof. intros C Hf c e. rewrite C. intros [= ->] He Hp. simpl in Hf. pose proof slack_pos. destruct (Hf e He) as [_ H']. specialize (H' Hp). lia. Qed.
Lemma set_deadline_wf s d : wf s → wf (set_deadline s d).
Proof. intros []. by constructor. Qed.

Lemma reschedule_ok s later : wf s → current s = None → scheduled s = None →
  ∃ s1 s', schedule s = Ret s1 ∧ commitReschedule s1 later = Ret s' ∧ decided s s' later (waitQueue s).
Proof.
  intros W C Sc. destruct (schedule_ok s W C Sc) as (s1 & t & E1 & W1 & Q1 & C1 & Sc1 & F1 & P1 & D1 & St1).
  set (s2 := set_must (set_slice (set_tasks s1 (Some t) None) (refClock s1)) false).
  assert (on_cpu s2 = on_cpu s1) as Ho by (unfold on_cpu; simpl; rewrite C1, Sc1; by destruct t).
  assert (wf s2) as W2. { destruct W1. constructor; unfold runnable in *; rewrite ?Ho; try done. by right. }
  assert (first_of s2 t) as F2 by exact F1.
  destruct (arm_ok s2 later W2 (first_ranked s2 t eq_refl F2)) as (d & E2 & Hd & Ha).
  exists s1, (set_deadline s2 d). split; [done|]. split.
  - unfold commitReschedule. rewrite assert_bind by (by apply bool_decide_true). rewrite Sc1. exact E2.
  - constructor.
    + by apply set_deadline_wf.
    + transitivity s1; [done|]. constructor; try done. intros i. unfold rtime. change (on_cpu (set_deadline s2 d)) with (on_cpu s2). rewrite Ho. done.
    + rewrite <-P1. unfold runnable. change (on_cpu (set_deadline s2 d)) with (on_cpu s2). by rewrite Ho.
    + exact (first_ranked s2 t eq_refl F2).
    + exact (first_near s2 t eq_refl F2).
    + exact Ha.
    + done.
    + exact St1.
    + simpl. rewrite <-D1. exact Hd.
Qed.
Lemma decided_after s s1 s' later l : quiet s s1 → preemptionDeadline s1 = preemptionDeadline s → (∀ i, state (entity s1 i) = state (entity s i)) → decided s1 s' later l → decided s s' later l.
Proof. intros Q D St []. constructor; try done; [by transitivity s1|congruence..]. Qed.
Lemma decided_perm s s' later l l' : l ≡ₚ l' → decided s s' later l → decided s s' later l'.
Proof. intros P []. constructor; try done. by rewrite <-P. Qed.
Lemma unschedule_schedule s later : wf s → current s ≠ None →
  ∃ s0 s1 s', unschedule s = Ret s0 ∧ schedule s0 = Ret s1 ∧ commitReschedule s1 later = Ret s' ∧ decided s s' later (runnable s).
Proof.
  intros W C. destruct (unschedule_ok s W C) as (s0 & E0 & W0 & Q0 & [C0 S0 D0] & Wq & St).
  destruct (reschedule_ok s0 later W0 C0 S0) as (s1 & s' & E1 & E2 & D). exists s0, s1, s'. split_and!; [done..|].
  eapply decided_after, decided_perm, D; [done|done|done|]. rewrite Wq. unfold runnable. by rewrite Permutation_app_comm.
Qed.
Lemma force_ok s later : wf s → current s ≠ None → ∃ s1 s', forceReschedule s = Ret s1 ∧ commitReschedule s1 later = Ret s' ∧ decided s s' later (runnable s).
Proof.
  intros W C. destruct (unschedule_schedule s later W C) as (s0 & s1 & s' & E0 & E1 & E2 & D). exists s1, s'. split_and!; [|done..].
  unfold forceReschedule. destruct (current s) eqn:E; [|done]. rewrite E0. exact E1.
Qed.
Lemma force_none s later : wf s → current s = None → scheduled s = None → ∃ s1 s', forceReschedule s = Ret s1 ∧ commitReschedule s1 later = Ret s' ∧ decided s s' later (waitQueue s).
Proof.
  intros W C Sc. destruct (reschedule_ok s later W C Sc) as (s1 & s' & E1 & E2 & D). exists s1, s'. split_and!; [|done..].
  unfold forceReschedule. by rewrite C.
Qed.
Lemma want_ok s : wf s → current s ≠ None → ∃ b, wantToSchedule s = Ret b ∧ (b = false → ranked s ∧ near s).
Proof.
  intros W C. unfold wantToSchedule. destruct (decide (waitQueue s = [])) as [Q|Q].
  { rewrite queue_top_nil by done. exists false. split; [done|]. intros _. split.
    - unfold ranked. destruct (current s) as [[]|]; rewrite ?Q; [done|set_solver|done].
    - intros c e _. rewrite Q. set_solver. }
  destruct (queue_top_first s W Q) as (t & -> & Ht & Hmax). destruct (current s) as [[|c]|] eqn:E; [by exists true| |done].
  assert (scheduled s = None) as Hs by (destruct (wf_one _ W); congruence).
  pose proof (current_active s c W E) as Hca. pose proof (waiting_active s t W Ht) as Hta.
  rewrite assert_bind by (by apply is_state_true). rewrite orderPriority_ok by apply (wf_prio _ W). cbv zeta.
  destruct (Z.ltb_spec 0 (priority (entity s t) - priority (entity s c))); [by exists true|].
  unfold checked_unfairness. rewrite !assert_bind by (by apply is_state_true). cbn [mbind outcome_bind]. rewrite !live_unf by done. fold slack.
  assert (ranked s) as R. { unfold ranked. rewrite E. intros e He. destruct (Hmax e He). lia. }
  destruct (Z.ltb_spec (priority (entity s t) - priority (entity s c)) 0).
  - exists false. split; [done|]. intros _. split; [done|]. intros c' e. rewrite E. intros [= <-] He Hp. destruct (Hmax e He). lia.
  - eexists. split; [reflexivity|]. intros D%Z.ltb_ge. split; [done|]. intros c' e. rewrite E. intros [= <-] He Hp. destruct (Hmax e He) as [_ H']. lia.
Qed.
Lemma maybe_ok s later : wf s → current s ≠ None →
  ∃ r s', maybeReschedule s = Ret r ∧ (if r.2 then commitReschedule r.1 later else renewSchedule r.1 later) = Ret s' ∧ decided s s' later (runnable s).
Proof.
  intros W C. unfold maybeReschedule. rewrite assert_bind by (by apply bool_decide_true). destruct (want_ok s W C) as (b & -> & Hb). cbn [mbind outcome_bind].
  destruct b.
  - destruct (unschedule_schedule s later W C) as (s0 & s1 & s' & -> & E1 & E2 & D). cbn [mbind outcome_bind]. rewrite E1. cbn [mbind outcome_bind].
    by exists (s1, true), s'.
  - destruct (Hb eq_refl) as [R Hn]. assert (wf (set_must s false)) as W' by (by destruct W; constructor).
    destruct (arm_ok (set_must s false) later W' R) as (d & E & Hd & Ha). exists (s, false), (set_deadline (set_must s false) d).
    split_and!; [done|done|]. constructor; try done. by apply set_deadline_wf.
Qed.

(** ** Entities come and go *)
Lemma attached_off s i : wf s → state (entity s i) = StateAttached → (i ∉ runnable s) ∧ (i ∉ pendingList s) ∧ is_current s i = false.
Proof.
  intros W Hi. assert (i ∉ runnable s) as Hr by (intros Hr%(wf_active _ W); congruence). split_and!; [done|intros Hp%(wf_pending _ W); congruence|].
  unfold is_current. unfold runnable, on_cpu in Hr. destruct (current s) as [[|c]|]; try done. apply Nat.eqb_neq. set_solver.
Qed.
(** The parts of the state that only an update or a reschedule changes *)
Record kept (s s' : Scheduler) : Prop := MkKept {
  e_cur : current s' = current s;
  e_sched : scheduled s' = scheduled s;
  e_queue : waitQueue s' = waitQueue s;
  e_sys : systemProgress s' = systemProgress s;
  e_clock : refClock s' = refClock s;
  e_deadline : preemptionDeadline s' = preemptionDeadline s;
  e_must : mustCallPreemption s = true → mustCallPreemption s' = true;
  e_ping : pingSent s = true → pingSent s' = true;
  e_key i : i ∈ waitQueue s → unf s' i = unf s i ∧ priority (entity s' i) = priority (entity s i);
}.
#[export] Instance kept_preorder : PreOrder kept.
Proof.
  split; [by constructor|]. intros x y z [] []. constructor; try congruence; auto.
  intros i Hi. assert (i ∈ waitQueue y) as Hy by congruence. destruct (e_key0 i Hi), (e_key1 i Hy). split; congruence.
Qed.
Lemma attached_kept s s' id e : wf s → state (entity s id) = StateAttached ∨ state (entity s id) = StateNull → s' = put_entity s id e → kept s s'.
Proof.
  intros W Hi ->. constructor; try done. intros i Hw%(waiting_active _ _ W). unfold unf. simpl. on_entity i id; [|done]. destruct Hi; congruence.
Qed.
Lemma put_wf s id e st : wf s → state (entity s id) = StateAttached ∨ state (entity s id) = StateNull → state e = st → st = StateAttached ∨ st = StateNull →
  (st = StateAttached → scheduler_ e = true) → prio_ok (priority e) → wf (put_entity s id e).
Proof.
  intros W Hi He Hst Hsc Hp. assert (id ∉ runnable s) as Hr by (intros Hr%(wf_active _ W); destruct Hi; congruence).
  assert (id ∉ pendingList s) as Hl by (intros Hl%(wf_pending _ W); destruct Hi; congruence).
  destruct W as [N Hm Ha Hpe Hs Hpr Href Ho]. constructor; try done; simpl; intros i; on_entity i id; auto.
  - split; [destruct Hst; congruence|done].
  - split; [destruct Hst; congruence|done].
  - rewrite He. destruct Hst; auto; congruence.
  - unfold runnable, on_cpu in *. simpl. set_solver.
Qed.
Lemma resume_ok s id here : wf s → state (entity s id) = StateAttached →
  ∃ s', resume s id here = Ret s' ∧ wf s' ∧ kept s s' ∧ pendingList s' = pendingList s ++ [id] ∧ (∀ i, i ≠ id → entity s' i = entity s i) ∧
    (pendingList s = [] → mustCallPreemption s' = true ∨ pingSent s' = true).
Proof.
  intros W Hi. destruct (attached_off s id W Hi) as (Hr & Hl & Hc). unfold resume.
  rewrite assert_bind by (by apply is_state_true). rewrite assert_bind by (apply (wf_sched _ W); by rewrite Hi). rewrite assert_bind by (by rewrite Hc). cbv zeta.
  set (s0 := set_pending_list (put_entity s id (set_state (entity s id) StatePending)) (pendingList s ++ [id])).
  assert (wf s0) as W0.
  { destruct W as [N Hm Ha Hpe Hs Hpr Href Ho]. constructor; try done; simpl.
    - change (runnable s0) with (runnable s). rewrite app_assoc. apply list.NoDup_app. split_and!; [done| |apply NoDup_singleton].
      intros i Hx ->%list_elem_of_singleton. set_solver.
    - intros i. on_entity i id; [|done]. split; [done|]. by intros.
    - intros i. on_entity i id; [set_solver|]. rewrite Hpe. set_solver.
    - intros i. on_entity i id; [|apply Hs]. intros _. apply Hs. by rewrite Hi.
    - intros i. on_entity i id; apply Hpr.
    - intros i Hx. change (on_cpu s0) with (on_cpu s) in Hx. on_entity i id; by apply Href. }
  assert (kept s s0) as K0.
  { constructor; try done. intros i Hw%(waiting_active _ _ W). unfold unf. simpl. on_entity i id; [congruence|done]. }
  assert (∀ i, i ≠ id → entity s0 i = entity s i) as He by (intros i Hx; simpl; by on_entity i id).
  assert (pendingList s0 = pendingList s ++ [id]) as Hl0 by done.
  change (set_pending_list _ _) with s0. clearbody s0. eexists. split; [reflexivity|].
  destruct K0, W0. destruct (pendingList s) as [|x l] eqn:P; [destruct here|]; split_and!; try done; try (constructor; done).
Qed.
Lemma resume_all_ok l : ∀ s, wf s → NoDup l → Forall (λ i, state (entity s i) = StateAttached) l →
  ∃ s', resume_all s l = Ret s' ∧ wf s' ∧ kept s s' ∧ ∀ i, i ∉ l → entity s' i = entity s i.
Proof.
  induction l as [|id l IH]; intros s W N F; simpl; [by exists s|].
  apply list.NoDup_cons in N as [Nid N]. apply list.Forall_cons in F as [Fid F].
  destruct (resume_ok s id true W Fid) as (s1 & -> & W1 & K1 & _ & He & _). cbn [mbind outcome_bind].
  destruct (IH s1 W1 N) as (s' & E & W' & K' & He').
  { rewrite list.Forall_forall in F |- *. intros i Hi. rewrite He by set_solver. by apply F. }
  exists s'. split_and!; [done|done|by transitivity s1|]. intros i Hi. rewrite He', He by set_solver. done.
Qed.
Lemma unassociate_ok s id : wf s → state (entity s id) = StateAttached →
  ∃ s', unassociate s id = Ret s' ∧ wf s' ∧ kept s s' ∧ pendingList s' = pendingList s ∧ state (entity s' id) = StateNull ∧ ∀ i, i ≠ id → entity s' i = entity s i.
Proof.
  intros W Hi. destruct (attached_off s id W Hi) as (_ & _ & Hc). unfold unassociate.
  rewrite assert_bind by (apply (wf_sched _ W); by rewrite Hi). rewrite assert_bind by (by apply is_state_true). rewrite assert_bind by (by rewrite Hc).
  eexists. split; [reflexivity|]. split_and!; [|by eapply attached_kept; [|by left|]|done|simpl; by rewrite Nat.eqb_refl|intros i ?; simpl; by on_entity i id].
  eapply put_wf; [done|by left|done|by right|done|apply (wf_prio _ W)].
Qed.
Lemma associate_ok s id : wf s → state (entity s id) = StateNull →
  ∃ s', associate s id = Ret s' ∧ wf s' ∧ kept s s' ∧ pendingList s' = pendingList s ∧ state (entity s' id) = StateAttached ∧ ∀ i, i ≠ id → entity s' i = entity s i.
Proof.
  intros W Hi. unfold associate. rewrite assert_bind by (by apply is_state_true).
  eexists. split; [reflexivity|]. split_and!; [|by eapply attached_kept; [|by right|]|done|simpl; by rewrite Nat.eqb_refl|intros i ?; simpl; by on_entity i id].
  eapply put_wf; [done|by right|done|by left|done|apply (wf_prio _ W)].
Qed.

(** ** The invariant of reachable states *)
Definition bounded (t : Z) (s : Scheduler) : Prop := refClock s ≤ t ∧ ∀ d, preemptionDeadline s = Some d → d ≤ t + sliceGranularity.
(** A pending entity is not forgotten: an exit from the kernel, the ping or the timer will look. *)
Definition signalled (s : Scheduler) : Prop := pendingList s ≠ [] → mustCallPreemption s = true ∨ pingSent s = true ∨ preemptionDeadline s ≠ None.
Record sinv (t : Z) (s : Scheduler) : Prop := MkSinv {
  i_wf : wf s;
  i_cur : current s ≠ None;
  i_idle : current s = Some Idle → waitQueue s = [];
  i_bounded : bounded t s;
}.
(** What a reschedule establishes *)
Definition settled (s : Scheduler) : Prop := pendingList s = [] ∧ ranked s ∧ near s ∧ armed s.
Definition keys_kept (s s' : Scheduler) : Prop :=
  ∀ i, i ∈ waitQueue s → unf s' i - systemProgress s' = unf s i - systemProgress s ∧ priority (entity s' i) = priority (entity s i).
(** Where an entity can go without a call for it *)
Definition live (st : ScheduleState) : Prop := st = StatePending ∨ st = StateActive.
Definition tracked (s s' : Scheduler) (i : nat) : Prop :=
  (state (entity s i) = StateAttached → state (entity s' i) = StateAttached) ∧ (live (state (entity s i)) → live (state (entity s' i))).
Lemma tracked_same s s' i : state (entity s' i) = state (entity s i) → tracked s s' i.
Proof. intros E. unfold tracked. by rewrite E. Qed.
Lemma tracked_trans s1 s2 s3 i : tracked s1 s2 i → tracked s2 s3 i → tracked s1 s3 i.
Proof. unfold tracked. naive_solver. Qed.
Lemma updated_tracked s s' now i : wf s → updated s s' now → tracked s s' i.
Proof.
  intros W U. unfold tracked, live. rewrite (up_state _ _ _ U). destruct (decide (i ∈ pendingList s)) as [Hi|Hi]; [|done].
  apply (wf_pending _ W) in Hi. rewrite Hi. naive_solver.
Qed.
Lemma bounded_later t t' s : t ≤ t' → bounded t s → bounded t' s.
Proof. intros ? [? Hd]. split; [lia|]. intros d E. specialize (Hd d E). lia. Qed.
Lemma decided_settled s s' later l : decided s s' later l → pendingList s = [] → settled s'.
Proof. intros [W Q P R Nr A M _ D] Hp. pose proof (q_pending _ _ Q) as Hp'. rewrite Hp in Hp'. done. Qed.
Lemma decided_sinv s s' later l : decided s s' later l → bounded later s → sinv later s'.
Proof.
  intros [W Q P R Nr A M _ D] [B1 B2]. constructor.
  - done.
  - unfold ranked in R. by destruct (current s').
  - intros E. unfold ranked in R. by rewrite E in R.
  - split; [rewrite (q_clock _ _ Q); lia|]. intros d Hd. destruct D as [D|D]; rewrite D in Hd; [by apply B2|]. injection Hd. lia.
Qed.
Lemma quiet_keys s s' i : quiet s s' → unf s' i - systemProgress s' = unf s i - systemProgress s ∧ priority (entity s' i) = priority (entity s i).
Proof. intros Q. rewrite (q_unf _ _ Q), (q_sys _ _ Q), (q_prio _ _ Q). done. Qed.
Lemma updated_keys s s' now : updated s s' now → keys_kept s s'.
Proof. intros U i Hi. rewrite (up_prio _ _ _ U), (up_sys _ _ _ U), (proj1 (up_wait _ _ _ U i Hi)). lia. Qed.
Lemma updated_bounded t s s' now later : bounded t s → t ≤ now ≤ later → updated s s' now → bounded later s'.
Proof. intros [? B] ? U. split; [rewrite (up_clock _ _ _ U); lia|]. rewrite (up_deadline _ _ _ U). intros d Hd. specialize (B d Hd). lia. Qed.

Lemma keys_trans s s1 s2 : keys_kept s s1 → waitQueue s ⊆ waitQueue s1 → keys_kept s1 s2 → keys_kept s s2.
Proof. intros K1 Hw K2 i Hi. destruct (K1 i Hi) as [<- <-]. apply K2. by apply Hw. Qed.
Lemma kept_keys s s' : kept s s' → keys_kept s s'.
Proof. intros K i Hi. destruct (e_key _ _ K i Hi) as [-> ->]. by rewrite (e_sys _ _ K). Qed.
Lemma kept_bounded t s s' : kept s s' → bounded t s → bounded t s'.
Proof. intros K [? ?]. split; [by rewrite (e_clock _ _ K)|by rewrite (e_deadline _ _ K)]. Qed.
Lemma updated_queue s s' now : updated s s' now → waitQueue s ⊆ waitQueue s'.
Proof. intros U. rewrite (up_queue _ _ _ U). set_solver. Qed.

(** A reschedule, after the state [s2] that the update and the caller left *)
Lemma finish (T : nat → Prop) s s2 s' later l : keys_kept s s2 → bounded later s2 → pendingList s2 = [] → (∀ i, T i → tracked s s2 i) → decided s2 s' later l →
  sinv later s' ∧ settled s' ∧ keys_kept s s' ∧ ∀ i, T i → tracked s s' i.
Proof.
  intros K B Hp Ht D. split_and!; [by eapply decided_sinv|by eapply decided_settled| |].
  - intros i Hi. destruct (K i Hi) as [<- <-]. apply quiet_keys, D.
  - intros i Hi. eapply tracked_trans; [by apply Ht|]. apply tracked_same, D.
Qed.
Lemma handle_ok t s now later : sinv t s → t ≤ now ≤ later → ∃ s', handlePreemption s now later = Ret s' ∧ sinv later s' ∧ settled s' ∧ keys_kept s s' ∧ ∀ i, True → tracked s s' i.
Proof.
  intros [W C _ B] Ht. destruct (update_ok s now W C) as (s1 & E1 & U). unfold handlePreemption. rewrite E1. cbn [mbind outcome_bind].
  destruct (maybe_ok s1 later) as (r & s' & -> & E2 & D); [apply U|by rewrite (up_cur _ _ _ U)|]. cbn [mbind outcome_bind].
  exists s'. split; [done|]. eapply finish; [by eapply updated_keys|by eapply updated_bounded|apply U|intros i _; by eapply updated_tracked|exact D].
Qed.
Lemma defer_ok t s now later : sinv t s → t ≤ now ≤ later → ∃ s', deferCurrent s now later = Ret s' ∧ sinv later s' ∧ settled s' ∧ keys_kept s s' ∧ ∀ i, True → tracked s s' i.
Proof.
  intros [W C _ B] Ht. destruct (update_ok s now W C) as (s1 & E1 & U). unfold deferCurrent. rewrite E1. cbn [mbind outcome_bind].
  destruct (force_ok s1 later) as (s2 & s' & -> & E2 & D); [apply U|by rewrite (up_cur _ _ _ U)|]. cbn [mbind outcome_bind].
  exists s'. split; [done|]. eapply finish; [by eapply updated_keys|by eapply updated_bounded|apply U|intros i _; by eapply updated_tracked|exact D].
Qed.
(** The update and the suspension, with which [blockCurrent] and [migrateAway] begin *)
Lemma suspended t s c now later : sinv t s → current s = Some (Regular c) → t ≤ now ≤ later →
  ∃ s1 s2, update s now = Ret s1 ∧ suspendCurrent s1 = Ret s2 ∧ wf s2 ∧ current s2 = None ∧ scheduled s2 = None ∧ state (entity s2 c) = StateAttached ∧
    keys_kept s s2 ∧ waitQueue s ⊆ waitQueue s2 ∧ bounded later s2 ∧ pendingList s2 = [] ∧ ∀ i, i ≠ c → tracked s s2 i.
Proof.
  intros [W C _ B] Hc Ht. destruct (update_ok s now W C) as (s1 & E1 & U).
  destruct (suspendCurrent_ok s1 c) as (s2 & E2 & W2 & Q2 & [C2 S2 D2] & Hw & Ha & He); [apply U|by rewrite (up_cur _ _ _ U)|].
  exists s1, s2. split_and!; try done.
  - eapply keys_trans; [by eapply updated_keys|by eapply updated_queue|]. intros i _. by apply quiet_keys.
  - rewrite Hw. by eapply updated_queue.
  - destruct (updated_bounded _ _ _ _ _ B Ht U). split; [by rewrite (q_clock _ _ Q2)|by rewrite D2].
  - rewrite (q_pending _ _ Q2). apply U.
  - intros i Hi. eapply tracked_trans; [by eapply updated_tracked|]. apply tracked_same. by rewrite He.
Qed.
Lemma block_ok t s c now later : sinv t s → current s = Some (Regular c) → t ≤ now ≤ later →
  ∃ s', blockCurrent s now later = Ret s' ∧ sinv later s' ∧ settled s' ∧ (keys_kept s s' ∧ ∀ i, i ≠ c → tracked s s' i) ∧ state (entity s' c) = StateAttached.
Proof.
  intros I Hc Ht. destruct (suspended t s c now later I Hc Ht) as (s1 & s2 & E1 & E2 & W2 & C2 & S2 & Ha & K & _ & B & P & Tr).
  destruct (force_none s2 later W2 C2 S2) as (s3 & s' & E3 & E4 & D). exists s'. split.
  2: { destruct (finish _ _ _ _ _ _ K B P Tr D) as (? & ? & ? & ?). split_and!; try done. by rewrite (d_state _ _ _ _ D). }
  unfold blockCurrent. rewrite E1. cbn [mbind outcome_bind]. rewrite E2. cbn [mbind outcome_bind]. rewrite E3. exact E4.
Qed.
Lemma migrate_ok t s c now later : sinv t s → current s = Some (Regular c) → t ≤ now ≤ later →
  ∃ s', migrateAway s c now later = Ret s' ∧ sinv later s' ∧ settled s' ∧ keys_kept s s' ∧ ∀ i, i ≠ c → tracked s s' i.
Proof.
  intros I Hc Ht. destruct (suspended t s c now later I Hc Ht) as (s1 & s2 & E1 & E2 & W2 & C2 & S2 & Ha & K & Hw & B & P & Tr).
  destruct (unassociate_ok s2 c W2 Ha) as (s3 & E3 & W3 & K3 & P3 & Hn3 & He3).
  destruct (force_none s3 later W3) as (s4 & s' & E4 & E5 & D); [by rewrite (e_cur _ _ K3)|by rewrite (e_sched _ _ K3)|].
  exists s'. split.
  - unfold migrateAway. rewrite E1. cbn [mbind outcome_bind]. rewrite E2. cbn [mbind outcome_bind]. rewrite E3. cbn [mbind outcome_bind]. rewrite E4. exact E5.
  - eapply finish; [|by eapply kept_bounded|congruence| |exact D]; [eapply keys_trans; [exact K|done|by apply kept_keys]|].
    intros i Hi. eapply tracked_trans; [by apply Tr|]. apply tracked_same. by rewrite He3.
Qed.
(** After a migration to the same processor the thread is pending, and everything else is settled. *)
Lemma migrate_here_ok t s c now later : sinv t s → current s = Some (Regular c) → t ≤ now ≤ later →
  ∃ s', migrateHere s c now later = Ret s' ∧ sinv later s' ∧ (pendingList s' = [c] ∧ ranked s' ∧ near s' ∧ armed s') ∧
    keys_kept s s' ∧ ∀ i, i ≠ c → tracked s s' i.
Proof.
  intros I Hc Ht. destruct (suspended t s c now later I Hc Ht) as (s1 & s2 & E1 & E2 & W2 & C2 & S2 & Ha & K & Hw & B & P & Tr).
  destruct (unassociate_ok s2 c W2 Ha) as (s3 & E3 & W3 & K3 & P3 & Hn3 & He3).
  destruct (associate_ok s3 c W3) as (s4 & E4 & W4 & K4 & P4 & Ha4 & He4); [done|].
  destruct (resume_ok s4 c true W4 Ha4) as (s5 & E5 & W5 & K5 & P5 & He5 & _).
  assert (kept s2 s5) as K25 by (transitivity s3; [done|by transitivity s4]).
  destruct (force_none s5 later W5) as (s6 & s' & E6 & E7 & D); [by rewrite (e_cur _ _ K25)|by rewrite (e_sched _ _ K25)|].
  exists s'. split; [unfold migrateHere; rewrite E1; cbn [mbind outcome_bind]; rewrite E2; cbn [mbind outcome_bind]; rewrite E3; cbn [mbind outcome_bind];
    rewrite E4; cbn [mbind outcome_bind]; rewrite E5; cbn [mbind outcome_bind]; rewrite E6; exact E7|].
  split; [eapply decided_sinv; [exact D|by eapply kept_bounded]|]. split_and!.
  - rewrite (q_pending _ _ (d_quiet _ _ _ _ D)), P5, P4, P3, P. done.
  - apply D.
  - apply D.
  - apply D.
  - intros i Hi. destruct (keys_trans s s2 s5 K Hw (kept_keys _ _ K25) i Hi) as [<- <-]. apply quiet_keys, D.
  - intros i Hi. eapply tracked_trans; [by apply Tr|]. apply tracked_same. rewrite (d_state _ _ _ _ D), He5, He4, He3 by done. done.
Qed.
Lemma terminate_ok t s c wakes now later : sinv t s → current s = Some (Regular c) → NoDup wakes → Forall (λ i, state (entity s i) = StateAttached) wakes → t ≤ now ≤ later →
  ∃ s', terminateCurrent s c wakes now later = Ret s' ∧ sinv later s' ∧ settled s' ∧ keys_kept s s' ∧ ∀ i, i ≠ c ∧ i ∉ wakes → tracked s s' i.
Proof.
  intros [W C _ [B1 B2]] Hc N F Ht. destruct (updateState_ok s now W C) as (s1 & E1 & W1 & T).
  destruct (suspendCurrent_ok s1 c) as (s2 & E2 & W2 & Q2 & [C2 S2 D2] & Hw2 & Ha & He2); [done|by rewrite (k_cur _ _ _ T)|].
  destruct (unassociate_ok s2 c W2 Ha) as (s3 & E3 & W3 & K3 & P3 & Hn3 & He3).
  assert (Forall (λ i, state (entity s3 i) = StateAttached) wakes) as F3.
  { rewrite list.Forall_forall in F |- *. intros i Hi. assert (i ≠ c) by (intros ->; specialize (F c Hi); rewrite current_active in F; done).
    rewrite He3, He2 by done. rewrite (proj1 (k_ent _ _ _ T i)). by apply F. }
  destruct (resume_all_ok wakes s3 W3 N F3) as (s4 & E4 & W4 & K4 & He4). destruct (updateQueue_ok s4 W4) as (s5 & E5 & W5 & Q5).
  assert (kept s2 s4) as K24 by (by transitivity s3).
  destruct (force_none s5 later W5) as (s6 & s' & E6 & E7 & D).
  { rewrite (u_cur _ _ _ Q5). simpl. by rewrite (e_cur _ _ K24). }
  { rewrite (u_sched _ _ _ Q5). simpl. by rewrite (e_sched _ _ K24). }
  exists s'. split.
  - unfold terminateCurrent. rewrite E1. cbn [mbind outcome_bind]. rewrite E2. cbn [mbind outcome_bind]. rewrite E3. cbn [mbind outcome_bind]. rewrite E4. cbn [mbind outcome_bind].
    rewrite E5. cbn [mbind outcome_bind]. rewrite E6. exact E7.
  - eapply finish; [| | | |exact D].
    + assert (keys_kept s s1) as Ks.
      { intros i Hi. destruct (k_wait _ _ _ T i) as [-> _].
        - intros Ho. unfold on_cpu in Ho. rewrite Hc in Ho. apply list_elem_of_singleton in Ho as ->. by apply (current_not_waiting s c W Hc).
        - rewrite (k_sys _ _ _ T), (proj2 (k_ent _ _ _ T i)). lia. }
      assert (waitQueue s ⊆ waitQueue s2) as Hw by (rewrite Hw2, (k_queue _ _ _ T); set_solver).
      assert (keys_kept s s2) as Ks2 by (apply (keys_trans s s1 s2); [exact Ks|rewrite (k_queue _ _ _ T); set_solver|intros i _; by apply quiet_keys]).
      eapply keys_trans; [eapply keys_trans; [exact Ks2|done|by apply kept_keys]|rewrite (e_queue _ _ K24); exact Hw|].
      intros i Hi. destruct (queued_same _ _ i Q5) as [-> _]; [apply runnable_not_pending; [done|]; unfold runnable; set_solver|].
      by rewrite (u_sys _ _ _ Q5), (u_prio _ _ _ Q5).
    + split.
      * rewrite (u_clock _ _ _ Q5). simpl. rewrite (e_clock _ _ K24), (q_clock _ _ Q2), (k_clock _ _ _ T). lia.
      * intros d. rewrite (u_deadline _ _ _ Q5). simpl. rewrite (e_deadline _ _ K24), D2, (k_deadline _ _ _ T). intros Hd. specialize (B2 d Hd). lia.
    + by rewrite (u_pending _ _ _ Q5).
    + intros i [Hi1 Hi2]. apply (tracked_trans s s4).
      * apply tracked_same. rewrite He4, He3, He2 by done. apply T.
      * unfold tracked, live. destruct (decide (i ∈ pendingList s4)) as [Hp|Hp]; [|by rewrite (u_old _ _ _ Q5 i Hp)].
        rewrite (proj1 (u_new _ _ _ Q5 i Hp)), (proj2 (wf_pending _ W4 i) Hp). naive_solver.
Qed.
End steps.
