(* ===== verification/SchedulerThms.v ===== *)
(** * Theorems about the scheduler

    No assertion fails whatever the order of the events, a reschedule picks the right
    entity, a resumed entity is not forgotten, and entities of equal priority get equal
    shares of the processor. *)
From Stdlib Require Import ZArith Lia ZifyBool.
From stdpp Require Import base list numbers option.
From S2P Require Import Prelude Scheduler SchedulerInv SchedulerSteps.
Open Scope Z_scope.

(** ** Sums *)
Definition sumZ (f : nat → Z) (l : list nat) : Z := foldr (λ i a, f i + a) 0 l.
Lemma sumZ_perm f l l' : l ≡ₚ l' → sumZ f l = sumZ f l'.
Proof. unfold sumZ. induction 1; simpl; lia. Qed.
Lemma sumZ_shift f g x l : (∀ i, i ∈ l → g i = f i + x) → sumZ g l = sumZ f l + Z.of_nat (length l) * x.
Proof. unfold sumZ. induction l as [|i l IH]; intros E; simpl; [lia|]. rewrite IH, (E i) by set_solver. lia. Qed.
Lemma sumZ_ext f g l : (∀ i, i ∈ l → g i = f i) → sumZ g l = sumZ f l.
Proof. intros E. rewrite (sumZ_shift f g 0); [lia|]. intros i Hi. rewrite E by done. lia. Qed.
Lemma sumZ_lower f n m l : (∀ i, i ∈ l → m ≤ n * f i) → Z.of_nat (length l) * m ≤ n * sumZ f l.
Proof. unfold sumZ. induction l as [|i l IH]; intros B; simpl; [lia|]. pose proof (B i ltac:(set_solver)). specialize (IH (λ i Hi, B i ltac:(set_solver))). lia. Qed.
Lemma sumZ_upper f m l : (∀ i, i ∈ l → f i ≤ m) → sumZ f l ≤ Z.of_nat (length l) * m.
Proof. unfold sumZ. induction l as [|i l IH]; intros B; simpl; [lia|]. pose proof (B i ltac:(set_solver)). specialize (IH (λ i Hi, B i ltac:(set_solver))). lia. Qed.
(** When no value is far below the average, none is far above. *)
Lemma sumZ_spread f l B i : (∀ j, j ∈ l → sumZ f l - Z.of_nat (length l) * B ≤ Z.of_nat (length l) * f j) → i ∈ l →
  Z.of_nat (length l) * f i ≤ sumZ f l + Z.of_nat (length l) * (Z.of_nat (length l) - 1) * B.
Proof.
  intros Hb Hi. apply elem_of_Permutation in Hi as (l' & P). pose proof (sumZ_perm f _ _ P) as Hs. pose proof (Permutation_length P) as Hl. simpl in Hl.
  unfold sumZ at 2 in Hs. simpl in Hs. fold (sumZ f l') in Hs.
  pose proof (sumZ_lower f (Z.of_nat (length l)) (sumZ f l - Z.of_nat (length l) * B) l') as H'.
  specialize (H' ltac:(intros j Hj; apply Hb; rewrite P; set_solver)).
  replace (Z.of_nat (length l')) with (Z.of_nat (length l) - 1) in H' by lia. replace (sumZ f l') with (sumZ f l - f i) in H' by lia. nia.
Qed.

(** ** Safety *)

(** The events that reschedule, or decide that the current entity goes on *)
Definition reschedules (s : Scheduler) (ev : event) : bool :=
  match ev with
  | EvCheck _ _ => mustCallPreemption s
  | EvCheckThread _ _ => mustCallPreemption s && bool_decide (preemptionDeadline s = None)
  | EvDefer _ _ | EvBlock _ _ | EvTerminate _ _ _ | EvMigrate _ _ => true
  | _ => false
  end.

Section thms.
Context `{!PairingHeap}.
(** The entities that an event is for *)
Definition touches (s : Scheduler) (ev : event) (i : nat) : Prop :=
  match ev with
  | EvAssociate j _ | EvResume j _ => i = j
  | EvBlock _ _ | EvMigrate _ _ | EvMigrateHere _ _ => is_current s i = true
  | EvTerminate wakes _ _ => is_current s i = true ∨ i ∈ wakes
  | _ => False
  end.
(** What a migration to the same processor leaves: the thread is pending, the rest is settled. *)
Definition migrated_here (s s' : Scheduler) : Prop :=
  ∃ c, current s = Some (Regular c) ∧ pendingList s' = [c] ∧ ranked s' ∧ near s' ∧ armed s'.
Definition good (t : Z) (s : Scheduler) (ev : event) (s' : Scheduler) : Prop :=
  sinv (ends t ev) s' ∧ (reschedules s ev = true → settled s') ∧ (migrates_here ev = true → migrated_here s s') ∧
  (migrates_here ev = false → signalled s → signalled s') ∧ keys_kept s s' ∧ ∀ i, ¬ touches s ev i → tracked s s' i.
Lemma keys_self s : keys_kept s s.
Proof. by intros i _. Qed.
Lemma sinv_later t t' s : t ≤ t' → sinv t s → sinv t' s.
Proof. intros ? []. constructor; try done. by eapply bounded_later. Qed.
Lemma check_ok t s now later : sinv t s → t ≤ now ≤ later →
  ∃ s', checkPreemption s now later = Ret s' ∧ sinv later s' ∧ (mustCallPreemption s = true → settled s') ∧ keys_kept s s' ∧ ∀ i, tracked s s' i.
Proof.
  intros I Ht. unfold checkPreemption. destruct (mustCallPreemption s) eqn:M.
  - destruct (handle_ok t s now later I Ht) as (s' & ? & ? & ? & ? & Tr). exists s'. split_and!; try done; intros i; by apply Tr.
  - exists s. split_and!; [done|eapply sinv_later; [|done]; lia|done|apply keys_self|intros i; by apply tracked_same].
Qed.
Lemma settled_signalled s : settled s → signalled s.
Proof. intros [Hp _] Hn. done. Qed.
Lemma suppress_sinv t s : sinv t s → sinv t (suppressRenewalUntilInterrupt s).
Proof.
  intros [W C Hi B]. unfold suppressRenewalUntilInterrupt. destruct (preemptionDeadline s) eqn:D; [|done].
  constructor; try done. by destruct W.
Qed.
Lemma suppress_signalled s : signalled s → signalled (suppressRenewalUntilInterrupt s).
Proof.
  intros S. unfold suppressRenewalUntilInterrupt. destruct (preemptionDeadline s) eqn:D; [|done].
  intros _. right. right. simpl. by rewrite D.
Qed.
Lemma timer_sinv t s now : sinv t s → t ≤ now → sinv now (handleTimerInterrupt s now).
Proof.
  intros I Ht. apply (sinv_later t now) in I; [|done]. destruct I as [W C Hi B]. unfold handleTimerInterrupt. destruct (preemptionDeadline s) as [d|] eqn:D; [|done].
  destruct (now <? d); [done|]. constructor; try done; [by destruct W|by split; [apply B|]].
Qed.
Lemma timer_signalled s now : signalled s → signalled (handleTimerInterrupt s now).
Proof.
  intros S. unfold handleTimerInterrupt. destruct (preemptionDeadline s) as [d|] eqn:D; [|done].
  destruct (now <? d); [done|]. by left.
Qed.
Lemma ping_sinv t s : sinv t s → sinv t (onPing s).
Proof. intros [W C Hi B]. constructor; try done. by destruct W. Qed.
Lemma kept_sinv t s s' : sinv t s → wf s' → kept s s' → sinv t s'.
Proof. intros [W C Hi B] W' K. constructor; try done; [by rewrite (e_cur _ _ K)|rewrite (e_cur _ _ K), (e_queue _ _ K); done|by eapply kept_bounded]. Qed.
Lemma resume_signalled s id s' : kept s s' → pendingList s' = pendingList s ++ [id] →
  (pendingList s = [] → mustCallPreemption s' = true ∨ pingSent s' = true) → signalled s → signalled s'.
Proof.
  intros K P Hsig S _. destruct (pendingList s) as [|x l] eqn:Hp; [destruct (Hsig eq_refl); auto|].
  destruct S as [H'|[H'|H']]; [by rewrite Hp|left; by apply K|right; left; by apply K|right; right; by rewrite (e_deadline _ _ K)].
Qed.
Lemma check_signalled s now later s' : checkPreemption s now later = Ret s' → (mustCallPreemption s = true → settled s') → signalled s → signalled s'.
Proof.
  unfold checkPreemption. destruct (mustCallPreemption s); [|by intros [= <-]]. intros _ Hs _. by apply settled_signalled, Hs.
Qed.
Lemma current_is s c : current s = Some (Regular c) → is_current s c = true.
Proof. intros C. unfold is_current. by rewrite C, Nat.eqb_refl. Qed.
Lemma is_current_Some s c : is_current s c = true → current s = Some (Regular c).
Proof. unfold is_current. destruct (current s) as [[|c']|]; try done. by intros ->%Nat.eqb_eq. Qed.
(** An event that ends with a settled scheduler *)
Lemma good_settled t s ev s' : migrates_here ev = false → sinv (ends t ev) s' → settled s' → keys_kept s s' → (∀ i, ¬ touches s ev i → tracked s s' i) → good t s ev s'.
Proof. intros M I S K T. split_and!; try done; [by rewrite M|]. intros _ _. by apply settled_signalled. Qed.

Lemma associate_good t s id e : sinv t s → allowed t s (EvAssociate id e) → ∃ s', exec s (EvAssociate id e) = Ret s' ∧ good t s (EvAssociate id e) s'.
Proof.
  intros I (Hn & He & Hp). pose proof (i_wf _ _ I) as W. cbn [exec]. unfold associate. rewrite assert_bind by (apply is_state_true; simpl; by rewrite Nat.eqb_refl).
  simpl. rewrite Nat.eqb_refl. eexists. split; [reflexivity|].
  set (e' := set_state (set_scheduler e true) StateAttached).
  set (s' := put_entity _ _ _). assert (wf s') as W'.
  { eapply put_wf; [eapply put_wf; [exact W|by right|exact He|by right|done|done]|right; simpl; by rewrite Nat.eqb_refl|reflexivity|by left|done|done]. }
  assert (kept s s') as K.
  { constructor; try done. intros i Hw%(waiting_active _ _ W). unfold unf. simpl. on_entity i id; [congruence|done]. }
  split_and!; try done; [by eapply kept_sinv|by apply kept_keys|intros i Hi; apply tracked_same; simpl; on_entity i id; done].
Qed.
Lemma priority_good t s c p : sinv t s → allowed t s (EvSetPriority c p) → ∃ s', exec s (EvSetPriority c p) = Ret s' ∧ good t s (EvSetPriority c p) s'.
Proof.
  intros I [C%is_current_Some Hp]. pose proof I as [W HC Hi B]. cbn [exec].
  unfold setPriority. rewrite assert_bind by (apply (wf_sched _ W); by rewrite (current_active s c W C)). rewrite assert_bind by (by apply current_is).
  eexists. split; [reflexivity|]. split_and!; try done; [| |intros i _; apply tracked_same; simpl; by on_entity i c].
  - constructor; try done. destruct W as [N Hm Ha Hpe Hsc Hpr Href Ho]. constructor; try done; simpl; intros i; try (on_entity i c; by auto).
  - intros i Hw. unfold unf. simpl. on_entity i c; [by destruct (current_not_waiting s c W C)|done].
Qed.
Lemma checkThread_good t s now later : sinv t s → t ≤ now ≤ later → ∃ s', exec s (EvCheckThread now later) = Ret s' ∧ good t s (EvCheckThread now later) s'.
Proof.
  intros I A. destruct (check_ok t (suppressRenewalUntilInterrupt s) now later) as (s' & E & I' & Hs & K & Tr); [by apply suppress_sinv|done|].
  exists s'. split; [done|]. split_and!; try done.
  - intros [M D%bool_decide_eq_true]%andb_true_iff. apply Hs. unfold suppressRenewalUntilInterrupt. by rewrite D.
  - intros _ S. eapply check_signalled; [exact E|exact Hs|by apply suppress_signalled].
  - intros i Hi. unfold suppressRenewalUntilInterrupt in K. destruct (preemptionDeadline s); by apply K.
  - intros i _. unfold suppressRenewalUntilInterrupt in Tr. destruct (preemptionDeadline s); apply Tr.
Qed.
Lemma sched_exec_ok t s ev : sinv t s → allowed t s ev → ∃ s', exec s ev = Ret s' ∧ good t s ev s'.
Proof.
  intros I A. destruct ev as [id e|id here|id p| |now|now later|now later|now later|now later|wakes now later|now later|now later].
  - by apply associate_good.
  - destruct (resume_ok s id here (i_wf _ _ I) A) as (s' & E & W' & K & P & He & Hsig). exists s'.
    split; [done|]. split_and!; try done; [by eapply kept_sinv|intros _; by eapply resume_signalled|by apply kept_keys|intros i Hi; apply tracked_same; by rewrite He].
  - by apply priority_good.
  - eexists. split; [done|]. split_and!; [by apply ping_sinv|done|done|by left|by intros i _|intros i _; by apply tracked_same].
  - eexists. split; [done|]. split_and!; [by eapply timer_sinv|done|done|intros _; by apply timer_signalled|intros i _; unfold handleTimerInterrupt; repeat case_match; done|].
    intros i _. apply tracked_same. unfold handleTimerInterrupt. repeat case_match; done.
  - destruct (check_ok t s now later I A) as (s' & E & ? & Hs & ? & Tr). exists s'. split; [done|]. split_and!; [done..|intros _; by eapply check_signalled|done|intros i _; apply Tr].
  - apply checkThread_good; [done|apply A].
  - destruct (defer_ok t s now later I A) as (s' & ? & ? & ? & ? & Tr). exists s'. split; [done|]. apply good_settled; try done. intros i _; by apply Tr.
  - destruct A as [R A]. unfold running in R. destruct (current s) as [[|c]|] eqn:C; try done.
    destruct (block_ok t s c now later I C A) as (s' & ? & ? & ? & [? Tr] & _). exists s'. split; [done|]. apply good_settled; try done.
    intros i Hi; apply Tr; intros ->; apply Hi; by apply current_is.
  - destruct A as (R & N & F & A). unfold running in *. cbn [exec]. unfold with_current. destruct (current s) as [[|c]|] eqn:C; try done.
    destruct (terminate_ok t s c wakes now later I C N F A) as (s' & ? & ? & ? & ? & Tr). exists s'. split; [done|]. apply good_settled; try done. intros i Hi. apply Tr.
    split; [intros ->; apply Hi; left; by apply current_is|intros Hw; apply Hi; by right].
  - destruct A as [R A]. unfold running in *. cbn [exec]. unfold with_current. destruct (current s) as [[|c]|] eqn:C; try done.
    destruct (migrate_ok t s c now later I C A) as (s' & ? & ? & ? & ? & Tr). exists s'. split; [done|]. apply good_settled; try done.
    intros i Hi; apply Tr; intros ->; apply Hi; by apply current_is.
  - destruct A as [R A]. unfold running in *. cbn [exec]. unfold with_current. destruct (current s) as [[|c]|] eqn:C; try done.
    destruct (migrate_here_ok t s c now later I C A) as (s' & ? & ? & ? & ? & Tr). exists s'. split; [done|]. split_and!; try done; [intros _; by exists c|].
    intros i Hi; apply Tr; intros ->; apply Hi; by apply current_is.
Qed.
Lemma new_sinv : sinv 0 Scheduler_new.
Proof.
  constructor; try done.
  constructor; try done; simpl; try (intros i; split; [done|set_solver]); [apply NoDup_nil_2|by right].
Qed.
Lemma reachable_sinv t s : reachable t s → sinv t s.
Proof.
  induction 1 as [|t s ev s' _ IH A E]; [apply new_sinv|]. destruct (sched_exec_ok t s ev IH A) as (s'' & E' & G & _). congruence.
Qed.
Lemma continues_sinv t0 s0 t s : sinv t0 s0 → signalled s0 → continues t0 s0 t s → sinv t s ∧ signalled s.
Proof.
  intros I0 S0. induction 1 as [|t s ev s' _ [I S] A M E]; [done|].
  destruct (sched_exec_ok t s ev I A) as (s'' & E' & G & _ & _ & Hs & _). assert (s'' = s') as -> by congruence. split; [done|by apply Hs].
Qed.

(** ** Fairness

    A period in which nobody wakes up, blocks or changes priority: the timer and calls into
    the scheduler, none more than [D] after the one before. *)
Inductive period (D : Z) (s : Scheduler) : Scheduler → Prop :=
  | period_start : period D s s
  | period_check s1 now later s2 : period D s s1 → refClock s1 ≤ now ≤ refClock s1 + D → handlePreemption s1 now later = Ret s2 → period D s s2
  | period_yield s1 now later s2 : period D s s1 → refClock s1 ≤ now ≤ refClock s1 + D → deferCurrent s1 now later = Ret s2 → period D s s2
  | period_timer s1 now : period D s s1 → period D s (handleTimerInterrupt s1 now)
  | period_suppress s1 : period D s s1 → period D s (suppressRenewalUntilInterrupt s1).
Definition count (s : Scheduler) : Z := Z.of_nat (length (runnable s)).
(** No runnable entity is further than [B] below the average unfairness. *)
Definition spread (B : Z) (s : Scheduler) : Prop :=
  ∀ i, i ∈ runnable s → sumZ (liveUnfairness s) (runnable s) - count s * B ≤ count s * liveUnfairness s i.
(** What the theorem allows: the slack of a decision, and what the running entity loses until the next one *)
Definition tolerance (n D : Z) : Z := slack + (n - 1) * (D * fixedInverse n).

Lemma check_updated s now later s' : wf s → current s ≠ None → handlePreemption s now later = Ret s' → ∃ u, updated s u now ∧ decided u s' later (runnable u).
Proof.
  intros W C. destruct (update_ok s now W C) as (u & E1 & U). unfold handlePreemption. rewrite E1. cbn [mbind outcome_bind].
  destruct (maybe_ok u later) as (r & s2 & -> & E2 & D); [apply U|by rewrite (up_cur _ _ _ U)|]. cbn [mbind outcome_bind]. rewrite E2. intros [= <-]. by exists u.
Qed.
Lemma yield_updated s now later s' : wf s → current s ≠ None → deferCurrent s now later = Ret s' → ∃ u, updated s u now ∧ decided u s' later (runnable u).
Proof.
  intros W C. destruct (update_ok s now W C) as (u & E1 & U). unfold deferCurrent. rewrite E1. cbn [mbind outcome_bind].
  destruct (force_ok u later) as (s1 & s2 & -> & E2 & D); [apply U|by rewrite (up_cur _ _ _ U)|]. cbn [mbind outcome_bind]. rewrite E2. intros [= <-]. by exists u.
Qed.
Lemma live_rtime s i : wf s → scheduled s = None → liveRuntime s i = rtime s i.
Proof.
  intros W Hs. unfold liveRuntime, rtime, is_current, on_cpu. rewrite Hs. destruct (current s) as [[|c]|]; try done.
  destruct (Nat.eqb_spec c i) as [->|]; [by rewrite decide_True by set_solver|by rewrite decide_False by set_solver].
Qed.
Lemma current_scheduled s : wf s → current s ≠ None → scheduled s = None.
Proof. intros W C. by destruct (wf_one _ W). Qed.

(** The invariant of a period, for the entities [l] with priority [p] *)
Record even (l : list nat) (p B total : Z) (phi : nat → Z) (s : Scheduler) : Prop := MkEven {
  v_wf : wf s;
  v_pending : pendingList s = [];
  v_ranked : ranked s;
  v_near : near s;
  v_runnable : runnable s ≡ₚ l;
  v_prio i : i ∈ l → priority (entity s i) = p;
  v_total : sumZ (unf s) l = total;
  v_spread i : i ∈ l → total - Z.of_nat (length l) * B ≤ Z.of_nat (length l) * unf s i;
  v_phi i : i ∈ l → unf s i + fixedInverse (Z.of_nat (length l)) * (Z.of_nat (length l) * rtime s i - refClock s) = phi i;
}.
Lemma fixedInverse_nonneg n : 0 ≤ n → 0 ≤ fixedInverse n.
Proof. intros. unfold fixedInverse, progressShift. destruct (decide (n = 0)) as [->|]; [done|]. apply Z.div_pos; lia. Qed.
Lemma ranked_current s l i : ranked s → wf s → runnable s ≡ₚ l → i ∈ l → ∃ c, current s = Some (Regular c) ∧ runnable s = c :: waitQueue s.
Proof.
  intros R W P Hi. unfold ranked in R. destruct (current s) as [[|c]|] eqn:C; [|by exists c; split; [done|unfold runnable, on_cpu; rewrite C]|done].
  assert (scheduled s = None) as Hs by (apply current_scheduled; [done|by rewrite C]).
  unfold runnable, on_cpu in P. rewrite C, Hs, R in P. simpl in P. rewrite <-P in Hi. set_solver.
Qed.
Lemma even_step l p B D total phi s now later s' : tolerance (Z.of_nat (length l)) D ≤ B → even l p B total phi s → l ≠ [] → refClock s ≤ now ≤ refClock s + D →
  (∃ u, updated s u now ∧ decided u s' later (runnable u)) → even l p B total phi s'.
Proof.
  intros HB V Hl Ht (u & U & DD). pose proof V as [W Pe R Nr P Pr T Sp Ph].
  destruct l as [|i0 l0] eqn:El; [done|]. destruct (ranked_current s (i0 :: l0) i0 R W P) as (c & C & Rn); [set_solver|]. rewrite <-El in *. clear i0 l0 El.
  set (n := Z.of_nat (length l)) in *. set (inv := fixedInverse n) in *.
  assert (n = Z.of_nat (length (waitQueue s)) + 1) as Hn by (unfold n; rewrite <-P, Rn; simpl; lia).
  assert (slice_progress s now = (now - refClock s) * inv) as Hx.
  { unfold slice_progress. cbv zeta. replace (Z.of_nat (length (runnable s))) with n by (unfold n; by rewrite P). rewrite (proj2 (Z.eqb_neq n 0)) by lia. done. }
  assert (0 ≤ inv) as Hinv by (apply fixedInverse_nonneg; lia).
  set (x := slice_progress s now) in *. assert (0 ≤ x ≤ D * inv) as Hxb by (rewrite Hx; nia).
  assert (waitQueue u = waitQueue s) as Hq by (rewrite (up_queue _ _ _ U), Pe, app_nil_r; done).
  assert (runnable u = runnable s) as Hru by (unfold runnable, on_cpu; rewrite Hq, (up_cur _ _ _ U), C; done).
  destruct (up_run _ _ _ U c) as [Uc Rc]; [unfold on_cpu; rewrite C; set_solver|].
  assert (∀ i, i ∈ l → unf s' i = unf u i ∧ rtime s' i = rtime u i) as Eu by (intros i _; split; apply (d_quiet _ _ _ _ DD)).
  assert (∀ i, i ∈ l → i = c ∨ i ∈ waitQueue s) as Hcase by (intros i; rewrite <-P, Rn; set_solver).
  assert (∀ i, i ∈ l → unf s i ≤ unf s c + slack) as Hnear.
  { intros i Hi. destruct (Hcase i Hi) as [->|Hw]; [pose proof slack_pos; lia|]. apply Nr; [done..|]. rewrite !Pr; [done| |done]. rewrite <-P, Rn. set_solver. }
  constructor.
  - apply DD.
  - rewrite (q_pending _ _ (d_quiet _ _ _ _ DD)). apply U.
  - apply DD.
  - apply DD.
  - rewrite (d_runnable _ _ _ _ DD), Hru. exact P.
  - intros i Hi. rewrite (q_prio _ _ (d_quiet _ _ _ _ DD)), (up_prio _ _ _ U). by apply Pr.
  - rewrite (sumZ_ext (unf u)) by (intros i Hi; by apply Eu). rewrite <-T, <-!(sumZ_perm _ _ _ P), Rn. unfold sumZ. simpl. fold (sumZ (unf u) (waitQueue s)) (sumZ (unf s) (waitQueue s)).
    rewrite (sumZ_shift (unf s) (unf u) x) by (intros i Hi; by apply (up_wait _ _ _ U)). rewrite Uc. lia.
  - intros i Hi. rewrite (proj1 (Eu i Hi)). destruct (Hcase i Hi) as [->|Hw].
    + rewrite Uc. pose proof (sumZ_upper (unf s) (unf s c + slack) l Hnear) as Hup. rewrite T in Hup. fold n in Hup.
      unfold tolerance in HB. fold inv in HB. replace (Z.of_nat (length (waitQueue s))) with (n - 1) by lia.
      assert ((n - 1) * x ≤ (n - 1) * (D * inv)) by (apply Z.mul_le_mono_nonneg_l; lia).
      assert (n * (slack + (n - 1) * x) ≤ n * B) by (apply Z.mul_le_mono_nonneg_l; lia).
      rewrite Z.mul_add_distr_l in *. rewrite Z.mul_sub_distr_l. lia.
    + rewrite (proj1 (up_wait _ _ _ U i Hw)). fold x. pose proof (Sp i Hi). nia.
  - intros i Hi. rewrite <-(Ph i Hi), (proj1 (Eu i Hi)), (proj2 (Eu i Hi)). rewrite (q_clock _ _ (d_quiet _ _ _ _ DD)), (up_clock _ _ _ U).
    destruct (Hcase i Hi) as [->|Hw].
    + rewrite Uc, Rc. replace (Z.of_nat (length (waitQueue s))) with (n - 1) by lia. fold x n. fold inv. rewrite Hx. ring.
    + destruct (up_wait _ _ _ U i Hw) as [-> ->]. fold x n. fold inv. rewrite Hx. ring.
Qed.
Lemma flags_even l p B total phi s m d : even l p B total phi s → even l p B total phi (set_must (set_deadline s d) m).
Proof. intros [[] ? ? ? ? ? ? ? ?]. constructor; try done. Qed.
Lemma must_even l p B total phi s m : even l p B total phi s → even l p B total phi (set_must s m).
Proof. intros [[] ? ? ? ? ? ? ? ?]. constructor; try done. Qed.
Lemma period_even l p B D total phi s s' : tolerance (Z.of_nat (length l)) D ≤ B → l ≠ [] → even l p B total phi s → period D s s' → even l p B total phi s'.
Proof.
  intros HB Hl V. assert (∀ s, even l p B total phi s → current s ≠ None) as Hc by (intros ? [_ _ R]; unfold ranked in R; by destruct (current _)).
  induction 1 as [|s1 now later s2 _ IH Ht E|s1 now later s2 _ IH Ht E|s1 now _ IH|s1 _ IH]; [done|..].
  - eapply even_step; [done|exact IH|done|done|]. eapply check_updated; [apply IH|by apply Hc|done].
  - eapply even_step; [done|exact IH|done|done|]. eapply yield_updated; [apply IH|by apply Hc|done].
  - unfold handleTimerInterrupt. destruct (preemptionDeadline s1); [|done]. destruct (_ <? _); [done|by apply flags_even].
  - unfold suppressRenewalUntilInterrupt. destruct (preemptionDeadline s1); [by apply must_even|done].
Qed.
Lemma even_start l p B s : wf s → current s ≠ None → settled s → l = runnable s → (∀ i, i ∈ l → priority (entity s i) = p) → spread B s →
  even l p B (sumZ (unf s) l) (λ i, unf s i + fixedInverse (Z.of_nat (length l)) * (Z.of_nat (length l) * rtime s i - refClock s)) s.
Proof.
  intros W C (Hp & R & Nr & _) -> Hpr Hsp.
  pose proof (current_scheduled s W C) as Hs. constructor; try done. intros i Hi. specialize (Hsp i Hi).
  rewrite (sumZ_ext (unf s)) in Hsp by (intros; by apply live_unf). rewrite live_unf in Hsp by done. exact Hsp.
Qed.
Lemma even_share l p B total phi s s' i : even l p B total phi s → even l p B total phi s' → i ∈ l →
  let n := Z.of_nat (length l) in Z.abs (fixedInverse n * (n * (rtime s' i - rtime s i) - (refClock s' - refClock s))) ≤ n * B.
Proof.
  intros V V' Hi n. pose proof (v_phi _ _ _ _ _ _ V i Hi) as P. pose proof (v_phi _ _ _ _ _ _ V' i Hi) as P'. fold n in P, P'.
  assert (1 ≤ n) as Hn by (unfold n; destruct l; [set_solver|simpl; lia]).
  assert (∀ s, even l p B total phi s → total - n * B ≤ n * unf s i ≤ total + n * (n - 1) * B) as Hb.
  { intros s0 V0. split; [by apply (v_spread _ _ _ _ _ _ V0)|]. rewrite <-(v_total _ _ _ _ _ _ V0).
    apply sumZ_spread; [|done]. rewrite (v_total _ _ _ _ _ _ V0). apply V0. }
  pose proof (Hb s V). pose proof (Hb s' V'). assert (n * Z.abs (unf s' i - unf s i) ≤ n * (n * B)) as Hd by nia.
  apply Z.mul_le_mono_pos_l in Hd; [|lia].
  replace (fixedInverse n * (n * (rtime s' i - rtime s i) - (refClock s' - refClock s))) with (- (unf s' i - unf s i)) by lia. rewrite Z.abs_opp. exact Hd.
Qed.
Lemma timer_must t s now : sinv t s → signalled s → pendingList s ≠ [] → t + sliceGranularity ≤ now →
  mustCallPreemption (handleTimerInterrupt (if pingSent s then onPing s else s) now) = true.
Proof.
  intros [_ _ _ [_ B]] S Hp Ht. unfold handleTimerInterrupt. specialize (S Hp). destruct (preemptionDeadline s) as [d|] eqn:D.
  - assert ((now <? d) = false) as Hd by (specialize (B d eq_refl); lia). destruct (pingSent s); simpl; rewrite D, Hd; done.
  - destruct (pingSent s); simpl; rewrite D; [done|]. naive_solver.
Qed.
Lemma handle_runnable s now later s' : wf s → current s ≠ None → handlePreemption s now later = Ret s' → runnable s' ≡ₚ runnable s ++ pendingList s.
Proof.
  intros W C E. destruct (check_updated s now later s' W C E) as (u & U & D). rewrite (d_runnable _ _ _ _ D). unfold runnable.
  rewrite (up_queue _ _ _ U), app_assoc. unfold on_cpu. rewrite (up_cur _ _ _ U), !current_scheduled; [done|done|done|apply U|by rewrite (up_cur _ _ _ U)].
Qed.
(** The order of the queue is that of the heap: no event changes the key of a waiting entity. *)
Lemma queue_keys_kept t s ev s' i : reachable t s → allowed t s ev → exec s ev = Ret s' → i ∈ waitQueue s →
  baseUnfairness (entity s' i) - refProgress (entity s' i) = baseUnfairness (entity s i) - refProgress (entity s i) ∧ priority (entity s' i) = priority (entity s i).
Proof.
  intros R A E Hi. destruct (sched_exec_ok t s ev (reachable_sinv t s R) A) as (s'' & E' & _ & _ & _ & _ & K & _). assert (s'' = s') as -> by congruence.
  destruct (K i Hi) as [K1 K2]. unfold unf in K1. split; [lia|done].
Qed.

(** ** The claims *)

(** C7: Whatever happens at a processor, in any order, no assertion of the scheduler fails,
    provided that an entity is resumed only while it is attached, that a priority is set
    only for the running entity (for others [setPriority] stops, see
    [other_priority_stops]) and that priorities stay within half of the range of an [int].
    After every event that reschedules, no entity is pending, nobody waits with a greater
    priority than the current entity, the idle task runs only when nobody waits, a waiting
    entity of equal priority is at most a slice ahead in unfairness, and a preemption
    deadline is armed for it.  The exception is a migration to the processor that the
    thread is on: the same holds, but the thread itself is left pending. *)
Theorem schedule_sound t s ev : reachable t s → allowed t s ev →
  ∃ s', exec s ev = Ret s' ∧ (reschedules s ev = true → settled s') ∧ (migrates_here ev = true → migrated_here s s').
Proof. intros R A. destruct (sched_exec_ok t s ev (reachable_sinv t s R) A) as (s' & E & _ & S & M & _). by exists s'. Qed.

(** C9: No wake-up is lost.  Start in any state without pending entities, for example the first
    one or one after a reschedule, and let anything happen but a migration of a thread to
    the processor that it is on (such a thread is forgotten, see [migrate_here_forgotten]).
    An entity that was resumed, from this processor or another one, then runs or waits in
    the queue after the next check of preemption, once the ping in flight has arrived and a
    slice has passed, though [resume] signals only for an empty list and exits of system
    calls clear the flag. *)
Theorem resumed_served t0 s0 t s i now later : reachable t0 s0 → pendingList s0 = [] → continues t0 s0 t s →
  i ∈ pendingList s → t + sliceGranularity ≤ now ≤ later →
  ∃ s', checkPreemption (handleTimerInterrupt (if pingSent s then onPing s else s) now) now later = Ret s' ∧ i ∈ runnable s' ∧ settled s'.
Proof.
  intros R P0 Hc Hi Ht. destruct (continues_sinv t0 s0 t s (reachable_sinv t0 s0 R) ltac:(intros Hn; by destruct Hn) Hc) as [I S]. assert (t ≤ now) as Htn by (unfold sliceGranularity in Ht; lia).
  set (s1 := if pingSent s then onPing s else s). assert (sinv t s1) as I1 by (unfold s1; destruct (pingSent s); [by apply ping_sinv|done]).
  assert (pendingList (handleTimerInterrupt s1 now) = pendingList s) as Hp by (unfold handleTimerInterrupt, s1; repeat case_match; done).
  pose proof (timer_sinv t s1 now I1 Htn) as I2. destruct (handle_ok now _ now later I2) as (s' & E & _ & St & _); [lia|].
  assert (mustCallPreemption (handleTimerInterrupt s1 now) = true) as Hm by (apply (timer_must t); [done|done|intros E'; rewrite E' in Hi; set_solver|lia]).
  exists s'. unfold checkPreemption. rewrite Hm. split_and!; [done| |done].
  rewrite (handle_runnable _ _ _ _ (i_wf _ _ I2) (i_cur _ _ I2) E), Hp. set_solver.
Qed.

(** C6: Entities of equal priority share the processor evenly: over a period of any length in which
    the same [n] entities are runnable, each one's run time is its [n]th part of the time
    that passed, up to a constant that depends on the slice, on the time between two checks
    and on the unfairness at the start, and not on the length of the period. *)
Theorem fair_share t s0 now later s p D B s' i :
  reachable t s0 → t ≤ now ≤ later → handlePreemption s0 now later = Ret s →
  (∀ j, j ∈ runnable s → priority (entity s j) = p) → spread B s → tolerance (count s) D ≤ B →
  period D s s' → i ∈ runnable s →
  Z.abs (fixedInverse (count s) * (count s * (liveRuntime s' i - liveRuntime s i) - (refClock s' - refClock s))) ≤ count s * B.
Proof.
  intros R Ht E Hpr Hsp HB HP Hi. destruct (handle_ok t s0 now later (reachable_sinv t s0 R) Ht) as (s'' & E' & I & S & _).
  assert (s'' = s) as -> by congruence. pose proof (even_start (runnable s) p B s (i_wf _ _ I) (i_cur _ _ I) S eq_refl Hpr Hsp) as V.
  assert (runnable s ≠ []) as Hl by (intros E0; rewrite E0 in Hi; set_solver).
  pose proof (period_even _ _ _ D _ _ s s' HB Hl V HP) as V'.
  assert (scheduled s' = None) as Hs' by (apply current_scheduled; [apply V'|pose proof (v_ranked _ _ _ _ _ _ V') as R'; unfold ranked in R'; by destruct (current s')]).
  rewrite (live_rtime s') by (done || apply V'). rewrite live_rtime by (apply I || by apply current_scheduled; apply I).
  exact (even_share _ _ _ _ _ s s' i V V' Hi).
Qed.
End thms.

(** ** Examples *)
Definition better (greater : nat → nat → bool) (x : nat) (best : option nat) : option nat :=
  match best with Some y => if greater x y then Some y else Some x | None => Some x end.
Lemma list_top_first greater q : q ≠ [] →
  (∀ a b, a ∈ q → b ∈ q → greater a b = true ∨ greater b a = true) →
  (∀ a b c, a ∈ q → b ∈ q → c ∈ q → greater a b = true → greater b c = true → greater a c = true) →
  ∃ t, foldr (better greater) None q = Some t ∧ t ∈ q ∧ ∀ e, e ∈ q → e ≠ t → greater e t = true.
Proof.
  induction q as [|x q IH]; intros Hq Ht Htr; [done|]. simpl. destruct (decide (q = [])) as [->|Hn].
  { exists x. split_and!; [done|set_solver|]. intros e ->%list_elem_of_singleton. done. }
  destruct IH as (t & -> & Hi & Hm); [done|intros a b ??; apply Ht; set_solver|intros a b c ???; apply Htr; set_solver|]. simpl.
  destruct (greater x t) eqn:G.
  - exists t. split_and!; [done|set_solver|]. intros e [->|He]%elem_of_cons Hne; [done|by apply Hm].
  - exists x. assert (greater t x = true) as G' by (destruct (Ht x t); [set_solver..|congruence|done]). split_and!; [done|set_solver|].
    intros e [->|He]%elem_of_cons Hne; [done|]. destruct (decide (e = t)) as [->|Het]; [done|]. apply (Htr e t x); [set_solver..|by apply Hm|done].
Qed.
#[export] Instance list_heap : PairingHeap :=
  { heap_top greater q := foldr (better greater) None q; heap_top_nil greater := eq_refl; heap_top_first := list_top_first }.

Definition next (s : Scheduler) (ev : event) : Scheduler := match exec s ev with Ret s' => s' | Stop _ => s end.
Lemma next_reach t s ev : reachable t s → allowed t s ev → reachable (ends t ev) (next s ev).
Proof.
  intros R A. destruct (sched_exec_ok t s ev (reachable_sinv t s R) A) as (s' & E & _). unfold next. rewrite E. by eapply reach_event.
Qed.
Ltac step R ev := apply (next_reach _ _ ev) in R; [|cbn; unfold prio_ok; repeat split; try done; try lia; vm_compute; done].
(** One entity runs and another processor has just resumed a second one. *)
Definition one_running : Scheduler := foldl next Scheduler_new [EvAssociate 0 new_entity; EvAssociate 1 new_entity; EvResume 0 true; EvCheck 5 6].
Definition one_resumed : Scheduler := next one_running (EvResume 1 false).
Lemma one_running_reachable : reachable 6 one_running.
Proof.
  pose proof reach_new as R. step R (EvAssociate 0 new_entity). step R (EvAssociate 1 new_entity). step R (EvResume 0 true). step R (EvCheck 5 6). exact R.
Qed.
Lemma one_resumed_reachable : reachable 6 one_resumed.
Proof. pose proof one_running_reachable as R. step R (EvResume 1 false). exact R. Qed.

Lemma schedule_sound_witness : ∃ s', exec one_resumed (EvBlock 7 8) = Ret s' ∧ settled s'.
Proof.
  destruct (schedule_sound 6 one_resumed (EvBlock 7 8)) as (s' & E & S & _); [exact one_resumed_reachable|split; [exact I|lia]|].
  exists s'. split; [exact E|apply S; reflexivity].
Defined.
Lemma resumed_served_witness : ∃ s', checkPreemption (handleTimerInterrupt (if pingSent one_resumed then onPing one_resumed else one_resumed) 10000006) 10000006 10000007 = Ret s' ∧ 1%nat ∈ runnable s' ∧ settled s'.
Proof.
  apply (resumed_served 6 one_running 6 one_resumed 1 10000006 10000007).
  - exact one_running_reachable.
  - reflexivity.
  - apply (continues_event 6 one_running 6 one_running (EvResume 1 false)); [apply continues_start|reflexivity..].
  - change (pendingList one_resumed) with [1%nat]. by apply list_elem_of_singleton.
  - unfold sliceGranularity. lia.
Defined.

(** Two entities from the first check after the ping, and the state 60 ms and six checks later *)
Definition share_start : Scheduler := next (next one_resumed EvPing) (EvCheck 10 10).
Definition share_times : list Z := [10000010; 20000010; 30000010; 40000010; 50000010; 60000010].
Definition tick (s : Scheduler) (now : Z) : Scheduler := match handlePreemption s now now with Ret s' => s' | Stop _ => s end.
Definition share_end : Scheduler := foldl tick share_start share_times.
Definition returns {A} (r : outcome A) : bool := match r with Ret _ => true | Stop _ => false end.
Lemma period_tick D s s1 now : period D s s1 → (refClock s1 <=? now) && (now <=? refClock s1 + D) && returns (handlePreemption s1 now now) = true → period D s (tick s1 now).
Proof.
  intros P [[? ?]%andb_true_iff Hr]%andb_true_iff. unfold tick. destruct (handlePreemption s1 now now) eqn:E; [|done]. eapply period_check; [done| |done]. lia.
Qed.
Lemma share_period : period 10000000 share_start share_end.
Proof. unfold share_end, share_times. cbn [foldl]. do 6 (apply period_tick; [|vm_compute; reflexivity]). apply period_start. Qed.
Lemma share_start_reachable : reachable 6 (next one_resumed EvPing).
Proof. pose proof one_resumed_reachable as R. step R EvPing. exact R. Qed.
Lemma fair_share_witness : let s := share_start in let s' := share_end in
  Z.abs (fixedInverse (count s) * (count s * (liveRuntime s' 1%nat - liveRuntime s 1%nat) - (refClock s' - refClock s))) ≤ count s * tolerance (count s) 10000000.
Proof.
  cbv zeta. apply (fair_share 6 (next one_resumed EvPing) 10 10 share_start 0 10000000 (tolerance (count share_start) 10000000) share_end 1).
  - exact share_start_reachable.
  - lia.
  - vm_compute. reflexivity.
  - change (runnable share_start) with [0%nat; 1%nat]. intros j [->|[->|[]%elem_of_nil]%elem_of_cons]%elem_of_cons; vm_compute; reflexivity.
  - unfold spread. change (runnable share_start) with [0%nat; 1%nat]. intros j [->|[->|[]%elem_of_nil]%elem_of_cons]%elem_of_cons; vm_compute; discriminate.
  - reflexivity.
  - exact share_period.
  - change (runnable share_start) with [0%nat; 1%nat]. apply list_elem_of_further, list_elem_of_here.
Defined.

(** ** What the guards of the events exclude, and a migration to the same processor *)

(** [setPriority] of an entity that does not run fails its assertion; helSetPriority calls it
    for any thread that the caller has a handle to. *)
Lemma other_priority_stops : setPriority one_running 1 5 = Stop AssertionFailed.
Proof. reflexivity. Qed.
(** The difference of two [int]s wraps: an entity with a much greater priority comes last. *)
Lemma priority_wraps : ScheduleGreater (set_priority new_entity (2 ^ 31 - 1)) (set_priority new_entity (-2)) = true.
Proof. reflexivity. Qed.
(** [migrateCurrent] to the same processor resumes the thread after the update and then clears
    the flag: the idle task runs, the thread is pending, nothing will look, and further
    resumes do not signal either, since the list is not empty. *)
Lemma migrate_here_forgotten :
  match migrateHere one_running 0 10 10 with
  | Ret s =>
      current s = Some Idle ∧ pendingList s = [0%nat] ∧ mustCallPreemption s = false ∧ pingSent s = false ∧ preemptionDeadline s = None ∧
      match resume s 1 true with Ret s' => mustCallPreemption s' = false ∧ pingSent s' = false ∧ pendingList s' = [0%nat; 1%nat] | Stop _ => False end
  | Stop _ => False
  end.
Proof. vm_compute. by repeat split. Qed.
