(* ===== verification/Thread.v ===== *)
(** * Blocking threads

    [Thread::asyncBlockCurrent] and what can wake it up: the completion of the operation,
    work that is posted to the queues of the thread, and conditions that others raise
    (thread.hpp, thread.cpp and work-queue.cpp of thor).  The thread runs on the scheduler
    of [Scheduler]; everybody else is an agent.  A step is one access to an atomic variable
    or one section under the mutex of the thread or of a work queue.

    A section that ends in [commitReschedule] is one step: the mutex is released just
    before the commit, which reads nothing that a [resume] in between writes.  The thread
    waits at the passive level, at which both its work queues run; work that the thread
    posts to itself is left out. *)
From Stdlib Require Import ZArith Lia.
From stdpp Require Import base list numbers option.
From S2P Require Import Prelude Scheduler.
Open Scope Z_scope.

(** ** Conditions *)
Definition cpuMigration : Z := 1.
Definition passiveWq : Z := 2.
Definition exceptionalWq : Z := 4.
Definition interrupt : Z := 8.
Definition terminate : Z := 16.
Definition cancelConditions : Z := Z.lor interrupt terminate.
Definition wqConditions : Z := Z.lor passiveWq exceptionalWq.
Definition some_of (pending mask : Z) : bool := negb (Z.land pending mask =? 0).

Inductive RunState := kRunActive | kRunDeferred | kRunBlocked.
#[export] Instance RunState_eq_dec : EqDecision RunState.
Proof. solve_decision. Defined.
Inductive Wq := Passive | Exceptional.
#[export] Instance Wq_eq_dec : EqDecision Wq.
Proof. solve_decision. Defined.
Definition wq_condition (w : Wq) : Z := match w with Passive => passiveWq | Exceptional => exceptionalWq end.
(** A worklet; [completes]: it sets the result of the operation. *)
Record Worklet := MkWorklet { wl_id : nat; completes : bool }.

(** ** Everybody else *)
Inductive agent :=
  | AComplete                  (* [set_value], about to store [done] *)
  | AUnblock                   (* [unblockOther], about to exchange the latch *)
  | AUnblockLocked             (* [unblockOther], about to take the mutex *)
  | ARaise (c : Z)             (* [raiseCondition_], about to take the mutex *)
  | APost (w : Wq) (k : Worklet). (* [WorkQueue::post], about to take the mutex *)
(** ** The thread *)
Inductive tpc :=
  | TCheckDone                                        (* the head of the loop *)
  | TLoad                                             (* [_pendingConditions.load] of the loop *)
  | TRunWqs                                           (* [_pendingConditions.load] of [runWqs] *)
  | TRun (w : Wq) (again : bool)                      (* [WorkQueue::run], about to take its work *)
  | TWork (w : Wq) (again : bool) (l : list Worklet)  (* the worklets of [run] *)
  | TStored (w : Wq) (again : bool) (l : list Worklet)  (* a worklet has stored [done] *)
  | TUnblock (w : Wq) (again : bool) (l : list Worklet) (* a worklet is in [unblockOther], about to take the mutex *)
  | TClear (w : Wq)                                   (* about to clear the condition *)
  | TRecheck (w : Wq)                                 (* [check] after the condition was cleared *)
  | TBlock (c : Z)                                    (* [blockCurrent], about to exchange the latch *)
  | TLocked (c : Z)                                   (* [blockCurrent], about to take the mutex *)
  | TReturned.

Record World := MkWorld {
  sched : Scheduler;
  tid : nat;
  runState : RunState;
  unblockLatch : bool;
  pendingConditions : Z;
  unblockConditions : Z;
  opDone : bool;
  interruptible : bool;
  effectiveCancel : Z;
  lockedQueue : Wq → list Worklet;
  pc : tpc;
  agents : list agent;
  started : bool;        (* somebody has taken on to complete the operation *)
  posted : list nat;     (* the worklets that were posted, and those that ran *)
  ran : list nat;
}.
Definition set_sched (x : World) (s : Scheduler) (r : RunState) : World := MkWorld s (tid x) r (unblockLatch x) (pendingConditions x) (unblockConditions x) (opDone x) (interruptible x) (effectiveCancel x) (lockedQueue x) (pc x) (agents x) (started x) (posted x) (ran x).
Definition set_latch (x : World) (b : bool) : World := MkWorld (sched x) (tid x) (runState x) b (pendingConditions x) (unblockConditions x) (opDone x) (interruptible x) (effectiveCancel x) (lockedQueue x) (pc x) (agents x) (started x) (posted x) (ran x).
Definition set_conditions (x : World) (c : Z) : World := MkWorld (sched x) (tid x) (runState x) (unblockLatch x) c (unblockConditions x) (opDone x) (interruptible x) (effectiveCancel x) (lockedQueue x) (pc x) (agents x) (started x) (posted x) (ran x).
Definition set_unblock (x : World) (c : Z) : World := MkWorld (sched x) (tid x) (runState x) (unblockLatch x) (pendingConditions x) c (opDone x) (interruptible x) (effectiveCancel x) (lockedQueue x) (pc x) (agents x) (started x) (posted x) (ran x).
Definition set_done (x : World) : World := MkWorld (sched x) (tid x) (runState x) (unblockLatch x) (pendingConditions x) (unblockConditions x) true (interruptible x) (effectiveCancel x) (lockedQueue x) (pc x) (agents x) (started x) (posted x) (ran x).
Definition cancel (x : World) : World := MkWorld (sched x) (tid x) (runState x) (unblockLatch x) (pendingConditions x) (unblockConditions x) (opDone x) false (effectiveCancel x) (lockedQueue x) (pc x) (agents x) (started x) (posted x) (ran x).
Definition set_locked (x : World) (w : Wq) (l : list Worklet) : World := MkWorld (sched x) (tid x) (runState x) (unblockLatch x) (pendingConditions x) (unblockConditions x) (opDone x) (interruptible x) (effectiveCancel x) (λ v, if decide (v = w) then l else lockedQueue x v) (pc x) (agents x) (started x) (posted x) (ran x).
Definition goto (x : World) (p : tpc) : World := MkWorld (sched x) (tid x) (runState x) (unblockLatch x) (pendingConditions x) (unblockConditions x) (opDone x) (interruptible x) (effectiveCancel x) (lockedQueue x) p (agents x) (started x) (posted x) (ran x).
Definition set_agents (x : World) (l : list agent) : World := MkWorld (sched x) (tid x) (runState x) (unblockLatch x) (pendingConditions x) (unblockConditions x) (opDone x) (interruptible x) (effectiveCancel x) (lockedQueue x) (pc x) l (started x) (posted x) (ran x).
Definition set_started (x : World) : World := MkWorld (sched x) (tid x) (runState x) (unblockLatch x) (pendingConditions x) (unblockConditions x) (opDone x) (interruptible x) (effectiveCancel x) (lockedQueue x) (pc x) (agents x) true (posted x) (ran x).
Definition log_post (x : World) (k : nat) : World := MkWorld (sched x) (tid x) (runState x) (unblockLatch x) (pendingConditions x) (unblockConditions x) (opDone x) (interruptible x) (effectiveCancel x) (lockedQueue x) (pc x) (agents x) (started x) (posted x ++ [k]) (ran x).
Definition log_run (x : World) (k : nat) : World := MkWorld (sched x) (tid x) (runState x) (unblockLatch x) (pendingConditions x) (unblockConditions x) (opDone x) (interruptible x) (effectiveCancel x) (lockedQueue x) (pc x) (agents x) (started x) (posted x) (ran x ++ [k]).

Section heap.
Context `{!PairingHeap}.

(** The section of [unblockOther] *)
Definition unblock_locked (x : World) (here : bool) : outcome World :=
  if decide (runState x = kRunBlocked) then s ← resume (sched x) (tid x) here; Ret (set_sched x s kRunDeferred) else Ret x.
(** The section of [raiseCondition_]; what the caller does after it *)
Definition raise_locked (x : World) (c : Z) : World * list agent :=
  let pending := pendingConditions x in
  let x := set_conditions x (Z.lor pending c) in
  if some_of pending c then (x, [])
  else if decide (runState x = kRunBlocked) then if some_of (unblockConditions x) c then (x, [AUnblock]) else (x, [])
  else (x, []).
(** The store of [set_value]: the state of the operation lives until [asyncBlockCurrent] returns. *)
Definition store_done (x : World) : outcome World :=
  assert! negb (opDone x);
  match pc x with TReturned => Stop NullDereference | _ => Ret (set_done x) end.
(** The section of [WorkQueue::post]; the first worklet calls [wakeup]. *)
Definition post_locked (x : World) (w : Wq) (k : Worklet) : World * list agent :=
  let invokeWakeup := match lockedQueue x w with [] => true | _ => false end in
  (log_post (set_locked x w (lockedQueue x w ++ [k])) (wl_id k), if invokeWakeup then [ARaise (wq_condition w)] else []).
(** One step of an agent, and what it does next *)
Definition agent_step (x : World) (a : agent) (here : bool) : outcome (World * list agent) :=
  match a with
  | AComplete => x ← store_done x; Ret (x, [AUnblock])
  | AUnblock => Ret (set_latch x true, if unblockLatch x then [] else [AUnblockLocked])
  | AUnblockLocked => x ← unblock_locked x here; Ret (x, [])
  | ARaise c => Ret (raise_locked x c)
  | APost w k => Ret (post_locked x w k)
  end.
Definition run_agent (x : World) (n : nat) (here : bool) : outcome World :=
  match agents x !! n with
  | None => Ret x
  | Some a => r ← agent_step x a here; Ret (set_agents r.1 (take n (agents x) ++ r.2 ++ drop (S n) (agents x)))
  end.

(** The section of [WorkQueue::run] *)
Definition take_work (x : World) (w : Wq) (again : bool) : World := goto (set_locked x w []) (TWork w again (lockedQueue x w)).
(** The section of [blockCurrent] *)
Definition block_locked (x : World) (c now later : Z) : outcome World :=
  if unblockLatch x then Ret (goto x TCheckDone)
  else if some_of (pendingConditions x) c then Ret (goto x TCheckDone)
  else
    assert! bool_decide (runState x = kRunActive);
    s ← blockCurrent (sched x) now later;
    Ret (goto (set_unblock (set_sched x s kRunBlocked) c) TCheckDone).
(** One step of the thread *)
Definition after_run (w : Wq) (again : bool) : tpc := if again then TCheckDone else TClear w.
Definition thread_step (x : World) (now later : Z) : outcome World :=
  match pc x with
  | TCheckDone => Ret (goto x (if opDone x then TReturned else TLoad))
  | TLoad =>
      let pending := pendingConditions x in
      if some_of pending wqConditions then Ret (goto x TRunWqs)
      else if interruptible x && some_of pending (effectiveCancel x) then Ret (goto (cancel x) TCheckDone)
      else Ret (goto x (TBlock (if interruptible x then Z.lor wqConditions (effectiveCancel x) else wqConditions)))
  | TRunWqs =>
      let pending := pendingConditions x in
      Ret (goto x (if some_of pending exceptionalWq then TRun Exceptional false else if some_of pending passiveWq then TRun Passive false else TCheckDone))
  | TRun w again => Ret (take_work x w again)
  | TWork w again [] => Ret (goto x (after_run w again))
  | TWork w again (k :: l) =>
      let x := log_run x (wl_id k) in
      if completes k then x ← store_done x; Ret (goto x (TStored w again l)) else Ret (goto x (TWork w again l))
  | TStored w again l => Ret (goto (set_latch x true) (if unblockLatch x then TWork w again l else TUnblock w again l))
  | TUnblock w again l => x ← unblock_locked x true; Ret (goto x (TWork w again l))
  | TClear w => Ret (goto (set_conditions x (Z.ldiff (pendingConditions x) (wq_condition w))) (TRecheck w))
  | TRecheck w => Ret (goto x (match lockedQueue x w with [] => TCheckDone | _ => TRun w true end))
  | TBlock c => Ret (goto (set_latch x false) (if unblockLatch x then TCheckDone else TLocked c))
  | TLocked c => block_locked x c now later
  | TReturned => Ret x
  end.

(** [_runState] when the scheduler switches from and to the thread: [handlePreemption],
    [deferCurrent] and [invoke] *)
Definition switched (x : World) (s : Scheduler) : outcome World :=
  match is_current (sched x) (tid x), is_current s (tid x) with
  | true, true => assert! bool_decide (runState x = kRunActive); Ret (set_sched x s kRunActive)
  | true, false => assert! bool_decide (runState x = kRunActive); Ret (set_sched x s kRunDeferred)
  | false, true => assert! bool_decide (runState x = kRunDeferred); Ret (set_sched x s kRunActive)
  | false, false => Ret (set_sched x s (runState x))
  end.

Inductive wevent :=
  | WThread (now later : Z)
  | WAgent (n : nat) (here : bool)
  | WSpawn (a : agent)
  | WSched (ev : event).
Definition wexec (x : World) (ev : wevent) : outcome World :=
  match ev with
  | WThread now later => if is_current (sched x) (tid x) then thread_step x now later else Ret x
  | WAgent n here => run_agent x n here
  | WSpawn a =>
      let x := match a with AComplete | APost _ (MkWorklet _ true) => set_started x | _ => x end in
      Ret (set_agents x (agents x ++ [a]))
  | WSched ev => s ← exec (sched x) ev; switched x s
  end.
(** Agents that come: the operation is completed once; conditions are those of the code. *)
Definition spawn_ok (x : World) (a : agent) : Prop :=
  match a with
  | AComplete | APost _ (MkWorklet _ true) => started x = false
  | ARaise c => c = cpuMigration ∨ c = interrupt ∨ c = terminate
  | AUnblock | APost _ _ => True
  | AUnblockLocked => False
  end.
(** Events of the scheduler that others cause: the thread is resumed, blocks and ends only by itself. *)
Definition others (x : World) (ev : event) : Prop :=
  match ev with
  | EvResume i _ => i ≠ tid x
  | EvAssociate i _ => i ≠ tid x
  | EvBlock _ _ | EvMigrate _ _ | EvMigrateHere _ _ => is_current (sched x) (tid x) = false
  | EvTerminate wakes _ _ => is_current (sched x) (tid x) = false ∧ tid x ∉ wakes
  | _ => True
  end.
Definition wallowed (t : Z) (x : World) (ev : wevent) : Prop :=
  match ev with
  | WThread now later => t ≤ now ≤ later
  | WAgent _ _ => True
  | WSpawn a => spawn_ok x a
  | WSched ev => allowed t (sched x) ev ∧ others x ev
  end.
Definition wends (t : Z) (x : World) (ev : wevent) : Z :=
  match ev with WThread now later => later | WSched ev => ends t ev | _ => t end.
(** A thread that runs and starts to wait for an operation; the latch and conditions may be
    left from before. *)
Definition wait_start (s : Scheduler) (id : nat) (latch : bool) (pending : Z) (inter : bool) (masked : Z) : World :=
  MkWorld s id kRunActive latch pending 0 false inter (Z.ldiff cancelConditions masked) (λ _, []) TCheckDone [] false [] [].
Inductive wreachable : Z → World → Prop :=
  | wreach_start t s id latch pending inter masked : reachable t s → is_current s id = true → wreachable t (wait_start s id latch pending inter masked)
  | wreach_event t x ev x' : wreachable t x → wallowed t x ev → wexec x ev = Ret x' → wreachable (wends t x ev) x'.
End heap.
