(* ===== verification/ThreadThms.v ===== *)
(** * Theorems about blocking threads

    Under every interleaving of the thread with those who complete its operation, post work,
    raise conditions and schedule: no assertion fails, the thread does not stay blocked when
    there is something to do, and it returns once its operation is complete. *)
From Stdlib Require Import ZArith Lia ZifyBool.
From stdpp Require Import base list numbers option.
From S2P Require Import Prelude Scheduler SchedulerInv SchedulerSteps SchedulerThms Thread.
Open Scope Z_scope.

(** ** Conditions *)
Definition wq_bit (w : Wq) : Z := match w with Passive => 1 | Exceptional => 2 end.
Lemma some_of_false p m : some_of p m = false ↔ ∀ n, 0 ≤ n → Z.testbit p n && Z.testbit m n = false.
Proof.
  unfold some_of. rewrite negb_false_iff, Z.eqb_eq. split.
  - intros E n _. by rewrite <-Z.land_spec, E, Z.bits_0.
  - intros E. apply Z.bits_inj'. intros n Hn. by rewrite Z.land_spec, E, Z.bits_0.
Qed.
Lemma some_of_bit p n : 0 ≤ n → some_of p (2 ^ n) = Z.testbit p n.
Proof.
  intros Hn. destruct (Z.testbit p n) eqn:B.
  - apply not_false_iff_true. rewrite some_of_false. intros E. specialize (E n Hn). rewrite B, Z.pow2_bits_true in E by done. done.
  - apply some_of_false. intros m Hm. destruct (decide (m = n)) as [->|]; [by rewrite B|]. rewrite Z.pow2_bits_false by done. apply andb_false_r.
Qed.
Lemma some_of_comm p m : some_of p m = some_of m p.
Proof. unfold some_of. by rewrite Z.land_comm. Qed.
Lemma some_of_lor p q m : some_of (Z.lor p q) m = some_of p m || some_of q m.
Proof.
  destruct (some_of p m || some_of q m) eqn:E.
  - apply not_false_iff_true. intros F. apply not_false_iff_true in E. apply E. apply orb_false_iff. rewrite !some_of_false in *.
    split; intros n Hn; specialize (F n Hn); rewrite Z.lor_spec, andb_orb_distrib_l in F; apply orb_false_iff in F; tauto.
  - apply orb_false_iff in E. rewrite !some_of_false in *. destruct E as [E1 E2]. intros n Hn. by rewrite Z.lor_spec, andb_orb_distrib_l, E1, E2.
Qed.
Lemma wq_condition_pow w : wq_condition w = 2 ^ wq_bit w.
Proof. by destruct w. Qed.
Definition covers (c : Z) : Prop := ∀ w, Z.testbit c (wq_bit w) = true.
Lemma covers_some p c w : covers c → Z.testbit p (wq_bit w) = true → some_of p c = true.
Proof. intros C B. apply not_false_iff_true. rewrite some_of_false. intros F. specialize (F (wq_bit w) ltac:(by destruct w)). by rewrite B, C in F. Qed.
Lemma covers_wq : covers wqConditions.
Proof. by intros []. Qed.
Lemma covers_lor c d : covers c → covers (Z.lor c d).
Proof. intros C w. by rewrite Z.lor_spec, C. Qed.

(** ** The invariant *)
Definition unblocks (a : agent) : Prop := a = AUnblock ∨ a = AUnblockLocked.
Definition acompletes (a : agent) : bool := match a with AComplete => true | APost _ k => completes k | _ => false end.
Definition pc_work (p : tpc) : list Worklet := match p with TWork _ _ l | TStored _ _ l | TUnblock _ _ l => l | _ => [] end.
Definition inflight (x : World) : list Worklet := pc_work (pc x) ++ lockedQueue x Passive ++ lockedQueue x Exceptional.
Definition cnt {A} (f : A → bool) (l : list A) : nat := foldr (λ a n, (if f a then 1 else 0) + n)%nat 0%nat l.
Definition ncomplete (x : World) : nat := cnt acompletes (agents x) + cnt completes (inflight x).
(** The thread has seen that the operation is not done. *)
Definition past_check (p : tpc) : bool := match p with TLoad | TBlock _ | TLocked _ => true | _ => false end.
Definition will_recheck (p : tpc) (w : Wq) : Prop := p = TRecheck w ∨ p = TRun w true.
Definition in_state (x : World) : Prop :=
  match runState x with
  | kRunActive => is_current (sched x) (tid x) = true
  | kRunDeferred => is_current (sched x) (tid x) = false ∧ live (state (entity (sched x) (tid x)))
  | kRunBlocked => state (entity (sched x) (tid x)) = StateAttached ∧ pc x = TCheckDone ∧ covers (unblockConditions x)
  end.
Record winv (t : Z) (x : World) : Prop := MkWinv {
  w_sched : sinv t (sched x);
  w_state : in_state x;
  w_latch : runState x = kRunBlocked → unblockLatch x = true → AUnblockLocked ∈ agents x;
  w_cond : runState x = kRunBlocked → some_of (pendingConditions x) (unblockConditions x) = true → ∃ a, a ∈ agents x ∧ unblocks a;
  w_blocked : runState x = kRunBlocked → opDone x = true → ∃ a, a ∈ agents x ∧ unblocks a;
  w_past : past_check (pc x) = true → opDone x = true → unblockLatch x = true ∨ AUnblock ∈ agents x;
  w_mask c : pc x = TBlock c ∨ pc x = TLocked c → covers c;
  w_queue w : lockedQueue x w ≠ [] → Z.testbit (pendingConditions x) (wq_bit w) = true ∨ ARaise (wq_condition w) ∈ agents x ∨ will_recheck (pc x) w;
  w_raise c : ARaise c ∈ agents x → ∃ n, 0 ≤ n ∧ c = 2 ^ n;
  w_once : ((if opDone x then 1 else 0) + ncomplete x ≤ if started x then 1 else 0)%nat;
  w_returned : pc x = TReturned → opDone x = true;
  w_work : ran x ++ (wl_id <$> inflight x) ≡ₚ posted x;
}.
Lemma cnt_perm {A} (f : A → bool) l l' : l ≡ₚ l' → cnt f l = cnt f l'.
Proof. unfold cnt. induction 1; simpl; lia. Qed.
Lemma cnt_app {A} (f : A → bool) l l' : cnt f (l ++ l') = (cnt f l + cnt f l')%nat.
Proof. unfold cnt. induction l; simpl; lia. Qed.
Lemma cnt_zero {A} (f : A → bool) l : (∀ a, a ∈ l → f a = false) → cnt f l = 0%nat.
Proof. unfold cnt. induction l as [|a l IH]; intros E; simpl; [done|]. rewrite E, IH by set_solver. done. Qed.
Lemma winv_agents t x l l' : l ≡ₚ l' → winv t (set_agents x l) → winv t (set_agents x l').
Proof.
  intros P []. constructor; try done; simpl in *.
  - intros. rewrite <-P. auto.
  - intros. setoid_rewrite <-P. auto.
  - intros. setoid_rewrite <-P. auto.
  - intros. rewrite <-P. auto.
  - intros. rewrite <-P. auto.
  - intros c. rewrite <-P. auto.
  - unfold ncomplete in *. simpl in *. rewrite <-(cnt_perm _ _ _ P). done.
Qed.
Lemma set_agents_self x : set_agents x (agents x) = x.
Proof. by destruct x. Qed.

Section thread.
Context `{!PairingHeap}.
(** A section of the thread that another processor runs *)
Lemma unblock_locked_ok t x here : winv t x →
  ∃ x', unblock_locked x here = Ret x' ∧ runState x' ≠ kRunBlocked ∧ sinv t (sched x') ∧ in_state x' ∧ x' = set_sched x (sched x') (runState x').
Proof.
  intros I. pose proof (w_state _ _ I) as St. unfold in_state in St. unfold unblock_locked. destruct (decide (runState x = kRunBlocked)) as [E|E].
  - rewrite E in St. destruct St as (Ha & _). pose proof (w_sched _ _ I) as S.
    destruct (sched_exec_ok t (sched x) (EvResume (tid x) here) S Ha) as (s & Es & G & _). simpl in Es, G. rewrite Es. cbn [mbind outcome_bind].
    eexists. split; [reflexivity|]. split_and!; [done|done| |done]. unfold in_state. simpl.
    destruct (resume_ok _ _ here (i_wf _ _ S) Ha) as (s' & Es' & W' & K & P & _). assert (s' = s) as -> by congruence. split.
    + unfold is_current. rewrite (e_cur _ _ K). by apply (attached_off _ _ (i_wf _ _ S)).
    + left. apply (wf_pending _ W'). rewrite P. set_solver.
  - exists x. split_and!; [done..|apply I|apply I|by destruct x].
Qed.
Lemma in_rest {A} (a b : A) l : a ∈ b :: l → a ≠ b → a ∈ l.
Proof. intros [->|?]%elem_of_cons ?; done. Qed.
Lemma inflight_post x w k : inflight (set_locked x w (lockedQueue x w ++ [k])) ≡ₚ k :: inflight x.
Proof.
  unfold inflight. simpl. rewrite Permutation_middle. apply Permutation_app_head. destruct w; simpl.
  - rewrite app_comm_cons. apply Permutation_app_tail. by rewrite Permutation_app_comm.
  - rewrite Permutation_middle. apply Permutation_app_head. by rewrite Permutation_app_comm.
Qed.
Definition agent_sound (t : Z) (x : World) (a : agent) (rest : list agent) (here : bool) : Prop :=
  winv t (set_agents x (a :: rest)) → ∃ r, agent_step x a here = Ret r ∧ winv t (set_agents r.1 (r.2 ++ rest)).
Lemma complete_ok t x rest here : agent_sound t x AComplete rest here.
Proof.
  intros I. simpl.
  destruct I as [Hs Hst Hl Hc Hb Hp Hm Hq Hr Ho Hret Hw]; simpl in *. unfold ncomplete in Ho. simpl in Ho.
  assert (opDone x = false) as Hd by (revert Ho; destruct (opDone x), (started x); simpl; intros; done || lia).
  unfold store_done. rewrite Hd. simpl. assert (pc x ≠ TReturned) as Hpc by (intros E; rewrite Hret in Hd by done; done).
  eexists (set_done x, [AUnblock]). split; [by destruct (pc x)|]. constructor; simpl; try done.
  - intros H1 H2. apply elem_of_cons. right. eapply in_rest; [by apply Hl|done].
  - intros _ _. exists AUnblock. split; [set_solver|by left].
  - intros _ _. exists AUnblock. split; [set_solver|by left].
  - intros _ _. right. set_solver.
  - intros w Hw'. destruct (Hq w Hw') as [?|[?|?]]; [by left|right; left|by right; right]. apply elem_of_cons. right. by eapply in_rest.
  - intros c Hin. apply Hr. set_solver.
  - unfold ncomplete, inflight in *. simpl in *. rewrite Hd in Ho. lia.
Qed.
Lemma exchange_ok t x rest here : agent_sound t x AUnblock rest here.
Proof.
  intros I. simpl.
  eexists. split; [reflexivity|]. destruct I as [Hs Hst Hl Hc Hb Hp Hm Hq Hr Ho Hret Hw]; simpl in *. constructor; simpl; try done.
  - intros H1 _. destruct (unblockLatch x) eqn:L; [|set_solver]. simpl. eapply in_rest; [by apply Hl|done].
  - intros H1 _. destruct (unblockLatch x) eqn:L; [|exists AUnblockLocked; split; [set_solver|by right]].
    exists AUnblockLocked. split; [|by right]. eapply in_rest; [by apply Hl|done].
  - intros H1 _. destruct (unblockLatch x) eqn:L; [|exists AUnblockLocked; split; [set_solver|by right]].
    exists AUnblockLocked. split; [|by right]. eapply in_rest; [by apply Hl|done].
  - intros _ _. by left.
  - intros w Hw'. destruct (Hq w Hw') as [?|[?|?]]; [by left|right; left|by right; right]. apply elem_of_app. right. by eapply in_rest.
  - intros c Hin. apply Hr. destruct (unblockLatch x); set_solver.
  - unfold ncomplete in *. simpl in *. destruct (unblockLatch x); simpl; done.
Qed.
Lemma locked_ok t x rest here : agent_sound t x AUnblockLocked rest here.
Proof.
  intros I. simpl.
  destruct (unblock_locked_ok _ _ here I) as (x' & E & Hnb & Hs' & Hst' & Ex). unfold unblock_locked in E |- *. simpl in E.
  assert (∃ x1, (if decide (runState x = kRunBlocked) then s ← resume (sched x) (tid x) here; Ret (set_sched x s kRunDeferred) else Ret x) = Ret x1 ∧ x1 = set_sched x (sched x') (runState x')) as (x1 & E1 & Ex1).
  { destruct (decide (runState x = kRunBlocked)).
    * destruct (resume (sched x) (tid x) here) as [s|]; [|done]. cbn [mbind outcome_bind] in *. injection E as <-. eexists. by split.
    * injection E as <-. exists x. split; [done|]. by destruct x. }
  rewrite E1. cbn [mbind outcome_bind]. eexists (x1, []). split; [done|]. simpl. rewrite Ex1. clear E E1 Ex1 x1.
  destruct I as [Hs Hst Hl Hc Hb Hp Hm Hq Hr Ho Hret Hw]; simpl in *. constructor; simpl; try done.
  - unfold in_state in *. rewrite Ex in Hst'. simpl in *. destruct (runState x'); done.
  - intros H1 H2. destruct (Hp H1 H2) as [?|?]; [by left|right]. by eapply in_rest.
  - intros w Hw'. destruct (Hq w Hw') as [?|[?|?]]; [by left|right; left|by right; right]. by eapply in_rest.
  - intros c Hin. apply Hr. set_solver.
Qed.
Lemma raise_ok t x c rest here : agent_sound t x (ARaise c) rest here.
Proof.
  intros I. simpl.
  eexists. split; [reflexivity|]. destruct I as [Hs Hst Hl Hc Hb Hp Hm Hq Hr Ho Hret Hw]; simpl in *.
  destruct (Hr c ltac:(set_solver)) as (n & Hn & Hcn).
  assert ((raise_locked x c).1 = set_conditions x (Z.lor (pendingConditions x) c)) as Ex by (unfold raise_locked; repeat case_match; done).
  assert (∀ a, a ∈ (raise_locked x c).2 → a = AUnblock) as Ha by (unfold raise_locked; repeat case_match; set_solver).
  assert (runState x = kRunBlocked → some_of (Z.lor (pendingConditions x) c) (unblockConditions x) = true → ∃ a, a ∈ (raise_locked x c).2 ++ rest ∧ unblocks a) as Hun.
  { intros H1 H2. destruct (some_of (pendingConditions x) (unblockConditions x)) eqn:Hold.
    * destruct (Hc H1 eq_refl) as (a & Hin & Hu). exists a. split; [|done]. apply elem_of_app. right. eapply in_rest; [done|]. by intros ->; destruct Hu.
    * rewrite some_of_lor, Hold in H2. simpl in H2.
      assert (some_of (pendingConditions x) c = false) as Hpc.
      { rewrite Hcn in H2 |- *. rewrite some_of_bit by done. rewrite some_of_comm, some_of_bit in H2 by done.
        rewrite some_of_false in Hold. specialize (Hold n Hn). rewrite H2, andb_true_r in Hold. done. }
      unfold raise_locked. rewrite Hpc. simpl. rewrite decide_True by done. rewrite (some_of_comm _ c), H2. exists AUnblock. split; [set_solver|by left]. }
  rewrite Ex. constructor; simpl; try done.
  - intros H1 H2. apply elem_of_app. right. eapply in_rest; [by apply Hl|done].
  - intros H1 H2. destruct (Hb H1 H2) as (a & Hin & Hu). exists a. split; [|done]. apply elem_of_app. right. eapply in_rest; [done|]. by intros ->; destruct Hu.
  - intros H1 H2. destruct (Hp H1 H2) as [?|?]; [by left|right]. apply elem_of_app. right. by eapply in_rest.
  - intros w Hw'. rewrite Z.lor_spec. destruct (Hq w Hw') as [->|[Hin|?]]; [by left| |by right; right].
    apply elem_of_cons in Hin as [[= <-]|Hin]; [|right; left; set_solver].
    left. rewrite wq_condition_pow, Z.pow2_bits_true by (by destruct w). apply orb_true_r.
  - intros c' [Hin|Hin]%elem_of_app; [by specialize (Ha _ Hin)|]. apply Hr. set_solver.
  - unfold ncomplete in *. simpl in *. rewrite cnt_app, (cnt_zero acompletes (raise_locked x c).2); [exact Ho|]. intros a Hin. by rewrite (Ha a Hin).
Qed.
Lemma post_ok t x w k rest here : agent_sound t x (APost w k) rest here.
Proof.
  intros I. simpl.
  eexists. split; [reflexivity|]. destruct I as [Hs Hst Hl Hc Hb Hp Hm Hq Hr Ho Hret Hw]; simpl in *.
  set (r := match lockedQueue x w with [] => [ARaise (wq_condition w)] | _ => [] end).
  replace (if match lockedQueue x w with [] => true | _ :: _ => false end then [ARaise (wq_condition w)] else []) with r by (unfold r; by destruct (lockedQueue x w)).
  assert (∀ a, a ∈ r → a = ARaise (wq_condition w)) as Ha by (unfold r; destruct (lockedQueue x w); set_solver).
  pose proof (inflight_post x w k) as Hin.
  constructor; simpl; try done.
  - intros H1 H2. apply elem_of_app. right. eapply in_rest; [by apply Hl|done].
  - intros H1 H2. destruct (Hc H1 H2) as (a & Hi & Hu). exists a. split; [|done]. apply elem_of_app. right. eapply in_rest; [done|]. by intros ->; destruct Hu.
  - intros H1 H2. destruct (Hb H1 H2) as (a & Hi & Hu). exists a. split; [|done]. apply elem_of_app. right. eapply in_rest; [done|]. by intros ->; destruct Hu.
  - intros H1 H2. destruct (Hp H1 H2) as [?|?]; [by left|right]. apply elem_of_app. right. by eapply in_rest.
  - intros v Hv. assert (lockedQueue x v ≠ [] ∨ (v = w ∧ lockedQueue x w = [])) as [Hn|[-> Hn]].
    { destruct (decide (v = w)) as [->|]; [|by left]. destruct (lockedQueue x w); [by right|by left]. }
    + destruct (Hq v Hn) as [?|[Hi|?]]; [by left|right; left|by right; right]. apply elem_of_app. right. by eapply in_rest.
    + right. left. unfold r. rewrite Hn. set_solver.
  - intros c [Hi%Ha|Hi]%elem_of_app; [|apply Hr; set_solver]. injection Hi as ->. exists (wq_bit w). split; [by destruct w|apply wq_condition_pow].
  - unfold ncomplete in *. simpl in *. change (inflight (set_agents (log_post (set_locked x w (lockedQueue x w ++ [k])) (wl_id k)) (r ++ rest))) with (inflight (set_locked x w (lockedQueue x w ++ [k]))).
    change (inflight (set_agents x (APost w k :: rest))) with (inflight x) in Ho. rewrite (cnt_perm _ _ _ Hin). rewrite cnt_app, (cnt_zero acompletes r); [|intros a Hi; by rewrite (Ha a Hi)]. simpl. lia.
  - change (inflight _) with (inflight (set_locked x w (lockedQueue x w ++ [k]))). rewrite Hin. simpl. change (inflight (set_agents x (APost w k :: rest))) with (inflight x) in Hw.
    rewrite <-Hw. rewrite <-Permutation_middle. by rewrite (Permutation_app_comm _ [wl_id k]).
Qed.
Lemma agent_ok t x a rest here : agent_sound t x a rest here.
Proof. destruct a; [apply complete_ok|apply exchange_ok|apply locked_ok|apply raise_ok|apply post_ok]. Qed.
Lemma run_agent_ok t x n here : winv t x → ∃ x', run_agent x n here = Ret x' ∧ winv t x'.
Proof.
  intros I. unfold run_agent. destruct (agents x !! n) as [a|] eqn:E; [|by exists x].
  assert (agents x ≡ₚ a :: (take n (agents x) ++ drop (S n) (agents x))) as P.
  { rewrite <-(take_drop_middle _ _ _ E) at 1. by rewrite Permutation_middle. }
  rewrite <-(set_agents_self x) in I. apply (winv_agents _ _ _ _ P) in I. destruct (agent_ok t x a _ here I) as (r & -> & I'). cbn [mbind outcome_bind].
  eexists. split; [reflexivity|]. eapply winv_agents; [|exact I']. rewrite !app_assoc. apply Permutation_app_tail. by rewrite Permutation_app_comm.
Qed.
Lemma spawn_winv t x a : winv t x → spawn_ok x a → ∃ x', wexec x (WSpawn a) = Ret x' ∧ winv t x'.
Proof.
  intros I A. simpl. eexists. split; [reflexivity|].
  set (x1 := match a with AComplete | APost _ (MkWorklet _ true) => set_started x | _ => x end).
  assert (set_agents x1 (agents x1 ++ [a]) = set_agents x1 (agents x ++ [a])) as -> by (unfold x1; repeat case_match; done).
  eapply winv_agents; [apply Permutation_cons_append|].
  assert (x1 = x ∨ x1 = set_started x) as Hx by (unfold x1; repeat case_match; auto).
  destruct I as [Hs Hst Hl Hc Hb Hp Hm Hq Hr Ho Hret Hw].
  assert ((if opDone x then 1 else 0) + (cnt acompletes (a :: agents x) + cnt completes (inflight x)) ≤ if started x1 then 1 else 0)%nat as Ho'.
  { unfold ncomplete in Ho. unfold cnt at 1. simpl. fold (cnt acompletes (agents x)). unfold x1.
    destruct a as [| | | |w [i []]]; simpl in *; rewrite ?A in *; try lia. }
  assert (∀ c, ARaise c ∈ a :: agents x → ∃ n, 0 ≤ n ∧ c = 2 ^ n) as Hr'.
  { intros c [<-|Hin]%elem_of_cons; [|by apply Hr]. destruct A as [-> | [-> | ->]]; [exists 0|exists 3|exists 4]; done. }
  assert (∀ P : agent → Prop, (∃ a', a' ∈ agents x ∧ P a') → ∃ a', a' ∈ a :: agents x ∧ P a') as Hex by (intros P (a' & ? & ?); exists a'; split; [set_solver|done]).
  destruct Hx as [-> | ->]; (constructor; simpl; try done).
  all: try (intros; apply Hex; by auto).
  all: try (intros; apply elem_of_cons; right; by auto).
  all: try (intros ? ?; destruct (Hp ltac:(done) ltac:(done)); [by left|right; set_solver]).
  all: intros w Hn; destruct (Hq w Hn) as [?|[?|?]]; [by left|right; left; set_solver|by right; right].
Qed.
Lemma current_running t x : winv t x → is_current (sched x) (tid x) = true → runState x = kRunActive ∧ current (sched x) = Some (Regular (tid x)).
Proof.
  intros I C. pose proof (w_state _ _ I) as St. unfold in_state in St. split.
  - destruct (runState x); [done|destruct St; congruence|]. destruct St as (Ha & _).
    destruct (attached_off _ _ (i_wf _ _ (w_sched _ _ I)) Ha) as (_ & _ & Hc). congruence.
  - unfold is_current in C. destruct (current (sched x)) as [[|c]|]; try done. by apply Nat.eqb_eq in C as ->.
Qed.
Lemma sched_ok t x ev : winv t x → allowed t (sched x) ev → others x ev → ∃ x', wexec x (WSched ev) = Ret x' ∧ winv (ends t ev) x'.
Proof.
  intros I A O. simpl. destruct (sched_exec_ok t (sched x) ev (w_sched _ _ I) A) as (s & -> & Is & _ & _ & _ & _ & Tr). cbn [mbind outcome_bind].
  specialize (Tr (tid x)). destruct Tr as [Ta Tl].
  { destruct ev; simpl in *; try done; try congruence. intros [?|?]; [destruct O; congruence|by apply O]. }
  assert (∃ r, switched x s = Ret (set_sched x s r) ∧ in_state (set_sched x s r) ∧ (r = kRunBlocked → runState x = kRunBlocked)) as (r & -> & Hin & Hb).
  { pose proof (w_state _ _ I) as St. unfold switched. destruct (is_current (sched x) (tid x)) eqn:C.
    - destruct (current_running t x I C) as [R Cr]. pose proof (current_active _ _ (i_wf _ _ (w_sched _ _ I)) Cr) as Hact.
      destruct (is_current s (tid x)) eqn:C'; (rewrite assert_bind by (by apply bool_decide_true)); eexists; (split; [reflexivity|]); unfold in_state; simpl; [done|].
      split; [|done]. split; [done|]. apply Tl. by right.
    - unfold in_state in St. destruct (is_current s (tid x)) eqn:C'.
      + assert (runState x = kRunDeferred) as R.
        { destruct (runState x); [congruence|done|]. destruct St as (Ha & _). destruct (attached_off s _ (i_wf _ _ Is) (Ta Ha)) as (_ & _ & Hc). congruence. }
        rewrite assert_bind by (by apply bool_decide_true). eexists. split; [reflexivity|]. unfold in_state. simpl. done.
      + eexists. split; [reflexivity|]. split; [|done]. unfold in_state. simpl. destruct (runState x); [congruence|by destruct St; auto|by destruct St; auto]. }
  eexists. split; [reflexivity|]. destruct I as [Hs Hst Hl Hc Hbl Hp Hm Hq Hr Ho Hret Hw]. constructor; simpl; auto.
Qed.
Lemma thread_calm t t' x x' : winv t x → t ≤ t' → is_current (sched x) (tid x) = true →
  sched x' = sched x → tid x' = tid x → runState x' = runState x → agents x' = agents x →
  (past_check (pc x') = true → opDone x' = true → unblockLatch x' = true ∨ AUnblock ∈ agents x) →
  (∀ c, pc x' = TBlock c ∨ pc x' = TLocked c → covers c) →
  (∀ w, lockedQueue x' w ≠ [] → Z.testbit (pendingConditions x') (wq_bit w) = true ∨ ARaise (wq_condition w) ∈ agents x ∨ will_recheck (pc x') w) →
  ((if opDone x' then 1 else 0) + ncomplete x' ≤ if started x' then 1 else 0)%nat →
  (pc x' = TReturned → opDone x' = true) → ran x' ++ (wl_id <$> inflight x') ≡ₚ posted x' → winv t' x'.
Proof.
  intros I Ht C Es Et Er Ea. destruct (current_running t x I C) as [R _]. rewrite R in Er. intros.
  constructor; try done; rewrite ?Es, ?Ea, ?Er; try done.
  - eapply sinv_later; [done|]. apply I.
  - unfold in_state. by rewrite Er, Es, Et.
  - apply I.
Qed.
Lemma inflight_goto x p : pc_work p = pc_work (pc x) → inflight (goto x p) = inflight x.
Proof. unfold inflight. simpl. by intros ->. Qed.
Lemma block_step_ok t x c now later : winv t x → is_current (sched x) (tid x) = true → t ≤ now ≤ later → pc x = TLocked c → unblockLatch x = false →
  some_of (pendingConditions x) c = false → ∃ s, blockCurrent (sched x) now later = Ret s ∧ winv later (goto (set_unblock (set_sched x s kRunBlocked) c) TCheckDone).
Proof.
  intros I C Ht E L P. destruct (current_running t x I C) as [R Cr].
  destruct (block_ok t (sched x) (tid x) now later (w_sched _ _ I) Cr Ht) as (s & -> & Is & _ & _ & Ha). eexists. split; [reflexivity|].
  destruct I as [Hs Hst Hl Hc Hbl Hp Hm Hq Hr Ho Hret Hw]. constructor; simpl; try done.
  - unfold in_state. simpl. split_and!; [done|done|]. apply Hm. by right.
  - congruence.
  - congruence.
  - intros _ Hd. rewrite E in Hp. destruct (Hp eq_refl Hd) as [?|?]; [congruence|]. exists AUnblock. split; [done|by left].
  - by intros c' [?|?].
  - intros w Hn. destruct (Hq w Hn) as [?|[?|Hx]]; [by left|by right; left|]. rewrite E in Hx. by destruct Hx.
  - unfold ncomplete in *. unfold inflight in *. rewrite E in Ho. exact Ho.
  - unfold inflight in *. rewrite E in Hw. exact Hw.
Qed.
(** The obligations of [thread_calm] that hold because a step changes only where the thread is *)
Ltac calm E Hq Ho Hw :=
  simpl; try done;
  lazymatch goal with
  | |- ∀ c, _ ∨ _ → covers c => try (by intros ? [?|?])
  | |- ∀ w, _ ≠ [] → _ => let w := fresh in let Hn := fresh in let Hx := fresh in
      try solve [intros w Hn; destruct (Hq w Hn) as [?|[?|Hx]]; [by left|by right; left|by destruct Hx]]
  | |- context [ncomplete] => unfold ncomplete, inflight in *; simpl; rewrite E in Ho; first [exact Ho | match goal with D : opDone _ = _ |- _ => rewrite D; exact Ho end]
  | |- _ ≡ₚ _ => unfold inflight in *; simpl; rewrite E in Hw; exact Hw
  | |- _ => idtac
  end.
Lemma inflight_take x w a : pc_work (pc x) = [] → inflight (goto (set_locked x w []) (TWork w a (lockedQueue x w))) ≡ₚ inflight x.
Proof. intros E. unfold inflight. rewrite E. destruct w; simpl; [done|]. rewrite app_nil_r. by rewrite Permutation_app_comm. Qed.
(** A step of a worklet, which may complete the operation *)
Lemma worklet_ok t later x w a k l now : winv t x → t ≤ later → is_current (sched x) (tid x) = true → pc x = TWork w a (k :: l) →
  ∃ x', thread_step x now later = Ret x' ∧ winv later x'.
Proof.
  intros I Hl C E. pose proof (w_queue _ _ I) as Hq. pose proof (w_once _ _ I) as Ho. pose proof (w_work _ _ I) as Hw. unfold thread_step. rewrite E in Hq |- *.
  unfold ncomplete, inflight in Ho. unfold inflight in Hw. rewrite E in Ho, Hw. simpl in Ho, Hw.
  assert (∀ v, lockedQueue x v ≠ [] → Z.testbit (pendingConditions x) (wq_bit v) = true ∨ ARaise (wq_condition v) ∈ agents x) as Hq'.
  { intros v Hn. destruct (Hq v Hn) as [?|[?|Hx]]; [by left|by right|by destruct Hx]. }
  cbv zeta. destruct (completes k) eqn:K.
  - assert (opDone x = false) as Hd by (revert Ho; destruct (opDone x), (started x); simpl; intros; done || lia).
    unfold store_done. simpl. rewrite Hd, E. cbn [negb assert mbind outcome_bind]. eexists. split; [reflexivity|].
    apply (thread_calm t later x _ I Hl C); simpl; try done; [by intros ? [?|?]|intros v Hn; destruct (Hq' v Hn); auto| |].
    + unfold ncomplete, inflight. simpl. rewrite Hd in Ho. lia.
    + unfold inflight. simpl. by rewrite <-app_assoc.
  - eexists. split; [reflexivity|].
    apply (thread_calm t later x _ I Hl C); simpl; try done; [by intros ? [?|?]|intros v Hn; destruct (Hq' v Hn); auto|].
    unfold inflight. simpl. by rewrite <-app_assoc.
Qed.
Lemma thread_ok t x now later : winv t x → is_current (sched x) (tid x) = true → t ≤ now ≤ later → ∃ x', thread_step x now later = Ret x' ∧ winv later x'.
Proof.
  intros I C Ht. destruct (current_running t x I C) as [R Cr]. assert (t ≤ later) as Hl by lia.
  pose proof (w_past _ _ I) as Hp. pose proof (w_mask _ _ I) as Hm. pose proof (w_queue _ _ I) as Hq. pose proof (w_once _ _ I) as Ho. pose proof (w_returned _ _ I) as Hret. pose proof (w_work _ _ I) as Hw.
  unfold thread_step, take_work, block_locked. destruct (pc x) as [| | |w a|w a l|w a l|w a l|w|w|c|c|] eqn:E.
  - destruct (opDone x) eqn:D; eexists; (split; [reflexivity|]); (apply (thread_calm t later x _ I Hl C); calm E Hq Ho Hw).
    congruence.
  - cbv zeta. destruct (some_of (pendingConditions x) wqConditions).
    { eexists. split; [reflexivity|]. apply (thread_calm t later x _ I Hl C); calm E Hq Ho Hw. }
    destruct (interruptible x && some_of (pendingConditions x) (effectiveCancel x)).
    { eexists. split; [reflexivity|]. apply (thread_calm t later x _ I Hl C); calm E Hq Ho Hw. }
    eexists. split; [reflexivity|]. apply (thread_calm t later x _ I Hl C); calm E Hq Ho Hw.
    intros c [[= <-]|?]; [|done]. destruct (interruptible x); [apply covers_lor|]; apply covers_wq.
  - cbv zeta. destruct (some_of (pendingConditions x) exceptionalWq); [|destruct (some_of (pendingConditions x) passiveWq)];
      (eexists; split; [reflexivity|]; apply (thread_calm t later x _ I Hl C); calm E Hq Ho Hw).
  - eexists. split; [reflexivity|]. pose proof (inflight_take x w a) as Hin. rewrite E in Hin. specialize (Hin eq_refl).
    apply (thread_calm t later x _ I Hl C); simpl; try done; [by intros ? [?|?]| | |].
    + intros v Hn. destruct (decide (v = w)) as [->|Hv]; [done|]. destruct (Hq v Hn) as [?|[?|[?|[= ? ?]]]]; [by left|by right; left|done|congruence].
    + unfold ncomplete in *. rewrite (cnt_perm _ _ _ Hin). exact Ho.
    + rewrite Hin. exact Hw.
  - destruct l as [|k l].
    + destruct a; (eexists; split; [reflexivity|]; apply (thread_calm t later x _ I Hl C); calm E Hq Ho Hw).
    + destruct (worklet_ok t later x w a k l now I Hl C E) as (x' & E' & I'). exists x'. unfold thread_step in E'. rewrite E in E'. by split.
  - destruct (unblockLatch x); (eexists; split; [reflexivity|]; apply (thread_calm t later x _ I Hl C); calm E Hq Ho Hw).
  - unfold unblock_locked. rewrite decide_False by congruence. cbn [mbind outcome_bind]. eexists; split; [reflexivity|]; apply (thread_calm t later x _ I Hl C); calm E Hq Ho Hw.
  - eexists. split; [reflexivity|]. apply (thread_calm t later x _ I Hl C); calm E Hq Ho Hw.
    intros v Hn. destruct (decide (v = w)) as [->|Hv]; [right; right; by left|]. destruct (Hq v Hn) as [Hb|[?|Hx]]; [left|by right; left|by destruct Hx].
    rewrite Z.ldiff_spec, Hb, wq_condition_pow, Z.pow2_bits_false by (destruct v, w; done). done.
  - destruct (lockedQueue x w) eqn:Q; (eexists; split; [reflexivity|]; apply (thread_calm t later x _ I Hl C); calm E Hq Ho Hw).
    all: intros v Hn; destruct (Hq v Hn) as [?|[?|[[= <-]|?]]]; [by left|by right; left|first [congruence|right; right; by right]|done].
  - destruct (unblockLatch x) eqn:L; (eexists; split; [reflexivity|]; apply (thread_calm t later x _ I Hl C); calm E Hq Ho Hw).
    intros c0 [?|[= <-]]; [done|]. apply Hm. by left.
  - destruct (unblockLatch x) eqn:L; [eexists; split; [reflexivity|]; apply (thread_calm t later x _ I Hl C); calm E Hq Ho Hw|].
    destruct (some_of (pendingConditions x) c) eqn:P; [eexists; split; [reflexivity|]; apply (thread_calm t later x _ I Hl C); calm E Hq Ho Hw|].
    rewrite assert_bind by (by apply bool_decide_true). destruct (block_step_ok t x c now later I C Ht E L P) as (s & -> & I'). cbn [mbind outcome_bind]. eexists. split; [reflexivity|]. exact I'.
  - exists x. split; [done|]. apply (thread_calm t later x _ I Hl C); try done; rewrite E; done.
Qed.
Lemma winv_later t t' x : t ≤ t' → winv t x → winv t' x.
Proof. intros ? []. constructor; try done. by eapply sinv_later. Qed.
Lemma wexec_ok t x ev : winv t x → wallowed t x ev → ∃ x', wexec x ev = Ret x' ∧ winv (wends t x ev) x'.
Proof.
  intros I A. destruct ev as [now later|n here|a|ev]; simpl in A.
  - cbn [wexec wends]. destruct (is_current (sched x) (tid x)) eqn:C; [by apply (thread_ok t)|]. exists x. split; [done|]. eapply winv_later; [|done]. lia.
  - by apply run_agent_ok.
  - by apply spawn_winv.
  - destruct A. by apply sched_ok.
Qed.
Lemma start_winv t s id latch pending inter masked : reachable t s → is_current s id = true → winv t (wait_start s id latch pending inter masked).
Proof.
  intros R C. constructor; simpl; try done.
  - by apply reachable_sinv.
  - by intros c [?|?].
  - intros c. set_solver.
Qed.
Lemma wreachable_winv t x : wreachable t x → winv t x.
Proof.
  induction 1 as [t s id latch pending inter masked R C|t x ev x' _ IH A E]; [by apply start_winv|].
  destruct (wexec_ok t x ev IH A) as (x'' & E' & I). congruence.
Qed.

(** ** Agents finish *)
Definition weight (a : agent) : nat := match a with AComplete | ARaise _ => 3 | AUnblock => 2 | AUnblockLocked => 1 | APost _ _ => 4 end.
Definition loads (l : list agent) : nat := foldr (λ a n, weight a + n)%nat 0%nat l.
Lemma loads_app l l' : loads (l ++ l') = (loads l + loads l')%nat.
Proof. unfold loads. induction l; simpl; lia. Qed.
Definition load (x : World) : nat := loads (agents x).
(** Everybody else runs to the end. *)
Fixpoint settle (n : nat) (here : bool) (x : World) : outcome World :=
  match agents x, n with
  | [], _ => Ret x
  | _, O => Stop OutOfFuel
  | _, S n => x ← run_agent x 0 here; settle n here x
  end.
Definition will_be_done (x : World) : Prop := opDone x = true ∨ AComplete ∈ agents x.
Lemma agent_step_lighter x a here r : agent_step x a here = Ret r → (loads r.2 < weight a)%nat.
Proof.
  destruct a as [| | |c|w k]; simpl; intros E; inv_outcome; subst; simpl; try lia.
  - destruct (unblockLatch x); simpl; lia.
  - unfold raise_locked. repeat case_match; simpl; lia.
  - destruct (lockedQueue x w); simpl; lia.
Qed.
Lemma agent_step_keeps x a here r : agent_step x a here = Ret r → tid r.1 = tid x ∧ ran r.1 = ran x ∧ (opDone x = true → opDone r.1 = true) ∧ (a = AComplete → opDone r.1 = true).
Proof.
  destruct a as [| | |c|w k]; simpl; intros E; inv_outcome; subst; simpl; try done.
  - unfold store_done in *. inv_outcome. destruct (pc x); inv_outcome; by subst.
  - unfold unblock_locked in *. case_decide; inv_outcome; by subst.
  - unfold raise_locked. repeat case_match; done.
Qed.
Lemma agents_settle n here t : ∀ x, winv t x → (load x ≤ n)%nat → ∃ x', settle n here x = Ret x' ∧ agents x' = [] ∧ winv t x' ∧ ran x' = ran x ∧ (will_be_done x → opDone x' = true).
Proof.
  induction n as [|n IH]; intros x I L; unfold load in L; simpl; destruct (agents x) as [|a rest] eqn:E; simpl in L.
  1, 3: exists x; split_and!; try done; unfold will_be_done; rewrite E; intros [?|?]; [done|set_solver].
  { destruct a; simpl in L; lia. }
  destruct (run_agent_ok t x 0 here I) as (x1 & E1 & I1). rewrite E1. cbn [mbind outcome_bind].
  unfold run_agent in E1. rewrite E in E1. simpl in E1. destruct (agent_step x a here) as [r|] eqn:Es; [|done]. injection E1 as <-.
  pose proof (agent_step_lighter _ _ _ _ Es) as Hl. destruct (agent_step_keeps _ _ _ _ Es) as (Ht & Hr & Hd & Ha).
  destruct (IH _ I1) as (x' & E' & Hag & I' & Hran & Hw).
  { unfold load. simpl. rewrite loads_app. fold (loads rest) in L. rewrite drop_0. lia. }
  exists x'. split_and!; [done|done|done|by rewrite Hran|]. intros Hwb. apply Hw. unfold will_be_done in *. simpl. rewrite E in Hwb. destruct Hwb as [?|[<-|?]%elem_of_cons]; [left; auto|left; auto|right; set_solver].
Qed.

(** ** The thread returns *)
Definition tbase (p : tpc) : nat :=
  match p with
  | TReturned => 0 | TCheckDone => 1
  | TWork _ true _ => 2 | TUnblock _ true _ => 3 | TStored _ true _ => 4
  | TRun _ true => 3 | TRecheck _ => 4 | TClear _ => 5
  | TWork _ false _ => 6 | TUnblock _ false _ => 7 | TStored _ false _ => 8
  | TRun _ false => 7 | TRunWqs => 8 | TLoad => 9 | TBlock _ => 2 | TLocked _ => 2
  end.
Definition tmeasure (x : World) : nat := tbase (pc x) + 3 * length (inflight x).
Fixpoint thread_run (n : nat) (now : Z) (x : World) : outcome World :=
  match pc x, n with
  | TReturned, _ => Ret x
  | _, O => Stop OutOfFuel
  | _, S n => x ← thread_step x now now; thread_run n now x
  end.
Definition finishing (x : World) : Prop := is_current (sched x) (tid x) = true ∧ opDone x = true ∧ agents x = [].
Lemma finish_step t x : winv t x → finishing x → pc x ≠ TReturned → ∃ x', thread_step x t t = Ret x' ∧ winv t x' ∧ finishing x' ∧ sched x' = sched x ∧ (tmeasure x' < tmeasure x)%nat.
Proof.
  intros I (C & D & A) Hne. destruct (thread_ok t x t t I C ltac:(lia)) as (x' & E & I'). exists x'. split_and!; [done|done| | |].
  all: pose proof (w_past _ _ I) as Hp; pose proof (w_once _ _ I) as Ho; destruct (current_running t x I C) as [R _].
  all: unfold thread_step, take_work, block_locked, store_done, finishing, tmeasure, ncomplete, inflight in *; destruct (pc x) as [| | |w a|w a l|w a l|w a l|w|w|c|c|] eqn:P; rewrite ?A, ?D in *.
  all: try (destruct (Hp eq_refl eq_refl) as [L|L]; [rewrite L in E|set_solver]).
  all: try (unfold unblock_locked in E; rewrite decide_False in E by congruence; cbn [mbind outcome_bind] in E).
  all: try (destruct l as [|k l]; [|destruct (completes k) eqn:K; [exfalso; simpl in Ho; rewrite K in Ho; destruct (started x); lia|]]).
  all: repeat case_match; try done; inv_outcome; subst; simpl; try done; rewrite ?length_app; simpl; try lia.
  all: try destruct w; destruct a; simpl; lia.
Qed.
Lemma finishing_returns t n : ∀ x, winv t x → finishing x → (tmeasure x ≤ n)%nat → ∃ x', thread_run n t x = Ret x' ∧ pc x' = TReturned ∧ sched x' = sched x ∧ runState x' = kRunActive.
Proof.
  induction n as [|n IH]; intros x I F M; assert (pc x = TReturned ∨ pc x ≠ TReturned) as [P|P] by (destruct (pc x); auto); simpl.
  - exists x. rewrite P. split_and!; try done. by apply (current_running t x I), F.
  - exfalso. unfold tmeasure in M. assert (0 < tbase (pc x))%nat by (destruct (pc x) as [| | |? []|? [] ?|? [] ?|? [] ?| | | | |]; simpl; try lia; done). lia.
  - exists x. rewrite P. split_and!; try done. by apply (current_running t x I), F.
  - destruct (finish_step t x I F P) as (x1 & E & I1 & F1 & S1 & M1). destruct (IH x1 I1 F1) as (x' & E' & P' & S' & R'); [lia|].
    exists x'. split_and!; [|done|congruence|done]. destruct (pc x); try done; rewrite E; exact E'.
Qed.

(** ** The claims *)

(** C11: Whatever the thread, the agents and the scheduler do, in any order, no assertion of
    thread.cpp, thread.hpp and schedule.cpp fails: the thread blocks only while it is
    active, it is invoked only while it is deferred and resumed only while its entity is
    attached, and the result is stored once, before the operation's state is gone. *)
Theorem thread_sound t x ev : wreachable t x → wallowed t x ev → ∃ x', wexec x ev = Ret x'.
Proof. intros R A. destruct (wexec_ok t x ev (wreachable_winv t x R) A) as (x' & E & _). by exists x'. Qed.

(** C10: No wake-up of a thread is lost: when everybody else has finished, the thread is blocked only
    if its operation is not done, nothing is in its work queues, everything that was posted
    has run, and no condition that it waits for is pending; otherwise the scheduler has it
    as current, waiting or pending. *)
Theorem thread_woken t x here : wreachable t x →
  ∃ x', settle (load x) here x = Ret x' ∧ agents x' = [] ∧ (will_be_done x → opDone x' = true) ∧
    (runState x' = kRunBlocked → opDone x' = false ∧ (∀ w, lockedQueue x' w = []) ∧ ran x' ≡ₚ posted x' ∧ some_of (pendingConditions x') (unblockConditions x') = false) ∧
    (runState x' ≠ kRunBlocked → live (state (entity (sched x') (tid x')))).
Proof.
  intros R. destruct (agents_settle (load x) here t x (wreachable_winv t x R) ltac:(done)) as (x' & E & A & I & _ & D).
  exists x'. split_and!; [done..| |].
  - intros Hb. pose proof (w_state _ _ I) as St. unfold in_state in St. rewrite Hb in St. destruct St as (_ & P & Cv).
    assert (some_of (pendingConditions x') (unblockConditions x') = false) as Hc.
    { apply not_true_iff_false. intros Hc. destruct (w_cond _ _ I Hb Hc) as (a & Hin & _). rewrite A in Hin. set_solver. }
    assert (∀ w, lockedQueue x' w = []) as Hq.
    { intros w. destruct (decide (lockedQueue x' w = [])) as [|Hn]; [done|]. exfalso. destruct (w_queue _ _ I w Hn) as [Hbit|[Hin|Hr]].
      - by rewrite (covers_some _ _ w Cv Hbit) in Hc.
      - rewrite A in Hin. set_solver.
      - rewrite P in Hr. by destruct Hr. }
    split_and!; [|done| |done].
    + apply not_true_iff_false. intros Hd. destruct (w_blocked _ _ I Hb Hd) as (a & Hin & _). rewrite A in Hin. set_solver.
    + pose proof (w_work _ _ I) as Hw. unfold inflight in Hw. rewrite P, !Hq in Hw. simpl in Hw. by rewrite app_nil_r in Hw.
  - intros Hb. pose proof (w_state _ _ I) as St. unfold in_state in St. destruct (runState x') eqn:Er; [|by apply St|done].
    right. eapply current_active; [apply (w_sched _ _ I)|]. by apply (current_running t).
Qed.

(** C12: Once its operation is done and everybody else has finished, a thread that has the processor
    returns from [asyncBlockCurrent] after a bounded number of its own steps, without
    blocking again, whatever is left of the latch and of the work in its queues. *)
Theorem operation_returns t x now : wreachable t x → is_current (sched x) (tid x) = true → opDone x = true → agents x = [] → t ≤ now →
  ∃ x', thread_run (tmeasure x) now x = Ret x' ∧ pc x' = TReturned ∧ sched x' = sched x ∧ runState x' = kRunActive.
Proof.
  intros R C D A Ht. apply (finishing_returns now); [|by split_and!|done]. eapply winv_later; [exact Ht|]. by apply wreachable_winv.
Qed.
End thread.

(** ** An example

    The only thread of a processor waits, blocks, gets some work, and then the operation is
    completed by another processor. *)
Definition wnext (x : World) (ev : wevent) : World := match wexec x ev with Ret x' => x' | Stop _ => x end.
Lemma wnext_reach t x ev : wreachable t x → wallowed t x ev → wreachable (wends t x ev) (wnext x ev).
Proof.
  intros R A. destruct (wexec_ok t x ev (wreachable_winv t x R) A) as (x' & E & _). unfold wnext. rewrite E. by eapply wreach_event.
Qed.
Ltac wstep R ev := apply (wnext_reach _ _ ev) in R; [|cbn; repeat split; try done; lia].
Definition waiting : World := foldl wnext (wait_start one_running 0 true 0 true 0) [WThread 7 7; WThread 7 7; WThread 7 7; WThread 7 7; WThread 7 7; WThread 7 7; WThread 7 7].
Definition to_wake : World := foldl wnext waiting [WSpawn (APost Passive (MkWorklet 9 false)); WSpawn AComplete].
Definition woken : World := foldl wnext to_wake [WAgent 1 false; WAgent 0 false; WAgent 1 false; WAgent 0 false; WAgent 0 false; WAgent 0 false; WAgent 0 false; WSched EvPing; WSched (EvCheck 8 8)].
Lemma waiting_reachable : wreachable 7 waiting.
Proof.
  pose proof (wreach_start 6 one_running 0 true 0 true 0 one_running_reachable eq_refl) as R.
  do 7 wstep R (WThread 7 7). exact R.
Qed.
Lemma to_wake_reachable : wreachable 7 to_wake.
Proof. pose proof waiting_reachable as R. wstep R (WSpawn (APost Passive (MkWorklet 9 false))). wstep R (WSpawn AComplete). exact R. Qed.
Lemma woken_reachable : wreachable 8 woken.
Proof.
  pose proof to_wake_reachable as R. wstep R (WAgent 1 false). wstep R (WAgent 0 false). wstep R (WAgent 1 false).
  do 4 wstep R (WAgent 0 false). wstep R (WSched EvPing). wstep R (WSched (EvCheck 8 8)). exact R.
Qed.

Lemma thread_sound_witness : ∃ x', wexec to_wake (WAgent 1 false) = Ret x'.
Proof. apply (thread_sound 7 to_wake (WAgent 1 false)); [exact to_wake_reachable|exact I]. Defined.
Lemma thread_woken_witness : ∃ x', settle (load to_wake) false to_wake = Ret x' ∧ agents x' = [] ∧ (will_be_done to_wake → opDone x' = true) ∧
    (runState x' = kRunBlocked → opDone x' = false ∧ (∀ w, lockedQueue x' w = []) ∧ ran x' ≡ₚ posted x' ∧ some_of (pendingConditions x') (unblockConditions x') = false) ∧
    (runState x' ≠ kRunBlocked → live (state (entity (sched x') (tid x')))).
Proof. apply (thread_woken 7 to_wake false). exact to_wake_reachable. Defined.
Lemma operation_returns_witness : ∃ x', thread_run (tmeasure woken) 9 woken = Ret x' ∧ pc x' = TReturned ∧ sched x' = sched woken ∧ runState x' = kRunActive.
Proof. apply (operation_returns 8 woken 9); [exact woken_reachable|reflexivity|reflexivity|reflexivity|lia]. Defined.
